(* ===== verification/_CoqProject ===== *)
-Q . S2P
Prelude.v
Params.v
ProcState.v
Sched.v
SchedInv.v
SchedPick.v
SchedShare.v
SchedThms.v
Block.v
Bio.v
BioInv.v
BioSpec.v
Log.v
LogSpec.v
LogCrash.v
LogOps.v
LogBoot.v
LogThms.v
Str.v
Store.v
Fs.v
FsAlloc.v
FsTree.v
FsMap.v
FsContent.v
FsWrite.v
FsInode.v
FsThms.v
FsIcache.v
Mkfs.v
MkfsThms.v
MkfsMain.v
Kalloc.v
KallocInv.v
Vm.v
VmInv.v
VmUser.v
VmGrow.v
VmThms.v
Pipe.v
Console.v
ConsoleThms.v
Spinlock.v
Proc.v
ProcInv.v
ProcThms.v
ProcSched.v
ProcLife.v
ProcWait.v
File.v
FileThms.v
Syscall.v
Kernel.v
SyscallThms.v
Sysfile.v
Exec.v
ExecThms.v
Sysproc.v
Kbd.v
Trap.v
TrapInv.v
TrapThms.v
Ulib.v
Umalloc.v
UmallocInv.v
UmallocThms.v
Sh.v
ShSpec.v
ShThms.v
ShParse.v
Grep.v
User.v
ShRun.v
Hw.v
Devices.v
Ide.v
IdeThms.v
Mp.v
Boot.v
Cpu.v
