(* ===== verification/Prelude.v ===== *)
(** * A verification of the extended xv6 kernel (OperationSystemProject)

    The program is the xv6 teaching kernel for the 32-bit x86 (src/xv6-public), extended
    with a scheduler of three feedback queues and stride shares, light-weight threads, a
    log with delayed commit, files with double and triple indirect blocks, and
    positioned reads and writes.  This library models its C code and proves what makes
    the parts correct, alone and put together.

    ** How the code is modelled

    A C function is a function of the same name in the monad [M S] of this file: a state
    transformer over the component's state [S] that returns, panics, faults (an access C
    leaves undefined: a null or wild pointer, an index out of its array, a division by
    zero) or puts the process to sleep on a channel.  A process that has slept takes up
    at the head of the loop that contains the call of [sleep]; where locals live across
    the sleep, the loop is a definition of its own with the locals as arguments.
    Integers are [Z], kept at their width with [u32], [s32], [s16] where the code can
    wrap.  Pointers into a static array are indices, null pointers [None] or 0.  Spin
    locks are flags of the component whose double acquisition panics, as in the code; that
    they exclude each other between processors is the subject of [Spinlock].  A context
    switch cuts a function in the part before it and the part after ([yield_begin] and
    [yield_end], [sleep_begin] and [sleep_end], [scheduler_visit] and [scheduler_back]).
    Loops without a bound in the text run on fuel computed from the state; running out is a
    fault, and the theorems show that the functions return.

    ** The parts and their files

    - Constants of param.h, fs.h, mmu.h, memlayout.h, stat.h: [Params].
    - myscheduler.c and the process table of proc.h: [ProcState] (the records and
      arrays), [Sched] (every function); [SchedInv], [SchedPick], [SchedShare]
      prove the invariants and the behaviour of the operations, [SchedThms]
      has the theorems: boost, tick accounting, the choice of the next process, round robin
      among threads, the shares of set_cpu_share.
    - bio.c over memide.c (the kernel without a disk), sleeplock.c, log.c: [Block], [Bio], [Log]; [BioInv] and
      [BioSpec] say what the cache promises, [LogSpec], [LogCrash], [LogOps], [LogBoot] lead
      to [LogThms]: a crash at any disk write of a commit leaves all or nothing of the
      transaction after recovery, recovery can be interrupted and repeated.
    - string.c: [Str].
    - fs.c: [Fs] over the class [BlockStore] of [Store], which the storage stack
      implements ([storage_spec]); [FsAlloc] (bitmap), [FsTree] and [FsMap] (the tree of
      blocks and bmap), [FsContent], [FsWrite], [FsInode] (reading, writing, the on-disk
      inode), [FsIcache] (the inode cache), [FsThms].  mkfs.c: [Mkfs], [MkfsThms],
      [MkfsMain]: the image it makes is the one the kernel reads.
    - [Hw] has the port instructions of x86.h and what an ATA controller does, as classes.
      Over it: picirq.c, ioapic.c, lapic.c, uart.c ([Devices]); ide.c ([Ide]),
      whose specification is memide.c ([IdeThms]: the queue serves every request as the
      memory disk would); mp.c ([Mp]); bootmain.c ([Boot]); the segment and gate descriptors of
      mmu.h, seginit, tvinit and mycpu ([Cpu]), as the words the processor reads.
    - kalloc.c: [Kalloc], [KallocInv].  vm.c: [Vm], [VmInv] (translation), [VmUser],
      [VmGrow], [VmThms], over a byte-addressed physical memory in which the page tables
      live.
    - pipe.c: [Pipe], which implements a bounded queue.  console.c: [Console],
      [ConsoleThms]: the input is a line editor, the output stays on the screen.
      spinlock.c: [Spinlock], on several processors, in every interleaving.
    - proc.c: [Proc] over the class [ProcEnv] of what it calls; [ProcInv] (the invariant of
      the table, by rules that follow the code), [ProcThms] (sleep and wakeup),
      [ProcSched] (the scheduler loop), [ProcLife] and [ProcWait] (fork, exit, wait).
    - file.c: [File] over the class [FileEnv], [FileThms].  syscall.c: [Syscall] (arguments)
      over the class [UserMem], [SyscallThms].
    - [Kernel] puts the components into one state and gives the instances of the classes;
      over it run sysfile.c ([Sysfile]), exec.c ([Exec], [ExecThms]), sysproc.c and the
      dispatcher ([Sysproc]) and trap.c ([Trap]).  [ExecThms] says which image exec builds and
      with which calls, or that it gives everything back, over any environment.  [TrapInv]
      carries the invariant of the process table through every system call, [TrapThms] through
      the runs of the machine, with the dispatch of unknown calls and the sleep for ticks.
    - umalloc.c: [Umalloc], [UmallocInv], [UmallocThms].  ulib.c and printf.c: [Ulib].
    - kbd.c: [Kbd], on the way from the interrupt to the console in [Trap].
    - sh.c: [Sh] has the parser of command lines, over the memory of the line and the
      commands allocated by the class [Allocator]; [ShSpec] the tokens, trees and their
      grammar, [ShThms] the agreement of the two, [ShParse] the allocator of
      umalloc.c as the instance and the theorems about lines.  [ShRun] has runcmd and main
      and what they do: the tree of processes, with their descriptors, that a command means.
    - grep.c: [Grep] (the matcher and the loop).  [User] has the programs that make system
      calls (cat, wc, echo, kill, ln, mkdir, rm, ls, grep, init, zombie) as trees of calls
      and answers, and runs the filters against the class [Stream] of what they rely on.

    ** Bounds and fuel

    [pickthread] runs at most a turn over the threads; the loops over page ranges get the
    number of pages; [kill_line] the number of characters of the line; [digit_loop] 32
    turns, enough for a 32-bit number in any base; the scans of the free list of umalloc.c
    the number of blocks; the parsers of the shell four turns for a character, which is
    proved enough in [ShSpec].  [filewrite] and [readi] recurse on the bytes left.  Process
    ids are taken from a 32-bit counter: the invariant of the table is stated for runs in
    which it has not run out.

    ** Not modelled

    The calls of main.c, which initialise one part after the other, and the assembly files,
    with startothers, which waits for processors that run them; procdump and the backtrace of
    panic, which only print; the test programs; my_userapp.c and prac_syscall.c, which no system
    call reaches.  The user programs see the kernel through the calls of [User], not through
    the definitions of the kernel.  An error of the host ends mkfs.  Interrupts arrive
    between the operations of the model, not inside them; [Spinlock] has the interleavings
    of the locks themselves.  The devices
    behind [devsw] are arguments of the file system.  The process table is not in the byte
    memory: sys_thread_create and sys_thread_join store their result through an address the
    code does not check, and where that address lies in the kernel the model faults
    ([store_result]).  In the runs of [TrapThms] a system call that sleeps is not taken up
    again after the sleep.  The disk controller of [Hw] reports no errors of its own and takes
    the data of a write right after the command. *)

From stdpp Require Export base numbers list gmap strings.

#[global] Open Scope Z_scope.

(** ** Machine integers

    [uint] and [int] are 32 bits wide on the target (i386): a value of type
    [uint] is a [Z] in [0, 2^32), a value of type [int] a [Z] in
    [-2^31, 2^31).  [u32] and [s32] bring the exact result of an arithmetic
    operation back into the type. *)
Definition u32 (z : Z) : Z := z mod 2 ^ 32.
Definition s32 (z : Z) : Z := (z + 2 ^ 31) mod 2 ^ 32 - 2 ^ 31.

Definition is_u32 (z : Z) : Prop := 0 <= z < 2 ^ 32.
Definition is_s32 (z : Z) : Prop := - 2 ^ 31 <= z < 2 ^ 31.

Lemma u32_range z : is_u32 (u32 z).
Proof. apply Z.mod_pos_bound. lia. Qed.

Lemma u32_id z : is_u32 z → u32 z = z.
Proof. intros. by apply Z.mod_small. Qed.

Lemma s32_range z : is_s32 (s32 z).
Proof. unfold s32, is_s32. pose proof (Z.mod_pos_bound (z + 2 ^ 31) (2 ^ 32)). lia. Qed.

(** Bits below a power of two. *)
Lemma lor_below k a b : 0 < k → 0 <= a < 2 ^ k → 0 <= b < 2 ^ k → 0 <= Z.lor a b < 2 ^ k.
Proof.
  intros Hk Ha Hb. assert (0 <= Z.lor a b) as H0 by (apply Z.lor_nonneg; lia). split; [done|].
  destruct (decide (Z.lor a b = 0)) as [->|Hn]; [lia|]. apply Z.log2_lt_pow2; [lia|]. rewrite Z.log2_lor by lia.
  assert (∀ c, 0 <= c < 2 ^ k → Z.log2 c < k) as Hl.
  { intros c Hc. destruct (decide (c = 0)) as [->|]; [done|]. apply Z.log2_lt_pow2; lia. }
  apply Z.max_lub_lt; auto.
Qed.

Lemma s32_id z : is_s32 z → s32 z = z.
Proof. unfold s32, is_s32. intros. rewrite Z.mod_small; lia. Qed.

Lemma u32_add_l a b : u32 (u32 a + b) = u32 (a + b).
Proof. unfold u32. by rewrite Zplus_mod_idemp_l. Qed.

Lemma u32_add_r a b : u32 (a + u32 b) = u32 (a + b).
Proof. unfold u32. by rewrite Zplus_mod_idemp_r. Qed.

(** A 32-bit counter taken modulo a divisor of 2^32 does not see the wrap. *)
Lemma u32_mod_divisor z d : 0 < d → (d | 2 ^ 32) → u32 z mod d = z mod d.
Proof.
  intros Hd [q Hq]. unfold u32. rewrite Hq.
  assert (0 < q) by nia.
  rewrite Z.mul_comm, Z.rem_mul_r by lia.
  rewrite Z.mul_comm, Z_mod_plus_full. by rewrite Z.mod_mod by lia.
Qed.

(** ** Sleep channels

    The kernel passes the address of some object as the channel of [sleep] and
    [wakeup].  A channel is named by the object. *)
Inductive chan :=
| ChProc (i : nat)        (* a slot of ptable *)
| ChLog                   (* &log *)
| ChPipeRead (p : nat)    (* &p->nread *)
| ChPipeWrite (p : nat)   (* &p->nwrite *)
| ChTicks                 (* &ticks *)
| ChInput                 (* &input.r *)
| ChLock (l : nat)        (* a sleep lock *)
| ChBuf (b : nat)         (* a disk buffer *)
| ChNull.                 (* a null pointer *)

#[export] Instance chan_eq_dec : EqDecision chan.
Proof. solve_decision. Defined.

(** ** The kernel monad

    A kernel function is a state transformer with four outcomes: it returns; it
    calls [panic]; it performs an access that C leaves undefined (a null or
    uninitialised pointer, an index out of the bounds of its array, a division
    by zero); or it puts the calling process to sleep on a channel, to take up
    again from the head of the loop that contains the call of [sleep]. *)
Inductive outcome (S A : Type) :=
| Ret (a : A) (s : S)
| Panic (msg : string)
| Fault
| Asleep (c : chan) (s : S).
Arguments Ret {S A} a s.
Arguments Panic {S A} msg.
Arguments Fault {S A}.
Arguments Asleep {S A} c s.

Definition M (S A : Type) : Type := S → outcome S A.

#[export] Instance M_ret {S} : MRet (M S) := λ A a s, Ret a s.
#[export] Instance M_bind {S} : MBind (M S) := λ A B f m s,
  match m s with
  | Ret a s' => f a s'
  | Panic msg => Panic msg
  | Fault => Fault
  | Asleep c s' => Asleep c s'
  end.

Section monad.
Context {S : Type}.

Definition get : M S S := λ s, Ret s s.
Definition gets {A} (f : S → A) : M S A := λ s, Ret (f s) s.
Definition modify (f : S → S) : M S unit := λ s, Ret tt (f s).
Definition panic {A} (msg : string) : M S A := λ _, Panic msg.
Definition fault {A} : M S A := λ _, Fault.
Definition go_to_sleep {A} (c : chan) : M S A := λ s, Asleep c s.

(** Dereference: [None] is a null pointer or an index out of bounds. *)
Definition deref {A} (o : option A) : M S A :=
  match o with Some a => mret a | None => fault end.

(** [for(i = ...) body], the indices in order. *)
Fixpoint mfor {I} (idx : list I) (body : I → M S unit) : M S unit :=
  match idx with
  | [] => mret tt
  | i :: idx' => body i;; mfor idx' body
  end.

(** A loop that threads a local variable [a]. *)
Fixpoint mfold {I A} (idx : list I) (a : A) (body : A → I → M S A) : M S A :=
  match idx with
  | [] => mret a
  | i :: idx' => a' ← body a i; mfold idx' a' body
  end.

(** A loop that leaves at the first index for which [test] holds. *)
Fixpoint mfind {I} (idx : list I) (test : I → M S bool) : M S (option I) :=
  match idx with
  | [] => mret None
  | i :: idx' => t ← test i; if (t : bool) then mret (Some i) else mfind idx' test
  end.

(** [a / b] on [int]: the quotient truncated to zero; the processor traps on
    a zero divisor. *)
Definition idiv (a b : Z) : M S Z :=
  if b =? 0 then fault else mret (Z.quot a b).
End monad.

(** Total correctness: [m] returns from [s], with a result that satisfies [Q].
    A computation that panics, faults or sleeps does not satisfy it. *)
Definition returns {S A} (m : M S A) (s : S) (Q : A → S → Prop) : Prop :=
  match m s with Ret a s' => Q a s' | _ => False end.

Section monad_lemmas.
Context {S : Type}.

Lemma bind_ret {A B} (m : M S A) (f : A → M S B) s a s' :
  m s = Ret a s' → (m ≫= f) s = f a s'.
Proof. intros H. unfold mbind, M_bind. by rewrite H. Qed.

Lemma bind_gets {A B} (f : S → A) (g : A → M S B) s : (gets f ≫= g) s = g (f s) s.
Proof. done. Qed.

Lemma bind_mret {A B} (a : A) (g : A → M S B) s : (mret a ≫= g) s = g a s.
Proof. done. Qed.

Lemma bind_modify {B} (f : S → S) (g : unit → M S B) s : (modify f ≫= g) s = g tt (f s).
Proof. done. Qed.

Lemma idiv_eq (a b : Z) (s : S) : b ≠ 0 → idiv a b s = Ret (Z.quot a b) s.
Proof. intros H. unfold idiv. destruct (Z.eqb_spec b 0); done. Qed.

Lemma bind_panic {A B} (m : M S A) (f : A → M S B) s msg :
  m s = Panic msg → (m ≫= f) s = Panic msg.
Proof. intros H. unfold mbind, M_bind. by rewrite H. Qed.

Lemma bind_fault {A B} (m : M S A) (f : A → M S B) s :
  m s = Fault → (m ≫= f) s = Fault.
Proof. intros H. unfold mbind, M_bind. by rewrite H. Qed.

Lemma bind_inv {A B} (m : M S A) (f : A → M S B) s b s'' :
  (m ≫= f) s = Ret b s'' → ∃ a s', m s = Ret a s' ∧ f a s' = Ret b s''.
Proof. unfold mbind, M_bind. destruct (m s); intros; try done. eauto. Qed.

Lemma bind_assoc {A B C} (m : M S A) (f : A → M S B) (g : B → M S C) s :
  ((m ≫= f) ≫= g) s = (m ≫= λ a, f a ≫= g) s.
Proof. unfold mbind, M_bind. by destruct (m s). Qed.

Lemma returns_ret {A} (a : A) (s : S) Q : Q a s → returns (mret a) s Q.
Proof. done. Qed.

Lemma returns_bind {A B} (m : M S A) (f : A → M S B) s Q :
  returns m s (λ a s', returns (f a) s' Q) → returns (m ≫= f) s Q.
Proof. unfold returns, mbind, M_bind. by destruct (m s). Qed.

Lemma returns_bind_eq {A B} (m : M S A) (f : A → M S B) s a s' Q :
  m s = Ret a s' → returns (f a) s' Q → returns (m ≫= f) s Q.
Proof. intros H. unfold returns. by rewrite (bind_ret _ _ _ _ _ H). Qed.

Lemma returns_assoc {A B C} (m : M S A) (f : A → M S B) (g : B → M S C) s Q :
  returns ((m ≫= f) ≫= g) s Q → returns (m ≫= λ a, f a ≫= g) s Q.
Proof. unfold returns. by rewrite bind_assoc. Qed.

Lemma returns_mono {A} (m : M S A) s (Q Q' : A → S → Prop) :
  returns m s Q → (∀ a s', Q a s' → Q' a s') → returns m s Q'.
Proof. unfold returns. destruct (m s); intros; eauto. Qed.

Lemma returns_eq {A} (m : M S A) s Q :
  returns m s Q ↔ ∃ a s', m s = Ret a s' ∧ Q a s'.
Proof. unfold returns. destruct (m s); split; try done; [eauto|..]; by intros (?&?&?&?); simplify_eq. Qed.

(** The loop rule: an invariant indexed by the part of the range done. *)
Lemma returns_mfor {I} (idx : list I) (body : I → M S unit) (P : list I → S → Prop) s Q :
  P [] s →
  (∀ done i rest s, idx = done ++ i :: rest → P done s →
     returns (body i) s (λ _ s', P (done ++ [i]) s')) →
  (∀ s, P idx s → Q tt s) →
  returns (mfor idx body) s Q.
Proof.
  intros H0 Hstep HQ.
  assert (∀ rest done s, idx = done ++ rest → P done s →
    returns (mfor rest body) s (λ _ s', P idx s')) as Hgen.
  { induction rest as [|i rest IH]; intros done s' Heq HP; simpl.
    - apply returns_ret. by rewrite Heq, app_nil_r.
    - apply returns_bind. eapply returns_mono; [by apply (Hstep done i rest)|].
      intros [] s'' HP'. eapply IH; [|done]. by rewrite <-app_assoc. }
  eapply returns_mono; [by apply (Hgen idx [])|]. intros [] ??. by apply HQ.
Qed.

Lemma mfor_app {I} (l l' : list I) (body : I → M S unit) s s1 :
  mfor l body s = Ret tt s1 → mfor (l ++ l') body s = mfor l' body s1.
Proof.
  revert s. induction l as [|i l IH]; intros s; cbn [mfor app]; [by intros [= ->]|].
  intros ([] & s2 & E & H)%bind_inv. rewrite (bind_ret _ _ _ _ _ E). by apply IH.
Qed.

Lemma mfor_snoc {I} (l : list I) (i : I) (body : I → M S unit) s s1 s2 :
  mfor l body s = Ret tt s1 → body i s1 = Ret tt s2 → mfor (l ++ [i]) body s = Ret tt s2.
Proof. intros H1 H2. rewrite (mfor_app _ _ _ _ _ H1). cbn [mfor]. by rewrite (bind_ret _ _ _ _ _ H2). Qed.

(** A loop that stops on a fault at its [n]th turn. *)
Lemma mfor_fault {I} (idx : list I) (body : I → M S unit) s n x :
  idx !! n = Some x → (∀ m y, (m < n)%nat → idx !! m = Some y → body y s = Ret tt s) →
  body x s = Fault → mfor idx body s = Fault.
Proof.
  revert n. induction idx as [|i idx IH]; intros n Hx Hb Hf; [done|]. destruct n as [|n]; cbn [mfor].
  - simplify_eq/=. by apply bind_fault.
  - rewrite (bind_ret _ _ _ tt s); [|by apply (Hb 0%nat i); [lia|done]].
    apply (IH n); try done. intros m y Hm Hy. by apply (Hb (Datatypes.S m)); [lia|].
Qed.

Lemma returns_mfold {I A} (idx : list I) (a : A) (body : A → I → M S A)
    (P : list I → A → S → Prop) s Q :
  P [] a s →
  (∀ done i rest a s, idx = done ++ i :: rest → P done a s →
     returns (body a i) s (λ a' s', P (done ++ [i]) a' s')) →
  (∀ a s, P idx a s → Q a s) →
  returns (mfold idx a body) s Q.
Proof.
  intros H0 Hstep HQ.
  assert (∀ rest done a s, idx = done ++ rest → P done a s →
    returns (mfold rest a body) s (λ a' s', P idx a' s')) as Hgen.
  { induction rest as [|i rest IH]; intros done a' s' Heq HP; simpl.
    - apply returns_ret. by rewrite Heq, app_nil_r.
    - apply returns_bind. eapply returns_mono; [by apply (Hstep done i rest)|].
      intros a'' s'' HP'. eapply IH; [|done]. by rewrite <-app_assoc. }
  eapply returns_mono; [by apply (Hgen idx [])|]. done.
Qed.
End monad_lemmas.

(** A loop whose turns read the state without changing it. *)
Lemma mfold_pure {S I A} (idx : list I) (a : A) (body : A → I → M S A) (f : A → I → A) s :
  (∀ a i, i ∈ idx → body a i s = Ret (f a i) s) →
  mfold idx a body s = Ret (foldl f a idx) s.
Proof.
  revert a. induction idx as [|i idx IH]; intros a Hb; simpl; [done|].
  rewrite (bind_ret _ _ _ _ _ (Hb a i ltac:(by left))). apply IH. intros. apply Hb. by right.
Qed.

Lemma mfind_pure {S I} (idx : list I) (test : I → M S bool) (f : I → bool) s :
  (∀ i, i ∈ idx → test i s = Ret (f i) s) →
  mfind idx test s = Ret (List.find f idx) s.
Proof.
  induction idx as [|i idx IH]; intros Hb; simpl; [done|].
  rewrite (bind_ret _ _ _ _ _ (Hb i ltac:(by left))).
  destruct (f i); [done|]. apply IH. intros. apply Hb. by right.
Qed.

(** A loop over the indices of an array is a loop over its elements. *)
Lemma foldl_lookup_seq {A B} (g : A → B → A) (l : list B) (a : A) n :
  foldl (λ a i, match l !! i with Some x => g a x | None => a end) a (seq n (length l - n))
  = foldl g a (drop n l).
Proof.
  remember (length l - n)%nat as m eqn:Hm. revert n a Hm.
  induction m as [|m IH]; intros n a Hm; simpl.
  - by rewrite drop_ge by lia.
  - destruct (lookup_lt_is_Some_2 l n) as [x Hx]; [lia|]. rewrite Hx.
    rewrite (drop_S _ _ _ Hx). simpl. apply IH. lia.
Qed.

(** ** Arrays of pointers

    [members h] are the elements an array of possibly null pointers holds, in
    the order of the slots. *)
Section members.
Context {A : Type}.
Implicit Types (h : list (option A)) (x : A).

Definition members h : list A := omap id h.

Lemma elem_of_members h x : x ∈ members h ↔ ∃ i : nat, h !! i = Some (Some x).
Proof.
  unfold members. rewrite list_elem_of_omap. split.
  - intros (o & Ho & Hx). simpl in Hx. subst o. by apply list_elem_of_lookup in Ho.
  - intros [i Hi]. exists (Some x). split; [|done]. by eapply list_elem_of_lookup_2.
Qed.

Lemma members_set h (i : nat) x :
  h !! i = Some None → members (<[i := Some x]> h) ≡ₚ x :: members h.
Proof.
  intros Hi. pose proof (lookup_lt_Some _ _ _ Hi).
  rewrite <-(take_drop_middle h i None Hi) at 2.
  rewrite insert_take_drop by done. unfold members.
  rewrite !omap_app; simpl. by rewrite Permutation_middle.
Qed.

Lemma members_clear h (i : nat) x :
  h !! i = Some (Some x) → x :: members (<[i := None]> h) ≡ₚ members h.
Proof.
  intros Hi. pose proof (lookup_lt_Some _ _ _ Hi).
  rewrite <-(take_drop_middle h i (Some x) Hi) at 2.
  rewrite insert_take_drop by done. unfold members.
  rewrite !omap_app; simpl. by rewrite Permutation_middle.
Qed.

Lemma length_members_le h : (length (members h) ≤ length h)%nat.
Proof. unfold members. induction h as [|[x|] h IH]; cbn in *; lia. Qed.

(** A slot is free when there are fewer elements than slots. *)
Lemma members_free h :
  (length (members h) < length h)%nat → ∃ i : nat, h !! i = Some None.
Proof.
  unfold members. induction h as [|[x|] h IH]; cbn in *; intros Hlt; [lia| |].
  - destruct IH as [i Hi]; [lia|]. by exists (S i).
  - by exists 0%nat.
Qed.

Lemma members_replicate n : members (replicate n (None : option A)) = [].
Proof. induction n; done. Qed.
End members.

(** A scan for the first slot that satisfies [P] succeeds when one does. *)
Lemma list_find_lookup {A} (P : A → Prop) `{!∀ x, Decision (P x)} (l : list A) (i : nat) x :
  l !! i = Some x → P x → ∃ j y, list_find P l = Some (j, y) ∧ l !! j = Some y ∧ P y.
Proof.
  intros Hi HP. destruct (list_find_elem_of P l x) as [[j y] Hj];
    [by eapply list_elem_of_lookup_2|done|].
  exists j, y. split; [done|]. apply list_find_Some in Hj. naive_solver.
Qed.

(** Pigeonhole on slot numbers. *)
Lemma NoDup_bounded (l : list nat) n :
  NoDup l → (∀ x, x ∈ l → (x < n)%nat) → (length l ≤ n)%nat.
Proof.
  intros Hnd Hb. rewrite <-(length_seq n 0).
  apply submseteq_length, NoDup_submseteq; [done|].
  intros x Hx. apply elem_of_seq. specialize (Hb x Hx). lia.
Qed.

(** ** Strings

    The characters of a literal, and those before the NUL of an array. *)
Fixpoint codes (s : string) : list Z :=
  match s with EmptyString => [] | String c s' => Z.of_nat (Ascii.nat_of_ascii c) :: codes s' end.
Fixpoint cstring (t : list Z) : list Z :=
  match t with [] => [] | c :: t' => if c =? 0 then [] else c :: cstring t' end.

(** ** Automation

    [mrun] runs the monadic prefix of a goal symbolically: it rewrites with the
    hypotheses [m s = Ret a s'] of the context and computes the primitives. *)
Ltac munfold :=
  unfold mbind, M_bind, mret, M_ret, get, gets, modify, panic, fault,
    go_to_sleep, deref, idiv in *.

Ltac mrun :=
  repeat first
    [ erewrite bind_ret by (eassumption || reflexivity)
    | progress cbn beta iota ].

(** One call of a procedure with a specification [H : returns m s Q]. *)
Ltac rstep H := first [apply returns_bind; eapply returns_mono; [eapply H|cbn beta]
                      | eapply returns_mono; [eapply H|cbn beta]].

Create HintDb xv6.
Create HintDb len.
#[export] Hint Resolve u32_range s32_range : xv6.
#[export] Hint Rewrite @length_insert @length_app @length_fmap
  @length_take @length_drop @length_replicate : len.

(** Lengths of array expressions, then linear arithmetic. *)
Ltac len := autorewrite with len in *; simpl in *; try lia.

(** Linear arithmetic with division and remainder by constants. *)
Ltac divlia :=
  zify; repeat (progress rewrite ?Nat2Z.inj_mod, ?Nat2Z.inj_div in *; zify);
  Z.to_euclidean_division_equations; lia.
