(* ===== verification/Params.v ===== *)
(** * Constants of the kernel: param.h, fs.h, mmu.h, memlayout.h, buf.h, stat.h

    Array bounds are [nat] (they index lists), sizes and limits that take part
    in C arithmetic are [Z]. *)
From S2P Require Import Prelude.

(** param.h *)
Definition NPROC : nat := 64.
Definition NTHRE : nat := 32.
Definition NOFILE : nat := 16.
Definition NFILE : nat := 100.
Definition NINODE : nat := 50.
Definition NDEV : Z := 10.
Definition KSTACKSIZE : Z := 4096.
Definition ROOTDEV : Z := 1.
Definition MAXARG : Z := 32.
Definition MAXOPBLOCKS : Z := 10.
Definition LOGSIZE : Z := MAXOPBLOCKS * 3.
Definition NBUF : nat := 30.
Definition FSSIZE : Z := 40000.
Definition MAXTICKET : Z := 100000.

(** fs.h *)
Definition ROOTINO : Z := 1.
Definition BSIZE : Z := 512.
Definition NDIRECT : Z := 10.
Definition NINDIRECT : Z := BSIZE / 4.
Definition NDOUINDIRECT : Z := NINDIRECT * NINDIRECT.
Definition NTRIINDIRECT : Z := NINDIRECT * NINDIRECT * NINDIRECT.
Definition MAXFILE : Z := NDIRECT + NINDIRECT + NDOUINDIRECT + NTRIINDIRECT.
Definition sizeof_dinode : Z := 2 * 4 + 4 + 4 * (NDIRECT + 3).
Definition IPB : Z := BSIZE / sizeof_dinode.
Definition BPB : Z := BSIZE * 8.
Definition DIRSIZ : Z := 14.

(** stat.h *)
Definition T_DIR : Z := 1.
Definition T_FILE : Z := 2.
Definition T_DEV : Z := 3.

(** mmu.h, memlayout.h *)
Definition PGSIZE : Z := 4096.
Definition KERNBASE : Z := 2147483648.

(** traps.h *)
Definition T_SYSCALL : Z := 64.
Definition T_IRQ0 : Z := 32.
Definition IRQ_TIMER : Z := 0.
Definition IRQ_KBD : Z := 1.
Definition IRQ_COM1 : Z := 4.
Definition IRQ_IDE : Z := 14.
Definition IRQ_ERROR : Z := 19.
Definition IRQ_SPURIOUS : Z := 31.

(** myscheduler.h: three feedback queues, [MLFQ_queues[3]]. *)
Definition NQUEUE : nat := 3.

#[global] Arguments NPROC : simpl never.
#[global] Arguments NTHRE : simpl never.
