(* ===== verification/ProcState.v ===== *)
(** * The process table and the scheduler's data: proc.h, myscheduler.h

    The records of the two headers, the globals of proc.c and myscheduler.c as
    one record, and the accessors through which the code reads and writes an
    element of an array: an index out of bounds or a null pointer faults. *)
From S2P Require Import Prelude Params.

(** [enum procstate] *)
Inductive procstate := UNUSED | EMBRYO | SLEEPING | RUNNABLE | RUNNING | ZOMBIE.

#[export] Instance procstate_eq_dec : EqDecision procstate.
Proof. solve_decision. Defined.

(** [struct trapframe] (x86.h), the registers the kernel reads or sets. *)
Record trapframe := mktf {
  tf_eax : Z;
  tf_eip : Z;
  tf_esp : Z;
  tf_eflags : Z;
  tf_cs : Z;
  tf_ds : Z;
  tf_es : Z;
  tf_ss : Z
}.

Definition set_tf_eax (v : Z) (r : trapframe) : trapframe :=
  mktf v (tf_eip r) (tf_esp r) (tf_eflags r) (tf_cs r) (tf_ds r) (tf_es r) (tf_ss r).
Definition set_tf_eip (v : Z) (r : trapframe) : trapframe :=
  mktf (tf_eax r) v (tf_esp r) (tf_eflags r) (tf_cs r) (tf_ds r) (tf_es r) (tf_ss r).
Definition set_tf_esp (v : Z) (r : trapframe) : trapframe :=
  mktf (tf_eax r) (tf_eip r) v (tf_eflags r) (tf_cs r) (tf_ds r) (tf_es r) (tf_ss r).
Definition set_tf_eflags (v : Z) (r : trapframe) : trapframe :=
  mktf (tf_eax r) (tf_eip r) (tf_esp r) v (tf_cs r) (tf_ds r) (tf_es r) (tf_ss r).
Definition set_tf_cs (v : Z) (r : trapframe) : trapframe :=
  mktf (tf_eax r) (tf_eip r) (tf_esp r) (tf_eflags r) v (tf_ds r) (tf_es r) (tf_ss r).
Definition set_tf_ds (v : Z) (r : trapframe) : trapframe :=
  mktf (tf_eax r) (tf_eip r) (tf_esp r) (tf_eflags r) (tf_cs r) v (tf_es r) (tf_ss r).
Definition set_tf_es (v : Z) (r : trapframe) : trapframe :=
  mktf (tf_eax r) (tf_eip r) (tf_esp r) (tf_eflags r) (tf_cs r) (tf_ds r) v (tf_ss r).
Definition set_tf_ss (v : Z) (r : trapframe) : trapframe :=
  mktf (tf_eax r) (tf_eip r) (tf_esp r) (tf_eflags r) (tf_cs r) (tf_ds r) (tf_es r) v.

(** [struct proc] (proc.h).  A [struct proc*] is [None] (null) or the index of
    a slot of [ptable.proc]. *)
Record proc := mkproc {
  p_sz : Z;
  p_pgdir : Z;  (* page directory, 0 is null *)
  p_kstack : Z;  (* kernel stack page, 0 is null *)
  p_state : procstate;
  p_pid : Z;
  p_parent : option nat;
  p_tf : trapframe;  (* the frame tf points to *)
  p_chan : option chan;
  p_killed : Z;
  p_ofile : list (option nat);  (* indices into ftable *)
  p_cwd : option nat;  (* index into icache *)
  p_name : list Z;
  p_mystride : option nat;  (* index into stride_arr *)
  p_fqtick : Z;
  p_level : Z;
  p_isstride : Z;
  p_isthread : Z;
  p_curthread : Z;
  p_master : option nat;
  p_workerthread : list (option nat);
  p_retvals : list Z;
  p_threadcnt : Z;
  p_freeusrspace : list Z;
  p_tindex : Z
}.

Definition set_p_sz (v : Z) (r : proc) : proc :=
  mkproc v (p_pgdir r) (p_kstack r) (p_state r) (p_pid r) (p_parent r) (p_tf r) (p_chan r)
    (p_killed r) (p_ofile r) (p_cwd r) (p_name r) (p_mystride r) (p_fqtick r) (p_level r)
    (p_isstride r) (p_isthread r) (p_curthread r) (p_master r) (p_workerthread r) (p_retvals
    r) (p_threadcnt r) (p_freeusrspace r) (p_tindex r).
Definition set_p_pgdir (v : Z) (r : proc) : proc :=
  mkproc (p_sz r) v (p_kstack r) (p_state r) (p_pid r) (p_parent r) (p_tf r) (p_chan r)
    (p_killed r) (p_ofile r) (p_cwd r) (p_name r) (p_mystride r) (p_fqtick r) (p_level r)
    (p_isstride r) (p_isthread r) (p_curthread r) (p_master r) (p_workerthread r) (p_retvals
    r) (p_threadcnt r) (p_freeusrspace r) (p_tindex r).
Definition set_p_kstack (v : Z) (r : proc) : proc :=
  mkproc (p_sz r) (p_pgdir r) v (p_state r) (p_pid r) (p_parent r) (p_tf r) (p_chan r)
    (p_killed r) (p_ofile r) (p_cwd r) (p_name r) (p_mystride r) (p_fqtick r) (p_level r)
    (p_isstride r) (p_isthread r) (p_curthread r) (p_master r) (p_workerthread r) (p_retvals
    r) (p_threadcnt r) (p_freeusrspace r) (p_tindex r).
Definition set_p_state (v : procstate) (r : proc) : proc :=
  mkproc (p_sz r) (p_pgdir r) (p_kstack r) v (p_pid r) (p_parent r) (p_tf r) (p_chan r)
    (p_killed r) (p_ofile r) (p_cwd r) (p_name r) (p_mystride r) (p_fqtick r) (p_level r)
    (p_isstride r) (p_isthread r) (p_curthread r) (p_master r) (p_workerthread r) (p_retvals
    r) (p_threadcnt r) (p_freeusrspace r) (p_tindex r).
Definition set_p_pid (v : Z) (r : proc) : proc :=
  mkproc (p_sz r) (p_pgdir r) (p_kstack r) (p_state r) v (p_parent r) (p_tf r) (p_chan r)
    (p_killed r) (p_ofile r) (p_cwd r) (p_name r) (p_mystride r) (p_fqtick r) (p_level r)
    (p_isstride r) (p_isthread r) (p_curthread r) (p_master r) (p_workerthread r) (p_retvals
    r) (p_threadcnt r) (p_freeusrspace r) (p_tindex r).
Definition set_p_parent (v : option nat) (r : proc) : proc :=
  mkproc (p_sz r) (p_pgdir r) (p_kstack r) (p_state r) (p_pid r) v (p_tf r) (p_chan r)
    (p_killed r) (p_ofile r) (p_cwd r) (p_name r) (p_mystride r) (p_fqtick r) (p_level r)
    (p_isstride r) (p_isthread r) (p_curthread r) (p_master r) (p_workerthread r) (p_retvals
    r) (p_threadcnt r) (p_freeusrspace r) (p_tindex r).
Definition set_p_tf (v : trapframe) (r : proc) : proc :=
  mkproc (p_sz r) (p_pgdir r) (p_kstack r) (p_state r) (p_pid r) (p_parent r) v (p_chan r)
    (p_killed r) (p_ofile r) (p_cwd r) (p_name r) (p_mystride r) (p_fqtick r) (p_level r)
    (p_isstride r) (p_isthread r) (p_curthread r) (p_master r) (p_workerthread r) (p_retvals
    r) (p_threadcnt r) (p_freeusrspace r) (p_tindex r).
Definition set_p_chan (v : option chan) (r : proc) : proc :=
  mkproc (p_sz r) (p_pgdir r) (p_kstack r) (p_state r) (p_pid r) (p_parent r) (p_tf r) v
    (p_killed r) (p_ofile r) (p_cwd r) (p_name r) (p_mystride r) (p_fqtick r) (p_level r)
    (p_isstride r) (p_isthread r) (p_curthread r) (p_master r) (p_workerthread r) (p_retvals
    r) (p_threadcnt r) (p_freeusrspace r) (p_tindex r).
Definition set_p_killed (v : Z) (r : proc) : proc :=
  mkproc (p_sz r) (p_pgdir r) (p_kstack r) (p_state r) (p_pid r) (p_parent r) (p_tf r)
    (p_chan r) v (p_ofile r) (p_cwd r) (p_name r) (p_mystride r) (p_fqtick r) (p_level r)
    (p_isstride r) (p_isthread r) (p_curthread r) (p_master r) (p_workerthread r) (p_retvals
    r) (p_threadcnt r) (p_freeusrspace r) (p_tindex r).
Definition set_p_ofile (v : list (option nat)) (r : proc) : proc :=
  mkproc (p_sz r) (p_pgdir r) (p_kstack r) (p_state r) (p_pid r) (p_parent r) (p_tf r)
    (p_chan r) (p_killed r) v (p_cwd r) (p_name r) (p_mystride r) (p_fqtick r) (p_level r)
    (p_isstride r) (p_isthread r) (p_curthread r) (p_master r) (p_workerthread r) (p_retvals
    r) (p_threadcnt r) (p_freeusrspace r) (p_tindex r).
Definition set_p_cwd (v : option nat) (r : proc) : proc :=
  mkproc (p_sz r) (p_pgdir r) (p_kstack r) (p_state r) (p_pid r) (p_parent r) (p_tf r)
    (p_chan r) (p_killed r) (p_ofile r) v (p_name r) (p_mystride r) (p_fqtick r) (p_level r)
    (p_isstride r) (p_isthread r) (p_curthread r) (p_master r) (p_workerthread r) (p_retvals
    r) (p_threadcnt r) (p_freeusrspace r) (p_tindex r).
Definition set_p_name (v : list Z) (r : proc) : proc :=
  mkproc (p_sz r) (p_pgdir r) (p_kstack r) (p_state r) (p_pid r) (p_parent r) (p_tf r)
    (p_chan r) (p_killed r) (p_ofile r) (p_cwd r) v (p_mystride r) (p_fqtick r) (p_level r)
    (p_isstride r) (p_isthread r) (p_curthread r) (p_master r) (p_workerthread r) (p_retvals
    r) (p_threadcnt r) (p_freeusrspace r) (p_tindex r).
Definition set_p_mystride (v : option nat) (r : proc) : proc :=
  mkproc (p_sz r) (p_pgdir r) (p_kstack r) (p_state r) (p_pid r) (p_parent r) (p_tf r)
    (p_chan r) (p_killed r) (p_ofile r) (p_cwd r) (p_name r) v (p_fqtick r) (p_level r)
    (p_isstride r) (p_isthread r) (p_curthread r) (p_master r) (p_workerthread r) (p_retvals
    r) (p_threadcnt r) (p_freeusrspace r) (p_tindex r).
Definition set_p_fqtick (v : Z) (r : proc) : proc :=
  mkproc (p_sz r) (p_pgdir r) (p_kstack r) (p_state r) (p_pid r) (p_parent r) (p_tf r)
    (p_chan r) (p_killed r) (p_ofile r) (p_cwd r) (p_name r) (p_mystride r) v (p_level r)
    (p_isstride r) (p_isthread r) (p_curthread r) (p_master r) (p_workerthread r) (p_retvals
    r) (p_threadcnt r) (p_freeusrspace r) (p_tindex r).
Definition set_p_level (v : Z) (r : proc) : proc :=
  mkproc (p_sz r) (p_pgdir r) (p_kstack r) (p_state r) (p_pid r) (p_parent r) (p_tf r)
    (p_chan r) (p_killed r) (p_ofile r) (p_cwd r) (p_name r) (p_mystride r) (p_fqtick r) v
    (p_isstride r) (p_isthread r) (p_curthread r) (p_master r) (p_workerthread r) (p_retvals
    r) (p_threadcnt r) (p_freeusrspace r) (p_tindex r).
Definition set_p_isstride (v : Z) (r : proc) : proc :=
  mkproc (p_sz r) (p_pgdir r) (p_kstack r) (p_state r) (p_pid r) (p_parent r) (p_tf r)
    (p_chan r) (p_killed r) (p_ofile r) (p_cwd r) (p_name r) (p_mystride r) (p_fqtick r)
    (p_level r) v (p_isthread r) (p_curthread r) (p_master r) (p_workerthread r) (p_retvals
    r) (p_threadcnt r) (p_freeusrspace r) (p_tindex r).
Definition set_p_isthread (v : Z) (r : proc) : proc :=
  mkproc (p_sz r) (p_pgdir r) (p_kstack r) (p_state r) (p_pid r) (p_parent r) (p_tf r)
    (p_chan r) (p_killed r) (p_ofile r) (p_cwd r) (p_name r) (p_mystride r) (p_fqtick r)
    (p_level r) (p_isstride r) v (p_curthread r) (p_master r) (p_workerthread r) (p_retvals
    r) (p_threadcnt r) (p_freeusrspace r) (p_tindex r).
Definition set_p_curthread (v : Z) (r : proc) : proc :=
  mkproc (p_sz r) (p_pgdir r) (p_kstack r) (p_state r) (p_pid r) (p_parent r) (p_tf r)
    (p_chan r) (p_killed r) (p_ofile r) (p_cwd r) (p_name r) (p_mystride r) (p_fqtick r)
    (p_level r) (p_isstride r) (p_isthread r) v (p_master r) (p_workerthread r) (p_retvals
    r) (p_threadcnt r) (p_freeusrspace r) (p_tindex r).
Definition set_p_master (v : option nat) (r : proc) : proc :=
  mkproc (p_sz r) (p_pgdir r) (p_kstack r) (p_state r) (p_pid r) (p_parent r) (p_tf r)
    (p_chan r) (p_killed r) (p_ofile r) (p_cwd r) (p_name r) (p_mystride r) (p_fqtick r)
    (p_level r) (p_isstride r) (p_isthread r) (p_curthread r) v (p_workerthread r)
    (p_retvals r) (p_threadcnt r) (p_freeusrspace r) (p_tindex r).
Definition set_p_workerthread (v : list (option nat)) (r : proc) : proc :=
  mkproc (p_sz r) (p_pgdir r) (p_kstack r) (p_state r) (p_pid r) (p_parent r) (p_tf r)
    (p_chan r) (p_killed r) (p_ofile r) (p_cwd r) (p_name r) (p_mystride r) (p_fqtick r)
    (p_level r) (p_isstride r) (p_isthread r) (p_curthread r) (p_master r) v (p_retvals r)
    (p_threadcnt r) (p_freeusrspace r) (p_tindex r).
Definition set_p_retvals (v : list Z) (r : proc) : proc :=
  mkproc (p_sz r) (p_pgdir r) (p_kstack r) (p_state r) (p_pid r) (p_parent r) (p_tf r)
    (p_chan r) (p_killed r) (p_ofile r) (p_cwd r) (p_name r) (p_mystride r) (p_fqtick r)
    (p_level r) (p_isstride r) (p_isthread r) (p_curthread r) (p_master r) (p_workerthread
    r) v (p_threadcnt r) (p_freeusrspace r) (p_tindex r).
Definition set_p_threadcnt (v : Z) (r : proc) : proc :=
  mkproc (p_sz r) (p_pgdir r) (p_kstack r) (p_state r) (p_pid r) (p_parent r) (p_tf r)
    (p_chan r) (p_killed r) (p_ofile r) (p_cwd r) (p_name r) (p_mystride r) (p_fqtick r)
    (p_level r) (p_isstride r) (p_isthread r) (p_curthread r) (p_master r) (p_workerthread
    r) (p_retvals r) v (p_freeusrspace r) (p_tindex r).
Definition set_p_freeusrspace (v : list Z) (r : proc) : proc :=
  mkproc (p_sz r) (p_pgdir r) (p_kstack r) (p_state r) (p_pid r) (p_parent r) (p_tf r)
    (p_chan r) (p_killed r) (p_ofile r) (p_cwd r) (p_name r) (p_mystride r) (p_fqtick r)
    (p_level r) (p_isstride r) (p_isthread r) (p_curthread r) (p_master r) (p_workerthread
    r) (p_retvals r) (p_threadcnt r) v (p_tindex r).
Definition set_p_tindex (v : Z) (r : proc) : proc :=
  mkproc (p_sz r) (p_pgdir r) (p_kstack r) (p_state r) (p_pid r) (p_parent r) (p_tf r)
    (p_chan r) (p_killed r) (p_ofile r) (p_cwd r) (p_name r) (p_mystride r) (p_fqtick r)
    (p_level r) (p_isstride r) (p_isthread r) (p_curthread r) (p_master r) (p_workerthread
    r) (p_retvals r) (p_threadcnt r) (p_freeusrspace r) v.

(** [struct stride] (myscheduler.h). *)
Record stride := mkstride {
  st_stride : Z;
  st_pass : Z;
  st_share : Z;
  st_proc : option nat  (* index into ptable.proc *)
}.

Definition set_st_stride (v : Z) (r : stride) : stride :=
  mkstride v (st_pass r) (st_share r) (st_proc r).
Definition set_st_pass (v : Z) (r : stride) : stride :=
  mkstride (st_stride r) v (st_share r) (st_proc r).
Definition set_st_share (v : Z) (r : stride) : stride :=
  mkstride (st_stride r) (st_pass r) v (st_proc r).
Definition set_st_proc (v : option nat) (r : stride) : stride :=
  mkstride (st_stride r) (st_pass r) (st_share r) v.

(** [struct FQ] (myscheduler.h). *)
Record FQ := mkFQ {
  fq_total : Z;
  fq_timeallot : Z;
  fq_current : Z;
  fq_holdingproc : list (option nat)
}.

Definition set_fq_total (v : Z) (r : FQ) : FQ :=
  mkFQ v (fq_timeallot r) (fq_current r) (fq_holdingproc r).
Definition set_fq_timeallot (v : Z) (r : FQ) : FQ :=
  mkFQ (fq_total r) v (fq_current r) (fq_holdingproc r).
Definition set_fq_current (v : Z) (r : FQ) : FQ :=
  mkFQ (fq_total r) (fq_timeallot r) v (fq_holdingproc r).
Definition set_fq_holdingproc (v : list (option nat)) (r : FQ) : FQ :=
  mkFQ (fq_total r) (fq_timeallot r) (fq_current r) v.

(** The globals of proc.c and myscheduler.c.  A lock is [true] when the
    processor that runs the code holds it. *)
Record kstate := mkkstate {
  ptable : list proc;  (* ptable.proc *)
  stride_arr : list stride;
  MLFQ_queues : list FQ;
  MLFQ_tick : Z;
  nextpid : Z;
  initproc : option nat;
  cpu_proc : option nat;  (* mycpu()->proc *)
  ptable_lock : bool;  (* held by this processor *)
  FQ_ticklock : bool;
  threadlock : bool
}.

Definition set_ptable (v : list proc) (r : kstate) : kstate :=
  mkkstate v (stride_arr r) (MLFQ_queues r) (MLFQ_tick r) (nextpid r) (initproc r) (cpu_proc
    r) (ptable_lock r) (FQ_ticklock r) (threadlock r).
Definition set_stride_arr (v : list stride) (r : kstate) : kstate :=
  mkkstate (ptable r) v (MLFQ_queues r) (MLFQ_tick r) (nextpid r) (initproc r) (cpu_proc r)
    (ptable_lock r) (FQ_ticklock r) (threadlock r).
Definition set_MLFQ_queues (v : list FQ) (r : kstate) : kstate :=
  mkkstate (ptable r) (stride_arr r) v (MLFQ_tick r) (nextpid r) (initproc r) (cpu_proc r)
    (ptable_lock r) (FQ_ticklock r) (threadlock r).
Definition set_MLFQ_tick (v : Z) (r : kstate) : kstate :=
  mkkstate (ptable r) (stride_arr r) (MLFQ_queues r) v (nextpid r) (initproc r) (cpu_proc r)
    (ptable_lock r) (FQ_ticklock r) (threadlock r).
Definition set_nextpid (v : Z) (r : kstate) : kstate :=
  mkkstate (ptable r) (stride_arr r) (MLFQ_queues r) (MLFQ_tick r) v (initproc r) (cpu_proc
    r) (ptable_lock r) (FQ_ticklock r) (threadlock r).
Definition set_initproc (v : option nat) (r : kstate) : kstate :=
  mkkstate (ptable r) (stride_arr r) (MLFQ_queues r) (MLFQ_tick r) (nextpid r) v (cpu_proc
    r) (ptable_lock r) (FQ_ticklock r) (threadlock r).
Definition set_cpu_proc (v : option nat) (r : kstate) : kstate :=
  mkkstate (ptable r) (stride_arr r) (MLFQ_queues r) (MLFQ_tick r) (nextpid r) (initproc r)
    v (ptable_lock r) (FQ_ticklock r) (threadlock r).
Definition set_ptable_lock (v : bool) (r : kstate) : kstate :=
  mkkstate (ptable r) (stride_arr r) (MLFQ_queues r) (MLFQ_tick r) (nextpid r) (initproc r)
    (cpu_proc r) v (FQ_ticklock r) (threadlock r).
Definition set_FQ_ticklock (v : bool) (r : kstate) : kstate :=
  mkkstate (ptable r) (stride_arr r) (MLFQ_queues r) (MLFQ_tick r) (nextpid r) (initproc r)
    (cpu_proc r) (ptable_lock r) v (threadlock r).
Definition set_threadlock (v : bool) (r : kstate) : kstate :=
  mkkstate (ptable r) (stride_arr r) (MLFQ_queues r) (MLFQ_tick r) (nextpid r) (initproc r)
    (cpu_proc r) (ptable_lock r) (FQ_ticklock r) v.

(** ** Access to the tables *)
Definition getp (i : nat) : M kstate proc := λ k,
  match ptable k !! i with Some p => Ret p k | None => Fault end.

Definition updp (i : nat) (f : proc → proc) : M kstate unit := λ k,
  match ptable k !! i with
  | Some p => Ret tt (set_ptable (<[i := f p]> (ptable k)) k)
  | None => Fault
  end.

(** [MLFQ_queues[level]]; [level] is an [int]. *)
Definition getq (level : Z) : M kstate FQ := λ k,
  if level <? 0 then Fault else
  match MLFQ_queues k !! Z.to_nat level with Some q => Ret q k | None => Fault end.

Definition updq (level : Z) (f : FQ → FQ) : M kstate unit := λ k,
  if level <? 0 then Fault else
  match MLFQ_queues k !! Z.to_nat level with
  | Some q => Ret tt (set_MLFQ_queues (<[Z.to_nat level := f q]> (MLFQ_queues k)) k)
  | None => Fault
  end.

Definition getst (i : nat) : M kstate stride := λ k,
  match stride_arr k !! i with Some s => Ret s k | None => Fault end.

Definition updst (i : nat) (f : stride → stride) : M kstate unit := λ k,
  match stride_arr k !! i with
  | Some s => Ret tt (set_stride_arr (<[i := f s]> (stride_arr k)) k)
  | None => Fault
  end.

(** [myproc()], with a null result a fault of the dereference that follows. *)
Definition myproc : M kstate nat := gets cpu_proc ≫= deref.

(** ** The spin locks of the two files, as seen by the processor that runs:
    taking a lock it holds panics, and so does releasing one it does not. *)
Definition acquire_ptable : M kstate unit := λ k,
  if ptable_lock k then Panic "acquire" else Ret tt (set_ptable_lock true k).
Definition release_ptable : M kstate unit := λ k,
  if ptable_lock k then Ret tt (set_ptable_lock false k) else Panic "release".
Definition acquire_FQ : M kstate unit := λ k,
  if FQ_ticklock k then Panic "acquire" else Ret tt (set_FQ_ticklock true k).
Definition release_FQ : M kstate unit := λ k,
  if FQ_ticklock k then Ret tt (set_FQ_ticklock false k) else Panic "release".
Definition acquire_thread : M kstate unit := λ k,
  if threadlock k then Panic "acquire" else Ret tt (set_threadlock true k).
Definition release_thread : M kstate unit := λ k,
  if threadlock k then Ret tt (set_threadlock false k) else Panic "release".

(** ** Their equations *)
Section access.
Implicit Types k : kstate.

Lemma getp_eq k i p : ptable k !! i = Some p → getp i k = Ret p k.
Proof. intros H. unfold getp. by rewrite H. Qed.

Lemma updp_eq k i p f : ptable k !! i = Some p →
  updp i f k = Ret tt (set_ptable (<[i := f p]> (ptable k)) k).
Proof. intros H. unfold updp. by rewrite H. Qed.

Lemma getq_eq k (l : nat) q : MLFQ_queues k !! l = Some q → getq (Z.of_nat l) k = Ret q k.
Proof.
  intros H. unfold getq. rewrite Nat2Z.id.
  destruct (Z.ltb_spec (Z.of_nat l) 0); [lia|]. by rewrite H.
Qed.

Lemma updq_eq k (l : nat) q f : MLFQ_queues k !! l = Some q →
  updq (Z.of_nat l) f k = Ret tt (set_MLFQ_queues (<[l := f q]> (MLFQ_queues k)) k).
Proof.
  intros H. unfold updq. rewrite Nat2Z.id.
  destruct (Z.ltb_spec (Z.of_nat l) 0); [lia|]. by rewrite H.
Qed.

Lemma getst_eq k i s : stride_arr k !! i = Some s → getst i k = Ret s k.
Proof. intros H. unfold getst. by rewrite H. Qed.

Lemma updst_eq k i s f : stride_arr k !! i = Some s →
  updst i f k = Ret tt (set_stride_arr (<[i := f s]> (stride_arr k)) k).
Proof. intros H. unfold updst. by rewrite H. Qed.

Lemma myproc_eq k i : cpu_proc k = Some i → myproc k = Ret i k.
Proof. intros H. unfold myproc, gets, deref, mbind, M_bind. by rewrite H. Qed.
End access.
