(* ===== verification/Sched.v ===== *)
(** * The MLFQ and stride scheduler: myscheduler.c

    One definition per function of the file.  The level-0 queue is the one
    [exec_MLFQ] looks at first.  Slot 0 of [stride_arr] stands for the whole
    MLFQ, the other slots for the processes that called [set_cpu_share]. *)
From S2P Require Import Prelude Params ProcState.

(** [push_MLFQ]: put [p] in the first free slot of the queue [level]. *)
Definition push_MLFQ (p : nat) (level : Z) : M kstate Z :=
  q ← getq level;
  match list_find (λ h, h = None) (fq_holdingproc q) with
  | Some (i, _) =>
      updq level (set_fq_holdingproc (<[i := Some p]> (fq_holdingproc q)));;
      updp p (set_p_level level);;
      updp p (set_p_fqtick 0);;
      updp p (set_p_mystride (Some 0%nat));;
      updp p (set_p_isstride 0);;
      updq level (λ q, set_fq_total (s32 (fq_total q + 1)) q);;
      mret 0
  | None => mret (-1)
  end.

(** [pop_MLFQ]: clear the first slot of the queue [p->level] that holds [p]. *)
Definition pop_MLFQ (p : nat) : M kstate Z :=
  pr ← getp p;
  let level := p_level pr in
  q ← getq level;
  match list_find (λ h, h = Some p) (fq_holdingproc q) with
  | Some (i, _) =>
      updp p (set_p_fqtick 0);;
      updq level (λ q, set_fq_total (s32 (fq_total q - 1)) q);;
      updq level (λ q, set_fq_holdingproc (<[i := None]> (fq_holdingproc q)) q);;
      mret 0
  | None => mret (-1)
  end.

(** The [do ... while(i != master->curthread)] loop of [pickthread]; the two
    assignments to [curthread] come with a return, so the loop condition sees
    the [curthread] of the start.  [fuel] bounds the number of turns. *)
Fixpoint pickthread_loop (fuel : nat) (master : nat) (i : Z) : M kstate nat :=
  match fuel with
  | O => fault
  | S fuel' =>
      let i := Z.rem (i + 1) (Z.of_nat NTHRE + 1) in
      m ← getp master;
      let next := if i =? p_curthread m then mret master
                  else pickthread_loop fuel' master i in
      if i =? Z.of_nat NTHRE then
        if decide (p_state m = RUNNABLE) then
          updp master (set_p_curthread i);; mret master
        else next
      else
        w ← (if i <? 0 then fault else deref (p_workerthread m !! Z.to_nat i));
        match w with
        | Some t =>
            tp ← getp t;
            if decide (p_state tp = RUNNABLE) then
              updp master (set_p_curthread i);; mret t
            else next
        | None => next
        end
  end.

(** [pickthread]: round robin over the workers of a master and the master
    itself, position [NTHRE]. *)
Definition pickthread (master : nat) : M kstate nat :=
  m ← getp master;
  if p_threadcnt m =? 0 then mret master
  else pickthread_loop (S NTHRE) master (p_curthread m).

(** Is slot [h] of a queue a process that can run? *)
Definition holds_runnable (h : option nat) : M kstate bool :=
  match h with
  | None => mret false
  | Some p => pr ← getp p; mret (bool_decide (p_state pr = RUNNABLE))
  end.

(** The inner loop of [exec_MLFQ]: [n] slots from [pos] on. *)
Fixpoint exec_MLFQ_scan (level : Z) (n : nat) (pos : Z) : M kstate (option nat) :=
  match n with
  | O => mret None
  | S n' =>
      q ← getq level;
      h ← (if pos <? 0 then fault else deref (fq_holdingproc q !! Z.to_nat pos));
      r ← holds_runnable h;
      if (r : bool) then
        updq level (set_fq_current pos);;
        updq level (λ q, set_fq_current (s32 (fq_current q + 1)) q);;
        p ← deref h;
        pr ← getp p;
        if p_isthread pr =? 1 then t ← pickthread p; mret (Some t)
        else mret (Some p)
      else exec_MLFQ_scan level n' (Z.rem (pos + 1) (Z.of_nat NPROC))
  end.

Fixpoint exec_MLFQ_levels (levels : list Z) : M kstate (option nat) :=
  match levels with
  | [] => mret None
  | i :: levels' =>
      q ← getq i;
      if fq_total q =? 0 then exec_MLFQ_levels levels'
      else
        r ← exec_MLFQ_scan i (NPROC - 1) (Z.rem (fq_current q) (Z.of_nat NPROC));
        match r with
        | Some p => mret (Some p)
        | None => exec_MLFQ_levels levels'
        end
  end.

(** [exec_MLFQ]: the next process of the feedback queues, null if none. *)
Definition exec_MLFQ : M kstate (option nat) := exec_MLFQ_levels [0; 1; 2].

Definition level_change_MLFQ (p : nat) (level : Z) : M kstate Z :=
  ret ← pop_MLFQ p;
  if ret =? -1 then mret ret else push_MLFQ p level.

(** [boost_priority]: every process of level 1 or 2 back to level 0. *)
Definition boost_body (i : nat) : M kstate unit :=
  pr ← getp i;
  if (p_level pr =? 1) || (p_level pr =? 2)
  then level_change_MLFQ i 0;; mret tt
  else mret tt.

Definition boost_priority : M kstate unit :=
  mfor (seq 0 NPROC) boost_body;;
  acquire_FQ;;
  modify (set_MLFQ_tick 0);;
  release_FQ.

(** [increasealltick]: for a thread the loop goes through the local pointer
    [master], which the function never initialises. *)
Definition increasealltick (p : nat) : M kstate unit :=
  pr ← getp p;
  if p_isthread pr =? 0 then
    updp p (λ pr, set_p_fqtick (s32 (p_fqtick pr + 1)) pr)
  else
    updp p (λ pr, set_p_fqtick (s32 (p_fqtick pr + 1)) pr);;
    fault.

(** [setthreadtick]: clear the tick counts of a whole thread group. *)
Definition setthreadtick (thread : nat) : M kstate unit :=
  t ← getp thread;
  let master := match p_master t with None => thread | Some m => m end in
  updp master (set_p_fqtick 0);;
  m ← getp master;
  if p_isthread m =? 1 then
    mfor (seq 0 NTHRE) (λ i,
      m ← getp master;
      w ← deref (p_workerthread m !! i);
      t ← deref w;
      updp t (set_p_fqtick 0))
  else mret tt.

(** The common tail of the three level cases of [tick_add_MLFQ]. *)
Definition tick_decide (allot quantum : Z) : M kstate Z :=
  if Z.rem allot quantum =? 0 then
    tick ← gets MLFQ_tick;
    (if 200 <? tick then boost_priority else mret tt);;
    release_ptable;;
    mret 1
  else
    release_ptable;;
    mret 0.

(** [tick_add_MLFQ]: account one timer tick to the running process; 1 asks the
    caller to yield. *)
Definition tick_add_MLFQ : M kstate Z :=
  acquire_ptable;;
  p ← myproc;
  pr ← getp p;
  now ← deref (p_mystride pr);
  updst now (λ s, set_st_pass (s32 (st_pass s + st_stride s)) s);;
  if p_isstride pr =? 1 then
    increasealltick p;;
    pr ← getp p;
    if 5 <? p_fqtick pr then release_ptable;; mret 1
    else release_ptable;; mret 0
  else
    acquire_FQ;;
    modify (λ k, set_MLFQ_tick (s32 (MLFQ_tick k + 1)) k);;
    release_FQ;;
    increasealltick p;;
    pr ← getp p;
    let allot := p_fqtick pr in
    if p_level pr =? 0 then
      (if 20 <=? allot then level_change_MLFQ p 1;; mret tt else mret tt);;
      tick_decide allot 5
    else if p_level pr =? 1 then
      (if 40 <=? allot then level_change_MLFQ p 2;; mret tt else mret tt);;
      tick_decide allot 10
    else if p_level pr =? 2 then
      tick_decide allot 20
    else
      release_ptable;;
      mret (-1).

(** The loop of [choose_lowpass] over [stride_arr]: the index of the selected
    element. *)
Definition lowpass_step (select tmp : nat) : M kstate nat :=
  st ← getst tmp;
  if st_stride st =? 0 then mret select
  else
    p ← deref (st_proc st);
    pr ← getp p;
    if decide (p_state pr ≠ RUNNABLE) then mret select
    else
      sel ← getst select;
      if st_pass st <? st_pass sel then mret tmp else mret select.

(** [choose_lowpass]: the process to run next, null when the MLFQ is selected
    and holds nothing.  The loop against overflow of the pass values starts at
    [tmp], which the loop before has left at the end of the array. *)
Definition choose_lowpass (start : Z) : M kstate (option nat) :=
  select ← mfold (seq 0 NPROC) 0%nat lowpass_step;
  sel ← getst select;
  (if 200000000 <? st_pass sel then
     mfor (seq 0 NPROC) (λ i,
       updst (NPROC + i) (λ s, set_st_pass (Z.rem (st_pass s) 200000000) s))
   else mret tt);;
  if decide (select = 0%nat) then exec_MLFQ
  else
    p ← deref (st_proc sel);
    pr ← getp p;
    if p_isthread pr =? 1 then t ← pickthread p; mret (Some t)
    else mret (Some p).

(** The lower half of [set_cpu_share], on [stride_arr]: shares and stride of
    slot 0, the lowest pass in use, and the first free slot for the caller.
    Without a free slot the index is left at [NPROC]. *)
Definition reserve (p : nat) (portion total_portion : Z) : M kstate nat :=
  updst 0 (set_st_share (s32 (100 - total_portion)));;
  st0 ← getst 0;
  d0 ← idiv MAXTICKET (st_share st0);
  updst 0 (set_st_stride d0);;
  min_pass ← mfold (seq 0 NPROC) 220000000 (λ m l,
    st ← getst l;
    mret (if st_stride st =? 0 then m
          else if st_pass st <? m then st_pass st else m));
  arr ← gets stride_arr;
  j ← match list_find (λ st, st_stride st = 0) arr with
      | Some (j, _) =>
          updst j (set_st_share portion);;
          d ← idiv MAXTICKET portion;
          updst j (set_st_stride d);;
          updst j (set_st_pass min_pass);;
          mret j
      | None => mret NPROC
      end;
  updst j (set_st_proc (Some p));;
  mret j.

(** [set_cpu_share]: reserve [portion] per cent for the calling process. *)
Definition set_cpu_share (portion : Z) : M kstate Z :=
  p ← myproc;
  total_portion ← mfold (seq 1 (NPROC - 1)) portion (λ t i,
    st ← getst i;
    mret (if st_stride st =? 0 then t else s32 (t + st_share st)));
  if 80 <? total_portion then mret (-1)
  else
    j ← reserve p portion total_portion;
    updp p (set_p_mystride (Some j));;
    updp p (set_p_isstride 1);;
    setthreadtick p;;
    pop_MLFQ p;;
    updp p (set_p_level 3);;
    mret 0.

(** [getlev] of myscheduler.c. *)
Definition getlev : M kstate Z := mret 0.
