(* ===== verification/SchedInv.v ===== *)
(** * Invariant of the feedback queues

    What the queues of myscheduler.c keep true: the counter [total] of a queue
    is the number of its elements, no process is queued twice, and the [level]
    field of a queued process names the queue that holds it.  The operations
    that move processes between queues preserve it. *)
From S2P Require Import Prelude Params ProcState Sched.

(** ** The invariant *)
Record mlfq_wf (k : kstate) : Prop := MlfqWf {
  wf_ptable : length (ptable k) = NPROC;
  wf_queues : length (MLFQ_queues k) = NQUEUE;
  wf_slots l q : MLFQ_queues k !! l = Some q → length (fq_holdingproc q) = NPROC;
  wf_total l q : MLFQ_queues k !! l = Some q →
    fq_total q = Z.of_nat (length (members (fq_holdingproc q)));
  wf_nodup l q : MLFQ_queues k !! l = Some q → NoDup (members (fq_holdingproc q));
  wf_level l q i : MLFQ_queues k !! l = Some q → i ∈ members (fq_holdingproc q) →
    ∃ pr, ptable k !! i = Some pr ∧ p_level pr = Z.of_nat l;
  wf_current l q : MLFQ_queues k !! l = Some q → 0 <= fq_current q <= Z.of_nat NPROC
}.

(** The processes a queue holds; [queued k l i]: process [i] is one of them. *)
Definition queue_of (k : kstate) (l : nat) : list nat :=
  match MLFQ_queues k !! l with Some q => members (fq_holdingproc q) | None => [] end.
Definition queued (k : kstate) (l i : nat) : Prop := i ∈ queue_of k l.

#[export] Instance queued_dec k l i : Decision (queued k l i).
Proof. unfold queued. apply _. Defined.

(** ** Exact effect of the two queue operations *)
Definition pushed_queue (i s : nat) (q : FQ) : FQ :=
  set_fq_total (s32 (fq_total q + 1))
    (set_fq_holdingproc (<[s := Some i]> (fq_holdingproc q)) q).
Definition pushed_proc (level : Z) (pr : proc) : proc :=
  set_p_isstride 0 (set_p_mystride (Some 0%nat) (set_p_fqtick 0 (set_p_level level pr))).
Definition popped_queue (s : nat) (q : FQ) : FQ :=
  set_fq_holdingproc (<[s := None]> (fq_holdingproc q))
    (set_fq_total (s32 (fq_total q - 1)) q).

Definition put_queue (l : nat) (q : FQ) (i : nat) (pr : proc) (k : kstate) : kstate :=
  set_MLFQ_queues (<[l := q]> (MLFQ_queues k)) (set_ptable (<[i := pr]> (ptable k)) k).

Section effects.
Implicit Types (k : kstate) (l i s : nat).

Lemma push_MLFQ_eq k i l q pr s o :
  MLFQ_queues k !! l = Some q → ptable k !! i = Some pr →
  list_find (λ h, h = None) (fq_holdingproc q) = Some (s, o) →
  push_MLFQ i (Z.of_nat l) k =
    Ret 0 (put_queue l (pushed_queue i s q) i (pushed_proc (Z.of_nat l) pr) k).
Proof.
  intros Hq Hp Hf.
  pose proof (lookup_lt_Some _ _ _ Hq). pose proof (lookup_lt_Some _ _ _ Hp).
  unfold push_MLFQ. rewrite (bind_ret _ _ _ _ _ (getq_eq _ _ _ Hq)), Hf.
  destruct k; simpl in *.
  repeat (erewrite bind_ret;
    [|first [apply updq_eq|apply updp_eq]; simpl;
      first [eassumption|by apply list_lookup_insert_eq; len]]; simpl).
  unfold put_queue; simpl. by rewrite !list_insert_insert_eq.
Qed.

Lemma pop_MLFQ_eq k i l q pr s o :
  MLFQ_queues k !! l = Some q → ptable k !! i = Some pr → p_level pr = Z.of_nat l →
  list_find (λ h, h = Some i) (fq_holdingproc q) = Some (s, o) →
  pop_MLFQ i k = Ret 0 (put_queue l (popped_queue s q) i (set_p_fqtick 0 pr) k).
Proof.
  intros Hq Hp Hl Hf.
  pose proof (lookup_lt_Some _ _ _ Hq). pose proof (lookup_lt_Some _ _ _ Hp).
  unfold pop_MLFQ. rewrite (bind_ret _ _ _ _ _ (getp_eq _ _ _ Hp)), Hl.
  rewrite (bind_ret _ _ _ _ _ (getq_eq _ _ _ Hq)), Hf.
  destruct k; simpl in *.
  repeat (erewrite bind_ret;
    [|first [apply updq_eq|apply updp_eq]; simpl;
      first [eassumption|by apply list_lookup_insert_eq; len]]; simpl).
  unfold put_queue; simpl. by rewrite !list_insert_insert_eq.
Qed.

Lemma pop_MLFQ_absent k i l q pr :
  MLFQ_queues k !! l = Some q → ptable k !! i = Some pr → p_level pr = Z.of_nat l →
  i ∉ members (fq_holdingproc q) → pop_MLFQ i k = Ret (-1) k.
Proof.
  intros Hq Hp Hl Hi. unfold pop_MLFQ.
  rewrite (bind_ret _ _ _ _ _ (getp_eq _ _ _ Hp)), Hl.
  rewrite (bind_ret _ _ _ _ _ (getq_eq _ _ _ Hq)).
  destruct (list_find _ _) as [[s o]|] eqn:Hf; [|done].
  apply list_find_Some in Hf as (Hs & -> & _). destruct Hi.
  apply elem_of_members; eauto.
Qed.
End effects.

(** ** Preservation *)
Section preservation.
Implicit Types (k : kstate) (l i s : nat).

Lemma wf_queue k l : mlfq_wf k → (l < NQUEUE)%nat → ∃ q, MLFQ_queues k !! l = Some q.
Proof. intros Hwf Hl. apply lookup_lt_is_Some. by rewrite wf_queues. Qed.

Lemma wf_proc k i : mlfq_wf k → (i < NPROC)%nat → ∃ pr, ptable k !! i = Some pr.
Proof. intros Hwf Hi. apply lookup_lt_is_Some. by rewrite wf_ptable. Qed.

Lemma queue_of_eq k l q : MLFQ_queues k !! l = Some q → queue_of k l = members (fq_holdingproc q).
Proof. unfold queue_of. by intros ->. Qed.

Lemma queued_inv k l i : queued k l i →
  ∃ q, MLFQ_queues k !! l = Some q ∧ i ∈ members (fq_holdingproc q).
Proof.
  unfold queued, queue_of. destruct (_ !! l) as [q|] eqn:E; [eauto|]. by intros ?%elem_of_nil.
Qed.

Lemma wf_queued_lt k l i : mlfq_wf k → queued k l i → (i < NPROC)%nat.
Proof.
  intros Hwf (q & Hq & Hi)%queued_inv. destruct (wf_level _ Hwf _ _ _ Hq Hi) as (pr & Hp & _).
  apply lookup_lt_Some in Hp. by rewrite wf_ptable in Hp.
Qed.

(** A process is in at most one queue: the one its [level] names. *)
Lemma wf_queued_level k l i pr :
  mlfq_wf k → queued k l i → ptable k !! i = Some pr → p_level pr = Z.of_nat l.
Proof.
  intros Hwf (q & Hq & Hi)%queued_inv Hp.
  destruct (wf_level _ Hwf _ _ _ Hq Hi) as (pr' & Hp' & ?). by simplify_eq.
Qed.

(** A queue that does not hold process [i] has a free slot. *)
Lemma wf_free_slot k l q i :
  mlfq_wf k → MLFQ_queues k !! l = Some q → (i < NPROC)%nat → ¬ queued k l i →
  ∃ s, list_find (λ h, h = None) (fq_holdingproc q) = Some (s, None).
Proof.
  intros Hwf Hq Hi Hni. unfold queued in Hni. rewrite (queue_of_eq _ _ _ Hq) in Hni.
  destruct (members_free (fq_holdingproc q)) as [s Hs].
  - rewrite (wf_slots _ Hwf _ _ Hq).
    enough (length (i :: members (fq_holdingproc q)) ≤ NPROC)%nat by (simpl in *; lia).
    apply NoDup_bounded.
    + apply NoDup_cons. split; [done|]. by eapply wf_nodup.
    + intros j [->|Hj]%elem_of_cons; [done|]. eapply (wf_queued_lt k l); [done|].
      unfold queued. by rewrite (queue_of_eq _ _ _ Hq).
  - destruct (list_find_lookup (λ h, h = None) _ _ _ Hs eq_refl) as (j & y & Hj & _ & ->).
    eauto.
Qed.

Lemma put_queue_wf k l q' i pr pr' q :
  mlfq_wf k → MLFQ_queues k !! l = Some q → ptable k !! i = Some pr →
  length (fq_holdingproc q') = NPROC →
  fq_total q' = Z.of_nat (length (members (fq_holdingproc q'))) →
  NoDup (members (fq_holdingproc q')) →
  0 <= fq_current q' <= Z.of_nat NPROC →
  (∀ j, j ∈ members (fq_holdingproc q') → j ≠ i → queued k l j) →
  (i ∈ members (fq_holdingproc q') → p_level pr' = Z.of_nat l) →
  (∀ l', l' ≠ l → queued k l' i → p_level pr' = Z.of_nat l') →
  mlfq_wf (put_queue l q' i pr' k).
Proof.
  intros Hwf Hq Hp Hlen Htot Hnd Hcur Hsub Hin Hout.
  pose proof (lookup_lt_Some _ _ _ Hq). pose proof (lookup_lt_Some _ _ _ Hp).
  split; unfold put_queue; simpl.
  - rewrite length_insert. apply Hwf.
  - rewrite length_insert. apply Hwf.
  - intros l0 q0 [(<- & <- & _)|(? & ?)]%list_lookup_insert_Some; [done|by eapply wf_slots].
  - intros l0 q0 [(<- & <- & _)|(? & ?)]%list_lookup_insert_Some; [done|by eapply wf_total].
  - intros l0 q0 [(<- & <- & _)|(? & ?)]%list_lookup_insert_Some; [done|by eapply wf_nodup].
  - assert (∀ l0 j, queued k l0 j → j ≠ i →
      ∃ pr0, <[i:=pr']> (ptable k) !! j = Some pr0 ∧ p_level pr0 = Z.of_nat l0) as Hold.
    { intros l0 j Hj Hji. rewrite list_lookup_insert_ne by done.
      apply queued_inv in Hj as (q0 & ? & ?). by eapply wf_level. }
    assert (<[i:=pr']> (ptable k) !! i = Some pr') by by apply list_lookup_insert_eq.
    intros l0 q0 j [(<- & <- & _)|(? & Hq0)]%list_lookup_insert_Some Hj;
      destruct (decide (j = i)) as [->|]; eauto.
    + exists pr'. split; [done|]. apply Hout; [done|]. unfold queued.
      by rewrite (queue_of_eq _ _ _ Hq0).
    + apply Hold; [|done]. unfold queued. by rewrite (queue_of_eq _ _ _ Hq0).
  - intros l0 q0 [(<- & <- & _)|(? & ?)]%list_lookup_insert_Some; [done|by eapply wf_current].
Qed.

Lemma total_small k l q : mlfq_wf k → MLFQ_queues k !! l = Some q →
  (length (members (fq_holdingproc q)) ≤ NPROC)%nat.
Proof. intros Hwf Hq. rewrite <-(wf_slots _ Hwf _ _ Hq). apply length_members_le. Qed.

(** The queues after a put: only queue [l] changes. *)
Lemma queue_of_put k l l' q i pr : (l < length (MLFQ_queues k))%nat →
  queue_of (put_queue l q i pr k) l' =
    if decide (l = l') then members (fq_holdingproc q) else queue_of k l'.
Proof.
  intros Hl. unfold queue_of, put_queue; simpl. case_decide; simplify_eq.
  - by rewrite list_lookup_insert_eq.
  - by rewrite list_lookup_insert_ne.
Qed.

(** [push_MLFQ] on a process that is in no queue. *)
Lemma push_MLFQ_spec k i l :
  mlfq_wf k → (i < NPROC)%nat → (l < NQUEUE)%nat → (∀ l', ¬ queued k l' i) →
  ∃ k', push_MLFQ i (Z.of_nat l) k = Ret 0 k' ∧ mlfq_wf k' ∧
    queue_of k' l ≡ₚ i :: queue_of k l ∧
    (∀ l', l' ≠ l → queue_of k' l' = queue_of k l') ∧
    (∀ pr, ptable k !! i = Some pr →
       ptable k' = <[i := pushed_proc (Z.of_nat l) pr]> (ptable k)) ∧
    k' = set_MLFQ_queues (MLFQ_queues k') (set_ptable (ptable k') k).
Proof.
  intros Hwf Hi Hl Hni.
  destruct (wf_queue k l Hwf Hl) as [q Hq]. destruct (wf_proc k i Hwf Hi) as [pr Hp].
  destruct (wf_free_slot k l q i Hwf Hq Hi (Hni l)) as [s Hs].
  rewrite (push_MLFQ_eq _ _ _ _ _ _ _ Hq Hp Hs). eexists; split; [done|].
  apply list_find_Some in Hs as (Hs & _ & _). pose proof (members_set _ _ i Hs) as Hperm.
  pose proof (total_small k l q Hwf Hq). pose proof (lookup_lt_Some _ _ _ Hq).
  assert (i ∉ members (fq_holdingproc q)) as Hi'.
  { specialize (Hni l). unfold queued in Hni. by rewrite (queue_of_eq _ _ _ Hq) in Hni. }
  rewrite !queue_of_put by done. rewrite decide_True by done. simpl. split_and!.
  - eapply put_queue_wf; try done; simpl.
    + rewrite length_insert. by eapply wf_slots.
    + rewrite Hperm, (wf_total _ Hwf _ _ Hq), s32_id; simpl; [lia|].
      unfold is_s32, NPROC in *; lia.
    + rewrite Hperm. apply NoDup_cons. split; [done|by eapply wf_nodup].
    + by eapply wf_current.
    + intros j. rewrite Hperm, elem_of_cons. intros [->|]; [done|]. intros _.
      unfold queued. by rewrite (queue_of_eq _ _ _ Hq).
    + intros l' _ ?. by destruct (Hni l').
  - by rewrite (queue_of_eq _ _ _ Hq).
  - intros l' ?. rewrite queue_of_put by done. by rewrite decide_False.
  - intros pr' Hp'. by simplify_eq.
  - done.
Qed.

(** [pop_MLFQ] on a queued process: its only slot becomes free. *)
Lemma pop_MLFQ_spec k i l :
  mlfq_wf k → queued k l i →
  ∃ k', pop_MLFQ i k = Ret 0 k' ∧ mlfq_wf k' ∧
    i :: queue_of k' l ≡ₚ queue_of k l ∧ ¬ queued k' l i ∧
    (∀ l', l' ≠ l → queue_of k' l' = queue_of k l') ∧
    (∀ pr, ptable k !! i = Some pr → ptable k' = <[i := set_p_fqtick 0 pr]> (ptable k)) ∧
    k' = set_MLFQ_queues (MLFQ_queues k') (set_ptable (ptable k') k).
Proof.
  intros Hwf Hql. destruct (queued_inv _ _ _ Hql) as (q & Hq & Hi).
  destruct (wf_level _ Hwf _ _ _ Hq Hi) as (pr & Hp & Hlev).
  pose proof Hi as [s0 Hs0]%elem_of_members.
  destruct (list_find_lookup (λ h, h = Some i) _ _ _ Hs0 eq_refl) as (s & y & Hs & Hsy & ->).
  rewrite (pop_MLFQ_eq _ _ _ _ _ _ _ Hq Hp Hlev Hs). eexists; split; [done|].
  pose proof (members_clear _ _ i Hsy) as Hperm.
  pose proof (total_small k l q Hwf Hq) as Hsm. pose proof (lookup_lt_Some _ _ _ Hq).
  assert (NoDup (i :: members (<[s:=None]> (fq_holdingproc q)))) as Hnd.
  { rewrite Hperm. by eapply wf_nodup. }
  apply NoDup_cons in Hnd as [Hni Hnd].
  unfold queued. rewrite !queue_of_put by done. rewrite decide_True by done.
  rewrite (queue_of_eq _ _ _ Hq). simpl. split_and!; try done.
  - eapply put_queue_wf; try done; simpl.
    + rewrite length_insert. by eapply wf_slots.
    + rewrite (wf_total _ Hwf _ _ Hq). rewrite <-Hperm in Hsm |- *. simpl in *.
      rewrite s32_id; [lia|]. unfold is_s32, NPROC in *; lia.
    + by eapply wf_current.
    + intros j Hj _. unfold queued. rewrite (queue_of_eq _ _ _ Hq), <-Hperm.
      apply elem_of_cons. by right.
    + intros l' ? Hl'. by eapply wf_queued_level.
  - intros l' ?. rewrite queue_of_put by done. by rewrite decide_False.
  - intros pr' Hp'. by simplify_eq.
Qed.
End preservation.

(** ** Moving a process, and the boost

    [same_procs k k']: the two process tables agree on all the fields the queue
    operations do not own. *)
Definition same_procs (k k' : kstate) : Prop :=
  pushed_proc 0 <$> ptable k' = pushed_proc 0 <$> ptable k.

(** [same_rest k k']: the globals other than the queues, the process table and
    the boost counter are untouched. *)
Definition same_rest (k k' : kstate) : Prop :=
  stride_arr k' = stride_arr k ∧ nextpid k' = nextpid k ∧ initproc k' = initproc k ∧
  cpu_proc k' = cpu_proc k ∧ ptable_lock k' = ptable_lock k ∧
  FQ_ticklock k' = FQ_ticklock k ∧ threadlock k' = threadlock k.

Section moves.
Implicit Types (k : kstate) (l i s : nat).

Lemma same_procs_insert k i pr pr' :
  ptable k !! i = Some pr → pushed_proc 0 pr' = pushed_proc 0 pr →
  pushed_proc 0 <$> <[i := pr']> (ptable k) = pushed_proc 0 <$> ptable k.
Proof.
  intros Hp Heq. rewrite list_fmap_insert, Heq. apply list_insert_id.
  by rewrite list_lookup_fmap, Hp.
Qed.

Lemma same_rest_refl k : same_rest k k.
Proof. done. Qed.

Lemma same_rest_trans k k1 k2 : same_rest k k1 → same_rest k1 k2 → same_rest k k2.
Proof. unfold same_rest. intros; destruct_and!; split_and!; congruence. Qed.

Lemma same_rest_of k k' :
  k' = set_MLFQ_queues (MLFQ_queues k') (set_ptable (ptable k') k) → same_rest k k'.
Proof. intros ->. done. Qed.

Lemma queued_unique k l l' i : mlfq_wf k → queued k l i → queued k l' i → l = l'.
Proof.
  intros Hwf H1 H2. destruct (wf_proc k i Hwf) as [pr Hp]; [by apply (wf_queued_lt k l)|].
  pose proof (wf_queued_level _ _ _ _ Hwf H1 Hp).
  pose proof (wf_queued_level _ _ _ _ Hwf H2 Hp). lia.
Qed.

Lemma push_queued k i l :
  mlfq_wf k → (i < NPROC)%nat → (l < NQUEUE)%nat → (∀ l', ¬ queued k l' i) →
  ∃ k', push_MLFQ i (Z.of_nat l) k = Ret 0 k' ∧ mlfq_wf k' ∧
    (∀ l0 j, queued k' l0 j ↔ (l0 = l ∧ j = i) ∨ queued k l0 j) ∧
    same_procs k k' ∧ same_rest k k' ∧
    (∀ pr, ptable k !! i = Some pr →
       ptable k' = <[i := pushed_proc (Z.of_nat l) pr]> (ptable k)) ∧
    MLFQ_tick k' = MLFQ_tick k.
Proof.
  intros Hwf Hi Hl Hni.
  destruct (push_MLFQ_spec k i l Hwf Hi Hl Hni) as (k' & Hr & Hwf' & Hq & Ho & Hp & Hk).
  exists k'. split_and!; try done.
  - intros l0 j. unfold queued. destruct (decide (l0 = l)) as [->|].
    + rewrite Hq, elem_of_cons. naive_solver.
    + rewrite Ho by done. naive_solver.
  - destruct (wf_proc k i Hwf Hi) as [pr Hpr]. unfold same_procs.
    rewrite (Hp _ Hpr). by apply (same_procs_insert _ _ pr).
  - by apply same_rest_of.
  - by rewrite Hk.
Qed.

Lemma pop_queued k i l :
  mlfq_wf k → queued k l i →
  ∃ k', pop_MLFQ i k = Ret 0 k' ∧ mlfq_wf k' ∧
    (∀ l0 j, queued k' l0 j ↔ j ≠ i ∧ queued k l0 j) ∧
    same_procs k k' ∧ same_rest k k' ∧
    (∀ pr, ptable k !! i = Some pr → ptable k' = <[i := set_p_fqtick 0 pr]> (ptable k)) ∧
    MLFQ_tick k' = MLFQ_tick k.
Proof.
  intros Hwf Hql.
  destruct (pop_MLFQ_spec k i l Hwf Hql) as (k' & Hr & Hwf' & Hq & Hn & Ho & Hp & Hk).
  exists k'. split_and!; try done.
  - intros l0 j. destruct (decide (l0 = l)) as [->|Hne].
    + unfold queued in *. rewrite <-Hq, elem_of_cons. destruct (decide (j = i)); naive_solver.
    + unfold queued. rewrite Ho by done. split; [|naive_solver]. intros Hj. split; [|done].
      intros ->. by apply Hne, (queued_unique k _ _ i).
  - destruct (wf_proc k i Hwf) as [pr Hpr]; [by apply (wf_queued_lt k l)|]. unfold same_procs.
    rewrite (Hp _ Hpr). by apply (same_procs_insert _ _ pr).
  - by apply same_rest_of.
  - by rewrite Hk.
Qed.

Lemma level_change_queued k i l l' :
  mlfq_wf k → queued k l i → (l' < NQUEUE)%nat →
  ∃ k', level_change_MLFQ i (Z.of_nat l') k = Ret 0 k' ∧ mlfq_wf k' ∧
    (∀ l0 j, queued k' l0 j ↔ (l0 = l' ∧ j = i) ∨ (j ≠ i ∧ queued k l0 j)) ∧
    same_procs k k' ∧ same_rest k k' ∧
    (∀ pr, ptable k !! i = Some pr →
       ptable k' = <[i := pushed_proc (Z.of_nat l') pr]> (ptable k)) ∧
    MLFQ_tick k' = MLFQ_tick k.
Proof.
  intros Hwf Hq Hl'. pose proof (wf_queued_lt _ _ _ Hwf Hq) as Hi.
  destruct (wf_proc k i Hwf Hi) as [pr Hpr].
  destruct (pop_queued k i l Hwf Hq) as (k1 & Hr1 & Hwf1 & Hq1 & Hs1 & Hk1 & Hp1 & Ht1).
  destruct (push_queued k1 i l' Hwf1 Hi Hl') as (k2 & Hr2 & Hwf2 & Hq2 & Hs2 & Hk2 & Hp2 & Ht2).
  { intros l0 Hl0. apply Hq1 in Hl0. naive_solver. }
  exists k2. unfold level_change_MLFQ. rewrite (bind_ret _ _ _ _ _ Hr1). split_and!; try done.
  - intros l0 j. rewrite Hq2, Hq1. naive_solver.
  - unfold same_procs in *. by rewrite Hs2, Hs1.
  - by eapply same_rest_trans.
  - intros pr' Hpr'. simplify_eq. rewrite (Hp2 (set_p_fqtick 0 pr)).
    + rewrite (Hp1 _ Hpr). by rewrite list_insert_insert_eq.
    + rewrite (Hp1 _ Hpr). apply list_lookup_insert_eq. by eapply lookup_lt_Some.
  - congruence.
Qed.

Lemma level_change_absent k i l pr (lv : Z) :
  mlfq_wf k → (l < NQUEUE)%nat → ptable k !! i = Some pr → p_level pr = Z.of_nat l →
  ¬ queued k l i → level_change_MLFQ i lv k = Ret (-1) k.
Proof.
  intros Hwf Hl Hp Hlev Hq. destruct (wf_queue k l Hwf Hl) as [q Hq'].
  unfold queued in Hq. rewrite (queue_of_eq _ _ _ Hq') in Hq.
  unfold level_change_MLFQ.
  by rewrite (bind_ret _ _ _ _ _ (pop_MLFQ_absent _ _ _ _ _ Hq' Hp Hlev Hq)).
Qed.

(** One turn of the loop of [boost_priority]. *)
Lemma queued_level_lt k l i : mlfq_wf k → queued k l i → (l < NQUEUE)%nat.
Proof.
  intros Hwf (q & Hq & _)%queued_inv. apply lookup_lt_Some in Hq. by rewrite wf_queues in Hq.
Qed.

Lemma boost_step k i :
  mlfq_wf k → (i < NPROC)%nat →
  returns (boost_body i) k (λ _ k', mlfq_wf k' ∧ same_procs k k' ∧ same_rest k k' ∧
    ∀ l0 j, queued k' l0 j ↔
      (j = i ∧ l0 = 0%nat ∧ ∃ l1, queued k l1 i) ∨ (j ≠ i ∧ queued k l0 j)).
Proof.
  intros Hwf Hi. destruct (wf_proc k i Hwf Hi) as [pr Hp].
  unfold boost_body. apply returns_bind. unfold returns at 1. rewrite (getp_eq _ _ _ Hp).
  destruct ((p_level pr =? 1) || (p_level pr =? 2)) eqn:E.
  - assert (∃ l, (l < NQUEUE)%nat ∧ p_level pr = Z.of_nat l) as (l & Hl & Hlev).
    { exists (Z.to_nat (p_level pr)). unfold NQUEUE. lia. }
    destruct (decide (queued k l i)) as [Hq|Hnq].
    + destruct (level_change_queued k i l 0 Hwf Hq) as (k2 & Hr & ? & Hq2 & ? & ? & _);
        [unfold NQUEUE; lia|].
      change (Z.of_nat 0) with 0 in Hr.
      apply returns_bind. unfold returns. rewrite Hr. split_and!; try done.
      intros l0 j. rewrite Hq2. naive_solver.
    + apply returns_bind. unfold returns.
      rewrite (level_change_absent k i l pr 0 Hwf Hl Hp Hlev Hnq).
      split_and!; [done|done|apply same_rest_refl|]. intros l0 j.
      assert (∀ l1, ¬ queued k l1 i) as Hnone.
      { intros l1 H1. pose proof (wf_queued_level _ _ _ _ Hwf H1 Hp).
        assert (l1 = l) by lia. naive_solver. }
      destruct (decide (j = i)) as [->|]; naive_solver.
  - split_and!; [done|done|apply same_rest_refl|]. intros l0 j.
    assert (∀ l1, queued k l1 i → l1 = 0%nat) as Hzero.
    { intros l1 H1. pose proof (wf_queued_level _ _ _ _ Hwf H1 Hp).
      pose proof (queued_level_lt _ _ _ Hwf H1). unfold NQUEUE in *. lia. }
    destruct (decide (j = i)) as [->|]; naive_solver.
Qed.

(** The loop of [boost_priority]. *)
Lemma boost_loop k :
  mlfq_wf k →
  returns (mfor (seq 0 NPROC) boost_body) k
    (λ _ k', mlfq_wf k' ∧ same_procs k k' ∧ same_rest k k' ∧
       ∀ l0 j, queued k' l0 j ↔ l0 = 0%nat ∧ ∃ l1, queued k l1 j).
Proof.
  intros Hwf.
  apply (returns_mfor _ _ (λ done k', mlfq_wf k' ∧ same_procs k k' ∧ same_rest k k' ∧
    ∀ l0 j, queued k' l0 j ↔ (j ∈ done ∧ l0 = 0%nat ∧ ∃ l1, queued k l1 j) ∨
                             ((j ∉ done) ∧ queued k l0 j))).
  - split_and!; [done|done|apply same_rest_refl|]. intros l0 j.
    rewrite elem_of_nil. naive_solver.
  - intros done i rest k' Heq (Hwf' & Hs & Hk & Hqs).
    assert ((i ∉ done) ∧ (i < NPROC)%nat) as [Hi Hlt].
    { pose proof (NoDup_seq 0 NPROC) as Hnd.
      assert (i ∈ seq 0 NPROC) as Hin by (rewrite Heq; set_solver).
      rewrite Heq in Hnd. apply NoDup_app in Hnd as (_ & Hd & _). split.
      - intros ?. apply (Hd i); [done|]. by left.
      - apply elem_of_seq in Hin. lia. }
    eapply returns_mono; [by apply boost_step|].
    intros [] k2 (Hwf2 & Hs2 & Hk2 & Hq2). split_and!; [done| |by eapply same_rest_trans|].
    { unfold same_procs in *. by rewrite Hs2. }
    intros l0 j. rewrite Hq2, elem_of_app, list_elem_of_singleton.
    setoid_rewrite Hqs. destruct (decide (j = i)) as [->|]; naive_solver.
  - intros k' (Hwf' & Hs & Hk & Hqs). split_and!; try done. intros l0 j. rewrite Hqs.
    assert (∀ l1, queued k l1 j → j ∈ seq 0 NPROC).
    { intros l1 H1. apply elem_of_seq. pose proof (wf_queued_lt _ _ _ Hwf H1). lia. }
    naive_solver.
Qed.

Lemma boost_priority_spec k :
  mlfq_wf k → FQ_ticklock k = false →
  returns boost_priority k (λ _ k', mlfq_wf k' ∧ same_procs k k' ∧ same_rest k k' ∧
    MLFQ_tick k' = 0 ∧ ∀ l0 j, queued k' l0 j ↔ l0 = 0%nat ∧ ∃ l1, queued k l1 j).
Proof.
  intros Hwf Hlk. unfold boost_priority. apply returns_bind.
  eapply returns_mono; [by apply boost_loop|]. intros [] k1 (Hwf1 & Hs & Hk & Hq).
  assert (FQ_ticklock k1 = false) as Hlk1.
  { destruct Hk as (_ & _ & _ & _ & _ & -> & _). done. }
  unfold returns, mbind, M_bind, acquire_FQ, modify, release_FQ. rewrite Hlk1. simpl.
  split_and!; try done; [by destruct Hwf1; split|].
  unfold same_rest in *. destruct_and!. split_and!; simpl; congruence.
Qed.
End moves.
