(* ===== verification/SchedPick.v ===== *)
(** * Which process runs next

    [pickthread] against a reference definition of round robin, and what
    [exec_MLFQ] and [choose_lowpass] select. *)
From S2P Require Import Prelude Params ProcState Sched SchedInv.

(** ** Thread groups

    The thread fields of a slot of the process table: [curthread] is a position
    of the round robin (a worker slot, or [NTHRE] for the master) and the
    worker pointers are null or point into the table. *)
Record group_wf (m : proc) : Prop := GroupWf {
  gw_cur : 0 <= p_curthread m <= Z.of_nat NTHRE;
  gw_len : length (p_workerthread m) = NTHRE;
  gw_ptr t : t ∈ members (p_workerthread m) → (t < NPROC)%nat
}.

Definition groups_wf (k : kstate) : Prop :=
  length (ptable k) = NPROC ∧ ∀ i m, ptable k !! i = Some m → group_wf m.

Definition runnable (k : kstate) (i : nat) : Prop :=
  ∃ pr, ptable k !! i = Some pr ∧ p_state pr = RUNNABLE.

#[export] Instance runnable_dec k i : Decision (runnable k i).
Proof.
  refine (match ptable k !! i as o return (ptable k !! i = o → Decision (runnable k i)) with
          | Some pr => λ E, cast_if (decide (p_state pr = RUNNABLE))
          | None => λ E, right _
          end eq_refl).
  - by exists pr.
  - intros (pr' & ? & ?). by simplify_eq.
  - intros (pr' & ? & ?). by simplify_eq.
Defined.

(** The process at position [i] of the group of [master]: a worker, or the
    master itself at position [NTHRE]. *)
Definition thread_slot (m : proc) (master i : nat) : option nat :=
  if decide (i = NTHRE) then Some master else mjoin (p_workerthread m !! i).

(** Reference: the first position of [ps] that holds a runnable thread. *)
Fixpoint first_runnable (k : kstate) (slot : nat → option nat) (ps : list nat) : option (nat * nat) :=
  match ps with
  | [] => None
  | i :: ps' =>
      match slot i with
      | Some t => if decide (runnable k t) then Some (i, t) else first_runnable k slot ps'
      | None => first_runnable k slot ps'
      end
  end.

(** The [n] positions that follow position [c], cyclically. *)
Definition cyclic (size c n : nat) : list nat := (λ j, (c + j) mod size)%nat <$> seq 1 n.

(** One full turn, from the position after [c] to [c] itself. *)
Definition turn (size c : nat) : list nat := cyclic size c size.

Section first_runnable.
Implicit Types (k : kstate) (slot : nat → option nat).

Lemma first_runnable_Some k slot ps i t :
  first_runnable k slot ps = Some (i, t) → i ∈ ps ∧ slot i = Some t ∧ runnable k t.
Proof.
  induction ps as [|j ps IH]; simpl; [done|].
  rewrite elem_of_cons. repeat case_match; naive_solver.
Qed.

Lemma first_runnable_None k slot ps :
  first_runnable k slot ps = None → ∀ i t, i ∈ ps → slot i = Some t → ¬ runnable k t.
Proof.
  induction ps as [|j ps IH]; simpl; intros H i t; [by intros ?%elem_of_nil|].
  rewrite elem_of_cons. repeat case_match; naive_solver.
Qed.

(** The position found is not after a runnable one. *)
Lemma first_runnable_first k slot c size n i t (j : nat) t' :
  first_runnable k slot (cyclic size c n) = Some (i, t) →
  (1 ≤ j ≤ n)%nat → slot ((c + j) mod size)%nat = Some t' → runnable k t' →
  ∃ d : nat, (1 ≤ d ≤ j)%nat ∧ i = ((c + d) mod size)%nat.
Proof.
  unfold cyclic. intros H Hj Hs Hr.
  assert (∀ a m, (a ≤ j < a + m)%nat →
    first_runnable k slot ((λ j, (c + j) mod size)%nat <$> seq a m) = Some (i, t) →
    ∃ d : nat, (a ≤ d ≤ j)%nat ∧ i = ((c + d) mod size)%nat) as Hgen.
  { clear H. intros a m. revert a. induction m as [|m IH]; intros a Ha; [lia|]. cbn [seq fmap list_fmap first_runnable].
    intros H. destruct (decide (a = j)) as [->|].
    - rewrite Hs in H. case_decide; [|done]. simplify_eq. exists j. split; [lia|done].
    - repeat case_match; simplify_eq; [exists a; split; [lia|done]|..];
        (destruct (IH (S a)) as (d & ? & ?); [lia|done|]; exists d; split; [lia|done]). }
  destruct (Hgen 1%nat n) as (d & ? & ?); [lia|done|]. exists d. split; [lia|done].
Qed.
End first_runnable.

Section pickthread.
Implicit Types (k : kstate) (m : proc).

Definition picked k (master : nat) m (r : option (nat * nat)) : outcome kstate nat :=
  match r with
  | Some (i, t) => Ret t (set_ptable (<[master := set_p_curthread (Z.of_nat i) m]> (ptable k)) k)
  | None => Ret master k
  end.

(** What one turn of the loop does at position [i]. *)
Lemma pick_position k master m (i : nat) (next : M kstate nat) :
  groups_wf k → ptable k !! master = Some m → (i ≤ NTHRE)%nat →
  (if Z.of_nat i =? Z.of_nat NTHRE then
     if decide (p_state m = RUNNABLE) then
       updp master (set_p_curthread (Z.of_nat i));; mret master
     else next
   else
     w ← (if Z.of_nat i <? 0 then fault else deref (p_workerthread m !! Z.to_nat (Z.of_nat i)));
     match w with
     | Some t =>
         tp ← getp t;
         if decide (p_state tp = RUNNABLE) then
           updp master (set_p_curthread (Z.of_nat i));; mret t
         else next
     | None => next
     end) k =
  match thread_slot m master i with
  | Some t => if decide (runnable k t) then picked k master m (Some (i, t)) else next k
  | None => next k
  end.
Proof.
  intros [Hlen Hgr] Hm Hi. pose proof (Hgr _ _ Hm) as [Hcur Hwl Hwp].
  unfold thread_slot. destruct (Z.eqb_spec (Z.of_nat i) (Z.of_nat NTHRE)).
  - rewrite (decide_True (P := i = NTHRE)) by lia.
    destruct (decide (p_state m = RUNNABLE)) as [Hr|Hr].
    + rewrite (decide_True (P := runnable k master)) by (by exists m).
      by rewrite (bind_ret _ _ _ _ _ (updp_eq _ _ _ _ Hm)).
    + rewrite decide_False; [done|]. intros (m' & ? & ?). by simplify_eq.
  - rewrite (decide_False (P := i = NTHRE)) by lia.
    destruct (Z.ltb_spec (Z.of_nat i) 0); [lia|]. rewrite Nat2Z.id.
    destruct (lookup_lt_is_Some_2 (p_workerthread m) i) as [[t|] Hw]; [lia|..];
      rewrite Hw; simpl; [|done].
    destruct (lookup_lt_is_Some_2 (ptable k) t) as [tp Ht].
    { rewrite Hlen. apply Hwp, elem_of_members; eauto. }
    unfold mbind at 1, M_bind at 1; simpl.
    rewrite (bind_ret _ _ _ _ _ (getp_eq _ _ _ Ht)).
    destruct (decide (p_state tp = RUNNABLE)) as [Hr|Hr].
    + rewrite (decide_True (P := runnable k t)) by (by exists tp).
      by rewrite (bind_ret _ _ _ _ _ (updp_eq _ _ _ _ Hm)).
    + rewrite decide_False; [done|]. intros (m' & ? & ?). by simplify_eq.
Qed.

(** The loop, [n] turns before it is back at [curthread]. *)
Lemma pickthread_loop_eq k master m (c n j : nat) :
  groups_wf k → ptable k !! master = Some m → p_curthread m = Z.of_nat c →
  (S n + j = S NTHRE)%nat →
  pickthread_loop (S n) master (Z.of_nat ((c + j) mod S NTHRE)) k =
    picked k master m (first_runnable k (thread_slot m master)
      ((λ j, (c + j) mod S NTHRE)%nat <$> seq (S j) (S n))).
Proof.
  intros Hwf Hm Hc. pose proof (gw_cur _ (proj2 Hwf _ _ Hm)) as Hcur.
  revert j. induction n as [|n IH]; intros j Hj.
  all: set (i := ((c + S j) mod S NTHRE)%nat).
  all: assert (Z.rem (Z.of_nat ((c + j) mod S NTHRE) + 1) (Z.of_nat NTHRE + 1) = Z.of_nat i) as Hi
    by (unfold i, NTHRE; divlia).
  all: assert (i ≤ NTHRE)%nat as Hile by (unfold i, NTHRE; divlia).
  all: cbn [pickthread_loop seq fmap list_fmap first_runnable].
  all: rewrite Hi, (bind_ret _ _ _ _ _ (getp_eq _ _ _ Hm)), Hc; fold i.
  all: rewrite (pick_position _ _ _ _ _ Hwf Hm Hile).
  - assert (i = c) as -> by (unfold i, NTHRE in *; divlia). rewrite Z.eqb_refl.
    destruct (thread_slot m master c); [case_decide|]; done.
  - assert (i ≠ c) as Hic by (unfold i, NTHRE in *; divlia).
    destruct (Z.eqb_spec (Z.of_nat i) (Z.of_nat c)); [lia|].
    destruct (thread_slot m master i); [case_decide; [done|]|]; apply (IH (S j)); lia.
Qed.

Lemma pickthread_eq k master m :
  groups_wf k → ptable k !! master = Some m →
  pickthread master k =
    if p_threadcnt m =? 0 then Ret master k
    else picked k master m (first_runnable k (thread_slot m master)
           (turn (S NTHRE) (Z.to_nat (p_curthread m)))).
Proof.
  intros Hwf Hm. unfold pickthread. rewrite (bind_ret _ _ _ _ _ (getp_eq _ _ _ Hm)).
  destruct (p_threadcnt m =? 0); [done|]. unfold turn, cyclic.
  pose proof (gw_cur _ (proj2 Hwf _ _ Hm)) as Hcur.
  rewrite <-(pickthread_loop_eq k master m _ NTHRE 0 Hwf Hm) by lia. do 2 f_equal.
  rewrite Nat.add_0_r, Nat.mod_small by lia. lia.
Qed.
End pickthread.

(** ** exec_MLFQ *)
Section exec.
Implicit Types (k : kstate).

(** A process of the group of [i]: [i] itself or one of its workers. *)
Definition in_group k (i t : nat) : Prop :=
  t = i ∨ ∃ m, ptable k !! i = Some m ∧ t ∈ members (p_workerthread m).

Definition slot_of (q : FQ) (s : nat) : option nat := mjoin (fq_holdingproc q !! s).

Lemma groups_wf_curthread k i m (c : nat) :
  groups_wf k → ptable k !! i = Some m → (c ≤ NTHRE)%nat →
  groups_wf (set_ptable (<[i := set_p_curthread (Z.of_nat c) m]> (ptable k)) k).
Proof.
  intros [Hlen Hgr] Hm Hc. split; simpl; [by rewrite length_insert|].
  intros j m' [(<- & <- & _)|(_ & ?)]%list_lookup_insert_Some; [|by eapply Hgr].
  destruct (Hgr _ _ Hm). split; simpl; [lia|done|done].
Qed.

Lemma mlfq_wf_proc k i pr pr' :
  mlfq_wf k → ptable k !! i = Some pr → p_level pr' = p_level pr →
  mlfq_wf (set_ptable (<[i := pr']> (ptable k)) k).
Proof.
  intros [Hpt Hqs Hsl Htot Hnd Hlv Hcur] Hp Hl. split; simpl; try done.
  - by rewrite length_insert.
  - intros l q j Hq Hj. destruct (Hlv l q j Hq Hj) as (pr0 & Hpr0 & ?).
    destruct (decide (i = j)) as [<-|]; simplify_eq.
    + exists pr'. rewrite list_lookup_insert_eq by (by eapply lookup_lt_Some).
      split; [done|congruence].
    + exists pr0. by rewrite list_lookup_insert_ne.
Qed.

Lemma mlfq_wf_current k l q (c : Z) :
  mlfq_wf k → MLFQ_queues k !! l = Some q → 0 <= c <= Z.of_nat NPROC →
  mlfq_wf (set_MLFQ_queues (<[l := set_fq_current c q]> (MLFQ_queues k)) k).
Proof.
  intros [Hpt Hqs Hsl Htot Hnd Hlv Hcur] Hq Hc. split; simpl; try done.
  - by rewrite length_insert.
  - intros l0 q0 [(<- & <- & _)|(? & ?)]%list_lookup_insert_Some; simpl; eauto.
  - intros l0 q0 [(<- & <- & _)|(? & ?)]%list_lookup_insert_Some; simpl; eauto.
  - intros l0 q0 [(<- & <- & _)|(? & ?)]%list_lookup_insert_Some; simpl; eauto.
  - intros l0 q0 i [(<- & <- & _)|(? & ?)]%list_lookup_insert_Some; simpl; eauto.
  - intros l0 q0 [(<- & <- & _)|(? & ?)]%list_lookup_insert_Some; simpl; eauto.
Qed.

(** [pickthread] on a runnable master: a runnable thread of its group. *)
Lemma pickthread_spec k i :
  mlfq_wf k → groups_wf k → runnable k i →
  returns (pickthread i) k (λ t k', runnable k t ∧ in_group k i t ∧ mlfq_wf k' ∧ groups_wf k').
Proof.
  intros Hwf Hg Hr. pose proof Hr as (m & Hm & Hst).
  unfold returns. rewrite (pickthread_eq _ _ _ Hg Hm).
  destruct (p_threadcnt m =? 0); [split_and!; [done|by left|done|done]|].
  destruct (first_runnable _ _ _) as [[c t]|] eqn:E; simpl.
  - apply first_runnable_Some in E as (Hin & Hs & Ht). unfold thread_slot in Hs.
    assert (c ≤ NTHRE)%nat.
    { unfold turn, cyclic in Hin. apply list_elem_of_fmap in Hin as (j & -> & _).
      unfold NTHRE. divlia. }
    split_and!; [done| |by apply (mlfq_wf_proc _ _ m)|by apply groups_wf_curthread].
    case_decide; simplify_eq; [by left|]. right. exists m. split; [done|].
    apply elem_of_members. exists c. by destruct (p_workerthread m !! c); simplify_eq/=.
  - split_and!; try done. by left.
Qed.

(** What [exec_MLFQ_scan] does once it has found process [i] at slot [pos]. *)
Definition exec_found (l pos i : nat) : M kstate (option nat) :=
  updq (Z.of_nat l) (set_fq_current (Z.of_nat pos));;
  updq (Z.of_nat l) (λ q, set_fq_current (s32 (fq_current q + 1)) q);;
  p ← deref (Some i);
  pr ← getp p;
  if p_isthread pr =? 1 then t ← pickthread p; mret (Some t) else mret (Some p).

Lemma exec_scan_eq k l q n (c : nat) :
  mlfq_wf k → MLFQ_queues k !! l = Some q → (c < NPROC)%nat →
  exec_MLFQ_scan (Z.of_nat l) n (Z.of_nat c) k =
    match first_runnable k (slot_of q) ((λ j, (c + j) mod NPROC)%nat <$> seq 0 n) with
    | Some (pos, i) => exec_found l pos i k
    | None => Ret None k
    end.
Proof.
  intros Hwf Hq. pose proof (wf_slots _ Hwf _ _ Hq) as Hlen.
  revert c. induction n as [|n IH]; intros c Hc; [done|].
  cbn [exec_MLFQ_scan seq fmap list_fmap first_runnable].
  replace ((c + 0) mod NPROC)%nat with c by (unfold NPROC in *; divlia).
  rewrite (bind_ret _ _ _ _ _ (getq_eq _ _ _ Hq)).
  destruct (Z.ltb_spec (Z.of_nat c) 0); [lia|]. rewrite Nat2Z.id.
  unfold slot_of at 1.
  destruct (lookup_lt_is_Some_2 (fq_holdingproc q) c) as [h Hh]; [lia|]. rewrite Hh; simpl.
  assert (exec_MLFQ_scan (Z.of_nat l) n (Z.rem (Z.of_nat c + 1) (Z.of_nat NPROC)) k =
    match first_runnable k (slot_of q) ((λ j, (c + j) mod NPROC)%nat <$> seq 1 n) with
    | Some (pos, i) => exec_found l pos i k | None => Ret None k end) as Hnext.
  { replace (Z.rem (Z.of_nat c + 1) (Z.of_nat NPROC)) with (Z.of_nat ((c + 1) mod NPROC))
      by (unfold NPROC; divlia).
    rewrite IH by (unfold NPROC; divlia).
    rewrite <-(fmap_S_seq 0 n), <-list_fmap_compose.
    erewrite list_fmap_ext; [done|]. intros j x _. unfold compose, NPROC. divlia. }
  unfold mbind at 1, M_bind at 1; simpl.
  destruct h as [i|]; [|exact Hnext].
  assert (∃ pr, ptable k !! i = Some pr) as [pr Hp].
  { destruct (wf_level _ Hwf l q i Hq) as (pr & ? & _); [|eauto].
    apply elem_of_members. eauto. }
  unfold holds_runnable. unfold mbind at 1, M_bind at 1.
  rewrite (bind_ret _ _ _ _ _ (getp_eq _ _ _ Hp)). simpl.
  destruct (decide (p_state pr = RUNNABLE)) as [Hs|Hs].
  - rewrite bool_decide_eq_true_2 by done.
    rewrite (decide_True (P := runnable k i)) by (by exists pr). done.
  - rewrite bool_decide_eq_false_2 by done. rewrite decide_False; [exact Hnext|].
    intros (pr' & ? & ?). by simplify_eq.
Qed.

(** The one slot of a queue that the scan does not look at: the slot before
    [current], where the last process was found. *)
Definition blind_slot (q : FQ) : nat := ((Z.to_nat (fq_current q) + (NPROC - 1)) mod NPROC)%nat.

Definition all_blind k (l : nat) : Prop :=
  ∀ q s i, MLFQ_queues k !! l = Some q → slot_of q s = Some i → runnable k i → s = blind_slot q.

Lemma exec_found_spec k l pos i q :
  mlfq_wf k → groups_wf k → MLFQ_queues k !! l = Some q →
  slot_of q pos = Some i → runnable k i →
  returns (exec_found l pos i) k (λ r k', mlfq_wf k' ∧ groups_wf k' ∧
    ∃ t, r = Some t ∧ runnable k t ∧ in_group k i t).
Proof.
  intros Hwf Hg Hq Hs Hr. pose proof Hr as (pr & Hp & _).
  assert (pos < NPROC)%nat as Hpos.
  { unfold slot_of in Hs. destruct (_ !! pos) eqn:E; [|done].
    apply lookup_lt_Some in E. by rewrite (wf_slots _ Hwf _ _ Hq) in E. }
  unfold exec_found, returns.
  rewrite (bind_ret _ _ _ _ _ (updq_eq _ _ _ _ Hq)).
  erewrite bind_ret; [|apply updq_eq; simpl; apply list_lookup_insert_eq; by eapply lookup_lt_Some].
  simpl. rewrite list_insert_insert_eq, s32_id by (unfold is_s32, NPROC in *; lia).
  set (k1 := set_MLFQ_queues _ _).
  assert (mlfq_wf k1) as Hwf1 by (apply (mlfq_wf_current k l q); [done|done|lia]).
  assert (groups_wf k1) as Hg1 by done. assert (runnable k1 i) as Hr1 by done.
  unfold mbind at 1, M_bind at 1; simpl.
  rewrite (bind_ret _ _ _ _ _ (getp_eq k1 _ _ Hp)).
  destruct (p_isthread pr =? 1).
  - pose proof (pickthread_spec k1 i Hwf1 Hg1 Hr1) as Hpt. unfold returns in Hpt.
    unfold mbind, M_bind. destruct (pickthread i k1) as [t k'| | |]; try done.
    destruct Hpt as (? & ? & ? & ?). split_and!; try done. by exists t.
  - split_and!; try done. exists i. split_and!; try done. by left.
Qed.

Lemma rem_slot (c : Z) : 0 <= c →
  let s := Z.to_nat (Z.rem c (Z.of_nat NPROC)) in
  Z.of_nat s = Z.rem c (Z.of_nat NPROC) ∧ (s < NPROC)%nat.
Proof. intros Hc s. unfold s, NPROC. split; divlia. Qed.

Lemma scan_all_blind k l q :
  mlfq_wf k → MLFQ_queues k !! l = Some q →
  first_runnable k (slot_of q)
    ((λ j, (Z.to_nat (Z.rem (fq_current q) (Z.of_nat NPROC)) + j) mod NPROC)%nat <$> seq 0 (NPROC - 1))
    = None →
  all_blind k l.
Proof.
  intros Hwf Hq Hnone q' s i Hq' Hs Hr. simplify_eq.
  pose proof (wf_current _ Hwf _ _ Hq) as Hcur. unfold blind_slot.
  assert (s < NPROC)%nat as Hlt.
  { unfold slot_of in Hs. destruct (_ !! s) eqn:E; [|done].
    apply lookup_lt_Some in E. by rewrite (wf_slots _ Hwf _ _ Hq) in E. }
  apply dec_stable. intros Hne. eapply (first_runnable_None _ _ _ Hnone s i); [|done|done].
  apply list_elem_of_fmap.
  exists ((s + NPROC - Z.to_nat (Z.rem (fq_current q) (Z.of_nat NPROC))) mod NPROC)%nat.
  rewrite elem_of_seq. unfold NPROC in *. split; divlia.
Qed.

Lemma exec_levels_spec k (ls : list nat) :
  mlfq_wf k → groups_wf k → (∀ l, l ∈ ls → (l < NQUEUE)%nat) →
  returns (exec_MLFQ_levels (Z.of_nat <$> ls)) k (λ r k',
    mlfq_wf k' ∧ groups_wf k' ∧
    match r with
    | Some t => ∃ pre l post i, ls = pre ++ l :: post ∧ (∀ l', l' ∈ pre → all_blind k l') ∧
                  queued k l i ∧ runnable k i ∧ in_group k i t ∧ runnable k t
    | None => k' = k ∧ ∀ l, l ∈ ls → all_blind k l
    end).
Proof.
  intros Hwf Hg. induction ls as [|l ls IH]; intros Hls;
    cbn [exec_MLFQ_levels fmap list_fmap].
  { split_and!; try done. by intros l ?%elem_of_nil. }
  destruct (wf_queue k l Hwf) as [q Hq]; [apply Hls; by left|].
  assert (all_blind k l → returns (exec_MLFQ_levels (Z.of_nat <$> ls)) k (λ r k',
    mlfq_wf k' ∧ groups_wf k' ∧
    match r with
    | Some t => ∃ pre l' post i, l :: ls = pre ++ l' :: post ∧ (∀ l'', l'' ∈ pre → all_blind k l'') ∧
                  queued k l' i ∧ runnable k i ∧ in_group k i t ∧ runnable k t
    | None => k' = k ∧ ∀ l', l' ∈ l :: ls → all_blind k l'
    end)) as Hnext.
  { intros Hb. eapply returns_mono; [apply IH; intros; apply Hls; by right|].
    intros [t|] k' (? & ? & Hr); split_and!; try done.
    - destruct Hr as (pre & l' & post & i & -> & Hpre & Hr).
      exists (l :: pre), l', post, i. split; [done|]. split; [|done].
      intros l'' [->|]%elem_of_cons; auto.
    - naive_solver.
    - destruct Hr as [_ Hr]. intros l' [->|]%elem_of_cons; auto. }
  apply returns_bind. unfold returns at 1. rewrite (getq_eq _ _ _ Hq).
  destruct (Z.eqb_spec (fq_total q) 0) as [Ht|Ht].
  { apply Hnext. intros q' s i Hq' Hs _. simplify_eq.
    rewrite (wf_total _ Hwf _ _ Hq) in Ht. exfalso.
    assert (i ∈ members (fq_holdingproc q)) as Hi.
    { apply elem_of_members. exists s. unfold slot_of in Hs. by destruct (_ !! s); simplify_eq/=. }
    apply list_elem_of_lookup in Hi as [j Hj]. apply lookup_lt_Some in Hj. lia. }
  pose proof (wf_current _ Hwf _ _ Hq) as Hcur.
  apply returns_bind. unfold returns at 1.
  destruct (rem_slot (fq_current q)) as [Hrem Hlt]; [lia|]. rewrite <-Hrem.
  rewrite (exec_scan_eq k l q _ _ Hwf Hq) by done.
  destruct (first_runnable _ _ _) as [[pos i]|] eqn:E.
  - apply first_runnable_Some in E as (_ & Hs & Hr).
    pose proof (exec_found_spec k l pos i q Hwf Hg Hq Hs Hr) as Hf. unfold returns in Hf.
    destruct (exec_found l pos i k) as [r k'| | |]; try done.
    destruct Hf as (? & ? & t & -> & ? & ?). split_and!; try done.
    exists [], l, ls, i. split_and!; try done; [by intros ? ?%elem_of_nil|].
    unfold queued. rewrite (queue_of_eq _ _ _ Hq). apply elem_of_members. exists pos.
    unfold slot_of in Hs. by destruct (_ !! pos); simplify_eq/=.
  - apply Hnext. by apply (scan_all_blind k l q).
Qed.

Lemma exec_MLFQ_spec k :
  mlfq_wf k → groups_wf k →
  returns exec_MLFQ k (λ r k',
    mlfq_wf k' ∧ groups_wf k' ∧
    match r with
    | Some t => ∃ l i, queued k l i ∧ runnable k i ∧ in_group k i t ∧ runnable k t ∧
                  ∀ l', (l' < l)%nat → all_blind k l'
    | None => k' = k ∧ ∀ l, all_blind k l
    end).
Proof.
  intros Hwf Hg. unfold exec_MLFQ. change [0; 1; 2] with (Z.of_nat <$> seq 0 3).
  eapply returns_mono.
  { apply exec_levels_spec; [done|done|]. intros l [_ ?]%elem_of_seq. done. }
  intros [t|] k' (? & ? & Hr); split_and!; try done.
  - destruct Hr as (pre & l & post & i & Hls & Hpre & ? & ? & ? & ?). exists l, i.
    split_and!; try done. intros l' Hl'. apply Hpre.
    assert (l = length pre) as ->.
    { assert (seq 0 3 !! length pre = Some l) as Hl by (rewrite Hls; by apply list_lookup_middle).
      apply lookup_seq in Hl. lia. }
    assert (seq 0 3 !! l' = Some l') as Hl.
    { apply lookup_seq. split; [done|]. apply (f_equal length) in Hls.
      rewrite length_seq, length_app in Hls. simpl in Hls. lia. }
    rewrite Hls, lookup_app_l in Hl by done. by eapply list_elem_of_lookup_2.
  - naive_solver.
  - destruct Hr as [_ Hr]. intros l q s i Hq. apply (Hr l); [|done].
    apply elem_of_seq. apply lookup_lt_Some in Hq. rewrite (wf_queues _ Hwf) in Hq.
    unfold NQUEUE in Hq. lia.
Qed.
End exec.

(** ** choose_lowpass *)
Section lowpass.
Implicit Types (k : kstate).

(** The stride slots: an element in use points to a process. *)
Definition strides_wf k : Prop :=
  length (stride_arr k) = NPROC ∧
  ∀ j st, stride_arr k !! j = Some st → st_stride st ≠ 0 →
    ∃ i, st_proc st = Some i ∧ (i < NPROC)%nat.

Definition pass_of k (j : nat) : Z :=
  match stride_arr k !! j with Some st => st_pass st | None => 0 end.

(** Slot [j] competes: in use, and its process can run. *)
Definition competes k (j i : nat) : Prop :=
  ∃ st, stride_arr k !! j = Some st ∧ st_stride st ≠ 0 ∧ st_proc st = Some i ∧ runnable k i.

(** [s] is what the loop selects: slot 0, or a competing slot with a pass
    strictly below slot 0's, and no competing slot is lower. *)
Definition lowest k (s : nat) : Prop :=
  (s = 0%nat ∨ (∃ i, competes k s i) ∧ pass_of k s < pass_of k 0) ∧
  ∀ j i, competes k j i → pass_of k s <= pass_of k j.

Lemma pass_of_eq k j st : stride_arr k !! j = Some st → pass_of k j = st_pass st.
Proof. unfold pass_of. by intros ->. Qed.

Lemma lowpass_step_spec k (sel j : nat) :
  length (ptable k) = NPROC → strides_wf k → (j < NPROC)%nat → (sel < NPROC)%nat →
  ∃ sel', lowpass_step sel j k = Ret sel' k ∧
    ((sel' = sel ∧ ∀ i, competes k j i → pass_of k sel <= pass_of k j) ∨
     (sel' = j ∧ (∃ i, competes k j i) ∧ pass_of k j < pass_of k sel)).
Proof.
  intros Hpt [Hlen Hst] Hj Hsel.
  destruct (lookup_lt_is_Some_2 (stride_arr k) j) as [st Hj']; [lia|].
  destruct (lookup_lt_is_Some_2 (stride_arr k) sel) as [ss Hsel']; [lia|].
  unfold lowpass_step. rewrite (bind_ret _ _ _ _ _ (getst_eq _ _ _ Hj')).
  destruct (Z.eqb_spec (st_stride st) 0) as [|Hne].
  { exists sel. split; [done|]. left. split; [done|]. intros i (st' & ? & ? & _). by simplify_eq. }
  destruct (Hst _ _ Hj' Hne) as (i & Hi & Hlt). rewrite Hi.
  destruct (lookup_lt_is_Some_2 (ptable k) i) as [pr Hp]; [lia|].
  unfold mbind at 1, M_bind at 1; simpl. rewrite (bind_ret _ _ _ _ _ (getp_eq _ _ _ Hp)).
  destruct (decide (p_state pr ≠ RUNNABLE)) as [Hs|Hs%dec_stable].
  { exists sel. split; [done|]. left. split; [done|]. intros i' (st' & ? & ? & ? & pr' & ? & ?).
    by simplify_eq. }
  rewrite (bind_ret _ _ _ _ _ (getst_eq _ _ _ Hsel')).
  rewrite (pass_of_eq _ _ _ Hj'), (pass_of_eq _ _ _ Hsel').
  destruct (Z.ltb_spec (st_pass st) (st_pass ss)).
  - exists j. split; [done|]. right. split_and!; [done| |done].
    exists i, st. split_and!; try done. by exists pr.
  - exists sel. split; [done|]. left. split; [done|]. done.
Qed.

Lemma lowpass_select k :
  length (ptable k) = NPROC → strides_wf k →
  returns (mfold (seq 0 NPROC) 0%nat lowpass_step) k (λ s k', k' = k ∧ (s < NPROC)%nat ∧ lowest k s).
Proof.
  intros Hpt Hwf.
  apply (returns_mfold _ _ _ (λ done s k', k' = k ∧ (s < NPROC)%nat ∧
    (s = 0%nat ∨ (∃ i, competes k s i) ∧ pass_of k s < pass_of k 0) ∧
    ∀ j i, j ∈ done → competes k j i → pass_of k s <= pass_of k j)).
  - split_and!; [done|unfold NPROC; lia|by left|by intros ?? ?%elem_of_nil].
  - intros done j rest s k' Heq (-> & Hs & H0 & Hall).
    assert (j < NPROC)%nat as Hj.
    { assert (j ∈ seq 0 NPROC) as Hin by (rewrite Heq; set_solver).
      apply elem_of_seq in Hin. lia. }
    destruct (lowpass_step_spec k s j Hpt Hwf Hj Hs) as (s' & Hr & Hcase).
    unfold returns. rewrite Hr. split; [done|].
    destruct Hcase as [(-> & Hle)|(-> & [i Hi] & Hlt)]; split_and!; try done.
    + intros j' i [?| ->%list_elem_of_singleton]%elem_of_app; eauto.
    + right. split; [by exists i|]. destruct H0 as [-> |(_ & ?)]; lia.
    + intros j' i' [Hj'| ->%list_elem_of_singleton]%elem_of_app Hc; [|lia].
      pose proof (Hall j' i' Hj' Hc). lia.
  - intros s k' (-> & Hs & H0 & Hall). split_and!; try done. split; [done|].
    intros j i Hc. apply (Hall j i); [|done]. apply elem_of_seq.
    destruct Hc as (st & Hst & _). apply lookup_lt_Some in Hst. destruct Hwf as [Hl _]. lia.
Qed.

(** The selection of [choose_lowpass], while no pass is past the limit at
    which the loop against overflow starts. *)
Definition lowpass_post k (r : option nat) (k' : kstate) : Prop :=
  mlfq_wf k' ∧ groups_wf k' ∧ (∀ t, r = Some t → runnable k t) ∧
  ∃ s, lowest k s ∧
    if decide (s = 0%nat) then
      match r with
      | Some t => ∃ l i, queued k l i ∧ in_group k i t ∧ ∀ l', (l' < l)%nat → all_blind k l'
      | None => k' = k ∧ ∀ l, all_blind k l
      end
    else ∃ i t, competes k s i ∧ r = Some t ∧ in_group k i t.

Lemma choose_lowpass_spec k start :
  mlfq_wf k → groups_wf k → strides_wf k →
  (∀ j, (j < NPROC)%nat → pass_of k j <= 200000000) →
  returns (choose_lowpass start) k (lowpass_post k).
Proof.
  intros Hwf Hg Hst Hpass. unfold choose_lowpass. apply returns_bind.
  eapply returns_mono; [apply lowpass_select; [apply Hwf|done]|].
  intros s k' (-> & Hs & Hlow).
  destruct (lookup_lt_is_Some_2 (stride_arr k) s) as [st Hst']; [destruct Hst; lia|].
  apply returns_bind. unfold returns at 1. rewrite (getst_eq _ _ _ Hst').
  pose proof (Hpass s Hs) as Hp. rewrite (pass_of_eq _ _ _ Hst') in Hp.
  destruct (Z.ltb_spec 200000000 (st_pass st)); [lia|].
  apply returns_bind, returns_ret. destruct (decide (s = 0%nat)) as [->|Hne].
  - eapply returns_mono; [by apply exec_MLFQ_spec|].
    intros r k' (? & ? & Hr). unfold lowpass_post. split_and!; try done.
    + intros t ->. naive_solver.
    + exists 0%nat. split; [done|]. rewrite decide_True by done. destruct r; naive_solver.
  - pose proof Hlow as [[->|[[i Hc] _]] _]; [done|].
    pose proof Hc as (st' & ? & ? & Hi & Hr). simplify_eq. rewrite Hi.
    pose proof Hr as (pr & Hpr & _). apply returns_bind, returns_ret.
    apply returns_bind. unfold returns at 1. rewrite (getp_eq _ _ _ Hpr).
    assert (∀ t k', mlfq_wf k' → groups_wf k' → runnable k t → in_group k i t →
      lowpass_post k (Some t) k') as Hpost.
    { intros t k' ????. split_and!; [done|done|by intros ? [= <-]|].
      exists s. split; [done|]. rewrite decide_False by done. by exists i, t. }
    destruct (p_isthread pr =? 1).
    + apply returns_bind. eapply returns_mono; [by apply pickthread_spec|].
      intros t k' (? & ? & ? & ?). apply returns_ret. by apply Hpost.
    + apply returns_ret. apply Hpost; try done. by left.
Qed.

(** Past the limit, the loop against overflow writes beyond the array. *)
Lemma choose_lowpass_overflow k start :
  length (ptable k) = NPROC → strides_wf k →
  (∀ s, lowest k s → (s < NPROC)%nat → 200000000 < pass_of k s) →
  choose_lowpass start k = Fault.
Proof.
  intros Hpt Hst Hpass. unfold choose_lowpass.
  pose proof (lowpass_select k Hpt Hst) as (s & k' & Hs & -> & Hlt & Hlow)%returns_eq.
  rewrite (bind_ret _ _ _ _ _ Hs).
  destruct (lookup_lt_is_Some_2 (stride_arr k) s) as [st Hst']; [destruct Hst; lia|].
  rewrite (bind_ret _ _ _ _ _ (getst_eq _ _ _ Hst')).
  pose proof (Hpass s Hlow Hlt) as Hp. rewrite (pass_of_eq _ _ _ Hst') in Hp.
  destruct (Z.ltb_spec 200000000 (st_pass st)); [|lia].
  apply bind_fault. change (seq 0 NPROC) with (0%nat :: seq 1 (NPROC - 1)). cbn [mfor].
  apply bind_fault. unfold updst. rewrite lookup_ge_None_2; [done|]. destruct Hst. lia.
Qed.
End lowpass.
