(* ===== verification/SchedShare.v ===== *)
(** * CPU shares: set_cpu_share

    Slot 0 of [stride_arr] carries the share of the MLFQ.  The shares reserved
    by [set_cpu_share] never exceed 80 per cent, so the MLFQ keeps at least 20
    per cent, and the shares in use add up to 100. *)
From S2P Require Import Prelude Params ProcState Sched SchedInv SchedPick.

(** The reserved shares of a list of stride slots. *)
Definition share_in_use (st : stride) : Z := if st_stride st =? 0 then 0 else st_share st.
Definition reserved (arr : list stride) : Z := foldr (λ st acc, share_in_use st + acc) 0 arr.

Record shares_wf (k : kstate) : Prop := SharesWf {
  sw_len : length (stride_arr k) = NPROC;
  sw_slot j st : stride_arr k !! j = Some st → (1 ≤ j)%nat → st_stride st ≠ 0 →
    1 <= st_share st ∧ st_stride st = Z.quot MAXTICKET (st_share st);
  sw_limit : reserved (drop 1 (stride_arr k)) <= 80;
  sw_mlfq : ∀ st0, stride_arr k !! 0%nat = Some st0 →
    st_share st0 + reserved (drop 1 (stride_arr k)) = 100 ∨
    (st_share st0 = 20 ∧ reserved (drop 1 (stride_arr k)) = 0)
}.

Section reserved.
Implicit Types (arr : list stride).

Lemma foldl_share arr t :
  Forall (λ st, 0 <= share_in_use st) arr → is_s32 t → is_s32 (t + reserved arr) →
  foldl (λ t st, if st_stride st =? 0 then t else s32 (t + st_share st)) t arr = t + reserved arr.
Proof.
  intros Hnn. revert t. induction Hnn as [|st arr H Hnn IH]; intros t Ht Hs; simpl in *; [lia|].
  assert (0 <= reserved arr) as Hr by (clear -Hnn; induction Hnn; simpl; lia).
  unfold share_in_use in *. destruct (st_stride st =? 0).
  - rewrite IH; [done|done|]. by replace (t + reserved arr) with (t + (0 + reserved arr)) by lia.
  - unfold is_s32 in *. rewrite s32_id by (unfold is_s32; lia).
    rewrite IH; unfold is_s32; lia.
Qed.

Lemma reserved_insert arr (j : nat) st st' :
  arr !! j = Some st →
  reserved (<[j := st']> arr) = reserved arr - share_in_use st + share_in_use st'.
Proof.
  revert j. induction arr as [|x arr IH]; intros [|j] Hj; simpl in *; simplify_eq; [lia|].
  rewrite (IH j) by done. lia.
Qed.

Lemma reserved_nonneg k : shares_wf k →
  Forall (λ st, 0 <= share_in_use st) (drop 1 (stride_arr k)).
Proof.
  intros Hwf. apply Forall_lookup. intros j st Hj. rewrite lookup_drop in Hj.
  unfold share_in_use. destruct (Z.eqb_spec (st_stride st) 0); [lia|].
  destruct (sw_slot _ Hwf _ _ Hj); lia.
Qed.

Lemma reserved_ge0 k : shares_wf k → 0 <= reserved (drop 1 (stride_arr k)).
Proof. intros Hnn%reserved_nonneg. induction Hnn; simpl; lia. Qed.
End reserved.

(** The lowest pass in use, as [set_cpu_share] computes it. *)
Definition min_pass (arr : list stride) : Z :=
  foldl (λ m st, if st_stride st =? 0 then m else if st_pass st <? m then st_pass st else m)
    220000000 arr.

Section set_cpu_share.
Implicit Types (k : kstate).

Lemma total_portion_eq k portion :
  shares_wf k → 0 <= portion < 2 ^ 31 - 80 →
  mfold (seq 1 (NPROC - 1)) portion (λ t i,
    st ← getst i;
    mret (if st_stride st =? 0 then t else s32 (t + st_share st))) k =
  Ret (portion + reserved (drop 1 (stride_arr k))) k.
Proof.
  intros Hwf Hp. pose proof (sw_len _ Hwf) as Hlen. pose proof (sw_limit _ Hwf).
  pose proof (reserved_ge0 _ Hwf).
  erewrite (mfold_pure _ _ _ (λ t i, match stride_arr k !! i with
    | Some st => if st_stride st =? 0 then t else s32 (t + st_share st) | None => t end)).
  - rewrite <-Hlen. rewrite (foldl_lookup_seq
      (λ t st, if st_stride st =? 0 then t else s32 (t + st_share st)) _ _ 1).
    rewrite foldl_share; [done|by apply reserved_nonneg|..]; unfold is_s32; lia.
  - intros t i Hi%elem_of_seq. destruct (lookup_lt_is_Some_2 (stride_arr k) i) as [st Hst]; [lia|].
    by rewrite Hst, (bind_ret _ _ _ _ _ (getst_eq _ _ _ Hst)).
Qed.

Lemma min_pass_eq k :
  length (stride_arr k) = NPROC →
  mfold (seq 0 NPROC) 220000000 (λ m l,
    st ← getst l;
    mret (if st_stride st =? 0 then m
          else if st_pass st <? m then st_pass st else m)) k =
  Ret (min_pass (stride_arr k)) k.
Proof.
  intros Hlen.
  erewrite (mfold_pure _ _ _ (λ m i, match stride_arr k !! i with
    | Some st => if st_stride st =? 0 then m else if st_pass st <? m then st_pass st else m
    | None => m end)).
  - rewrite <-Hlen, <-(Nat.sub_0_r (length (stride_arr k))). rewrite (foldl_lookup_seq
      (λ m st, if st_stride st =? 0 then m else if st_pass st <? m then st_pass st else m) _ _ 0).
    done.
  - intros m i Hi%elem_of_seq. destruct (lookup_lt_is_Some_2 (stride_arr k) i) as [st Hst]; [lia|].
    by rewrite Hst, (bind_ret _ _ _ _ _ (getst_eq _ _ _ Hst)).
Qed.

(** The rejected request: nothing changes. *)
Lemma set_cpu_share_reject k p portion :
  shares_wf k → cpu_proc k = Some p → 0 <= portion < 2 ^ 31 - 80 →
  80 < portion + reserved (drop 1 (stride_arr k)) →
  set_cpu_share portion k = Ret (-1) k.
Proof.
  intros Hwf Hp Hpo Hgt. unfold set_cpu_share.
  rewrite (bind_ret _ _ _ _ _ (myproc_eq _ _ Hp)).
  rewrite (bind_ret _ _ _ _ _ (total_portion_eq _ _ Hwf Hpo)).
  destruct (Z.ltb_spec 80 (portion + reserved (drop 1 (stride_arr k)))); [done|lia].
Qed.

(** The stride array after an accepted request that takes slot [j]. *)
Definition mlfq_slot (total : Z) (st0 : stride) : stride :=
  set_st_stride (Z.quot MAXTICKET (100 - total)) (set_st_share (100 - total) st0).
Definition reserved_slot (p : nat) (portion pass : Z) : stride :=
  mkstride (Z.quot MAXTICKET portion) pass portion (Some p).
Definition strides_after (arr : list stride) (st0 : stride) (j p : nat) (portion total : Z) :=
  let arr0 := <[0%nat := mlfq_slot total st0]> arr in
  <[j := reserved_slot p portion (min_pass arr0)]> arr0.

Lemma quot_share (s : Z) : 1 <= s <= 100 → Z.quot MAXTICKET s ≠ 0.
Proof.
  intros Hs. unfold MAXTICKET. rewrite Z.quot_div_nonneg by lia.
  pose proof (Z.div_le_lower_bound 100000 s 1). lia.
Qed.

Lemma reserve_eq k p portion total st0 :
  length (stride_arr k) = NPROC → stride_arr k !! 0%nat = Some st0 →
  1 <= portion <= 80 → 1 <= total <= 80 →
  (∃ j st, (1 ≤ j)%nat ∧ stride_arr k !! j = Some st ∧ st_stride st = 0) →
  ∃ j st, (1 ≤ j)%nat ∧ stride_arr k !! j = Some st ∧ st_stride st = 0 ∧
    reserve p portion total k =
      Ret j (set_stride_arr (strides_after (stride_arr k) st0 j p portion total) k).
Proof.
  intros Hlen H0 Hpo Htot (j0 & stf & Hj0 & Hf & Hfree).
  assert (0 < length (stride_arr k))%nat as Hpos by (rewrite Hlen; unfold NPROC; lia).
  unfold reserve. rewrite (bind_ret _ _ _ _ _ (updst_eq _ _ _ _ H0)).
  rewrite s32_id by (unfold is_s32; lia).
  erewrite bind_ret; [|apply getst_eq; simpl; by apply list_lookup_insert_eq]. simpl.
  erewrite bind_ret; [|apply idiv_eq; lia].
  erewrite bind_ret; [|apply updst_eq; simpl; by apply list_lookup_insert_eq]. simpl.
  rewrite list_insert_insert_eq.
  change (set_st_stride _ (set_st_share _ st0)) with (mlfq_slot total st0).
  set (arr0 := <[0%nat := mlfq_slot total st0]> (stride_arr k)).
  set (k0 := set_stride_arr arr0 _).
  rewrite (bind_ret _ _ _ _ _ (min_pass_eq k0 ltac:(unfold k0, arr0; simpl; by rewrite length_insert))).
  rewrite bind_gets. change (stride_arr k0) with arr0.
  destruct (list_find_lookup (λ st, st_stride st = 0) arr0 j0 stf) as (j & st & Hfind & Hj & Hst);
    [unfold arr0; by rewrite list_lookup_insert_ne by lia|done|].
  rewrite Hfind.
  assert (1 ≤ j)%nat as Hj1.
  { destruct j; [|lia]. unfold arr0 in Hj. rewrite list_lookup_insert_eq in Hj by done.
    simplify_eq. simpl in Hst. by apply quot_share in Hst; [|lia]. }
  exists j, st. pose proof (lookup_lt_Some _ _ _ Hj).
  split_and!; [done| |done|].
  { unfold arr0 in Hj. by rewrite list_lookup_insert_ne in Hj by lia. }
  rewrite bind_assoc, (bind_ret _ _ _ _ _ (updst_eq k0 j st _ Hj)). unfold k0. simpl.
  repeat (rewrite bind_assoc || (erewrite bind_ret;
    [|first [done|apply idiv_eq; lia
            |apply updst_eq; simpl; apply list_lookup_insert_eq; by rewrite ?length_insert]]; simpl)).
  rewrite !list_insert_insert_eq. done.
Qed.

Lemma mlfq_wf_ext k k' :
  mlfq_wf k → ptable k' = ptable k → MLFQ_queues k' = MLFQ_queues k → mlfq_wf k'.
Proof. intros [] H1 H2. split; rewrite ?H1, ?H2; done. Qed.

Lemma mlfq_wf_unqueued k i pr' :
  mlfq_wf k → (∀ l, ¬ queued k l i) →
  mlfq_wf (set_ptable (<[i := pr']> (ptable k)) k).
Proof.
  intros [Hpt Hqs Hsl Htot Hnd Hlv Hcur] Hni. split; simpl; try done.
  - by rewrite length_insert.
  - intros l q j Hq Hj. destruct (Hlv l q j Hq Hj) as (pr0 & Hpr0 & ?).
    exists pr0. rewrite list_lookup_insert_ne; [done|]. intros ->. apply (Hni l).
    unfold queued. by rewrite (queue_of_eq _ _ _ Hq).
Qed.

Lemma setthreadtick_single k p pr :
  ptable k !! p = Some pr → p_master pr = None → p_isthread pr ≠ 1 →
  setthreadtick p k = Ret tt (set_ptable (<[p := set_p_fqtick 0 pr]> (ptable k)) k).
Proof.
  intros Hp Hm Ht. pose proof (lookup_lt_Some _ _ _ Hp). unfold setthreadtick.
  rewrite (bind_ret _ _ _ _ _ (getp_eq _ _ _ Hp)), Hm.
  rewrite (bind_ret _ _ _ _ _ (updp_eq _ _ _ _ Hp)).
  erewrite bind_ret; [|apply getp_eq; simpl; by apply list_lookup_insert_eq].
  simpl. by destruct (Z.eqb_spec (p_isthread pr) 1).
Qed.

(** The process after an accepted request. *)
Definition reserved_proc (j : nat) (pr : proc) : proc :=
  set_p_level 3 (set_p_fqtick 0 (set_p_isstride 1 (set_p_mystride (Some j) pr))).

Lemma set_cpu_share_accept k p pr l portion st0 :
  mlfq_wf k → shares_wf k → cpu_proc k = Some p → ptable k !! p = Some pr →
  queued k l p → p_master pr = None → p_isthread pr ≠ 1 →
  stride_arr k !! 0%nat = Some st0 → 1 <= portion →
  portion + reserved (drop 1 (stride_arr k)) <= 80 →
  (∃ j st, (1 ≤ j)%nat ∧ stride_arr k !! j = Some st ∧ st_stride st = 0) →
  ∃ j st k', (1 ≤ j)%nat ∧ stride_arr k !! j = Some st ∧ st_stride st = 0 ∧
    set_cpu_share portion k = Ret 0 k' ∧ mlfq_wf k' ∧
    stride_arr k' = strides_after (stride_arr k) st0 j p portion
                      (portion + reserved (drop 1 (stride_arr k))) ∧
    ptable k' = <[p := reserved_proc j pr]> (ptable k) ∧
    (∀ l0 i, queued k' l0 i ↔ i ≠ p ∧ queued k l0 i).
Proof.
  intros Hwf Hsw Hcpu Hp Hq Hma Hth H0 Hpo Hlim Hfree.
  pose proof (reserved_ge0 _ Hsw). pose proof (lookup_lt_Some _ _ _ Hp) as Hlt.
  destruct (reserve_eq k p portion (portion + reserved (drop 1 (stride_arr k))) st0)
    as (j & st & Hj1 & Hj & Hst & Hres); [apply Hsw|done|lia|lia|done|].
  exists j, st. set (arr := strides_after _ _ _ _ _ _) in *.
  unfold set_cpu_share. rewrite (bind_ret _ _ _ _ _ (myproc_eq _ _ Hcpu)).
  rewrite (bind_ret _ _ _ _ _ (total_portion_eq k portion Hsw ltac:(lia))).
  destruct (Z.ltb_spec 80 (portion + reserved (drop 1 (stride_arr k)))); [lia|].
  rewrite (bind_ret _ _ _ _ _ Hres).
  set (pr1 := set_p_isstride 1 (set_p_mystride (Some j) pr)).
  rewrite (bind_ret _ _ _ _ _ (updp_eq (set_stride_arr arr k) p pr _ Hp)).
  erewrite bind_ret; [|apply updp_eq; simpl; by apply list_lookup_insert_eq].
  erewrite bind_ret.
  2:{ apply (setthreadtick_single _ p pr1); [|done|done]. simpl.
      apply list_lookup_insert_eq. by rewrite length_insert. }
  simpl. rewrite !list_insert_insert_eq. set (k1 := set_ptable _ _).
  assert (mlfq_wf k1) as Hwf1.
  { eapply mlfq_wf_ext; [apply (mlfq_wf_proc k p pr (set_p_fqtick 0 pr1)); done|done|done]. }
  destruct (pop_queued k1 p l Hwf1 Hq) as (k2 & Hr2 & Hwf2 & Hq2 & _ & Hk2 & Hp2 & _).
  rewrite (bind_ret _ _ _ _ _ Hr2).
  assert (ptable k1 !! p = Some (set_p_fqtick 0 pr1)) as Hp1 by (by apply list_lookup_insert_eq).
  specialize (Hp2 _ Hp1). unfold k1 in Hp2; simpl in Hp2. rewrite list_insert_insert_eq in Hp2.
  erewrite bind_ret; [|apply updp_eq; rewrite Hp2; by apply list_lookup_insert_eq].
  eexists. split_and!; [done|done|done|done|..].
  - apply mlfq_wf_unqueued; [done|]. intros l0 Hl0. apply Hq2 in Hl0. naive_solver.
  - simpl. by destruct Hk2 as [-> _].
  - simpl. by rewrite Hp2, list_insert_insert_eq.
  - exact Hq2.
Qed.
End set_cpu_share.

(** The invariant of the shares across the two operations on the array: an
    accepted request, and the release of a slot at the exit of its process. *)
Section share_ops.
Implicit Types (k : kstate) (arr : list stride).

Lemma sw_head k : shares_wf k → ∃ st0 tl, stride_arr k = st0 :: tl ∧ length tl = (NPROC - 1)%nat.
Proof.
  intros Hwf. pose proof (sw_len _ Hwf) as Hlen. destruct (stride_arr k) as [|st0 tl]; [done|].
  exists st0, tl. simpl in Hlen. split; [done|lia].
Qed.

Lemma shares_wf_accept k k' st0 j st p portion :
  shares_wf k → stride_arr k !! 0%nat = Some st0 → (1 ≤ j)%nat →
  stride_arr k !! j = Some st → st_stride st = 0 → 1 <= portion →
  portion + reserved (drop 1 (stride_arr k)) <= 80 →
  stride_arr k' = strides_after (stride_arr k) st0 j p portion
                    (portion + reserved (drop 1 (stride_arr k))) →
  shares_wf k' ∧ reserved (drop 1 (stride_arr k')) = reserved (drop 1 (stride_arr k)) + portion.
Proof.
  intros Hwf H0 Hj1 Hj Hst Hpo Hlim Heq. pose proof (reserved_ge0 _ Hwf) as Hge.
  destruct (sw_head k Hwf) as (st0' & tl & Harr & Htl). rewrite Harr in *. simplify_eq/=.
  destruct j as [|j]; [lia|]. simpl in Hj. unfold strides_after in Heq. simpl in Heq.
  set (pass := min_pass _) in Heq. rewrite drop_0 in *.
  assert (reserved (drop 1 (stride_arr k')) = reserved tl + portion) as Hres.
  { rewrite Heq; simpl. rewrite drop_0. rewrite (reserved_insert _ _ st) by done.
    unfold share_in_use. rewrite Hst. simpl.
    destruct (Z.eqb_spec (Z.quot MAXTICKET portion) 0) as [E|]; [|lia].
    by apply quot_share in E; [|lia]. }
  split; [split|done].
  - rewrite Heq. simpl. by rewrite length_insert, Htl.
  - intros i sti Hi Hi1 Hne. rewrite Heq in Hi. destruct i as [|i]; [lia|]. simpl in Hi.
    apply list_lookup_insert_Some in Hi as [(<- & <- & _)|(_ & Hi)]; [by split|].
    apply (sw_slot _ Hwf (S i)); [by rewrite Harr|lia|done].
  - lia.
  - intros st0'. rewrite Hres, Heq. simpl. intros [= <-]. simpl. lia.
Qed.

(** [exit] of a process that owns slot [j]: the share goes back to slot 0. *)
Definition strides_released arr (st0 : stride) (j : nat) (st : stride) : list stride :=
  let share := s32 (st_share st0 + st_share st) in
  <[j := set_st_share 0 (set_st_pass 0 (set_st_stride 0 st))]>
    (<[0%nat := set_st_stride (Z.quot MAXTICKET share) (set_st_share share st0)]> arr).

Lemma shares_wf_release k k' st0 j st :
  shares_wf k → stride_arr k !! 0%nat = Some st0 → (1 ≤ j)%nat →
  stride_arr k !! j = Some st → st_stride st ≠ 0 →
  stride_arr k' = strides_released (stride_arr k) st0 j st →
  shares_wf k' ∧ reserved (drop 1 (stride_arr k')) = reserved (drop 1 (stride_arr k)) - st_share st.
Proof.
  intros Hwf H0 Hj1 Hj Hst Heq. pose proof (sw_limit _ Hwf) as Hlim.
  pose proof (sw_slot _ Hwf _ _ Hj Hj1 Hst) as [Hsh _]. pose proof (sw_mlfq _ Hwf _ H0) as Hml.
  pose proof (reserved_nonneg _ Hwf) as Hnn.
  destruct (sw_head k Hwf) as (st0' & tl & Harr & Htl). rewrite Harr in *. simplify_eq/=.
  destruct j as [|j]; [lia|]. simpl in Hj. unfold strides_released in Heq. simpl in Heq.
  rewrite drop_0 in *.
  assert (reserved (drop 1 (stride_arr k')) = reserved tl - st_share st) as Hres.
  { rewrite Heq; simpl. rewrite drop_0. rewrite (reserved_insert _ _ st) by done.
    unfold share_in_use. simpl. destruct (Z.eqb_spec (st_stride st) 0); [done|lia]. }
  assert (st_share st <= reserved tl) as Hle.
  { clear -Hnn Hj Hst. revert j Hj. induction Hnn as [|x tl Hx Hnn IH]; intros [|j] Hj; simplify_eq/=.
    - assert (0 <= reserved tl) by (clear -Hnn; induction Hnn; simpl; lia).
      unfold share_in_use. destruct (Z.eqb_spec (st_stride st) 0); [done|lia].
    - specialize (IH j Hj). lia. }
  split; [split|done].
  - rewrite Heq. simpl. by rewrite length_insert, Htl.
  - intros i sti Hi Hi1 Hne. rewrite Heq in Hi. destruct i as [|i]; [lia|]. simpl in Hi.
    apply list_lookup_insert_Some in Hi as [(<- & <- & _)|(_ & Hi)]; [done|].
    apply (sw_slot _ Hwf (S i)); [by rewrite Harr|lia|done].
  - lia.
  - intros st0'. rewrite Hres, Heq. simpl. intros [= <-]. simpl. rewrite s32_id by (unfold is_s32; lia). lia.
Qed.
End share_ops.
