(* ===== verification/SchedThms.v ===== *)
(** * What the scheduler of myscheduler.c guarantees

    The theorems about the feedback queues, the round robin over threads, the
    stride selection and the CPU shares, each with a witness on a concrete
    process table. *)
From S2P Require Import Prelude Params ProcState Sched SchedInv SchedPick SchedShare.

(** Time quantum of a level, and the level after [f] ticks of use. *)
Definition quantum (l : nat) : Z := match l with O => 5 | 1%nat => 10 | _ => 20 end.
Definition demoted (l : nat) (f : Z) : nat :=
  match l with
  | O => if 20 <=? f then 1%nat else 0%nat
  | 1%nat => if 40 <=? f then 2%nat else 1%nat
  | _ => l
  end.

Section tick.
Implicit Types (k : kstate).

(** [boosts] is the condition under which the tick resets all levels. *)
Lemma tick_decide_spec k allot q :
  mlfq_wf k → ptable_lock k = true → FQ_ticklock k = false → 0 <= allot → 0 < q →
  returns (tick_decide allot q) k (λ r k',
    r = (if allot mod q =? 0 then 1 else 0) ∧
    if (allot mod q =? 0) && (200 <? MLFQ_tick k) then
      mlfq_wf k' ∧ MLFQ_tick k' = 0 ∧ same_procs k k' ∧ same_rest (set_ptable_lock false k) k' ∧
      ∀ l i, queued k' l i ↔ l = 0%nat ∧ ∃ l1, queued k l1 i
    else k' = set_ptable_lock false k).
Proof.
  intros Hwf Hlk Hfq Ha Hq. unfold tick_decide. rewrite Z.rem_mod_nonneg by lia.
  destruct (allot mod q =? 0); simpl.
  - apply returns_bind. unfold gets, returns at 1. destruct (200 <? MLFQ_tick k).
    + apply returns_bind. eapply returns_mono; [by apply boost_priority_spec|].
      intros [] k1 (Hwf1 & Hs1 & Hk1 & Ht1 & Hq1).
      pose proof Hk1 as (? & ? & ? & ? & Hl1 & ? & ?).
      unfold returns, mbind, M_bind, release_ptable. rewrite Hl1, Hlk. split; [done|].
      split_and!; [by destruct Hwf1; split|done|done| |done].
      unfold same_rest in *. destruct_and!. split_and!; simpl; congruence.
    + apply returns_bind, returns_ret. unfold returns, mbind, M_bind, release_ptable. by rewrite Hlk.
  - unfold returns, mbind, M_bind, release_ptable. by rewrite Hlk.
Qed.

(** The demotion that precedes the decision, at each of the three levels. *)
Definition demote_step (p l : nat) (allot : Z) : M kstate unit :=
  match l with
  | O => if 20 <=? allot then level_change_MLFQ p 1;; mret tt else mret tt
  | 1%nat => if 40 <=? allot then level_change_MLFQ p 2;; mret tt else mret tt
  | _ => mret tt
  end.

Lemma demote_step_spec k p pr l allot :
  mlfq_wf k → queued k l p → ptable k !! p = Some pr →
  returns (demote_step p l allot) k (λ _ k',
    mlfq_wf k' ∧ same_rest k k' ∧ MLFQ_tick k' = MLFQ_tick k ∧ same_procs k k' ∧
    (∀ l0 i, queued k' l0 i ↔ (i = p ∧ l0 = demoted l allot) ∨ (i ≠ p ∧ queued k l0 i)) ∧
    ∃ pr', ptable k' !! p = Some pr' ∧
      p_fqtick pr' = if decide (demoted l allot = l) then p_fqtick pr else 0).
Proof.
  intros Hwf Hq Hp. pose proof (lookup_lt_Some _ _ _ Hp) as Hlt.
  assert (∀ l', demoted l allot = l' → l' = l → returns (mret tt) k (λ _ k',
    mlfq_wf k' ∧ same_rest k k' ∧ MLFQ_tick k' = MLFQ_tick k ∧ same_procs k k' ∧
    (∀ l0 i, queued k' l0 i ↔ (i = p ∧ l0 = l') ∨ (i ≠ p ∧ queued k l0 i)) ∧
    ∃ pr', ptable k' !! p = Some pr' ∧
      p_fqtick pr' = if decide (l' = l) then p_fqtick pr else 0)) as Hstay.
  { intros l' Hd ->. split_and!; try done.
    - intros l0 i. split; [|naive_solver]. intros Hi. destruct (decide (i = p)) as [->|]; [|auto].
      left. split; [done|]. by apply (queued_unique k _ _ p).
    - exists pr. by rewrite decide_True. }
  assert (∀ l', (l' < NQUEUE)%nat → l' ≠ l →
    returns (level_change_MLFQ p (Z.of_nat l');; mret tt) k (λ _ k',
    mlfq_wf k' ∧ same_rest k k' ∧ MLFQ_tick k' = MLFQ_tick k ∧ same_procs k k' ∧
    (∀ l0 i, queued k' l0 i ↔ (i = p ∧ l0 = l') ∨ (i ≠ p ∧ queued k l0 i)) ∧
    ∃ pr', ptable k' !! p = Some pr' ∧
      p_fqtick pr' = if decide (l' = l) then p_fqtick pr else 0)) as Hmove.
  { intros l' Hl' Hne.
    destruct (level_change_queued k p l l' Hwf Hq Hl') as (k' & Hr & ? & Hq' & ? & ? & Hp' & Htk).
    unfold returns, mbind, M_bind. rewrite Hr. split_and!; try done.
    - intros l0 i. rewrite Hq'. naive_solver.
    - eexists. rewrite (Hp' _ Hp). rewrite list_lookup_insert_eq by done.
      split; [done|]. by rewrite decide_False. }
  unfold demote_step. destruct l as [|[|l]]; unfold demoted in *.
  - destruct (20 <=? allot); [apply (Hmove 1%nat); [unfold NQUEUE; lia|done]|by apply Hstay].
  - destruct (40 <=? allot); [apply (Hmove 2%nat); [unfold NQUEUE; lia|done]|by apply Hstay].
  - by apply Hstay.
Qed.

(** The state in which the level of the process is examined: pass, boost
    counter and tick count of the process are advanced, ptable.lock is held. *)
Definition tick_accounted k (p : nat) (pr : proc) (j : nat) (st : stride) : kstate :=
  set_ptable (<[p := set_p_fqtick (s32 (p_fqtick pr + 1)) pr]> (ptable k))
    (set_MLFQ_tick (s32 (MLFQ_tick k + 1))
      (set_stride_arr (<[j := set_st_pass (s32 (st_pass st + st_stride st)) st]> (stride_arr k))
        (set_ptable_lock true k))).

Lemma tick_add_unfold k p pr l j st :
  mlfq_wf k → cpu_proc k = Some p → ptable k !! p = Some pr → queued k l p →
  p_isthread pr = 0 → p_isstride pr ≠ 1 →
  p_mystride pr = Some j → stride_arr k !! j = Some st →
  ptable_lock k = false → FQ_ticklock k = false →
  tick_add_MLFQ k =
    (demote_step p l (s32 (p_fqtick pr + 1));;
     tick_decide (s32 (p_fqtick pr + 1)) (quantum l)) (tick_accounted k p pr j st).
Proof.
  intros Hwf Hcpu Hp Hq Hth Hss Hms Hj Hlk Hfq. pose proof (lookup_lt_Some _ _ _ Hp) as Hlt.
  pose proof (wf_queued_level _ _ _ _ Hwf Hq Hp) as Hlev.
  pose proof (queued_level_lt _ _ _ Hwf Hq) as Hl3.
  unfold tick_add_MLFQ. erewrite bind_ret; [|unfold acquire_ptable; by rewrite Hlk].
  erewrite bind_ret; [|by apply myproc_eq]. erewrite bind_ret; [|by apply getp_eq].
  rewrite Hms. erewrite bind_ret; [|done]. erewrite bind_ret; [|by apply updst_eq].
  destruct (Z.eqb_spec (p_isstride pr) 1); [done|].
  erewrite bind_ret; [|unfold acquire_FQ; simpl; by rewrite Hfq]. rewrite bind_modify.
  erewrite bind_ret; [|by unfold release_FQ].
  erewrite bind_ret.
  2:{ unfold increasealltick. erewrite bind_ret; [|by apply getp_eq]. rewrite Hth. simpl.
      by apply updp_eq. }
  erewrite bind_ret; [|apply getp_eq; simpl; by apply list_lookup_insert_eq].
  cbn [p_level p_fqtick set_p_fqtick]. rewrite Hlev. unfold tick_accounted.
  assert (set_FQ_ticklock false (set_MLFQ_tick (s32 (MLFQ_tick k + 1)) (set_FQ_ticklock true
    (set_stride_arr (<[j := set_st_pass (s32 (st_pass st + st_stride st)) st]> (stride_arr k))
      (set_ptable_lock true k)))) =
    set_MLFQ_tick (s32 (MLFQ_tick k + 1)) (set_stride_arr
      (<[j := set_st_pass (s32 (st_pass st + st_stride st)) st]> (stride_arr k))
      (set_ptable_lock true k))) as Hk by (destruct k; simpl in *; by subst).
  unfold NQUEUE in Hl3. simpl MLFQ_tick. simpl stride_arr. rewrite Hk.
  destruct l as [|[|[|]]]; [done..|lia].
Qed.

Lemma tick_add_spec k p pr l j st :
  mlfq_wf k → cpu_proc k = Some p → ptable k !! p = Some pr → queued k l p →
  p_isthread pr = 0 → p_isstride pr ≠ 1 →
  p_mystride pr = Some j → stride_arr k !! j = Some st →
  ptable_lock k = false → FQ_ticklock k = false →
  0 <= p_fqtick pr < 2 ^ 31 - 1 → 0 <= MLFQ_tick k < 2 ^ 31 - 1 →
  let f := p_fqtick pr + 1 in
  let yields := f mod quantum l =? 0 in
  let boosts := yields && (200 <? MLFQ_tick k + 1) in
  returns tick_add_MLFQ k (λ r k',
    r = (if yields then 1 else 0) ∧ mlfq_wf k' ∧
    ptable_lock k' = false ∧ FQ_ticklock k' = false ∧
    stride_arr k' = <[j := set_st_pass (s32 (st_pass st + st_stride st)) st]> (stride_arr k) ∧
    if boosts then
      MLFQ_tick k' = 0 ∧ ∀ l0 i, queued k' l0 i ↔ l0 = 0%nat ∧ ∃ l1, queued k l1 i
    else
      MLFQ_tick k' = MLFQ_tick k + 1 ∧
      (∀ l0 i, queued k' l0 i ↔ (i = p ∧ l0 = demoted l f) ∨ (i ≠ p ∧ queued k l0 i)) ∧
      ∃ pr', ptable k' !! p = Some pr' ∧
        p_fqtick pr' = if decide (demoted l f = l) then f else 0).
Proof.
  intros Hwf Hcpu Hp Hq Hth Hss Hms Hj Hlk Hfq Hf Hmt f yields boosts.
  pose proof (lookup_lt_Some _ _ _ Hp) as Hlt.
  unfold returns. rewrite (tick_add_unfold k p pr l j st) by done.
  set (k1 := tick_accounted k p pr j st).
  rewrite !s32_id by (unfold is_s32; lia). fold f.
  assert (mlfq_wf k1) as Hwf1.
  { apply (mlfq_wf_ext (set_ptable (ptable k1) k)); [|done|done].
    by apply (mlfq_wf_proc k p pr). }
  assert (ptable k1 !! p = Some (set_p_fqtick f pr)) as Hp1.
  { unfold k1, tick_accounted; simpl. rewrite s32_id by (unfold is_s32; lia).
    by apply list_lookup_insert_eq. }
  assert (MLFQ_tick k1 = MLFQ_tick k + 1) as Hmt1 by (apply s32_id; unfold is_s32; lia).
  assert (∀ l0 i, queued k1 l0 i ↔ queued k l0 i) as Hqk by done.
  apply returns_bind. eapply returns_mono; [by apply (demote_step_spec k1 p _ l f Hwf1 Hq Hp1)|].
  intros [] k2 (Hwf2 & Hk2 & Hmt2 & _ & Hq2 & pr' & Hp' & Hfq').
  destruct Hk2 as (Hst2 & _ & _ & _ & Hl2 & Hf2 & _).
  eapply returns_mono.
  { apply tick_decide_spec; [done|by rewrite Hl2|by rewrite Hf2|unfold f; lia|].
    by destruct l as [|[|]]. }
  intros r k3 [-> Hk3]. fold yields in Hk3 |- *. rewrite Hmt2, Hmt1 in Hk3.
  fold boosts in Hk3. split; [done|]. destruct boosts.
  - destruct Hk3 as (? & ? & _ & (? & _ & _ & _ & Hl3 & Hf3 & _) & Hq3). simpl in *.
    split_and!; try done; try congruence.
    intros l0 i. rewrite Hq3. setoid_rewrite Hq2. setoid_rewrite Hqk.
    destruct (decide (i = p)) as [->|]; naive_solver.
  - subst k3. simpl. split_and!; try done; try congruence;
      [by destruct Hwf2; split|by rewrite Hf2|].
    exists pr'. split; [done|]. by rewrite Hfq'.
Qed.
End tick.

(** ** Concrete states for the witnesses *)
Definition blank_proc : proc :=
  mkproc 0 0 0 UNUSED 0 None (mktf 0 0 0 0 0 0 0 0) None 0 (replicate NOFILE None) None (replicate 16 0)
    (Some 0%nat) 0 0 0 0 0 None (replicate NTHRE None) (replicate NTHRE 0) 0 (replicate NTHRE 0) 0.

Definition running_proc : proc := set_p_state RUNNING (set_p_pid 1 blank_proc).
Definition ready_proc : proc := set_p_state RUNNABLE (set_p_pid 1 blank_proc).
(** A master with one runnable worker, slot 1 of the table. *)
Definition master_proc : proc :=
  set_p_isthread 1 (set_p_threadcnt 1
    (set_p_workerthread (<[0%nat := Some 1%nat]> (replicate NTHRE None)) ready_proc)).

Definition queue_with (h : list (option nat)) : FQ :=
  mkFQ (Z.of_nat (length (members h))) 0 0 h.
Definition empty_slots : list (option nat) := replicate NPROC None.

Definition free_stride : stride := mkstride 0 0 0 None.
Definition mlfq_stride : stride := mkstride 5000 0 20 (Some 0%nat).

(** Slot 0 of the table holds [pr], queued at level [l]; the rest is unused. *)
Definition kstate_with (pr : proc) (l : nat) : kstate :=
  mkkstate (<[0%nat := pr]> (replicate NPROC blank_proc))
    (<[0%nat := mlfq_stride]> (replicate NPROC free_stride))
    (<[l := queue_with (<[0%nat := Some 0%nat]> empty_slots)]> (replicate NQUEUE (queue_with empty_slots)))
    0 1 (Some 0%nat) (Some 0%nat) false false false.

(** The same with a runnable worker in slot 1 of the table. *)
Definition kstate_group : kstate :=
  let k := kstate_with master_proc 0 in
  set_ptable (<[1%nat := ready_proc]> (ptable k)) k.

Lemma members_one i : members (<[0%nat := Some i]> empty_slots) = [i].
Proof. reflexivity. Qed.

Lemma kstate_with_wf pr l : (l < NQUEUE)%nat → p_level pr = Z.of_nat l → mlfq_wf (kstate_with pr l).
Proof.
  intros Hl Hlev.
  assert (∀ l0 q, MLFQ_queues (kstate_with pr l) !! l0 = Some q →
    (l0 = l ∧ q = queue_with (<[0%nat := Some 0%nat]> empty_slots)) ∨ q = queue_with empty_slots) as Hq.
  { intros l0 q [(-> & <- & _)|(_ & H)]%list_lookup_insert_Some; [by left|right].
    by apply lookup_replicate in H as [-> _]. }
  split; simpl; try done.
  - by rewrite length_insert.
  - intros l0 q [[_ ->]| ->]%Hq; done.
  - intros l0 q [[_ ->]| ->]%Hq; done.
  - intros l0 q [[_ ->]| ->]%Hq; [apply NoDup_singleton|apply NoDup_nil_2].
  - intros l0 q i [[-> ->]| ->]%Hq; simpl; [|by intros ?%elem_of_nil].
    intros ->%list_elem_of_singleton. by exists pr.
  - intros l0 q [[_ ->]| ->]%Hq; done.
Qed.

Lemma kstate_with_queued pr l : (l < NQUEUE)%nat → queued (kstate_with pr l) l 0.
Proof.
  intros Hl. unfold queued.
  rewrite (queue_of_eq _ _ (queue_with (<[0%nat := Some 0%nat]> empty_slots)))
    by (by apply list_lookup_insert_eq).
  unfold queue_with, fq_holdingproc. rewrite members_one. by left.
Qed.

Lemma blank_group : group_wf blank_proc.
Proof. split; [done|done|]. by intros t ?%elem_of_nil. Qed.

Lemma kstate_with_groups pr l : group_wf pr → groups_wf (kstate_with pr l).
Proof.
  intros Hpr. split; [done|]. intros i m [(_ & <- & _)|(_ & H)]%list_lookup_insert_Some; [done|].
  apply lookup_replicate in H as [-> _]. apply blank_group.
Qed.

Lemma ready_group : group_wf ready_proc.
Proof. split; [done|done|]. by intros t ?%elem_of_nil. Qed.

Lemma kstate_group_wf : groups_wf kstate_group.
Proof.
  split; [done|]. intros i m [(_ & <- & _)|(_ & H)]%list_lookup_insert_Some; [apply ready_group|].
  apply list_lookup_insert_Some in H as [(_ & <- & _)|(_ & H)].
  - split; [done|done|]. intros t ->%list_elem_of_singleton. unfold NPROC. lia.
  - apply lookup_replicate in H as [-> _]. apply blank_group.
Qed.

Lemma kstate_with_strides pr l : strides_wf (kstate_with pr l).
Proof.
  split; [done|]. intros j st [(_ & <- & _)|(_ & H)]%list_lookup_insert_Some Hne.
  - exists 0%nat. split; [done|]. unfold NPROC. lia.
  - apply lookup_replicate in H as [-> _]. done.
Qed.

Lemma kstate_with_shares pr l : shares_wf (kstate_with pr l).
Proof.
  split; [done| |done|].
  - intros j st [(<- & _)|(_ & H)]%list_lookup_insert_Some Hj Hne; [lia|].
    apply lookup_replicate in H as [-> _]. done.
  - intros st0 [= <-]. by right.
Qed.

(** ** Theorems *)

(** C4: the boost.  Whatever the levels of the queued processes, after
    [boost_priority] each of them is in the level-0 queue and nowhere else, the
    other two queues are empty, the boost counter is zero, the fields of the
    processes other than the scheduling ones are unchanged and so are the locks
    and the other globals; the call never fails to find a free slot.  Level 0 is the
    top level of the code; the design notes (OS_Project1.md) name the top queue FQ2
    and describe the boost as a move to it. *)
Theorem boost_lifts_all k :
  mlfq_wf k → FQ_ticklock k = false →
  ∃ k', boost_priority k = Ret tt k' ∧ mlfq_wf k' ∧ MLFQ_tick k' = 0 ∧
    (∀ l i, queued k' l i ↔ l = 0%nat ∧ ∃ l1, queued k l1 i) ∧
    same_procs k k' ∧ same_rest k k'.
Proof.
  intros Hwf Hlk.
  pose proof (boost_priority_spec k Hwf Hlk) as ([] & k' & ? & ? & ? & ? & ? & ?)%returns_eq.
  exists k'. by split_and!.
Qed.

Lemma boost_lifts_all_witness :
  let k := kstate_with (set_p_level 2 ready_proc) 2 in
  queued k 2 0 ∧ ∃ k', boost_priority k = Ret tt k' ∧ queued k' 0 0 ∧ MLFQ_tick k' = 0.
Proof.
  simpl. split; [by apply kstate_with_queued; unfold NQUEUE; lia|].
  destruct (boost_lifts_all (kstate_with (set_p_level 2 ready_proc) 2)) as (k' & ? & _ & ? & Hq & _);
    [apply kstate_with_wf; [unfold NQUEUE; lia|done]|done|].
  exists k'. split_and!; [done| |done]. apply Hq. split; [done|]. exists 2%nat.
  apply kstate_with_queued. unfold NQUEUE. lia.
Defined.

(** C7: one timer tick of a process of the feedback queues.  The call returns
    with both locks released; it advances the pass of the stride slot and the
    counters by one; it asks for a yield exactly when the time used is a
    multiple of the quantum of the level (5, 10, 20 ticks); it moves the process
    down one level exactly at 20 ticks on level 0 and 40 on level 1, clearing
    its count; and it boosts everything to level 0 when it yields after more
    than 200 ticks since the last boost.  These are the numbers of the code: the
    design notes (OS_Project1.md) give quanta of 1, 2 and 4 ticks, allotments of 5 and
    15 and a boost every 100 ticks, as does the comment beside the counter. *)
Theorem tick_accounts k p pr l j st :
  mlfq_wf k → cpu_proc k = Some p → ptable k !! p = Some pr → queued k l p →
  p_isthread pr = 0 → p_isstride pr ≠ 1 →
  p_mystride pr = Some j → stride_arr k !! j = Some st →
  ptable_lock k = false → FQ_ticklock k = false →
  0 <= p_fqtick pr < 2 ^ 31 - 1 → 0 <= MLFQ_tick k < 2 ^ 31 - 1 →
  let f := p_fqtick pr + 1 in
  let yields := f mod quantum l =? 0 in
  let boosts := yields && (200 <? MLFQ_tick k + 1) in
  returns tick_add_MLFQ k (λ r k',
    r = (if yields then 1 else 0) ∧ mlfq_wf k' ∧
    ptable_lock k' = false ∧ FQ_ticklock k' = false ∧
    stride_arr k' = <[j := set_st_pass (s32 (st_pass st + st_stride st)) st]> (stride_arr k) ∧
    if boosts then
      MLFQ_tick k' = 0 ∧ ∀ l0 i, queued k' l0 i ↔ l0 = 0%nat ∧ ∃ l1, queued k l1 i
    else
      MLFQ_tick k' = MLFQ_tick k + 1 ∧
      (∀ l0 i, queued k' l0 i ↔ (i = p ∧ l0 = demoted l f) ∨ (i ≠ p ∧ queued k l0 i)) ∧
      ∃ pr', ptable k' !! p = Some pr' ∧
        p_fqtick pr' = if decide (demoted l f = l) then f else 0).
Proof. apply tick_add_spec. Qed.

(** The 20th tick at level 0 asks for a yield and demotes the process. *)
Lemma tick_accounts_witness :
  let k := kstate_with (set_p_fqtick 19 running_proc) 0 in
  returns tick_add_MLFQ k (λ r k', r = 1 ∧ queued k' 1 0 ∧ MLFQ_tick k' = 1).
Proof.
  simpl. eapply returns_mono.
  - apply (tick_accounts _ 0 (set_p_fqtick 19 running_proc) 0 0 mlfq_stride); try done;
      [apply kstate_with_wf|apply kstate_with_queued]; unfold NQUEUE; (lia || done).
  - intros r k' (-> & _ & _ & _ & _ & Ht & Hq & _). split_and!; [done| |done].
    apply Hq. by left.
Defined.

(** C18: what [exec_MLFQ] selects.  The call returns; if it selects, the process
    can run and belongs to the thread group of a runnable process of some queue,
    and the queues of higher priority hold no process that can run, except in
    the one slot their scan leaves out (the slot just before [current]); if it
    selects nothing, every queue is in that situation and nothing changed.  The queue
    of higher priority is that of the lower number, level 0 first, although the comment
    at the field [level] and the design notes (OS_Project1.md) call level 2 the
    highest. *)
Theorem exec_MLFQ_selects k :
  mlfq_wf k → groups_wf k →
  returns exec_MLFQ k (λ r k',
    mlfq_wf k' ∧ groups_wf k' ∧
    match r with
    | Some t => ∃ l i, queued k l i ∧ runnable k i ∧ in_group k i t ∧ runnable k t ∧
                  ∀ l', (l' < l)%nat → all_blind k l'
    | None => k' = k ∧ ∀ l, all_blind k l
    end).
Proof. apply exec_MLFQ_spec. Qed.

Lemma exec_MLFQ_selects_witness :
  let k := kstate_with ready_proc 0 in
  exec_MLFQ k = Ret (Some 0%nat) (set_MLFQ_queues
    (<[0%nat := set_fq_current 1 (queue_with (<[0%nat := Some 0%nat]> empty_slots))]> (MLFQ_queues k)) k)
  ∧ returns exec_MLFQ k (λ r k', mlfq_wf k').
Proof.
  split; [vm_compute; reflexivity|].
  eapply returns_mono; [apply exec_MLFQ_selects; [apply kstate_with_wf; [unfold NQUEUE; lia|done]
    |apply kstate_with_groups, ready_group]|].
  intros r k' [H _]. exact H.
Defined.

(** [exec_MLFQ] looks at [NPROC - 1] slots of a queue, so it never finds the
    process it found last: with a single process in the queues, runnable and
    not a thread, the call that follows a successful one selects nothing. *)
Theorem exec_MLFQ_misses_last :
  let k := kstate_with ready_proc 0 in
  ∃ k', exec_MLFQ k = Ret (Some 0%nat) k' ∧ runnable k' 0 ∧ queued k' 0 0 ∧
    exec_MLFQ k' = Ret None k'.
Proof.
  eexists. split_and!; [vm_compute; reflexivity|by exists ready_proc| |vm_compute; reflexivity].
  vm_compute. by left.
Qed.

(** C24: [pickthread] is round robin.  For every group the loop terminates, and
    its result and effect are those of the reference definition: the first
    runnable thread of one full turn that starts after [curthread], the master
    being position [NTHRE]; [curthread] moves to the position chosen.  Without
    workers or without a runnable thread the master is returned and nothing
    changes. *)
Theorem pickthread_round_robin k master m :
  groups_wf k → ptable k !! master = Some m →
  pickthread master k =
    if p_threadcnt m =? 0 then Ret master k
    else match first_runnable k (thread_slot m master)
                 (turn (S NTHRE) (Z.to_nat (p_curthread m))) with
         | Some (i, t) =>
             Ret t (set_ptable (<[master := set_p_curthread (Z.of_nat i) m]> (ptable k)) k)
         | None => Ret master k
         end.
Proof. apply pickthread_eq. Qed.

Lemma pickthread_round_robin_witness :
  pickthread 0 kstate_group =
    Ret 0%nat (set_ptable (<[0%nat := set_p_curthread 32 master_proc]> (ptable kstate_group)) kstate_group).
Proof.
  rewrite (pickthread_round_robin kstate_group 0 master_proc kstate_group_wf eq_refl).
  vm_compute. reflexivity.
Defined.

(** Turns of the round robin before position [i] comes up, from position [c]. *)
Definition turns_before (c i : nat) : nat := ((i + NTHRE - c) mod S NTHRE)%nat.

Lemma turns_before_step (c d i : nat) :
  (c ≤ NTHRE)%nat → (i ≤ NTHRE)%nat → (1 ≤ d)%nat → (d < S (turns_before c i))%nat →
  (turns_before ((c + d) mod S NTHRE) i < turns_before c i)%nat.
Proof. unfold turns_before, NTHRE. intros. divlia. Qed.

Lemma turns_before_eq (c i : nat) :
  (c ≤ NTHRE)%nat → (i ≤ NTHRE)%nat → ((c + S (turns_before c i)) mod S NTHRE)%nat = i.
Proof. unfold turns_before, NTHRE. intros. divlia. Qed.

(** no thread starves.  While the thread at position [i] stays runnable,
    each call of [pickthread] either runs it or brings the round robin strictly
    closer to it, so it runs after at most [NTHRE + 1] calls. *)
Theorem pickthread_fair k master m (c i t : nat) :
  groups_wf k → ptable k !! master = Some m → p_threadcnt m ≠ 0 →
  p_curthread m = Z.of_nat c → (i ≤ NTHRE)%nat →
  thread_slot m master i = Some t → runnable k t →
  ∃ t' i' k', pickthread master k = Ret t' k' ∧
    ptable k' !! master = Some (set_p_curthread (Z.of_nat i') m) ∧
    ((t' = t ∧ i' = i) ∨ (turns_before i' i < turns_before c i ≤ NTHRE)%nat).
Proof.
  intros Hg Hm Hcnt Hc Hi Hs Hr. pose proof (gw_cur _ (proj2 Hg _ _ Hm)) as Hcur.
  assert (c ≤ NTHRE)%nat as Hcl by lia.
  rewrite (pickthread_eq _ _ _ Hg Hm), Hc, Nat2Z.id.
  destruct (Z.eqb_spec (p_threadcnt m) 0); [done|].
  assert (turns_before c i ≤ NTHRE)%nat as Htb by (unfold turns_before, NTHRE; divlia).
  destruct (first_runnable _ _ _) as [[i' t']|] eqn:E.
  - pose proof E as Hf.
    eapply (first_runnable_first _ _ _ _ _ _ _ (S (turns_before c i)) t) in Hf as (d & Hd & ->);
      [|lia|by rewrite turns_before_eq|done].
    eexists t', _, _. split; [done|]. cbn [ptable set_ptable].
    split; [apply list_lookup_insert_eq; by eapply lookup_lt_Some|].
    destruct (decide (d = S (turns_before c i))) as [->|].
    + left. rewrite turns_before_eq by done. split; [|done].
      apply first_runnable_Some in E as (_ & E & _). rewrite turns_before_eq in E by done. congruence.
    + right. split; [|done]. apply turns_before_step; lia.
  - exfalso. eapply (first_runnable_None _ _ _ E i t); [|done|done].
    unfold turn, cyclic. apply list_elem_of_fmap. exists (S (turns_before c i)).
    rewrite turns_before_eq by done. split; [done|]. apply elem_of_seq. lia.
Qed.

Lemma pickthread_fair_witness :
  ∃ t' i' k', pickthread 0 kstate_group = Ret t' k' ∧
    ptable k' !! 0%nat = Some (set_p_curthread (Z.of_nat i') master_proc) ∧
    ((t' = 1%nat ∧ i' = 0%nat) ∨ (turns_before i' 0 < turns_before 0 0 ≤ NTHRE)%nat).
Proof.
  apply (pickthread_fair kstate_group 0 master_proc 0 0 1); try done.
  - apply kstate_group_wf.
  - unfold NTHRE. lia.
  - by exists ready_proc.
Defined.

(** [choose_lowpass] runs the lowest pass.  While no pass is over the limit
    of 200000000, the call returns and the stride slot it acts for is slot 0 (the
    MLFQ) or a slot in use with a runnable process and a pass strictly below
    slot 0's, and no slot that competes has a lower pass; the process returned
    is runnable and is the slot's process, or a thread of it, or what the
    feedback queues select. *)
Theorem choose_lowpass_lowest k start :
  mlfq_wf k → groups_wf k → strides_wf k →
  (∀ j, (j < NPROC)%nat → pass_of k j <= 200000000) →
  returns (choose_lowpass start) k (λ r k',
    mlfq_wf k' ∧ groups_wf k' ∧ (∀ t, r = Some t → runnable k t) ∧
    ∃ s, lowest k s ∧
      if decide (s = 0%nat) then
        match r with
        | Some t => ∃ l i, queued k l i ∧ in_group k i t ∧ ∀ l', (l' < l)%nat → all_blind k l'
        | None => k' = k ∧ ∀ l, all_blind k l
        end
      else ∃ i t, competes k s i ∧ r = Some t ∧ in_group k i t).
Proof. apply choose_lowpass_spec. Qed.

Lemma kstate_with_pass pr l j : pass_of (kstate_with pr l) j = 0.
Proof.
  unfold pass_of. destruct (stride_arr _ !! j) as [st|] eqn:E; [|done].
  apply list_lookup_insert_Some in E as [(_ & <- & _)|(_ & E)]; [done|].
  by apply lookup_replicate in E as [-> _].
Qed.

Lemma choose_lowpass_lowest_witness :
  returns (choose_lowpass 0) (kstate_with ready_proc 0) (λ r k', mlfq_wf k' ∧ ∃ s, lowest (kstate_with ready_proc 0) s).
Proof.
  eapply returns_mono; [apply choose_lowpass_lowest|].
  - apply kstate_with_wf; [unfold NQUEUE; lia|done].
  - apply kstate_with_groups, ready_group.
  - apply kstate_with_strides.
  - intros j _. rewrite kstate_with_pass. lia.
  - intros r k' (H & _ & _ & s & Hs & _). split; [exact H|]. exists s. exact Hs.
Defined.

(** past the limit the guard against overflow faults: when every slot the
    loop could select has a pass over 200000000, the loop that should reduce the
    pass values starts after the last element of [stride_arr] and accesses
    memory outside the array. *)
Theorem choose_lowpass_guard_faults k start :
  length (ptable k) = NPROC → strides_wf k →
  (∀ j, (j < NPROC)%nat → 200000000 < pass_of k j) →
  choose_lowpass start k = Fault.
Proof. intros. apply choose_lowpass_overflow; auto. Qed.

Definition kstate_high : kstate :=
  set_stride_arr (set_st_pass 200000001 <$> stride_arr (kstate_with ready_proc 0)) (kstate_with ready_proc 0).

Lemma kstate_high_lookup j st : stride_arr kstate_high !! j = Some st →
  ∃ st', stride_arr (kstate_with ready_proc 0) !! j = Some st' ∧ st = set_st_pass 200000001 st'.
Proof.
  change (stride_arr kstate_high) with (set_st_pass 200000001 <$> stride_arr (kstate_with ready_proc 0)).
  rewrite list_lookup_fmap. destruct (_ !! j) as [st'|]; intros [= <-]. by exists st'.
Qed.

Lemma choose_lowpass_guard_faults_witness : choose_lowpass 0 kstate_high = Fault.
Proof.
  apply choose_lowpass_guard_faults; [done| |].
  - split; [done|]. intros j st (st' & H & ->)%kstate_high_lookup.
    apply (proj2 (kstate_with_strides ready_proc 0) j st' H).
  - intros j Hj. destruct (lookup_lt_is_Some_2 (stride_arr kstate_high) j Hj) as [st E].
    rewrite (pass_of_eq _ _ _ E). apply kstate_high_lookup in E as (st' & _ & ->). done.
Defined.

(** C19: [set_cpu_share] and the MLFQ's minimum.  A request of a process of the
    feedback queues for at least one per cent is refused, with nothing changed,
    exactly when the shares in use and the request exceed 80 per cent.  Else
    the process leaves its queue for a free stride slot with that share, a stride
    of [MAXTICKET / portion] and the lowest pass in use; the reserved shares grow
    by [portion], and the share of the MLFQ is the rest to 100, at least 20.
    The invariants of the queues and of the shares are preserved. *)
Theorem set_cpu_share_guarantee k p pr l portion st0 :
  mlfq_wf k → shares_wf k → cpu_proc k = Some p → ptable k !! p = Some pr →
  queued k l p → p_master pr = None → p_isthread pr ≠ 1 →
  stride_arr k !! 0%nat = Some st0 → 1 <= portion < 2 ^ 31 - 80 →
  (∃ j st, (1 ≤ j)%nat ∧ stride_arr k !! j = Some st ∧ st_stride st = 0) →
  let used := reserved (drop 1 (stride_arr k)) in
  returns (set_cpu_share portion) k (λ r k',
    if 80 <? portion + used then r = -1 ∧ k' = k
    else r = 0 ∧ mlfq_wf k' ∧ shares_wf k' ∧
      reserved (drop 1 (stride_arr k')) = used + portion ∧
      (∃ j pass, (1 ≤ j)%nat ∧
         stride_arr k' !! j = Some (mkstride (Z.quot MAXTICKET portion) pass portion (Some p)) ∧
         ptable k' !! p = Some (reserved_proc j pr) ∧
         pass = min_pass (<[0%nat := mlfq_slot (portion + used) st0]> (stride_arr k))) ∧
      (∃ st0', stride_arr k' !! 0%nat = Some st0' ∧ st_share st0' = 100 - (used + portion) ∧
         20 <= st_share st0') ∧
      (∀ l0 i, queued k' l0 i ↔ i ≠ p ∧ queued k l0 i)).
Proof.
  intros Hwf Hsw Hcpu Hp Hq Hma Hth H0 Hpo Hfree used. unfold returns.
  destruct (Z.ltb_spec 80 (portion + used)).
  - by rewrite (set_cpu_share_reject k p) by (done || lia).
  - destruct (set_cpu_share_accept k p pr l portion st0) as
      (j & st & k' & Hj1 & Hj & Hst & -> & Hwf' & Harr & Hpt & Hq'); try done; [lia|].
    destruct (shares_wf_accept k k' st0 j st p portion) as [Hsw' Hres]; try done; [lia|].
    pose proof (lookup_lt_Some _ _ _ Hj). pose proof (lookup_lt_Some _ _ _ Hp).
    assert (0 < length (stride_arr k))%nat by lia.
    split_and!; try done.
    + exists j, (min_pass (<[0%nat := mlfq_slot (portion + used) st0]> (stride_arr k))).
      rewrite Harr, Hpt. unfold strides_after. split_and!; [done|..|done].
      * apply list_lookup_insert_eq. by rewrite length_insert.
      * by apply list_lookup_insert_eq.
    + eexists. rewrite Harr. unfold strides_after. rewrite list_lookup_insert_ne by lia.
      rewrite list_lookup_insert_eq by done. split; [done|]. simpl. fold used. lia.
Qed.

Lemma set_cpu_share_guarantee_witness :
  returns (set_cpu_share 30) (kstate_with running_proc 0) (λ r k',
    r = 0 ∧ reserved (drop 1 (stride_arr k')) = 30 ∧ shares_wf k').
Proof.
  eapply returns_mono.
  - apply (set_cpu_share_guarantee _ 0 running_proc 0 30 mlfq_stride); try done.
    + apply kstate_with_wf; [unfold NQUEUE; lia|done].
    + apply kstate_with_shares.
    + apply kstate_with_queued. unfold NQUEUE. lia.
    + by exists 1%nat, free_stride.
  - intros r k' H. simpl in H. destruct H as (H1 & _ & H2 & H3 & _). by split_and!.
Defined.

(** the tick of a thread.  Once a process has called [thread_create] (its
    [isthread] is set, like that of its workers), the next timer tick on it goes
    through the uninitialised pointer of [increasealltick]. *)
Theorem thread_tick_faults k p pr j st :
  cpu_proc k = Some p → ptable k !! p = Some pr → p_isthread pr = 1 →
  p_mystride pr = Some j → stride_arr k !! j = Some st →
  ptable_lock k = false → FQ_ticklock k = false →
  tick_add_MLFQ k = Fault.
Proof.
  intros Hcpu Hp Hth Hms Hj Hlk Hfq. pose proof (lookup_lt_Some _ _ _ Hp) as Hlt.
  assert (∀ k', ptable k' = ptable k → increasealltick p k' = Fault) as Hinc.
  { intros k' Hk'. unfold increasealltick. erewrite bind_ret; [|by apply getp_eq; rewrite Hk'].
    rewrite Hth. simpl. erewrite bind_ret; [|by apply updp_eq; rewrite Hk']. done. }
  unfold tick_add_MLFQ. erewrite bind_ret; [|unfold acquire_ptable; by rewrite Hlk].
  erewrite bind_ret; [|by apply myproc_eq]. erewrite bind_ret; [|by apply getp_eq].
  rewrite Hms. erewrite bind_ret; [|done]. erewrite bind_ret; [|by apply updst_eq].
  destruct (p_isstride pr =? 1); [by apply bind_fault, Hinc|].
  erewrite bind_ret; [|unfold acquire_FQ; simpl; by rewrite Hfq]. rewrite bind_modify.
  erewrite bind_ret; [|by unfold release_FQ]. by apply bind_fault, Hinc.
Qed.

Lemma thread_tick_faults_witness : tick_add_MLFQ kstate_group = Fault.
Proof. by apply (thread_tick_faults kstate_group 0 master_proc 0 mlfq_stride). Defined.
