(* ===== verification/Block.v ===== *)
(** * Disk blocks: bytes, and the 32-bit words the kernel keeps in them

    The kernel overlays C structures on the data of a buffer: the log header, an
    array of block numbers, an inode.  The overlay of an array of [uint] (or
    [int]) is [get_word]/[put_word], little-endian as on the i386. *)
From S2P Require Import Prelude Params.

(** A block is the list of its [BSIZE] bytes. *)
Abbreviation block := (list Z) (only parsing).

Definition zero_block : block := replicate (Z.to_nat BSIZE) 0.

Definition byte_at (b : block) (i : nat) : Z := default 0 (b !! i).

(** [((uint* )data)[i]] *)
Definition get_word (b : block) (i : nat) : Z :=
  byte_at b (4 * i) + 2 ^ 8 * byte_at b (4 * i + 1) + 2 ^ 16 * byte_at b (4 * i + 2)
    + 2 ^ 24 * byte_at b (4 * i + 3).

(** [((uint* )data)[i] = v] *)
Definition put_word (b : block) (i : nat) (v : Z) : block :=
  <[(4 * i + 3)%nat := (v / 2 ^ 24) mod 2 ^ 8]>
    (<[(4 * i + 2)%nat := (v / 2 ^ 16) mod 2 ^ 8]>
      (<[(4 * i + 1)%nat := (v / 2 ^ 8) mod 2 ^ 8]>
        (<[(4 * i)%nat := v mod 2 ^ 8]> b))).

(** [((short* )data)[i]] as an unsigned number, and its assignment. *)
Definition get_half (b : block) (i : nat) : Z := byte_at b (2 * i) + 2 ^ 8 * byte_at b (2 * i + 1).
Definition put_half (b : block) (i : nat) (v : Z) : block :=
  <[(2 * i + 1)%nat := (v / 2 ^ 8) mod 2 ^ 8]> (<[(2 * i)%nat := v mod 2 ^ 8]> b).

(** The value of a [short]. *)
Definition s16 (z : Z) : Z := (z + 2 ^ 15) mod 2 ^ 16 - 2 ^ 15.

(** [memmove(data + off, src, length src)] and [memmove(dst, data + off, m)]. *)
Definition put_bytes (b : block) (off : nat) (src : list Z) : block := list_inserts off src b.
Definition get_bytes (b : block) (off m : nat) : list Z := take m (drop off b).

Definition is_byte (z : Z) : Prop := 0 <= z < 2 ^ 8.
Definition bytes_ok (b : block) : Prop := Forall is_byte b.

Section words.
Implicit Types (b : block) (i j : nat).

Lemma length_put_word b i v : length (put_word b i v) = length b.
Proof. unfold put_word. by rewrite !length_insert. Qed.

Lemma byte_at_insert_eq b i v : (i < length b)%nat → byte_at (<[i := v]> b) i = v.
Proof. intros. unfold byte_at. by rewrite list_lookup_insert_eq. Qed.

Lemma byte_at_insert_ne b i j v : i ≠ j → byte_at (<[i := v]> b) j = byte_at b j.
Proof. intros. unfold byte_at. by rewrite list_lookup_insert_ne. Qed.

(** A 32-bit number is the sum of its four digits in base 256. *)
Lemma digits_u32 v :
  v mod 2 ^ 8 + 2 ^ 8 * ((v / 2 ^ 8) mod 2 ^ 8) + 2 ^ 16 * ((v / 2 ^ 16) mod 2 ^ 8)
    + 2 ^ 24 * ((v / 2 ^ 24) mod 2 ^ 8) = u32 v.
Proof.
  unfold u32.
  replace (2 ^ 32) with (2 ^ 8 * (2 ^ 8 * (2 ^ 8 * 2 ^ 8))) by lia.
  rewrite !Z.rem_mul_r by lia. rewrite !Z.div_div by lia.
  change (2 ^ 8 * 2 ^ 8) with (2 ^ 16). change (2 ^ 16 * 2 ^ 8) with (2 ^ 24). lia.
Qed.

Lemma get_put_word_eq b i v :
  (4 * i + 3 < length b)%nat → get_word (put_word b i v) i = u32 v.
Proof.
  intros Hi. rewrite <-digits_u32. unfold get_word, put_word.
  repeat first [rewrite byte_at_insert_eq by (rewrite ?length_insert; lia)
               | rewrite byte_at_insert_ne by lia].
  done.
Qed.

Lemma get_put_word_ne b i j v : i ≠ j → get_word (put_word b i v) j = get_word b j.
Proof.
  intros Hi. unfold get_word, put_word.
  by rewrite !byte_at_insert_ne by lia.
Qed.

Lemma byte_at_range b i : bytes_ok b → is_byte (byte_at b i).
Proof.
  intros Hb. unfold byte_at. destruct (b !! i) eqn:E; simpl; [|by unfold is_byte].
  by eapply Forall_lookup_1.
Qed.

Lemma get_word_range b i : bytes_ok b → is_u32 (get_word b i).
Proof.
  intros Hb. unfold get_word, is_u32.
  pose proof (byte_at_range b (4 * i) Hb). pose proof (byte_at_range b (4 * i + 1) Hb).
  pose proof (byte_at_range b (4 * i + 2) Hb). pose proof (byte_at_range b (4 * i + 3) Hb).
  unfold is_byte in *. lia.
Qed.

Lemma put_word_bytes b i v : bytes_ok b → bytes_ok (put_word b i v).
Proof.
  intros Hb. unfold put_word.
  repeat (apply Forall_insert; [|unfold is_byte; apply Z.mod_pos_bound; lia]). done.
Qed.

(** A word occupies the bytes [4 * i] to [4 * i + 3], a half word [2 * i] and the
    next. *)
Lemma byte_at_put_word_ne b i v (j : nat) :
  (j < 4 * i ∨ 4 * i + 3 < j)%nat → byte_at (put_word b i v) j = byte_at b j.
Proof. intros. unfold put_word. by rewrite !byte_at_insert_ne by lia. Qed.

Lemma byte_at_put_half_ne b i v (j : nat) :
  (j < 2 * i ∨ 2 * i + 1 < j)%nat → byte_at (put_half b i v) j = byte_at b j.
Proof. intros. unfold put_half. by rewrite !byte_at_insert_ne by lia. Qed.

Lemma get_put_half_eq b i v :
  (2 * i + 1 < length b)%nat → get_half (put_half b i v) i = v mod 2 ^ 16.
Proof.
  intros Hi. unfold get_half, put_half.
  rewrite byte_at_insert_ne, !byte_at_insert_eq by (rewrite ?length_insert; lia).
  replace (2 ^ 16) with (2 ^ 8 * 2 ^ 8) by lia. rewrite Z.rem_mul_r by lia. lia.
Qed.

Lemma get_put_half_ne b i j v : i ≠ j → get_half (put_half b i v) j = get_half b j.
Proof. intros. unfold get_half. by rewrite !byte_at_put_half_ne by lia. Qed.

Lemma get_half_put_word b i j v :
  (2 * j + 1 < 4 * i ∨ 4 * i + 3 < 2 * j)%nat → get_half (put_word b i v) j = get_half b j.
Proof. intros. unfold get_half. by rewrite !byte_at_put_word_ne by lia. Qed.

Lemma get_word_put_half b i j v :
  (4 * j + 3 < 2 * i ∨ 2 * i + 1 < 4 * j)%nat → get_word (put_half b i v) j = get_word b j.
Proof. intros. unfold get_word. by rewrite !byte_at_put_half_ne by lia. Qed.

Lemma length_put_half b i v : length (put_half b i v) = length b.
Proof. unfold put_half. by rewrite !length_insert. Qed.

Lemma put_half_bytes b i v : bytes_ok b → bytes_ok (put_half b i v).
Proof.
  intros Hb. unfold put_half.
  repeat (apply Forall_insert; [|unfold is_byte; apply Z.mod_pos_bound; lia]). done.
Qed.

Lemma s16_mod z : - 2 ^ 15 <= z < 2 ^ 15 → s16 (z mod 2 ^ 16) = z.
Proof. unfold s16. intros. rewrite Zplus_mod_idemp_l, Z.mod_small; lia. Qed.

Lemma length_put_bytes b off src : length (put_bytes b off src) = length b.
Proof. apply length_inserts. Qed.

Lemma put_bytes_ok b off src : bytes_ok b → bytes_ok src → bytes_ok (put_bytes b off src).
Proof.
  intros Hb Hs. unfold put_bytes. revert off b Hb. induction Hs as [|x src Hx Hs IH]; intros off b Hb.
  - done.
  - cbn. apply Forall_insert; [|done]. by apply IH.
Qed.

(** Reading inside and outside the bytes stored. *)
Lemma byte_at_put_bytes b off src (j : nat) :
  (off + length src ≤ length b)%nat →
  byte_at (put_bytes b off src) j
  = if decide (off ≤ j < off + length src)%nat then byte_at src (j - off) else byte_at b j.
Proof.
  intros Hl. unfold byte_at, put_bytes. case_decide as Hj.
  - rewrite list_lookup_inserts by lia. done.
  - destruct (decide (j < off)%nat); [by rewrite list_lookup_inserts_lt by lia|].
    by rewrite list_lookup_inserts_ge by lia.
Qed.

Lemma byte_at_get_bytes b off m (j : nat) :
  (j < m)%nat → byte_at (get_bytes b off m) j = byte_at b (off + j).
Proof.
  intros Hj. unfold byte_at, get_bytes.
  rewrite lookup_take_lt by done. by rewrite lookup_drop.
Qed.

Lemma list_eq_byte (l1 l2 : list Z) :
  length l1 = length l2 → (∀ j : nat, (j < length l1)%nat → byte_at l1 j = byte_at l2 j) → l1 = l2.
Proof.
  intros Hl Hb. apply list_eq. intros j. destruct (decide (j < length l1)%nat) as [Hj|Hj].
  - destruct (lookup_lt_is_Some_2 l1 j Hj) as [x Hx], (lookup_lt_is_Some_2 l2 j) as [y Hy]; [lia|].
    specialize (Hb j Hj). unfold byte_at in Hb. rewrite Hx, Hy in *. cbn in Hb. congruence.
  - rewrite !(proj2 (lookup_ge_None _ _)) by lia. done.
Qed.

Lemma length_get_bytes b off m :
  (off + m ≤ length b)%nat → length (get_bytes b off m) = m.
Proof. intros. unfold get_bytes. rewrite length_take, length_drop. lia. Qed.

Lemma get_word_zero n i : get_word (replicate n 0) i = 0.
Proof.
  assert (∀ j, byte_at (replicate n 0) j = 0) as H.
  { intros j. unfold byte_at. destruct (_ !! j) eqn:E; [|done].
    by apply lookup_replicate in E as [-> _]. }
  unfold get_word. by rewrite !H.
Qed.

Lemma get_word_zero_block i : get_word zero_block i = 0.
Proof. apply get_word_zero. Qed.

Lemma zero_block_bytes : bytes_ok zero_block.
Proof. apply Forall_replicate. unfold is_byte. lia. Qed.
End words.

#[global] Opaque get_word put_word get_half put_half put_bytes get_bytes zero_block.
#[export] Hint Rewrite length_put_word length_put_half length_put_bytes : len.
