(* ===== verification/Bio.v ===== *)
(** * The storage stack: the buffer cache (bio.c) over the memory disk (memide.c)

    The state of bio.c, memide.c and log.c is one record, [storage].  The buffer
    cache's operations are here; log.c is in [Log]. *)
From S2P Require Import Prelude Params Block.

(** ** Sleep locks (sleeplock.h, sleeplock.c)

    The spin lock inside a sleep lock is taken and released within each of the
    functions; what remains is the flag and the holder. *)
Record sleeplock := mksleeplock {
  sl_locked : bool;
  sl_pid : Z  (* process holding the lock *)
}.

Definition set_sl_locked (v : bool) (r : sleeplock) : sleeplock :=
  mksleeplock v (sl_pid r).
Definition set_sl_pid (v : Z) (r : sleeplock) : sleeplock :=
  mksleeplock (sl_locked r) v.

Definition initsleeplock : sleeplock := mksleeplock false 0.

(** [struct buf] (buf.h).  [flags] is its two bits, B_VALID and B_DIRTY; the
    links prev and next are the order of [lru] below. *)
Record buf := mkbuf {
  b_valid : bool;  (* flags & B_VALID *)
  b_dirty : bool;  (* flags & B_DIRTY *)
  b_dev : Z;
  b_blockno : Z;
  b_lock : sleeplock;
  b_refcnt : Z;
  b_data : list Z
}.

Definition set_b_valid (v : bool) (r : buf) : buf :=
  mkbuf v (b_dirty r) (b_dev r) (b_blockno r) (b_lock r) (b_refcnt r) (b_data r).
Definition set_b_dirty (v : bool) (r : buf) : buf :=
  mkbuf (b_valid r) v (b_dev r) (b_blockno r) (b_lock r) (b_refcnt r) (b_data r).
Definition set_b_dev (v : Z) (r : buf) : buf :=
  mkbuf (b_valid r) (b_dirty r) v (b_blockno r) (b_lock r) (b_refcnt r) (b_data r).
Definition set_b_blockno (v : Z) (r : buf) : buf :=
  mkbuf (b_valid r) (b_dirty r) (b_dev r) v (b_lock r) (b_refcnt r) (b_data r).
Definition set_b_lock (v : sleeplock) (r : buf) : buf :=
  mkbuf (b_valid r) (b_dirty r) (b_dev r) (b_blockno r) v (b_refcnt r) (b_data r).
Definition set_b_refcnt (v : Z) (r : buf) : buf :=
  mkbuf (b_valid r) (b_dirty r) (b_dev r) (b_blockno r) (b_lock r) v (b_data r).
Definition set_b_data (v : list Z) (r : buf) : buf :=
  mkbuf (b_valid r) (b_dirty r) (b_dev r) (b_blockno r) (b_lock r) (b_refcnt r) v.

(** [struct log] (log.c), with the in-memory [struct logheader]. *)
Record logst := mklogst {
  lg_lock : bool;  (* held by this processor *)
  lg_start : Z;
  lg_size : Z;
  lg_outstanding : Z;
  lg_committing : bool;
  lg_dev : Z;
  lh_n : Z;
  lh_block : list Z  (* LOGSIZE entries *)
}.

Definition set_lg_lock (v : bool) (r : logst) : logst :=
  mklogst v (lg_start r) (lg_size r) (lg_outstanding r) (lg_committing r) (lg_dev r) (lh_n
    r) (lh_block r).
Definition set_lg_start (v : Z) (r : logst) : logst :=
  mklogst (lg_lock r) v (lg_size r) (lg_outstanding r) (lg_committing r) (lg_dev r) (lh_n r)
    (lh_block r).
Definition set_lg_size (v : Z) (r : logst) : logst :=
  mklogst (lg_lock r) (lg_start r) v (lg_outstanding r) (lg_committing r) (lg_dev r) (lh_n
    r) (lh_block r).
Definition set_lg_outstanding (v : Z) (r : logst) : logst :=
  mklogst (lg_lock r) (lg_start r) (lg_size r) v (lg_committing r) (lg_dev r) (lh_n r)
    (lh_block r).
Definition set_lg_committing (v : bool) (r : logst) : logst :=
  mklogst (lg_lock r) (lg_start r) (lg_size r) (lg_outstanding r) v (lg_dev r) (lh_n r)
    (lh_block r).
Definition set_lg_dev (v : Z) (r : logst) : logst :=
  mklogst (lg_lock r) (lg_start r) (lg_size r) (lg_outstanding r) (lg_committing r) v (lh_n
    r) (lh_block r).
Definition set_lh_n (v : Z) (r : logst) : logst :=
  mklogst (lg_lock r) (lg_start r) (lg_size r) (lg_outstanding r) (lg_committing r) (lg_dev
    r) v (lh_block r).
Definition set_lh_block (v : list Z) (r : logst) : logst :=
  mklogst (lg_lock r) (lg_start r) (lg_size r) (lg_outstanding r) (lg_committing r) (lg_dev
    r) (lh_n r) v.

(** The state of the storage stack.  [lru] lists the buffers from [head.next]
    on; [memdisk] is the disk; [wtrace] records, oldest first, every write of a
    block to the disk, and [wakeups] every call of [wakeup]; [cur_pid] is
    [myproc()->pid]. *)
Record storage := mkstorage {
  bufs : list buf;  (* bcache.buf *)
  lru : list nat;
  bcache_lock : bool;
  memdisk : gmap Z block;
  disksize : Z;
  wtrace : list (Z * block);
  wakeups : list chan;
  cur_pid : Z;
  lg : logst  (* log *)
}.

Definition set_bufs (v : list buf) (r : storage) : storage :=
  mkstorage v (lru r) (bcache_lock r) (memdisk r) (disksize r) (wtrace r) (wakeups r)
    (cur_pid r) (lg r).
Definition set_lru (v : list nat) (r : storage) : storage :=
  mkstorage (bufs r) v (bcache_lock r) (memdisk r) (disksize r) (wtrace r) (wakeups r)
    (cur_pid r) (lg r).
Definition set_bcache_lock (v : bool) (r : storage) : storage :=
  mkstorage (bufs r) (lru r) v (memdisk r) (disksize r) (wtrace r) (wakeups r) (cur_pid r)
    (lg r).
Definition set_memdisk (v : gmap Z block) (r : storage) : storage :=
  mkstorage (bufs r) (lru r) (bcache_lock r) v (disksize r) (wtrace r) (wakeups r) (cur_pid
    r) (lg r).
Definition set_disksize (v : Z) (r : storage) : storage :=
  mkstorage (bufs r) (lru r) (bcache_lock r) (memdisk r) v (wtrace r) (wakeups r) (cur_pid
    r) (lg r).
Definition set_wtrace (v : list (Z * block)) (r : storage) : storage :=
  mkstorage (bufs r) (lru r) (bcache_lock r) (memdisk r) (disksize r) v (wakeups r) (cur_pid
    r) (lg r).
Definition set_wakeups (v : list chan) (r : storage) : storage :=
  mkstorage (bufs r) (lru r) (bcache_lock r) (memdisk r) (disksize r) (wtrace r) v (cur_pid
    r) (lg r).
Definition set_cur_pid (v : Z) (r : storage) : storage :=
  mkstorage (bufs r) (lru r) (bcache_lock r) (memdisk r) (disksize r) (wtrace r) (wakeups r)
    v (lg r).
Definition set_lg (v : logst) (r : storage) : storage :=
  mkstorage (bufs r) (lru r) (bcache_lock r) (memdisk r) (disksize r) (wtrace r) (wakeups r)
    (cur_pid r) v.

Definition disk_block (d : gmap Z block) (b : Z) : block := default zero_block (d !! b).

(** ** Access *)
Definition getb (i : nat) : M storage buf := λ s,
  match bufs s !! i with Some b => Ret b s | None => Fault end.

Definition updb (i : nat) (f : buf → buf) : M storage unit := λ s,
  match bufs s !! i with
  | Some b => Ret tt (set_bufs (<[i := f b]> (bufs s)) s)
  | None => Fault
  end.

Definition acquire_bcache : M storage unit := λ s,
  if bcache_lock s then Panic "acquire" else Ret tt (set_bcache_lock true s).
Definition release_bcache : M storage unit := λ s,
  if bcache_lock s then Ret tt (set_bcache_lock false s) else Panic "release".

Definition st_wakeup (c : chan) : M storage unit :=
  modify (λ s, set_wakeups (wakeups s ++ [c]) s).

(** ** sleeplock.c, on the lock of a buffer *)
Definition acquiresleep_buf (i : nat) : M storage unit :=
  b ← getb i;
  if sl_locked (b_lock b) then go_to_sleep (ChBuf i) else
  pid ← gets cur_pid;
  updb i (set_b_lock (mksleeplock true pid)).

Definition releasesleep_buf (i : nat) : M storage unit :=
  updb i (set_b_lock (mksleeplock false 0));;
  st_wakeup (ChBuf i).

Definition holdingsleep_buf (i : nat) : M storage bool :=
  b ← getb i;
  pid ← gets cur_pid;
  mret (sl_locked (b_lock b) && (sl_pid (b_lock b) =? pid)).

(** ** memide.c *)
Definition iderw (i : nat) : M storage unit :=
  h ← holdingsleep_buf i;
  if negb h then panic "iderw: buf not locked" else
  b ← getb i;
  if b_valid b && negb (b_dirty b) then panic "iderw: nothing to do" else
  if negb (b_dev b =? 1) then panic "iderw: request not for disk 1" else
  n ← gets disksize;
  if n <=? b_blockno b then panic "iderw: block out of range" else
  (if b_dirty b then
     updb i (set_b_dirty false);;
     modify (λ s, set_memdisk (<[b_blockno b := b_data b]> (memdisk s)) s);;
     modify (λ s, set_wtrace (wtrace s ++ [(b_blockno b, b_data b)]) s)
   else
     d ← gets memdisk;
     updb i (set_b_data (disk_block d (b_blockno b))));;
  updb i (set_b_valid true).

(** ** bio.c *)

(** [binit]: each buffer is inserted at the head of the list. *)
Definition binit : M storage unit :=
  modify (set_bcache_lock false);;
  modify (set_lru []);;
  mfor (seq 0 NBUF) (λ i,
    updb i (set_b_lock initsleeplock);;
    modify (λ s, set_lru (i :: lru s) s)).

Definition bget (dev blockno : Z) : M storage nat :=
  acquire_bcache;;
  order ← gets lru;
  (* Is the block already cached? *)
  hit ← mfind order (λ i,
    b ← getb i; mret ((b_dev b =? dev) && (b_blockno b =? blockno)));
  match hit with
  | Some i =>
      updb i (λ b, set_b_refcnt (u32 (b_refcnt b + 1)) b);;
      release_bcache;;
      acquiresleep_buf i;;
      mret i
  | None =>
      (* Not cached; recycle an unused buffer. *)
      victim ← mfind (rev order) (λ i,
        b ← getb i; mret ((b_refcnt b =? 0) && negb (b_dirty b)));
      match victim with
      | Some i =>
          updb i (set_b_dev dev);;
          updb i (set_b_blockno blockno);;
          updb i (λ b, set_b_valid false (set_b_dirty false b));;
          updb i (set_b_refcnt 1);;
          release_bcache;;
          acquiresleep_buf i;;
          mret i
      | None => panic "bget: no buffers"
      end
  end.

(** [blockno] is a uint; the ints that log.c passes are not negative. *)
Definition bread (dev blockno : Z) : M storage nat :=
  i ← bget dev blockno;
  b ← getb i;
  (if negb (b_valid b) then iderw i else mret tt);;
  mret i.

Definition bwrite (i : nat) : M storage unit :=
  h ← holdingsleep_buf i;
  if negb h then panic "bwrite" else
  updb i (set_b_dirty true);;
  iderw i.

Definition brelse (i : nat) : M storage unit :=
  h ← holdingsleep_buf i;
  if negb h then panic "brelse" else
  releasesleep_buf i;;
  acquire_bcache;;
  updb i (λ b, set_b_refcnt (u32 (b_refcnt b - 1)) b);;
  b ← getb i;
  (if b_refcnt b =? 0 then
     modify (λ s, set_lru (i :: filter (.≠ i) (lru s)) s)
   else mret tt);;
  release_bcache.

(** The caller's access to the data of a buffer it holds. *)
Definition buf_data (i : nat) : M storage block := b ← getb i; mret (b_data b).
Definition set_buf_data (i : nat) (d : block) : M storage unit := updb i (set_b_data d).
