(* ===== verification/BioInv.v ===== *)
(** * The buffer cache: invariant, the blocks it presents, and its operations

    [cache_wf] is the invariant of bcache between calls; [view] is the content a
    block has for the kernel: the cached copy if there is one, the disk's
    otherwise.  Each operation is shown equal to an explicit state update, from
    which the preservation of [cache_wf] and the effect on [view] follow. *)
From S2P Require Import Prelude Params Block Bio.

Definition blk_ok (d : block) : Prop := length d = Z.to_nat BSIZE ∧ bytes_ok d.

(** The buffer that caches block [n] of the disk. *)
Definition is_for (n : Z) (b : buf) : Prop := b_dev b = ROOTDEV ∧ b_blockno b = n.

#[export] Instance is_for_dec n b : Decision (is_for n b).
Proof. unfold is_for. apply _. Defined.

Definition spare (b : buf) : Prop := b_refcnt b = 0 ∧ b_dirty b = false.

#[export] Instance spare_dec b : Decision (spare b).
Proof. unfold spare. apply _. Defined.

Definition spares (s : storage) : nat := length (filter spare (bufs s)).

Definition view (s : storage) (n : Z) : block :=
  match list_find (is_for n) (bufs s) with
  | Some (_, b) => b_data b
  | None => disk_block (memdisk s) n
  end.

(** One buffer.  A buffer holds no block ([dev] = 0) or a block of the disk; no
    process waits for it, so its reference count tells whether it is locked; and
    when it is neither locked nor dirty it agrees with the disk. *)
Record buf_wf (s : storage) (b : buf) : Prop := {
  bw_refcnt : b_refcnt b = if sl_locked (b_lock b) then 1 else 0;
  bw_unused : b_dev b ≠ ROOTDEV → b_dev b = 0 ∧ spare b;
  bw_valid : b_dev b = ROOTDEV → b_valid b = true;
  bw_range : b_dev b = ROOTDEV → 0 <= b_blockno b < disksize s;
  bw_data : b_dev b = ROOTDEV → blk_ok (b_data b);
  bw_clean : b_dev b = ROOTDEV → b_dirty b = false → sl_locked (b_lock b) = false →
    b_data b = disk_block (memdisk s) (b_blockno b);
}.

Record cache_wf (s : storage) : Prop := {
  cw_len : length (bufs s) = NBUF;
  cw_lru : lru s ≡ₚ seq 0 NBUF;
  cw_lock : bcache_lock s = false;
  cw_buf : ∀ (i : nat) b, bufs s !! i = Some b → buf_wf s b;
  cw_uniq : ∀ (i j : nat) bi bj, bufs s !! i = Some bi → bufs s !! j = Some bj →
    ∀ n, is_for n bi → is_for n bj → i = j;
  cw_disk : ∀ n, blk_ok (disk_block (memdisk s) n);
}.

(** The calling process holds buffer [i], which caches block [n]. *)
Definition holds (s : storage) (i : nat) (n : Z) : Prop :=
  ∃ b, bufs s !! i = Some b ∧ is_for n b ∧ b_lock b = mksleeplock true (cur_pid s).

(** The buffer of block [n] satisfies [Q]. *)
Definition tag (Q : buf → Prop) (s : storage) (n : Z) : Prop :=
  ∃ (i : nat) b, bufs s !! i = Some b ∧ is_for n b ∧ Q b.

(** Some process holds the buffer of block [n]. *)
Definition busy : storage → Z → Prop := tag (λ b, sl_locked (b_lock b) = true).

(** Block [n] has been modified in the cache and is not yet on the disk. *)
Definition pinned : storage → Z → Prop := tag (λ b, b_dirty b = true).

Definition cached (s : storage) (n : Z) : Prop :=
  ∃ (i : nat) b, bufs s !! i = Some b ∧ is_for n b.

Section lemmas.
Implicit Types s : storage.

Lemma view_cached s i b n :
  cache_wf s → bufs s !! i = Some b → is_for n b → view s n = b_data b.
Proof.
  intros Hwf Hi Hn. unfold view.
  destruct (list_find_lookup (is_for n) (bufs s) i b Hi Hn) as (j & b' & -> & Hj & Hb').
  rewrite (cw_uniq s Hwf i j b b' Hi Hj n Hn Hb') in Hi. by simplify_eq.
Qed.

Lemma view_uncached s n : ¬ cached s n → view s n = disk_block (memdisk s) n.
Proof.
  intros Hn. unfold view. destruct (list_find _ _) as [[i b]|] eqn:E; [|done].
  apply list_find_Some in E as (?&?&_). destruct Hn. by exists i, b.
Qed.

Lemma cached_dec_find s n :
  cached s n ∨ (¬ cached s n ∧ list_find (is_for n) (bufs s) = None).
Proof.
  destruct (list_find (is_for n) (bufs s)) as [[i b]|] eqn:E.
  - left. apply list_find_Some in E as (?&?&_). by exists i, b.
  - right. split; [|done]. intros (i & b & Hi & Hb).
    destruct (list_find_lookup (is_for n) (bufs s) i b Hi Hb) as (?&?&?&_). congruence.
Qed.

Lemma view_ok s n : cache_wf s → blk_ok (view s n).
Proof.
  intros Hwf. destruct (cached_dec_find s n) as [(i & b & Hi & Hb)|[Hn _]].
  - rewrite (view_cached s i b) by done. by apply (bw_data s); [eapply cw_buf|apply Hb].
  - rewrite view_uncached by done. by apply cw_disk.
Qed.

(** A quiet block agrees with the disk. *)
Lemma view_disk s n : cache_wf s → ¬ pinned s n → ¬ busy s n →
  view s n = disk_block (memdisk s) n.
Proof.
  intros Hwf Hp Hb. destruct (cached_dec_find s n) as [(i & b & Hi & Hn)|[Hn _]];
    [|by apply view_uncached].
  rewrite (view_cached s i b) by done. destruct Hn as [Hd <-].
  apply (bw_clean s); [by eapply cw_buf|done| |].
  - apply not_true_is_false. intros ?. apply Hp. by exists i, b.
  - apply not_true_is_false. intros ?. apply Hb. by exists i, b.
Qed.

(** *** Equations of the accessors *)
Lemma getb_eq s i b : bufs s !! i = Some b → getb i s = Ret b s.
Proof. intros H. unfold getb. by rewrite H. Qed.

Lemma updb_eq s i b f : bufs s !! i = Some b →
  updb i f s = Ret tt (set_bufs (<[i := f b]> (bufs s)) s).
Proof. intros H. unfold updb. by rewrite H. Qed.

Lemma holdingsleep_eq s i b : bufs s !! i = Some b →
  b_lock b = mksleeplock true (cur_pid s) → holdingsleep_buf i s = Ret true s.
Proof.
  intros Hi Hl. unfold holdingsleep_buf. rewrite (bind_ret _ _ _ _ _ (getb_eq s i b Hi)).
  rewrite bind_gets. rewrite Hl. simpl. by rewrite Z.eqb_refl.
Qed.

Lemma lru_lookup s i : cache_wf s → i ∈ lru s → is_Some (bufs s !! i).
Proof.
  intros Hwf Hi. apply lookup_lt_is_Some. rewrite (cw_len s Hwf).
  rewrite (cw_lru s Hwf) in Hi. apply elem_of_seq in Hi. lia.
Qed.

(** A search of the list of buffers finds a buffer that satisfies [f] exactly
    when there is one. *)
Lemma scan_bufs s (f : buf → bool) (order : list nat) :
  cache_wf s → order ≡ₚ lru s →
  (∃ i b, mfind order (λ i, b ← getb i; mret (f b)) s = Ret (Some i) s
     ∧ bufs s !! i = Some b ∧ f b = true)
  ∨ (mfind order (λ i, b ← getb i; mret (f b)) s = Ret None s
     ∧ ∀ (i : nat) b, bufs s !! i = Some b → f b = false).
Proof.
  intros Hwf Hp.
  assert (∀ i, i ∈ order → is_Some (bufs s !! i)) as Hin.
  { intros i. rewrite Hp. by apply lru_lookup. }
  rewrite (mfind_pure _ _ (λ i, match bufs s !! i with Some b => f b | None => false end)).
  2:{ intros i Hi. destruct (Hin i Hi) as [b Hb].
      by rewrite (bind_ret _ _ _ _ _ (getb_eq s i b Hb)), Hb. }
  destruct (List.find _ order) as [i|] eqn:E.
  - left. apply find_some in E as [Hi Hf]. destruct (bufs s !! i) as [b|] eqn:Hb; [|done].
    by exists i, b.
  - right. split; [done|]. intros i b Hb. pose proof (find_none _ _ E i) as Hn.
    simpl in Hn. rewrite Hb in Hn. apply Hn. apply list_elem_of_In. rewrite Hp, (cw_lru s Hwf).
    apply elem_of_seq. apply lookup_lt_Some in Hb. rewrite (cw_len s Hwf) in Hb. lia.
Qed.
End lemmas.

(** ** The operations as state updates *)

(** The buffer [bread] hands out for block [n]. *)
Definition got (s : storage) (n : Z) (dirty : bool) : buf :=
  mkbuf true dirty ROOTDEV n (mksleeplock true (cur_pid s)) 1 (view s n).

Section operations.
Implicit Types s : storage.

Lemma acquire_bcache_eq s : bcache_lock s = false →
  acquire_bcache s = Ret tt (set_bcache_lock true s).
Proof. intros H. unfold acquire_bcache. by rewrite H. Qed.

Lemma release_bcache_eq s : bcache_lock s = true →
  release_bcache s = Ret tt (set_bcache_lock false s).
Proof. intros H. unfold release_bcache. by rewrite H. Qed.

Lemma acquiresleep_eq s i b : bufs s !! i = Some b → sl_locked (b_lock b) = false →
  acquiresleep_buf i s
  = Ret tt (set_bufs (<[i := set_b_lock (mksleeplock true (cur_pid s)) b]> (bufs s)) s).
Proof.
  intros Hi Hl. unfold acquiresleep_buf. rewrite (bind_ret _ _ _ _ _ (getb_eq s i b Hi)).
  rewrite Hl, bind_gets. by apply updb_eq.
Qed.

(** The scans run with the lock held, which they do not look at. *)
Lemma scan_locked s (f : buf → bool) (order : list nat) o :
  mfind order (λ i, b ← getb i; mret (f b)) s = Ret o s →
  mfind order (λ i, b ← getb i; mret (f b)) (set_bcache_lock true s)
  = Ret o (set_bcache_lock true s).
Proof.
  revert o. induction order as [|i order IH]; intros o; simpl;
    unfold getb, mbind, M_bind, mret, M_ret; simpl; [congruence|].
  destruct (bufs s !! i) as [b|]; [|done]. destruct (f b); [congruence|]. apply IH.
Qed.

Definition hit_test (n : Z) (b : buf) : bool := (b_dev b =? ROOTDEV) && (b_blockno b =? n).
Definition spare_test (b : buf) : bool := (b_refcnt b =? 0) && negb (b_dirty b).

Lemma hit_test_spec n b : hit_test n b = true ↔ is_for n b.
Proof. unfold hit_test, is_for. rewrite andb_true_iff, !Z.eqb_eq. done. Qed.

Lemma spare_test_spec b : spare_test b = true ↔ spare b.
Proof. unfold spare_test, spare. rewrite andb_true_iff, Z.eqb_eq, negb_true_iff. done. Qed.

Lemma bget_hit s n :
  cache_wf s → cached s n → ¬ busy s n →
  ∃ i b, bufs s !! i = Some b ∧ is_for n b ∧
    bget ROOTDEV n s = Ret i (set_bufs (<[i := got s n (b_dirty b)]> (bufs s)) s).
Proof.
  intros Hwf Hc Hb. unfold bget.
  rewrite (bind_ret _ _ _ _ _ (acquire_bcache_eq s (cw_lock s Hwf))), bind_gets.
  change (lru (set_bcache_lock true s)) with (lru s).
  destruct (scan_bufs s (hit_test n) (lru s) Hwf ltac:(done))
    as [(i & b & Hf & Hi & Ht)|[_ Hno]].
  2:{ destruct Hc as (i & b & Hi & Hn). apply hit_test_spec in Hn.
      specialize (Hno i b Hi). congruence. }
  apply hit_test_spec in Ht as Hn. exists i, b. split_and!; [done..|].
  rewrite (bind_ret _ _ _ _ _ (scan_locked s _ _ _ Hf)). cbn beta iota.
  assert (sl_locked (b_lock b) = false) as Hl.
  { apply not_true_is_false. intros ?. apply Hb. by exists i, b. }
  pose proof (cw_buf s Hwf i b Hi) as Hbw. pose proof (bw_refcnt s b Hbw) as Hr.
  rewrite Hl in Hr. pose proof (lookup_lt_Some _ _ _ Hi) as Hlt.
  rewrite (bind_ret _ _ _ _ _ (updb_eq (set_bcache_lock true s) i b _ Hi)).
  erewrite bind_ret by (by apply release_bcache_eq).
  erewrite bind_ret by (eapply acquiresleep_eq; cbn; [by apply list_lookup_insert_eq|done]). cbn.
  rewrite list_insert_insert_eq. unfold got. rewrite (view_cached s i b) by done.
  pose proof (bw_valid _ _ Hbw (proj1 Hn)) as Hv. pose proof (cw_lock s Hwf).
  destruct s, b, Hn. cbn in *. by subst.
Qed.

Lemma bget_miss s n :
  cache_wf s → ¬ cached s n → (0 < spares s)%nat →
  ∃ i b, bufs s !! i = Some b ∧ spare b ∧
    bget ROOTDEV n s = Ret i (set_bufs (<[i := mkbuf false false ROOTDEV n
      (mksleeplock true (cur_pid s)) 1 (b_data b)]> (bufs s)) s).
Proof.
  intros Hwf Hc Hs. unfold bget.
  rewrite (bind_ret _ _ _ _ _ (acquire_bcache_eq s (cw_lock s Hwf))), bind_gets.
  change (lru (set_bcache_lock true s)) with (lru s).
  destruct (scan_bufs s (hit_test n) (lru s) Hwf ltac:(done))
    as [(i & b & _ & Hi & Ht)|[Hf _]].
  { apply hit_test_spec in Ht. destruct Hc. by exists i, b. }
  rewrite (bind_ret _ _ _ _ _ (scan_locked s _ _ _ Hf)). cbn beta iota. clear Hf.
  destruct (scan_bufs s spare_test (rev (lru s)) Hwf) as [(i & b & Hf & Hi & Ht)|[_ Hno]].
  { rewrite <-(Permutation_rev (lru s)). done. }
  2:{ unfold spares in Hs. destruct (filter spare (bufs s)) as [|b l] eqn:E; [simpl in Hs; lia|].
      assert (b ∈ filter spare (bufs s)) as Hin by (rewrite E; by left).
      apply list_elem_of_filter in Hin as [Hsp Hin].
      apply list_elem_of_lookup in Hin as [i Hi]. specialize (Hno i b Hi).
      apply spare_test_spec in Hsp. congruence. }
  apply spare_test_spec in Ht as Hsp. exists i, b. split_and!; [done..|].
  rewrite (bind_ret _ _ _ _ _ (scan_locked s _ _ _ Hf)). cbn beta iota.
  pose proof (bw_refcnt s b (cw_buf s Hwf i b Hi)) as Hr.
  pose proof (lookup_lt_Some _ _ _ Hi) as Hlt. destruct Hsp as [Hr0 Hd].
  assert (sl_locked (b_lock b) = false) as Hl by (destruct (sl_locked _); [lia|done]).
  do 4 (erewrite bind_ret by (apply updb_eq; cbn;
      first [exact Hi|by apply list_lookup_insert_eq]);
    cbn; rewrite ?list_insert_insert_eq).
  erewrite bind_ret by (by apply release_bcache_eq).
  erewrite bind_ret by (eapply acquiresleep_eq; cbn; [by apply list_lookup_insert_eq|done]). cbn.
  rewrite list_insert_insert_eq. pose proof (cw_lock s Hwf).
  destruct s; cbn in *. by subst.
Qed.

(** [iderw] on a buffer just recycled reads the block. *)
Lemma iderw_read s i b n :
  bufs s !! i = Some b → b_valid b = false → b_dirty b = false → is_for n b →
  b_lock b = mksleeplock true (cur_pid s) → n < disksize s →
  iderw i s = Ret tt (set_bufs
    (<[i := set_b_valid true (set_b_data (disk_block (memdisk s) n) b)]> (bufs s)) s).
Proof.
  intros Hi Hv Hd [Hdev Hn] Hl Hr. unfold iderw. pose proof (lookup_lt_Some _ _ _ Hi) as Hlt.
  rewrite (bind_ret _ _ _ _ _ (holdingsleep_eq s i b Hi Hl)). cbn beta iota delta [negb].
  rewrite (bind_ret _ _ _ _ _ (getb_eq s i b Hi)), Hv, Hdev, Hn, Hd. simpl.
  rewrite bind_gets. destruct (Z.leb_spec (disksize s) n); [lia|].
  rewrite bind_assoc, bind_gets.
  rewrite (bind_ret _ _ _ _ _ (updb_eq s i b _ Hi)). cbn.
  erewrite updb_eq by (cbn; by apply list_lookup_insert_eq). cbn.
  by rewrite list_insert_insert_eq.
Qed.

(** [iderw] on a dirty buffer writes the block. *)
Lemma iderw_write s i b n :
  bufs s !! i = Some b → b_dirty b = true → is_for n b →
  b_lock b = mksleeplock true (cur_pid s) → n < disksize s →
  iderw i s = Ret tt
    (set_bufs (<[i := set_b_valid true (set_b_dirty false b)]> (bufs s))
      (set_wtrace (wtrace s ++ [(n, b_data b)])
        (set_memdisk (<[n := b_data b]> (memdisk s)) s))).
Proof.
  intros Hi Hd [Hdev Hn] Hl Hr. unfold iderw. pose proof (lookup_lt_Some _ _ _ Hi) as Hlt.
  rewrite (bind_ret _ _ _ _ _ (holdingsleep_eq s i b Hi Hl)). cbn beta iota delta [negb].
  rewrite (bind_ret _ _ _ _ _ (getb_eq s i b Hi)), Hdev, Hn, Hd, andb_false_r. simpl.
  rewrite bind_gets. destruct (Z.leb_spec (disksize s) n); [lia|].
  rewrite bind_assoc. rewrite (bind_ret _ _ _ _ _ (updb_eq s i b _ Hi)).
  rewrite bind_assoc, !bind_modify. cbn.
  erewrite updb_eq by (cbn; by apply list_lookup_insert_eq). cbn.
  by rewrite list_insert_insert_eq.
Qed.

(** [bread]: one buffer changes; it is locked by the caller and holds the
    block's content. *)
Lemma bread_eq s n :
  cache_wf s → 0 <= n < disksize s → ¬ busy s n → cached s n ∨ (0 < spares s)%nat →
  ∃ i b dirty, bufs s !! i = Some b ∧
    (is_for n b ∧ dirty = b_dirty b ∨ ¬ cached s n ∧ spare b ∧ dirty = false) ∧
    bread ROOTDEV n s = Ret i (set_bufs (<[i := got s n dirty]> (bufs s)) s).
Proof.
  intros Hwf Hn Hb Hsp. unfold bread.
  destruct (cached_dec_find s n) as [Hc|[Hc _]].
  - destruct (bget_hit s n Hwf Hc Hb) as (i & b & Hi & Hf & Heq).
    exists i, b, (b_dirty b). split_and!; [done|by left|].
    pose proof (lookup_lt_Some _ _ _ Hi) as Hlt.
    rewrite (bind_ret _ _ _ _ _ Heq).
    erewrite bind_ret by (apply getb_eq; cbn; by apply list_lookup_insert_eq). done.
  - destruct Hsp as [?|Hsp]; [done|].
    destruct (bget_miss s n Hwf Hc Hsp) as (i & b & Hi & Hf & Heq).
    exists i, b, false. split_and!; [done|by right|].
    pose proof (lookup_lt_Some _ _ _ Hi) as Hlt.
    rewrite (bind_ret _ _ _ _ _ Heq).
    erewrite bind_ret by (apply getb_eq; cbn; by apply list_lookup_insert_eq). cbn [negb b_valid].
    erewrite bind_ret by (eapply (iderw_read _ _ _ n); cbn;
      [by apply list_lookup_insert_eq|done|done|done|done|by apply Hn]).
    cbn. rewrite list_insert_insert_eq. unfold got. by rewrite (view_uncached s n Hc).
Qed.

Lemma bwrite_eq s i b n :
  bufs s !! i = Some b → is_for n b → b_lock b = mksleeplock true (cur_pid s) →
  n < disksize s →
  bwrite i s = Ret tt
    (set_bufs (<[i := set_b_valid true (set_b_dirty false b)]> (bufs s))
      (set_wtrace (wtrace s ++ [(n, b_data b)])
        (set_memdisk (<[n := b_data b]> (memdisk s)) s))).
Proof.
  intros Hi Hn Hl Hr. unfold bwrite. pose proof (lookup_lt_Some _ _ _ Hi) as Hlt.
  rewrite (bind_ret _ _ _ _ _ (holdingsleep_eq s i b Hi Hl)). cbn beta iota delta [negb].
  rewrite (bind_ret _ _ _ _ _ (updb_eq s i b _ Hi)).
  erewrite iderw_write; cbn; [|by apply list_lookup_insert_eq|done|exact Hn|done|done].
  by rewrite list_insert_insert_eq.
Qed.

Lemma brelse_eq s i b :
  bcache_lock s = false → bufs s !! i = Some b → b_refcnt b = 1 →
  b_lock b = mksleeplock true (cur_pid s) →
  brelse i s = Ret tt
    (set_bufs (<[i := set_b_refcnt 0 (set_b_lock initsleeplock b)]> (bufs s))
      (set_lru (i :: filter (.≠ i) (lru s))
        (set_wakeups (wakeups s ++ [ChBuf i]) s))).
Proof.
  intros Hlk Hi Hr Hl. unfold brelse. pose proof (lookup_lt_Some _ _ _ Hi) as Hlt.
  rewrite (bind_ret _ _ _ _ _ (holdingsleep_eq s i b Hi Hl)). cbn beta iota delta [negb].
  unfold releasesleep_buf. rewrite bind_assoc.
  rewrite (bind_ret _ _ _ _ _ (updb_eq s i b _ Hi)). unfold st_wakeup. rewrite bind_modify.
  erewrite bind_ret by (by apply acquire_bcache_eq). cbn.
  erewrite bind_ret by (apply updb_eq; cbn; by apply list_lookup_insert_eq). cbn.
  rewrite !list_insert_insert_eq.
  erewrite bind_ret by (apply getb_eq; cbn; by apply list_lookup_insert_eq). cbn.
  rewrite Hr. cbn -[filter].
  destruct s; cbn in *. by subst.
Qed.
End operations.

(** ** The effect of an update of one buffer *)
Section update.
Context (s : storage) (i : nat) (b b' : buf) (n : Z).
Hypothesis Hwf : cache_wf s.
Hypothesis Hi : bufs s !! i = Some b.
(** The new buffer is for block [n]; the old one was too, or [n] was not cached. *)
Hypothesis Hn' : is_for n b'.
Hypothesis Hn : is_for n b ∨ ¬ cached s n.

Abbreviation s' := (set_bufs (<[i := b']> (bufs s)) s).

Lemma upd_lookup (j : nat) x : bufs s' !! j = Some x → (j = i ∧ x = b') ∨ (j ≠ i ∧ bufs s !! j = Some x).
Proof using Type.
  cbn. intros Hj. apply list_lookup_insert_Some in Hj as [(<-&<-&_)|[??]]; auto.
Qed.

Lemma upd_eq : bufs s' !! i = Some b'.
Proof using Hi. cbn. apply list_lookup_insert_eq. by eapply lookup_lt_Some. Qed.

Lemma upd_ne (j : nat) : j ≠ i → bufs s' !! j = bufs s !! j.
Proof using Type. intros. cbn. by rewrite list_lookup_insert_ne by done. Qed.

(** No other buffer is for [n]. *)
Lemma other_block (j : nat) x m : j ≠ i → bufs s !! j = Some x → is_for m x → m ≠ n.
Proof using Hn Hwf Hi.
  intros Hne Hj Hm ->. destruct Hn as [Hb|Hc].
  - by apply Hne, (cw_uniq s Hwf j i x b Hj Hi n).
  - apply Hc. by exists j, x.
Qed.

Lemma is_for_inj m x : is_for m x → is_for n x → m = n.
Proof using Type. clear. unfold is_for. intros [_ <-] [_ <-]. done. Qed.

Lemma tag_upd (Q : buf → Prop) m :
  (is_for n b ∨ ¬ Q b) →
  tag Q s' m ↔ (m = n ∧ Q b') ∨ (m ≠ n ∧ tag Q s m).
Proof using All.
  intros Hev. split.
  - intros (j & x & Hj & Hm & HQ). apply upd_lookup in Hj as [[-> ->]|[Hne Hj]].
    + left. by split; [eapply is_for_inj|].
    + right. split; [by eapply other_block|]. by exists j, x.
  - intros [[-> HQ]|[Hne (j & x & Hj & Hm & HQ)]].
    + exists i, b'. split; [apply upd_eq|done].
    + exists j, x. rewrite upd_ne; [done|]. intros ->. assert (x = b) as -> by congruence.
      destruct Hev as [Hb|?]; [|done]. by apply Hne, (is_for_inj m b).
Qed.

Lemma cache_wf_upd : buf_wf s b' → cache_wf s'.
Proof using All.
  intros Hb'. destruct Hwf as [H1 H2 H3 H4 H5 H6]. split; try done.
  - cbn. by rewrite length_insert.
  - intros j x Hj. apply upd_lookup in Hj as [[-> ->]|[_ Hj]].
    + by destruct Hb'; split.
    + by destruct (H4 j x Hj); split.
  - intros j k x y Hj Hk m Hx Hy.
    apply upd_lookup in Hj as [[-> ->]|[Hne1 Hj]]; apply upd_lookup in Hk as [[-> ->]|[Hne2 Hk]].
    + done.
    + destruct (other_block k y m); [done..|]. by apply (is_for_inj m b').
    + destruct (other_block j x m); [done..|]. by apply (is_for_inj m b').
    + by eapply H5.
Qed.

(** Blocks other than [n] look as before, if the recycled buffer agreed with the
    disk. *)
Lemma view_upd m :
  buf_wf s b' → (is_for n b ∨ spare b) →
  view s' m = if decide (m = n) then b_data b' else view s m.
Proof using All.
  intros Hb' Hev. pose proof (cache_wf_upd Hb') as Hwf'. case_decide as Hm.
  - subst m. apply (view_cached s' i); [done|apply upd_eq|done].
  - destruct (cached_dec_find s m) as [(j & x & Hj & Hx)|[Hc _]].
    + destruct (decide (j = i)) as [->|Hne].
      * assert (x = b) as -> by congruence. destruct Hev as [?|Hsp];
          [by destruct Hm; eapply is_for_inj|].
        rewrite view_uncached; [|].
        -- rewrite (view_cached s i b m) by done. destruct Hx as [Hd <-]. symmetry.
           pose proof (cw_buf s Hwf i b Hi) as Hb. apply (bw_clean s b Hb Hd).
           ++ apply Hsp.
           ++ pose proof (bw_refcnt s b Hb) as Hr. destruct Hsp as [Hr0 _].
              destruct (sl_locked _); [lia|done].
        -- intros (k & y & Hk & Hy). apply upd_lookup in Hk as [[-> ->]|[Hne Hk]].
           ++ by destruct Hm; apply (is_for_inj m b').
           ++ by eapply Hne, (cw_uniq s Hwf k i y b).
      * rewrite (view_cached s j x), (view_cached s' j x); [done|done|by rewrite upd_ne|done..].
    + rewrite (view_uncached s), (view_uncached s'); [done| |done].
      intros (k & y & Hk & Hy). apply upd_lookup in Hk as [[-> ->]|[Hne Hk]].
      * by destruct Hm; apply (is_for_inj m b').
      * apply Hc. by exists k, y.
Qed.

Lemma holds_upd j m :
  sl_locked (b_lock b') = true → b_lock b' = mksleeplock true (cur_pid s) →
  (¬ holds s i m) → holds s' j m ↔ (j = i ∧ m = n) ∨ holds s j m.
Proof using All.
  intros Hl Hl' Hno. split.
  - intros (x & Hj & Hm & HQ). apply upd_lookup in Hj as [[-> ->]|[Hne Hj]].
    + left. split; [done|]. by eapply is_for_inj.
    + right. by exists x.
  - intros [[-> ->]|(x & Hj & Hm & HQ)].
    + exists b'. split; [apply upd_eq|done].
    + exists x. rewrite upd_ne; [done|]. intros ->. apply Hno. by exists x.
Qed.
End update.

(** Counting the spare buffers. *)
Lemma length_filter_insert {A} (P : A → Prop) `{!∀ x, Decision (P x)} (l : list A) (i : nat) x y :
  l !! i = Some x →
  (length (filter P (<[i := y]> l)) + (if decide (P x) then 1 else 0)
   = length (filter P l) + (if decide (P y) then 1 else 0))%nat.
Proof.
  revert i. induction l as [|z l IH]; intros [|i] Hi; simplify_eq/=.
  - rewrite !filter_cons. repeat case_decide; simpl; lia.
  - specialize (IH i Hi). rewrite !filter_cons. repeat case_decide; simpl in *; lia.
Qed.

Lemma spares_upd s i b b' : bufs s !! i = Some b →
  (spares (set_bufs (<[i := b']> (bufs s)) s) + (if decide (spare b) then 1 else 0)
   = spares s + (if decide (spare b') then 1 else 0))%nat.
Proof. intros Hi. unfold spares. cbn [bufs set_bufs]. by apply length_filter_insert. Qed.
