(* ===== verification/BioSpec.v ===== *)
(** * What the buffer cache promises its clients

    Each operation in terms of [view] (the content of the blocks), [holds] (the
    buffers the caller has locked), [busy] and [pinned] blocks, and the number of
    spare buffers.  log.c and fs.c are verified against these specifications. *)
From S2P Require Import Prelude Params Block Bio BioInv.

(** The part of the state the buffer cache does not touch. *)
Record bio_same (s s' : storage) : Prop := {
  same_lg : lg s' = lg s;
  same_pid : cur_pid s' = cur_pid s;
  same_size : disksize s' = disksize s;
}.

Record bread_post (s : storage) (n : Z) (i : nat) (s' : storage) : Prop := {
  br_wf : cache_wf s';
  br_same : bio_same s s';
  br_fresh : ∀ m, ¬ holds s i m;
  br_holds : ∀ j m, holds s' j m ↔ (j = i ∧ m = n) ∨ holds s j m;
  br_view : ∀ m, view s' m = view s m;
  br_disk : memdisk s' = memdisk s;
  br_trace : wtrace s' = wtrace s;
  br_pinned : ∀ m, pinned s' m ↔ pinned s m;
  br_busy : ∀ m, busy s' m ↔ m = n ∨ busy s m;
  br_spares : (spares s ≤ S (spares s'))%nat;
  br_spares_pinned : pinned s n → spares s' = spares s;
}.

Record bwrite_post (s : storage) (n : Z) (s' : storage) : Prop := {
  bwr_wf : cache_wf s';
  bwr_same : bio_same s s';
  bwr_holds : ∀ j m, holds s' j m ↔ holds s j m;
  bwr_view : ∀ m, view s' m = view s m;
  bwr_disk : memdisk s' = <[n := view s n]> (memdisk s);
  bwr_trace : wtrace s' = wtrace s ++ [(n, view s n)];
  bwr_pinned : ∀ m, pinned s' m ↔ m ≠ n ∧ pinned s m;
  bwr_busy : ∀ m, busy s' m ↔ busy s m;
  bwr_spares : spares s' = spares s;
}.

Record brelse_post (s : storage) (i : nat) (n : Z) (s' : storage) : Prop := {
  brl_wf : cache_wf s';
  brl_same : bio_same s s';
  brl_holds : ∀ j m, holds s' j m ↔ j ≠ i ∧ holds s j m;
  brl_view : ∀ m, view s' m = view s m;
  brl_disk : memdisk s' = memdisk s;
  brl_trace : wtrace s' = wtrace s;
  brl_pinned : ∀ m, pinned s' m ↔ pinned s m;
  brl_busy : ∀ m, busy s' m ↔ m ≠ n ∧ busy s m;
  brl_spares : (spares s ≤ spares s')%nat;
  brl_spares_clean : ¬ pinned s n → spares s' = S (spares s);
}.

Record edit_post (s : storage) (n : Z) (d : block) (s' : storage) : Prop := {
  ed_wf : cache_wf s';
  ed_same : bio_same s s';
  ed_holds : ∀ j m, holds s' j m ↔ holds s j m;
  ed_view : ∀ m, view s' m = if decide (m = n) then d else view s m;
  ed_disk : memdisk s' = memdisk s;
  ed_trace : wtrace s' = wtrace s;
  ed_pinned : ∀ m, pinned s' m ↔ pinned s m;
  ed_busy : ∀ m, busy s' m ↔ busy s m;
  ed_spares : spares s' = spares s;
}.

Section specs.
Implicit Types (s : storage) (n m : Z) (i j : nat).

Lemma holds_busy s i n : holds s i n → busy s n.
Proof. intros (b & Hi & Hn & Hl). exists i, b. split_and!; [done..|]. by rewrite Hl. Qed.

Lemma holds_inj s i j n : cache_wf s → holds s i n → holds s j n → i = j.
Proof. intros Hwf (b & Hi & Hb & _) (b' & Hj & Hb' & _). by eapply (cw_uniq s Hwf). Qed.

Lemma holds_fun s i n m : holds s i n → holds s i m → n = m.
Proof. unfold holds, is_for. naive_solver. Qed.

(** The same buffer, still for block [n], with the lock and the reference count
    of the one before: what remains to show of a specification. *)
Lemma held_refcnt s i b n :
  cache_wf s → bufs s !! i = Some b → b_lock b = mksleeplock true (cur_pid s) → b_refcnt b = 1.
Proof.
  intros Hwf Hi Hl. pose proof (bw_refcnt s b (cw_buf s Hwf i b Hi)) as Hr.
  by rewrite Hl in Hr.
Qed.

Lemma bread_spec s n :
  cache_wf s → 0 <= n < disksize s → ¬ busy s n → cached s n ∨ (0 < spares s)%nat →
  returns (bread ROOTDEV n) s (bread_post s n).
Proof.
  intros Hwf Hr Hb Hsp.
  destruct (bread_eq s n Hwf Hr Hb Hsp) as (i & b & dirty & Hi & Hcase & Heq).
  apply returns_eq. do 2 eexists. split; [exact Heq|].
  pose proof (cw_buf s Hwf i b Hi) as Hbw.
  assert (sl_locked (b_lock b) = false) as Hl.
  { destruct Hcase as [[Hn _]|(_ & [Hr0 _] & _)].
    - apply not_true_is_false. intros ?. apply Hb. by exists i, b.
    - pose proof (bw_refcnt s b Hbw). destruct (sl_locked _); [lia|done]. }
  assert (buf_wf s (got s n dirty)) as Hbw'.
  { split; try done. intros _. by apply view_ok. }
  assert (is_for n (got s n dirty)) as Hn' by done.
  assert (is_for n b ∨ ¬ cached s n) as Hn by naive_solver.
  assert (is_for n b ∨ spare b) as Hev by naive_solver.
  split; try done.
  - by eapply cache_wf_upd.
  - intros m (x & Hx & _ & Hlx). simplify_eq. rewrite Hlx in Hl. done.
  - intros j m. apply holds_upd with (b := b) (n := n); try done.
    intros (x & Hx & _ & Hlx). simplify_eq. by rewrite Hlx in Hl.
  - intros m. rewrite view_upd with (b := b) (n := n) by done.
    case_decide as Hm; [|done]. by rewrite Hm.
  - intros m. unfold pinned. rewrite tag_upd with (b := b) (n := n); [|done..|].
    + destruct (decide (m = n)) as [->|?]; [|naive_solver].
      split; [intros [[_ Hd]|[? _]]; [|done]|intros (j & x & Hj & Hx & Hd); left; split; [done|]].
      * destruct Hcase as [[? ->]|(_ & _ & ->)]; [|done]. by exists i, b.
      * destruct Hcase as [[? ->]|(Hc & _ & ->)]; [|destruct Hc; by exists j, x].
        assert (j = i) as -> by (by eapply (cw_uniq s Hwf)). simpl. by simplify_eq.
    + destruct Hcase as [[? ?]|(_ & [_ ?] & _)]; [by left|right; congruence].
  - intros m. unfold busy. rewrite tag_upd with (b := b) (n := n); [|done..|right; congruence].
    destruct (decide (m = n)) as [->|?]; naive_solver.
  - pose proof (spares_upd s i b (got s n dirty) Hi). repeat case_decide; lia.
  - intros (j & x & Hj & Hx & Hd). destruct Hcase as [[Hb' _]|(Hc & _ & _)].
    + assert (j = i) as -> by (by eapply (cw_uniq s Hwf)). assert (x = b) as -> by congruence.
      pose proof (spares_upd s i b (got s n dirty) Hi) as Hc.
      rewrite (decide_False (P := spare b)) in Hc by (intros [??]; congruence).
      rewrite decide_False in Hc by (by intros [??]). lia.
    + destruct Hc. by exists j, x.
Qed.

(** A held buffer replaced by one with the same block, lock and count. *)
Section held.
Context (s : storage) (i : nat) (b b' : buf) (n : Z).
Hypothesis Hwf : cache_wf s.
Hypothesis Hi : bufs s !! i = Some b.
Hypothesis Hn : is_for n b.
Hypothesis Hl : b_lock b = mksleeplock true (cur_pid s).
Hypothesis Hn' : is_for n b'.
Hypothesis Hl' : b_lock b' = b_lock b.
Hypothesis Hr' : b_refcnt b' = b_refcnt b.
Hypothesis Hv' : b_valid b' = true.
Hypothesis Hd' : blk_ok (b_data b').

Abbreviation s' := (set_bufs (<[i := b']> (bufs s)) s).

Lemma held_buf_wf : buf_wf s b'.
Proof using All.
  pose proof (cw_buf s Hwf i b Hi) as Hbw. destruct Hn' as [Hdev Hno]. split; try done.
  - rewrite Hr', Hl'. apply Hbw.
  - intros _. rewrite Hno. destruct Hn as [? <-]. by apply (bw_range s b Hbw).
  - intros _ _ Hc. by rewrite Hl', Hl in Hc.
Qed.

Lemma held_wf : cache_wf s'.
Proof using All. apply (cache_wf_upd s i b b' n); [done..|by left|by apply held_buf_wf]. Qed.

Lemma held_holds j m : holds s' j m ↔ holds s j m.
Proof using All.
  rewrite <-Hl' in Hl. split.
  - intros (x & Hj & Hm & HQ). apply upd_lookup in Hj as [[-> ->]|[Hne Hj]]; [|by exists x].
    exists b. rewrite <-Hl'. split; [done|]. split; [|done].
    destruct Hn, Hn', Hm. split; congruence.
  - intros (x & Hj & Hm & HQ). destruct (decide (j = i)) as [->|Hne].
    + exists b'. rewrite (upd_eq s i b) by done. split; [done|]. split; [|done].
      assert (x = b) as -> by congruence. destruct Hn, Hn', Hm. split; congruence.
    + exists x. by rewrite upd_ne.
Qed.

Lemma held_view m : view s' m = if decide (m = n) then b_data b' else view s m.
Proof using All.
  apply (view_upd s i b b' n); [done..|by left|by apply held_buf_wf|by left].
Qed.

Lemma held_tag Q m : tag Q s' m ↔ (m = n ∧ Q b') ∨ (m ≠ n ∧ tag Q s m).
Proof using All. apply (tag_upd s i b b' n); [done..|by left|by left]. Qed.

Lemma held_tag_same Q m : (Q b' ↔ Q b) → tag Q s' m ↔ tag Q s m.
Proof using All.
  intros HQ. rewrite held_tag. destruct (decide (m = n)) as [->|?]; [|naive_solver].
  split; [intros [[_ ?]|[? _]]; [|done]; exists i, b; naive_solver|].
  intros (j & x & Hj & Hx & ?). left. split; [done|].
  assert (j = i) as -> by (by eapply (cw_uniq s Hwf)).
  assert (x = b) as -> by congruence. by apply HQ.
Qed.

Lemma held_spares : spares s' = spares s.
Proof using All.
  pose proof (spares_upd s i b b' Hi) as Hc. assert (b_refcnt b = 1) by (by eapply held_refcnt).
  rewrite !decide_False in Hc by (unfold spare; lia). lia.
Qed.
End held.

Lemma edit_spec s i n d :
  cache_wf s → holds s i n → blk_ok d →
  returns (set_buf_data i d) s (λ _, edit_post s n d).
Proof.
  intros Hwf (b & Hi & Hn & Hl) Hd. unfold set_buf_data. apply returns_eq. do 2 eexists.
  split; [by apply updb_eq|].
  pose proof (bw_valid s b (cw_buf s Hwf i b Hi) (proj1 Hn)) as Hv.
  split; try done.
  - by apply held_wf with (b := b) (n := n).
  - intros. by apply held_holds with (b := b) (n := n).
  - intros. by apply held_view with (b := b) (n := n).
  - intros. by apply held_tag_same with (b := b) (n := n).
  - intros. by apply held_tag_same with (b := b) (n := n).
  - by apply held_spares with (b := b) (n := n).
Qed.

Lemma buf_data_spec s i n :
  cache_wf s → holds s i n → buf_data i s = Ret (view s n) s.
Proof.
  intros Hwf (b & Hi & Hn & Hl). unfold buf_data.
  rewrite (bind_ret _ _ _ _ _ (getb_eq s i b Hi)). by rewrite (view_cached s i b n).
Qed.

Lemma holds_range s i n : cache_wf s → holds s i n → 0 <= n < disksize s.
Proof.
  intros Hwf (b & Hi & [Hd <-] & _). by apply (bw_range s b (cw_buf s Hwf i b Hi)).
Qed.

(** Writing the content of [n] through to the disk. *)
Lemma cache_wf_disk s n d :
  cache_wf s → blk_ok d → busy s n →
  cache_wf (set_wtrace (wtrace s ++ [(n, d)]) (set_memdisk (<[n := d]> (memdisk s)) s)).
Proof.
  intros [H1 H2 H3 H4 H5 H6] Hd (i & b & Hi & Hn & Hl). split; try done; cbn.
  - intros j x Hj. destruct (H4 j x Hj) as [? ? ? ? ? Hc]. split; try done; cbn.
    intros Hdev Hdirty Hlk. rewrite (Hc Hdev Hdirty Hlk). unfold disk_block.
    rewrite lookup_insert_ne; [done|]. intros ->.
    assert (j = i) as -> by (by apply (H5 j i x b Hj Hi (b_blockno x))). congruence.
  - intros m. unfold disk_block. destruct (decide (m = n)) as [->|?].
    + by rewrite lookup_insert_eq.
    + rewrite lookup_insert_ne by done. apply H6.
Qed.

Lemma view_write s n d t :
  cached s n → ∀ m, view (set_wtrace t (set_memdisk (<[n := d]> (memdisk s)) s)) m = view s m.
Proof.
  intros Hc m. unfold view. cbn [bufs memdisk set_wtrace set_memdisk].
  destruct (list_find _ _) as [[]|] eqn:E; [done|].
  unfold disk_block. rewrite lookup_insert_ne; [done|]. intros ->.
  destruct Hc as (i & b & Hi & Hb). apply list_find_None in E.
  rewrite Forall_lookup in E. by eapply E.
Qed.

Lemma bwrite_spec s i n :
  cache_wf s → holds s i n → returns (bwrite i) s (λ _, bwrite_post s n).
Proof.
  intros Hwf Hh. pose proof (holds_range s i n Hwf Hh). pose proof (holds_busy s i n Hh) as Hb.
  destruct Hh as (b & Hi & Hn & Hl).
  apply returns_eq. do 2 eexists. split; [apply (bwrite_eq s i b n); [done..|lia]|].
  pose proof (view_cached s i b n Hwf Hi Hn) as Hview. rewrite <-Hview.
  pose proof (cache_wf_disk s n (view s n) Hwf (view_ok s n Hwf) Hb) as Hwf2.
  assert (blk_ok (b_data b)) as Hd by (rewrite <-Hview; by apply view_ok).
  set (s2 := set_wtrace _ _) in *. set (b' := set_b_valid _ _). change (bufs s) with (bufs s2).
  split; try done.
  - by apply held_wf with (b := b) (n := n).
  - intros. rewrite (held_holds s2 i b b' n) by done. done.
  - intros. rewrite (held_view s2 i b b' n) by done.
    unfold s2. rewrite view_write by (exists i, b; done). case_decide; [|done]. by subst.
  - intros m. unfold pinned. rewrite (held_tag s2 i b b' n) by done. cbn. naive_solver.
  - intros m. unfold busy. rewrite (held_tag_same s2 i b b' n) by done. done.
  - by rewrite (held_spares s2 i b b' n) by done.
Qed.

Lemma lru_move s i : lru s ≡ₚ seq 0 NBUF → (i < NBUF)%nat →
  i :: filter (.≠ i) (lru s) ≡ₚ seq 0 NBUF.
Proof.
  intros Hp Hi. assert (NoDup (lru s)) as Hnd by (rewrite Hp; apply NoDup_seq).
  rewrite <-Hp. apply NoDup_Permutation; [|done|].
  - apply NoDup_cons. split; [|by apply NoDup_filter]. rewrite list_elem_of_filter. naive_solver.
  - intros j. rewrite elem_of_cons, list_elem_of_filter. split; [|destruct (decide (j = i)); tauto].
    intros [->|[_ ?]]; [|done]. rewrite Hp. apply elem_of_seq. lia.
Qed.

Lemma brelse_spec s i n :
  cache_wf s → holds s i n → pinned s n ∨ view s n = disk_block (memdisk s) n →
  returns (brelse i) s (λ _, brelse_post s i n).
Proof.
  intros Hwf (b & Hi & Hn & Hl) Hclean. pose proof (held_refcnt s i b n Hwf Hi Hl) as Hr.
  apply returns_eq. do 2 eexists. split; [by eapply brelse_eq; [apply Hwf|..]|].
  pose proof (view_cached s i b n Hwf Hi Hn) as Hview.
  pose proof (cw_buf s Hwf i b Hi) as Hbw.
  set (s2 := set_lru _ _). set (b' := set_b_refcnt _ _).
  assert (cache_wf s2) as Hwf2.
  { destruct Hwf as [H1 H2 H3 H4 H5 H6]. split; try done.
    - apply lru_move; [done|]. rewrite <-H1. by eapply lookup_lt_Some.
    - intros j x Hj. by destruct (H4 j x Hj); split. }
  assert (bufs s2 !! i = Some b) as Hi2 by done.
  assert (is_for n b') as Hn' by done.
  assert (buf_wf s2 b') as Hb'.
  { destruct Hbw as [B1 B2 B3 B4 B5 B6]. split; try done; cbn.
    - intros Hd. by destruct Hn.
    - intros Hd Hdirty _. rewrite <-Hview, (proj2 Hn). destruct Hclean as [Hp|?]; [|done].
      destruct Hp as (j & x & Hj & Hx & Hxd).
      assert (j = i) as -> by (by apply (cw_uniq s Hwf j i x b Hj Hi n)). congruence. }
  change (bufs s) with (bufs s2). split; try done.
  - apply (cache_wf_upd s2 i b b' n); auto.
  - intros j m. split.
    + intros (x & Hj & Hm & HQ). apply upd_lookup in Hj as [[-> ->]|[Hne Hj]]; [done|].
      split; [done|]. by exists x.
    + intros [Hne (x & Hj & Hm & HQ)]. exists x. cbn. by rewrite list_lookup_insert_ne.
  - intros m. rewrite (view_upd s2 i b b' n) by auto.
    case_decide; [subst m|done]. by rewrite Hview.
  - intros m. unfold pinned.
    rewrite (tag_upd s2 i b b' n) by auto. cbn.
    destruct (decide (m = n)) as [->|?]; [|naive_solver].
    split; [intros [[_ ?]|[? _]]; [|done]; by exists i, b|].
    intros (j & x & Hj & Hx & Hd). left. split; [done|].
    assert (j = i) as -> by (by apply (cw_uniq s Hwf j i x b Hj Hi n)). congruence.
  - intros m. unfold busy.
    rewrite (tag_upd s2 i b b' n) by auto. cbn. naive_solver.
  - pose proof (spares_upd s2 i b b' Hi2) as Hc.
    change (spares s2) with (spares s) in Hc. rewrite (decide_False (P := spare b)) in Hc by (unfold spare; lia). lia.
  - intros Hp. pose proof (spares_upd s2 i b b' Hi2) as Hc.
    change (spares s2) with (spares s) in Hc.
    rewrite (decide_False (P := spare b)) in Hc by (unfold spare; lia).
    rewrite decide_True in Hc; [lia|]. split; [done|]. cbn.
    apply not_true_is_false. intros ?. apply Hp. by exists i, b.
Qed.
End specs.
