(* ===== verification/Log.v ===== *)
(** * The log (log.c)

    Every function of log.c, and [readsb] of fs.c which [initlog] calls.  A call
    of [sleep(&log, &log.lock)] gives the lock up; the process takes up again at
    the head of the loop, with the lock. *)
From S2P Require Import Prelude Params Block Bio.

(** [struct superblock] (fs.h) *)
Record superblock := mksb {
  sb_size : Z;
  sb_nblocks : Z;
  sb_ninodes : Z;
  sb_nlog : Z;
  sb_logstart : Z;
  sb_inodestart : Z;
  sb_bmapstart : Z
}.

(** The superblock as it lies in the data of a block. *)
Definition decode_sb (d : block) : superblock :=
  mksb (get_word d 0) (get_word d 1) (get_word d 2) (get_word d 3) (get_word d 4)
    (get_word d 5) (get_word d 6).

Definition readsb (dev : Z) : M storage superblock :=
  bp ← bread dev 1;
  d ← buf_data bp;
  brelse bp;;
  mret (decode_sb d).

(** ** Access to [log] *)
Definition upd_log (f : logst → logst) : M storage unit := modify (λ s, set_lg (f (lg s)) s).

Definition acquire_log : M storage unit := λ s,
  if lg_lock (lg s) then Panic "acquire" else Ret tt (set_lg (set_lg_lock true (lg s)) s).
Definition release_log : M storage unit := λ s,
  if lg_lock (lg s) then Ret tt (set_lg (set_lg_lock false (lg s)) s) else Panic "release".

Definition sleep_log : M storage unit := release_log;; go_to_sleep ChLog.

(** [log.lh.block[i]], an array of LOGSIZE elements *)
Definition lh_get (i : nat) : M storage Z := l ← gets lg; deref (lh_block l !! i).
Definition lh_put (i : nat) (v : Z) : M storage unit :=
  l ← gets lg;
  if bool_decide (i < length (lh_block l))%nat
  then upd_log (set_lh_block (<[i := v]> (lh_block l))) else fault.

(** The loop variable of [for(i = 0; i < log.lh.n; i++)]. *)
Definition lh_range (s : storage) : list nat := seq 0 (Z.to_nat (lh_n (lg s))).

(** The on-disk header overlays a block: [n] is its first word, [block[i]] the
    word at index [i + 1]; both are [int]. *)
Definition hdr_n (d : block) : Z := s32 (get_word d 0).
Definition hdr_block (d : block) (i : nat) : Z := s32 (get_word d (S i)).

(** ** log.c *)
Definition install_trans : M storage unit :=
  tails ← gets lh_range;
  mfor tails (λ tail,
    l ← gets lg;
    lbuf ← bread (lg_dev l) (lg_start l + Z.of_nat tail + 1);
    home ← lh_get tail;
    dbuf ← bread (lg_dev l) home;
    d ← buf_data lbuf;
    set_buf_data dbuf d;;
    bwrite dbuf;;
    brelse lbuf;;
    brelse dbuf).

Definition read_head : M storage unit :=
  l ← gets lg;
  b ← bread (lg_dev l) (lg_start l);
  d ← buf_data b;
  upd_log (set_lh_n (hdr_n d));;
  idx ← gets lh_range;
  mfor idx (λ i, lh_put i (hdr_block d i));;
  brelse b.

Definition write_head : M storage unit :=
  l ← gets lg;
  b ← bread (lg_dev l) (lg_start l);
  d ← buf_data b;
  set_buf_data b (put_word d 0 (lh_n l));;
  idx ← gets lh_range;
  mfor idx (λ i,
    v ← lh_get i;
    d ← buf_data b;
    set_buf_data b (put_word d (S i) v));;
  bwrite b;;
  brelse b.

Definition recover_from_log : M storage unit :=
  read_head;;
  install_trans;;
  upd_log (set_lh_n 0);;
  write_head.

(** [sizeof(struct logheader)] *)
Definition sizeof_logheader : Z := 4 + 4 * LOGSIZE.

Definition initlog (dev : Z) : M storage unit :=
  if BSIZE <=? sizeof_logheader then panic "initlog: too big logheader" else
  upd_log (set_lg_lock false);;
  sb ← readsb dev;
  upd_log (set_lg_start (s32 (sb_logstart sb)));;
  upd_log (set_lg_size (s32 (sb_nlog sb)));;
  upd_log (set_lg_dev dev);;
  recover_from_log.

Definition begin_op : M storage unit :=
  acquire_log;;
  l ← gets lg;
  if lg_committing l then sleep_log
  else if LOGSIZE <? lh_n l + (lg_outstanding l + 1) * MAXOPBLOCKS then sleep_log
  else
    upd_log (set_lg_outstanding (lg_outstanding l + 1));;
    release_log.

Definition write_log : M storage unit :=
  tails ← gets lh_range;
  mfor tails (λ tail,
    l ← gets lg;
    to ← bread (lg_dev l) (lg_start l + Z.of_nat tail + 1);
    home ← lh_get tail;
    from ← bread (lg_dev l) home;
    d ← buf_data from;
    set_buf_data to d;;
    bwrite to;;
    brelse from;;
    brelse to).

Definition commit : M storage unit :=
  l ← gets lg;
  if 0 <? lh_n l then
    write_log;;
    write_head;;
    install_trans;;
    upd_log (set_lh_n 0);;
    write_head
  else mret tt.

Definition end_op : M storage unit :=
  acquire_log;;
  upd_log (λ l, set_lg_outstanding (lg_outstanding l - 1) l);;
  l ← gets lg;
  if lg_committing l then panic "log.committing" else
  do_commit ←
    (if (lg_outstanding l =? 0) && (Z.quot (lg_size l) 2 <? lh_n l) then
       upd_log (set_lg_committing true);; mret true
     else st_wakeup ChLog;; mret false);
  release_log;;
  if (do_commit : bool) then
    commit;;
    acquire_log;;
    upd_log (set_lg_committing false);;
    st_wakeup ChLog;;
    release_log
  else mret tt.

Definition log_write (b : nat) : M storage unit :=
  l ← gets lg;
  if (LOGSIZE <=? lh_n l) || (lg_size l - 1 <=? lh_n l) then panic "too big a transaction" else
  if lg_outstanding l <? 1 then panic "log_write outside of trans" else
  acquire_log;;
  bf ← getb b;
  idx ← gets lh_range;
  hit ← mfind idx (λ i, v ← lh_get i; mret (v =? b_blockno bf));  (* log absorbtion *)
  let i := default (length idx) hit in
  lh_put i (b_blockno bf);;
  (if Z.of_nat i =? lh_n l then upd_log (set_lh_n (lh_n l + 1)) else mret tt);;
  updb b (set_b_dirty true);;
  release_log.

Definition sys_sync : M storage Z :=
  commit;;
  l ← gets lg;
  mret (if lh_n l =? 0 then 0 else -1).

Definition sys_get_log_num : M storage Z := l ← gets lg; mret (lh_n l).
