(* ===== verification/LogSpec.v ===== *)
(** * The log: invariant, and commit as a sequence of disk writes *)
From S2P Require Import Prelude Params Block Bio BioInv BioSpec Log.

(** The transaction in memory: its length and its home blocks. *)
Definition nlog (s : storage) : nat := Z.to_nat (lh_n (lg s)).
Definition home (s : storage) (k : nat) : Z := lh_block (lg s) !!! k.

Definition log_slot (s : storage) (k : nat) : Z := lg_start (lg s) + Z.of_nat k + 1.

(** Block [n] belongs to the log: the header or one of its slots. *)
Definition in_log (s : storage) (n : Z) : Prop :=
  lg_start (lg s) <= n < lg_start (lg s) + lg_size (lg s).

(** The geometry of the log, fixed by [initlog]. *)
Record log_geom (s : storage) : Prop := {
  lgm_dev : lg_dev (lg s) = ROOTDEV;
  lgm_len : length (lh_block (lg s)) = Z.to_nat LOGSIZE;
  lgm_size : 1 <= lg_size (lg s) <= LOGSIZE;
  lgm_region : 0 <= lg_start (lg s) ∧ lg_start (lg s) + lg_size (lg s) <= disksize s;
  lgm_disk : disksize s < 2 ^ 31;
}.

(** The transaction: distinct home blocks outside the log, that fit in it. *)
Record trans_wf (s : storage) : Prop := {
  tw_n : 0 <= lh_n (lg s) < lg_size (lg s);
  tw_range : ∀ k, (k < nlog s)%nat → 0 <= home s k < disksize s ∧ ¬ in_log s (home s k);
  tw_inj : ∀ j k, (j < nlog s)%nat → (k < nlog s)%nat → home s j = home s k → j = k;
}.

(** The invariant of the log: the blocks modified in the cache and not on the
    disk are exactly those of the transaction. *)
Record log_wf (s : storage) : Prop := {
  lw_cache : cache_wf s;
  lw_geom : log_geom s;
  lw_trans : trans_wf s;
  lw_pinned : ∀ n, pinned s n ↔ ∃ k, (k < nlog s)%nat ∧ home s k = n;
}.

(** ** Disk writes *)

(** The disk, and the blocks as the kernel sees them, after a sequence of writes. *)
Definition apply_writes (d : gmap Z block) (W : list (Z * block)) : gmap Z block :=
  foldl (λ d w, <[w.1 := w.2]> d) d W.
Definition view_writes (v : Z → block) (W : list (Z * block)) : Z → block :=
  foldl (λ v w m, if decide (m = w.1) then w.2 else v m) v W.

(** From [s] to [s'] exactly the blocks of [W] were written, in this order, in
    the cache and on the disk. *)
Record wrote (s : storage) (W : list (Z * block)) (s' : storage) : Prop := {
  wr_wf : cache_wf s';
  wr_pid : cur_pid s' = cur_pid s;
  wr_size : disksize s' = disksize s;
  wr_holds : ∀ j m, holds s' j m ↔ holds s j m;
  wr_view : ∀ m, view s' m = view_writes (view s) W m;
  wr_disk : memdisk s' = apply_writes (memdisk s) W;
  wr_trace : wtrace s' = wtrace s ++ W;
  wr_pinned : ∀ m, pinned s' m ↔ (m ∉ W.*1) ∧ pinned s m;
  wr_busy : ∀ m, busy s' m ↔ busy s m;
  wr_spares : (spares s ≤ spares s')%nat;
}.

Lemma view_writes_ext v v' W : (∀ m, v m = v' m) → ∀ m, view_writes v W m = view_writes v' W m.
Proof.
  revert v v'. induction W as [|w W IH]; intros v v' Hv m; simpl; [done|].
  apply IH. intros x. by rewrite Hv.
Qed.

Lemma view_writes_notin v W m : m ∉ W.*1 → view_writes v W m = v m.
Proof.
  revert v. induction W as [|w W IH]; intros v Hm; [done|].
  cbn in Hm. apply not_elem_of_cons in Hm as [Hne Hm]. simpl. rewrite IH by done. by rewrite decide_False.
Qed.

Lemma wrote_nil s : cache_wf s → wrote s [] s.
Proof.
  intros. split; try done; [by rewrite app_nil_r|]. intros m. cbn. split; [|naive_solver].
  split; [apply not_elem_of_nil|done].
Qed.

Lemma wrote_trans s1 W1 s2 W2 s3 : wrote s1 W1 s2 → wrote s2 W2 s3 → wrote s1 (W1 ++ W2) s3.
Proof.
  intros [A1 A2 A3 A4 A5 A6 A7 A8 A9 A10] [B1 B2 B3 B4 B5 B6 B7 B8 B9 B10].
  split; try congruence; try lia.
  - intros. by rewrite B4, A4.
  - intros m. rewrite B5. unfold view_writes at 2. rewrite foldl_app.
    by apply view_writes_ext.
  - rewrite B6, A6. unfold apply_writes. by rewrite foldl_app.
  - by rewrite B7, A7, app_assoc.
  - intros m. rewrite B8, A8, fmap_app, elem_of_app. tauto.
  - intros. by rewrite B9, A9.
Qed.

(** The log's own variables are not part of [wrote]. *)
Lemma wrote_lg s W s' l : wrote s W s' → wrote s W (set_lg l s').
Proof.
  intros [[C1 C2 C3 C4 C5 C6] A2 A3 A4 A5 A6 A7 A8 A9 A10]. split; try done.
  split; try done. intros i b Hi. by destruct (C4 i b Hi); split.
Qed.

(** ** Copying one block to another through the cache *)
Definition copied (s : storage) (src dst : Z) (s' : storage) : Prop :=
  wrote s [(dst, view s src)] s' ∧ lg s' = lg s.

Section copy.
Implicit Types (s : storage) (n : Z).

Lemma pinned_dec s n : cache_wf s → pinned s n ∨ ¬ pinned s n.
Proof.
  intros Hwf. destruct (cached_dec_find s n) as [(i & b & Hi & Hb)|[Hc _]].
  - destruct (b_dirty b) eqn:E; [left; by exists i, b|right]. intros (j & x & Hj & Hx & Hd).
    assert (i = j) as -> by (by eapply (cw_uniq s Hwf)). congruence.
  - right. intros (j & x & Hj & Hx & Hd). apply Hc. by exists j, x.
Qed.

Lemma quiet_settled s n : cache_wf s → ¬ busy s n →
  pinned s n ∨ view s n = disk_block (memdisk s) n.
Proof. intros Hwf Hb. destruct (pinned_dec s n Hwf); [by left|right; by apply view_disk]. Qed.

Lemma pinned_cached s n : pinned s n → cached s n.
Proof. intros (i & b & Hi & Hb & _). by exists i, b. Qed.

Lemma disk_block_insert (d : gmap Z block) n m x :
  disk_block (<[n := x]> d) m = if decide (m = n) then x else disk_block d m.
Proof.
  unfold disk_block. case_decide as Hm; [subst; by rewrite lookup_insert_eq|].
  by rewrite lookup_insert_ne.
Qed.

(** What holding the buffer of [n] costs in spare buffers. *)
Definition cost (s : storage) (n : Z) (k : nat) : Prop :=
  (pinned s n ∧ k = 0%nat) ∨ (¬ pinned s n ∧ k = 1%nat).

(** Two buffers [i], [j] for [a] and [b] are held; nothing else has changed. *)
Record two_held (s : storage) (i j : nat) (a b : Z) (s' : storage) : Prop := {
  th_wf : cache_wf s';
  th_same : bio_same s s';
  th_ne : i ≠ j;
  th_fresh : (∀ m, ¬ holds s i m) ∧ (∀ m, ¬ holds s j m);
  th_holds : ∀ k m, holds s' k m ↔ (k = i ∧ m = a) ∨ (k = j ∧ m = b) ∨ holds s k m;
  th_view : ∀ m, view s' m = view s m;
  th_disk : memdisk s' = memdisk s;
  th_trace : wtrace s' = wtrace s;
  th_pinned : ∀ m, pinned s' m ↔ pinned s m;
  th_busy : ∀ m, busy s' m ↔ m = a ∨ m = b ∨ busy s m;
  th_spares : ∃ ka kb, cost s a ka ∧ cost s b kb ∧ (spares s ≤ spares s' + ka + kb)%nat;
}.

Lemma two_held_sym s i j a b s' : two_held s i j a b s' → two_held s j i b a s'.
Proof.
  intros [? ? ? [] H5 ? ? ? ? H10 (ka & kb & ? & ? & ?)]. split; try done.
  - intros. rewrite H5. tauto.
  - intros. rewrite H10. tauto.
  - exists kb, ka. split_and!; [done..|lia].
Qed.

Lemma bio_same_trans s1 s2 s3 : bio_same s1 s2 → bio_same s2 s3 → bio_same s1 s3.
Proof. intros [] []. split; congruence. Qed.

(** The buffer of a second block, after the buffer of the first. *)
Lemma bread_second s i a s1 b :
  cache_wf s → bread_post s a i s1 → 0 <= b < disksize s → a ≠ b → ¬ busy s b →
  pinned s b ∨ (1 < spares s)%nat →
  returns (bread ROOTDEV b) s1 (λ j, two_held s i j a b).
Proof.
  intros Hwf [B1 B2 B3 B4 B5 B6 B7 B8 B9 B10 B11] Hr Hne Hb Hsp.
  destruct B2 as [? ? Hsz].
  eapply returns_mono.
  { apply bread_spec; [done|by rewrite Hsz|rewrite B9; naive_solver|].
    destruct Hsp as [Hp|?]; [left|right; lia]. by apply pinned_cached, B8. }
  intros j s2 [C1 C2 C3 C4 C5 C6 C7 C8 C9 C10 C11].
  assert (holds s1 i a) as Hia by (apply B4; auto).
  split; try congruence.
  - by eapply bio_same_trans.
  - intros <-. by apply (C3 a).
  - split; [done|]. intros m Hm. apply (C3 m), B4. auto.
  - intros. rewrite C4, B4. tauto.
  - intros. by rewrite C8, B8.
  - intros. rewrite C9, B9. tauto.
  - rewrite B8 in C11. unfold cost.
    destruct (pinned_dec s a Hwf) as [Ha|Ha], (pinned_dec s b Hwf) as [Hb'|Hb'];
      try specialize (B11 Ha); try specialize (C11 Hb').
    + exists 0%nat, 0%nat. split_and!; [auto..|lia].
    + exists 0%nat, 1%nat. split_and!; [auto..|lia].
    + exists 1%nat, 0%nat. split_and!; [auto..|lia].
    + exists 1%nat, 1%nat. split_and!; [auto..|lia].
Qed.

Definition copy_through (i j : nat) : M storage unit :=
  d ← buf_data i; set_buf_data j d;; bwrite j;; brelse i;; brelse j.

Lemma copy_through_spec s i j src dst s1 :
  cache_wf s → two_held s i j src dst s1 → src ≠ dst → ¬ busy s src → ¬ busy s dst →
  returns (copy_through i j) s1 (λ _, copied s src dst).
Proof.
  intros Hwf [T1 T2 T3 [Ti Tj] T4 T5 T6 T7 T8 T9 (ka & kb & Ka & Kb & Hk)] Hne Hbs Hbd.
  assert (holds s1 i src) as Hi by (apply T4; auto).
  assert (holds s1 j dst) as Hj by (apply T4; auto).
  unfold copy_through. eapply returns_bind_eq; [by eapply buf_data_spec|].
  rstep edit_spec; [done|exact Hj|by apply view_ok|].
  intros _ s2 [E1 E2 E3 E4 E5 E6 E7 E8 E9].
  rstep bwrite_spec; [done|apply E3, Hj|].
  intros _ s3 [W1 W2 W3 W4 W5 W6 W7 W8 W9].
  assert (view s2 dst = view s src) as Hd by (rewrite E4, decide_True by done; apply T5).
  assert (view s3 src = view s src) as Hsv by (rewrite W4, E4, decide_False by done; apply T5).
  rstep brelse_spec; [done|apply W3, E3, Hi| |].
  { rewrite W7, E7, T8, Hsv, W5, disk_block_insert, decide_False, E5, T6 by done.
    destruct (quiet_settled s src Hwf Hbs); [left|right]; done. }
  intros _ s4 [R1 R2 R3 R4 R5 R6 R7 R8 R9 R10].
  rstep brelse_spec; [done|apply R3; split; [done|]; apply W3, E3, Hj| |].
  { right. by rewrite R4, W4, Hd, R5, W5, disk_block_insert, decide_True, Hd by done. }
  intros _ s5 [Q1 Q2 Q3 Q4 Q5 Q6 Q7 Q8 Q9 Q10].
  destruct T2, E2, W2, R2, Q2.
  split; [|congruence]. split; cbn; try congruence.
  - intros k m. rewrite Q3, R3, W3, E3, T4. split; [naive_solver|].
    intros Hh. split_and!; [intros ->; naive_solver|intros ->; naive_solver|auto].
  - intros m. rewrite Q4, R4, W4, E4, !T5. by case_decide.
  - intros m. rewrite Q7, R7, W7, E7, T8, list_elem_of_singleton. done.
  - intros m. rewrite Q8, R8, W8, E8, T9. split; [naive_solver|].
    intros Hb. split_and!; [intros ->; done|intros ->; done|auto].
  - assert (spares s5 = S (spares s4)) as Hs5.
    { apply Q10. rewrite R7, W7. tauto. }
    assert (spares s3 + ka <= spares s4)%nat as Hs4.
    { destruct Ka as [[_ ->]|[Ha ->]]; [lia|]. rewrite R10; [lia|]. rewrite W7, E7, T8. tauto. }
    assert (kb <= 1)%nat by (destruct Kb as [[_ ->]|[_ ->]]; lia). lia.
Qed.
End copy.

(** ** The loops of write_log and install_trans *)
Section loops.
Implicit Types s : storage.

Lemma lh_get_eq s k : (k < length (lh_block (lg s)))%nat → lh_get k s = Ret (home s k) s.
Proof.
  intros Hk. unfold lh_get. rewrite bind_gets. unfold home.
  destruct (lookup_lt_is_Some_2 _ _ Hk) as [v Hv]. rewrite Hv. cbn.
  by rewrite (list_lookup_total_correct _ _ _ Hv).
Qed.

(** A loop whose [k]-th turn copies block [src k] to block [dst k]. *)
Lemma copy_loop s (src dst : nat → Z) N (body : nat → M storage unit) :
  cache_wf s → (0 < spares s)%nat →
  (∀ j k, (j < N)%nat → (k < N)%nat → src j ≠ dst k) →
  (∀ j k, (j < N)%nat → (k < N)%nat → dst j = dst k → j = k) →
  (∀ W k s1, (k < N)%nat → wrote s W s1 → lg s1 = lg s → W.*1 = dst <$> seq 0 k →
     returns (body k) s1 (λ _, copied s1 (src k) (dst k))) →
  returns (mfor (seq 0 N) body) s
    (λ _ s', wrote s ((λ k, (dst k, view s (src k))) <$> seq 0 N) s' ∧ lg s' = lg s).
Proof.
  intros Hwf Hsp Hdisj Hinj Hbody.
  apply returns_mfor with (P := λ done s1,
    wrote s ((λ k, (dst k, view s (src k))) <$> done) s1 ∧ lg s1 = lg s); [|..|done].
  { split; [by apply wrote_nil|done]. }
  intros done k rest s1 Hseq [Hw Hlg].
  assert (k = length done ∧ (k < N)%nat) as [Hk HkN].
  { assert (seq 0 N !! length done = Some k) as Hl by (by rewrite Hseq, list_lookup_middle).
    apply lookup_seq in Hl. lia. }
  assert (done = seq 0 k) as Hdone.
  { assert (take k (seq 0 N) = done) as <- by (by rewrite Hseq, take_app_length').
    rewrite take_seq. f_equal. lia. }
  assert (((λ k, (dst k, view s (src k))) <$> done).*1 = dst <$> seq 0 k) as Hdst.
  { rewrite <-Hdone, <-list_fmap_compose. done. }
  rstep (Hbody _ k s1 HkN Hw Hlg Hdst). intros _ s2 [Hw2 Hlg2]. split; [|congruence].
  rewrite fmap_app. eapply wrote_trans; [done|]. simpl.
  rewrite (wr_view _ _ _ Hw), view_writes_notin in Hw2; [done|].
  rewrite Hdst. rewrite list_elem_of_fmap. intros (j & Hj & Hin). apply elem_of_seq in Hin.
  eapply (Hdisj k j); [done|lia|done].
Qed.

(** Where the transaction may be written: nobody else is at the blocks of the log
    and at the home blocks. *)
Record log_quiet (s : storage) : Prop := {
  lq_log : ∀ n, in_log s n → ¬ busy s n;
  lq_home : ∀ k, (k < nlog s)%nat → ¬ busy s (home s k);
}.

Lemma lg_frame s W s1 : lg s1 = lg s → wrote s W s1 → log_geom s → log_geom s1.
Proof. intros Hl [_ _ Hs _ _ _ _ _ _ _] []. split; by rewrite ?Hl, ?Hs. Qed.

Lemma slot_in_log s k : trans_wf s → (k < nlog s)%nat → in_log s (log_slot s k).
Proof. intros [Hn _ _]. unfold in_log, log_slot, nlog in *. lia. Qed.

Lemma nlog_len s k : log_geom s → trans_wf s → (k < nlog s)%nat →
  (k < length (lh_block (lg s)))%nat.
Proof.
  intros [_ Hlen Hsz _ _] [Hn _ _] Hk. unfold nlog in *. rewrite Hlen. lia.
Qed.

(** What [write_log] writes: the transaction's blocks, in the slots. *)
Definition slot_writes (s : storage) : list (Z * block) :=
  (λ k, (log_slot s k, view s (home s k))) <$> seq 0 (nlog s).

(** What [install_trans] writes: the slots' content, at home. *)
Definition home_writes (s : storage) : list (Z * block) :=
  (λ k, (home s k, view s (log_slot s k))) <$> seq 0 (nlog s).

Lemma write_log_spec s :
  cache_wf s → log_geom s → trans_wf s → log_quiet s → (0 < spares s)%nat →
  (∀ k, (k < nlog s)%nat → pinned s (home s k)) →
  returns write_log s (λ _ s', wrote s (slot_writes s) s' ∧ lg s' = lg s).
Proof.
  intros Hwf Hg Ht Hq Hsp Hp. unfold write_log.
  eapply returns_bind_eq; [done|].
  apply (copy_loop s (home s) (log_slot s) (nlog s)); [done..| | |].
  - intros j k Hj Hk Heq. apply (tw_range s Ht j Hj). rewrite Heq. by apply slot_in_log.
  - unfold log_slot. lia.
  - intros W k s1 Hk Hw Hlg Hd. eapply returns_bind_eq; [done|].
    rewrite Hlg, (lgm_dev s Hg). fold (log_slot s k).
    pose proof (slot_in_log s k Ht Hk) as Hin.
    pose proof (tw_range s Ht k Hk) as [Hr Hout].
    assert (log_slot s k ≠ home s k) as Hne by (intros Heq; by rewrite Heq in Hin).
    destruct (lgm_region s Hg). unfold in_log in Hin.
    assert (¬ busy s1 (log_slot s k)) as Hb1 by (rewrite (wr_busy _ _ _ Hw); by apply (lq_log s Hq)).
    assert (¬ busy s1 (home s k)) as Hb2 by (rewrite (wr_busy _ _ _ Hw); by apply (lq_home s Hq)).
    pose proof (wr_spares _ _ _ Hw). pose proof (wr_size _ _ _ Hw) as Hsz.
    assert (pinned s1 (home s k)) as Hpk.
    { apply (wr_pinned _ _ _ Hw). split; [|by apply Hp]. rewrite Hd, list_elem_of_fmap.
      intros (j & Hj & Hin'). apply elem_of_seq in Hin'. apply Hout. rewrite Hj.
      apply slot_in_log; [done|lia]. }
    rstep bread_spec; [apply Hw|lia|done|right; lia|]. intros i s2 Hbr.
    eapply returns_bind_eq.
    { apply lh_get_eq. rewrite (same_lg _ _ (br_same _ _ _ _ Hbr)), Hlg. by apply nlog_len. }
    assert (home s2 k = home s k) as Hhk.
    { unfold home. by rewrite (same_lg _ _ (br_same _ _ _ _ Hbr)), Hlg. }
    rewrite Hhk.
    rstep (bread_second s1 i (log_slot s k)); [apply Hw|done|lia|done|done|by left|].
    intros j s3 Hth. apply two_held_sym in Hth.
    apply copy_through_spec; [apply Hw|exact Hth|done..].
Qed.

Lemma install_trans_spec s :
  cache_wf s → log_geom s → trans_wf s → log_quiet s → (0 < spares s)%nat →
  (∀ k, (k < nlog s)%nat → pinned s (home s k)) ∨ (1 < spares s)%nat →
  returns install_trans s (λ _ s', wrote s (home_writes s) s' ∧ lg s' = lg s).
Proof.
  intros Hwf Hg Ht Hq Hsp Hp. unfold install_trans.
  eapply returns_bind_eq; [done|].
  apply (copy_loop s (log_slot s) (home s) (nlog s)); [done..| | |].
  - intros j k Hj Hk Heq. apply (tw_range s Ht k Hk). rewrite <-Heq. by apply slot_in_log.
  - apply Ht.
  - intros W k s1 Hk Hw Hlg Hd. eapply returns_bind_eq; [done|].
    rewrite Hlg, (lgm_dev s Hg). fold (log_slot s k).
    pose proof (slot_in_log s k Ht Hk) as Hin.
    pose proof (tw_range s Ht k Hk) as [Hr Hout].
    assert (log_slot s k ≠ home s k) as Hne by (intros Heq; by rewrite Heq in Hin).
    destruct (lgm_region s Hg). unfold in_log in Hin.
    assert (¬ busy s1 (log_slot s k)) as Hb1 by (rewrite (wr_busy _ _ _ Hw); by apply (lq_log s Hq)).
    assert (¬ busy s1 (home s k)) as Hb2 by (rewrite (wr_busy _ _ _ Hw); by apply (lq_home s Hq)).
    pose proof (wr_spares _ _ _ Hw). pose proof (wr_size _ _ _ Hw) as Hsz.
    assert (pinned s1 (home s k) ∨ (1 < spares s1)%nat) as Hpk.
    { destruct Hp as [Hp|Hp]; [left|right; lia].
      apply (wr_pinned _ _ _ Hw). split; [|by apply Hp]. rewrite Hd, list_elem_of_fmap.
      intros (j & Hj & Hin'). apply elem_of_seq in Hin'.
      apply (tw_inj s Ht k j) in Hj; lia. }
    rstep bread_spec; [apply Hw|lia|done|right; lia|]. intros i s2 Hbr.
    eapply returns_bind_eq.
    { apply lh_get_eq. rewrite (same_lg _ _ (br_same _ _ _ _ Hbr)), Hlg. by apply nlog_len. }
    assert (home s2 k = home s k) as Hhk.
    { unfold home. by rewrite (same_lg _ _ (br_same _ _ _ _ Hbr)), Hlg. }
    rewrite Hhk.
    rstep (bread_second s1 i (log_slot s k)); [apply Hw|done|lia|done|done|done|].
    intros j s3 Hth. apply copy_through_spec; [apply Hw|exact Hth|done..].
Qed.

(** ** The header *)

(** The header block after [write_head]. *)
Definition hdr_of (d : block) (n : Z) (blk : nat → Z) : block :=
  foldl (λ d k, put_word d (S k) (blk k)) (put_word d 0 n) (seq 0 (Z.to_nat n)).

Lemma foldl_put_word_ok (blk : nat → Z) l d :
  blk_ok d → blk_ok (foldl (λ d k, put_word d (S k) (blk k)) d l).
Proof.
  revert d. induction l as [|k l IH]; intros d [Hl Hb]; simpl; [done|]. apply IH.
  split; [by rewrite length_put_word|by apply put_word_bytes].
Qed.

Lemma foldl_put_word_ne (blk : nat → Z) l d (i : nat) :
  (∀ k, k ∈ l → S k ≠ i) →
  get_word (foldl (λ d k, put_word d (S k) (blk k)) d l) i = get_word d i.
Proof.
  revert d. induction l as [|k l IH]; intros d Hl; simpl; [done|].
  rewrite IH by (intros; apply Hl; by right). apply get_put_word_ne. apply Hl. by left.
Qed.

Lemma foldl_put_word_eq (blk : nat → Z) l d (i : nat) :
  NoDup l → i ∈ l → (4 * S i + 3 < length d)%nat →
  get_word (foldl (λ d k, put_word d (S k) (blk k)) d l) (S i) = u32 (blk i).
Proof.
  revert d. induction l as [|k l IH]; intros d Hnd Hi Hlen; [by apply not_elem_of_nil in Hi|].
  apply NoDup_cons in Hnd as [Hk Hnd]. simpl. apply elem_of_cons in Hi as [->|Hi].
  - rewrite foldl_put_word_ne by (intros j Hj [= ->]; done). by apply get_put_word_eq.
  - apply IH; [done..|]. by rewrite length_put_word.
Qed.

Lemma hdr_of_ok d n blk : blk_ok d → blk_ok (hdr_of d n blk).
Proof.
  intros [Hl Hb]. apply foldl_put_word_ok.
  split; [by rewrite length_put_word|by apply put_word_bytes].
Qed.

Lemma s32_u32 z : is_s32 z → s32 (u32 z) = z.
Proof. unfold s32, u32, is_s32. intros. rewrite Zplus_mod_idemp_l. rewrite Z.mod_small; lia. Qed.

Lemma hdr_n_of d n blk : blk_ok d → 0 <= n <= LOGSIZE → hdr_n (hdr_of d n blk) = n.
Proof.
  intros [Hl Hb] Hn. unfold hdr_n, hdr_of. rewrite foldl_put_word_ne by lia.
  rewrite get_put_word_eq by (rewrite Hl; unfold BSIZE; lia).
  apply s32_u32. unfold is_s32, LOGSIZE, MAXOPBLOCKS in *. lia.
Qed.

Lemma hdr_block_of d n blk (k : nat) :
  blk_ok d → 0 <= n <= LOGSIZE → (k < Z.to_nat n)%nat → is_s32 (blk k) →
  hdr_block (hdr_of d n blk) k = blk k.
Proof.
  intros [Hl Hb] Hn Hk Hs. unfold hdr_block, hdr_of.
  rewrite foldl_put_word_eq; [by apply s32_u32|apply NoDup_seq|apply elem_of_seq; lia|].
  rewrite length_put_word, Hl. unfold BSIZE, LOGSIZE, MAXOPBLOCKS in *. lia.
Qed.

Lemma edit_post_trans s n d1 s1 d2 s2 :
  edit_post s n d1 s1 → edit_post s1 n d2 s2 → edit_post s n d2 s2.
Proof.
  intros [A1 A2 A3 A4 A5 A6 A7 A8 A9] [B1 B2 B3 B4 B5 B6 B7 B8 B9].
  split; try congruence.
  - by eapply bio_same_trans.
  - intros. by rewrite B3, A3.
  - intros. rewrite B4, A4. by case_decide.
  - intros. by rewrite B7, A7.
  - intros. by rewrite B8, A8.
Qed.

Definition header_write (s : storage) : Z * block :=
  (lg_start (lg s), hdr_of (view s (lg_start (lg s))) (lh_n (lg s)) (home s)).

Lemma write_head_spec s :
  cache_wf s → log_geom s → 0 <= lh_n (lg s) < lg_size (lg s) →
  ¬ busy s (lg_start (lg s)) → ¬ pinned s (lg_start (lg s)) → (0 < spares s)%nat →
  returns write_head s (λ _ s', wrote s [header_write s] s' ∧ lg s' = lg s).
Proof.
  intros Hwf Hg Hn Hb Hp Hsp. unfold write_head. eapply returns_bind_eq; [done|].
  set (h := lg_start (lg s)) in *.
  destruct (lgm_region s Hg), (lgm_size s Hg). rewrite (lgm_dev s Hg).
  rstep bread_spec; [done|lia|done|by right|].
  intros i s1 [B1 B2 B3 B4 B5 B6 B7 B8 B9 B10 B11].
  assert (holds s1 i h) as Hh by (apply B4; auto).
  eapply returns_bind_eq; [by eapply buf_data_spec|]. rewrite B5.
  assert (blk_ok (put_word (view s h) 0 (lh_n (lg s)))) as Hok0.
  { destruct (view_ok s h Hwf). split; [by rewrite length_put_word|by apply put_word_bytes]. }
  rstep edit_spec; [done|exact Hh|done|]. intros _ s2 E2.
  eapply returns_bind_eq; [done|]. unfold lh_range.
  rewrite (same_lg _ _ (ed_same _ _ _ _ E2)), (same_lg _ _ B2).
  apply returns_bind. apply returns_mfor with (P := λ done s3, edit_post s1 h
    (foldl (λ d k, put_word d (S k) (home s k)) (put_word (view s h) 0 (lh_n (lg s))) done) s3);
    [done| |].
  { intros done k rest s3 Hseq E3.
    assert (lg s3 = lg s) as Hlg by (by rewrite (same_lg _ _ (ed_same _ _ _ _ E3)), (same_lg _ _ B2)).
    assert (k ∈ seq 0 (Z.to_nat (lh_n (lg s)))) as Hk by (rewrite Hseq; set_solver).
    apply elem_of_seq in Hk. destruct (lgm_size s Hg).
    eapply returns_bind_eq; [apply lh_get_eq; rewrite Hlg, (lgm_len s Hg); lia|].
    assert (holds s3 i h) as Hh3 by (by apply E3).
    eapply returns_bind_eq; [eapply buf_data_spec; [apply E3|done]|].
    rewrite (ed_view _ _ _ _ E3), decide_True by done.
    rstep edit_spec; [apply E3|exact Hh3| |].
    - assert (blk_ok (foldl (λ d k, put_word d (S k) (home s k))
        (put_word (view s h) 0 (lh_n (lg s))) done)) as [Hl Hby] by (by apply foldl_put_word_ok).
      split; [by rewrite length_put_word|by apply put_word_bytes].
    - intros _ s4 E4. rewrite foldl_app. simpl.
      assert (home s3 k = home s k) as Hhk by (unfold home; by rewrite Hlg). rewrite Hhk in E4.
      by eapply edit_post_trans. }
  intros s3 E3. fold (hdr_of (view s h) (lh_n (lg s)) (home s)) in E3.
  destruct E3 as [E31 E32 E33 E34 E35 E36 E37 E38 E39].
  rstep bwrite_spec; [done|by apply E33|]. intros _ s4 [W1 W2 W3 W4 W5 W6 W7 W8 W9].
  rewrite E34, decide_True in W5, W6 by done.
  rstep brelse_spec; [done|by apply W3, E33| |].
  { right. by rewrite W4, E34, W5, disk_block_insert, !decide_True by done. }
  intros _ s5 [R1 R2 R3 R4 R5 R6 R7 R8 R9 R10].
  destruct B2, E32, W2, R2. split; [|congruence]. split; cbn; try congruence.
  - intros j m. rewrite R3, W3, E33, B4. split; [naive_solver|].
    intros Hm. split; [|auto]. intros ->. by apply (B3 m).
  - intros m. rewrite R4, W4, E34, B5. done.
  - rewrite R5, W5, E35, B6. done.
  - rewrite R6, W6, E36, B7. done.
  - intros m. rewrite R7, W7, E37, B8. rewrite list_elem_of_singleton. done.
  - intros m. rewrite R8, W8, E38, B9. split; [naive_solver|].
    intros Hm. split; [|auto]. intros ->. done.
  - rewrite R10; [lia|]. rewrite W7. naive_solver.
Qed.
End loops.

(** ** commit *)
Section commit.
Implicit Types s : storage.

Definition header_block (s : storage) : block := view s (lg_start (lg s)).

(** What [commit] writes to the disk, in order: the transaction's blocks into the
    log, the header, the blocks at home, the header of the empty log. *)
Definition commit_writes (s : storage) : list (Z * block) :=
  slot_writes s
  ++ [header_write s]
  ++ ((λ k, (home s k, view s (home s k))) <$> seq 0 (nlog s))
  ++ [(lg_start (lg s),
       hdr_of (hdr_of (header_block s) (lh_n (lg s)) (home s)) 0 (home s))].

Lemma elem_of_slots s n : n ∈ (slot_writes s).*1 ↔ ∃ k, (k < nlog s)%nat ∧ log_slot s k = n.
Proof.
  unfold slot_writes. rewrite <-list_fmap_compose, list_elem_of_fmap. cbn.
  split; intros (k & H1 & H2); exists k.
  - apply elem_of_seq in H2. split; [lia|done].
  - split; [done|]. apply elem_of_seq. lia.
Qed.

Lemma start_not_slot s : lg_start (lg s) ∉ (slot_writes s).*1.
Proof. rewrite elem_of_slots. unfold log_slot. intros (k & ? & ?). lia. Qed.

Lemma start_in_log s : log_geom s → in_log s (lg_start (lg s)).
Proof. intros [_ _ ? _ _]. unfold in_log. lia. Qed.

(** The [k]-th slot holds the [k]-th block of the transaction. *)
Lemma view_slot_writes s v k : (k < nlog s)%nat →
  view_writes v (slot_writes s) (log_slot s k) = view s (home s k).
Proof.
  unfold slot_writes. generalize (nlog s). intros N. revert v.
  induction N as [|N IH]; intros v Hk; [lia|].
  rewrite seq_S, fmap_app. unfold view_writes. rewrite foldl_app. simpl. fold (view_writes v).
  case_decide as Hd.
  - assert (k = N) as -> by (unfold log_slot in Hd; lia). done.
  - apply IH. assert (k ≠ N) by (intros ->; done). lia.
Qed.

Lemma in_log_start_ne s n : ¬ in_log s n → log_geom s → n ≠ lg_start (lg s).
Proof. intros Hn Hg ->. by apply Hn, start_in_log. Qed.

(** The transaction and the state of the buffers, after writes that leave the header in
    memory alone. *)
Lemma trans_wf_frame s W s1 : lg s1 = lg s → wrote s W s1 → trans_wf s → trans_wf s1.
Proof.
  intros Hl Hw [T1 T2 T3]. assert (nlog s1 = nlog s) as Hn by (unfold nlog; by rewrite Hl).
  assert (∀ k, home s1 k = home s k) as Hh by (intros; unfold home; by rewrite Hl). split.
  - by rewrite Hl.
  - intros k. rewrite Hn, Hh, (wr_size _ _ _ Hw). unfold in_log. rewrite Hl. apply T2.
  - intros j k. rewrite Hn, !Hh. apply T3.
Qed.
Lemma log_quiet_frame s W s1 : lg s1 = lg s → wrote s W s1 → log_quiet s → log_quiet s1.
Proof.
  intros Hl Hw [Q1 Q2]. split.
  - intros n. unfold in_log. rewrite Hl, (wr_busy _ _ _ Hw). apply Q1.
  - intros k. unfold home, nlog. rewrite Hl, (wr_busy _ _ _ Hw). apply Q2.
Qed.

(** The blocks of the transaction are not touched by the writes of the log. *)
Lemma homes_untouched s k b :
  trans_wf s → log_geom s → (k < nlog s)%nat →
  home s k ∉ (slot_writes s ++ [(lg_start (lg s), b)]).*1.
Proof.
  intros Ht Hg Hk. destruct (tw_range s Ht k Hk) as [_ Hout]. rewrite fmap_app, elem_of_app, elem_of_slots.
  cbn. rewrite list_elem_of_singleton. intros [(j & Hj & Heq)|Heq].
  - apply Hout. rewrite <-Heq. by apply slot_in_log.
  - by eapply in_log_start_ne.
Qed.

(** When the slots hold the transaction, installing it writes the blocks home. *)
Lemma home_writes_slots s s2 :
  lg s2 = lg s → (∀ k, (k < nlog s)%nat → view s2 (log_slot s k) = view s (home s k)) →
  home_writes s2 = (λ k, (home s k, view s (home s k))) <$> seq 0 (nlog s).
Proof.
  intros Hl Hs. assert (nlog s2 = nlog s) as Hn by (unfold nlog; by rewrite Hl).
  unfold home_writes. rewrite Hn. apply list_fmap_ext. intros i k Hk. apply lookup_seq in Hk as [-> Hk].
  unfold log_slot, home. rewrite Hl. fold (log_slot s (0 + i)). fold (home s (0 + i)). by rewrite Hs.
Qed.

(** The header is not among the blocks of the transaction. *)
Lemma start_not_home s (g : nat → block) :
  trans_wf s → log_geom s → lg_start (lg s) ∉ ((λ k, (home s k, g k)) <$> seq 0 (nlog s)).*1.
Proof.
  intros Ht Hg. rewrite <-list_fmap_compose, list_elem_of_fmap. cbn. intros (k & Heq & Hk).
  apply elem_of_seq in Hk. apply (in_log_start_ne s (home s k)); [|done..]. apply (tw_range s Ht k). lia.
Qed.

Lemma commit_spec s :
  log_wf s → log_quiet s → (0 < spares s)%nat → 0 < lh_n (lg s) →
  returns commit s (λ _ s', wrote s (commit_writes s) s' ∧ lg s' = set_lh_n 0 (lg s)).
Proof.
  intros [Hwf Hg Ht Hpin] Hq Hsp Hn. unfold commit. eapply returns_bind_eq; [done|].
  rewrite (proj2 (Z.ltb_lt _ _) Hn).
  assert (∀ k, (k < nlog s)%nat → pinned s (home s k)) as Hp by (intros; apply Hpin; eauto).
  assert (∀ n, in_log s n → ¬ pinned s n) as Hnp.
  { intros n Hin Hpn. apply Hpin in Hpn as (k & Hk & <-). by apply (tw_range s Ht k). }
  pose proof (start_in_log s Hg) as Hst.
  (* write_log *)
  rstep write_log_spec; [done..|]. intros _ s1 [W1 L1].
  assert (view s1 (lg_start (lg s)) = header_block s) as Hv1.
  { rewrite (wr_view _ _ _ W1). by rewrite view_writes_notin by apply start_not_slot. }
  assert (header_write s1 = header_write s) as Hh1.
  { unfold header_write, home. by rewrite L1, Hv1. }
  pose proof (wr_spares _ _ _ W1).
  (* write_head *)
  rstep write_head_spec.
  { apply W1. } { by eapply lg_frame. } { rewrite L1. apply Ht. }
  { rewrite L1, (wr_busy _ _ _ W1). by apply (lq_log s Hq). }
  { rewrite L1, (wr_pinned _ _ _ W1). intros [_ Hc]. by apply (Hnp _ Hst). } { lia. }
  intros _ s2 [W2 L2]. rewrite Hh1 in W2. rewrite L1 in L2.
  pose proof (wrote_trans _ _ _ _ _ W1 W2) as W12.
  assert (∀ k, (k < nlog s)%nat → view s2 (log_slot s k) = view s (home s k)) as Hsl.
  { intros k Hk. rewrite (wr_view _ _ _ W2). cbn. rewrite decide_False by (unfold log_slot; lia).
    rewrite (wr_view _ _ _ W1). by apply view_slot_writes. }
  (* install_trans *)
  pose proof (wr_spares _ _ _ W12).
  assert (∀ k, home s2 k = home s k) as Hhome by (intros; unfold home; by rewrite L2).
  assert (nlog s2 = nlog s) as Hnl by (unfold nlog; by rewrite L2).
  rstep install_trans_spec.
  { apply W2. } { by eapply lg_frame. } { by eapply trans_wf_frame. } { by eapply log_quiet_frame. } { lia. }
  { left. intros k. rewrite Hnl, Hhome, (wr_pinned _ _ _ W12). intros Hk.
    split; [by apply homes_untouched|by apply Hp]. }
  intros _ s3 [W3 L3]. rewrite (home_writes_slots s s2 L2 Hsl) in W3.
  pose proof (wrote_trans _ _ _ _ _ W12 W3) as W123.
  (* the empty header *)
  eapply returns_bind_eq; [done|]. rewrite L3, L2. cbn beta.
  pose proof (wrote_lg _ _ _ (set_lh_n 0 (lg s)) W123) as W4.
  set (s4 := set_lg (set_lh_n 0 (lg s)) s3) in *.
  pose proof (wr_spares _ _ _ W4). destruct (lgm_size s Hg).
  rstep (write_head_spec s4).
  { apply W4. }
  { pose proof (wr_size _ _ _ W4) as Hz. destruct Hg. split; rewrite ?Hz; done. }
  { cbn. lia. } { rewrite (wr_busy _ _ _ W4). by apply (lq_log s Hq). }
  { rewrite (wr_pinned _ _ _ W4). intros [_ Hc]. by apply (Hnp _ Hst). } { lia. }
  intros _ s5 [W5 L5]. split; [|done].
  unfold commit_writes. rewrite !app_assoc. eapply wrote_trans; [done|].
  assert (view s4 (lg_start (lg s)) = hdr_of (header_block s) (lh_n (lg s)) (home s)) as Hv4.
  { change (view s4) with (view s3). rewrite (wr_view _ _ _ W3), view_writes_notin by (by apply start_not_home).
    rewrite (wr_view _ _ _ W2). cbn. by rewrite decide_True. }
  unfold header_write in W5. cbn in W5. rewrite Hv4 in W5. done.
Qed.
End commit.
