(* ===== verification/LogCrash.v ===== *)
(** * Crashes and recovery

    A crash keeps a prefix of the writes that reached the disk and loses the
    rest of the memory.  [logical d] is the content the blocks of a disk have once
    the log on it is replayed; [recover_from_log] is shown to install it, [commit]
    to change it at one write only, and recovery itself not to change it. *)
From S2P Require Import Prelude Params Block Bio BioInv BioSpec Log LogSpec.

(** Where the log lies. *)
Record geometry := mkgeom { g_start : Z; g_size : Z; g_disk : Z }.

Definition geom_of (s : storage) : geometry :=
  mkgeom (lg_start (lg s)) (lg_size (lg s)) (disksize s).

Definition in_region (g : geometry) (n : Z) : Prop := g_start g <= n < g_start g + g_size g.

Definition disk_hdr (g : geometry) (d : gmap Z block) : block := disk_block d (g_start g).

(** The writes that replay the log of disk [d]. *)
Definition redo (g : geometry) (d : gmap Z block) : list (Z * block) :=
  (λ k, (hdr_block (disk_hdr g d) k, disk_block d (g_start g + Z.of_nat k + 1)))
    <$> seq 0 (Z.to_nat (hdr_n (disk_hdr g d))).

Definition logical (g : geometry) (d : gmap Z block) : Z → block :=
  view_writes (disk_block d) (redo g d).

(** The header on the disk describes a transaction. *)
Record hdr_wf (g : geometry) (h : block) : Prop := {
  hw_n : 0 <= hdr_n h < g_size g;
  hw_range : ∀ k, (k < Z.to_nat (hdr_n h))%nat →
    0 <= hdr_block h k < g_disk g ∧ ¬ in_region g (hdr_block h k);
  hw_inj : ∀ j k, (j < Z.to_nat (hdr_n h))%nat → (k < Z.to_nat (hdr_n h))%nat →
    hdr_block h j = hdr_block h k → j = k;
}.

(** ** Sequences of writes *)
Section writes.
Implicit Types (d : gmap Z block) (W : list (Z * block)).

Lemma apply_writes_app d W1 W2 : apply_writes d (W1 ++ W2) = apply_writes (apply_writes d W1) W2.
Proof. unfold apply_writes. by rewrite foldl_app. Qed.

Lemma disk_block_writes d W n : disk_block (apply_writes d W) n = view_writes (disk_block d) W n.
Proof.
  revert d. induction W as [|w W IH]; intros d; simpl; [done|].
  rewrite IH. apply view_writes_ext. intros m. apply disk_block_insert.
Qed.

Lemma disk_block_notin d W n : n ∉ W.*1 → disk_block (apply_writes d W) n = disk_block d n.
Proof. intros. by rewrite disk_block_writes, view_writes_notin. Qed.

(** Writes at distinct places. *)
Lemma view_writes_at v (f : nat → Z) (c : nat → block) N (k : nat) :
  (k < N)%nat → (∀ j, (j < N)%nat → f j = f k → j = k) →
  view_writes v ((λ j, (f j, c j)) <$> seq 0 N) (f k) = c k.
Proof.
  revert v. induction N as [|N IH]; intros v Hk Hinj; [lia|].
  rewrite seq_S, fmap_app. unfold view_writes. rewrite foldl_app. simpl.
  case_decide as Hd; [by rewrite (Hinj N) by (lia || done)|].
  apply IH; [|intros; apply Hinj; [lia|done]].
  assert (k ≠ N) by (intros ->; done). lia.
Qed.

Lemma elem_of_indexed (f : nat → Z) (c : nat → block) N n :
  n ∈ ((λ j, (f j, c j)) <$> seq 0 N).*1 ↔ ∃ k, (k < N)%nat ∧ f k = n.
Proof.
  rewrite <-list_fmap_compose, list_elem_of_fmap. cbn.
  split; intros (k & H1 & H2); exists k.
  - apply elem_of_seq in H2. split; [lia|done].
  - split; [done|]. apply elem_of_seq. lia.
Qed.
End writes.

(** ** The logical content of a disk *)
Section logical.
Context (g : geometry).
Implicit Types (d : gmap Z block) (W : list (Z * block)).
Hypothesis Hsize : 1 <= g_size g.

Lemma logical_empty d n : hdr_n (disk_hdr g d) = 0 → logical g d n = disk_block d n.
Proof using Type. intros H. unfold logical, redo. by rewrite H. Qed.

Lemma hdr_wf_empty h : hdr_n h = 0 → hdr_wf g h.
Proof using Hsize. intros H0. split; rewrite H0; [lia|..]; intros; lia. Qed.

(** The slots a valid header refers to, and the header, lie in the log. *)
Lemma region_start : in_region g (g_start g).
Proof using Hsize. unfold in_region. lia. Qed.

Lemma region_slot h k : hdr_wf g h → (k < Z.to_nat (hdr_n h))%nat →
  in_region g (g_start g + Z.of_nat k + 1).
Proof using Type. clear. intros [Hn _ _]. unfold in_region. lia. Qed.

(** Writes that follow the redo list do not change the logical content. *)
Lemma logical_redo_prefix d P R n :
  hdr_wf g (disk_hdr g d) → redo g d = P ++ R → ¬ in_region g n →
  logical g (apply_writes d P) n = logical g d n ∧ disk_hdr g (apply_writes d P) = disk_hdr g d.
Proof using Hsize.
  intros Hh HPR Hn.
  assert (∀ m, in_region g m → disk_block (apply_writes d P) m = disk_block d m) as Hlog.
  { intros m Hm. apply disk_block_notin. intros Hin.
    assert (m ∈ (redo g d).*1) as Hin' by (rewrite HPR, fmap_app; set_solver).
    apply elem_of_indexed in Hin' as (k & Hk & <-). by apply (hw_range g _ Hh k Hk). }
  assert (disk_hdr g (apply_writes d P) = disk_hdr g d) as Hhd by (apply Hlog, region_start).
  split; [|done].
  assert (redo g (apply_writes d P) = redo g d) as Hredo.
  { unfold redo. rewrite Hhd. apply list_fmap_ext. intros i k Hk.
    apply lookup_seq in Hk as [-> Hk]. f_equal. apply Hlog. by eapply region_slot. }
  unfold logical. rewrite Hredo.
  destruct (decide (n ∈ (redo g d).*1)) as [Hin|Hin].
  - apply elem_of_indexed in Hin as (k & Hk & <-). unfold redo.
    rewrite !view_writes_at; [done|..]; try done; intros; by apply (hw_inj g _ Hh).
  - rewrite !view_writes_notin by done. apply disk_block_notin.
    intros Hc. apply Hin. rewrite HPR, fmap_app. set_solver.
Qed.

(** Once the log is replayed and emptied, the disk is its logical content. *)
Lemma logical_redo_done d h0 n :
  hdr_wf g (disk_hdr g d) → hdr_n h0 = 0 → ¬ in_region g n →
  logical g (apply_writes d (redo g d ++ [(g_start g, h0)])) n = logical g d n
  ∧ disk_block (apply_writes d (redo g d ++ [(g_start g, h0)])) n = logical g d n.
Proof using Hsize.
  intros Hh H0 Hn. rewrite apply_writes_app. cbn.
  assert (n ≠ g_start g) as Hne by (intros ->; by apply Hn, region_start).
  rewrite logical_empty.
  - rewrite !disk_block_insert, decide_False by done. by rewrite disk_block_writes.
  - unfold disk_hdr. by rewrite disk_block_insert, decide_True.
Qed.
End logical.

(** ** A crash in the middle of commit *)
Section commit_crash.
Context (s : storage).
Hypothesis Hlog : log_wf s.
(** No committed transaction is left in the log. *)
Hypothesis Hempty : hdr_n (disk_block (memdisk s) (lg_start (lg s))) = 0.

Abbreviation g := (geom_of s).
Definition homes (s : storage) : list (Z * block) :=
  (λ k, (home s k, view s (home s k))) <$> seq 0 (nlog s).

(** The content of the blocks before and after the transaction. *)
Definition old_content (s : storage) : Z → block := disk_block (memdisk s).
Definition new_content (s : storage) : Z → block := view_writes (disk_block (memdisk s)) (homes s).

Lemma g_size_pos : 1 <= g_size g.
Proof using Hlog. apply (lgm_size s (lw_geom s Hlog)). Qed.

(** After the header is written the disk holds the transaction. *)
Abbreviation d1 := (apply_writes (memdisk s) (slot_writes s ++ [header_write s])).

Lemma d1_hdr : disk_hdr g d1 = hdr_of (header_block s) (lh_n (lg s)) (home s).
Proof using Type.
  clear. unfold disk_hdr. rewrite apply_writes_app. cbn. by rewrite disk_block_insert, decide_True.
Qed.

Lemma header_ok : blk_ok (header_block s).
Proof using Hlog. apply view_ok, Hlog. Qed.

Lemma d1_n : hdr_n (disk_hdr g d1) = lh_n (lg s).
Proof using Hlog.
  rewrite d1_hdr. pose proof (tw_n s (lw_trans s Hlog)).
  destruct (lgm_size s (lw_geom s Hlog)). apply hdr_n_of; [apply header_ok|lia].
Qed.

Lemma d1_block k : (k < nlog s)%nat → hdr_block (disk_hdr g d1) k = home s k.
Proof using Hlog.
  intros Hk. rewrite d1_hdr. pose proof (tw_n s (lw_trans s Hlog)).
  destruct (lgm_size s (lw_geom s Hlog)). pose proof (lgm_disk s (lw_geom s Hlog)).
  destruct (tw_range s (lw_trans s Hlog) k Hk).
  apply hdr_block_of; [apply header_ok|lia|done|unfold is_s32; lia].
Qed.

Lemma d1_wf : hdr_wf g (disk_hdr g d1).
Proof using Hlog.
  split; rewrite ?d1_n; fold (nlog s).
  - apply (tw_n s (lw_trans s Hlog)).
  - intros k Hk. rewrite d1_block by done. by apply (tw_range s (lw_trans s Hlog)).
  - intros j k Hj Hk. rewrite !d1_block by done. by apply (tw_inj s (lw_trans s Hlog)).
Qed.

Lemma d1_redo : redo g d1 = homes s.
Proof using Hlog.
  unfold redo, homes. rewrite d1_n. fold (nlog s). apply list_fmap_ext. intros i k Hk.
  apply lookup_seq in Hk as [-> Hk]. rewrite d1_block by done. f_equal.
  rewrite apply_writes_app. cbn. rewrite disk_block_insert, decide_False by lia.
  rewrite disk_block_writes. by apply view_slot_writes.
Qed.

Lemma outside_writes n : ¬ in_log s n → n ∉ (slot_writes s ++ [header_write s]).*1.
Proof using Hlog.
  intros Hn. rewrite fmap_app, elem_of_app, elem_of_slots. cbn. rewrite list_elem_of_singleton.
  intros [(k & Hk & <-)| ->]; [|by apply Hn, start_in_log, Hlog].
  apply Hn, slot_in_log; [apply Hlog|done].
Qed.

Lemma d1_logical n : ¬ in_log s n → logical g d1 n = new_content s n.
Proof using Hlog.
  intros Hn. unfold logical, new_content. rewrite d1_redo. unfold homes.
  destruct (decide (n ∈ (homes s).*1)) as [Hin|Hin]; unfold homes in Hin.
  - apply elem_of_indexed in Hin as (k & Hk & <-).
    rewrite !view_writes_at; [done|..]; try done; intros; by apply (tw_inj s (lw_trans s Hlog)).
  - rewrite !view_writes_notin by done. by apply disk_block_notin, outside_writes.
Qed.

(** Every prefix of the writes of [commit] leaves the disk with the content before
    the transaction or with the content after it; in both cases the header on the
    disk is valid. *)
Lemma commit_prefix P R :
  commit_writes s = P ++ R →
  hdr_wf g (disk_hdr g (apply_writes (memdisk s) P)) ∧
  ((∀ n, ¬ in_log s n → logical g (apply_writes (memdisk s) P) n = old_content s n) ∨
   (∀ n, ¬ in_log s n → logical g (apply_writes (memdisk s) P) n = new_content s n)).
Proof using All.
  pose proof g_size_pos as Hsz.
  unfold commit_writes. fold (homes s). intros H.
  apply app_eq_inv in H as [(K & HK & _)|(K & -> & HR)].
  - assert (¬ (lg_start (lg s) ∈ P.*1)) as Hst.
    { intros Hin. apply (start_not_slot s). rewrite HK, fmap_app. set_solver. }
    assert (hdr_n (disk_hdr g (apply_writes (memdisk s) P)) = 0) as H0.
    { unfold disk_hdr. cbn [g_start geom_of]. by rewrite disk_block_notin. }
    split; [by apply hdr_wf_empty|]. left. intros n Hn.
    rewrite logical_empty by done. apply disk_block_notin.
    intros Hin. apply (outside_writes n Hn). rewrite HK, !fmap_app. set_solver.
  - destruct K as [|w K]; simplify_eq/=.
    { rewrite app_nil_r.
      assert (hdr_n (disk_hdr g (apply_writes (memdisk s) (slot_writes s))) = 0) as H0.
      { unfold disk_hdr. cbn [g_start geom_of]. rewrite disk_block_notin; [done|apply start_not_slot]. }
      split; [by apply hdr_wf_empty|]. left. intros n Hn.
      rewrite logical_empty by done. apply disk_block_notin.
      intros Hin. apply (outside_writes n Hn). rewrite fmap_app, elem_of_app. by left. }
    rename select (_ ++ _ = K ++ R) into HR.
    rewrite cons_middle, app_assoc, apply_writes_app.
    assert (∃ P2 R2, homes s = P2 ++ R2 ∧ (K = P2 ∨ (R2 = [] ∧ R = [] ∧ K = P2 ++
       [(lg_start (lg s), hdr_of (hdr_of (header_block s) (lh_n (lg s)) (home s)) 0 (home s))])))
      as (P2 & R2 & HP2 & HK).
    { apply app_eq_inv in HR as [(K2 & HK2 & HR)|(K2 & HK2 & HR)]; [by exists K, K2; auto|].
      destruct K2 as [|w2 K2]; simplify_eq/=.
      - exists (homes s), []. rewrite !app_nil_r. auto.
      - exists (homes s), []. rewrite app_nil_r. destruct K2, R; simplify_eq/=. auto. }
    rewrite <-d1_redo in HP2. destruct HK as [->|(-> & -> & ->)].
    + split.
      * destruct (logical_redo_prefix g Hsz d1 P2 R2 (g_start g - 1) d1_wf HP2) as [_ ->];
          [unfold in_region; lia|apply d1_wf].
      * right. intros n Hn. rewrite <-d1_logical by done. by apply (logical_redo_prefix g Hsz d1 P2 R2 n d1_wf HP2).
    + rewrite app_nil_r in HP2. rewrite <-HP2.
      assert (hdr_n (hdr_of (hdr_of (header_block s) (lh_n (lg s)) (home s)) 0 (home s)) = 0) as H0.
      { apply hdr_n_of; [apply hdr_of_ok, header_ok|unfold LOGSIZE, MAXOPBLOCKS; lia]. }
      split.
      * apply hdr_wf_empty; [done|]. unfold disk_hdr. rewrite apply_writes_app. cbn.
        by rewrite disk_block_insert, decide_True.
      * right. intros n Hn. rewrite <-d1_logical by done.
        by apply (logical_redo_done g Hsz d1 _ n d1_wf).
Qed.
End commit_crash.

(** ** Recovery *)
Section recovery.
Implicit Types s : storage.

(** The variables of the log, apart from the header in memory. *)
Definition same_log_area (s s' : storage) : Prop :=
  lg_start (lg s') = lg_start (lg s) ∧ lg_size (lg s') = lg_size (lg s)
  ∧ lg_dev (lg s') = lg_dev (lg s) ∧ lg_lock (lg s') = lg_lock (lg s)
  ∧ lg_outstanding (lg s') = lg_outstanding (lg s)
  ∧ lg_committing (lg s') = lg_committing (lg s).

Lemma lh_put_eq s i v : (i < length (lh_block (lg s)))%nat →
  lh_put i v s = Ret tt (set_lg (set_lh_block (<[i := v]> (lh_block (lg s))) (lg s)) s).
Proof. intros Hi. unfold lh_put. rewrite bind_gets. by rewrite bool_decide_true. Qed.

(** A block read and released, nothing changed. *)
Lemma release_clean s i n s1 s2 :
  cache_wf s → bread_post s n i s1 → wrote s1 [] s2 → ¬ busy s n →
  returns (brelse i) s2 (λ _ s', wrote s [] s' ∧ lg s' = lg s2).
Proof.
  intros Hwf [B1 B2 B3 B4 B5 B6 B7 B8 B9 B10 B11] [A1 A2 A3 A4 A5 A6 A7 A8 A9 A10] Hb.
  rewrite app_nil_r in A7. cbn in *.
  assert (∀ m, pinned s2 m ↔ pinned s m) as Hp.
  { intros m. rewrite A8, B8. pose proof (not_elem_of_nil m). tauto. }
  rstep brelse_spec; [done|apply A4, B4; by left| |].
  { rewrite Hp, A5, B5, A6, B6. by apply quiet_settled. }
  intros _ s3 [R1 [R2a R2b R2c] R3 R4 R5 R6 R7 R8 R9 R10]. destruct B2. split; [|done].
  split; cbn; try congruence.
  - intros j m. rewrite R3, A4, B4. split; [naive_solver|].
    intros Hm. split; [|auto]. intros ->. by apply (B3 m).
  - by rewrite R6, A7, B7, app_nil_r.
  - intros m. rewrite R7, Hp. pose proof (not_elem_of_nil m). tauto.
  - intros m. rewrite R8, A9, B9. split; [naive_solver|].
    intros Hm. split; [|auto]. intros ->. done.
  - destruct (pinned_dec s n Hwf) as [Hpn|Hpn].
    + rewrite <-(B11 Hpn). lia.
    + rewrite R10; [lia|]. by rewrite Hp.
Qed.

Definition quiet_state (s : storage) : Prop :=
  (∀ n, ¬ busy s n) ∧ (∀ n, ¬ pinned s n) ∧ (1 < spares s)%nat.

Lemma wrote_quiet s s' : wrote s [] s' → quiet_state s → quiet_state s'.
Proof.
  intros Hw (Hb & Hp & Hs). split_and!.
  - intros n. rewrite (wr_busy _ _ _ Hw). apply Hb.
  - intros n. rewrite (wr_pinned _ _ _ Hw). intros [_ ?]. by apply (Hp n).
  - pose proof (wr_spares _ _ _ Hw). lia.
Qed.

Lemma wrote_nil_view s s' : wrote s [] s' → ∀ n, view s' n = view s n.
Proof. intros Hw n. by rewrite (wr_view _ _ _ Hw). Qed.

Lemma read_head_spec s :
  cache_wf s → log_geom s → quiet_state s →
  hdr_wf (geom_of s) (view s (lg_start (lg s))) →
  returns read_head s (λ _ s', wrote s [] s' ∧ same_log_area s s'
    ∧ length (lh_block (lg s')) = length (lh_block (lg s))
    ∧ lh_n (lg s') = hdr_n (view s (lg_start (lg s)))
    ∧ ∀ k, (k < nlog s')%nat → home s' k = hdr_block (view s (lg_start (lg s))) k).
Proof.
  intros Hwf Hg (Hb & Hp & Hs) Hh. unfold read_head. eapply returns_bind_eq; [done|].
  set (h := lg_start (lg s)) in *.
  destruct (lgm_region s Hg), (lgm_size s Hg) as [? Hls]. rewrite (lgm_dev s Hg).
  rstep bread_spec; [done|unfold h in *; lia|by apply Hb|right; lia|].
  intros i s1 Hbr. pose proof (same_lg _ _ (br_same _ _ _ _ Hbr)) as L1.
  eapply returns_bind_eq; [eapply buf_data_spec; [apply Hbr|apply Hbr; by left]|].
  rewrite (br_view _ _ _ _ Hbr). eapply returns_bind_eq; [done|].
  eapply returns_bind_eq; [done|]. unfold lh_range. cbn [lg set_lg lh_n set_lh_n].
  set (N := Z.to_nat (hdr_n (view s h))).
  assert (N < length (lh_block (lg s)))%nat as HN.
  { rewrite (lgm_len s Hg). pose proof (hw_n _ _ Hh). unfold N. cbn [g_size geom_of] in *. lia. }
  apply returns_bind. apply returns_mfor with (P := λ done s2,
    wrote s1 [] s2 ∧ same_log_area s s2 ∧ length (lh_block (lg s2)) = length (lh_block (lg s))
    ∧ lh_n (lg s2) = hdr_n (view s h) ∧ (∀ k, k ∈ done → home s2 k = hdr_block (view s h) k)).
  - split_and!; [apply wrote_lg, wrote_nil, Hbr| |by cbn; rewrite L1|done|by intros k ?%not_elem_of_nil].
    unfold same_log_area. cbn. rewrite L1. done.
  - intros done k rest s2 Hseq (Hw & Ha & Hl & Hn & Hk).
    assert (k < N)%nat as HkN.
    { assert (k ∈ seq 0 N) as Hin by (rewrite Hseq; set_solver). apply elem_of_seq in Hin. lia. }
    apply returns_eq. do 2 eexists. split; [apply lh_put_eq; rewrite Hl; lia|].
    split_and!; [by apply wrote_lg|done|cbn; by rewrite length_insert|done|].
    intros j Hj. apply elem_of_app in Hj. unfold home. cbn.
    destruct (decide (j = k)) as [->|Hne].
    + apply list_lookup_total_correct, list_lookup_insert_eq. lia.
    + rewrite list_lookup_total_insert_ne by done. apply Hk.
      destruct Hj as [?|Hj]; [done|]. apply list_elem_of_singleton in Hj. done.
  - intros s2 (Hw & Ha & Hl & Hn & Hk).
    rstep (release_clean s i h s1 s2); [done|done|done|by apply Hb|].
    intros _ s3 [Hw3 L3]. unfold same_log_area, home, nlog in *. rewrite L3. split_and!; try apply Ha; try done.
    intros k Hkn. apply Hk, elem_of_seq. unfold N. rewrite Hn in Hkn. lia.
Qed.

Lemma recover_spec s :
  cache_wf s → log_geom s → quiet_state s →
  hdr_wf (geom_of s) (disk_hdr (geom_of s) (memdisk s)) →
  returns recover_from_log s (λ _ s', ∃ h0,
    wrote s (redo (geom_of s) (memdisk s) ++ [(lg_start (lg s), h0)]) s'
    ∧ hdr_n h0 = 0 ∧ same_log_area s s' ∧ log_geom s' ∧ lh_n (lg s') = 0).
Proof.
  intros Hwf Hg Hq Hh. destruct (lgm_size s Hg).
  assert (∀ n, view s n = disk_block (memdisk s) n) as Hvd.
  { intros n. apply view_disk; [done|apply Hq..]. }
  unfold recover_from_log.
  rstep read_head_spec; [done..|by rewrite Hvd|].
  intros _ s1 (W1 & (A1 & A2 & A3 & A4 & A5 & A6) & L1 & N1 & H1). rewrite Hvd in N1, H1.
  fold (disk_hdr (geom_of s) (memdisk s)) in N1, H1.
  set (hd := disk_hdr (geom_of s) (memdisk s)) in *.
  assert (quiet_state s1) as Hq1 by (by eapply wrote_quiet).
  assert (log_geom s1) as Hg1.
  { destruct Hg. split; rewrite ?A1, ?A2, ?A3, ?L1, ?(wr_size _ _ _ W1); done. }
  assert (in_log s1 = in_log s) as Hil by (unfold in_log; by rewrite A1, A2).
  assert (trans_wf s1) as Ht1.
  { split.
    - rewrite N1, A2. apply (hw_n _ _ Hh).
    - intros k Hk. rewrite H1, Hil, (wr_size _ _ _ W1) by done.
      apply (hw_range _ _ Hh). unfold nlog in Hk. by rewrite N1 in Hk.
    - intros j k Hj Hk. rewrite !H1 by done. unfold nlog in *. rewrite N1 in *.
      by apply (hw_inj _ _ Hh). }
  destruct Hq1 as (Hb1 & Hp1 & Hs1).
  rstep install_trans_spec; [apply W1|done|done|split; intros; apply Hb1|lia|by right|].
  intros _ s2 [W2 L2].
  assert (home_writes s1 = redo (geom_of s) (memdisk s)) as Hhw.
  { unfold home_writes, redo. unfold nlog. fold hd. rewrite N1. apply list_fmap_ext.
    intros i k Hk. apply lookup_seq in Hk as [-> Hk]. rewrite H1 by (unfold nlog; by rewrite N1).
    f_equal. rewrite (wrote_nil_view _ _ W1), Hvd. unfold log_slot. by rewrite A1. }
  rewrite Hhw in W2. pose proof (wrote_trans _ _ _ _ _ W1 W2) as W12. cbn in W12.
  eapply returns_bind_eq; [done|]. cbn beta. rewrite L2.
  pose proof (wrote_lg _ _ _ (set_lh_n 0 (lg s1)) W12) as W3.
  set (s3 := set_lg (set_lh_n 0 (lg s1)) s2) in *.
  assert (log_geom s3) as Hg3.
  { destruct Hg1. pose proof (wr_size _ _ _ W3). pose proof (wr_size _ _ _ W1).
    split; try done; cbn in *; congruence. }
  pose proof (wr_spares _ _ _ W3). destruct Hq as (Hb & Hp & Hs).
  rstep (write_head_spec s3).
  { apply W3. } { done. } { cbn. lia. } { rewrite (wr_busy _ _ _ W3). apply Hb. }
  { rewrite (wr_pinned _ _ _ W3). intros [_ ?]. by eapply Hp. } { lia. }
  intros _ s4 [W4 L4]. exists (hdr_of (view s3 (lg_start (lg s))) 0 (home s3)).
  pose proof (wrote_trans _ _ _ _ _ W3 W4) as W34. unfold header_write in W34. cbn in W34.
  rewrite A1 in W34. split; [done|]. split; [|split; [by unfold same_log_area; rewrite L4|]].
  - apply hdr_n_of; [apply view_ok, W3|unfold LOGSIZE, MAXOPBLOCKS; lia].
  - split; [|by rewrite L4]. destruct Hg3. pose proof (wr_size _ _ _ W4).
    split; rewrite ?L4; try done; cbn in *; congruence.
Qed.
End recovery.
