(* ===== verification/LogOps.v ===== *)
(** * The operations file-system calls use: begin_op, log_write, end_op *)
From S2P Require Import Prelude Params Block Bio BioInv BioSpec Log LogSpec LogCrash.

(** The effect of [log_write] on block [n]. *)
Record logged (s : storage) (n : Z) (s' : storage) : Prop := {
  lgd_wf : log_wf s';
  lgd_pid : cur_pid s' = cur_pid s;
  lgd_size : disksize s' = disksize s;
  lgd_area : same_log_area s s';
  lgd_holds : ∀ j m, holds s' j m ↔ holds s j m;
  lgd_view : ∀ m, view s' m = view s m;
  lgd_disk : memdisk s' = memdisk s;
  lgd_trace : wtrace s' = wtrace s;
  lgd_pinned : ∀ m, pinned s' m ↔ m = n ∨ pinned s m;
  lgd_busy : ∀ m, busy s' m ↔ busy s m;
  lgd_spares : spares s' = spares s;
  lgd_n : (pinned s n → lh_n (lg s') = lh_n (lg s))
    ∧ (¬ pinned s n → lh_n (lg s') = lh_n (lg s) + 1);
}.

Section log_write.
Implicit Types s : storage.

Lemma acquire_log_eq s : lg_lock (lg s) = false →
  acquire_log s = Ret tt (set_lg (set_lg_lock true (lg s)) s).
Proof. intros H. unfold acquire_log. by rewrite H. Qed.

Lemma release_log_eq s : lg_lock (lg s) = true →
  release_log s = Ret tt (set_lg (set_lg_lock false (lg s)) s).
Proof. intros H. unfold release_log. by rewrite H. Qed.

(** The absorbtion loop finds the entry of block [n], if there is one. *)
Lemma absorb_scan s n :
  (nlog s ≤ length (lh_block (lg s)))%nat →
  mfind (lh_range s) (λ i, v ← lh_get i; mret (v =? n)) s
  = Ret (List.find (λ i, home s i =? n) (seq 0 (nlog s))) s.
Proof.
  intros Hl. apply mfind_pure. intros i Hi. apply elem_of_seq in Hi.
  erewrite bind_ret; [|apply lh_get_eq; lia]. done.
Qed.

(** The header in memory after the entry of block [n] is recorded at [i]. *)
Definition lh_record (l : logst) (i : nat) (n : Z) : logst :=
  set_lh_n (if Z.of_nat i =? lh_n l then lh_n l + 1 else lh_n l)
    (set_lh_block (<[i := n]> (lh_block l)) l).

Lemma log_write_eq s b buf (i : nat) :
  lg_lock (lg s) = false → bufs s !! b = Some buf →
  0 <= lh_n (lg s) < lg_size (lg s) - 1 → lh_n (lg s) < LOGSIZE →
  length (lh_block (lg s)) = Z.to_nat LOGSIZE → 1 <= lg_outstanding (lg s) →
  default (nlog s) (List.find (λ i, home s i =? b_blockno buf) (seq 0 (nlog s))) = i →
  (i < Z.to_nat LOGSIZE)%nat →
  log_write b s = Ret tt (set_lg (lh_record (lg s) i (b_blockno buf))
    (set_bufs (<[b := set_b_dirty true buf]> (bufs s)) s)).
Proof.
  intros Hlk Hb Hn1 Hn2 Hlen Hout Hi Hlt. unfold log_write. rewrite bind_gets.
  destruct (Z.leb_spec LOGSIZE (lh_n (lg s))); [lia|].
  destruct (Z.leb_spec (lg_size (lg s) - 1) (lh_n (lg s))); [lia|]. cbn [orb].
  destruct (Z.ltb_spec (lg_outstanding (lg s)) 1); [lia|].
  erewrite bind_ret by (by apply acquire_log_eq).
  set (s1 := set_lg _ s). erewrite bind_ret by (by apply getb_eq).
  rewrite bind_gets.
  erewrite bind_ret; [|apply (absorb_scan s1); cbn; unfold nlog; cbn; rewrite Hlen; lia].
  change (List.find _ (seq 0 (nlog s1)))
    with (List.find (λ i, home s i =? b_blockno buf) (seq 0 (nlog s))).
  assert (length (lh_range s1) = nlog s) as -> by (unfold lh_range; by rewrite length_seq).
  cbv zeta. rewrite Hi.
  erewrite bind_ret; [|apply lh_put_eq; cbn; rewrite Hlen; lia].
  unfold lh_record. cbn [lg set_lg lh_block set_lg_lock s1].
  destruct (Z.eqb_spec (Z.of_nat i) (lh_n (lg s))) as [He|He].
  - erewrite bind_ret by done.
    erewrite bind_ret by (apply updb_eq; exact Hb). rewrite release_log_eq by done.
    destruct s as [? ? ? ? ? ? ? ? []]; cbn in *. by subst.
  - rewrite bind_mret.
    erewrite bind_ret by (apply updb_eq; exact Hb). rewrite release_log_eq by done.
    destruct s as [? ? ? ? ? ? ? ? []]; cbn in *. by subst.
Qed.

(** The scan's result: an entry of the transaction, or the slot after the last. *)
Lemma absorb_result s n i :
  default (nlog s) (List.find (λ i, home s i =? n) (seq 0 (nlog s))) = i →
  ((i < nlog s)%nat ∧ home s i = n) ∨ (i = nlog s ∧ ∀ k, (k < nlog s)%nat → home s k ≠ n).
Proof.
  destruct (List.find _ _) as [j|] eqn:E; simpl; intros <-.
  - apply find_some in E as [Hin Hj]. apply list_elem_of_In, elem_of_seq in Hin.
    left. split; [lia|]. by apply Z.eqb_eq.
  - right. split; [done|]. intros k Hk. pose proof (find_none _ _ E k) as Hf. simpl in Hf.
    apply Z.eqb_neq, Hf, list_elem_of_In, elem_of_seq. lia.
Qed.

Lemma nlog_eq s : 0 <= lh_n (lg s) → Z.of_nat (nlog s) = lh_n (lg s).
Proof. intros. unfold nlog. lia. Qed.

(** The transaction with block [n] recorded. *)
Lemma lh_record_trans s s' n i :
  log_wf s → 0 <= n < disksize s → ¬ in_log s n →
  lh_n (lg s) < lg_size (lg s) - 1 →
  lg s' = lh_record (lg s) i n → disksize s' = disksize s →
  ((i < nlog s)%nat ∧ home s i = n) ∨ (i = nlog s ∧ ∀ k, (k < nlog s)%nat → home s k ≠ n) →
  log_geom s' ∧ trans_wf s'
  ∧ (∀ m, (∃ k, (k < nlog s')%nat ∧ home s' k = m) ↔ m = n ∨ ∃ k, (k < nlog s)%nat ∧ home s k = m).
Proof.
  intros [Hwf Hg Ht Hp] Hr Hout Hroom Hl Hsz Hi.
  destruct Hg as [G1 G2 G3 G4 G5], Ht as [T1 T2 T3].
  assert (in_log s' = in_log s) as Hil by (unfold in_log; by rewrite Hl).
  assert (log_geom s') as Hg' by (split; rewrite ?Hl, ?Hsz; cbn; rewrite ?length_insert; done).
  assert (i < length (lh_block (lg s)))%nat as Hil2.
  { rewrite G2. unfold nlog in Hi. destruct Hi as [[? _]|[-> _]]; lia. }
  assert (home s' i = n) as Hhi.
  { unfold home. rewrite Hl. cbn. by apply list_lookup_total_insert_eq. }
  assert (∀ k, k ≠ i → home s' k = home s k) as Hhk.
  { intros k Hk. unfold home. rewrite Hl. cbn. by rewrite list_lookup_total_insert_ne. }
  destruct Hi as [[Hlt Hin]|[Heq Hnew]].
  - assert (nlog s' = nlog s) as Hn.
    { unfold nlog in *. rewrite Hl. cbn. destruct (Z.eqb_spec (Z.of_nat i) (lh_n (lg s))); [lia|done]. }
    assert (lh_n (lg s') = lh_n (lg s)) as Hn'.
    { rewrite Hl. cbn. unfold nlog in Hlt. destruct (Z.eqb_spec (Z.of_nat i) (lh_n (lg s))); [lia|done]. }
    assert (∀ k, home s' k = home s k) as Hall.
    { intros k. destruct (decide (k = i)) as [->|]; [congruence|by apply Hhk]. }
    split; [done|]. split.
    + split; [rewrite Hn', Hl; cbn; lia|..].
      * intros k. rewrite Hn, Hall, Hsz, Hil. apply T2.
      * intros j k. rewrite Hn, !Hall. apply T3.
    + intros m. rewrite Hn. split.
      * intros (k & Hk & <-). right. exists k. by rewrite Hall.
      * intros [->|(k & Hk & <-)]; [exists i|exists k]; by rewrite Hall.
  - assert (lh_n (lg s') = lh_n (lg s) + 1) as Hn'.
    { rewrite Hl. cbn. unfold nlog in Heq. destruct (Z.eqb_spec (Z.of_nat i) (lh_n (lg s))); [done|lia]. }
    assert (nlog s' = S (nlog s)) as Hn by (unfold nlog in *; rewrite Hn'; lia).
    split; [done|]. split.
    + split; [rewrite Hn', Hl; cbn; lia|..].
      * intros k. rewrite Hn, Hsz, Hil. intros Hk. destruct (decide (k = i)) as [->|Hne]; [by rewrite Hhi|].
        rewrite Hhk by done. apply T2. lia.
      * intros j k. rewrite Hn. intros Hj Hk.
        destruct (decide (j = i)) as [->|Hne], (decide (k = i)) as [->|Hne']; [done|..];
          rewrite ?Hhi, ?Hhk by done; intros He; [|symmetry in He|].
        -- by destruct (Hnew k); [lia|].
        -- destruct (Hnew j); [lia|congruence].
        -- apply T3; [lia|lia|done].
    + intros m. rewrite Hn. split.
      * intros (k & Hk & <-). destruct (decide (k = i)) as [->|Hne]; [by left|right].
        exists k. rewrite Hhk by done. split; [lia|done].
      * intros [->|(k & Hk & <-)]; [exists i; split; [lia|done]|].
        exists k. rewrite Hhk by lia. split; [lia|done].
Qed.

Lemma log_write_spec s b n :
  log_wf s → lg_lock (lg s) = false → holds s b n → ¬ in_log s n →
  lh_n (lg s) < lg_size (lg s) - 1 → 1 <= lg_outstanding (lg s) →
  returns (log_write b) s (λ _, logged s n).
Proof.
  intros Hlw Hlk Hh Hout Hroom Ho.
  pose proof (holds_range s b n (lw_cache s Hlw) Hh) as Hr.
  destruct Hh as (buf & Hb & Hn & Hl). pose proof (lw_cache s Hlw) as Hwf.
  destruct (lgm_size s (lw_geom s Hlw)). pose proof (tw_n s (lw_trans s Hlw)) as Hn0.
  pose proof (lgm_len s (lw_geom s Hlw)) as Hlen.
  pose proof (absorb_result s (b_blockno buf) _ eq_refl) as Hi.
  set (i := default (nlog s) _) in Hi. destruct Hn as [Hdev Hno]. rewrite Hno in Hi.
  assert (i < Z.to_nat LOGSIZE)%nat as Hlt.
  { unfold nlog in Hi. destruct Hi as [[? _]|[-> _]]; lia. }
  apply returns_eq. do 2 eexists. split; [apply (log_write_eq s b buf i); try done; lia|].
  rewrite Hno. set (s' := set_lg _ _).
  pose proof (bw_valid s buf (cw_buf s Hwf b buf Hb) Hdev) as Hv.
  assert (blk_ok (b_data buf)) as Hd by (by apply (bw_data s buf (cw_buf s Hwf b buf Hb))).
  set (b' := set_b_dirty true buf) in s'. set (s1 := set_bufs (<[b := b']> (bufs s)) s) in s'.
  destruct (lh_record_trans s s' n i) as (Hg' & Ht' & Hhomes); try done.
  assert (∀ m, pinned s' m ↔ m = n ∨ pinned s m) as Hpin.
  { intros m. change (pinned s' m) with (tag (λ b, b_dirty b = true) s1 m).
    unfold s1. rewrite (held_tag s b buf b' n) by done. unfold pinned. destruct (decide (m = n)); naive_solver. }
  assert (cache_wf s1) as Hwf1 by (by apply (held_wf s b buf b' n)).
  split; try done.
  - split; [|done|done|].
    + apply (wrote_lg s1 [] s1), wrote_nil. done.
    + intros m. rewrite Hpin, Hhomes, (lw_pinned s Hlw). done.
  - intros j m. change (holds s1 j m ↔ holds s j m). by apply (held_holds s b buf b' n).
  - intros m. change (view s1 m = view s m). unfold s1. rewrite (held_view s b buf b' n) by done.
    case_decide; [subst m|done]. by rewrite (view_cached s b buf n).
  - intros m. change (tag (λ b, sl_locked (b_lock b) = true) s1 m ↔ busy s m).
    by apply (held_tag_same s b buf b' n).
  - change (spares s1 = spares s). by apply (held_spares s b buf b' n).
  - rewrite (lw_pinned s Hlw). unfold s'. cbn. unfold nlog in Hi.
    destruct (Z.eqb_spec (Z.of_nat i) (lh_n (lg s))), Hi as [[? Hin]|[He Hnew]]; try lia.
    + split; [|done]. intros (k & Hk & Hkn). by destruct (Hnew k).
    + split; [done|]. intros Hc. destruct Hc. by exists i.
Qed.

(** The log's invariant under an operation of the buffer cache. *)
Lemma log_wf_bio s s' :
  log_wf s → cache_wf s' → bio_same s s' → (∀ m, pinned s' m ↔ pinned s m) → log_wf s'.
Proof.
  intros [Hwf [G1 G2 G3 G4 G5] [T1 T2 T3] Hp] Hwf' [L _ Hsz] Hp'.
  assert (nlog s' = nlog s) as Hn by (unfold nlog; by rewrite L).
  assert (home s' = home s) as Hh by (unfold home; by rewrite L).
  assert (in_log s' = in_log s) as Hil by (unfold in_log; by rewrite L).
  split; [done|split; rewrite ?L, ?Hsz; done|split; rewrite ?Hn, ?Hh, ?Hil, ?Hsz, ?L; done|].
  intros m. rewrite Hp', Hn, Hh. apply Hp.
Qed.

(** The way fs.c modifies a block. *)
Definition update_block (n : Z) (f : block → block) : M storage unit :=
  b ← bread ROOTDEV n;
  d ← buf_data b;
  set_buf_data b (f d);;
  log_write b;;
  brelse b.

Record updated (s : storage) (n : Z) (d : block) (s' : storage) : Prop := {
  upd_wf : log_wf s';
  upd_area : same_log_area s s';
  upd_size : disksize s' = disksize s;
  upd_pid : cur_pid s' = cur_pid s;
  upd_holds : ∀ j m, holds s' j m ↔ holds s j m;
  upd_view : ∀ m, view s' m = if decide (m = n) then d else view s m;
  upd_disk : memdisk s' = memdisk s;
  upd_trace : wtrace s' = wtrace s;
  upd_pinned : ∀ m, pinned s' m ↔ m = n ∨ pinned s m;
  upd_busy : ∀ m, busy s' m ↔ busy s m;
  upd_n : lh_n (lg s) <= lh_n (lg s') <= lh_n (lg s) + 1;
  upd_spares : (spares s ≤ S (spares s'))%nat;
}.

Lemma update_block_spec s n f :
  log_wf s → lg_lock (lg s) = false → 1 <= lg_outstanding (lg s) →
  lh_n (lg s) < lg_size (lg s) - 1 → 0 <= n < disksize s → ¬ in_log s n → ¬ busy s n →
  cached s n ∨ (0 < spares s)%nat → (∀ d, blk_ok d → blk_ok (f d)) →
  returns (update_block n f) s (λ _, updated s n (f (view s n))).
Proof.
  intros Hl Hlk Ho Hroom Hr Hout Hb Hsp Hf. unfold update_block.
  pose proof (lw_cache s Hl) as Hwf.
  rstep bread_spec; [done..|]. intros i s1 [B1 B2 B3 B4 B5 B6 B7 B8 B9 B10 B11].
  assert (holds s1 i n) as Hh1 by (apply B4; by left).
  eapply returns_bind_eq; [by eapply buf_data_spec|]. rewrite B5.
  rstep edit_spec; [done|exact Hh1|by apply Hf, view_ok|].
  intros _ s2 [E1 E2 E3 E4 E5 E6 E7 E8 E9].
  pose proof (log_wf_bio s s1 Hl B1 B2 B8) as Hl1.
  pose proof (log_wf_bio s1 s2 Hl1 E1 E2 E7) as Hl2.
  pose proof (bio_same_trans _ _ _ B2 E2) as [L2 P2 Z2].
  rstep log_write_spec; [done|by rewrite L2|apply E3, Hh1| |by rewrite L2|by rewrite L2|].
  { unfold in_log. by rewrite L2. }
  intros _ s3 [G1 G2 G3 G4 G5 G6 G7 G8 G9 G10 G11 [G12 G13]].
  rstep brelse_spec; [apply G1|apply G5, E3, Hh1|left; apply G9; by left|].
  intros _ s4 [R1 R2 R3 R4 R5 R6 R7 R8 R9 R10].
  pose proof R2 as [L4 P4 Z4].
  split; try congruence.
  - by eapply log_wf_bio.
  - unfold same_log_area in *. by rewrite L4, <-L2.
  - intros j m. rewrite R3, G5, E3, B4. split; [naive_solver|].
    intros Hm. split; [|by right]. intros ->. by apply (B3 m).
  - intros m. rewrite R4, G6, E4, B5. done.
  - intros m. rewrite R7, G9, E7, B8. done.
  - intros m. rewrite R8, G10, E8, B9. split; [naive_solver|].
    intros Hm. split; [intros ->; done|by right].
  - rewrite L4, <-L2. destruct (pinned_dec s2 n E1) as [Hp|Hp]; [rewrite (G12 Hp)|rewrite (G13 Hp)]; lia.
  - lia.
Qed.

End log_write.

(** ** begin_op and end_op *)
Section ops.
Implicit Types s : storage.

(** States that differ in the log's counters and in the wakeups only. *)
Record same_trans (s s' : storage) : Prop := {
  st_bufs : bufs s' = bufs s;
  st_lru : lru s' = lru s;
  st_bl : bcache_lock s' = bcache_lock s;
  st_disk : memdisk s' = memdisk s;
  st_size : disksize s' = disksize s;
  st_trace : wtrace s' = wtrace s;
  st_pid : cur_pid s' = cur_pid s;
  st_start : lg_start (lg s') = lg_start (lg s);
  st_lsize : lg_size (lg s') = lg_size (lg s);
  st_dev : lg_dev (lg s') = lg_dev (lg s);
  st_n : lh_n (lg s') = lh_n (lg s);
  st_block : lh_block (lg s') = lh_block (lg s);
}.

Lemma same_trans_view s s' : same_trans s s' → view s' = view s.
Proof. intros []. unfold view. by rewrite st_bufs0, st_disk0. Qed.

Lemma same_trans_tag s s' Q : same_trans s s' → tag Q s' = tag Q s.
Proof. intros []. unfold tag. by rewrite st_bufs0. Qed.

Lemma same_trans_cache s s' : same_trans s s' → cache_wf s → cache_wf s'.
Proof.
  intros [H1 H2 H3 H4 H5 _ _ _ _ _ _ _] [C1 C2 C3 C4 C5 C6].
  split; rewrite ?H1, ?H2, ?H3, ?H4; try done.
  intros i b Hi. destruct (C4 i b Hi). split; rewrite ?H4, ?H5; done.
Qed.

Lemma same_trans_wf s s' : same_trans s s' → log_wf s → log_wf s'.
Proof.
  intros Hs [Hwf [G1 G2 G3 G4 G5] [T1 T2 T3] Hp]. pose proof Hs as [].
  assert (nlog s' = nlog s) as Hn by (unfold nlog; congruence).
  assert (home s' = home s) as Hh by (unfold home; by rewrite st_block0).
  assert (in_log s' = in_log s) as Hil by (unfold in_log; by rewrite st_start0, st_lsize0).
  split; [by eapply same_trans_cache|split|split|].
  all: try (rewrite ?Hn, ?Hh, ?Hil; congruence).
  - intros k. rewrite Hn, Hh, Hil, st_size0. apply T2.
  - intros j k. rewrite Hn, Hh. apply T3.
  - intros n. unfold pinned. rewrite (same_trans_tag s s' _ Hs), Hn, Hh. apply Hp.
Qed.

Lemma same_trans_quiet s s' : same_trans s s' → log_quiet s → log_quiet s'.
Proof.
  intros Hs [Q1 Q2]. pose proof Hs as [].
  split; [intros n Hn|intros k Hk]; unfold busy; rewrite (same_trans_tag s s' _ Hs).
  - apply Q1. unfold in_log in *. congruence.
  - unfold home. rewrite st_block0. apply Q2. unfold nlog in *. congruence.
Qed.

Lemma same_trans_holds s s' : same_trans s s' → holds s' = holds s.
Proof. intros []. unfold holds. by rewrite st_bufs0, st_pid0. Qed.

Lemma same_trans_spares s s' : same_trans s s' → spares s' = spares s.
Proof. intros []. unfold spares. by rewrite st_bufs0. Qed.

Lemma wrote_same_r s W s1 s2 : wrote s W s1 → same_trans s1 s2 → wrote s W s2.
Proof.
  intros [A1 A2 A3 A4 A5 A6 A7 A8 A9 A10] Hs. pose proof Hs as [].
  split; try congruence; unfold pinned, busy.
  - by eapply same_trans_cache.
  - intros. rewrite (same_trans_holds _ _ Hs). apply A4.
  - intros. rewrite (same_trans_view _ _ Hs). apply A5.
  - intros. rewrite (same_trans_tag _ _ _ Hs). apply A8.
  - intros. rewrite (same_trans_tag _ _ _ Hs). apply A9.
  - by rewrite (same_trans_spares _ _ Hs).
Qed.

Lemma wrote_same_l s s0 W s1 : same_trans s s0 → wrote s0 W s1 → wrote s W s1.
Proof.
  intros Hs [A1 A2 A3 A4 A5 A6 A7 A8 A9 A10]. pose proof Hs as [].
  rewrite (same_trans_view _ _ Hs) in A5. rewrite (same_trans_holds _ _ Hs) in A4.
  rewrite (same_trans_spares _ _ Hs) in A10.
  unfold pinned, busy in A8, A9. rewrite (same_trans_tag _ _ _ Hs) in A8.
  rewrite (same_trans_tag _ _ _ Hs) in A9.
  split; try done; congruence.
Qed.

Lemma commit_writes_same s s' : same_trans s s' → commit_writes s' = commit_writes s.
Proof.
  intros Hs. pose proof Hs as [].
  unfold commit_writes, slot_writes, header_write, header_block, nlog, home, log_slot.
  by rewrite (same_trans_view _ _ Hs), st_start0, st_n0, st_block0.
Qed.

Lemma begin_op_eq s :
  lg_lock (lg s) = false → lg_committing (lg s) = false →
  begin_op s =
    if LOGSIZE <? lh_n (lg s) + (lg_outstanding (lg s) + 1) * MAXOPBLOCKS
    then Asleep ChLog s
    else Ret tt (set_lg (set_lg_outstanding (lg_outstanding (lg s) + 1) (lg s)) s).
Proof.
  intros Hl Hc. unfold begin_op. erewrite bind_ret by (by apply acquire_log_eq).
  rewrite bind_gets. cbn -[Z.mul LOGSIZE]. rewrite Hc. destruct (_ <? _).
  - unfold sleep_log. erewrite bind_ret by (by apply release_log_eq). unfold go_to_sleep.
    destruct s as [? ? ? ? ? ? ? ? []]; cbn in *. by subst.
  - unfold upd_log. rewrite bind_modify. rewrite release_log_eq by done.
    destruct s as [? ? ? ? ? ? ? ? []]; cbn in *. by subst.
Qed.

(** The log after [end_op] when it does not commit. *)
Lemma end_op_quick s :
  lg_lock (lg s) = false → lg_committing (lg s) = false →
  lg_outstanding (lg s) ≠ 1 ∨ lh_n (lg s) <= Z.quot (lg_size (lg s)) 2 →
  end_op s = Ret tt (set_wakeups (wakeups s ++ [ChLog])
    (set_lg (set_lg_outstanding (lg_outstanding (lg s) - 1) (lg s)) s)).
Proof.
  intros Hl Hc Hq. unfold end_op. erewrite bind_ret by (by apply acquire_log_eq).
  unfold upd_log. rewrite bind_modify, bind_gets. cbn -[Z.quot]. rewrite Hc.
  assert ((lg_outstanding (lg s) - 1 =? 0) && (Z.quot (lg_size (lg s)) 2 <? lh_n (lg s)) = false)
    as ->.
  { apply andb_false_iff. rewrite Z.eqb_neq, Z.ltb_ge. destruct Hq; [left; lia|by right]. }
  unfold st_wakeup. rewrite bind_assoc, bind_modify, bind_mret.
  erewrite bind_ret by (by apply release_log_eq).
  destruct s as [? ? ? ? ? ? ? ? []]; cbn in *. by subst.
Qed.

(** The state [end_op] hands to [commit]. *)
Definition committing_state (s : storage) : storage :=
  set_lg (set_lg_committing true (set_lg_outstanding 0 (lg s))) s.

Lemma end_op_commits s :
  lg_lock (lg s) = false → lg_committing (lg s) = false →
  lg_outstanding (lg s) = 1 → Z.quot (lg_size (lg s)) 2 < lh_n (lg s) →
  end_op s = (commit;; acquire_log;; upd_log (set_lg_committing false);;
    st_wakeup ChLog;; release_log) (committing_state s).
Proof.
  intros Hl Hc Ho Hn. unfold end_op. erewrite bind_ret by (by apply acquire_log_eq).
  unfold upd_log. rewrite bind_modify, bind_gets.
  cbn [lg set_lg set_lg_lock set_lg_outstanding lg_committing lg_outstanding lg_size lh_n].
  apply Z.ltb_lt in Hn. rewrite Hc, Ho, Hn. change (1 - 1 =? 0) with true.
  cbn [andb]. rewrite bind_assoc. rewrite bind_modify, bind_mret.
  erewrite bind_ret by (by apply release_log_eq). cbv beta iota.
  f_equal. unfold committing_state. destruct s as [? ? ? ? ? ? ? ? []]; cbn in *. by subst.
Qed.

(** The last outstanding operation leaves at most half of the log occupied. *)
Lemma end_op_last s :
  log_wf s → log_quiet s → (0 < spares s)%nat →
  lg_lock (lg s) = false → lg_committing (lg s) = false → lg_outstanding (lg s) = 1 →
  returns end_op s (λ _ s',
    lg_lock (lg s') = false ∧ lg_committing (lg s') = false ∧ lg_outstanding (lg s') = 0
    ∧ lg_size (lg s') = lg_size (lg s) ∧ lh_n (lg s') <= Z.quot (lg_size (lg s)) 2
    ∧ last (wakeups s') = Some ChLog
    ∧ (wrote s [] s' ∨ wrote s (commit_writes s) s' ∧ lh_n (lg s') = 0)).
Proof.
  intros Hlw Hq Hsp Hl Hc Ho.
  destruct (Z.le_gt_cases (lh_n (lg s)) (Z.quot (lg_size (lg s)) 2)) as [Hle|Hgt].
  - unfold returns. rewrite end_op_quick by auto. cbn -[Z.quot]. split_and!; try done; [lia| |].
    + by rewrite last_snoc.
    + left. eapply wrote_same_r; [apply wrote_nil, Hlw|]. by split.
  - unfold returns. rewrite end_op_commits by done. fold (returns (commit;; acquire_log;;
      upd_log (set_lg_committing false);; st_wakeup ChLog;; release_log) (committing_state s)
      (λ _ s', lg_lock (lg s') = false ∧ lg_committing (lg s') = false
        ∧ lg_outstanding (lg s') = 0 ∧ lg_size (lg s') = lg_size (lg s)
        ∧ lh_n (lg s') <= Z.quot (lg_size (lg s)) 2 ∧ last (wakeups s') = Some ChLog
        ∧ (wrote s [] s' ∨ wrote s (commit_writes s) s' ∧ lh_n (lg s') = 0))).
    assert (same_trans s (committing_state s)) as Hs by (by split).
    destruct (lgm_size s (lw_geom s Hlw)).
    assert (0 <= Z.quot (lg_size (lg s)) 2) by (apply Z.quot_pos; lia).
    rstep commit_spec.
    { by eapply same_trans_wf. } { by eapply same_trans_quiet. }
    { by rewrite (same_trans_spares _ _ Hs). } { cbn. lia. }
    intros _ s1 [Hw L1]. rewrite (commit_writes_same _ _ Hs) in Hw.
    eapply wrote_same_l in Hw; [|exact Hs].
    eapply returns_bind_eq; [apply acquire_log_eq; by rewrite L1|].
    unfold upd_log, st_wakeup. do 2 (eapply returns_bind_eq; [done|]). cbn beta.
    apply returns_eq. do 2 eexists. split; [by apply release_log_eq|].
    cbn -[Z.quot]. rewrite L1. cbn -[Z.quot]. split_and!; try done.
    + by rewrite last_snoc.
    + right. split; [|done]. eapply wrote_same_r; [exact Hw|]. split; try done; cbn; by rewrite L1.
Qed.
End ops.
