(* ===== verification/LogBoot.v ===== *)
(** * Starting the storage stack: binit and initlog on a disk

    What the kernel does at boot (main.c, and [iinit] for the log): the memory is
    clear, the disk holds whatever the last run left on it. *)
From S2P Require Import Prelude Params Block Bio BioInv BioSpec Log LogSpec LogCrash.

Definition blank_buf : buf := mkbuf false false 0 0 initsleeplock 0 zero_block.

Definition blank_log : logst :=
  mklogst false 0 0 0 false 0 0 (replicate (Z.to_nat LOGSIZE) 0).

(** The zero-initialised variables, the calling process, and the disk. *)
Definition power_on (pid dsz : Z) (d : gmap Z block) : storage :=
  mkstorage (replicate NBUF blank_buf) [] false d dsz [] [] pid blank_log.

Definition boot : M storage unit := binit;; initlog ROOTDEV.

(** The superblock of disk [d] describes geometry [g]. *)
Record sb_describes (g : geometry) (d : gmap Z block) : Prop := {
  sd_start : s32 (sb_logstart (decode_sb (disk_block d 1))) = g_start g;
  sd_size : s32 (sb_nlog (decode_sb (disk_block d 1))) = g_size g;
}.

Record geometry_wf (g : geometry) : Prop := {
  gw_size : 1 <= g_size g <= LOGSIZE;
  gw_region : 1 < g_start g ∧ g_start g + g_size g <= g_disk g;
  gw_disk : g_disk g < 2 ^ 31;
}.

Section boot.
Context (g : geometry) (pid : Z) (d : gmap Z block).
Hypothesis Hg : geometry_wf g.
Hypothesis Hok : ∀ n, blk_ok (disk_block d n).
Hypothesis Hsb : sb_describes g d.

(** After [binit]. *)
Definition s0 : storage := set_lru (rev (seq 0 NBUF)) (power_on pid (g_disk g) d).

Lemma binit_eq : binit (power_on pid (g_disk g) d) = Ret tt s0.
Proof using Type. reflexivity. Qed.

Lemma s0_lookup (i : nat) b : bufs s0 !! i = Some b → b = blank_buf.
Proof using Type. cbn -[replicate NBUF]. intros Hi. by apply lookup_replicate in Hi as [-> _]. Qed.

Lemma s0_wf : cache_wf s0.
Proof using Hok.
  split.
  - cbn -[replicate NBUF]. by rewrite length_replicate.
  - cbn -[NBUF]. symmetry. apply Permutation_rev.
  - done.
  - intros i b Hi. apply s0_lookup in Hi as ->. by split.
  - intros i j bi bj Hi _ n [Hd _]. by apply s0_lookup in Hi as ->.
  - done.
Qed.

Lemma s0_tag Q n : ¬ tag Q s0 n.
Proof using Type. intros (i & b & Hi & [Hd _] & _). by apply s0_lookup in Hi as ->. Qed.

Lemma s0_quiet : quiet_state s0.
Proof using Type.
  split_and!; [apply s0_tag..|]. change (1 < spares (power_on 0 0 ∅))%nat. by vm_compute; lia.
Qed.

Lemma readsb_spec s : cache_wf s → quiet_state s → 1 < disksize s →
  returns (readsb ROOTDEV) s (λ sb s', wrote s [] s' ∧ lg s' = lg s
    ∧ sb = decode_sb (disk_block (memdisk s) 1)).
Proof using Type.
  clear. intros Hwf (Hb & Hp & Hs) H1. unfold readsb.
  rstep bread_spec; [done|lia|by apply Hb|right; lia|]. intros i s1 Hbr.
  eapply returns_bind_eq; [eapply buf_data_spec; [apply Hbr|apply Hbr; by left]|].
  rewrite (br_view _ _ _ _ Hbr), view_disk by done.
  rstep (release_clean s i 1 s1 s1); [done|done|apply wrote_nil, Hbr|by apply Hb|].
  intros _ s2 [Hw L]. apply returns_ret. split_and!; [done| |done].
  rewrite L. apply (same_lg _ _ (br_same _ _ _ _ Hbr)).
Qed.

(** [boot] replays the log of the disk and empties it. *)
Lemma boot_spec :
  hdr_wf g (disk_hdr g d) →
  returns boot (power_on pid (g_disk g) d) (λ _ s', ∃ h0,
    wrote s0 (redo g d ++ [(g_start g, h0)]) s' ∧ hdr_n h0 = 0 ∧ log_geom s'
    ∧ geom_of s' = g ∧ lh_n (lg s') = 0 ∧ lg_outstanding (lg s') = 0
    ∧ lg_committing (lg s') = false ∧ lg_lock (lg s') = false).
Proof using All.
  intros Hh. unfold boot. eapply returns_bind_eq; [apply binit_eq|].
  unfold initlog. change (BSIZE <=? sizeof_logheader) with false. cbv iota.
  unfold upd_log. eapply returns_bind_eq; [done|]. cbn beta.
  destruct Hg as [G1 [G2 G3] G4], Hsb as [S1 S2].
  change (set_lg _ s0) with s0.
  rstep readsb_spec; [apply s0_wf|apply s0_quiet|cbn; lia|].
  intros sb s1 (W1 & L1 & ->). rewrite S1, S2 || (change (memdisk s0) with d; rewrite S1, S2).
  do 3 (eapply returns_bind_eq; [done|]; cbn beta). cbn [lg set_lg]. rewrite L1.
  set (l := set_lg_dev _ _). set (s2 := set_lg l _).
  assert (wrote s0 [] s2) as W2.
  { change s2 with (set_lg l s1). by apply wrote_lg. }
  pose proof (wr_size _ _ _ W2) as Hsz. cbn in Hsz.
  assert (geom_of s2 = g) as Hgeom.
  { unfold geom_of. rewrite (wr_size _ _ _ W2). cbn. by destruct g. }
  assert (memdisk s2 = d) as Hd2 by (by rewrite (wr_disk _ _ _ W2)).
  assert (log_geom s2) as Hg2.
  { split; rewrite ?(wr_size _ _ _ W2); try done; cbn; lia. }
  rstep recover_spec; [apply W2|done|eapply wrote_quiet; [exact W2|apply s0_quiet]| |].
  { by rewrite Hgeom, Hd2. }
  intros _ s3 (h0 & W3 & Hh0 & (A1 & A2 & A3 & A4 & A5 & A6) & Hg3 & Hn3).
  exists h0. rewrite Hgeom, Hd2 in W3. pose proof (wrote_trans _ _ _ _ _ W2 W3) as W23.
  split_and!; try done.
  unfold geom_of. rewrite A1, A2, (wr_size _ _ _ W3). exact Hgeom.
Qed.

(** After [boot] every block outside the log has its logical content, on the disk
    and in the cache. *)
Lemma boot_logical :
  hdr_wf g (disk_hdr g d) →
  returns boot (power_on pid (g_disk g) d) (λ _ s',
    log_wf s' ∧ lh_n (lg s') = 0 ∧ geom_of s' = g
    ∧ (∃ h0, hdr_n h0 = 0 ∧ wtrace s' = redo g d ++ [(g_start g, h0)]
        ∧ memdisk s' = apply_writes d (redo g d ++ [(g_start g, h0)]))
    ∧ ∀ n, ¬ in_region g n →
        view s' n = logical g d n ∧ disk_block (memdisk s') n = logical g d n).
Proof using All.
  intros Hh. eapply returns_mono; [by apply boot_spec|].
  intros _ s' (h0 & W & H0 & Hg' & Hgeom & Hn & _).
  assert (∀ m, ¬ pinned s' m) as Hp.
  { intros m. rewrite (wr_pinned _ _ _ W). intros [_ Hc]. by apply s0_tag in Hc. }
  assert (∀ m, ¬ busy s' m) as Hb.
  { intros m. rewrite (wr_busy _ _ _ W). apply s0_tag. }
  pose proof (wr_wf _ _ _ W) as Hwf. pose proof (wr_disk _ _ _ W) as Hd.
  change (memdisk s0) with d in Hd. destruct Hg as [G1 G2 G3].
  assert (∀ n, ¬ in_region g n → disk_block (memdisk s') n = logical g d n) as Hlog.
  { intros n Hn'. rewrite Hd. apply logical_redo_done; [lia|done..]. }
  split_and!; try done.
  - split; [done|done| |].
    + split; unfold nlog; rewrite Hn; [destruct (lgm_size s' Hg'); lia|intros k Hk; lia..].
    + intros m. split; [by intros ?%Hp|]. unfold nlog. rewrite Hn. intros (k & ? & _). lia.
  - exists h0. split_and!; [done| |done]. by rewrite (wr_trace _ _ _ W).
  - intros n Hn'. rewrite (view_disk s' n) by done. by split; apply Hlog.
Qed.
End boot.
