(* ===== verification/LogThms.v ===== *)
(** * The log: what it guarantees *)
From S2P Require Import Prelude Params Block Bio BioInv BioSpec Log LogSpec LogCrash LogOps LogBoot.

(** The superblock and the log of a running system agree with the disk, and no
    transaction is left half installed: the header on the disk is empty. *)
Record log_mounted (s : storage) : Prop := {
  lm_geom : geometry_wf (geom_of s);
  lm_sb : sb_describes (geom_of s) (memdisk s);
  lm_empty : hdr_n (disk_block (memdisk s) (lg_start (lg s))) = 0;
  lm_free : ∀ k, (k < nlog s)%nat → home s k ≠ 1;
}.

Section helpers.
Implicit Types s : storage.

Lemma prefix_disk_ok d W P :
  (∀ n, blk_ok (disk_block d n)) → Forall (λ w, blk_ok w.2) W → P `prefix_of` W →
  ∀ n, blk_ok (disk_block (apply_writes d P) n).
Proof.
  intros Hd HW [R ->] n. apply Forall_app in HW as [HP _]. clear R.
  revert d Hd. induction P as [|w P IH]; intros d Hd; [apply Hd|].
  apply Forall_cons in HP as [Hw HP]. cbn. apply IH; [done|]. intros m.
  rewrite disk_block_insert. by case_decide.
Qed.

Lemma prefix_notin {W P : list (Z * block)} n : P `prefix_of` W → n ∉ W.*1 → n ∉ P.*1.
Proof. intros [R ->]. rewrite fmap_app. set_solver. Qed.

Lemma commit_writes_ok s : log_wf s → Forall (λ w, blk_ok w.2) (commit_writes s).
Proof.
  intros Hl. pose proof (lw_cache s Hl) as Hwf. unfold commit_writes, slot_writes, header_write.
  repeat (apply Forall_app; split); rewrite ?Forall_fmap, ?Forall_singleton.
  - apply Forall_true. intros k. by apply view_ok.
  - by apply hdr_of_ok, view_ok.
  - apply Forall_true. intros k. by apply view_ok.
  - by apply hdr_of_ok, hdr_of_ok, view_ok.
Qed.

Lemma commit_writes_sb s : log_wf s → log_mounted s → 1 ∉ (commit_writes s).*1.
Proof.
  intros Hl Hm. pose proof (gw_region _ (lm_geom s Hm)) as [Hst _]. cbn in Hst.
  unfold commit_writes. rewrite !fmap_app, !elem_of_app, elem_of_slots, elem_of_indexed. cbn.
  rewrite !list_elem_of_singleton. unfold log_slot.
  intros [(k & _ & Hk)|[?|[(k & Hk & Heq)|?]]]; [lia|lia| |lia].
  by apply (lm_free s Hm k).
Qed.

Lemma sb_describes_notin g d P : 1 ∉ P.*1 → sb_describes g d → sb_describes g (apply_writes d P).
Proof. intros H [H1 H2]. split; rewrite disk_block_notin; done. Qed.

(** The committed content is the content the kernel saw. *)
Lemma new_content_view s n : log_wf s → ¬ busy s n → new_content s n = view s n.
Proof.
  intros Hl Hb. unfold new_content, homes.
  destruct (decide (n ∈ ((λ k, (home s k, view s (home s k))) <$> seq 0 (nlog s)).*1)) as [Hin|Hin].
  - apply elem_of_indexed in Hin as (k & Hk & <-). rewrite view_writes_at; [done..|].
    intros. by apply (tw_inj s (lw_trans s Hl)).
  - rewrite view_writes_notin by done. symmetry. apply view_disk; [apply Hl| |done].
    rewrite (lw_pinned s Hl). intros Hc. apply Hin, elem_of_indexed. done.
Qed.

(** The final writes: every block outside the log is on the disk. *)
Lemma commit_writes_disk s n :
  log_wf s → log_mounted s → ¬ in_log s n → ¬ busy s n →
  disk_block (apply_writes (memdisk s) (commit_writes s)) n = view s n.
Proof.
  intros Hl Hm Hn Hb. pose proof (lm_geom s Hm) as Hg.
  rewrite <-new_content_view by done. unfold commit_writes. fold (homes s).
  rewrite !app_assoc, apply_writes_app. cbn.
  rewrite disk_block_insert, decide_False; [|intros ->; by apply Hn, start_in_log, Hl].
  rewrite apply_writes_app, disk_block_writes. unfold new_content.
  destruct (decide (n ∈ (homes s).*1)) as [Hin|Hin].
  - unfold homes in *. apply elem_of_indexed in Hin as (k & Hk & <-).
    rewrite !view_writes_at; try done; intros; by apply (tw_inj s (lw_trans s Hl)).
  - rewrite !view_writes_notin by done. apply disk_block_notin. by apply outside_writes.
Qed.

Lemma view_commit_writes s v n : log_wf s → ¬ in_log s n →
  (∀ m, v m = view s m) → view_writes v (commit_writes s) n = view s n.
Proof.
  intros Hl Hn Hv. unfold commit_writes. fold (homes s).
  rewrite !app_assoc. unfold view_writes. rewrite foldl_app. cbn.
  rewrite decide_False; [|intros ->; by apply Hn, start_in_log, Hl].
  rewrite foldl_app. fold (view_writes (view_writes v (slot_writes s ++ [header_write s])) (homes s)).
  destruct (decide (n ∈ (homes s).*1)) as [Hin|Hin].
  - unfold homes in *. apply elem_of_indexed in Hin as (k & Hk & <-).
    rewrite !view_writes_at; try done; intros; by apply (tw_inj s (lw_trans s Hl)).
  - rewrite !view_writes_notin; [apply Hv|by apply outside_writes|done].
Qed.
End helpers.

(** ** A small disk for the witnesses

    The log at blocks 2 to 31 of 1000; block 100 modified by one operation. *)
Module Sample.
Definition sb_block : block := put_word (put_word zero_block 3 LOGSIZE) 4 2.
Definition fresh_disk : gmap Z block := {[ 1 := sb_block ]}.
Definition dirty_block : block := put_word zero_block 0 7.
Definition dirty_buf : buf := mkbuf true true ROOTDEV 100 initsleeplock 0 dirty_block.
Definition sample_log (outstanding : Z) : logst :=
  mklogst false 2 LOGSIZE outstanding false ROOTDEV 1 (100 :: replicate 29 0).
Definition one_dirty (outstanding : Z) : storage :=
  mkstorage (dirty_buf :: replicate 29 blank_buf) (seq 0 NBUF) false fresh_disk 1000 [] [] 3
    (sample_log outstanding).

Lemma sample_zero_ok : blk_ok zero_block.
Proof. split; [by vm_compute|apply zero_block_bytes]. Qed.

Lemma put_word_ok d i v : blk_ok d → blk_ok (put_word d i v).
Proof. intros []. split; [by rewrite length_put_word|by apply put_word_bytes]. Qed.

Lemma fresh_disk_ok n : blk_ok (disk_block fresh_disk n).
Proof.
  unfold disk_block, fresh_disk. destruct (decide (n = 1)) as [->|?].
  - rewrite lookup_singleton_eq. apply put_word_ok, put_word_ok, sample_zero_ok.
  - rewrite lookup_singleton_ne by done. apply sample_zero_ok.
Qed.

Lemma one_dirty_lookup o (i : nat) b : bufs (one_dirty o) !! i = Some b →
  i = 0%nat ∧ b = dirty_buf ∨ b = blank_buf.
Proof.
  destruct i as [|i]; cbn -[replicate]; intros Hi; [naive_solver|right].
  by apply lookup_replicate in Hi as [-> _].
Qed.

Lemma one_dirty_cache o : cache_wf (one_dirty o).
Proof.
  split; try done.
  - intros i b [[-> ->]| ->]%one_dirty_lookup; split; try done.
    intros _. apply put_word_ok, sample_zero_ok.
  - intros i j bi bj Hi Hj n [Hd Hn] [Hd' Hn'].
    apply one_dirty_lookup in Hi as [[-> ->]| ->], Hj as [[-> ->]| ->]; done.
  - apply fresh_disk_ok.
Qed.

Lemma one_dirty_wf o : log_wf (one_dirty o).
Proof.
  split; [apply one_dirty_cache|..].
  - split; cbn; unfold LOGSIZE, MAXOPBLOCKS; lia || done.
  - split; cbn; unfold LOGSIZE, MAXOPBLOCKS; [lia|..].
    + unfold nlog. cbn. intros k Hk. assert (k = 0%nat) as -> by lia. unfold in_log. cbn.
      unfold home, LOGSIZE, MAXOPBLOCKS. cbn. lia.
    + unfold nlog. cbn. intros. lia.
  - intros n. split.
    + intros (i & b & Hi & [Hd Hn] & Hdirty).
      apply one_dirty_lookup in Hi as [[-> ->]| ->]; [|done].
      exists 0%nat. split; [unfold nlog; cbn; lia|]. by rewrite <-Hn.
    + unfold nlog. cbn. intros (k & Hk & <-). assert (k = 0%nat) as -> by lia.
      by exists 0%nat, dirty_buf.
Qed.

Lemma one_dirty_not_busy o n : ¬ busy (one_dirty o) n.
Proof.
  intros (i & b & Hi & _ & Hl). by apply one_dirty_lookup in Hi as [[-> ->]| ->].
Qed.

Lemma one_dirty_quiet o : log_quiet (one_dirty o).
Proof. split; intros; apply one_dirty_not_busy. Qed.

Lemma one_dirty_mounted o : log_mounted (one_dirty o).
Proof.
  split.
  - split; cbn; unfold LOGSIZE, MAXOPBLOCKS; lia.
  - by split; vm_compute.
  - by vm_compute.
  - unfold nlog. cbn. intros k Hk. by assert (k = 0%nat) as -> by lia.
Qed.

Lemma one_dirty_spares o : (0 < spares (one_dirty o))%nat.
Proof. change (spares (one_dirty o)) with (spares (one_dirty 0)). vm_compute. lia. Qed.
End Sample.

(** ** The theorems *)

(** A commit that runs to its end puts the transaction on the disk: the log is
    empty again and well formed, the kernel sees the same content in every block
    outside the log, and every such block that nobody is modifying has that
    content on the disk. *)
Theorem commit_durable s :
  log_wf s → log_mounted s → log_quiet s → (0 < spares s)%nat →
  returns commit s (λ _ s',
    log_wf s' ∧ lh_n (lg s') = 0
    ∧ ∀ n, ¬ in_log s n →
        view s' n = view s n ∧ (¬ busy s n → disk_block (memdisk s') n = view s n)).
Proof.
  intros Hl Hm Hq Hsp. destruct (Z.le_gt_cases (lh_n (lg s)) 0) as [Hle|Hgt].
  - unfold commit. eapply returns_bind_eq; [done|].
    rewrite (proj2 (Z.ltb_ge _ _) Hle). pose proof (tw_n s (lw_trans s Hl)).
    apply returns_ret. split_and!; [done|lia|]. intros n Hn. split; [done|]. intros Hb.
    symmetry. apply view_disk; [apply Hl| |done]. rewrite (lw_pinned s Hl). unfold nlog.
    intros (k & Hk & _). lia.
  - eapply returns_mono; [by apply commit_spec|]. intros _ s' [W L].
    pose proof (lw_geom s Hl) as Hg. pose proof (lgm_size s Hg).
    assert (nlog s' = 0%nat) as Hn' by (unfold nlog; by rewrite L).
    split_and!; [|by rewrite L|].
    + split; [apply W|..].
      * destruct Hg. split; rewrite ?L, ?(wr_size _ _ _ W); done.
      * split; rewrite ?Hn'; [rewrite L; cbn; lia|lia|lia].
      * intros n. rewrite (wr_pinned _ _ _ W), (lw_pinned s Hl), Hn'. split; [|intros (?&?&_); lia].
        intros [Hnot (k & Hk & <-)]. destruct Hnot. unfold commit_writes.
        rewrite !fmap_app, !elem_of_app. right. right. left. apply elem_of_indexed. eauto.
    + intros n Hn. split.
      * rewrite (wr_view _ _ _ W). by apply view_commit_writes.
      * intros Hb. rewrite (wr_disk _ _ _ W). by apply commit_writes_disk.
Qed.

Lemma commit_durable_witness :
  returns commit (Sample.one_dirty 0) (λ _ s',
    log_wf s' ∧ lh_n (lg s') = 0
    ∧ ∀ n, ¬ in_log (Sample.one_dirty 0) n →
        view s' n = view (Sample.one_dirty 0) n
        ∧ (¬ busy (Sample.one_dirty 0) n →
            disk_block (memdisk s') n = view (Sample.one_dirty 0) n)).
Proof.
  apply (commit_durable (Sample.one_dirty 0)).
  - apply Sample.one_dirty_wf.
  - apply Sample.one_dirty_mounted.
  - apply Sample.one_dirty_quiet.
  - apply Sample.one_dirty_spares.
Defined.

(** C1: Transactions are atomic across crashes: whatever prefix of the disk writes
    of [commit] has reached the disk when the machine stops, the kernel that boots
    on that disk sees, in every block outside the log, either the content before
    the transaction or the content after it. *)
Theorem commit_crash_atomic s :
  log_wf s → log_mounted s → log_quiet s → (0 < spares s)%nat → 0 < lh_n (lg s) →
  returns commit s (λ _ s', ∃ W, wtrace s' = wtrace s ++ W ∧
    ∀ P pid, P `prefix_of` W →
      returns boot (power_on pid (disksize s) (apply_writes (memdisk s) P)) (λ _ s1,
        (∀ n, ¬ in_log s n → view s1 n = disk_block (memdisk s) n) ∨
        (∀ n, ¬ in_log s n → ¬ busy s n → view s1 n = view s n))).
Proof.
  intros Hl Hm Hq Hsp Hn. eapply returns_mono; [by apply commit_spec|].
  intros _ s' [W _]. exists (commit_writes s). split; [apply W|]. intros P pid HP.
  destruct HP as [R HR].
  destruct (commit_prefix s Hl (lm_empty s Hm) P R HR) as [Hh Hcases].
  eapply returns_mono; [apply (boot_logical (geom_of s))|].
  - apply Hm.
  - eapply prefix_disk_ok; [apply (cw_disk s (lw_cache s Hl))|by apply commit_writes_ok|by exists R].
  - apply sb_describes_notin; [|apply Hm].
    apply (prefix_notin (W := commit_writes s)); [by exists R|by apply commit_writes_sb].
  - exact Hh.
  - intros _ s1 (_ & _ & _ & _ & Hv). destruct Hcases as [Hold|Hnew]; [left|right].
    + intros n Hni. rewrite (proj1 (Hv n Hni)). by apply Hold.
    + intros n Hni Hb. rewrite (proj1 (Hv n Hni)), Hnew by done. by apply new_content_view.
Qed.

Lemma commit_crash_atomic_witness :
  returns commit (Sample.one_dirty 0) (λ _ s', ∃ W, wtrace s' = [] ++ W ∧
    ∀ P pid, P `prefix_of` W →
      returns boot (power_on pid 1000 (apply_writes Sample.fresh_disk P)) (λ _ s1,
        (∀ n, ¬ in_log (Sample.one_dirty 0) n → view s1 n = disk_block Sample.fresh_disk n) ∨
        (∀ n, ¬ in_log (Sample.one_dirty 0) n → ¬ busy (Sample.one_dirty 0) n →
           view s1 n = view (Sample.one_dirty 0) n))).
Proof.
  apply (commit_crash_atomic (Sample.one_dirty 0)).
  - apply Sample.one_dirty_wf.
  - apply Sample.one_dirty_mounted.
  - apply Sample.one_dirty_quiet.
  - apply Sample.one_dirty_spares.
  - cbn. lia.
Defined.

(** C23: Recovery can be interrupted: a boot on a disk with a valid log terminates
    with an empty log; and if it stops after any prefix of its own disk writes,
    the next boot gives every block outside the log the same content. *)
Theorem recovery_restartable g d :
  geometry_wf g → (∀ n, blk_ok (disk_block d n)) → sb_describes g d →
  hdr_wf g (disk_hdr g d) →
  (∀ k, (k < Z.to_nat (hdr_n (disk_hdr g d)))%nat → hdr_block (disk_hdr g d) k ≠ 1) →
  ∀ pid, returns boot (power_on pid (g_disk g) d) (λ _ s1,
    log_wf s1 ∧ lh_n (lg s1) = 0 ∧
    ∀ P pid', P `prefix_of` wtrace s1 →
      returns boot (power_on pid' (g_disk g) (apply_writes d P)) (λ _ s2,
        ∀ n, ¬ in_region g n → view s2 n = view s1 n)).
Proof.
  intros Hg Hok Hsb Hh H1 pid. eapply returns_mono; [by apply boot_logical|].
  intros _ s1 (Hlw & Hn & _ & (h0 & H0 & Htr & Hdisk) & Hv). split_and!; [done..|].
  intros P pid' HP. rewrite Htr in HP.
  pose proof (gw_size g Hg) as [Hsz _]. pose proof (gw_region g Hg) as [Hst _].
  assert (hdr_wf g (disk_hdr g (apply_writes d P))
    ∧ ∀ n, ¬ in_region g n → logical g (apply_writes d P) n = logical g d n) as [Hh' Hlog].
  { destruct HP as [R HR]. apply app_eq_inv in HR as [(K & HK & _)|(K & -> & HR)].
    - split.
      + destruct (logical_redo_prefix g Hsz d P K (g_start g - 1) Hh HK) as [_ ->];
          [unfold in_region; lia|done].
      + intros n Hni. by apply (logical_redo_prefix g Hsz d P K n Hh HK).
    - destruct K as [|w K]; simplify_eq/=.
      + rewrite app_nil_r. split.
        * destruct (logical_redo_prefix g Hsz d (redo g d) [] (g_start g - 1) Hh) as [_ ->];
            [by rewrite app_nil_r|unfold in_region; lia|done].
        * intros n Hni. apply (logical_redo_prefix g Hsz d (redo g d) [] n Hh); [by rewrite app_nil_r|done].
      + destruct K, R; simplify_eq/=. split.
        * apply hdr_wf_empty; [done|]. unfold disk_hdr. rewrite apply_writes_app. cbn.
          by rewrite disk_block_insert, decide_True.
        * intros n Hni. by apply (logical_redo_done g Hsz d h0 n Hh). }
  assert (1 ∉ (redo g d ++ [(g_start g, h0)]).*1) as Hno.
  { rewrite fmap_app, elem_of_app. unfold redo. rewrite elem_of_indexed. cbn.
    rewrite list_elem_of_singleton. intros [(k & Hk & Heq)|?]; [|lia]. by apply (H1 k). }
  assert (∀ n, blk_ok (disk_block (apply_writes d P) n)) as Hok'.
  { eapply prefix_disk_ok; [done| |done]. apply Forall_app. split.
    - unfold redo. rewrite Forall_fmap. apply Forall_true. intros k. apply Hok.
    - apply Forall_singleton. cbn. pose proof (cw_disk s1 (lw_cache s1 Hlw) (g_start g)) as Hb.
      rewrite Hdisk, apply_writes_app in Hb. cbn in Hb.
      by rewrite disk_block_insert, decide_True in Hb. }
  eapply returns_mono.
  { apply (boot_logical g pid' (apply_writes d P)); [done|done| |done].
    apply sb_describes_notin; [by eapply prefix_notin|done]. }
  intros _ s2 (_ & _ & _ & _ & Hv2) n Hni.
  rewrite (proj1 (Hv n Hni)), (proj1 (Hv2 n Hni)). by apply Hlog.
Qed.

(** A disk whose log holds a committed transaction of one block. *)
Module Committed.
Definition g : geometry := mkgeom 2 LOGSIZE 1000.
Definition header : block := put_word (put_word zero_block 0 1) 1 100.
Definition disk : gmap Z block := <[2 := header]> (<[3 := Sample.dirty_block]> Sample.fresh_disk).

Lemma disk_ok n : blk_ok (disk_block disk n).
Proof.
  unfold disk. rewrite !disk_block_insert.
  repeat case_decide; [apply Sample.put_word_ok, Sample.put_word_ok, Sample.sample_zero_ok
    |apply Sample.put_word_ok, Sample.sample_zero_ok|apply Sample.fresh_disk_ok].
Qed.

Lemma disk_n : hdr_n (disk_hdr g disk) = 1.
Proof. by vm_compute. Qed.

Lemma disk_home : hdr_block (disk_hdr g disk) 0 = 100.
Proof. by vm_compute. Qed.

Lemma disk_wf : hdr_wf g (disk_hdr g disk).
Proof.
  split; rewrite disk_n; [cbn; unfold LOGSIZE, MAXOPBLOCKS; lia|..].
  - intros k Hk. assert (k = 0%nat) as -> by lia. rewrite disk_home. unfold in_region. cbn.
    unfold LOGSIZE, MAXOPBLOCKS. lia.
  - intros. lia.
Qed.
End Committed.

Lemma recovery_restartable_witness :
  returns boot (power_on 0 1000 Committed.disk) (λ _ s1,
    log_wf s1 ∧ lh_n (lg s1) = 0 ∧
    ∀ P pid', P `prefix_of` wtrace s1 →
      returns boot (power_on pid' 1000 (apply_writes Committed.disk P)) (λ _ s2,
        ∀ n, ¬ in_region Committed.g n → view s2 n = view s1 n)).
Proof.
  apply (recovery_restartable Committed.g Committed.disk).
  - split; cbn; unfold LOGSIZE, MAXOPBLOCKS; lia.
  - apply Committed.disk_ok.
  - by split; vm_compute.
  - apply Committed.disk_wf.
  - rewrite Committed.disk_n. intros k Hk. assert (k = 0%nat) as -> by lia.
    by rewrite Committed.disk_home.
Defined.

(** Modifying a block the way fs.c does (read it, change the copy, [log_write],
    release) changes what the kernel sees of that block and of no other, writes
    nothing to the disk, keeps the invariant, and takes at most one new entry of
    the log; a block already in the transaction takes none. *)
Theorem update_block_logged s n f :
  log_wf s → lg_lock (lg s) = false → 1 <= lg_outstanding (lg s) →
  lh_n (lg s) < lg_size (lg s) - 1 → 0 <= n < disksize s → ¬ in_log s n → ¬ busy s n →
  cached s n ∨ (0 < spares s)%nat → (∀ d, blk_ok d → blk_ok (f d)) →
  returns (update_block n f) s (λ _ s',
    log_wf s' ∧ (∀ m, view s' m = if decide (m = n) then f (view s n) else view s m)
    ∧ memdisk s' = memdisk s ∧ wtrace s' = wtrace s ∧ (∀ m, busy s' m ↔ busy s m)
    ∧ pinned s' n ∧ lh_n (lg s') <= lh_n (lg s) + 1).
Proof.
  intros. eapply returns_mono; [by apply update_block_spec|]. intros _ s' [].
  split_and!; try done; [apply upd_pinned; by left|lia].
Qed.

Lemma update_block_logged_witness :
  returns (update_block 50 (λ d, put_word d 3 9)) (Sample.one_dirty 1) (λ _ s',
    log_wf s' ∧ (∀ m, view s' m = if decide (m = 50)
        then put_word (view (Sample.one_dirty 1) 50) 3 9 else view (Sample.one_dirty 1) m)
    ∧ memdisk s' = Sample.fresh_disk ∧ wtrace s' = []
    ∧ (∀ m, busy s' m ↔ busy (Sample.one_dirty 1) m) ∧ pinned s' 50 ∧ lh_n (lg s') <= 1 + 1).
Proof.
  apply (update_block_logged (Sample.one_dirty 1) 50 (λ d, put_word d 3 9)).
  - apply Sample.one_dirty_wf.
  - reflexivity.
  - cbn. lia.
  - cbn. unfold LOGSIZE, MAXOPBLOCKS. lia.
  - cbn. lia.
  - unfold in_log. cbn. unfold LOGSIZE, MAXOPBLOCKS. lia.
  - apply Sample.one_dirty_not_busy.
  - right. apply Sample.one_dirty_spares.
  - intros d. apply Sample.put_word_ok.
Defined.

(** Delaying the commit does not starve new operations: when the last
    outstanding operation ends, it either leaves the log alone or commits it, in
    both cases wakes the waiting processes, and the next [begin_op] is admitted
    without sleeping. *)
Theorem end_op_admits s :
  log_wf s → log_quiet s → (0 < spares s)%nat → lg_size (lg s) <= LOGSIZE →
  lg_lock (lg s) = false → lg_committing (lg s) = false → lg_outstanding (lg s) = 1 →
  returns end_op s (λ _ s1,
    (wrote s [] s1 ∨ wrote s (commit_writes s) s1 ∧ lh_n (lg s1) = 0)
    ∧ last (wakeups s1) = Some ChLog
    ∧ returns begin_op s1 (λ _ s2, lg_outstanding (lg s2) = 1 ∧ lh_n (lg s2) = lh_n (lg s1))).
Proof.
  intros Hl Hq Hsp Hsz Hlk Hc Ho. eapply returns_mono; [by apply end_op_last|].
  intros _ s1 (H1 & H2 & H3 & H4 & H5 & H6 & H7). split_and!; [done..|].
  unfold returns. rewrite begin_op_eq by done. rewrite H3.
  destruct (lgm_size s (lw_geom s Hl)).
  assert (Z.quot (lg_size (lg s)) 2 <= 15) by (unfold LOGSIZE, MAXOPBLOCKS in *; divlia).
  destruct (Z.ltb_spec LOGSIZE (lh_n (lg s1) + (0 + 1) * MAXOPBLOCKS)); [|done].
  unfold LOGSIZE, MAXOPBLOCKS in *. lia.
Qed.

Lemma end_op_admits_witness :
  returns end_op (Sample.one_dirty 1) (λ _ s1,
    (wrote (Sample.one_dirty 1) [] s1
     ∨ wrote (Sample.one_dirty 1) (commit_writes (Sample.one_dirty 1)) s1 ∧ lh_n (lg s1) = 0)
    ∧ last (wakeups s1) = Some ChLog
    ∧ returns begin_op s1 (λ _ s2, lg_outstanding (lg s2) = 1 ∧ lh_n (lg s2) = lh_n (lg s1))).
Proof.
  apply (end_op_admits (Sample.one_dirty 1)).
  - apply Sample.one_dirty_wf.
  - apply Sample.one_dirty_quiet.
  - apply Sample.one_dirty_spares.
  - reflexivity.
  - reflexivity.
  - reflexivity.
  - reflexivity.
Defined.

(** C30: [sync] commits whatever the transaction holds, also while system calls
    are in the middle of their operation: the number of outstanding operations
    stays what it was, their partial updates are on the disk, and the result is 0. *)
Theorem sync_commits_open_operations s :
  log_wf s → log_mounted s → log_quiet s → (0 < spares s)%nat →
  0 < lh_n (lg s) → 1 <= lg_outstanding (lg s) →
  returns sys_sync s (λ r s',
    r = 0 ∧ lg_outstanding (lg s') = lg_outstanding (lg s)
    ∧ ∀ n, pinned s n → disk_block (memdisk s') n = view s n).
Proof.
  intros Hl Hm Hq Hsp Hn Ho. unfold sys_sync.
  rstep commit_spec; [done..|]. intros _ s' [W L].
  eapply returns_bind_eq; [done|]. cbn beta. rewrite L. apply returns_ret.
  split_and!; [done|by rewrite L|]. intros n Hp. apply (lw_pinned s Hl) in Hp as (k & Hk & <-).
  rewrite (wr_disk _ _ _ W). apply commit_writes_disk; [done|done| |by apply (lq_home s Hq)].
  by apply (tw_range s (lw_trans s Hl)).
Qed.

Lemma sync_commits_open_operations_witness :
  returns sys_sync (Sample.one_dirty 1) (λ r s',
    r = 0 ∧ lg_outstanding (lg s') = 1
    ∧ ∀ n, pinned (Sample.one_dirty 1) n →
        disk_block (memdisk s') n = view (Sample.one_dirty 1) n).
Proof.
  apply (sync_commits_open_operations (Sample.one_dirty 1)).
  - apply Sample.one_dirty_wf.
  - apply Sample.one_dirty_mounted.
  - apply Sample.one_dirty_quiet.
  - apply Sample.one_dirty_spares.
  - cbn. lia.
  - cbn. lia.
Defined.

(** The reservation of [begin_op] counts one block too many: three operations
    of MAXOPBLOCKS blocks each are admitted to an empty log of LOGSIZE blocks, and
    the last of their thirty [log_write]s panics. *)
Theorem admitted_operations_panic :
  (boot;; begin_op;; begin_op;; begin_op;;
   mfor (seq 0 (3 * Z.to_nat MAXOPBLOCKS)) (λ k,
     b ← bread ROOTDEV (100 + Z.of_nat k); log_write b;; brelse b))
    (power_on 3 1000 Sample.fresh_disk) = Panic "too big a transaction".
Proof. vm_compute. reflexivity. Qed.
