(* ===== verification/Str.v ===== *)
(** * Memory and string routines (string.c)

    The routines run on a flat memory of bytes.  Loops counted by [n] are
    structural recursions on it; [strlen], whose loop has no bound of its own, runs
    on fuel.  The two comparisons read their arguments only and take them as the
    sequences of bytes the pointers point to. *)
From S2P Require Import Prelude.

Abbreviation mem := (Z → Z) (only parsing).

Definition store (m : mem) (a v : Z) : mem := λ x, if x =? a then v else m x.

(** [stosb] and [stosl] (x86.h): [cnt] bytes or little-endian words. *)
Fixpoint stosb (m : mem) (a v : Z) (cnt : nat) : mem :=
  match cnt with
  | O => m
  | S cnt' => stosb (store m a (v mod 2 ^ 8)) (a + 1) v cnt'
  end.

Definition store_word (m : mem) (a w : Z) : mem :=
  store (store (store (store m a (w mod 2 ^ 8)) (a + 1) ((w / 2 ^ 8) mod 2 ^ 8))
    (a + 2) ((w / 2 ^ 16) mod 2 ^ 8)) (a + 3) ((w / 2 ^ 24) mod 2 ^ 8).

Fixpoint stosl (m : mem) (a w : Z) (cnt : nat) : mem :=
  match cnt with
  | O => m
  | S cnt' => stosl (store_word m a w) (a + 4) w cnt'
  end.

Definition memset (m : mem) (dst c n : Z) : mem :=
  if (Z.rem (s32 dst) 4 =? 0) && (n mod 4 =? 0) then
    let c := Z.land c 255 in
    stosl m dst (Z.lor (Z.lor (Z.lor (Z.shiftl c 24) (Z.shiftl c 16)) (Z.shiftl c 8)) c)
      (Z.to_nat (n / 4))
  else stosb m dst c (Z.to_nat n).

(** [*--d = *--s], [n] times, from the ends [d], [s]; and [*d++ = *s++]. *)
Fixpoint move_down (m : mem) (d s : Z) (n : nat) : mem :=
  match n with
  | O => m
  | S n' => move_down (store m (d - 1) (m (s - 1))) (d - 1) (s - 1) n'
  end.

Fixpoint move_up (m : mem) (d s : Z) (n : nat) : mem :=
  match n with
  | O => m
  | S n' => move_up (store m d (m s)) (d + 1) (s + 1) n'
  end.

Definition memmove (m : mem) (dst src n : Z) : mem :=
  if (src <? dst) && (dst <? src + n)
  then move_down m (dst + n) (src + n) (Z.to_nat n)
  else move_up m dst src (Z.to_nat n).

Definition memcpy (m : mem) (dst src n : Z) : mem := memmove m dst src n.

Fixpoint memcmp (s1 s2 : nat → Z) (n : nat) : Z :=
  match n with
  | O => 0
  | S n' => if negb (s1 O =? s2 O) then s1 O - s2 O
            else memcmp (λ i, s1 (S i)) (λ i, s2 (S i)) n'
  end.

Fixpoint strncmp (p q : nat → Z) (n : nat) : Z :=
  match n with
  | O => 0
  | S n' =>
      if negb (p O =? 0) && (p O =? q O)
      then strncmp (λ i, p (S i)) (λ i, q (S i)) n'
      else p O - q O
  end.

(** The second loop of [strncpy]. *)
Fixpoint pad_zero (m : mem) (s : Z) (n : nat) : mem :=
  match n with
  | O => m
  | S n' => pad_zero (store m s 0) (s + 1) n'
  end.

Fixpoint strncpy_loop (m : mem) (s t : Z) (n : nat) : mem :=
  match n with
  | O => m
  | S n' =>
      let m' := store m s (m t) in
      if negb (m t =? 0) then strncpy_loop m' (s + 1) (t + 1) n' else pad_zero m' (s + 1) n'
  end.

Definition strncpy (m : mem) (s t n : Z) : mem := strncpy_loop m s t (Z.to_nat n).

(** [while(--n > 0 && ...)] with [n - 1] turns left, then the final [*s = 0]. *)
Fixpoint safestrcpy_loop (m : mem) (s t : Z) (n : nat) : mem :=
  match n with
  | O => store m s 0
  | S n' =>
      let m' := store m s (m t) in
      if negb (m t =? 0) then safestrcpy_loop m' (s + 1) (t + 1) n' else store m' (s + 1) 0
  end.

Definition safestrcpy (m : mem) (s t n : Z) : mem :=
  if n <=? 0 then m else safestrcpy_loop m s t (Z.to_nat (n - 1)).

Fixpoint strlen_loop (fuel : nat) (m : mem) (s n : Z) : option Z :=
  match fuel with
  | O => None
  | S fuel' => if negb (m (s + n) =? 0) then strlen_loop fuel' m s (n + 1) else Some n
  end.

Definition strlen (fuel : nat) (m : mem) (s : Z) : option Z := strlen_loop fuel m s 0.

(** ** Lemmas *)
Section store.
Implicit Types m : mem.

Lemma store_spec m a v x : store m a v x = if decide (x = a) then v else m x.
Proof. unfold store. destruct (Z.eqb_spec x a); case_decide; done. Qed.

(** A loop that fills [a .. a + cnt) with [f]: what it leaves at each address. *)
Ltac fill := repeat (rewrite store_spec || case_decide); try (f_equal; lia); try lia.

Lemma stosb_spec m a v cnt x :
  stosb m a v cnt x = if decide (a <= x < a + Z.of_nat cnt) then v mod 2 ^ 8 else m x.
Proof.
  revert m a. induction cnt as [|cnt IH]; intros m a; cbn [stosb]; [fill; done|].
  rewrite IH. repeat case_decide; rewrite ?store_spec; repeat case_decide; try lia; done.
Qed.

(** A word all of whose bytes are [c]. *)
Lemma store_word_spec m a c x : 0 <= c < 2 ^ 8 →
  store_word m a (c * 2 ^ 24 + c * 2 ^ 16 + c * 2 ^ 8 + c) x
  = if decide (a <= x < a + 4) then c else m x.
Proof.
  intros Hc. unfold store_word.
  assert ((c * 2 ^ 24 + c * 2 ^ 16 + c * 2 ^ 8 + c) mod 2 ^ 8 = c) as -> by divlia.
  assert (((c * 2 ^ 24 + c * 2 ^ 16 + c * 2 ^ 8 + c) / 2 ^ 8) mod 2 ^ 8 = c) as -> by divlia.
  assert (((c * 2 ^ 24 + c * 2 ^ 16 + c * 2 ^ 8 + c) / 2 ^ 16) mod 2 ^ 8 = c) as -> by divlia.
  assert (((c * 2 ^ 24 + c * 2 ^ 16 + c * 2 ^ 8 + c) / 2 ^ 24) mod 2 ^ 8 = c) as -> by divlia.
  rewrite !store_spec. repeat case_decide; try lia; done.
Qed.

Lemma stosl_spec m a c cnt x : 0 <= c < 2 ^ 8 →
  stosl m a (c * 2 ^ 24 + c * 2 ^ 16 + c * 2 ^ 8 + c) cnt x
  = if decide (a <= x < a + 4 * Z.of_nat cnt) then c else m x.
Proof.
  intros Hc. revert m a. induction cnt as [|cnt IH]; intros m a; cbn [stosl]; [fill; done|].
  rewrite IH, store_word_spec by done. repeat case_decide; try lia; done.
Qed.

(** The pattern [memset] hands to [stosl]. *)
Lemma byte_pattern c : 0 <= c < 2 ^ 8 →
  Z.lor (Z.lor (Z.lor (Z.shiftl c 24) (Z.shiftl c 16)) (Z.shiftl c 8)) c
  = c * 2 ^ 24 + c * 2 ^ 16 + c * 2 ^ 8 + c.
Proof.
  intros Hc.
  assert (Forall (λ c, Z.lor (Z.lor (Z.lor (Z.shiftl c 24) (Z.shiftl c 16)) (Z.shiftl c 8)) c
    = c * 2 ^ 24 + c * 2 ^ 16 + c * 2 ^ 8 + c) (seqZ 0 256)) as Hall.
  { by apply (bool_decide_eq_true_1 _); vm_compute. }
  rewrite Forall_forall in Hall. apply Hall, elem_of_seqZ. lia.
Qed.

Lemma move_up_spec m d s n x :
  d <= s ∨ s + Z.of_nat n <= d →
  move_up m d s n x = if decide (d <= x < d + Z.of_nat n) then m (s + (x - d)) else m x.
Proof.
  revert m d s. induction n as [|n IH]; intros m d s Hds; cbn [move_up]; [fill; done|].
  rewrite IH by lia. repeat case_decide; rewrite ?store_spec; repeat case_decide; try lia;
    try done; f_equal; lia.
Qed.

Lemma move_down_spec m d s n x :
  s < d →
  move_down m d s n x
  = if decide (d - Z.of_nat n <= x < d) then m (s + (x - d)) else m x.
Proof.
  revert m d s. induction n as [|n IH]; intros m d s Hds; cbn [move_down]; [fill; done|].
  rewrite IH by lia. repeat case_decide; rewrite ?store_spec; repeat case_decide; try lia;
    try done; f_equal; lia.
Qed.

Lemma pad_zero_spec m s n x :
  pad_zero m s n x = if decide (s <= x < s + Z.of_nat n) then 0 else m x.
Proof.
  revert m s. induction n as [|n IH]; intros m s; cbn [pad_zero]; [fill; done|].
  rewrite IH. repeat case_decide; rewrite ?store_spec; repeat case_decide; try lia; done.
Qed.

(** No NUL before position [i] of the string at [t]. *)
Definition no_nul (m : mem) (t : Z) (i : Z) : Prop := ∀ j, 0 <= j < i → m (t + j) ≠ 0.

Lemma strncpy_loop_frame m s t n x : x < s ∨ s + Z.of_nat n <= x → strncpy_loop m s t n x = m x.
Proof.
  revert m s t. induction n as [|n IH]; intros m s t Hx; cbn [strncpy_loop]; [done|].
  destruct (negb _).
  - rewrite IH by lia. rewrite store_spec, decide_False by lia. done.
  - rewrite pad_zero_spec, store_spec, !decide_False by lia. done.
Qed.

(** What [memmove] and [memset] leave at each address. *)
Lemma memmove_eq m dst src n x :
  0 <= n →
  memmove m dst src n x = if decide (dst <= x < dst + n) then m (src + (x - dst)) else m x.
Proof.
  intros Hn. unfold memmove.
  destruct (Z.ltb_spec src dst), (Z.ltb_spec dst (src + n)); cbn [andb].
  - rewrite move_down_spec by lia. rewrite Z2Nat.id by lia.
    repeat case_decide; try lia; try done. f_equal. lia.
  - rewrite move_up_spec by lia. by rewrite Z2Nat.id by lia.
  - rewrite move_up_spec by lia. by rewrite Z2Nat.id by lia.
  - rewrite move_up_spec by lia. by rewrite Z2Nat.id by lia.
Qed.

Lemma memset_eq m dst c n x :
  0 <= n → memset m dst c n x = if decide (dst <= x < dst + n) then c mod 2 ^ 8 else m x.
Proof.
  intros Hn. unfold memset. destruct (_ && _) eqn:E.
  - apply andb_true_iff in E as [_ E]. apply Z.eqb_eq in E.
    change 255 with (Z.ones 8). rewrite Z.land_ones by lia.
    pose proof (Z.mod_pos_bound c (2 ^ 8) ltac:(lia)).
    rewrite byte_pattern, stosl_spec by done.
    rewrite Z2Nat.id by (apply Z.div_pos; lia).
    assert (4 * (n / 4) = n) as -> by divlia. done.
  - rewrite stosb_spec. by rewrite Z2Nat.id.
Qed.
End store.

(** ** The theorems *)

(** [memmove] copies correctly whether or not the two regions overlap: every
    byte of the destination is the byte the source had before the call, and no
    other byte changes. *)
Theorem memmove_overlap (m : mem) dst src n x :
  0 <= n →
  memmove m dst src n x
  = if decide (dst <= x < dst + n) then m (src + (x - dst)) else m x.
Proof. intros Hn. by apply memmove_eq. Qed.

Lemma memmove_overlap_witness :
  memmove (λ a, a) 102 100 4 103 = if decide (102 <= 103 < 102 + 4) then 100 + (103 - 102) else 103.
Proof. apply (memmove_overlap (λ a, a) 102 100 4 103). lia. Defined.

(** [memset] stores the low byte of [c] at each of the [n] addresses and nowhere
    else, on the word-wise path as on the byte-wise one. *)
Theorem memset_fills (m : mem) dst c n x :
  0 <= n →
  memset m dst c n x = if decide (dst <= x < dst + n) then c mod 2 ^ 8 else m x.
Proof. intros Hn. by apply memset_eq. Qed.

Lemma memset_fills_witness :
  memset (λ _, 9) 8 257 12 19 = if decide (8 <= 19 < 8 + 12) then 257 mod 2 ^ 8 else 9.
Proof. apply (memset_fills (λ _, 9) 8 257 12 19). lia. Defined.

(** [strncmp] reports equality exactly when the strings agree up to the first NUL
    or to the [n]-th byte. *)
Lemma strncmp_zero p q n :
  strncmp p q n = 0 ↔ ∀ i, (i < n)%nat → (∀ j, (j < i)%nat → p j ≠ 0) → p i = q i.
Proof.
  revert p q. induction n as [|n IH]; intros p q; cbn [strncmp]; [split; [lia|done]|].
  destruct (Z.eqb_spec (p O) 0) as [H0|H0], (Z.eqb_spec (p O) (q O)) as [He|He]; cbn.
  - split; [|lia]. intros _ [|i] Hi Hj; [done|]. by destruct (Hj O); [lia|].
  - split; [lia|]. intros H. specialize (H O ltac:(lia) ltac:(lia)). lia.
  - rewrite IH. split.
    + intros H [|i] Hi Hj; [done|]. apply (H i); [lia|]. intros j Hji. apply (Hj (S j)). lia.
    + intros H i Hi Hj. apply (H (S i)); [lia|]. intros [|j] Hji; [done|]. apply Hj. lia.
  - split; [lia|]. intros H. specialize (H O ltac:(lia) ltac:(lia)). lia.
Qed.

(** [safestrcpy] leaves a NUL-terminated string in the [n] bytes of its buffer
    whatever the source is: the bytes before the terminator are those of the
    source, the terminator is within the buffer, and no byte outside the buffer
    changes. *)
Theorem safestrcpy_terminates (m : mem) s t n :
  0 < n → t + n <= s ∨ s + n <= t →
  ∃ k, 0 <= k < n ∧ safestrcpy m s t n (s + k) = 0
    ∧ (∀ j, 0 <= j < k → safestrcpy m s t n (s + j) = m (t + j) ∧ m (t + j) ≠ 0)
    ∧ (k < n - 1 → m (t + k) = 0)
    ∧ ∀ x, x < s ∨ s + n <= x → safestrcpy m s t n x = m x.
Proof.
  intros Hn Hdis. unfold safestrcpy. destruct (Z.leb_spec n 0); [lia|].
  assert (∃ N, n = Z.of_nat N + 1 ∧ Z.to_nat (n - 1) = N) as (N & HnN & ->).
  { exists (Z.to_nat (n - 1)). lia. }
  clear H. subst n. revert m s t Hdis. clear Hn.
  induction N as [|N IH]; intros m s t Hdis; cbn [safestrcpy_loop].
  - exists 0. rewrite store_spec, decide_True by lia. split_and!; [lia|lia|done|intros; lia|intros; lia|].
    intros x Hx. by rewrite store_spec, decide_False by lia.
  - destruct (Z.eqb_spec (m t) 0) as [H0|H0]; cbn [negb].
    + exists 0. rewrite !store_spec, decide_False, decide_True by lia.
      split_and!; [lia|lia|done|intros; lia|intros _; by rewrite Z.add_0_r|].
      intros x Hx. by rewrite !store_spec, !decide_False by lia.
    + destruct (IH (store m s (m t)) (s + 1) (t + 1)) as (k & Hk & H1 & H2 & H3 & H4); [lia|].
      exists (k + 1). replace (s + (k + 1)) with (s + 1 + k) by lia. split_and!; [lia|lia|done|..].
      * intros j Hj. destruct (decide (j = 0)) as [->|Hj0].
        -- rewrite !Z.add_0_r. split; [|done]. rewrite H4 by lia.
           by rewrite store_spec, decide_True.
        -- destruct (H2 (j - 1)) as [H5 H6]; [lia|].
           replace (s + 1 + (j - 1)) with (s + j) in H5 by lia.
           replace (t + 1 + (j - 1)) with (t + j) in * by lia.
           rewrite store_spec, decide_False in H5, H6 by lia. done.
      * intros Hlt. assert (k < Z.of_nat N + 1 - 1) as Hlt' by lia. specialize (H3 Hlt').
        rewrite store_spec, decide_False in H3 by lia. by replace (t + (k + 1)) with (t + 1 + k) by lia.
      * intros x Hx. rewrite H4 by lia. by rewrite store_spec, decide_False by lia.
Qed.

Lemma safestrcpy_terminates_witness :
  ∃ k, 0 <= k < 4 ∧ safestrcpy (λ a, a) 100 200 4 (100 + k) = 0
    ∧ (∀ j, 0 <= j < k → safestrcpy (λ a, a) 100 200 4 (100 + j) = 200 + j ∧ 200 + j ≠ 0)
    ∧ (k < 4 - 1 → 200 + k = 0)
    ∧ ∀ x, x < 100 ∨ 100 + 4 <= x → safestrcpy (λ a, a) 100 200 4 x = x.
Proof. apply (safestrcpy_terminates (λ a, a) 100 200 4); lia. Defined.

(** [strncpy] fills exactly [n] bytes: the source up to its NUL, zeros after. *)
Theorem strncpy_pads (m : mem) s t n i :
  t + n <= s ∨ s + n <= t → 0 <= i < n →
  (no_nul m t i → strncpy m s t n (s + i) = m (t + i))
  ∧ (¬ no_nul m t i → strncpy m s t n (s + i) = 0)
  ∧ ∀ x, x < s ∨ s + n <= x → strncpy m s t n x = m x.
Proof.
  intros Hdis Hi. unfold strncpy. split_and!.
  3:{ intros x Hx. apply strncpy_loop_frame. lia. }
  all: assert (∃ N, n = Z.of_nat N ∧ Z.to_nat n = N) as (N & HnN & ->) by (exists (Z.to_nat n); lia).
  all: subst n; revert m s t i Hdis Hi; induction N as [|N IH]; intros m s t i Hdis Hi Hnn; [lia|];
    cbn [strncpy_loop].
  - destruct (Z.eqb_spec (m t) 0) as [H0|H0]; cbn [negb].
    + assert (i = 0) as ->.
      { destruct (decide (i = 0)); [done|]. destruct (Hnn 0); [lia|]. by rewrite Z.add_0_r. }
      rewrite pad_zero_spec, store_spec, decide_False, decide_True by lia. by rewrite Z.add_0_r.
    + destruct (decide (i = 0)) as [->|Hne].
      * rewrite strncpy_loop_frame, store_spec, decide_True by lia. by rewrite Z.add_0_r.
      * replace (s + i) with (s + 1 + (i - 1)) by lia. rewrite IH; [|lia|lia|].
        -- rewrite store_spec, decide_False by lia. f_equal. lia.
        -- intros j Hj. rewrite store_spec, decide_False by lia.
           replace (t + 1 + j) with (t + (j + 1)) by lia. apply Hnn. lia.
  - destruct (Z.eqb_spec (m t) 0) as [H0|H0]; cbn [negb].
    + destruct (decide (i = 0)) as [->|Hne].
      * exfalso. apply Hnn. intros j Hj. lia.
      * by rewrite pad_zero_spec, decide_True by lia.
    + destruct (decide (i = 0)) as [->|Hne].
      * exfalso. apply Hnn. intros j Hj. lia.
      * replace (s + i) with (s + 1 + (i - 1)) by lia. apply IH; [lia|lia|].
        intros Hc. apply Hnn. intros j Hj. destruct (decide (j = 0)) as [->|Hj0]; [by rewrite Z.add_0_r|].
        specialize (Hc (j - 1) ltac:(lia)). rewrite store_spec, decide_False in Hc by lia.
        by replace (t + j) with (t + 1 + (j - 1)) by lia.
Qed.

Lemma strncpy_pads_witness :
  (no_nul (λ a, a) 200 2 → strncpy (λ a, a) 100 200 14 (100 + 2) = 200 + 2)
  ∧ (¬ no_nul (λ a, a) 200 2 → strncpy (λ a, a) 100 200 14 (100 + 2) = 0)
  ∧ ∀ x, x < 100 ∨ 100 + 14 <= x → strncpy (λ a, a) 100 200 14 x = x.
Proof. apply (strncpy_pads (λ a, a) 100 200 14 2); lia. Defined.
