(* ===== verification/Store.v ===== *)
(** * The interface between the file system and the storage stack

    fs.c reads and changes blocks through five operations of bio.c and log.c.
    [BlockStore] names them; [BlockStoreSpec] states what the file system relies
    on, in terms of the content of the blocks ([contents]), the set of blocks
    whose buffers are locked and the number of [log_write]s the transaction still
    has room for ([ready]).  The storage stack of [Bio] and [Log] is an instance. *)
From S2P Require Import Prelude Params Block Bio BioInv BioSpec Log LogSpec LogCrash LogOps.

Class BlockStore (S : Type) := {
  s_bread : Z → Z → M S nat;
  s_data : nat → M S block;
  s_set : nat → block → M S unit;
  s_log_write : nat → M S unit;
  s_brelse : nat → M S unit;
}.

Class BlockStoreSpec (S : Type) `{!BlockStore S} := {
  contents : S → Z → block;
  (** Exactly the blocks of the set are locked, and there is room for as many
      further [log_write]s. *)
  ready : S → gset Z → nat → Prop;
  (** The caller has the buffer, which is for the block. *)
  owns : S → nat → Z → Prop;
  (** The block can be given up: its content is logged, or is that of the disk. *)
  settled : S → Z → Prop;
  (** The file system may use the block. *)
  usable : S → Z → Prop;
  evolves : S → S → Prop;

  evolves_refl s : evolves s s;
  evolves_trans s1 s2 s3 : evolves s1 s2 → evolves s2 s3 → evolves s1 s3;
  evolves_usable s s' n : evolves s s' → usable s' n ↔ usable s n;
  evolves_settled s s' n :
    evolves s s' → settled s n → contents s' n = contents s n → settled s' n;
  ready_weaken s H k j : ready s H k → (j ≤ k)%nat → ready s H j;
  contents_ok s H k n : ready s H k → blk_ok (contents s n);
  owns_locked s H k i n : ready s H k → owns s i n → n ∈ H;
  owns_fun s i n m : owns s i n → owns s i m → n = m;

  s_bread_law s H k n :
    ready s H k → usable s n → n ∉ H → (size H ≤ k)%nat →
    returns (s_bread ROOTDEV n) s (λ i s',
      ready s' ({[n]} ∪ H) k ∧ evolves s s' ∧ settled s' n
      ∧ (∀ m, contents s' m = contents s m)
      ∧ (∀ j m, owns s' j m ↔ (j = i ∧ m = n) ∨ owns s j m) ∧ (∀ m, ¬ owns s i m));
  s_data_law s H k i n :
    ready s H k → owns s i n → s_data i s = Ret (contents s n) s;
  s_set_law s H k i n d :
    ready s H k → owns s i n → blk_ok d →
    returns (s_set i d) s (λ _ s',
      ready s' H k ∧ evolves s s'
      ∧ (∀ m, contents s' m = if decide (m = n) then d else contents s m)
      ∧ (∀ j m, owns s' j m ↔ owns s j m));
  s_log_write_law s H k i n :
    ready s H (Datatypes.S k) → owns s i n → usable s n →
    returns (s_log_write i) s (λ _ s',
      ready s' H k ∧ evolves s s' ∧ settled s' n
      ∧ (∀ m, contents s' m = contents s m) ∧ (∀ j m, owns s' j m ↔ owns s j m));
  s_brelse_law s H k i n :
    ready s H k → owns s i n → settled s n →
    returns (s_brelse i) s (λ _ s',
      ready s' (H ∖ {[n]}) k ∧ evolves s s'
      ∧ (∀ m, contents s' m = contents s m)
      ∧ (∀ j m, owns s' j m ↔ j ≠ i ∧ owns s j m));
}.

(** ** The storage stack is a block store *)
#[export] Instance storage_store : BlockStore storage := {|
  s_bread := bread;
  s_data := buf_data;
  s_set := set_buf_data;
  s_log_write := log_write;
  s_brelse := brelse;
|}.

Section count.
Lemma NoDup_fmap_filter {A B} (P : A → Prop) `{!∀ x, Decision (P x)} (f : A → B) (l : list A) :
  (∀ (i j : nat) x y, l !! i = Some x → l !! j = Some y → P x → P y → f x = f y → i = j) →
  NoDup (f <$> filter P l).
Proof.
  induction l as [|z l IH]; intros Hinj; [constructor|]. rewrite filter_cons.
  assert (NoDup (f <$> filter P l)) as Hnd.
  { apply IH. intros i j x y Hi Hj Hx Hy He. assert (S i = S j); [|lia].
    by apply (Hinj (S i) (S j) x y). }
  case_decide as Hz; [|done]. cbn. apply NoDup_cons. split; [|done].
  rewrite list_elem_of_fmap. intros (y & Hy & Hin). apply list_elem_of_filter in Hin as [HP Hin].
  apply list_elem_of_lookup in Hin as [j Hj].
  by specialize (Hinj 0%nat (S j) z y eq_refl Hj Hz HP Hy).
Qed.

Lemma length_filter_split {A} (P : A → Prop) `{!∀ x, Decision (P x)} (l : list A) :
  length l = (length (filter P l) + length (filter (λ x, ¬ P x) l))%nat.
Proof.
  induction l as [|x l IH]; [done|]. rewrite !filter_cons. cbn [length].
  destruct (decide (P x)); [rewrite decide_False by tauto|rewrite decide_True by done]; cbn; lia.
Qed.

Lemma size_union_le (X Y : gset Z) : (size (X ∪ Y) ≤ size X + size Y)%nat.
Proof.
  rewrite size_union_alt. assert (size (Y ∖ X) ≤ size Y)%nat; [|lia].
  apply subseteq_size. set_solver.
Qed.

(** Only modified and locked buffers are not spare. *)
Lemma spares_count s (H : gset Z) :
  log_wf s → (∀ n, busy s n ↔ n ∈ H) →
  (NBUF ≤ spares s + nlog s + size H)%nat.
Proof.
  intros Hl HH. pose proof (lw_cache s Hl) as Hwf.
  rewrite <-(cw_len s Hwf), (length_filter_split spare). fold (spares s).
  set (ns := filter (λ b, ¬ spare b) (bufs s)).
  set (homes := list_to_set (home s <$> seq 0 (nlog s)) : gset Z).
  assert (length ns = size (list_to_set (C := gset Z) (b_blockno <$> ns))) as ->.
  { rewrite size_list_to_set; [by rewrite length_fmap|]. apply NoDup_fmap_filter.
    intros i j x y Hi Hj Hx Hy He. pose proof (cw_buf s Hwf i x Hi) as Bx.
    pose proof (cw_buf s Hwf j y Hj) as By.
    apply (cw_uniq s Hwf i j x y Hi Hj (b_blockno y)); split; try done.
    - destruct (decide (b_dev x = ROOTDEV)); [done|]. by destruct (bw_unused s x Bx).
    - destruct (decide (b_dev y = ROOTDEV)); [done|]. by destruct (bw_unused s y By). }
  assert (list_to_set (C := gset Z) (b_blockno <$> ns) ⊆ homes ∪ H) as Hsub.
  { intros n Hn. apply elem_of_list_to_set, list_elem_of_fmap in Hn as (b & -> & Hin).
    apply list_elem_of_filter in Hin as [Hns Hin]. apply list_elem_of_lookup in Hin as [i Hi].
    pose proof (cw_buf s Hwf i b Hi) as B.
    assert (b_dev b = ROOTDEV) as Hd.
    { destruct (decide (b_dev b = ROOTDEV)); [done|]. by destruct (bw_unused s b B). }
    apply elem_of_union. destruct (b_dirty b) eqn:Ed.
    - left. assert (pinned s (b_blockno b)) as Hp by (by exists i, b).
      apply (lw_pinned s Hl) in Hp as (k & Hk & Heq). apply elem_of_list_to_set, list_elem_of_fmap.
      exists k. split; [done|]. apply elem_of_seq. lia.
    - right. apply HH. exists i, b. split_and!; try done.
      pose proof (bw_refcnt s b B) as Hr. destruct (sl_locked (b_lock b)); [done|].
      by destruct Hns. }
  assert (size homes ≤ nlog s)%nat as Hsz.
  { unfold homes. rewrite <-(length_seq (nlog s) 0) at 2. rewrite <-(length_fmap (home s)).
    generalize (home s <$> seq 0 (nlog s)). intros l. induction l as [|x l IH]; cbn.
    - by rewrite size_empty.
    - etrans; [apply size_union_le|]. rewrite size_singleton. lia. }
  apply subseteq_size in Hsub. pose proof (size_union_le homes H). lia.
Qed.
End count.

Definition st_ready (s : storage) (H : gset Z) (k : nat) : Prop :=
  log_wf s ∧ lg_lock (lg s) = false ∧ ((0 < k)%nat → 1 <= lg_outstanding (lg s))
  ∧ (∀ n, busy s n ↔ n ∈ H) ∧ lh_n (lg s) + Z.of_nat k < lg_size (lg s).

Definition st_settled (s : storage) (n : Z) : Prop :=
  pinned s n ∨ view s n = disk_block (memdisk s) n.

Definition st_usable (s : storage) (n : Z) : Prop := 0 <= n < disksize s ∧ ¬ in_log s n.

Record st_evolves (s s' : storage) : Prop := {
  ev_disk : memdisk s' = memdisk s;
  ev_trace : wtrace s' = wtrace s;
  ev_size : disksize s' = disksize s;
  ev_pid : cur_pid s' = cur_pid s;
  ev_area : same_log_area s s';
  ev_pinned : ∀ m, pinned s m → pinned s' m;
}.

Lemma ready_spares s H k : st_ready s H k → (size H ≤ k)%nat → (0 < spares s)%nat.
Proof.
  intros (Hl & _ & _ & HH & Hn) Hk. pose proof (spares_count s H Hl HH).
  pose proof (lgm_size s (lw_geom s Hl)). pose proof (tw_n s (lw_trans s Hl)).
  unfold nlog, LOGSIZE, MAXOPBLOCKS, NBUF in *. lia.
Qed.

Lemma same_area_bio s s' : lg s' = lg s → same_log_area s s'.
Proof. intros L. unfold same_log_area. by rewrite L. Qed.

#[export] Program Instance storage_spec : BlockStoreSpec storage := {|
  contents := view;
  ready := st_ready;
  owns := holds;
  settled := st_settled;
  usable := st_usable;
  evolves := st_evolves;
|}.
Next Obligation. intros s. by split. Qed.
Next Obligation.
  intros s1 s2 s3 [A1 A2 A3 A4 A5 A6] [B1 B2 B3 B4 B5 B6]. split; try congruence; [|by eauto].
  unfold same_log_area in *. destruct A5 as (?&?&?&?&?&?), B5 as (?&?&?&?&?&?).
  split_and!; congruence.
Qed.
Next Obligation.
  intros s s' n [_ _ Hs _ (H1 & H2 & _) _]. unfold st_usable, in_log. by rewrite Hs, H1, H2.
Qed.
Next Obligation.
  intros s s' n [Hd _ _ _ _ Hp] [Hn|Hn] Hv; [left; by apply Hp|right]. by rewrite Hv, Hd.
Qed.
Next Obligation. intros s H k j (?&?&Ho&?&?) Hj. split_and!; [done|done|intros; apply Ho; lia|done|lia]. Qed.
Next Obligation. intros s H k n (Hl & _). apply view_ok, Hl. Qed.
Next Obligation. intros s H k i n (_ & _ & _ & HH & _) Hn. by eapply HH, holds_busy. Qed.
Next Obligation. intros s i n m. apply holds_fun. Qed.
Next Obligation.
  intros s H k n Hr [Hn _] Hnot Hk. pose proof (ready_spares s H k Hr Hk) as Hsp.
  destruct Hr as (Hl & Hlk & Ho & HH & Hroom).
  assert (¬ busy s n) as Hb by (by rewrite HH).
  eapply returns_mono; [apply bread_spec; [apply Hl|done|done|by right]|].
  intros i s' [B1 B2 B3 B4 B5 B6 B7 B8 B9 B10 B11]. pose proof B2 as [L P Z].
  split_and!; try done.
  - split_and!; rewrite ?L; try done; [by eapply log_wf_bio|].
    intros m. rewrite B9, HH. set_solver.
  - split; try done; [by apply same_area_bio|]. intros m. by rewrite B8.
  - destruct (quiet_settled s n (lw_cache s Hl) Hb) as [Hp|Hv]; [left; by apply B8|right].
    by rewrite B5, B6.
Qed.
Next Obligation. intros s H k i n (Hl & _) Hn. apply buf_data_spec; [apply Hl|done]. Qed.
Next Obligation.
  intros s H k i n d (Hl & Hlk & Ho & HH & Hroom) Hn Hd.
  eapply returns_mono; [by apply edit_spec; [apply Hl|..]|].
  intros _ s' [E1 E2 E3 E4 E5 E6 E7 E8 E9]. pose proof E2 as [L P Z].
  split_and!; try done.
  - split_and!; rewrite ?L; try done; [by eapply log_wf_bio|]. intros m. by rewrite E8, HH.
  - split; try done; [by apply same_area_bio|]. intros m. by rewrite E7.
Qed.
Next Obligation.
  intros s H k i n (Hl & Hlk & Ho & HH & Hroom) Hn [Hr Hout].
  assert (1 <= lg_outstanding (lg s)) by (apply Ho; lia).
  eapply returns_mono; [apply (log_write_spec s i n); try done; lia|].
  intros _ s' [G1 G2 G3 G4 G5 G6 G7 G8 G9 G10 G11 [G12 G13]].
  pose proof G4 as (A1 & A2 & A3 & A4 & A5 & A6).
  split_and!; try done.
  - split_and!; rewrite ?A2, ?A4, ?A5; try done; [intros m; by rewrite G10, HH|].
    destruct (pinned_dec s n (lw_cache s Hl)) as [Hp|Hp]; [rewrite (G12 Hp)|rewrite (G13 Hp)]; lia.
  - split; try done. intros m Hm. apply G9. by right.
  - left. apply G9. by left.
Qed.
Next Obligation.
  intros s H k i n (Hl & Hlk & Ho & HH & Hroom) Hn Hs.
  eapply returns_mono; [apply brelse_spec; [apply Hl|done|exact Hs]|].
  intros _ s' [R1 R2 R3 R4 R5 R6 R7 R8 R9 R10]. pose proof R2 as [L P Z].
  split_and!; try done.
  - split_and!; rewrite ?L; try done; [by eapply log_wf_bio|].
    intros m. rewrite R8, HH. set_solver.
  - split; try done; [by apply same_area_bio|]. intros m. by rewrite R7.
Qed.
