(* ===== verification/Fs.v ===== *)
(** * The file system (fs.c)

    Every function of fs.c, over an abstract block store ([Store]): blocks,
    inodes, inode content, directories and path names.  A [struct inode*] is the
    index of a slot of [icache.inode].  A device's read and write functions
    (devsw) are arguments of the functions that call them. *)
From S2P Require Import Prelude Params Block Bio BioInv Log Store Str.

(** [struct inode] (file.h) *)
Record inode := mkinode {
  i_dev : Z;
  i_inum : Z;
  i_ref : Z;
  i_lock : sleeplock;
  i_valid : bool;
  i_type : Z;
  i_major : Z;
  i_minor : Z;
  i_nlink : Z;
  i_size : Z;
  i_addrs : list Z  (* NDIRECT + 3 addresses *)
}.

Definition set_i_dev (v : Z) (r : inode) : inode :=
  mkinode v (i_inum r) (i_ref r) (i_lock r) (i_valid r) (i_type r) (i_major r) (i_minor r)
    (i_nlink r) (i_size r) (i_addrs r).
Definition set_i_inum (v : Z) (r : inode) : inode :=
  mkinode (i_dev r) v (i_ref r) (i_lock r) (i_valid r) (i_type r) (i_major r) (i_minor r)
    (i_nlink r) (i_size r) (i_addrs r).
Definition set_i_ref (v : Z) (r : inode) : inode :=
  mkinode (i_dev r) (i_inum r) v (i_lock r) (i_valid r) (i_type r) (i_major r) (i_minor r)
    (i_nlink r) (i_size r) (i_addrs r).
Definition set_i_lock (v : sleeplock) (r : inode) : inode :=
  mkinode (i_dev r) (i_inum r) (i_ref r) v (i_valid r) (i_type r) (i_major r) (i_minor r)
    (i_nlink r) (i_size r) (i_addrs r).
Definition set_i_valid (v : bool) (r : inode) : inode :=
  mkinode (i_dev r) (i_inum r) (i_ref r) (i_lock r) v (i_type r) (i_major r) (i_minor r)
    (i_nlink r) (i_size r) (i_addrs r).
Definition set_i_type (v : Z) (r : inode) : inode :=
  mkinode (i_dev r) (i_inum r) (i_ref r) (i_lock r) (i_valid r) v (i_major r) (i_minor r)
    (i_nlink r) (i_size r) (i_addrs r).
Definition set_i_major (v : Z) (r : inode) : inode :=
  mkinode (i_dev r) (i_inum r) (i_ref r) (i_lock r) (i_valid r) (i_type r) v (i_minor r)
    (i_nlink r) (i_size r) (i_addrs r).
Definition set_i_minor (v : Z) (r : inode) : inode :=
  mkinode (i_dev r) (i_inum r) (i_ref r) (i_lock r) (i_valid r) (i_type r) (i_major r) v
    (i_nlink r) (i_size r) (i_addrs r).
Definition set_i_nlink (v : Z) (r : inode) : inode :=
  mkinode (i_dev r) (i_inum r) (i_ref r) (i_lock r) (i_valid r) (i_type r) (i_major r)
    (i_minor r) v (i_size r) (i_addrs r).
Definition set_i_size (v : Z) (r : inode) : inode :=
  mkinode (i_dev r) (i_inum r) (i_ref r) (i_lock r) (i_valid r) (i_type r) (i_major r)
    (i_minor r) (i_nlink r) v (i_addrs r).
Definition set_i_addrs (v : list Z) (r : inode) : inode :=
  mkinode (i_dev r) (i_inum r) (i_ref r) (i_lock r) (i_valid r) (i_type r) (i_major r)
    (i_minor r) (i_nlink r) (i_size r) v.

(** [struct stat] (stat.h) *)
Record stat := mkstat { stat_type : Z; stat_dev : Z; stat_ino : Z; stat_nlink : Z; stat_size : Z }.

(** The state of fs.c over the state [S] of the block store: the superblock, the
    inode cache and its lock, the calling process (its pid and its current
    directory), and the calls of [wakeup] made. *)
Record fsstate (S : Type) := mkfs {
  fs_store : S;
  fs_sb : superblock;
  fs_icache : list inode;
  fs_icache_lock : bool;
  fs_pid : Z;
  fs_cwd : nat;
  fs_wakeups : list chan
}.
Arguments mkfs {S}.
Arguments fs_store {S}.
Arguments fs_sb {S}.
Arguments fs_icache {S}.
Arguments fs_icache_lock {S}.
Arguments fs_pid {S}.
Arguments fs_cwd {S}.
Arguments fs_wakeups {S}.

Section setters.
Context {S : Type}.
Definition set_fs_store (v : S) (f : fsstate S) : fsstate S :=
  mkfs v (fs_sb f) (fs_icache f) (fs_icache_lock f) (fs_pid f) (fs_cwd f) (fs_wakeups f).
Definition set_fs_sb (v : superblock) (f : fsstate S) : fsstate S :=
  mkfs (fs_store f) v (fs_icache f) (fs_icache_lock f) (fs_pid f) (fs_cwd f) (fs_wakeups f).
Definition set_fs_icache (v : list inode) (f : fsstate S) : fsstate S :=
  mkfs (fs_store f) (fs_sb f) v (fs_icache_lock f) (fs_pid f) (fs_cwd f) (fs_wakeups f).
Definition set_fs_icache_lock (v : bool) (f : fsstate S) : fsstate S :=
  mkfs (fs_store f) (fs_sb f) (fs_icache f) v (fs_pid f) (fs_cwd f) (fs_wakeups f).
Definition set_fs_wakeups (v : list chan) (f : fsstate S) : fsstate S :=
  mkfs (fs_store f) (fs_sb f) (fs_icache f) (fs_icache_lock f) (fs_pid f) (fs_cwd f) v.
End setters.

(** ** Layout of the on-disk structures *)

(** [IBLOCK] and [BBLOCK] *)
Definition IBLOCK (i : Z) (sb : superblock) : Z := u32 (i / IPB + sb_inodestart sb).
Definition BBLOCK (b : Z) (sb : superblock) : Z := u32 (b / BPB + sb_bmapstart sb).

(** [struct dinode]: four shorts, the size, the addresses.  [dip] is the
    [k]-th of its block. *)
Definition dinode_half (k j : nat) : nat := 32 * k + j.
Definition dinode_word (k j : nat) : nat := 16 * k + j.

Definition dip_type (d : block) (k : nat) : Z := s16 (get_half d (dinode_half k 0)).

Definition put_addrs (d : block) (k : nat) (addrs : list Z) : block :=
  foldl (λ d ja, put_word d (dinode_word k (3 + ja.1)) ja.2) d (imap pair addrs).

(** The inode [ip] copied to the [k]-th dinode of block [d] (iupdate), and back
    (ilock). *)
Definition put_dinode (d : block) (k : nat) (ip : inode) : block :=
  let d := put_half d (dinode_half k 0) (i_type ip) in
  let d := put_half d (dinode_half k 1) (i_major ip) in
  let d := put_half d (dinode_half k 2) (i_minor ip) in
  let d := put_half d (dinode_half k 3) (i_nlink ip) in
  let d := put_word d (dinode_word k 2) (i_size ip) in
  put_addrs d k (i_addrs ip).

Definition get_dinode (d : block) (k : nat) (ip : inode) : inode :=
  let ip := set_i_type (dip_type d k) ip in
  let ip := set_i_major (s16 (get_half d (dinode_half k 1))) ip in
  let ip := set_i_minor (s16 (get_half d (dinode_half k 2))) ip in
  let ip := set_i_nlink (s16 (get_half d (dinode_half k 3))) ip in
  let ip := set_i_size (get_word d (dinode_word k 2)) ip in
  set_i_addrs ((λ j, get_word d (dinode_word k (3 + j))) <$> seq 0 (Z.to_nat (NDIRECT + 3))) ip.

(** [memset(dip, 0, sizeof( *dip)); dip->type = type] *)
Definition clear_dinode (d : block) (k : nat) (type : Z) : block :=
  put_half (put_bytes d (64 * k) (replicate 64 0)) (dinode_half k 0) type.

(** [struct dirent]: a ushort and DIRSIZ bytes. *)
Definition sizeof_dirent : Z := 2 + DIRSIZ.
Definition de_inum (de : list Z) : Z := get_half de 0.
Definition de_name (de : list Z) : list Z := drop 2 de.
Definition mk_dirent (inum : Z) (name : list Z) : list Z :=
  put_half [0; 0] 0 inum ++ take (Z.to_nat DIRSIZ) (name ++ replicate (Z.to_nat DIRSIZ) 0).

(** One bit of the free map: [data[bi/8] & (1 << (bi % 8))], and its assignments. *)
Definition bit_mask (bi : nat) : Z := Z.shiftl 1 (Z.of_nat (bi mod 8)).
Definition bit_get (d : block) (bi : nat) : bool :=
  negb (Z.land (byte_at d (bi / 8)) (bit_mask bi) =? 0).
Definition bit_set (d : block) (bi : nat) : block :=
  <[(bi / 8)%nat := Z.lor (byte_at d (bi / 8)) (bit_mask bi)]> d.
Definition bit_clear (d : block) (bi : nat) : block :=
  <[(bi / 8)%nat := Z.land (byte_at d (bi / 8)) (Z.lnot (bit_mask bi))]> d.

Section fs.
Context {S : Type} `{!BlockStore S}.
Abbreviation FM := (M (fsstate S)).

(** A function of bio.c or log.c called from fs.c. *)
Definition on_store {A} (m : M S A) : FM A := λ f,
  match m (fs_store f) with
  | Ret a s => Ret a (set_fs_store s f)
  | Panic msg => Panic msg
  | Fault => Fault
  | Asleep c s => Asleep c (set_fs_store s f)
  end.

Definition bread (dev n : Z) : FM nat := on_store (s_bread dev n).
Definition data (bp : nat) : FM block := on_store (s_data bp).
Definition set_data (bp : nat) (d : block) : FM unit := on_store (s_set bp d).
Definition log_write (bp : nat) : FM unit := on_store (s_log_write bp).
Definition brelse (bp : nat) : FM unit := on_store (s_brelse bp).

(** *** Access to the inode cache *)
Definition geti (ip : nat) : FM inode := λ f,
  match fs_icache f !! ip with Some i => Ret i f | None => Fault end.
Definition updi (ip : nat) (g : inode → inode) : FM unit := λ f,
  match fs_icache f !! ip with
  | Some i => Ret tt (set_fs_icache (<[ip := g i]> (fs_icache f)) f)
  | None => Fault
  end.

Definition acquire_icache : FM unit := λ f,
  if fs_icache_lock f then Panic "acquire" else Ret tt (set_fs_icache_lock true f).
Definition release_icache : FM unit := λ f,
  if fs_icache_lock f then Ret tt (set_fs_icache_lock false f) else Panic "release".

(** sleeplock.c, on the lock of an inode *)
Definition acquiresleep_i (ip : nat) : FM unit :=
  i ← geti ip;
  if sl_locked (i_lock i) then go_to_sleep (ChLock ip) else
  pid ← gets fs_pid;
  updi ip (set_i_lock (mksleeplock true pid)).
Definition releasesleep_i (ip : nat) : FM unit :=
  updi ip (set_i_lock (mksleeplock false 0));;
  modify (λ f, set_fs_wakeups (fs_wakeups f ++ [ChLock ip]) f).
Definition holdingsleep_i (ip : nat) : FM bool :=
  i ← geti ip;
  pid ← gets fs_pid;
  mret (sl_locked (i_lock i) && (sl_pid (i_lock i) =? pid)).

(** ** Blocks *)
Definition bzero (dev bno : Z) : FM unit :=
  bp ← bread dev bno;
  set_data bp zero_block;;
  log_write bp;;
  brelse bp.

(** The number of blocks of the free map, [b < sb.size] with [b] in steps of BPB. *)
Definition nbitmap (sb : superblock) : nat := Z.to_nat ((sb_size sb + BPB - 1) / BPB).

(** The first free bit of the map block for blocks [b], [b + 1], ... *)
Definition free_bit (sb : superblock) (b : Z) (d : block) : option nat :=
  List.find (λ bi, negb (bit_get d bi)) (seq 0 (Z.to_nat (Z.min BPB (sb_size sb - b)))).

Fixpoint balloc_scan (dev : Z) (ks : list nat) : FM Z :=
  match ks with
  | [] => panic "balloc: out of blocks"
  | k :: ks' =>
      let b := Z.of_nat k * BPB in
      sb ← gets fs_sb;
      bp ← bread dev (BBLOCK b sb);
      d ← data bp;
      match free_bit sb b d with
      | Some bi =>
          set_data bp (bit_set d bi);;
          log_write bp;;
          brelse bp;;
          bzero dev (b + Z.of_nat bi);;
          mret (b + Z.of_nat bi)
      | None => brelse bp;; balloc_scan dev ks'
      end
  end.

Definition balloc (dev : Z) : FM Z :=
  sb ← gets fs_sb;
  balloc_scan dev (seq 0 (nbitmap sb)).

Definition bfree (dev b : Z) : FM unit :=
  sb ← gets fs_sb;
  bp ← bread dev (BBLOCK b sb);
  let bi := Z.to_nat (b mod BPB) in
  d ← data bp;
  if negb (bit_get d bi) then panic "freeing free block" else
  set_data bp (bit_clear d bi);;
  log_write bp;;
  brelse bp.

(** ** Inodes *)
Definition iinit (dev : Z) : FM unit :=
  modify (set_fs_icache_lock false);;
  mfor (seq 0 NINODE) (λ i, updi i (set_i_lock initsleeplock));;
  (* readsb(dev, &sb) *)
  bp ← bread dev 1;
  d ← data bp;
  modify (set_fs_sb (decode_sb d));;
  brelse bp.

(** The loop of [iget]: a slot that holds the inode, or the first free slot. *)
Fixpoint iget_scan (dev inum : Z) (ips : list nat) (empty : option nat)
    : FM (nat + option nat) :=
  match ips with
  | [] => mret (inr empty)
  | ip :: ips' =>
      i ← geti ip;
      if (0 <? i_ref i) && (i_dev i =? dev) && (i_inum i =? inum) then mret (inl ip) else
      iget_scan dev inum ips'
        (if bool_decide (empty = None) && (i_ref i =? 0) then Some ip else empty)
  end.

Definition iget (dev inum : Z) : FM nat :=
  acquire_icache;;
  r ← iget_scan dev inum (seq 0 NINODE) None;
  match r with
  | inl ip =>
      updi ip (λ i, set_i_ref (i_ref i + 1) i);;
      release_icache;;
      mret ip
  | inr None => panic "iget: no inodes"
  | inr (Some ip) =>
      updi ip (set_i_dev dev);;
      updi ip (set_i_inum inum);;
      updi ip (set_i_ref 1);;
      updi ip (set_i_valid false);;
      release_icache;;
      mret ip
  end.

Fixpoint ialloc_scan (dev type : Z) (inums : list nat) : FM nat :=
  match inums with
  | [] => panic "ialloc: no inodes"
  | n :: inums' =>
      let inum := Z.of_nat n in
      sb ← gets fs_sb;
      bp ← bread dev (IBLOCK inum sb);
      d ← data bp;
      let k := Z.to_nat (inum mod IPB) in
      if dip_type d k =? 0 then
        set_data bp (clear_dinode d k type);;
        log_write bp;;
        brelse bp;;
        iget dev inum
      else
        brelse bp;;
        ialloc_scan dev type inums'
  end.

Definition ialloc (dev type : Z) : FM nat :=
  sb ← gets fs_sb;
  ialloc_scan dev type (seq 1 (Z.to_nat (sb_ninodes sb) - 1)).

Definition iupdate (ip : nat) : FM unit :=
  i ← geti ip;
  sb ← gets fs_sb;
  bp ← bread (i_dev i) (IBLOCK (i_inum i) sb);
  d ← data bp;
  set_data bp (put_dinode d (Z.to_nat (i_inum i mod IPB)) i);;
  log_write bp;;
  brelse bp.

Definition idup (ip : nat) : FM nat :=
  acquire_icache;;
  updi ip (λ i, set_i_ref (i_ref i + 1) i);;
  release_icache;;
  mret ip.

Definition ilock (ip : nat) : FM unit :=
  i ← geti ip;
  if i_ref i <? 1 then panic "ilock" else
  acquiresleep_i ip;;
  i ← geti ip;
  if negb (i_valid i) then
    sb ← gets fs_sb;
    bp ← bread (i_dev i) (IBLOCK (i_inum i) sb);
    d ← data bp;
    updi ip (get_dinode d (Z.to_nat (i_inum i mod IPB)));;
    brelse bp;;
    updi ip (set_i_valid true);;
    i ← geti ip;
    if i_type i =? 0 then panic "ilock: no type" else mret tt
  else mret tt.

Definition iunlock (ip : nat) : FM unit :=
  h ← holdingsleep_i ip;
  i ← geti ip;
  if negb h || (i_ref i <? 1) then panic "iunlock" else
  releasesleep_i ip.

(** ** Inode content *)

(** [if((addr = ip->addrs[j]) == 0) ip->addrs[j] = addr = balloc(ip->dev)] *)
Definition load_addr (ip : nat) (j : nat) : FM Z :=
  i ← geti ip;
  addr ← deref (i_addrs i !! j);
  if addr =? 0 then
    addr ← balloc (i_dev i);
    updi ip (λ i, set_i_addrs (<[j := addr]> (i_addrs i)) i);;
    mret addr
  else mret addr.

(** One level of indirection: the entry [idx] of block [addr], allocated if it is
    empty. *)
Definition load_entry (ip : nat) (addr idx : Z) : FM Z :=
  i ← geti ip;
  bp ← bread (i_dev i) addr;
  a ← data bp;
  let next := get_word a (Z.to_nat idx) in
  if next =? 0 then
    next ← balloc (i_dev i);
    a ← data bp;
    set_data bp (put_word a (Z.to_nat idx) next);;
    log_write bp;;
    brelse bp;;
    mret next
  else
    brelse bp;;
    mret next.

Definition bmap (ip : nat) (bn : Z) : FM Z :=
  if bn <? NDIRECT then load_addr ip (Z.to_nat bn) else
  let bn := bn - NDIRECT in
  if bn <? NINDIRECT then
    addr ← load_addr ip (Z.to_nat NDIRECT);
    load_entry ip addr bn
  else
  let bn := bn - NINDIRECT in
  if bn <? NDOUINDIRECT then
    let index1 := bn / NINDIRECT in
    let index2 := bn mod NINDIRECT in
    addr ← load_addr ip (Z.to_nat (NDIRECT + 1));
    addr ← load_entry ip addr index1;
    load_entry ip addr index2
  else
  let bn := bn - NDOUINDIRECT in
  if bn <? NTRIINDIRECT then
    let index1 := bn / NDOUINDIRECT in
    let index2 := (bn mod NDOUINDIRECT) / NINDIRECT in
    let index3 := (bn mod NDOUINDIRECT) mod NINDIRECT in
    addr ← load_addr ip (Z.to_nat (NDIRECT + 2));
    addr ← load_entry ip addr index1;
    addr ← load_entry ip addr index2;
    load_entry ip addr index3
  else panic "bmap: out of range".

(** [itrunc] frees a tree of index blocks: below a block [addr] at depth [k + 1]
    are NINDIRECT entries of depth [k]; an entry of depth 0 is a data block. *)
Fixpoint free_tree (depth : nat) (dev addr : Z) : FM unit :=
  match depth with
  | O => bfree dev addr
  | Datatypes.S depth' =>
      bp ← bread dev addr;
      mfor (seq 0 (Z.to_nat NINDIRECT)) (λ j,
        a ← data bp;
        let e := get_word a j in
        if e =? 0 then mret tt else free_tree depth' dev e);;
      brelse bp;;
      bfree dev addr
  end.

Definition free_addr (ip : nat) (depth j : nat) : FM unit :=
  i ← geti ip;
  addr ← deref (i_addrs i !! j);
  if addr =? 0 then mret tt else
  free_tree depth (i_dev i) addr;;
  updi ip (λ i, set_i_addrs (<[j := 0]> (i_addrs i)) i).

Definition itrunc (ip : nat) : FM unit :=
  mfor (seq 0 (Z.to_nat NDIRECT)) (free_addr ip 0);;
  free_addr ip 1 (Z.to_nat NDIRECT);;
  free_addr ip 2 (Z.to_nat (NDIRECT + 1));;
  free_addr ip 3 (Z.to_nat (NDIRECT + 2));;
  updi ip (set_i_size 0);;
  iupdate ip.

Definition iput (ip : nat) : FM unit :=
  acquiresleep_i ip;;
  i ← geti ip;
  (if i_valid i && (i_nlink i =? 0) then
     acquire_icache;;
     i ← geti ip;
     release_icache;;
     if i_ref i =? 1 then
       itrunc ip;;
       updi ip (set_i_type 0);;
       iupdate ip;;
       updi ip (set_i_valid false)
     else mret tt
   else mret tt);;
  releasesleep_i ip;;
  acquire_icache;;
  updi ip (λ i, set_i_ref (i_ref i - 1) i);;
  release_icache.

Definition iunlockput (ip : nat) : FM unit := iunlock ip;; iput ip.

Definition stati (ip : nat) : FM stat :=
  i ← geti ip;
  mret (mkstat (i_type i) (i_dev i) (i_inum i) (i_nlink i) (i_size i)).
End fs.

Section content.
Context {S : Type} `{!BlockStore S}.
Abbreviation FM := (M (fsstate S)).

(** devsw: the read and write function of a major device number, if there is one. *)
Context (dev_read : Z → option (nat → Z → FM (Z * list Z))).
Context (dev_write : Z → option (nat → list Z → Z → FM Z)).

Definition dev_fn {A} (table : Z → option A) (major : Z) : option A :=
  if (major <? 0) || (NDEV <=? major) then None else table major.

(** The loop of [readi]; the result is the bytes copied to [dst].  Each turn copies
    at least one byte, so [n] turns are enough. *)
Fixpoint readi_loop (fuel : nat) (ip : nat) (off tot n : Z) : FM (list Z) :=
  if tot <? n then
    match fuel with
    | O => fault
    | Datatypes.S fuel' =>
        i ← geti ip;
        addr ← bmap ip (off / BSIZE);
        bp ← bread (i_dev i) addr;
        let m := Z.min (n - tot) (BSIZE - off mod BSIZE) in
        d ← data bp;
        let part := get_bytes d (Z.to_nat (off mod BSIZE)) (Z.to_nat m) in
        brelse bp;;
        rest ← readi_loop fuel' ip (off + m) (tot + m) n;
        mret (part ++ rest)
    end
  else mret [].

(** [readi(ip, dst, off, n)]: the result, and the bytes stored at [dst]. *)
Definition readi (ip : nat) (off n : Z) : FM (Z * list Z) :=
  i ← geti ip;
  if i_type i =? T_DEV then
    match dev_fn dev_read (i_major i) with
    | None => mret (-1, [])
    | Some f => f ip n
    end
  else
  if (i_size i <? off) || (u32 (off + n) <? off) then mret (-1, []) else
  let n := if i_size i <? off + n then i_size i - off else n in
  bytes ← readi_loop (Z.to_nat n) ip off 0 n;
  mret (n, bytes).

Fixpoint writei_loop (fuel : nat) (ip : nat) (src : list Z) (off tot n : Z) : FM Z :=
  if tot <? n then
    match fuel with
    | O => fault
    | Datatypes.S fuel' =>
        i ← geti ip;
        addr ← bmap ip (off / BSIZE);
        bp ← bread (i_dev i) addr;
        let m := Z.min (n - tot) (BSIZE - off mod BSIZE) in
        d ← data bp;
        set_data bp (put_bytes d (Z.to_nat (off mod BSIZE)) (take (Z.to_nat m) src));;
        log_write bp;;
        brelse bp;;
        writei_loop fuel' ip (drop (Z.to_nat m) src) (off + m) (tot + m) n
    end
  else mret off.

(** [writei(ip, src, off, n)]; the loop returns the final [off]. *)
Definition writei (ip : nat) (src : list Z) (off n : Z) : FM Z :=
  i ← geti ip;
  if i_type i =? T_DEV then
    match dev_fn dev_write (i_major i) with
    | None => mret (-1)
    | Some f => f ip src n
    end
  else
  if (i_size i <? off) || (u32 (off + n) <? off) then mret (-1) else
  if MAXFILE * BSIZE <? off + n then mret (-1) else
  off ← writei_loop (Z.to_nat n) ip src off 0 n;
  i ← geti ip;
  (if (0 <? n) && (i_size i <? off) then
     updi ip (set_i_size off);;
     iupdate ip
   else mret tt);;
  mret n.

(** ** Directories *)
Definition namecmp (s t : list Z) : Z := strncmp (byte_at s) (byte_at t) (Z.to_nat DIRSIZ).

(** The offsets of the entries: [off < dp->size] in steps of sizeof(de). *)
Definition dir_offsets (size : Z) : list Z :=
  (λ k, Z.of_nat k * sizeof_dirent) <$> seq 0 (Z.to_nat ((size + sizeof_dirent - 1) / sizeof_dirent)).

Fixpoint dirlookup_scan (dp : nat) (name : list Z) (offs : list Z) : FM (option (nat * Z)) :=
  match offs with
  | [] => mret None
  | off :: offs' =>
      '(r, de) ← readi dp off sizeof_dirent;
      if negb (r =? sizeof_dirent) then panic "dirlookup read" else
      if de_inum de =? 0 then dirlookup_scan dp name offs' else
      if namecmp name (de_name de) =? 0 then
        i ← geti dp;
        ip ← iget (i_dev i) (de_inum de);
        mret (Some (ip, off))
      else dirlookup_scan dp name offs'
  end.

(** The inode and, for [*poff], the offset of its entry. *)
Definition dirlookup (dp : nat) (name : list Z) : FM (option (nat * Z)) :=
  i ← geti dp;
  if negb (i_type i =? T_DIR) then panic "dirlookup not DIR" else
  dirlookup_scan dp name (dir_offsets (i_size i)).

(** The first empty entry; the end of the directory if there is none. *)
Fixpoint dirlink_scan (dp : nat) (offs : list Z) (last : Z) : FM Z :=
  match offs with
  | [] => mret last
  | off :: offs' =>
      '(r, de) ← readi dp off sizeof_dirent;
      if negb (r =? sizeof_dirent) then panic "dirlink read" else
      if de_inum de =? 0 then mret off else dirlink_scan dp offs' (off + sizeof_dirent)
  end.

Definition dirlink (dp : nat) (name : list Z) (inum : Z) : FM Z :=
  found ← dirlookup dp name;
  match found with
  | Some (ip, _) => iput ip;; mret (-1)
  | None =>
      i ← geti dp;
      off ← dirlink_scan dp (dir_offsets (i_size i)) 0;
      r ← writei dp (mk_dirent inum name) off sizeof_dirent;
      if negb (r =? sizeof_dirent) then panic "dirlink" else mret 0
  end.

(** ** Paths *)

(** A path is the list of its characters up to the terminating NUL; [47] is '/'. *)
Fixpoint skip_slashes (path : list Z) : list Z :=
  match path with
  | c :: path' => if c =? 47 then skip_slashes path' else path
  | [] => []
  end.

(** The characters up to the next '/' or the end, and what follows. *)
Fixpoint take_elem (path : list Z) : list Z * list Z :=
  match path with
  | c :: path' =>
      if negb (c =? 47) then let '(s, rest) := take_elem path' in (c :: s, rest)
      else ([], path)
  | [] => ([], [])
  end.

(** [skipelem]: the rest of the path and the name, or [None] for a null result. *)
Definition skipelem (path : list Z) : option (list Z * list Z) :=
  let path := skip_slashes path in
  match path with
  | [] => None
  | _ =>
      let '(s, rest) := take_elem path in
      let name := if DIRSIZ <=? Z.of_nat (length s) then take (Z.to_nat DIRSIZ) s else s in
      Some (skip_slashes rest, name)
  end.

(** The loop of [namex]; an element is shorter than the path it is taken from, so
    a turn per character is enough. *)
Fixpoint namex_loop (fuel : nat) (ip : nat) (path : list Z) (nameiparent : bool) (name : list Z)
    : FM (option (nat * list Z)) :=
  match skipelem path with
  | None =>
      if nameiparent then iput ip;; mret None else mret (Some (ip, name))
  | Some (path', name') =>
      match fuel with
      | O => fault
      | Datatypes.S fuel' =>
          ilock ip;;
          i ← geti ip;
          if negb (i_type i =? T_DIR) then iunlockput ip;; mret None else
          if nameiparent && bool_decide (path' = []) then
            iunlock ip;; mret (Some (ip, name'))
          else
            found ← dirlookup ip name';
            match found with
            | None => iunlockput ip;; mret None
            | Some (next, _) =>
                iunlockput ip;;
                namex_loop fuel' next path' nameiparent name'
            end
      end
  end.

(** The inode and the contents of the buffer [name]. *)
Definition namex (path : list Z) (nameiparent : bool) : FM (option (nat * list Z)) :=
  ip ← (if bool_decide (head path = Some 47) then iget ROOTDEV ROOTINO
        else cwd ← gets fs_cwd; idup cwd);
  namex_loop (length path) ip path nameiparent [].

Definition namei (path : list Z) : FM (option nat) :=
  r ← namex path false; mret (fst <$> r).

Definition nameiparent (path : list Z) : FM (option (nat * list Z)) := namex path true.
End content.
