(* ===== verification/FsAlloc.v ===== *)
(** * The block allocator: bzero, balloc, bfree

    [used] reads the free map.  [layout] says where the map, the inodes and the
    data blocks lie; everything before the first data block is marked in use. *)
From S2P Require Import Prelude Params Block Bio BioInv Log Store Str Fs.

(** ** Bits of the free map *)
Section bits.
Implicit Types (d : block) (bi bj : nat).

Lemma bit_get_testbit d bi :
  bit_get d bi = Z.testbit (byte_at d (bi / 8)) (Z.of_nat (bi mod 8)).
Proof.
  unfold bit_get, bit_mask. set (x := byte_at d _). set (k := Z.of_nat _).
  assert (0 <= k) as Hk by lia. rewrite Z.shiftl_1_l.
  destruct (Z.testbit x k) eqn:E.
  - apply negb_true_iff, Z.eqb_neq. intros H0. apply (f_equal (λ z, Z.testbit z k)) in H0.
    rewrite Z.land_spec, Z.bits_0, E, Z.pow2_bits_true in H0 by done. done.
  - apply negb_false_iff, Z.eqb_eq. apply Z.bits_inj'. intros i Hi.
    rewrite Z.land_spec, Z.bits_0, Z.pow2_bits_eqb by done.
    destruct (Z.eqb_spec k i) as [<-|?]; [by rewrite E|apply andb_false_r].
Qed.

(** Setting and clearing one of the eight bits keeps a byte a byte. *)
Lemma byte_bit_ok x (k : nat) : is_byte x → (k < 8)%nat →
  is_byte (Z.lor x (Z.shiftl 1 (Z.of_nat k))) ∧
  is_byte (Z.land x (Z.lnot (Z.shiftl 1 (Z.of_nat k)))).
Proof.
  intros Hx Hk. unfold is_byte in *.
  assert (Forall (λ x, Forall (λ k : nat,
    (0 <= Z.lor x (Z.shiftl 1 (Z.of_nat k)) < 2 ^ 8) ∧
    (0 <= Z.land x (Z.lnot (Z.shiftl 1 (Z.of_nat k))) < 2 ^ 8)) (seq 0 8)) (seqZ 0 256)) as Hall.
  { by apply (bool_decide_eq_true_1 _); vm_compute. }
  rewrite Forall_forall in Hall. specialize (Hall x ltac:(apply elem_of_seqZ; lia)).
  rewrite Forall_forall in Hall. apply Hall, elem_of_seq. lia.
Qed.

Lemma mod8_lt bi : (bi mod 8 < 8)%nat.
Proof. apply Nat.mod_upper_bound. lia. Qed.

Lemma same_bit bi bj : (bi / 8 = bj / 8)%nat → (bi mod 8 = bj mod 8)%nat → bi = bj.
Proof. intros. rewrite (Nat.div_mod_eq bi 8), (Nat.div_mod_eq bj 8). lia. Qed.

Lemma bit_get_set d bi bj : (bi / 8 < length d)%nat →
  bit_get (bit_set d bi) bj = bool_decide (bi = bj) || bit_get d bj.
Proof.
  intros Hl. rewrite !bit_get_testbit. unfold bit_set, bit_mask.
  destruct (decide (bi / 8 = bj / 8)%nat) as [He|Hne].
  - rewrite <-He, byte_at_insert_eq by done. rewrite Z.lor_spec, Z.shiftl_1_l, Z.pow2_bits_eqb by lia.
    rewrite orb_comm. f_equal. apply eq_bool_prop_intro. rewrite bool_decide_spec.
    rewrite Is_true_true, Z.eqb_eq. split; [|by intros ->]. intros. apply same_bit; lia.
  - rewrite byte_at_insert_ne by done. by rewrite bool_decide_false by (intros ->; done).
Qed.

Lemma bit_get_clear d bi bj : (bi / 8 < length d)%nat →
  bit_get (bit_clear d bi) bj = negb (bool_decide (bi = bj)) && bit_get d bj.
Proof.
  intros Hl. rewrite !bit_get_testbit. unfold bit_clear, bit_mask.
  destruct (decide (bi / 8 = bj / 8)%nat) as [He|Hne].
  - rewrite <-He, byte_at_insert_eq by done.
    rewrite Z.land_spec, Z.lnot_spec, Z.shiftl_1_l, Z.pow2_bits_eqb by lia.
    rewrite andb_comm. f_equal. f_equal. apply eq_bool_prop_intro. rewrite bool_decide_spec.
    rewrite Is_true_true, Z.eqb_eq. split; [|by intros ->]. intros. apply same_bit; lia.
  - rewrite byte_at_insert_ne by done. by rewrite bool_decide_false by (intros ->; done).
Qed.

Lemma bit_set_ok d bi : blk_ok d → blk_ok (bit_set d bi).
Proof.
  intros [Hl Hb]. unfold bit_set. split; [by rewrite length_insert|].
  apply Forall_insert; [done|]. apply byte_bit_ok; [by apply byte_at_range|apply mod8_lt].
Qed.

Lemma bit_clear_ok d bi : blk_ok d → blk_ok (bit_clear d bi).
Proof.
  intros [Hl Hb]. unfold bit_clear. split; [by rewrite length_insert|].
  apply Forall_insert; [done|]. apply byte_bit_ok; [by apply byte_at_range|apply mod8_lt].
Qed.
End bits.

#[global] Opaque bit_get bit_set bit_clear.

Lemma zero_block_ok : blk_ok zero_block.
Proof. split; [by vm_compute|apply zero_block_bytes]. Qed.

(** ** The layout of the disk *)
Section layout.
Context {S : Type} `{!BlockStore S, !BlockStoreSpec S}.

(** The bit of block [b]. *)
Definition used (sb : superblock) (v : Z → block) (b : Z) : bool :=
  bit_get (v (BBLOCK b sb)) (Z.to_nat (b mod BPB)).

Definition datastart (sb : superblock) : Z := sb_bmapstart sb + Z.of_nat (nbitmap sb).

Definition is_bitmap (sb : superblock) (n : Z) : Prop := sb_bmapstart sb <= n < datastart sb.

Record layout (sb : superblock) (s : S) : Prop := {
  ly_size : 0 < sb_size sb < 2 ^ 31;
  ly_bmap : 0 < sb_bmapstart sb;
  ly_data : datastart sb <= sb_size sb;
  ly_map_usable : ∀ n, is_bitmap sb n → usable s n;
  ly_data_usable : ∀ n, datastart sb <= n < sb_size sb → usable s n;
  ly_inodes : ∀ i, 0 <= i < sb_ninodes sb →
    usable s (IBLOCK i sb) ∧ 0 < IBLOCK i sb < sb_bmapstart sb;
  ly_ninodes : 0 < sb_ninodes sb < 2 ^ 31;
}.

(** The blocks before the data blocks are marked in use. *)
Definition meta_used (sb : superblock) (v : Z → block) : Prop :=
  ∀ n, 0 <= n < datastart sb → used sb v n = true.

Lemma layout_evolves sb s s' : evolves s s' → layout sb s → layout sb s'.
Proof.
  intros He [L1 L2 L3 L4 L5 L6 L7]. split; try done.
  - intros n Hn. rewrite (evolves_usable s s') by done. auto.
  - intros n Hn. rewrite (evolves_usable s s') by done. auto.
  - intros i Hi. rewrite (evolves_usable s s') by done. auto.
Qed.

Lemma BBLOCK_eq sb s b : layout sb s → 0 <= b < sb_size sb →
  BBLOCK b sb = b / BPB + sb_bmapstart sb ∧ is_bitmap sb (BBLOCK b sb).
Proof.
  intros [L1 L2 L3 _ _ _ _] Hb. unfold is_bitmap, datastart in *.
  assert (b / BPB < Z.of_nat (nbitmap sb)) as Hq.
  { unfold nbitmap. rewrite Z2Nat.id by (unfold BPB, BSIZE; apply Z.div_pos; lia).
    unfold BPB, BSIZE. divlia. }
  assert (0 <= b / BPB) by (apply Z.div_pos; [lia|unfold BPB, BSIZE; lia]).
  unfold BBLOCK. rewrite u32_id by (unfold is_u32; lia). lia.
Qed.

Lemma BPB_pos : 0 < BPB.
Proof. done. Qed.

(** A change of the map block of [b] at the bit of [b]. *)
Lemma used_update sb s v v' b n (val : bool) :
  layout sb s → 0 <= b < sb_size sb → 0 <= n < sb_size sb →
  (∀ m, is_bitmap sb m → m ≠ BBLOCK b sb → v' m = v m) →
  (∀ j, (j < Z.to_nat BPB)%nat → bit_get (v' (BBLOCK b sb)) j
     = if decide (j = Z.to_nat (b mod BPB)) then val else bit_get (v (BBLOCK b sb)) j) →
  used sb v' n = if decide (n = b) then val else used sb v n.
Proof.
  intros Hl Hb Hn Hoth Hbit. unfold used.
  destruct (BBLOCK_eq sb s b Hl Hb) as [Eb _], (BBLOCK_eq sb s n Hl Hn) as [En Mn].
  pose proof (Z.mod_pos_bound b BPB BPB_pos). pose proof (Z.mod_pos_bound n BPB BPB_pos).
  destruct (decide (BBLOCK n sb = BBLOCK b sb)) as [He|Hne].
  - rewrite He, Hbit by lia. assert (n / BPB = b / BPB) as Hq by lia.
    repeat case_decide; try done; exfalso.
    + assert (n mod BPB = b mod BPB) as Hm by lia. apply H2.
      rewrite (Z.div_mod n BPB), (Z.div_mod b BPB) by done. by rewrite Hq, Hm.
    + by subst.
  - rewrite Hoth by done. rewrite decide_False; [done|]. by intros ->.
Qed.
End layout.

(** ** The operations *)
Section alloc.
Context {S : Type} `{!BlockStore S, !BlockStoreSpec S}.
Implicit Types (f : fsstate S) (s : S).

Lemma returns_store {A} (m : M S A) f Q :
  returns m (fs_store f) (λ a s, Q a (set_fs_store s f)) → returns (on_store m) f Q.
Proof. unfold returns, on_store. by destruct (m (fs_store f)). Qed.

Lemma set_fs_store_twice s s' f : set_fs_store s (set_fs_store s' f) = set_fs_store s f.
Proof. done. Qed.

(** A step of the store from [s] to [s'] that keeps the locked blocks [H]. *)
Record kept (s : S) (H : gset Z) (k : nat) (s' : S) : Prop := {
  kp_ready : ready s' H k;
  kp_evolves : evolves s s';
  kp_owns : ∀ j m, owns s' j m ↔ owns s j m;
}.

Lemma kept_trans s1 H1 k1 s2 H2 k2 s3 : kept s1 H1 k1 s2 → kept s2 H2 k2 s3 → kept s1 H2 k2 s3.
Proof.
  intros [R1 E1 O1] [R2 E2 O2]. split; [done|by eapply evolves_trans|].
  intros. by rewrite O2, O1.
Qed.

(** Read a block, compute, give it up unchanged. *)
Lemma read_release f H k n :
  ready (fs_store f) H k → usable (fs_store f) n → n ∉ H → (size H ≤ k)%nat →
  returns (bread ROOTDEV n) f (λ bp f1, ∃ s1, f1 = set_fs_store s1 f
    ∧ ready s1 ({[n]} ∪ H) k ∧ evolves (fs_store f) s1 ∧ settled s1 n
    ∧ (∀ m, contents s1 m = contents (fs_store f) m) ∧ owns s1 bp n
    ∧ (∀ j m, owns s1 j m ↔ (j = bp ∧ m = n) ∨ owns (fs_store f) j m)
    ∧ (∀ m, ¬ owns (fs_store f) bp m)).
Proof.
  intros Hr Hu Hn Hk. apply returns_store. eapply returns_mono; [by eapply s_bread_law|].
  intros bp s1 (R & E & St & V & O & Fr). exists s1. split_and!; try done.
  apply O. by left.
Qed.

(** The buffer [bp] holds block [n] beside those of [H], since the store of [f]. *)
Record holding (f : fsstate S) (H : gset Z) (k bp : nat) (n : Z) (s1 : S) : Prop := {
  hd_ready : ready s1 ({[n]} ∪ H) k;
  hd_evolves : evolves (fs_store f) s1;
  hd_settled : settled s1 n;
  hd_same : ∀ m, contents s1 m = contents (fs_store f) m;
  hd_owns : owns s1 bp n;
  hd_only : ∀ j m, owns s1 j m ↔ (j = bp ∧ m = n) ∨ owns (fs_store f) j m;
  hd_fresh : ∀ m, ¬ owns (fs_store f) bp m;
}.

Lemma data_spec f H k bp n :
  ready (fs_store f) H k → owns (fs_store f) bp n →
  data bp f = Ret (contents (fs_store f) n) f.
Proof.
  intros Hr Ho. unfold data, on_store. erewrite s_data_law by done. by destruct f.
Qed.

(** Change the content of a buffer, log it, release it. *)
Definition put_back (bp : nat) (d : block) : M (fsstate S) unit :=
  set_data bp d;; log_write bp;; brelse bp.

Lemma returns_put_back {A} bp d (rest : M (fsstate S) A) f Q :
  returns (put_back bp d;; rest) f Q →
  returns (set_data bp d;; log_write bp;; brelse bp;; rest) f Q.
Proof.
  unfold returns, put_back, mbind, M_bind. destruct (set_data bp d f) as [? f1| | |]; [|done..].
  by destruct (log_write bp f1).
Qed.

Lemma put_back_spec f H k bp n d :
  ready (fs_store f) H (Datatypes.S k) → owns (fs_store f) bp n → usable (fs_store f) n → blk_ok d →
  returns (put_back bp d) f (λ _ f', ∃ s', f' = set_fs_store s' f
    ∧ ready s' (H ∖ {[n]}) k ∧ evolves (fs_store f) s'
    ∧ (∀ m, contents s' m = if decide (m = n) then d else contents (fs_store f) m)
    ∧ (∀ j m, owns s' j m ↔ j ≠ bp ∧ owns (fs_store f) j m)).
Proof.
  intros Hr Ho Hu Hd. unfold put_back.
  apply returns_bind, returns_store. eapply returns_mono; [by eapply s_set_law|].
  intros _ s1 (R1 & E1 & V1 & O1).
  apply returns_bind, returns_store. eapply returns_mono.
  { eapply s_log_write_law; [done|by apply O1|by rewrite (evolves_usable (fs_store f) s1)]. }
  intros _ s2 (R2 & E2 & St2 & V2 & O2).
  apply returns_store. eapply returns_mono; [eapply s_brelse_law; [done|by apply O2, O1|done]|].
  intros _ s3 (R3 & E3 & V3 & O3). exists s3. split_and!; try done.
  - by eapply evolves_trans, evolves_trans.
  - intros m. by rewrite V3, V2, V1.
  - intros j m. by rewrite O3, O2, O1.
Qed.

(** Read a block, replace its content, log it. *)
Lemma update_spec f H k n (g : block → block) (m : nat → block → M (fsstate S) unit) :
  ready (fs_store f) H (Datatypes.S k) → usable (fs_store f) n → n ∉ H →
  (size H ≤ Datatypes.S k)%nat → blk_ok (g (contents (fs_store f) n)) →
  (∀ bp d, m bp d = put_back bp (g d)) →
  returns (bp ← bread ROOTDEV n; d ← data bp; m bp d) f (λ _ f', ∃ s',
    f' = set_fs_store s' f ∧ kept (fs_store f) H k s'
    ∧ ∀ x, contents s' x = if decide (x = n) then g (contents (fs_store f) n)
                           else contents (fs_store f) x).
Proof.
  intros Hr Hu Hn Hk Hg Hm.
  rstep read_release; [done..|].
  intros bp f1 (s1 & -> & R1 & E1 & St1 & V1 & O1 & O1' & Fr).
  eapply returns_bind_eq; [by eapply data_spec|]. rewrite Hm. cbn [fs_store set_fs_store].
  rewrite V1.
  eapply returns_mono.
  { eapply put_back_spec; [done|done|by rewrite (evolves_usable (fs_store f) s1)|done]. }
  intros _ f2 (s2 & -> & R2 & E2 & V2 & O2). exists s2. split; [done|].
  assert (({[n]} ∪ H) ∖ {[n]} = H) as HH by set_solver. rewrite HH in R2. split.
  - split; [done|by eapply evolves_trans|]. intros j x. cbn in O2. rewrite O2, O1'.
    split; [naive_solver|]. intros Hj. split; [|by right]. intros ->. by apply (Fr x).
  - intros x. rewrite V2. cbn. by rewrite V1.
Qed.

(** Give up a block read and not changed. *)
Lemma release_spec f H k bp n s0 :
  ready (fs_store f) ({[n]} ∪ H) k → owns (fs_store f) bp n → settled (fs_store f) n → n ∉ H →
  evolves s0 (fs_store f) → (∀ j m, owns (fs_store f) j m ↔ (j = bp ∧ m = n) ∨ owns s0 j m) →
  (∀ m, ¬ owns s0 bp m) →
  returns (brelse bp) f (λ _ f', ∃ s', f' = set_fs_store s' f ∧ kept s0 H k s'
    ∧ ∀ x, contents s' x = contents (fs_store f) x).
Proof.
  intros Hr Ho Hst Hn He Ho' Fr. apply returns_store.
  eapply returns_mono; [by eapply s_brelse_law|]. intros _ s' (R & E & V & O).
  exists s'. split; [done|]. split; [|done].
  assert (({[n]} ∪ H) ∖ {[n]} = H) as HH by set_solver. rewrite HH in R.
  split; [done|by eapply evolves_trans|]. intros j m. rewrite O, Ho'.
  split; [naive_solver|]. intros Hj. split; [|by right]. intros ->. by apply (Fr m).
Qed.

Lemma bzero_spec f H k n :
  ready (fs_store f) H (Datatypes.S k) → usable (fs_store f) n → n ∉ H →
  (size H ≤ Datatypes.S k)%nat →
  returns (bzero ROOTDEV n) f (λ _ f', ∃ s', f' = set_fs_store s' f ∧ kept (fs_store f) H k s'
    ∧ ∀ x, contents s' x = if decide (x = n) then zero_block else contents (fs_store f) x).
Proof.
  intros Hr Hu Hn Hk. unfold bzero.
  rstep read_release; [done..|].
  intros bp f1 (s1 & -> & R1 & E1 & St1 & V1 & O1 & O1' & Fr).
  eapply returns_mono.
  { eapply (put_back_spec _ _ k bp n); [done|done|by rewrite (evolves_usable (fs_store f) s1)|apply zero_block_ok]. }
  intros _ f2 (s2 & -> & R2 & E2 & V2 & O2). exists s2. split; [done|].
  assert (({[n]} ∪ H) ∖ {[n]} = H) as HH by set_solver. rewrite HH in R2. split.
  - split; [done|by eapply evolves_trans|]. intros j x. cbn in O2. rewrite O2, O1'.
    split; [naive_solver|]. intros Hj. split; [|by right]. intros ->. by apply (Fr x).
  - intros x. rewrite V2. cbn. by rewrite V1.
Qed.

(** What [balloc] has done when it returns block [b]. *)
Definition allocated (sb : superblock) (v v' : Z → block) (b : Z) : Prop :=
  datastart sb <= b < sb_size sb ∧ used sb v b = false
  ∧ ∀ x, v' x = if decide (x = b) then zero_block
                else if decide (x = BBLOCK b sb) then bit_set (v x) (Z.to_nat (b mod BPB))
                else v x.

Lemma allocated_ext sb v0 v v' b :
  (∀ x, v0 x = v x) → allocated sb v0 v' b → allocated sb v v' b.
Proof.
  intros He (H1 & H2 & H3). split_and!; [lia|lia|unfold used in *; by rewrite <-He|].
  intros x. rewrite H3. by rewrite !He.
Qed.

(** The search of one block of the map. *)
Lemma free_bit_spec sb v (k : nat) s :
  layout sb s → (k < nbitmap sb)%nat →
  let b := Z.of_nat k * BPB in
  match free_bit sb b (v (BBLOCK b sb)) with
  | Some bi => 0 <= b + Z.of_nat bi < sb_size sb ∧ used sb v (b + Z.of_nat bi) = false
      ∧ BBLOCK (b + Z.of_nat bi) sb = BBLOCK b sb
      ∧ Z.to_nat ((b + Z.of_nat bi) mod BPB) = bi ∧ (bi / 8 < Z.to_nat BSIZE)%nat
  | None => ∀ n, 0 <= n < sb_size sb → n / BPB = Z.of_nat k → used sb v n = true
  end.
Proof.
  intros Hl Hk b. unfold free_bit.
  assert (0 <= b) as Hb0 by (unfold b, BPB, BSIZE; lia).
  assert (b < sb_size sb) as Hb.
  { unfold b, nbitmap in *. pose proof (ly_size sb s Hl). unfold BPB, BSIZE in *. divlia. }
  destruct (List.find _ _) as [bi|] eqn:E.
  - apply find_some in E as [Hin Hbit]. apply list_elem_of_In, elem_of_seq in Hin.
    apply negb_true_iff in Hbit.
    assert (Z.of_nat bi < BPB ∧ b + Z.of_nat bi < sb_size sb) as [H1 H2] by lia.
    assert ((b + Z.of_nat bi) / BPB = Z.of_nat k) as Hq.
    { unfold b. rewrite Z.add_comm, Z.div_add by done. rewrite Z.div_small by lia. lia. }
    assert ((b + Z.of_nat bi) mod BPB = Z.of_nat bi) as Hm.
    { unfold b. rewrite Z.add_comm, Z.mod_add by done. rewrite Z.mod_small by lia. done. }
    assert (BBLOCK (b + Z.of_nat bi) sb = BBLOCK b sb) as HB.
    { unfold BBLOCK. rewrite Hq. f_equal. f_equal. unfold b. by rewrite Z.div_mul by done. }
    split_and!; [lia|lia| |done|by rewrite Hm, Nat2Z.id|].
    + unfold used. by rewrite HB, Hm, Nat2Z.id.
    + apply Nat.Div0.div_lt_upper_bound. unfold BPB, BSIZE in *. lia.
  - intros n Hn Hq. pose proof (find_none _ _ E (Z.to_nat (n mod BPB))) as Hf. cbn in Hf.
    pose proof (Z.mod_pos_bound n BPB BPB_pos). pose proof (Z.div_mod n BPB ltac:(done)).
    unfold used. apply negb_false_iff.
    assert (BBLOCK n sb = BBLOCK b sb) as ->.
    { unfold BBLOCK. f_equal. f_equal. unfold b. by rewrite Z.div_mul by done. }
    apply Hf, list_elem_of_In, elem_of_seq. unfold b. lia.
Qed.

(** The locked blocks are neither blocks of the map nor free. *)
Definition clear_of_map (sb : superblock) (v : Z → block) (H : gset Z) : Prop :=
  ∀ n, n ∈ H → ¬ is_bitmap sb n ∧ (0 <= n < sb_size sb → used sb v n = true).

(** A block found free is marked in the map and cleared. *)
Lemma balloc_take f sb H k (j bi bp : nat) s1 (b0 := Z.of_nat j * BPB) (n := b0 + Z.of_nat bi) :
  layout sb (fs_store f) → meta_used sb (contents (fs_store f)) → clear_of_map sb (contents (fs_store f)) H →
  (size H ≤ 1 + k)%nat → (j < nbitmap sb)%nat → holding f H (2 + k) bp (BBLOCK b0 sb) s1 →
  free_bit sb b0 (contents (fs_store f) (BBLOCK b0 sb)) = Some bi →
  returns (set_data bp (bit_set (contents (fs_store f) (BBLOCK b0 sb)) bi);; log_write bp;; brelse bp;; bzero ROOTDEV n;; mret n)
    (set_fs_store s1 f) (λ b f', ∃ s', f' = set_fs_store s' f ∧ kept (fs_store f) H k s'
      ∧ allocated sb (contents (fs_store f)) (contents s') b).
Proof.
  intros Hl Hmeta HH Hsz Hj [R1 E1 St1 V1 O1 O1' Fr] Hfind.
  pose proof (free_bit_spec sb (contents (fs_store f)) j (fs_store f) Hl Hj) as Hfb. cbv zeta in Hfb. fold b0 in Hfb.
  rewrite Hfind in Hfb. fold n in Hfb. destruct Hfb as (Hr1 & Hu & HB & Hmod & Hlen).
  assert (0 <= b0 < sb_size sb) as Hb0.
  { unfold b0, nbitmap in *. pose proof (ly_size sb _ Hl). unfold BPB, BSIZE in *. divlia. }
  destruct (BBLOCK_eq sb _ b0 Hl Hb0) as [_ Hmap].
  assert (BBLOCK b0 sb ∉ H) as Hnot by (intros Hc; by destruct (HH _ Hc)).
  assert (datastart sb <= n) as Hds.
  { destruct (Z.le_gt_cases (datastart sb) n); [done|]. rewrite Hmeta in Hu; [done|lia]. }
  assert (n ∉ H) as Hnb by (intros Hc; destruct (HH _ Hc) as [_ Hc']; by rewrite Hc' in Hu).
  apply returns_put_back, returns_bind. eapply returns_mono.
  { eapply (put_back_spec _ _ (1 + k)); cbn [fs_store set_fs_store];
      [exact R1|exact O1| |apply bit_set_ok; rewrite <-V1; by eapply contents_ok].
    rewrite (evolves_usable (fs_store f) s1) by done. by apply (ly_map_usable sb _ Hl). }
  intros _ f2 (s2 & -> & R2 & E2 & V2 & O2). cbn in V2, O2.
  assert (({[BBLOCK b0 sb]} ∪ H) ∖ {[BBLOCK b0 sb]} = H) as HHe by set_solver. rewrite HHe in R2.
  pose proof (evolves_trans _ _ _ E1 E2) as E12. cbn in E12.
  rstep bzero_spec; [exact R2| |done|lia|].
  { rewrite (evolves_usable (fs_store f) s2) by done. apply (ly_data_usable sb _ Hl). lia. }
  intros _ f3 (s3 & -> & [K1 K2 K3] & V3). cbn in V3. apply returns_ret.
  exists s3. split; [done|]. split.
  - split; [done|by eapply evolves_trans|]. intros m x. rewrite K3. cbn. rewrite O2, O1'.
    split; [naive_solver|]. intros Hm. split; [|by right]. intros ->. by apply (Fr x).
  - split_and!; [lia|lia|done|]. intros x. rewrite V3, V2, V1, HB, Hmod.
    case_decide; [done|]. case_decide as Hx; [by rewrite Hx|done].
Qed.

Lemma balloc_scan_spec f sb H k ks :
  fs_sb f = sb → layout sb (fs_store f) → meta_used sb (contents (fs_store f)) →
  ready (fs_store f) H (2 + k) → clear_of_map sb (contents (fs_store f)) H →
  (size H ≤ 1 + k)%nat → (∀ j, j ∈ ks → (j < nbitmap sb)%nat) →
  (∃ b, 0 <= b < sb_size sb ∧ used sb (contents (fs_store f)) b = false
     ∧ Z.to_nat (b / BPB) ∈ ks) →
  returns (balloc_scan ROOTDEV ks) f (λ b f', ∃ s', f' = set_fs_store s' f
    ∧ kept (fs_store f) H k s'
    ∧ allocated sb (contents (fs_store f)) (contents s') b).
Proof.
  intros Hsb Hl Hmeta Hr HH Hsz Hks (b & Hb & Hfree & Hin).
  revert f Hsb Hl Hmeta Hr HH Hfree. induction ks as [|j ks IH]; intros f Hsb Hl Hmeta Hr HH Hfree;
    [by apply not_elem_of_nil in Hin|].
  cbn [balloc_scan]. eapply returns_bind_eq; [done|]. rewrite Hsb.
  assert (j < nbitmap sb)%nat as Hj by (apply Hks; by left).
  pose proof (free_bit_spec sb (contents (fs_store f)) j (fs_store f) Hl Hj) as Hfb. cbv zeta in Hfb.
  set (b0 := Z.of_nat j * BPB) in *.
  assert (0 <= b0 < sb_size sb) as Hb0.
  { unfold b0, nbitmap in *. pose proof (ly_size sb _ Hl). unfold BPB, BSIZE in *. divlia. }
  destruct (BBLOCK_eq sb _ b0 Hl Hb0) as [_ Hmap].
  assert (BBLOCK b0 sb ∉ H) as Hnot by (intros Hc; by destruct (HH _ Hc)).
  rstep read_release; [done|by apply (ly_map_usable sb _ Hl)|done|lia|].
  intros bp f1 (s1 & -> & R1 & E1 & St1 & V1 & O1 & O1' & Fr).
  eapply returns_bind_eq; [by eapply data_spec|]. cbn [fs_store set_fs_store]. rewrite V1.
  destruct (free_bit sb b0 _) as [bi|] eqn:Efb.
  - apply balloc_take; by rewrite ?Efb.
  - rstep release_spec; [exact R1|exact O1|exact St1|done|exact E1|exact O1'|exact Fr|].
    intros _ f2 (s2 & -> & K2 & V2). cbn in V2.
    assert (∀ x, contents s2 x = contents (fs_store f) x) as Hc by (intros; by rewrite V2, V1).
    assert (∀ x, used sb (contents s2) x = used sb (contents (fs_store f)) x) as Hu
      by (intros; unfold used; by rewrite Hc).
    rstep IH.
    + intros m Hm. apply Hks. by right.
    + apply elem_of_cons in Hin as [He|?]; [|done]. exfalso.
      rewrite Hfb in Hfree; [done|lia|]. rewrite <-He, Z2Nat.id; [done|].
      apply Z.div_pos; [lia|done].
    + done.
    + eapply layout_evolves; [apply K2|done].
    + intros x Hx. rewrite Hu. by apply Hmeta.
    + apply K2.
    + intros x Hx. rewrite Hu. by apply HH.
    + by rewrite Hu.
    + intros nb f3 (s3 & -> & K3 & (A1 & A2 & A3)). exists s3. split; [done|].
      split; [by eapply kept_trans|]. split_and!; [apply A1|apply A1|by rewrite Hu in A2|].
      intros x. rewrite A3. by rewrite !Hc.
Qed.

Lemma nbitmap_covers sb s b : layout sb s → 0 <= b < sb_size sb →
  (Z.to_nat (b / BPB) < nbitmap sb)%nat.
Proof.
  intros Hl Hb. unfold nbitmap. unfold BPB, BSIZE. pose proof (ly_size sb s Hl). divlia.
Qed.

Lemma balloc_spec f H k b :
  layout (fs_sb f) (fs_store f) → meta_used (fs_sb f) (contents (fs_store f)) →
  ready (fs_store f) H (2 + k) → clear_of_map (fs_sb f) (contents (fs_store f)) H →
  (size H ≤ 1 + k)%nat →
  0 <= b < sb_size (fs_sb f) → used (fs_sb f) (contents (fs_store f)) b = false →
  returns (balloc ROOTDEV) f (λ b f', ∃ s', f' = set_fs_store s' f
    ∧ kept (fs_store f) H k s'
    ∧ allocated (fs_sb f) (contents (fs_store f)) (contents s') b).
Proof.
  intros Hl Hm Hr HH Hsz Hb Hu. unfold balloc. eapply returns_bind_eq; [done|].
  apply balloc_scan_spec; try done.
  - intros j Hj. apply elem_of_seq in Hj. lia.
  - exists b. split_and!; [lia|lia|done|]. apply elem_of_seq.
    pose proof (nbitmap_covers _ _ b Hl Hb). lia.
Qed.

Definition freed (sb : superblock) (v v' : Z → block) (b : Z) : Prop :=
  ∀ x, v' x = if decide (x = BBLOCK b sb) then bit_clear (v x) (Z.to_nat (b mod BPB)) else v x.

Lemma bfree_spec f H k b :
  layout (fs_sb f) (fs_store f) → ready (fs_store f) H (1 + k) →
  BBLOCK b (fs_sb f) ∉ H → (size H ≤ 1 + k)%nat → 0 <= b < sb_size (fs_sb f) →
  used (fs_sb f) (contents (fs_store f)) b = true →
  returns (bfree ROOTDEV b) f (λ _ f', ∃ s', f' = set_fs_store s' f
    ∧ kept (fs_store f) H k s' ∧ freed (fs_sb f) (contents (fs_store f)) (contents s') b).
Proof.
  intros Hl Hr Hnot Hsz Hb Hu. unfold bfree. eapply returns_bind_eq; [done|].
  destruct (BBLOCK_eq _ _ b Hl Hb) as [_ Hmap].
  rstep read_release; [done|by apply (ly_map_usable _ _ Hl)|done|lia|].
  intros bp f1 (s1 & -> & R1 & E1 & St1 & V1 & O1 & O1' & Fr).
  eapply returns_bind_eq; [by eapply data_spec|]. cbn [fs_store set_fs_store]. rewrite V1.
  unfold used in Hu. rewrite Hu. cbn [negb].
  eapply returns_mono.
  { eapply (put_back_spec _ _ k bp (BBLOCK b (fs_sb f))); [exact R1|exact O1| |].
    - cbn. rewrite (evolves_usable (fs_store f) s1) by done. by apply (ly_map_usable _ _ Hl).
    - apply bit_clear_ok. by eapply contents_ok. }
  intros _ f2 (s2 & -> & R2 & E2 & V2 & O2). cbn in V2, O2. exists s2. split; [done|].
  assert (({[BBLOCK b (fs_sb f)]} ∪ H) ∖ {[BBLOCK b (fs_sb f)]} = H) as HHe by set_solver.
  rewrite HHe in R2. split.
  - split; [done|by eapply evolves_trans|]. intros j x. rewrite O2, O1'.
    split; [naive_solver|]. intros Hj. split; [|by right]. intros ->. by apply (Fr x).
  - intros x. rewrite V2, V1. case_decide as Hx; [by rewrite Hx|done].
Qed.

(** *** What the free map says afterwards *)
Lemma bit_index_lt b : (Z.to_nat (b mod BPB) / 8 < Z.to_nat BSIZE)%nat.
Proof.
  apply Nat.Div0.div_lt_upper_bound. pose proof (Z.mod_pos_bound b BPB BPB_pos).
  unfold BPB, BSIZE in *. lia.
Qed.

Lemma used_allocated sb s v v' b n :
  layout sb s → (∀ m, blk_ok (v m)) → allocated sb v v' b → 0 <= n < sb_size sb →
  used sb v' n = if decide (n = b) then true else used sb v n.
Proof.
  intros Hl Hok (Hb & Hu & Hv) Hn.
  pose proof (ly_bmap sb s Hl) as Hb0. unfold datastart in Hb.
  destruct (BBLOCK_eq sb s b Hl ltac:(lia)) as [Eb Mb].
  apply (used_update sb s); try done; [lia|..].
  - intros m Hm Hne. rewrite Hv, !decide_False; [done|done|].
    intros ->. unfold is_bitmap, datastart in Hm. lia.
  - intros j Hj. rewrite Hv, decide_False; [|unfold is_bitmap, datastart in Mb; lia].
    rewrite decide_True by done. rewrite bit_get_set.
    + destruct (decide (j = _)) as [->|Hne]; [by rewrite bool_decide_true|].
      by rewrite bool_decide_false by congruence.
    + destruct (Hok (BBLOCK b sb)) as [-> _]. apply bit_index_lt.
Qed.

Lemma used_freed sb s v v' b n :
  layout sb s → (∀ m, blk_ok (v m)) → freed sb v v' b → 0 <= b < sb_size sb →
  0 <= n < sb_size sb → used sb v' n = if decide (n = b) then false else used sb v n.
Proof.
  intros Hl Hok Hv Hb Hn. apply (used_update sb s); try done.
  - intros m Hm Hne. by rewrite Hv, decide_False.
  - intros j Hj. rewrite Hv, decide_True by done. rewrite bit_get_clear.
    + destruct (decide (j = _)) as [->|Hne]; [by rewrite bool_decide_true|].
      by rewrite bool_decide_false by congruence.
    + destruct (Hok (BBLOCK b sb)) as [-> _]. apply bit_index_lt.
Qed.

Lemma meta_used_allocated sb s v v' b :
  layout sb s → (∀ m, blk_ok (v m)) → allocated sb v v' b → meta_used sb v → meta_used sb v'.
Proof.
  intros Hl Hok Ha Hm n Hn. pose proof (ly_data sb s Hl).
  rewrite (used_allocated sb s v v' b n) by (done || lia). case_decide; [done|]. by apply Hm.
Qed.
End alloc.
