(* ===== verification/FsTree.v ===== *)
(** * The block tree of an inode

    An inode's addresses form a forest: NDIRECT leaves, and trees of depth one,
    two and three.  A position is an index into [addrs] and the path of indices
    below it; [node] is the block number at a position (0 when there is none).
    [tree_wf] says that the blocks of a file are allocated data blocks, each at
    one position only; the lemmas show that linking a new block at one position
    changes the tree at that position only. *)
From S2P Require Import Prelude Params Block Bio BioInv Log Store Str Fs FsAlloc.

Definition pos : Type := nat * list nat.

Definition depth (j : nat) : nat :=
  if bool_decide (j < 10)%nat then 0%nat else (j - 9)%nat.

(** Positions in the forest; the leaves are the data blocks. *)
Definition valid_pos (q : pos) : Prop :=
  (q.1 < 13)%nat ∧ (length q.2 ≤ depth q.1)%nat ∧ Forall (λ i, (i < 128)%nat) q.2.
Definition leaf_pos (q : pos) : Prop := valid_pos q ∧ length q.2 = depth q.1.

(** The path of the [bn]-th block of a file. *)
Definition bmap_path (bn : Z) : option pos :=
  if bn <? NDIRECT then Some (Z.to_nat bn, []) else
  let bn := bn - NDIRECT in
  if bn <? NINDIRECT then Some (10%nat, [Z.to_nat bn]) else
  let bn := bn - NINDIRECT in
  if bn <? NDOUINDIRECT then Some (11%nat, [Z.to_nat (bn / NINDIRECT); Z.to_nat (bn mod NINDIRECT)]) else
  let bn := bn - NDOUINDIRECT in
  if bn <? NTRIINDIRECT then
    Some (12%nat, [Z.to_nat (bn / NDOUINDIRECT); Z.to_nat ((bn mod NDOUINDIRECT) / NINDIRECT);
                   Z.to_nat ((bn mod NDOUINDIRECT) mod NINDIRECT)])
  else None.

Fixpoint walk (v : Z → block) (a : Z) (path : list nat) : Z :=
  match path with
  | [] => a
  | i :: path' => if a =? 0 then 0 else walk v (get_word (v a) i) path'
  end.

Definition node (v : Z → block) (addrs : list Z) (q : pos) : Z := walk v (addrs !!! q.1) q.2.

(** The constants of fs.h as numbers. *)
Ltac fsconst :=
  change MAXFILE with 2113674 in *; change NTRIINDIRECT with 2097152 in *;
  change NDOUINDIRECT with 16384 in *; change NINDIRECT with 128 in *;
  change NDIRECT with 10 in *; change BSIZE with 512 in *.

(** ** The paths of the blocks of a file *)
Section paths.
Lemma bmap_path_some bn : 0 <= bn < MAXFILE → ∃ q, bmap_path bn = Some q ∧ leaf_pos q.
Proof.
  intros Hbn. unfold bmap_path.
  destruct (Z.ltb_spec bn NDIRECT).
  { eexists. split; [done|]. unfold leaf_pos, valid_pos, depth. fsconst. cbn.
    rewrite bool_decide_true by lia. cbn. split_and!; [lia|lia|by apply Forall_nil|done]. }
  destruct (Z.ltb_spec (bn - NDIRECT) NINDIRECT).
  { eexists. split; [done|]. unfold leaf_pos, valid_pos. fsconst.
    change (depth _) with 1%nat. cbn. split_and!; [lia|lia|rewrite !Forall_cons, Forall_nil; lia|done]. }
  destruct (Z.ltb_spec (bn - NDIRECT - NINDIRECT) NDOUINDIRECT).
  { eexists. split; [done|]. unfold leaf_pos, valid_pos. fsconst.
    change (depth _) with 2%nat. cbn. split_and!; [lia|lia|rewrite !Forall_cons, Forall_nil; split_and!; try done; divlia|done]. }
  destruct (Z.ltb_spec (bn - NDIRECT - NINDIRECT - NDOUINDIRECT) NTRIINDIRECT); [|fsconst; lia].
  eexists. split; [done|]. unfold leaf_pos, valid_pos. fsconst.
  change (depth _) with 3%nat. cbn. split_and!; [lia|lia|rewrite !Forall_cons, Forall_nil; split_and!; try done; divlia|done].
Qed.

Lemma bmap_path_leaf bn q : 0 <= bn → bmap_path bn = Some q → bn < MAXFILE ∧ leaf_pos q.
Proof.
  intros Hbn Hq. assert (bn < MAXFILE) as Hmax.
  { unfold bmap_path in Hq. cbv zeta in Hq. fsconst.
    repeat match goal with H : context [?x <? ?y] |- _ => destruct (Z.ltb_spec x y) end;
      simplify_eq; lia. }
  destruct (bmap_path_some bn) as (q' & Hq' & Hlf); [lia|]. by replace q with q' by congruence.
Qed.

(** Different blocks of a file have different positions. *)
Lemma bmap_path_inj bn bn' q :
  0 <= bn → 0 <= bn' → bmap_path bn = Some q → bmap_path bn' = Some q → bn = bn'.
Proof.
  intros H0 H0' H H'. unfold bmap_path in H, H'. fsconst.
  destruct (Z.ltb_spec bn 10), (Z.ltb_spec bn' 10); cbv zeta in *; simplify_eq; try lia;
  repeat match goal with
  | H : (if ?c then _ else _) = _ |- _ => destruct c eqn:?; simplify_eq
  end; divlia.
Qed.
End paths.

(** ** Nodes *)
Section nodes.
Implicit Types (v : Z → block) (addrs : list Z).

Lemma walk_snoc v a path i :
  walk v a (path ++ [i]) =
    if walk v a path =? 0 then 0 else get_word (v (walk v a path)) i.
Proof.
  revert a. induction path as [|j path IH]; intros a; cbn [walk app]; [by destruct (a =? 0)|].
  destruct (a =? 0) eqn:E; [done|]. apply IH.
Qed.

Lemma node_snoc v addrs j p i :
  node v addrs (j, p ++ [i]) =
    if node v addrs (j, p) =? 0 then 0 else get_word (v (node v addrs (j, p))) i.
Proof. apply walk_snoc. Qed.

Lemma valid_pos_snoc j p i : valid_pos (j, p ++ [i]) → valid_pos (j, p) ∧ (i < 128)%nat.
Proof.
  intros (H1 & H2 & H3). cbn in *. rewrite length_app in H2. apply Forall_app in H3 as [H3 H4].
  apply Forall_cons in H4 as [H4 _]. repeat split; cbn; [done|lia|done|done].
Qed.

Record tree_wf (sb : superblock) v addrs : Prop := {
  tr_len : length addrs = 13%nat;
  tr_data : ∀ q, valid_pos q → node v addrs q ≠ 0 →
    datastart sb <= node v addrs q < sb_size sb ∧ used sb v (node v addrs q) = true;
  tr_inj : ∀ q r, valid_pos q → valid_pos r → node v addrs q ≠ 0 →
    node v addrs q = node v addrs r → q = r;
}.

(** The content of a data block; a block that is not there reads as zeros. *)
Definition leaf_block v addrs (q : pos) : block :=
  if node v addrs q =? 0 then zero_block else v (node v addrs q).

(** A block that belongs to something else. *)
Definition foreign (sb : superblock) v addrs (n : Z) : Prop :=
  0 <= n < sb_size sb ∧ ¬ is_bitmap sb n ∧ used sb v n = true
  ∧ ∀ q, valid_pos q → node v addrs q ≠ 0 → node v addrs q ≠ n.

(** The positions from the root of the tree down to [q]. *)
Definition on_path (q r : pos) : Prop := r.1 = q.1 ∧ r.2 `prefix_of` q.2.

(** From [v], [addrs] to [v'], [addrs'] only the file changes: blocks appear at
    positions of [G], its content is the same except for the data blocks of [L], the
    free map loses exactly the blocks that appear, and nothing else of the disk
    changes. *)
Record changes (sb : superblock) (L G : pos → Prop) v addrs v' addrs' : Prop := {
  ex_tree : tree_wf sb v' addrs';
  ex_meta : meta_used sb v';
  ex_node : ∀ q, valid_pos q → node v addrs q ≠ 0 → node v' addrs' q = node v addrs q;
  ex_new : ∀ q, valid_pos q → node v' addrs' q ≠ 0 →
    node v' addrs' q = node v addrs q ∨ used sb v (node v' addrs' q) = false;
  ex_leaf : ∀ q, leaf_pos q → ¬ L q → leaf_block v' addrs' q = leaf_block v addrs q;
  ex_used : ∀ n, 0 <= n < sb_size sb → used sb v n = true → used sb v' n = true;
  ex_foreign : ∀ n, foreign sb v addrs n → v' n = v n;
  ex_grow : ∀ q, valid_pos q → node v addrs q = 0 → node v' addrs' q ≠ 0 → G q;
  ex_gain : ∀ n, 0 <= n < sb_size sb → used sb v' n = true → used sb v n = true
    ∨ n ≠ 0 ∧ ∃ q, valid_pos q ∧ node v addrs q = 0 ∧ node v' addrs' q = n;
}.

(** The tree grows, the content is the same. *)
Definition extends (sb : superblock) (G : pos → Prop) := changes sb (λ _, False) G.

Lemma extends_refl sb G v addrs : tree_wf sb v addrs → meta_used sb v → extends sb G v addrs v addrs.
Proof. intros. split; auto. done. Qed.

Lemma changes_foreign sb L G v addrs v' addrs' n :
  changes sb L G v addrs v' addrs' → foreign sb v addrs n → foreign sb v' addrs' n.
Proof.
  intros [E1 E2 E3 E4 E5 E6 E7 _ _] (F1 & F2 & F3 & F4). repeat split; try lia; [by apply F2|auto|].
  intros q Hq Hn Heq. destruct (E4 q Hq Hn) as [He|Hu].
  - apply (F4 q Hq); congruence.
  - rewrite Heq in Hu. congruence.
Qed.

Lemma changes_trans sb L1 L2 G1 G2 v1 a1 v2 a2 v3 a3 :
  0 <= datastart sb →
  changes sb L1 G1 v1 a1 v2 a2 → changes sb L2 G2 v2 a2 v3 a3 →
  changes sb (λ q, L1 q ∨ L2 q) (λ q, G1 q ∨ G2 q) v1 a1 v3 a3.
Proof.
  intros Hds A B. pose proof A as [A1 A2 A3 A4 A5 A6 A7 A8 A9]. pose proof B as [B1 B2 B3 B4 B5 B6 B7 B8 B9].
  assert (∀ q, valid_pos q → node v2 a2 q = 0 → node v1 a1 q = 0) as Hback.
  { intros q Hq H2. destruct (decide (node v1 a1 q = 0)) as [|Hn]; [done|]. by rewrite A3 in H2. }
  split; try done; [..|auto| | |].
  - intros q Hq Hn. rewrite B3, A3; [done..|]. by rewrite A3.
  - intros q Hq Hn. destruct (B4 q Hq Hn) as [He|Hu].
    + rewrite He in *. by apply A4.
    + right. destruct (used sb v1 (node v3 a3 q)) eqn:E; [|done].
      pose proof (tr_data sb _ _ B1 q Hq Hn) as [? _]. rewrite A6 in Hu; [done|lia|done].
  - intros q Hq HL. rewrite B5, A5; tauto.
  - intros n Hn. rewrite B7, A7; [done..|]. by eapply changes_foreign.
  - intros q Hq H1 H3. destruct (decide (node v2 a2 q = 0)); [right|left]; auto.
  - intros n Hn [Hu|(Hn0 & q & Hq & H2 & H3)]%B9; [|by right; split; [|exists q; auto]|done].
    apply A9 in Hu as [Hu|(Hn0 & q & Hq & H1 & H2)]; [by left| |done].
    right. split; [done|]. exists q. split_and!; [done|done|]. rewrite B3; congruence.
Qed.

Lemma changes_weaken sb (L L' G G' : pos → Prop) v a v' a' :
  (∀ q, L q → L' q) → (∀ q, G q → G' q) → changes sb L G v a v' a' → changes sb L' G' v a v' a'.
Proof.
  intros HL HG [E1 E2 E3 E4 E5 E6 E7 E8 E9]. split; try done; [|by eauto].
  intros q Hq Hn. apply E5; auto.
Qed.

(** The blocks of the file stay where they are, new ones appear at positions of [G]
    only, and the blocks in use are those used before and the new ones. *)
Definition allocates (sb : superblock) (G : pos → Prop) v addrs v' addrs' : Prop :=
  (∀ q, valid_pos q → node v addrs q ≠ 0 → node v' addrs' q = node v addrs q)
  ∧ (∀ q, valid_pos q → node v addrs q = 0 → node v' addrs' q ≠ 0 → G q)
  ∧ ∀ n, 0 <= n < sb_size sb → used sb v' n = true ↔ used sb v n = true
      ∨ n ≠ 0 ∧ ∃ q, valid_pos q ∧ node v addrs q = 0 ∧ node v' addrs' q = n.

Lemma changes_allocates sb L G v addrs v' addrs' :
  changes sb L G v addrs v' addrs' → allocates sb G v addrs v' addrs'.
Proof.
  intros [E1 _ E3 _ _ E6 _ E8 E9]. split; [done|]. split; [done|]. intros n Hn. split; [by apply E9|].
  intros [Hu|(Hn0 & q & Hq & _ & He)]; [by apply E6|]. rewrite <-He. apply (tr_data _ _ _ E1 q Hq). congruence.
Qed.

(** Disks with the same content. *)
Lemma node_ext v v' addrs q : (∀ x, v' x = v x) → node v' addrs q = node v addrs q.
Proof.
  intros Hv. unfold node. generalize (addrs !!! q.1). induction q.2 as [|i p IH]; intros a; cbn; [done|].
  destruct (a =? 0); [done|]. by rewrite Hv, IH.
Qed.

Lemma used_ext sb v v' n : (∀ x, v' x = v x) → used sb v' n = used sb v n.
Proof. intros Hv. unfold used. by rewrite Hv. Qed.

Lemma extends_ext sb G v v' addrs :
  (∀ x, v' x = v x) → tree_wf sb v addrs → meta_used sb v → extends sb G v addrs v' addrs.
Proof.
  intros Hv [T1 T2 T3] Hm. split; try done.
  - split; [done|..].
    + intros q Hq. rewrite (node_ext v v'), (used_ext sb v v') by done. by apply T2.
    + intros q r Hq Hr. rewrite !(node_ext v v') by done. by apply T3.
  - intros n Hn. rewrite (used_ext sb v v') by done. by apply Hm.
  - intros q Hq Hn. by rewrite (node_ext v v').
  - intros q Hq Hn. left. by rewrite (node_ext v v').
  - intros q Hq _. unfold leaf_block. by rewrite (node_ext v v'), Hv.
  - intros n Hn. by rewrite (used_ext sb v v').
  - intros q Hq H0 Hn. by rewrite (node_ext v v') in Hn.
  - intros n Hn. rewrite (used_ext sb v v') by done. by left.
Qed.

Lemma tree_walk_zero v addrs j p i : node v addrs (j, p) = 0 → node v addrs (j, p ++ [i]) = 0.
Proof. intros H. by rewrite node_snoc, H. Qed.

(** ** Linking a new block *)
Section link.
Context {S : Type} `{!BlockStore S, !BlockStoreSpec S}.
Context (sb : superblock) (s : S) (v v1 : Z → block) (addrs : list Z) (b : Z).
Hypothesis Hl : layout sb s.
Hypothesis Hok : ∀ m, blk_ok (v m).
Hypothesis Hw : tree_wf sb v addrs.
Hypothesis Hmeta : meta_used sb v.
Hypothesis Ha : allocated sb v v1 b.

Lemma new_not_node q : valid_pos q → node v addrs q ≠ 0 → node v addrs q ≠ b.
Proof using Hw Ha.
  intros Hq Hn Heq. destruct Ha as (_ & Hu & _). destruct (tr_data sb v addrs Hw q Hq Hn) as [_ H].
  congruence.
Qed.

Lemma new_range : 0 < b < sb_size sb ∧ b ≠ 0.
Proof using Hl Ha.
  destruct Ha as (Hb & _ & _). pose proof (ly_bmap sb s Hl). unfold datastart in Hb. lia.
Qed.

(** Blocks of the tree and foreign blocks look as before in [v1]. *)
Lemma alloc_other n : used sb v n = true → ¬ is_bitmap sb n → v1 n = v n.
Proof using Hl Ha.
  intros Hu Hm. destruct Ha as (Hb & Hub & ->). rewrite decide_False by congruence.
  rewrite decide_False; [done|]. intros ->. apply Hm. apply (BBLOCK_eq sb s b Hl).
  pose proof (ly_bmap sb s Hl). unfold datastart in Hb. lia.
Qed.

Lemma node_not_bitmap q : valid_pos q → node v addrs q ≠ 0 → ¬ is_bitmap sb (node v addrs q).
Proof using Hw.
  intros Hq Hn [_ H]. destruct (tr_data sb v addrs Hw q Hq Hn) as [? _]. lia.
Qed.

Lemma alloc_node q : valid_pos q → node v addrs q ≠ 0 → v1 (node v addrs q) = v (node v addrs q).
Proof using Hl Hw Ha.
  intros Hq Hn. apply alloc_other; [by apply (tr_data sb v addrs Hw)|by apply node_not_bitmap].
Qed.

Lemma alloc_zero : v1 b = zero_block.
Proof using Ha. destruct Ha as (_ & _ & ->). by rewrite decide_True. Qed.

(** The position [q0] gets block [b]; [v'], [addrs'] are the disk and the
    addresses afterwards.  They agree with [v1] except at the index block of [q0]. *)
Context (q0 : pos) (v' : Z → block) (addrs' : list Z).
Hypothesis Hq0 : valid_pos q0.
Hypothesis Hnone : node v addrs q0 = 0.
Hypothesis Hlen : length addrs' = 13%nat.
(** How nodes are computed in the new tree. *)
Hypothesis Hroot : ∀ j, (j < 13)%nat →
  addrs' !!! j = if decide (q0 = (j, [])) then b else addrs !!! j.
Hypothesis Hchild : ∀ j p i, valid_pos (j, p ++ [i]) → node v addrs (j, p) ≠ 0 →
  get_word (v' (node v addrs (j, p))) i
  = if decide (q0 = (j, p ++ [i])) then b else get_word (v (node v addrs (j, p))) i.
Hypothesis Hparent : ∀ j p i, q0 = (j, p ++ [i]) → node v addrs (j, p) ≠ 0.
Hypothesis Hzero : v' b = zero_block.

Lemma link_node q : valid_pos q →
  node v' addrs' q = if decide (q = q0) then b else node v addrs q.
Proof using All.
  destruct q as [j p]. induction p as [|i p IH] using rev_ind; intros Hq.
  - destruct Hq as [Hj _]. cbn in Hj. unfold node. cbn. rewrite Hroot by done.
    repeat case_decide; congruence.
  - pose proof (valid_pos_snoc j p i Hq) as [Hp Hi]. specialize (IH Hp).
    rewrite node_snoc, IH. destruct (decide ((j, p) = q0)) as [He|Hne];
      [rewrite !(decide_True (P := (j, p) = q0)) by done
      |rewrite !(decide_False (P := (j, p) = q0)) by done].
    + destruct (Z.eqb_spec b 0) as [Hb0|_]; [by destruct new_range|].
      rewrite Hzero, get_word_zero_block.
      rewrite decide_False.
      * symmetry. apply tree_walk_zero. by rewrite He.
      * rewrite <-He. intros [= Hc]. apply (f_equal length) in Hc. rewrite length_app in Hc. cbn in Hc. lia.
    + destruct (Z.eqb_spec (node v addrs (j, p)) 0) as [H0|H0].
      * rewrite tree_walk_zero by done. rewrite decide_False; [done|].
        intros Hc. symmetry in Hc. by apply (Hparent j p i) in Hc.
      * rewrite Hchild by done. rewrite node_snoc. destruct (Z.eqb_spec (node v addrs (j, p)) 0); [done|].
        repeat case_decide; congruence.
Qed.

Hypothesis Hmap : ∀ n, is_bitmap sb n → v' n = v1 n.
Hypothesis Hforeign : ∀ n, foreign sb v addrs n → v' n = v n.
Hypothesis Hleaf : ∀ q, leaf_pos q → node v addrs q ≠ 0 → v' (node v addrs q) = v (node v addrs q).

Lemma link_used n : 0 <= n < sb_size sb →
  used sb v' n = if decide (n = b) then true else used sb v n.
Proof using Hl Hok Ha Hmap.
  intros Hn. rewrite <-(used_allocated sb s v v1 b n) by done. unfold used.
  rewrite Hmap; [done|]. by apply (BBLOCK_eq sb s n Hl).
Qed.

Lemma link_extends : extends sb (λ r, r = q0) v addrs v' addrs' ∧ node v' addrs' q0 = b.
Proof using All.
  pose proof new_range as [Hb Hb0]. pose proof Ha as (Hbd & Hbu & _).
  assert (0 <= datastart sb) as Hds by (pose proof (ly_bmap sb s Hl); unfold datastart; lia).
  split; [|by rewrite link_node, decide_True].
  split.
  - split; [done|..].
    + intros q Hq. rewrite link_node by done. case_decide as Hc.
      * intros _. split; [done|]. rewrite link_used by lia. by rewrite decide_True.
      * intros Hn. destruct (tr_data sb v addrs Hw q Hq Hn) as [Hr Hu]. split; [done|].
        rewrite link_used by lia. by case_decide.
    + intros q r Hq Hr. rewrite !link_node by done. repeat case_decide; subst; try done.
      * intros _ He. symmetry in He. destruct (new_not_node r Hr); congruence.
      * intros Hn He. destruct (new_not_node q Hq); congruence.
      * intros Hn He. by apply (tr_inj sb v addrs Hw).
  - intros n Hn. pose proof (ly_data sb s Hl). rewrite link_used by lia.
    case_decide; [done|]. by apply Hmeta.
  - intros q Hq Hn. rewrite link_node by done. case_decide; [by subst|done].
  - intros q Hq. rewrite link_node by done. case_decide; [by right|by left].
  - intros q Hq _. unfold leaf_block. rewrite link_node by apply Hq. case_decide as Hc.
    + subst q. rewrite Hnone. destruct (Z.eqb_spec b 0); [done|]. by rewrite Hzero.
    + destruct (Z.eqb_spec (node v addrs q) 0); [done|]. by apply Hleaf.
  - intros n Hn Hu. rewrite link_used by done. by case_decide.
  - done.
  - intros q Hq H0. rewrite link_node by done. by case_decide.
  - intros n Hn. rewrite link_used by done. case_decide as Hc; [|by left]. intros _. right. subst n.
    split; [done|]. exists q0. split_and!; [done|done|]. by rewrite link_node, decide_True.
Qed.
End link.

(** A new block at the top of the forest. *)
Lemma link_root {S} `{!BlockStore S, !BlockStoreSpec S} sb (s : S) v v1 addrs b (j : nat) :
  layout sb s → (∀ m, blk_ok (v m)) → tree_wf sb v addrs → meta_used sb v →
  allocated sb v v1 b → (j < 13)%nat → addrs !!! j = 0 →
  extends sb (λ r, r = (j, [])) v addrs v1 (<[j := b]> addrs) ∧ node v1 (<[j := b]> addrs) (j, []) = b.
Proof.
  intros Hl Hok Hw Hm Ha Hj H0. pose proof (tr_len sb v addrs Hw) as Hlen.
  apply (link_extends sb s v v1 addrs b Hl Hok Hw Hm Ha).
  - split_and!; cbn; [done|lia|by apply Forall_nil].
  - done.
  - by rewrite length_insert.
  - intros i Hi. destruct (decide (j = i)) as [->|Hne].
    + rewrite list_lookup_total_insert_eq by lia. by rewrite decide_True.
    + rewrite list_lookup_total_insert_ne by done. by rewrite decide_False by congruence.
  - intros i p x Hv Hn. rewrite decide_False by (intros [= _ Hc]; by destruct p).
    by rewrite (alloc_node sb s v v1 addrs b Hl Hw Ha) by (done || by apply (valid_pos_snoc i p x)).
  - intros i p x [= _ Hc]. by destruct p.
  - by apply (alloc_zero sb v v1 b).
  - done.
  - intros n (Hr & Hb & Hu & _). by apply (alloc_other sb s v v1 b).
  - intros q [Hq _] Hn. by apply (alloc_node sb s v v1 addrs b).
Qed.

(** A new block as an entry of an index block. *)
Lemma link_entry {S} `{!BlockStore S, !BlockStoreSpec S} sb (s : S) v v1 v2 addrs b j p i :
  layout sb s → (∀ m, blk_ok (v m)) → tree_wf sb v addrs → meta_used sb v →
  allocated sb v v1 b → valid_pos (j, p ++ [i]) →
  node v addrs (j, p) ≠ 0 → get_word (v (node v addrs (j, p))) i = 0 →
  (∀ x, v2 x = if decide (x = node v addrs (j, p)) then put_word (v1 x) i b else v1 x) →
  extends sb (λ r, r = (j, p ++ [i])) v addrs v2 addrs ∧ node v2 addrs (j, p ++ [i]) = b.
Proof.
  intros Hl Hok Hw Hm Ha Hv Hp H0 Hv2. pose proof (valid_pos_snoc j p i Hv) as [Hvp Hi].
  pose proof (new_range sb s v v1 b Hl Ha) as [Hb Hb0].
  pose proof (new_not_node sb v v1 addrs b Hw Ha (j, p) Hvp Hp) as Hpb.
  pose proof (tr_data sb v addrs Hw (j, p) Hvp Hp) as [Hpd Hpu].
  pose proof (node_not_bitmap sb v addrs Hw (j, p) Hvp Hp) as Hpm.
  apply (link_extends sb s v v1 addrs b Hl Hok Hw Hm Ha).
  - done.
  - rewrite node_snoc, H0. by destruct (_ =? 0).
  - apply Hw.
  - intros r Hr. rewrite decide_False; [done|]. intros [= _ Hc]. by destruct p.
  - intros r p' x Hvr Hn. pose proof (valid_pos_snoc r p' x Hvr) as [Hvr' Hx].
    rewrite Hv2. rewrite (alloc_node sb s v v1 addrs b Hl Hw Ha (r, p')) by done.
    case_decide as Hc.
    + apply (tr_inj sb v addrs Hw) in Hc as [= -> ->]; [|done..].
      destruct (decide (i = x)) as [->|Hne].
      * rewrite decide_True by done. rewrite get_put_word_eq.
        -- apply u32_id. pose proof (ly_size sb s Hl). unfold is_u32. lia.
        -- destruct (Hok (node v addrs (j, p))) as [-> _]. fsconst. lia.
      * rewrite get_put_word_ne by done. rewrite decide_False; [done|].
        intros [= Hc]. apply app_inj_tail in Hc as [_ ?]. done.
    + rewrite decide_False; [done|]. intros [= -> Hc2]. apply app_inj_tail in Hc2 as [-> _]. done.
  - intros r p' x [= -> Hc]. by apply app_inj_tail in Hc as [-> _].
  - rewrite Hv2, decide_False by done. by apply (alloc_zero sb v v1 b).
  - intros n Hn. rewrite Hv2, decide_False; [done|]. by intros ->.
  - intros n (Hr & Hnb & Hu & Hf). rewrite Hv2, decide_False by (intros ->; by apply (Hf (j, p))).
    by apply (alloc_other sb s v v1 b).
  - intros q [Hq Hlf] Hn. rewrite Hv2, decide_False.
    + by apply (alloc_node sb s v v1 addrs b).
    + intros Hc. apply (tr_inj sb v addrs Hw) in Hc as ->; [|done..].
      destruct Hv as (_ & Hle & _). cbn in *. rewrite length_app in Hle. cbn in Hle. lia.
Qed.
End nodes.
