(* ===== verification/FsMap.v ===== *)
(** * bmap: the block of a file at a given index

    [bmap] walks the tree of the inode and allocates what is missing.  It is shown
    to return the block at the position of the index, for direct, single, double
    and triple indirect blocks, and to leave the content of the file and every
    other block of the disk as they were. *)
From S2P Require Import Prelude Params Block Bio BioInv Log Store Str Fs FsAlloc FsTree.

(** ** Free space *)
Definition free_set (sb : superblock) (v : Z → block) : gset Z :=
  list_to_set (filter (λ b, used sb v b = false) (seqZ 0 (sb_size sb))).

Lemma elem_of_free sb v b : b ∈ free_set sb v ↔ 0 <= b < sb_size sb ∧ used sb v b = false.
Proof.
  unfold free_set. rewrite elem_of_list_to_set, list_elem_of_filter, elem_of_seqZ. naive_solver lia.
Qed.

Lemma put_word_blk d i x : blk_ok d → blk_ok (put_word d i x).
Proof. intros []. split; [by rewrite length_put_word|by apply put_word_bytes]. Qed.

Definition nfree (sb : superblock) (v : Z → block) : nat := size (free_set sb v).

Lemma nfree_pos sb v : (0 < nfree sb v)%nat → ∃ b, 0 <= b < sb_size sb ∧ used sb v b = false.
Proof.
  intros H. destruct (size_pos_elem_of (free_set sb v)) as [b Hb]; [done|].
  exists b. by apply elem_of_free.
Qed.

Lemma nfree_ext sb v v' :
  (∀ x, 0 <= x < sb_size sb → used sb v x = used sb v' x) → nfree sb v = nfree sb v'.
Proof.
  intros H. unfold nfree. f_equal. apply set_eq. intros x. rewrite !elem_of_free.
  split; intros [Hx Hu]; (split; [done|]); by rewrite <-Hu, H || by rewrite <-Hu, <-H.
Qed.

Section map.
Context {S : Type} `{!BlockStore S, !BlockStoreSpec S}.
Implicit Types (f : fsstate S) (s : S).

Lemma nfree_allocated sb s v v' b :
  layout sb s → (∀ m, blk_ok (v m)) → allocated sb v v' b → nfree sb v = Datatypes.S (nfree sb v').
Proof.
  intros Hl Hok Ha. pose proof Ha as (Hb & Hu & _).
  assert (0 <= b < sb_size sb) as Hr.
  { pose proof (ly_bmap sb s Hl). unfold datastart in Hb. lia. }
  assert (free_set sb v = {[b]} ∪ free_set sb v') as Hfs.
  { apply set_eq. intros x. rewrite elem_of_union, elem_of_singleton, !elem_of_free. split.
    - intros [Hx Hxu]. destruct (decide (x = b)) as [->|Hne]; [by left|right].
      split; [done|]. by rewrite (used_allocated sb s v v' b), decide_False.
    - intros [->|[Hx Hxu]]; [done|]. split; [done|].
      rewrite (used_allocated sb s v v' b) in Hxu by done. by case_decide. }
  unfold nfree. rewrite Hfs, size_union, size_singleton; [done|].
  apply disjoint_singleton_l. rewrite elem_of_free. intros [_ Hc].
  by rewrite (used_allocated sb s v v' b), decide_True in Hc.
Qed.

(** The disk of a state. *)
Definition disk_of f : Z → block := contents (fs_store f).

Record fs_ok f : Prop := {
  fo_layout : layout (fs_sb f) (fs_store f);
  fo_meta : meta_used (fs_sb f) (disk_of f);
  fo_blocks : ∀ m, blk_ok (disk_of f m);
}.

(** [ip] is an inode of the disk with a well-formed tree. *)
Record file_at f (ip : nat) (i : inode) : Prop := {
  fa_slot : fs_icache f !! ip = Some i;
  fa_dev : i_dev i = ROOTDEV;
  fa_tree : tree_wf (fs_sb f) (disk_of f) (i_addrs i);
}.

(** The locked blocks belong to others. *)
Definition others f (i : inode) (H : gset Z) : Prop :=
  ∀ n, n ∈ H → foreign (fs_sb f) (disk_of f) (i_addrs i) n.

(** The state with the inode's addresses and the store replaced. *)
Definition with_addrs f (ip : nat) (i : inode) (addrs : list Z) (s : S) : fsstate S :=
  set_fs_icache (<[ip := set_i_addrs addrs i]> (fs_icache f)) (set_fs_store s f).

(** From [f] to [f'] only the file [ip] changed, in the data blocks [L] and by new
    blocks at positions of [G], [n] of them at most. *)
Definition modified f (ip : nat) (i : inode) (H : gset Z) (k n : nat) (L G : pos → Prop)
    (f' : fsstate S) : Prop :=
  ∃ addrs' s', f' = with_addrs f ip i addrs' s' ∧ kept (fs_store f) H k s'
    ∧ changes (fs_sb f) L G (disk_of f) (i_addrs i) (contents s') addrs'
    ∧ (nfree (fs_sb f) (disk_of f) ≤ nfree (fs_sb f) (contents s') + n)%nat.

(** The tree grew, the content is the same. *)
Definition grown f ip i H k n G f' : Prop := modified f ip i H k n (λ _, False) G f'.

Lemma with_addrs_same f ip i s : fs_icache f !! ip = Some i →
  with_addrs f ip i (i_addrs i) s = set_fs_store s f.
Proof.
  intros Hi. unfold with_addrs. replace (set_i_addrs (i_addrs i) i) with i by (by destruct i).
  rewrite list_insert_id by done. by destruct f.
Qed.

Lemma modified_file f ip i H k n L G f' :
  fs_ok f → file_at f ip i → modified f ip i H k n L G f' →
  ∃ addrs' s', f' = with_addrs f ip i addrs' s' ∧ fs_ok f' ∧ file_at f' ip (set_i_addrs addrs' i)
    ∧ (others f i H → others f' (set_i_addrs addrs' i) H) ∧ ready (fs_store f') H k
    ∧ changes (fs_sb f) L G (disk_of f) (i_addrs i) (disk_of f') addrs'.
Proof.
  intros [O1 O2 O3] [F1 F2 F3] (addrs' & s' & -> & [K1 K2 K3] & E & N).
  exists addrs', s'. split; [done|]. split_and!.
  - split; cbn; [by eapply layout_evolves|apply E|]. intros m. by eapply contents_ok.
  - split; cbn; [|done|apply E]. apply list_lookup_insert_eq. by eapply lookup_lt_Some.
  - intros Ho x Hx. eapply changes_foreign; [exact E|]. by apply Ho.
  - done.
  - done.
Qed.

Lemma grown_refl f ip i H k G :
  fs_ok f → file_at f ip i → ready (fs_store f) H k → grown f ip i H k 0 G f.
Proof.
  intros [O1 O2 O3] [F1 F2 F3] Hr. exists (i_addrs i), (fs_store f). split_and!.
  - rewrite with_addrs_same by done. by destruct f.
  - split; [done|apply evolves_refl|done].
  - by apply extends_refl.
  - unfold disk_of. lia.
Qed.

Lemma modified_trans f ip i H k1 n1 L1 G1 f1 i1 k2 n2 L2 G2 f2 :
  fs_ok f → fs_icache f !! ip = Some i → modified f ip i H k1 n1 L1 G1 f1 →
  fs_icache f1 !! ip = Some i1 → modified f1 ip i1 H k2 n2 L2 G2 f2 →
  modified f ip i H k2 (n1 + n2) (λ q, L1 q ∨ L2 q) (λ q, G1 q ∨ G2 q) f2.
Proof.
  intros [O1 O2 O3] Hi (a1 & s1 & -> & K1 & E1 & N1) Hi1 (a2 & s2 & -> & K2 & E2 & N2).
  cbn in Hi1. rewrite list_lookup_insert_eq in Hi1 by (by eapply lookup_lt_Some). simplify_eq.
  exists a2, s2. split_and!.
  - unfold with_addrs. cbn. by rewrite list_insert_insert_eq.
  - by eapply kept_trans.
  - eapply changes_trans; [|exact E1|exact E2].
    pose proof (ly_bmap _ _ O1). unfold datastart. lia.
  - cbn in *. unfold disk_of in *. cbn in *. lia.
Qed.

Lemma modified_weaken f ip i H k n L G k' n' (L' G' : pos → Prop) f' :
  modified f ip i H k n L G f' → (k' ≤ k)%nat → (n ≤ n')%nat → (∀ q, L q → L' q) → (∀ q, G q → G' q) →
  modified f ip i H k' n' L' G' f'.
Proof.
  intros (a & s & -> & [K1 K2 K3] & E & N) Hk Hn HL HG. exists a, s. split_and!; try done.
  - split; [|done|done]. by eapply ready_weaken.
  - by eapply changes_weaken.
  - lia.
Qed.

Lemma grown_trans f ip i H k1 n1 (G1 G2 G : pos → Prop) f1 i1 k2 n2 f2 :
  fs_ok f → fs_icache f !! ip = Some i → grown f ip i H k1 n1 G1 f1 → fs_icache f1 !! ip = Some i1 →
  grown f1 ip i1 H k2 n2 G2 f2 → (∀ q, G1 q ∨ G2 q → G q) → grown f ip i H k2 (n1 + n2) G f2.
Proof.
  intros Hok Hi H1 Hi1 H2 HG. eapply modified_weaken; [by eapply modified_trans|done|done| |exact HG].
  cbn. tauto.
Qed.

Lemma grown_weaken f ip i H k n k' n' G f' :
  grown f ip i H k n G f' → (k' ≤ k)%nat → (n ≤ n')%nat → grown f ip i H k' n' G f'.
Proof. intros Hg Hk Hn. by eapply modified_weaken. Qed.

Lemma others_clear f i H : others f i H → clear_of_map (fs_sb f) (disk_of f) H.
Proof. intros Ho n Hn. destruct (Ho n Hn) as (?&?&?&_). done. Qed.

Lemma geti_eq f ip i : fs_icache f !! ip = Some i → geti ip f = Ret i f.
Proof. intros H. unfold geti. by rewrite H. Qed.

Lemma updi_eq f ip i g : fs_icache f !! ip = Some i →
  updi ip g f = Ret tt (set_fs_icache (<[ip := g i]> (fs_icache f)) f).
Proof. intros H. unfold updi. by rewrite H. Qed.

(** The top of the tree. *)
Lemma load_addr_spec f ip i H k (j : nat) :
  fs_ok f → file_at f ip i → others f i H → ready (fs_store f) H (2 + k) →
  (size H ≤ 1 + k)%nat → (j < 13)%nat → (0 < nfree (fs_sb f) (disk_of f))%nat →
  returns (load_addr ip j) f (λ a f', grown f ip i H k 1 (on_path (j, [])) f' ∧ a ≠ 0
    ∧ ∀ i', fs_icache f' !! ip = Some i' → node (disk_of f') (i_addrs i') (j, []) = a).
Proof.
  intros Hok Hf Ho Hr Hsz Hj Hfree. pose proof Hok as [O1 O2 O3]. pose proof Hf as [F1 F2 F3].
  unfold load_addr. eapply returns_bind_eq; [by apply geti_eq|].
  destruct (lookup_lt_is_Some_2 (i_addrs i) j) as [a Haj]; [by rewrite (tr_len _ _ _ F3)|].
  rewrite Haj. eapply returns_bind_eq; [done|].
  pose proof (list_lookup_total_correct _ _ _ Haj) as Hat.
  destruct (Z.eqb_spec a 0) as [->|Ha].
  - rewrite F2. destruct (nfree_pos _ _ Hfree) as (fb & Hfb & Hfu).
    rstep balloc_spec; [done|done|done|by apply (others_clear f i)|done|exact Hfb|exact Hfu|].
    intros b f1 (s1 & -> & K1 & A1).
    pose proof (link_root _ _ _ _ _ b j O1 O3 F3 O2 A1 Hj Hat) as [HE HN].
    pose proof (new_range _ _ _ _ b O1 A1) as [_ Hb0].
    apply (changes_weaken _ _ (λ _, False) _ (on_path (j, []))) in HE; [|done|by intros ? ->].
    eapply returns_bind_eq; [by apply updi_eq|]. apply returns_ret. cbn. split_and!.
    + exists (<[j := b]> (i_addrs i)), s1. split_and!; try done.
      pose proof (nfree_allocated _ _ _ _ b O1 O3 A1) as Hn. unfold disk_of in *. lia.
    + done.
    + rewrite list_lookup_insert_eq by (by eapply lookup_lt_Some). intros i' [= <-]. done.
  - apply returns_ret. split_and!; [|done|].
    + apply (grown_weaken f ip i H k 0 k 1); [apply grown_refl; [done|done|eapply ready_weaken; [exact Hr|lia]]|lia|lia].
    + intros i' Hi'. simplify_eq. done.
Qed.

(** One level of indirection. *)
Section entry.
Context (f : fsstate S) (ip : nat) (i : inode) (H : gset Z) (k : nat) (j : nat) (p : list nat) (idx : Z).
Context (Hok : fs_ok f) (Hf : file_at f ip i) (Ho : others f i H).
Context (Hsz : (size H ≤ 1 + k)%nat) (Hv : valid_pos (j, p ++ [Z.to_nat idx])).
Let P : Z := node (disk_of f) (i_addrs i) (j, p).
Context (Hp : P ≠ 0).

(** The goal of [load_entry]. *)
Definition entry_post (a : Z) (f' : fsstate S) : Prop :=
  grown f ip i H k 1 (λ r, r = (j, p ++ [Z.to_nat idx])) f' ∧ a ≠ 0
  ∧ ∀ i', fs_icache f' !! ip = Some i' → node (disk_of f') (i_addrs i') (j, p ++ [Z.to_nat idx]) = a.

Lemma entry_block : (P ∉ H) ∧ usable (fs_store f) P.
Proof using All.
  pose proof (valid_pos_snoc _ _ _ Hv) as [Hvp Hi]. destruct (tr_data _ _ _ (fa_tree _ _ _ Hf) (j, p) Hvp Hp) as [Hpd _]. split.
  - intros Hc. destruct (Ho _ Hc) as (_ & _ & _ & Hx). by apply (Hx (j, p)).
  - apply (ly_data_usable _ _ (fo_layout _ Hok)). fold P in Hpd. lia.
Qed.

(** [balloc] while the block of the entry is held. *)
Lemma entry_balloc bp s1 :
  holding f H (3 + k) bp P s1 → (0 < nfree (fs_sb f) (disk_of f))%nat →
  returns (balloc ROOTDEV) (set_fs_store s1 f) (λ b f2, ∃ s2, f2 = set_fs_store s2 f
    ∧ kept s1 ({[P]} ∪ H) (1 + k) s2 ∧ allocated (fs_sb f) (disk_of f) (contents s2) b).
Proof using All.
  intros [R1 E1 St1 V1 Ow1 Ow1' Fr] Hfree. pose proof Hok as [O1 O2 O3]. destruct entry_block as [HPH _].
  pose proof (valid_pos_snoc _ _ _ Hv) as [Hvp Hi]. destruct (tr_data _ _ _ (fa_tree _ _ _ Hf) (j, p) Hvp Hp) as [Hpd Hpu].
  pose proof (node_not_bitmap _ _ _ (fa_tree _ _ _ Hf) (j, p) Hvp Hp) as Hpm.
  assert (∀ x, used (fs_sb f) (contents s1) x = used (fs_sb f) (disk_of f) x) as Hus by (intros x; unfold used; by rewrite V1).
  destruct (nfree_pos _ _ Hfree) as (fb & Hfb & Hfu).
  assert (size ({[P]} ∪ H) ≤ 1 + size H)%nat as HszP.
  { rewrite size_union by set_solver. rewrite size_singleton. lia. }
  rstep (balloc_spec (set_fs_store s1 f) ({[P]} ∪ H) (1 + k) fb); [by eapply layout_evolves| |done| |lia|exact Hfb| |].
  - intros x Hx. rewrite Hus. by apply O2.
  - intros x Hx. rewrite Hus. apply elem_of_union in Hx as [->%elem_of_singleton|Hx]; [done|].
    by apply (others_clear f i H Ho).
  - cbn [fs_store set_fs_store fs_sb]. by rewrite Hus.
  - intros b f2 (s2 & -> & K & A2). exists s2. split_and!; [done|done|]. by apply (allocated_ext _ _ (disk_of f)) in A2.
Qed.

(** The new block [b] is linked into the entry: [s3] is the store with the entry written. *)
Lemma entry_linked bp s1 s2 s3 b :
  holding f H (3 + k) bp P s1 → kept s1 ({[P]} ∪ H) (1 + k) s2 → allocated (fs_sb f) (disk_of f) (contents s2) b →
  get_word (disk_of f P) (Z.to_nat idx) = 0 →
  ready s3 H k → evolves s2 s3 →
  (∀ x, contents s3 x = if decide (x = P) then put_word (disk_of f P) (Z.to_nat idx) b else contents s2 x) →
  (∀ j' m, owns s3 j' m ↔ j' ≠ bp ∧ owns s2 j' m) → entry_post b (set_fs_store s3 f).
Proof using All.
  intros [R1 E1 St1 V1 Ow1 Ow1' Fr] [K1 K2 K3] A2 H0 R3 E3 V3 Ow3. pose proof Hok as [O1 O2 O3]. pose proof Hf as [F1 F2 F3].
  pose proof (valid_pos_snoc _ _ _ Hv) as [Hvp Hi]. pose proof (node_not_bitmap _ _ _ F3 (j, p) Hvp Hp) as Hpm.
  assert (contents s2 P = disk_of f P) as HP2 by (by apply (alloc_node _ _ _ _ _ b O1 F3 A2 (j, p))).
  destruct (link_entry _ _ (disk_of f) (contents s2) (contents s3) (i_addrs i) b j p (Z.to_nat idx)
    O1 O3 F3 O2 A2 Hv Hp H0) as [HE HN].
  { intros x. rewrite V3. fold P. destruct (decide (x = P)) as [->|]; [|done]. by rewrite HP2. }
  split_and!; [|by eapply new_range|intros i' Hi'; cbn in Hi'; by simplify_eq].
  exists (i_addrs i), s3. split_and!; [by rewrite with_addrs_same| |done|].
  - split; [done|by do 2 (eapply evolves_trans; [done|])|].
    intros m x. rewrite Ow3, K3, Ow1'. split; [naive_solver|]. intros Hm. split; [|by right]. intros ->. by apply (Fr x).
  - assert (nfree (fs_sb f) (contents s3) = nfree (fs_sb f) (contents s2)) as ->.
    { apply nfree_ext. intros x Hx. unfold used. rewrite V3, decide_False; [done|].
      intros Hc. apply Hpm. fold P. rewrite <-Hc. by apply (BBLOCK_eq _ _ x O1). }
    pose proof (nfree_allocated _ _ _ _ b O1 O3 A2). lia.
Qed.

(** The entry is there already. *)
Lemma entry_kept s2 :
  kept (fs_store f) H (3 + k) s2 → (∀ x, contents s2 x = disk_of f x) → get_word (disk_of f P) (Z.to_nat idx) ≠ 0 →
  entry_post (get_word (disk_of f P) (Z.to_nat idx)) (set_fs_store s2 f).
Proof using All.
  intros [K1 K2 K3] V2 H0. pose proof Hok as [O1 O2 O3]. pose proof Hf as [F1 F2 F3]. split_and!; [|done|].
  - exists (i_addrs i), s2. split_and!.
    + by rewrite with_addrs_same.
    + split; [|done|done]. eapply ready_weaken; [exact K1|lia].
    + by apply extends_ext.
    + rewrite (nfree_ext _ (contents s2) (disk_of f)); [lia|]. intros. by apply used_ext.
  - intros i' Hi'. cbn in Hi'. simplify_eq. rewrite (node_ext (disk_of f)) by done. rewrite node_snoc. fold P.
    by destruct (Z.eqb_spec P 0).
Qed.

Lemma load_entry_run :
  ready (fs_store f) H (3 + k) → (0 < nfree (fs_sb f) (disk_of f))%nat → returns (load_entry ip P idx) f entry_post.
Proof using All.
  intros Hr Hfree. pose proof Hok as [O1 O2 O3]. pose proof Hf as [F1 F2 F3]. destruct entry_block as [HPH HPu].
  unfold load_entry. eapply returns_bind_eq; [by apply geti_eq|]. rewrite F2.
  rstep read_release; [done|done|done|lia|].
  intros bp f1 (s1 & -> & R1 & E1 & St1 & V1 & Ow1 & Ow1' & Fr).
  eapply returns_bind_eq; [by eapply data_spec|]. cbn [fs_store set_fs_store]. rewrite V1. fold (disk_of f P).
  destruct (Z.eqb_spec (get_word (disk_of f P) (Z.to_nat idx)) 0) as [H0|H0].
  - assert (holding f H (3 + k) bp P s1) as Hh by done. rstep (entry_balloc bp s1 Hh Hfree).
    intros b f2 (s2 & -> & K & A2). pose proof K as [K1 K2 K3]. assert (owns s2 bp P) as Ow2 by (by apply K3).
    eapply returns_bind_eq; [eapply (data_spec _ ({[P]} ∪ H) (1 + k)); done|]. cbn [fs_store set_fs_store].
    pose proof (valid_pos_snoc _ _ _ Hv) as [Hvp _].
    assert (contents s2 P = disk_of f P) as HP2 by (by apply (alloc_node _ _ _ _ _ b O1 F3 A2 (j, p))).
    rewrite HP2. apply returns_put_back, returns_bind. eapply returns_mono.
    { eapply (put_back_spec _ _ k bp P); [exact K1|exact Ow2| |].
      - cbn. rewrite (evolves_usable s1 s2), (evolves_usable (fs_store f) s1) by done. done.
      - apply put_word_blk. apply O3. }
    intros _ f3 (s3 & -> & R3 & E3 & V3 & Ow3). cbn [fs_store set_fs_store] in V3, Ow3, E3.
    assert (({[P]} ∪ H) ∖ {[P]} = H) as HHe by set_solver. rewrite HHe in R3.
    apply returns_ret. by eapply entry_linked.
  - rstep release_spec; [exact R1|exact Ow1|exact St1|done|exact E1|exact Ow1'|exact Fr|].
    intros _ f2 (s2 & -> & K & V2). apply returns_ret. cbn in V2.
    apply entry_kept; [exact K|intros; by rewrite V2, V1|done].
Qed.
End entry.

Lemma load_entry_spec f ip i H k (j : nat) p (idx : Z) :
  fs_ok f → file_at f ip i → others f i H → ready (fs_store f) H (3 + k) →
  (size H ≤ 1 + k)%nat → 0 <= idx → valid_pos (j, p ++ [Z.to_nat idx]) →
  node (disk_of f) (i_addrs i) (j, p) ≠ 0 → (0 < nfree (fs_sb f) (disk_of f))%nat →
  returns (load_entry ip (node (disk_of f) (i_addrs i) (j, p)) idx) f (entry_post f ip i H k j p idx).
Proof. intros. by apply load_entry_run. Qed.

(** The walk so far: the tree grew on the way to position [q] and [a] is the block there. *)
Definition reached f ip i H k n (q : pos) (a : Z) (f' : fsstate S) : Prop :=
  grown f ip i H k n (on_path q) f' ∧ a ≠ 0
  ∧ ∀ i', fs_icache f' !! ip = Some i' → node (disk_of f') (i_addrs i') q = a.

Lemma reached_entry f ip i H k n j p idx a f1 :
  fs_ok f → file_at f ip i → others f i H → reached f ip i H (3 + k) n (j, p) a f1 →
  (size H ≤ 1 + k)%nat → 0 <= idx → valid_pos (j, p ++ [Z.to_nat idx]) →
  (n < nfree (fs_sb f) (disk_of f))%nat →
  returns (load_entry ip a idx) f1 (reached f ip i H k (n + 1) (j, p ++ [Z.to_nat idx])).
Proof.
  intros Hok Hf Ho (Hg & Ha & Hnode) Hsz Hidx Hv Hfree.
  destruct (modified_file _ _ _ _ _ _ _ _ _ Hok Hf Hg) as (a1 & s1 & Hf1 & Hok1 & Hfile1 & Ho1 & Hr1 & _).
  pose proof (fa_slot _ _ _ Hfile1) as Hi1. specialize (Hnode _ Hi1). rewrite <-Hnode.
  assert (fs_sb f1 = fs_sb f) as Hsb by (by rewrite Hf1).
  eapply returns_mono.
  { eapply (load_entry_spec f1 ip _ H k j p idx); [done|done|by apply Ho1|done|done|done|done| |].
    - by rewrite Hnode.
    - destruct Hg as (a2 & s2 & -> & _ & _ & Hn2). cbn in *. unfold disk_of in *. cbn in *. lia. }
  intros a' f2 (Hg2 & Ha' & Hnode2). split; [|done].
  eapply grown_trans; [done|apply Hf|exact Hg|exact Hi1|exact Hg2|].
  intros r [[H1 H2]| ->]; [|done]. split; [done|]. cbn in *. by apply prefix_app_r.
Qed.

(** The levels of [bmap] as one walk along the path of the block. *)
Lemma bmap_spec f ip i H k bn q :
  fs_ok f → file_at f ip i → others f i H → ready (fs_store f) H (11 + k) →
  (size H ≤ 1 + k)%nat → 0 <= bn → bmap_path bn = Some q →
  (4 ≤ nfree (fs_sb f) (disk_of f))%nat →
  returns (bmap ip bn) f (reached f ip i H k 4 q).
Proof.
  intros Hok Hf Ho Hr Hsz Hbn Hq Hfree.
  assert (∀ q n a f', leaf_pos q → (n ≤ 4)%nat → ∀ k', (k ≤ k')%nat →
    reached f ip i H k' n q a f' → reached f ip i H k 4 q a f') as Hweak.
  { intros ? n a f' _ Hn k' Hk (Hg & Ha & Hx). split; [|done]. by eapply grown_weaken. }
  destruct (bmap_path_leaf bn q Hbn Hq) as [Hmax Hleaf].
  pose proof Hleaf as [Hval _]. unfold bmap. unfold bmap_path in Hq.
  pose proof (load_addr_spec f ip i H (9 + k)) as Hroot.
  destruct (Z.ltb_spec bn NDIRECT) as [H1|H1]; [simplify_eq|].
  { eapply returns_mono; [apply Hroot; [done|done|done|done|lia|fsconst; lia|lia]|].
    intros a f' Hrc. eapply Hweak; [done| | |exact Hrc]; lia. }
  cbv zeta in *. destruct (Z.ltb_spec (bn - NDIRECT) NINDIRECT) as [H2|H2]; [simplify_eq|].
  { rstep Hroot; [done..|lia|fsconst; lia|lia|]. intros a f1 Hrc.
    eapply returns_mono; [apply (reached_entry f ip i H (6 + k) 1 10 []); try done; try lia|].
    intros a' f' Hrc'. eapply Hweak; [done| | |exact Hrc']; lia. }
  destruct (Z.ltb_spec (bn - NDIRECT - NINDIRECT) NDOUINDIRECT) as [H3|H3]; [simplify_eq|].
  { set (x := bn - NDIRECT - NINDIRECT) in *.
    assert (0 <= x / NINDIRECT ∧ 0 <= x mod NINDIRECT) as [Hx1 Hx2] by (fsconst; divlia).
    pose proof (valid_pos_snoc 11 [Z.to_nat (x / NINDIRECT)] (Z.to_nat (x mod NINDIRECT)) Hval) as [Hv1 _].
    rstep Hroot; [done..|lia|fsconst; lia|lia|]. intros a f1 Hrc.
    rstep (reached_entry f ip i H (6 + k) 1 11 [] (x / NINDIRECT)); try done; try lia.
    intros a' f2 Hrc2.
    eapply returns_mono; [apply (reached_entry f ip i H (3 + k) (1 + 1) 11 [Z.to_nat (x / NINDIRECT)]);
      try done; try lia|].
    intros a'' f' Hrc'. eapply Hweak; [done| | |exact Hrc']; lia. }
  destruct (Z.ltb_spec (bn - NDIRECT - NINDIRECT - NDOUINDIRECT) NTRIINDIRECT) as [H4|H4]; [simplify_eq|done].
  set (x := bn - NDIRECT - NINDIRECT - NDOUINDIRECT) in *.
  assert (0 <= x / NDOUINDIRECT ∧ 0 <= x mod NDOUINDIRECT / NINDIRECT
    ∧ 0 <= (x mod NDOUINDIRECT) mod NINDIRECT) as (Hx1 & Hx2 & Hx3) by (fsconst; divlia).
  set (i1 := x / NDOUINDIRECT) in *. set (i2 := x mod NDOUINDIRECT / NINDIRECT) in *.
  set (i3 := (x mod NDOUINDIRECT) mod NINDIRECT) in *.
  pose proof (valid_pos_snoc 12 [Z.to_nat i1; Z.to_nat i2] (Z.to_nat i3) Hval) as [Hv2 _].
  pose proof (valid_pos_snoc 12 [Z.to_nat i1] (Z.to_nat i2) Hv2) as [Hv1 _].
  rstep Hroot; [done..|lia|fsconst; lia|lia|]. intros a f1 Hrc.
  rstep (reached_entry f ip i H (6 + k) 1 12 [] i1); try done; try lia. intros a' f2 Hrc2.
  rstep (reached_entry f ip i H (3 + k) (1 + 1) 12 [Z.to_nat i1] i2); try done; try lia.
  intros a'' f3 Hrc3.
  eapply returns_mono; [apply (reached_entry f ip i H k (1 + 1 + 1) 12 [Z.to_nat i1; Z.to_nat i2] i3);
    try done; try lia|].
  intros a4 f' Hrc'. eapply Hweak; [done| | |exact Hrc']; lia.
Qed.
End map.
