(* ===== verification/FsContent.v ===== *)
(** * The content of a file: bmap on existing blocks, readi

    [file_byte] is the byte of a file at an offset, read through its tree.  A file
    is [dense] when all the blocks below its size are there; [readi] then returns
    its bytes, needs no room in the log, and changes nothing. *)
From S2P Require Import Prelude Params Block Bio BioInv Log Store Str Fs FsAlloc FsTree FsMap.

Definition file_block (v : Z → block) (addrs : list Z) (bn : Z) : block :=
  match bmap_path bn with Some q => leaf_block v addrs q | None => zero_block end.

Definition file_byte (v : Z → block) (addrs : list Z) (off : Z) : Z :=
  byte_at (file_block v addrs (off / BSIZE)) (Z.to_nat (off mod BSIZE)).

Definition mapped (v : Z → block) (addrs : list Z) (bn : Z) : Prop :=
  ∃ q, bmap_path bn = Some q ∧ node v addrs q ≠ 0.

Definition dense (v : Z → block) (addrs : list Z) (size : Z) : Prop :=
  ∀ bn, 0 <= bn → bn * BSIZE < size → mapped v addrs bn.

Lemma file_byte_ext v v' addrs off :
  (∀ x, v' x = v x) → file_byte v' addrs off = file_byte v addrs off.
Proof.
  intros Hv. unfold file_byte, file_block. destruct (bmap_path _); [|done].
  unfold leaf_block. by rewrite (node_ext v v'), Hv.
Qed.

Lemma mapped_ext v v' addrs bn : (∀ x, v' x = v x) → mapped v addrs bn → mapped v' addrs bn.
Proof. intros Hv (q & Hq & Hn). exists q. by rewrite (node_ext v v'). Qed.

Section content.
Context {S : Type} `{!BlockStore S, !BlockStoreSpec S}.
Implicit Types (f : fsstate S) (s : S).

(** Nothing changed but the state of the store. *)
Definition unchanged f (H : gset Z) (k : nat) (f' : fsstate S) : Prop :=
  ∃ s', f' = set_fs_store s' f ∧ kept (fs_store f) H k s' ∧ ∀ x, contents s' x = disk_of f x.

Lemma unchanged_refl f H k : ready (fs_store f) H k → unchanged f H k f.
Proof.
  intros Hr. exists (fs_store f). split_and!; [by destruct f| |done].
  split; [done|apply evolves_refl|done].
Qed.

Lemma unchanged_trans f1 H k f2 f3 : unchanged f1 H k f2 → unchanged f2 H k f3 → unchanged f1 H k f3.
Proof.
  intros (s2 & -> & K2 & V2) (s3 & -> & K3 & V3). exists s3. split_and!; [done| |].
  - by eapply kept_trans.
  - intros x. rewrite V3. apply V2.
Qed.

Lemma unchanged_node f H k f' addrs q :
  unchanged f H k f' → node (disk_of f') addrs q = node (disk_of f) addrs q.
Proof. intros (s' & -> & _ & V). by apply node_ext. Qed.

Lemma unchanged_fs_ok f H k f' : fs_ok f → unchanged f H k f' → fs_ok f'.
Proof.
  intros [O1 O2 O3] (s' & -> & [K1 K2 K3] & V). split; cbn.
  - by eapply layout_evolves.
  - intros n Hn. cbn. unfold disk_of. cbn. rewrite (used_ext _ (disk_of f) (contents s')) by done.
    by apply O2.
  - intros m. unfold disk_of. cbn. rewrite V. apply O3.
Qed.

Lemma unchanged_file f H k f' ip i : file_at f ip i → unchanged f H k f' → file_at f' ip i.
Proof.
  intros [F1 F2 F3] (s' & -> & _ & V). split; [done|done|]. cbn. unfold disk_of. cbn.
  destruct F3 as [T1 T2 T3]. split; [done|..].
  - intros q Hq. rewrite (node_ext (disk_of f) (contents s')), (used_ext _ (disk_of f) (contents s')) by done.
    by apply T2.
  - intros q r Hq Hr. rewrite !(node_ext (disk_of f) (contents s')) by done. by apply T3.
Qed.

Lemma unchanged_others f H k f' i : others f i H → unchanged f H k f' → others f' i H.
Proof.
  intros Ho (s' & -> & _ & V) n Hn. destruct (Ho n Hn) as (F1 & F2 & F3 & F4).
  unfold disk_of. cbn. split_and!; [lia|lia|done| |].
  - by rewrite (used_ext _ (disk_of f) (contents s')).
  - intros q Hq. rewrite (node_ext (disk_of f) (contents s')) by done. by apply F4.
Qed.

Lemma unchanged_ready f H k f' : unchanged f H k f' → ready (fs_store f') H k.
Proof. by intros (s' & -> & [K1 _ _] & _). Qed.

(** *** bmap on a block that is there *)
Lemma load_addr_present f ip i (j : nat) :
  file_at f ip i → (j < 13)%nat → i_addrs i !!! j ≠ 0 →
  load_addr ip j f = Ret (i_addrs i !!! j) f.
Proof.
  intros [F1 F2 F3] Hj H0. unfold load_addr. erewrite bind_ret by (by apply geti_eq).
  destruct (lookup_lt_is_Some_2 (i_addrs i) j) as [a Ha]; [by rewrite (tr_len _ _ _ F3)|].
  rewrite (list_lookup_total_correct _ _ _ Ha) in *. rewrite Ha.
  erewrite bind_ret by reflexivity. by destruct (Z.eqb_spec a 0).
Qed.

Lemma load_entry_present f ip i H k (j : nat) p (idx : Z) :
  fs_ok f → file_at f ip i → others f i H → ready (fs_store f) H k → (size H ≤ k)%nat →
  0 <= idx → valid_pos (j, p ++ [Z.to_nat idx]) →
  node (disk_of f) (i_addrs i) (j, p ++ [Z.to_nat idx]) ≠ 0 →
  returns (load_entry ip (node (disk_of f) (i_addrs i) (j, p)) idx) f (λ a f',
    unchanged f H k f' ∧ a = node (disk_of f) (i_addrs i) (j, p ++ [Z.to_nat idx])).
Proof.
  intros Hok Hf Ho Hr Hsz Hidx Hv Hn. pose proof Hok as [O1 O2 O3]. pose proof Hf as [F1 F2 F3].
  pose proof (valid_pos_snoc _ _ _ Hv) as [Hvp Hi]. rewrite node_snoc in *.
  set (P := node _ _ (j, p)) in *. destruct (Z.eqb_spec P 0) as [|Hp]; [done|].
  destruct (tr_data _ _ _ F3 (j, p) Hvp Hp) as [Hpd Hpu].
  unfold load_entry. eapply returns_bind_eq; [by apply geti_eq|]. rewrite F2.
  rstep read_release; [done| | |done|].
  { apply (ly_data_usable _ _ O1). done. }
  { intros Hc. destruct (Ho _ Hc) as (_ & _ & _ & Hx). by apply (Hx (j, p)). }
  intros bp f1 (s1 & -> & R1 & E1 & St1 & V1 & Ow1 & Ow1' & Fr).
  eapply returns_bind_eq; [by eapply data_spec|]. cbn [fs_store set_fs_store].
  rewrite V1. fold (disk_of f P).
  destruct (Z.eqb_spec (get_word (disk_of f P) (Z.to_nat idx)) 0); [done|].
  rstep release_spec; [exact R1|exact Ow1|exact St1| |exact E1|exact Ow1'|exact Fr|].
  { intros Hc. destruct (Ho _ Hc) as (_ & _ & _ & Hx). by apply (Hx (j, p)). }
  intros _ f2 (s2 & -> & K2 & V2). apply returns_ret. split; [|done].
  exists s2. split_and!; [done|done|]. intros x. rewrite V2. apply V1.
Qed.

(** A walk that ends at a block passes through blocks. *)
Lemma node_prefix v addrs j p i : node v addrs (j, p ++ [i]) ≠ 0 → node v addrs (j, p) ≠ 0.
Proof. rewrite node_snoc. by destruct (Z.eqb_spec (node v addrs (j, p)) 0). Qed.

Lemma entry_step f ip i H k (j : nat) p (idx : Z) f1 :
  fs_ok f → file_at f ip i → others f i H → unchanged f H k f1 → (size H ≤ k)%nat →
  0 <= idx → valid_pos (j, p ++ [Z.to_nat idx]) →
  node (disk_of f) (i_addrs i) (j, p ++ [Z.to_nat idx]) ≠ 0 →
  returns (load_entry ip (node (disk_of f) (i_addrs i) (j, p)) idx) f1 (λ a f',
    unchanged f H k f' ∧ a = node (disk_of f) (i_addrs i) (j, p ++ [Z.to_nat idx])).
Proof.
  intros Hok Hf Ho Hu Hsz Hidx Hv Hn. rewrite <-(unchanged_node f H k f1) in * by done.
  eapply returns_mono.
  { apply (load_entry_present f1 ip i H k); eauto using unchanged_fs_ok, unchanged_file,
      unchanged_others, unchanged_ready. }
  intros a f' [Hu' ->]. split; [by eapply unchanged_trans|]. by rewrite (unchanged_node f H k f1).
Qed.

Lemma bmap_present f ip i H k bn q :
  fs_ok f → file_at f ip i → others f i H → ready (fs_store f) H k → (size H ≤ k)%nat →
  0 <= bn < MAXFILE → bmap_path bn = Some q → node (disk_of f) (i_addrs i) q ≠ 0 →
  returns (bmap ip bn) f (λ a f', unchanged f H k f' ∧ a = node (disk_of f) (i_addrs i) q).
Proof.
  intros Hok Hf Ho Hr Hsz Hbn Hq Hn. pose proof (unchanged_refl f H k Hr) as Hu0.
  destruct (bmap_path_some bn Hbn) as (q' & Hq' & [Hval _]). assert (q' = q) as -> by congruence.
  pose proof (load_addr_present f ip i) as Hroot. unfold bmap. unfold bmap_path in Hq.
  destruct (Z.ltb_spec bn NDIRECT) as [H1|H1]; [simplify_eq|].
  { apply returns_eq. do 2 eexists. split; [apply Hroot; [done|fsconst; lia|done]|done]. }
  cbv zeta in *. destruct (Z.ltb_spec (bn - NDIRECT) NINDIRECT) as [H2|H2]; [simplify_eq|].
  { eapply returns_bind_eq.
    { apply Hroot; [done|fsconst; lia|]. apply (node_prefix _ _ 10 [] _ Hn). }
    apply (entry_step f ip i H k 10 []); try done; lia. }
  destruct (Z.ltb_spec (bn - NDIRECT - NINDIRECT) NDOUINDIRECT) as [H3|H3]; [simplify_eq|].
  { set (x := bn - NDIRECT - NINDIRECT) in *.
    assert (0 <= x / NINDIRECT ∧ 0 <= x mod NINDIRECT) as [Hx1 Hx2] by (fsconst; divlia).
    set (i1 := x / NINDIRECT) in *. set (i2 := x mod NINDIRECT) in *.
    pose proof (valid_pos_snoc 11 [Z.to_nat i1] (Z.to_nat i2) Hval) as [Hv1 _].
    pose proof (node_prefix _ _ 11 [Z.to_nat i1] (Z.to_nat i2) Hn) as Hn1.
    eapply returns_bind_eq.
    { apply Hroot; [done|fsconst; lia|]. apply (node_prefix _ _ 11 [] _ Hn1). }
    rstep (entry_step f ip i H k 11 [] i1); try done. intros a f1 [Hu1 ->].
    apply (entry_step f ip i H k 11 [Z.to_nat i1]); done. }
  destruct (Z.ltb_spec (bn - NDIRECT - NINDIRECT - NDOUINDIRECT) NTRIINDIRECT); [simplify_eq|done].
  set (x := bn - NDIRECT - NINDIRECT - NDOUINDIRECT) in *.
  assert (0 <= x / NDOUINDIRECT ∧ 0 <= x mod NDOUINDIRECT / NINDIRECT
    ∧ 0 <= (x mod NDOUINDIRECT) mod NINDIRECT) as (Hx1 & Hx2 & Hx3) by (fsconst; divlia).
  set (i1 := x / NDOUINDIRECT) in *. set (i2 := x mod NDOUINDIRECT / NINDIRECT) in *.
  set (i3 := (x mod NDOUINDIRECT) mod NINDIRECT) in *.
  pose proof (valid_pos_snoc 12 [Z.to_nat i1; Z.to_nat i2] (Z.to_nat i3) Hval) as [Hv2 _].
  pose proof (valid_pos_snoc 12 [Z.to_nat i1] (Z.to_nat i2) Hv2) as [Hv1 _].
  pose proof (node_prefix _ _ 12 [Z.to_nat i1; Z.to_nat i2] (Z.to_nat i3) Hn) as Hn2.
  pose proof (node_prefix _ _ 12 [Z.to_nat i1] (Z.to_nat i2) Hn2) as Hn1.
  eapply returns_bind_eq.
  { apply Hroot; [done|fsconst; lia|]. apply (node_prefix _ _ 12 [] _ Hn1). }
  rstep (entry_step f ip i H k 12 [] i1); try done. intros a f1 [Hu1 ->].
  rstep (entry_step f ip i H k 12 [Z.to_nat i1] i2); try done. intros a f2 [Hu2 ->].
  apply (entry_step f ip i H k 12 [Z.to_nat i1; Z.to_nat i2]); done.
Qed.

Lemma same_block off j m :
  0 <= off → 0 <= j < m → m <= BSIZE - off mod BSIZE →
  (off + j) / BSIZE = off / BSIZE ∧ (off + j) mod BSIZE = off mod BSIZE + j.
Proof. intros. fsconst. split; divlia. Qed.

(** The byte range of one turn. *)
Lemma chunk_bounds off tot n : 0 <= off → tot < n →
  let m := Z.min (n - tot) (BSIZE - off mod BSIZE) in
  0 < m ∧ m <= n - tot ∧ m <= BSIZE - off mod BSIZE ∧ 0 <= off mod BSIZE < BSIZE.
Proof. intros Hoff Ht m. unfold m. fsconst. divlia. Qed.

(** Reading one mapped block of the file. *)
Lemma read_file_block f ip i H k bn :
  fs_ok f → file_at f ip i → others f i H → ready (fs_store f) H k → (size H ≤ k)%nat →
  0 <= bn < MAXFILE → mapped (disk_of f) (i_addrs i) bn →
  returns (addr ← bmap ip bn; bp ← bread (i_dev i) addr; d ← data bp; brelse bp;; mret d) f
    (λ d f', unchanged f H k f' ∧ d = file_block (disk_of f) (i_addrs i) bn).
Proof.
  intros Hok Hf Ho Hr Hsz Hbn (q & Hq & Hn). pose proof Hf as [F1 F2 F3].
  destruct (bmap_path_some bn Hbn) as (q' & Hq' & [Hval _]). assert (q' = q) as -> by congruence.
  rstep bmap_present; [done..|]. intros a f1 [Hu ->]. rewrite F2.
  destruct (tr_data _ _ _ F3 q Hval Hn) as [Hpd Hpu].
  pose proof (unchanged_fs_ok _ _ _ _ Hok Hu) as Hok1. pose proof (unchanged_ready _ _ _ _ Hu) as Hr1.
  assert (fs_sb f1 = fs_sb f) as Hsb by (by destruct Hu as (? & -> & _)).
  assert (node (disk_of f) (i_addrs i) q ∉ H) as HnH.
  { intros Hc. destruct (Ho _ Hc) as (_ & _ & _ & Hx). by apply (Hx q). }
  rstep read_release; [done| |done|done|].
  { apply (ly_data_usable _ _ (fo_layout _ Hok1)). by rewrite Hsb. }
  intros bp f2 (s2 & -> & R2 & E2 & St2 & V2 & Ow2 & Ow2' & Fr).
  eapply returns_bind_eq; [by eapply data_spec|]. cbn [fs_store set_fs_store].
  rstep release_spec; [exact R2|exact Ow2|exact St2|done|exact E2|exact Ow2'|exact Fr|].
  intros _ f3 (s3 & -> & K3 & V3). apply returns_ret. split.
  - eapply unchanged_trans; [exact Hu|]. exists s3. split_and!; [done|done|].
    intros x. rewrite V3. apply V2.
  - unfold file_block, leaf_block. rewrite Hq. destruct (Z.eqb_spec (node (disk_of f) (i_addrs i) q) 0); [done|].
    rewrite V2. by destruct Hu as (s1 & -> & _ & V1).
Qed.

(** Bytes already read, and the rest. *)
Lemma byte_at_app (l1 l2 : list Z) (j : nat) :
  byte_at (l1 ++ l2) j = if decide (j < length l1)%nat then byte_at l1 j else byte_at l2 (j - length l1).
Proof.
  unfold byte_at. case_decide; [by rewrite lookup_app_l|by rewrite lookup_app_r by lia].
Qed.

Lemma file_block_ok v addrs bn : (∀ m, blk_ok (v m)) → blk_ok (file_block v addrs bn).
Proof.
  intros Hok. unfold file_block, leaf_block. destruct (bmap_path bn); [|apply zero_block_ok].
  destruct (_ =? 0); [apply zero_block_ok|apply Hok].
Qed.

Lemma readi_loop_spec fuel f ip i H k off tot n :
  fs_ok f → file_at f ip i → others f i H → ready (fs_store f) H k → (size H ≤ k)%nat →
  0 <= off → 0 <= tot <= n → (Z.to_nat (n - tot) ≤ fuel)%nat →
  off + (n - tot) <= MAXFILE * BSIZE →
  (∀ bn, 0 <= bn → bn * BSIZE < off + (n - tot) → mapped (disk_of f) (i_addrs i) bn) →
  returns (readi_loop fuel ip off tot n) f (λ bytes f', unchanged f H k f'
    ∧ Z.of_nat (length bytes) = n - tot
    ∧ ∀ j, 0 <= j < n - tot →
        byte_at bytes (Z.to_nat j) = file_byte (disk_of f) (i_addrs i) (off + j)).
Proof.
  intros Hok Hf Ho Hr Hsz. revert f off tot Hok Hf Ho Hr.
  induction fuel as [|fuel IH]; intros f off tot Hok Hf Ho Hr Hoff Htot Hfuel Hmax Hmap;
    cbn [readi_loop]; destruct (Z.ltb_spec tot n) as [Hlt|Hge]; try lia.
  all: try (apply returns_ret; split_and!; [by apply unchanged_refl|cbn; lia|lia]).
  pose proof (chunk_bounds off tot n Hoff Hlt) as (Hm0 & Hm1 & Hm2 & Hmod).
  set (m := Z.min (n - tot) (BSIZE - off mod BSIZE)) in *.
  eapply returns_bind_eq; [apply geti_eq, Hf|].
  assert (0 <= off / BSIZE < MAXFILE ∧ off / BSIZE * BSIZE < off + (n - tot)) as [Hbn Hb2].
  { fsconst. divlia. }
  pose proof (read_file_block f ip i H k (off / BSIZE) Hok Hf Ho Hr Hsz Hbn
    (Hmap _ (proj1 Hbn) Hb2)) as Hrd.
  apply returns_eq in Hrd as (d & f1 & Hrun & Hu & Hd).
  apply bind_inv in Hrun as (addr & g1 & H1 & Hrun). apply bind_inv in Hrun as (bp & g2 & H2 & Hrun).
  apply bind_inv in Hrun as (d' & g3 & H3 & Hrun). apply bind_inv in Hrun as ([] & g4 & H4 & Hrun).
  injection Hrun as -> ->.
  do 4 (eapply returns_bind_eq; [eassumption|]; cbv zeta).
  rstep (IH f1 (off + m) (tot + m)); [by eapply unchanged_fs_ok|by eapply unchanged_file
    |by eapply unchanged_others|by eapply unchanged_ready|lia|lia|lia|lia| |].
  { intros bn Hbn0 Hbn1. destruct Hu as (s1 & -> & _ & V). eapply mapped_ext; [exact V|].
    apply Hmap; lia. }
  intros rest f2 (Hu2 & Hlen & Hbytes). apply returns_ret.
  assert (length d = 512%nat) as Hdl.
  { rewrite Hd. destruct (file_block_ok (disk_of f) (i_addrs i) (off / BSIZE) (fo_blocks _ Hok)). done. }
  assert (length (get_bytes d (Z.to_nat (off mod BSIZE)) (Z.to_nat m)) = Z.to_nat m) as Hlp.
  { apply length_get_bytes. rewrite Hdl. fsconst. lia. }
  split_and!.
  - by eapply unchanged_trans.
  - rewrite length_app, Hlp. lia.
  - intros j Hj. rewrite byte_at_app, Hlp. case_decide as Hjm.
    + destruct (same_block off j m Hoff) as [Hq Hr']; [lia|lia|].
      rewrite byte_at_get_bytes by done. unfold file_byte. rewrite Hq, Hr', <-Hd. f_equal. lia.
    + replace (Z.to_nat j - Z.to_nat m)%nat with (Z.to_nat (j - m)) by lia.
      rewrite Hbytes by lia. destruct Hu as (s1 & -> & _ & V). unfold disk_of at 1. cbn.
      rewrite (file_byte_ext (disk_of f) (contents s1)) by done. f_equal. lia.
Qed.

(** [readi] of a regular file. *)
Lemma readi_spec (dr : Z → option (nat → Z → M (fsstate S) (Z * list Z))) f ip i H k off n :
  fs_ok f → file_at f ip i → others f i H → ready (fs_store f) H k → (size H ≤ k)%nat →
  i_type i ≠ T_DEV → 0 <= i_size i <= MAXFILE * BSIZE → dense (disk_of f) (i_addrs i) (i_size i) →
  0 <= off <= i_size i → 0 <= n → off + n < 2 ^ 32 →
  returns (readi dr ip off n) f (λ '(r, bytes) f', unchanged f H k f'
    ∧ r = Z.min n (i_size i - off) ∧ Z.of_nat (length bytes) = r
    ∧ ∀ j, 0 <= j < r →
        byte_at bytes (Z.to_nat j) = file_byte (disk_of f) (i_addrs i) (off + j)).
Proof.
  intros Hok Hf Ho Hr Hsz Hty Hsize Hd Hoff Hn Hov. unfold readi.
  eapply returns_bind_eq; [apply geti_eq, Hf|].
  destruct (Z.eqb_spec (i_type i) T_DEV); [done|].
  destruct (Z.ltb_spec (i_size i) off); [lia|].
  rewrite u32_id by (unfold is_u32; lia). destruct (Z.ltb_spec (off + n) off); [lia|]. cbn [orb].
  cbv zeta. set (n' := if i_size i <? off + n then i_size i - off else n).
  assert (n' = Z.min n (i_size i - off)) as Hn' by (unfold n'; destruct (Z.ltb_spec (i_size i) (off + n)); lia).
  rstep (readi_loop_spec (Z.to_nat n') f ip i H k off 0 n'); [done..|lia|lia|lia|lia| |].
  { intros bn Hb0 Hb1. apply Hd; lia. }
  intros bytes f' (Hu & Hlen & Hb). apply returns_ret. split_and!; [done|done|lia|].
  intros j Hj. apply Hb. lia.
Qed.
End content.
