(* ===== verification/FsWrite.v ===== *)
(** * writei and iupdate *)
From S2P Require Import Prelude Params Block Bio BioInv Log Store Str Fs FsAlloc FsTree FsMap FsContent.

(** ** A write to a data block *)
Section leaf_write.
Implicit Types (v : Z → block) (addrs : list Z).

(** Disks that agree on the index blocks have the same tree. *)
Lemma node_agree v v' addrs q :
  valid_pos q →
  (∀ j p i, valid_pos (j, p ++ [i]) → node v addrs (j, p) ≠ 0 →
     v' (node v addrs (j, p)) = v (node v addrs (j, p))) →
  node v' addrs q = node v addrs q.
Proof.
  intros Hq Hag. destruct q as [j p]. induction p as [|i p IH] using rev_ind; [done|].
  pose proof (valid_pos_snoc j p i Hq) as [Hp _]. rewrite !node_snoc, IH by done.
  destruct (Z.eqb_spec (node v addrs (j, p)) 0) as [|Hn]; [done|]. by rewrite (Hag j p i).
Qed.

(** A leaf is not an index block. *)
Lemma leaf_not_index sb v addrs q j p i :
  tree_wf sb v addrs → leaf_pos q → node v addrs q ≠ 0 → valid_pos (j, p ++ [i]) →
  node v addrs (j, p) ≠ node v addrs q.
Proof.
  intros Hw [Hq Hlf] Hn Hv Heq. pose proof (valid_pos_snoc j p i Hv) as [Hp _].
  symmetry in Heq. apply (tr_inj sb v addrs Hw) in Heq as ->; [|done..].
  destruct Hv as (_ & Hle & _). cbn in *. rewrite length_app in Hle. cbn in Hle. lia.
Qed.

Lemma leaf_write {S} `{!BlockStore S, !BlockStoreSpec S} sb (s : S) v v' addrs q d :
  layout sb s → tree_wf sb v addrs → meta_used sb v → leaf_pos q → node v addrs q ≠ 0 →
  (∀ x, v' x = if decide (x = node v addrs q) then d else v x) →
  changes sb (λ r, r = q) (λ _, False) v addrs v' addrs ∧ leaf_block v' addrs q = d
  ∧ node v' addrs q = node v addrs q ∧ (∀ n, 0 <= n < sb_size sb → used sb v' n = used sb v n).
Proof.
  intros Hl Hw Hm Hq Hn Hv'. pose proof Hq as [Hqv _].
  destruct (tr_data sb v addrs Hw q Hqv Hn) as [Hd Hu].
  assert (∀ r, valid_pos r → node v' addrs r = node v addrs r) as Hnode.
  { intros r Hr. apply node_agree; [done|]. intros j p i Hv Hp. rewrite Hv', decide_False; [done|].
    by eapply leaf_not_index. }
  assert (∀ n, 0 <= n < sb_size sb → used sb v' n = used sb v n) as Hused.
  { intros n Hr. unfold used. rewrite Hv', decide_False; [done|]. intros Hc.
    destruct (BBLOCK_eq sb s n Hl Hr) as [_ [_ Hb]]. rewrite Hc in Hb. lia. }
  assert (0 <= datastart sb <= sb_size sb) as Hds.
  { pose proof (ly_bmap sb s Hl). pose proof (ly_data sb s Hl). unfold datastart in *. lia. }
  split_and!; [split|..].
  - split; [apply Hw|..].
    + intros r Hr. rewrite Hnode by done. intros Hr0.
      destruct (tr_data sb v addrs Hw r Hr Hr0) as [? ?]. split; [done|]. by rewrite Hused by lia.
    + intros r t Hr Ht. rewrite !Hnode by done. by apply (tr_inj sb v addrs Hw).
  - intros n Hr. rewrite Hused by lia. by apply Hm.
  - intros r Hr _. by apply Hnode.
  - intros r Hr _. left. by apply Hnode.
  - intros r Hr Hne. unfold leaf_block. rewrite Hnode by apply Hr.
    destruct (Z.eqb_spec (node v addrs r) 0); [done|]. rewrite Hv', decide_False; [done|].
    intros Hc. apply Hne. apply (tr_inj sb v addrs Hw); [apply Hr|done..].
  - intros n Hr. by rewrite Hused.
  - intros n (_ & _ & _ & Hf). rewrite Hv', decide_False; [done|]. intros ->. by apply (Hf q).
  - intros r Hr. by rewrite Hnode.
  - intros n Hr. rewrite Hused by done. by left.
  - unfold leaf_block. rewrite Hnode by done. destruct (Z.eqb_spec (node v addrs q) 0); [done|].
    by rewrite Hv', decide_True.
  - by apply Hnode.
  - done.
Qed.
End leaf_write.

Section write.
Context {S : Type} `{!BlockStore S, !BlockStoreSpec S}.
Implicit Types (f : fsstate S) (s : S).

(** The body of the loop of [writei]. *)
Lemma write_file_block f ip i H k bn q (g : block → block) :
  fs_ok f → file_at f ip i → others f i H → ready (fs_store f) H (12 + k) →
  (size H ≤ 1 + k)%nat → 0 <= bn → bmap_path bn = Some q →
  (4 ≤ nfree (fs_sb f) (disk_of f))%nat → (∀ d, blk_ok d → blk_ok (g d)) →
  returns (addr ← bmap ip bn; bp ← bread (i_dev i) addr; d ← data bp;
           set_data bp (g d);; log_write bp;; brelse bp) f (λ _ f',
    modified f ip i H k 4 (λ r, r = q) (on_path q) f'
    ∧ ∀ i', fs_icache f' !! ip = Some i' →
        leaf_block (disk_of f') (i_addrs i') q = g (leaf_block (disk_of f) (i_addrs i) q)
        ∧ node (disk_of f') (i_addrs i') q ≠ 0).
Proof.
  intros Hok Hf Ho Hr Hsz Hbn Hq Hfree Hg. pose proof Hf as [F1 F2 F3].
  destruct (bmap_path_leaf bn q Hbn Hq) as [_ Hleaf].
  rstep (bmap_spec f ip i H (1 + k) bn q); [done..|lia|done|done|done|].
  intros a f1 (Hgr & Ha & Hnode).
  destruct (modified_file _ _ _ _ _ _ _ _ _ Hok Hf Hgr)
    as (a1 & s1 & Hf1 & Hok1 & Hfile1 & Ho1 & Hr1 & Hext).
  pose proof (fa_slot _ _ _ Hfile1) as Hi1. specialize (Hnode _ Hi1). specialize (Ho1 Ho).
  set (i1 := set_i_addrs a1 i) in *. pose proof (fa_tree _ _ _ Hfile1) as T1.
  assert (node (disk_of f1) (i_addrs i1) q ≠ 0) as Hn1 by (by rewrite Hnode).
  destruct (tr_data _ _ _ T1 q (proj1 Hleaf) Hn1) as [Hd1 _]. rewrite Hnode in Hd1.
  assert (a ∉ H) as HaH.
  { intros Hc. destruct (Ho1 _ Hc) as (_ & _ & _ & Hx). apply (Hx q); [apply Hleaf|done|done]. }
  assert (usable (fs_store f1) a) as Hau by (by apply (ly_data_usable _ _ (fo_layout _ Hok1))).
  rewrite F2. pose proof (fo_blocks _ Hok1 a) as Hoka.
  rstep (update_spec f1 H k a g (λ bp d, put_back bp (g d))); [done..|lia|by apply Hg|done|].
  intros _ f2 (s2 & -> & K2 & V2). fold (disk_of f1 a) in V2.
  destruct (leaf_write (fs_sb f1) (fs_store f1) (disk_of f1) (contents s2) (i_addrs i1) q
    (g (disk_of f1 a)) (fo_layout _ Hok1) T1 (fo_meta _ Hok1) Hleaf Hn1) as (Hch & Hlf & Hnd & Hus).
  { intros x. by rewrite V2, Hnode. }
  assert (modified f1 ip i1 H k 0 (λ r, r = q) (λ _, False) (set_fs_store s2 f1)) as Hm2.
  { exists (i_addrs i1), s2. split_and!; [by rewrite with_addrs_same|done|done|].
    rewrite (nfree_ext _ (contents s2) (disk_of f1)); [lia|done]. }
  split.
  - eapply modified_weaken; [eapply modified_trans; [done|exact F1|exact Hgr|exact Hi1|exact Hm2]|lia|lia| |];
      cbn; tauto.
  - intros i' Hi'. assert (i' = i1) as -> by (cbn in Hi'; congruence).
    change (disk_of (set_fs_store s2 f1)) with (contents s2).
    split; [|by rewrite Hnd]. rewrite Hlf. f_equal.
    pose proof (ex_leaf _ _ _ _ _ _ _ Hext q Hleaf ltac:(tauto)) as Hx.
    rewrite <-Hx. unfold leaf_block. change a1 with (i_addrs i1). rewrite Hnode.
    by destruct (Z.eqb_spec a 0).
Qed.

(** ** The loop of writei *)

(** The file's content after [src] is written at [off]. *)
Definition written (v v' : Z → block) (a a' : list Z) (off len : Z) (src : list Z) : Prop :=
  ∀ x, 0 <= x < MAXFILE * BSIZE → file_byte v' a' x
    = if decide (off <= x < off + len) then byte_at src (Z.to_nat (x - off)) else file_byte v a x.

(** The data blocks that a write of [len] bytes at [off] touches. *)
Definition touched (off len : Z) (q : pos) : Prop :=
  ∃ bn, 0 <= bn ∧ off < (bn + 1) * BSIZE ∧ bn * BSIZE < off + len ∧ bmap_path bn = Some q.

(** The data blocks a write touches and the index blocks above them. *)
Definition above (off len : Z) (r : pos) : Prop := ∃ q, touched off len q ∧ on_path q r.

(** [len] bytes were written at [off], and the blocks written are there. *)
Definition stored f ip i H k n off len src f' : Prop :=
  modified f ip i H k n (touched off len) (above off len) f'
  ∧ ∀ i', fs_icache f' !! ip = Some i' →
      written (disk_of f) (disk_of f') (i_addrs i) (i_addrs i') off len src
      ∧ ∀ bn, 0 < len → 0 <= bn → off < (bn + 1) * BSIZE → bn * BSIZE < off + len →
          mapped (disk_of f') (i_addrs i') bn.

(** One turn of the loop stores one chunk. *)
Lemma store_chunk f ip i H k off m (src : list Z) :
  fs_ok f → file_at f ip i → others f i H → ready (fs_store f) H (12 + k) →
  (size H ≤ 1 + k)%nat → 0 <= off → 0 < m <= BSIZE - off mod BSIZE →
  off + m <= MAXFILE * BSIZE → (4 ≤ nfree (fs_sb f) (disk_of f))%nat →
  bytes_ok src → Z.of_nat (length src) = m →
  returns (addr ← bmap ip (off / BSIZE); bp ← bread (i_dev i) addr; d ← data bp;
           set_data bp (put_bytes d (Z.to_nat (off mod BSIZE)) src);; log_write bp;; brelse bp) f
    (λ _, stored f ip i H k 4 off m src).
Proof.
  intros Hok Hf Ho Hr Hsz Hoff Hm Hmax Hfree Hsrc Hlen.
  assert (0 <= off / BSIZE < MAXFILE ∧ 0 <= off mod BSIZE < BSIZE) as [Hbn Hmod] by (fsconst; divlia).
  destruct (bmap_path_some _ Hbn) as (q & Hq & Hleaf).
  assert (∀ d, blk_ok d → blk_ok (put_bytes d (Z.to_nat (off mod BSIZE)) src)) as Hg.
  { intros d [H1 H2]. split; [by rewrite length_put_bytes|by apply put_bytes_ok]. }
  eapply returns_mono.
  { apply (write_file_block f ip i H k (off / BSIZE) q
      (λ d, put_bytes d (Z.to_nat (off mod BSIZE)) src)); try done; lia. }
  intros _ f' [Hmf Hleafs]. pose proof Hmf as (a1 & s1 & Hf1 & _ & Hch & _).
  assert (∀ bn, 0 <= bn → off < (bn + 1) * BSIZE → bn * BSIZE < off + m → bn = off / BSIZE) as Hone.
  { intros bn. fsconst. divlia. }
  split.
  - assert (touched off m q) as Ht
      by (exists (off / BSIZE); split_and!; [lia|fsconst; divlia|fsconst; divlia|done]).
    eapply modified_weaken; [exact Hmf|lia|lia|by intros r ->|]. intros r Hp. by exists q.
  - intros i' Hi'. destruct (Hleafs i' Hi') as [Hlf Hnz]. split.
    + assert (i' = set_i_addrs a1 i) as ->.
      { rewrite Hf1 in Hi'. cbn in Hi'. rewrite list_lookup_insert_eq in Hi'; [by simplify_eq|].
        eapply lookup_lt_Some, Hf. }
      intros x Hx. unfold file_byte, file_block.
      destruct (bmap_path_some (x / BSIZE)) as (r & Hr' & Hleafr); [fsconst; divlia|]. rewrite Hr'.
      destruct (decide (x / BSIZE = off / BSIZE)) as [Hsame|Hdiff].
      * assert (r = q) as -> by congruence. rewrite Hlf, byte_at_put_bytes.
        2:{ destruct (file_block_ok (disk_of f) (i_addrs i) (off / BSIZE) (fo_blocks _ Hok)) as [Hl _].
            unfold file_block in Hl. rewrite Hq in Hl. rewrite Hl. fsconst. lia. }
        repeat case_decide; try done; try (exfalso; fsconst; divlia). f_equal. fsconst. divlia.
      * rewrite decide_False by (fsconst; divlia).
        assert (r ≠ q) as Hrq.
        { intros ->. apply Hdiff. eapply bmap_path_inj; [| |exact Hr'|exact Hq]; fsconst; divlia. }
        rewrite Hf1. unfold disk_of at 1. cbn [fs_store with_addrs set_fs_icache set_fs_store i_addrs set_i_addrs].
        by rewrite (ex_leaf _ _ _ _ _ _ _ Hch r Hleafr Hrq).
    + intros bn _ H0 H1 H2. rewrite (Hone bn H0 H1 H2). by exists q.
Qed.

Lemma stored_refl f ip i H k off src :
  fs_ok f → file_at f ip i → ready (fs_store f) H k → 0 <= off → stored f ip i H k 0 off 0 src f.
Proof.
  intros Hok Hf Hr Hoff. split.
  - eapply modified_weaken; [by apply (grown_refl f ip i H k (λ _, False))|done|done|by intros ? []|by intros ? []].
  - intros i' Hi'. assert (i' = i) as -> by (destruct Hf; congruence). split.
    + intros x Hx. by rewrite decide_False by lia.
    + intros bn ?. lia.
Qed.

(** A mapped block stays mapped. *)
Lemma mapped_modified f ip i H k n L G f' i' bn :
  0 <= bn → fs_icache f !! ip = Some i → modified f ip i H k n L G f' → fs_icache f' !! ip = Some i' →
  mapped (disk_of f) (i_addrs i) bn → mapped (disk_of f') (i_addrs i') bn.
Proof.
  intros Hbn Hi (a & s & -> & _ & Hch & _) Hi' (q & Hq & Hn). exists q. split; [done|].
  cbn in Hi'. rewrite list_lookup_insert_eq in Hi' by (by eapply lookup_lt_Some). simplify_eq.
  destruct (bmap_path_leaf bn q Hbn Hq) as [_ [Hv _]].
  change (disk_of (with_addrs f ip i a s)) with (contents s). cbn [i_addrs set_i_addrs].
  by rewrite (ex_node _ _ _ _ _ _ _ Hch q Hv Hn).
Qed.

Lemma touched_mono off len off' len' q :
  off' <= off → off + len <= off' + len' → touched off len q → touched off' len' q.
Proof. intros H1 H2 (bn & ?&?&?&?). exists bn. split_and!; try done; lia. Qed.

Lemma stored_trans f ip i H k1 n1 off m src f1 i1 k2 n2 len f2 :
  fs_ok f → file_at f ip i → 0 <= off → 0 <= m → 0 <= len →
  Z.of_nat (length (take (Z.to_nat m) src)) = m →
  stored f ip i H k1 n1 off m (take (Z.to_nat m) src) f1 → fs_icache f1 !! ip = Some i1 →
  stored f1 ip i1 H k2 n2 (off + m) len (drop (Z.to_nat m) src) f2 →
  stored f ip i H k2 (n1 + n2) off (m + len) src f2.
Proof.
  intros Hok Hf Hoff Hm Hlen Hl [A1 A2] Hi1 [B1 B2]. destruct (A2 _ Hi1) as [Aw Am].
  split.
  - eapply modified_weaken; [eapply modified_trans; [done|apply Hf|exact A1|exact Hi1|exact B1]|done|done| |].
    + intros q [Hq|Hq]; eapply touched_mono; try exact Hq; lia.
    + intros r [(q & Hq & Hr)|(q & Hq & Hr)]; exists q; (split; [|done]); eapply touched_mono; try exact Hq; lia.
  - intros i' Hi'. destruct (B2 _ Hi') as [Bw Bm]. split.
    + intros x Hx. rewrite Bw, Aw by done. unfold byte_at. rewrite length_take in Hl.
      repeat case_decide; try lia; try done.
      * rewrite lookup_drop. do 2 f_equal. lia.
      * rewrite lookup_take_lt by lia. done.
    + intros bn Hpos H0 H1 H2.
      destruct (decide (0 < m ∧ bn * BSIZE < off + m)) as [[Hm0 Hlt]|Hge].
      * eapply mapped_modified; [done|exact Hi1|exact B1|done|by apply Am].
      * apply Bm; fsconst; lia.
Qed.

Lemma bytes_ok_take n src : bytes_ok src → bytes_ok (take n src).
Proof. apply Forall_take. Qed.
Lemma bytes_ok_drop n src : bytes_ok src → bytes_ok (drop n src).
Proof. apply Forall_drop. Qed.

(** [N] blocks from the first one cover the write. *)
Lemma writei_loop_spec fuel f ip i H k N off tot n src :
  fs_ok f → file_at f ip i → others f i H → ready (fs_store f) H (12 * N + k) →
  (size H ≤ 1 + k)%nat → 0 <= off → 0 <= tot <= n → (Z.to_nat (n - tot) ≤ fuel)%nat →
  off + (n - tot) <= MAXFILE * BSIZE →
  (tot < n → off + (n - tot) <= (off / BSIZE + Z.of_nat N) * BSIZE) →
  (4 * N ≤ nfree (fs_sb f) (disk_of f))%nat → bytes_ok src → n - tot <= Z.of_nat (length src) →
  returns (writei_loop fuel ip src off tot n) f (λ off' f',
    off' = off + (n - tot) ∧ stored f ip i H k (4 * N) off (n - tot) src f').
Proof.
  intros Hok Hf Ho Hr Hsz. revert f i N off tot src Hok Hf Ho Hr.
  induction fuel as [|fuel IH]; intros f i N off tot src Hok Hf Ho Hr Hoff Htot Hfuel Hmax Hcov Hfree
    Hsrc Hlen; cbn [writei_loop]; destruct (Z.ltb_spec tot n) as [Hlt|Hge]; try lia.
  all: try (apply returns_ret; split; [lia|];
    replace (n - tot) with 0 by lia; destruct (stored_refl f ip i H k off src) as [Hs1 Hs2];
    [done|done|by eapply ready_weaken; [exact Hr|lia]|done|];
    split; [eapply modified_weaken; [exact Hs1|lia|lia|done|done]|done]).
  specialize (Hcov Hlt). pose proof (chunk_bounds off tot n Hoff Hlt) as (Hm0 & Hm1 & Hm2 & Hmod).
  set (m := Z.min (n - tot) (BSIZE - off mod BSIZE)) in *.
  destruct N as [|N]; [fsconst; divlia|].
  eapply returns_bind_eq; [apply geti_eq, Hf|].
  assert (Z.of_nat (length (take (Z.to_nat m) src)) = m) as Hltk by (rewrite length_take; lia).
  pose proof (store_chunk f ip i H (12 * N + k) off m (take (Z.to_nat m) src) Hok Hf Ho) as Hch.
  assert (12 * Datatypes.S N + k = 12 + (12 * N + k))%nat as Hk by lia. rewrite Hk in Hr.
  specialize (Hch Hr ltac:(lia) Hoff ltac:(lia) ltac:(lia) ltac:(lia)
    (bytes_ok_take _ _ Hsrc) Hltk).
  apply returns_eq in Hch as ([] & f1 & Hrun & Hst).
  apply bind_inv in Hrun as (addr & g1 & R1 & Hrun). apply bind_inv in Hrun as (bp & g2 & R2 & Hrun).
  apply bind_inv in Hrun as (d & g3 & R3 & Hrun). apply bind_inv in Hrun as ([] & g4 & R4 & Hrun).
  apply bind_inv in Hrun as ([] & g5 & R5 & R6).
  do 6 (eapply returns_bind_eq; [eassumption|]; cbv zeta).
  pose proof Hst as [Hmf _].
  destruct (modified_file _ _ _ _ _ _ _ _ _ Hok Hf Hmf) as (a1 & s1 & Hf1 & Hok1 & Hfile1 & Ho1 & Hr1 & _).
  rstep (IH f1 (set_i_addrs a1 i) N (off + m) (tot + m) (drop (Z.to_nat m) src));
    [done|done|by apply Ho1|done|lia|lia|lia|lia| | |by apply bytes_ok_drop|rewrite length_drop; lia|].
  { intros Hlt2. fsconst. divlia. }
  { destruct Hmf as (a2 & s2 & -> & _ & _ & Hn). cbn in *. unfold disk_of in *. cbn in *. lia. }
  intros off' f2 [-> Hst2]. split; [lia|].
  replace (n - tot) with (m + (n - (tot + m))) by lia. replace (4 * Datatypes.S N)%nat with (4 + 4 * N)%nat by lia.
  eapply stored_trans; [done|done|lia|lia|lia|done|exact Hst|apply Hfile1|exact Hst2].
Qed.
End write.
