(* ===== verification/FsInode.v ===== *)
(** * Inodes on disk: the dinode encoding, iupdate, ilock, writei *)
From S2P Require Import Prelude Params Block Bio BioInv Log Store Str Fs FsAlloc FsTree FsMap.
From S2P Require Import FsContent FsWrite.

(** ** The encoding of an inode in its block *)
Section dinode.
Implicit Types (d : block) (k : nat) (ip : inode).

Lemma put_addrs_snoc d k l a :
  put_addrs d k (l ++ [a]) = put_word (put_addrs d k l) (dinode_word k (3 + length l)) a.
Proof.
  unfold put_addrs. rewrite imap_app, foldl_app. cbn -[Nat.add].
  by replace (length l + 0)%nat with (length l) by lia.
Qed.

Lemma length_put_addrs d k l : length (put_addrs d k l) = length d.
Proof.
  induction l as [|a l IH] using rev_ind; [done|]. by rewrite put_addrs_snoc, length_put_word.
Qed.

Lemma put_addrs_bytes d k l : bytes_ok d → bytes_ok (put_addrs d k l).
Proof.
  intros Hd. induction l as [|a l IH] using rev_ind; [done|].
  rewrite put_addrs_snoc. by apply put_word_bytes.
Qed.

Lemma byte_at_put_addrs d k l (j : nat) :
  (j < 4 * dinode_word k 3 ∨ 4 * dinode_word k (3 + length l) ≤ j)%nat →
  byte_at (put_addrs d k l) j = byte_at d j.
Proof.
  unfold dinode_word. induction l as [|a l IH] using rev_ind; intros Hj; [done|].
  rewrite put_addrs_snoc, length_app in *. cbn in Hj. unfold dinode_word.
  rewrite byte_at_put_word_ne by lia. apply IH. lia.
Qed.

Lemma get_put_addrs d k l (j : nat) :
  length d = 512%nat → (k < 8)%nat → (length l ≤ 13)%nat → (j < length l)%nat →
  get_word (put_addrs d k l) (dinode_word k (3 + j)) = u32 (l !!! j).
Proof.
  intros Hd Hk. induction l as [|a l IH] using rev_ind; intros Hl Hj; [cbn in Hj; lia|].
  rewrite length_app in *. cbn in *. rewrite put_addrs_snoc.
  destruct (decide (j = length l)) as [->|Hne].
  - rewrite get_put_word_eq by (rewrite length_put_addrs, Hd; unfold dinode_word; lia).
    rewrite lookup_total_app_r by lia. by rewrite Nat.sub_diag.
  - rewrite get_put_word_ne by (unfold dinode_word; lia). rewrite IH by lia.
    by rewrite lookup_total_app_l by lia.
Qed.

Lemma put_dinode_ok d k ip : blk_ok d → blk_ok (put_dinode d k ip).
Proof.
  intros [Hl Hb]. unfold put_dinode. split.
  - by rewrite length_put_addrs, length_put_word, !length_put_half.
  - by apply put_addrs_bytes, put_word_bytes, put_half_bytes, put_half_bytes, put_half_bytes, put_half_bytes.
Qed.

(** The other dinodes of the block keep their bytes. *)
Lemma byte_at_put_dinode d k ip (j : nat) :
  (length (i_addrs ip) ≤ 13)%nat → (j < 64 * k ∨ 64 * k + 64 ≤ j)%nat →
  byte_at (put_dinode d k ip) j = byte_at d j.
Proof.
  intros Hl Hj. unfold put_dinode. rewrite byte_at_put_addrs by (unfold dinode_word; lia).
  rewrite byte_at_put_word_ne by (unfold dinode_word; lia).
  by rewrite !byte_at_put_half_ne by (unfold dinode_half; lia).
Qed.

Lemma get_half_byte d d' i : (∀ j, (2 * i ≤ j ≤ 2 * i + 1)%nat → byte_at d' j = byte_at d j) →
  get_half d' i = get_half d i.
Proof. intros H. Transparent get_half. unfold get_half. by rewrite !H by lia. Qed.

Lemma get_word_byte d d' i : (∀ j, (4 * i ≤ j ≤ 4 * i + 3)%nat → byte_at d' j = byte_at d j) →
  get_word d' i = get_word d i.
Proof. intros H. Transparent get_word. unfold get_word. by rewrite !H by lia. Qed.

Lemma get_dinode_other d k k' ip ip' :
  (length (i_addrs ip) ≤ 13)%nat → k ≠ k' → get_dinode (put_dinode d k ip) k' ip' = get_dinode d k' ip'.
Proof.
  intros Hl Hne. unfold get_dinode, dip_type.
  assert (∀ j, (j < 32)%nat →
    get_half (put_dinode d k ip) (dinode_half k' j) = get_half d (dinode_half k' j)) as Hh.
  { intros j Hj. apply get_half_byte. intros x Hx. apply byte_at_put_dinode; [done|].
    unfold dinode_half in Hx. lia. }
  assert (∀ j, (j < 16)%nat →
    get_word (put_dinode d k ip) (dinode_word k' j) = get_word d (dinode_word k' j)) as Hw.
  { intros j Hj. apply get_word_byte. intros x Hx. apply byte_at_put_dinode; [done|].
    unfold dinode_word in Hx. lia. }
  rewrite !Hh, Hw by lia. f_equal. apply list_fmap_ext. intros n j Hj.
  apply lookup_seq in Hj as [-> Hj]. apply Hw. fsconst. lia.
Qed.

(** The fields of an inode fit their types. *)
Record inode_fits (ip : inode) : Prop := {
  ft_type : - 2 ^ 15 <= i_type ip < 2 ^ 15;
  ft_major : - 2 ^ 15 <= i_major ip < 2 ^ 15;
  ft_minor : - 2 ^ 15 <= i_minor ip < 2 ^ 15;
  ft_nlink : - 2 ^ 15 <= i_nlink ip < 2 ^ 15;
  ft_size : is_u32 (i_size ip);
  ft_addrs : Forall is_u32 (i_addrs ip);
  ft_len : length (i_addrs ip) = 13%nat;
}.

(** The part of an inode that is kept on disk. *)
Definition same_dinode (a b : inode) : Prop :=
  i_type a = i_type b ∧ i_major a = i_major b ∧ i_minor a = i_minor b ∧ i_nlink a = i_nlink b
  ∧ i_size a = i_size b ∧ i_addrs a = i_addrs b.

Lemma dinode_roundtrip d k ip ip' :
  length d = 512%nat → (k < 8)%nat → inode_fits ip →
  same_dinode (get_dinode (put_dinode d k ip) k ip') ip.
Proof.
  intros Hd Hk [T1 T2 T3 T4 T5 T6 T7].
  assert (∀ j, (j < 4)%nat → get_half (put_dinode d k ip) (dinode_half k j)
    = get_half (put_half (put_half (put_half (put_half d (dinode_half k 0) (i_type ip))
        (dinode_half k 1) (i_major ip)) (dinode_half k 2) (i_minor ip))
        (dinode_half k 3) (i_nlink ip)) (dinode_half k j)) as Hh.
  { intros j Hj. unfold put_dinode. erewrite get_half_byte.
    2:{ intros x Hx. apply byte_at_put_addrs. unfold dinode_half, dinode_word in *. lia. }
    apply get_half_put_word. unfold dinode_half, dinode_word. lia. }
  assert (∀ j, length (put_half (put_half (put_half d (dinode_half k 0) (i_type ip))
     (dinode_half k 1) (i_major ip)) j (i_minor ip)) = 512%nat) as Hlen3
    by (intros; by rewrite !length_put_half).
  unfold same_dinode, get_dinode, dip_type.
  cbn [i_type i_major i_minor i_nlink i_size i_addrs set_i_type set_i_major set_i_minor
    set_i_nlink set_i_size set_i_addrs]. rewrite !Hh by lia.
  split_and!.
  - rewrite !get_put_half_ne by (unfold dinode_half; lia).
    rewrite get_put_half_eq by (unfold dinode_half; lia). by apply s16_mod.
  - rewrite !get_put_half_ne by (unfold dinode_half; lia).
    rewrite get_put_half_eq by (rewrite ?length_put_half; unfold dinode_half; lia). by apply s16_mod.
  - rewrite !get_put_half_ne by (unfold dinode_half; lia).
    rewrite get_put_half_eq by (rewrite ?length_put_half; unfold dinode_half; lia). by apply s16_mod.
  - rewrite get_put_half_eq by (rewrite ?length_put_half; unfold dinode_half; lia). by apply s16_mod.
  - unfold put_dinode. erewrite get_word_byte.
    2:{ intros x Hx. apply byte_at_put_addrs. unfold dinode_word in *. lia. }
    rewrite get_put_word_eq by (rewrite ?length_put_half; unfold dinode_word; lia). by apply u32_id.
  - apply list_eq. intros n. rewrite list_lookup_fmap.
    destruct (decide (n < 13)%nat) as [Hn|Hn].
    + rewrite lookup_seq_lt by (fsconst; lia). cbn [fmap option_fmap option_map].
      replace (0 + n)%nat with n by lia.
      unfold put_dinode. rewrite get_put_addrs by (rewrite ?length_put_word, ?length_put_half; lia).
      destruct (lookup_lt_is_Some_2 (i_addrs ip) n) as [a Ha]; [lia|].
      rewrite Ha, (list_lookup_total_correct _ _ _ Ha). f_equal. apply u32_id.
      by apply (Forall_lookup_1 _ _ _ _ T6 Ha).
    + rewrite lookup_seq_ge by (fsconst; lia). symmetry. apply lookup_ge_None. lia.
Qed.
End dinode.

#[global] Opaque get_word get_half.

(** ** A write to a block of inodes *)
Section meta_write.
Context {S : Type} `{!BlockStore S, !BlockStoreSpec S}.
Context (sb : superblock) (s : S) (v v' : Z → block) (n : Z).
Hypothesis Hl : layout sb s.
Hypothesis Hn : n < sb_bmapstart sb.
Hypothesis Hv : ∀ x, x ≠ n → v' x = v x.

Lemma meta_write_used x : 0 <= x < sb_size sb → used sb v' x = used sb v x.
Proof using All.
  intros Hx. unfold used. rewrite Hv; [done|]. intros Hc.
  destruct (BBLOCK_eq sb s x Hl Hx) as [_ [Hb _]]. lia.
Qed.

Lemma meta_write_node addrs q : tree_wf sb v addrs → valid_pos q → node v' addrs q = node v addrs q.
Proof using All.
  intros Hw Hq. apply node_agree; [done|]. intros j p i Hvp Hp. apply Hv. intros Hc.
  destruct (tr_data sb v addrs Hw (j, p)) as [Hd _]; [by apply (valid_pos_snoc j p i)|done|].
  unfold datastart in Hd. lia.
Qed.

Lemma meta_write_tree addrs : tree_wf sb v addrs → tree_wf sb v' addrs.
Proof using All.
  intros Hw. pose proof (ly_bmap sb s Hl) as Hb. split; [apply Hw|..].
  - intros q Hq. rewrite meta_write_node by done. intros Hq0.
    destruct (tr_data sb v addrs Hw q Hq Hq0) as [Hd Hu]. split; [done|].
    rewrite meta_write_used; [done|]. unfold datastart in Hd. lia.
  - intros q r Hq Hr. rewrite !meta_write_node by done. by apply (tr_inj sb v addrs Hw).
Qed.

Lemma meta_write_meta : meta_used sb v → meta_used sb v'.
Proof using All.
  intros Hm x Hx. pose proof (ly_data sb s Hl). rewrite meta_write_used by lia. by apply Hm.
Qed.

Lemma meta_write_byte addrs x : tree_wf sb v addrs → 0 <= x →
  file_byte v' addrs x = file_byte v addrs x.
Proof using All.
  intros Hw Hx. unfold file_byte, file_block. destruct (bmap_path _) as [q|] eqn:Hq; [|done].
  destruct (bmap_path_leaf (x / BSIZE) q ltac:(fsconst; divlia) Hq) as [_ [Hvq _]].
  unfold leaf_block. rewrite meta_write_node by done.
  destruct (Z.eqb_spec (node v addrs q) 0) as [|Hq0]; [done|]. rewrite Hv; [done|]. intros Hc.
  destruct (tr_data sb v addrs Hw q Hvq Hq0) as [Hd _]. unfold datastart in Hd. lia.
Qed.

Lemma meta_write_mapped addrs bn : tree_wf sb v addrs → 0 <= bn →
  mapped v addrs bn → mapped v' addrs bn.
Proof using All.
  intros Hw Hbn (q & Hq & Hq0). exists q. split; [done|].
  destruct (bmap_path_leaf bn q Hbn Hq) as [_ [Hvq _]]. by rewrite meta_write_node.
Qed.

Lemma meta_write_allocates G v0 addrs addrs' : tree_wf sb v addrs' →
  allocates sb G v0 addrs v addrs' → allocates sb G v0 addrs v' addrs'.
Proof using All.
  intros Hw (A1 & A2 & A3). split_and!.
  - intros q Hq. rewrite meta_write_node by done. by apply A1.
  - intros q Hq. rewrite meta_write_node by done. by apply A2.
  - intros x Hx. rewrite meta_write_used, A3 by done. do 2 f_equiv.
    split; intros (q & Hq & H0 & He); exists q; by rewrite meta_write_node in *.
Qed.

Lemma meta_write_foreign addrs x : tree_wf sb v addrs → foreign sb v addrs x → foreign sb v' addrs x.
Proof using All.
  intros Hw (F1 & F2 & F3 & F4). split_and!; [lia|lia|done|by rewrite meta_write_used|].
  intros q Hq. rewrite meta_write_node by done. by apply F4.
Qed.
End meta_write.

Section inode_ops.
Context {S : Type} `{!BlockStore S, !BlockStoreSpec S}.
Implicit Types (f : fsstate S) (s : S).

(** The number of an inode and the block it lies in. *)
Definition inum_ok f (i : inode) (H : gset Z) : Prop :=
  0 <= i_inum i < sb_ninodes (fs_sb f) ∧ IBLOCK (i_inum i) (fs_sb f) ∉ H.

Definition dinode_slot (i : inode) : nat := Z.to_nat (i_inum i mod IPB).

Lemma dinode_slot_lt i : (dinode_slot i < 8)%nat.
Proof.
  unfold dinode_slot. change IPB with 8. pose proof (Z.mod_pos_bound (i_inum i) 8). lia.
Qed.

Lemma iupdate_spec f ip i H k :
  fs_ok f → fs_icache f !! ip = Some i → i_dev i = ROOTDEV → inum_ok f i H →
  ready (fs_store f) H (1 + k) → (size H ≤ 1 + k)%nat →
  returns (iupdate ip) f (λ _ f', ∃ s', f' = set_fs_store s' f ∧ kept (fs_store f) H k s'
    ∧ ∀ x, contents s' x = if decide (x = IBLOCK (i_inum i) (fs_sb f))
             then put_dinode (disk_of f x) (dinode_slot i) i else disk_of f x).
Proof.
  intros [O1 O2 O3] Hi Hdev [Hin Hnot] Hr Hsz. unfold iupdate.
  eapply returns_bind_eq; [by apply geti_eq|]. eapply returns_bind_eq; [done|]. rewrite Hdev.
  destruct (ly_inodes _ _ O1 _ Hin) as [Hus _].
  eapply returns_mono.
  { apply (update_spec f H k (IBLOCK (i_inum i) (fs_sb f)) (λ d, put_dinode d (dinode_slot i) i)
      (λ bp d, put_back bp (put_dinode d (dinode_slot i) i))); try done.
    apply put_dinode_ok, O3. }
  intros _ f' (s' & -> & K & V). exists s'. split_and!; [done|done|].
  intros x. rewrite V. case_decide as Hx; [by rewrite Hx|done].
Qed.

(** ** writei *)
Record writei_post f (ip : nat) (i : inode) (H : gset Z) (k : nat) (off n : Z) (src : list Z)
    (f' : fsstate S) (i' : inode) : Prop := {
  wp_state : ∃ s', f' = set_fs_icache (<[ip := i']> (fs_icache f)) (set_fs_store s' f)
    ∧ kept (fs_store f) H k s';
  wp_inode : i' = set_i_size (Z.max (i_size i) (off + n)) (set_i_addrs (i_addrs i') i);
  wp_ok : fs_ok f';
  wp_file : file_at f' ip i';
  wp_written : written (disk_of f) (disk_of f') (i_addrs i) (i_addrs i') off n src;
  wp_dense : dense (disk_of f) (i_addrs i) (i_size i) → dense (disk_of f') (i_addrs i') (i_size i');
  wp_foreign : ∀ x, foreign (fs_sb f) (disk_of f) (i_addrs i) x →
    x ≠ IBLOCK (i_inum i) (fs_sb f) → disk_of f' x = disk_of f x;
  wp_others : others f' i' H;
  wp_disk_inode : let b := IBLOCK (i_inum i) (fs_sb f) in
    disk_of f' b = if i_size i <? off + n then put_dinode (disk_of f b) (dinode_slot i) i' else disk_of f b;
  wp_allocates : allocates (fs_sb f) (above off n) (disk_of f) (i_addrs i) (disk_of f') (i_addrs i');
}.

(** The file after the loop, before the inode is written back. *)
Lemma stored_post f ip i H k n off len src f1 :
  fs_ok f → file_at f ip i → others f i H → stored f ip i H k n off len src f1 →
  0 <= off <= i_size i → 0 < len →
  ∃ a1 s1, f1 = with_addrs f ip i a1 s1 ∧ fs_ok f1 ∧ file_at f1 ip (set_i_addrs a1 i)
    ∧ kept (fs_store f) H k s1 ∧ others f1 (set_i_addrs a1 i) H
    ∧ written (disk_of f) (disk_of f1) (i_addrs i) a1 off len src
    ∧ (dense (disk_of f) (i_addrs i) (i_size i) →
       dense (disk_of f1) a1 (Z.max (i_size i) (off + len)))
    ∧ (∀ x, foreign (fs_sb f) (disk_of f) (i_addrs i) x → disk_of f1 x = disk_of f x)
    ∧ allocates (fs_sb f) (above off len) (disk_of f) (i_addrs i) (disk_of f1) a1.
Proof.
  intros Hok Hf Ho [Hmf Hst] Hoff Hlen. pose proof Hmf as (a1 & s1 & -> & K1 & Hch & _).
  destruct (modified_file _ _ _ _ _ _ _ _ _ Hok Hf Hmf) as (a1' & s1' & Heq & Hok1 & Hfile1 & Ho1 & _ & _).
  assert (fs_icache (with_addrs f ip i a1 s1) !! ip = Some (set_i_addrs a1 i)) as Hi1.
  { cbn. apply list_lookup_insert_eq. eapply lookup_lt_Some, Hf. }
  pose proof (fa_slot _ _ _ Hfile1) as Hi1'. rewrite Hi1 in Hi1'. injection Hi1' as <-.
  destruct (Hst _ Hi1) as [Hw Hm]. exists a1, s1. split_and!; try done; [by apply Ho1|..].
  - intros Hd bn Hb0 Hb1. destruct (Z.lt_ge_cases (bn * BSIZE) (i_size i)) as [Hlt|Hge].
    + change a1 with (i_addrs (set_i_addrs a1 i)).
      eapply (mapped_modified f ip i); [done|apply Hf|exact Hmf|exact Hi1|by apply Hd].
    + apply Hm; [done|done|fsconst; lia|lia].
  - intros x Hx. apply (ex_foreign _ _ _ _ _ _ _ Hch x Hx).
  - by eapply changes_allocates.
Qed.

(** The file after the loop, before the inode is written back. *)
Record loop_done f (ip : nat) (i : inode) (H : gset Z) (k : nat) (off n : Z) (src a1 : list Z) (s1 : S) f1 : Prop := {
  ld_state : f1 = with_addrs f ip i a1 s1;
  ld_ok : fs_ok f1;
  ld_file : file_at f1 ip (set_i_addrs a1 i);
  ld_kept : kept (fs_store f) H (1 + k) s1;
  ld_others : others f1 (set_i_addrs a1 i) H;
  ld_written : written (disk_of f) (disk_of f1) (i_addrs i) a1 off n src;
  ld_dense : dense (disk_of f) (i_addrs i) (i_size i) → dense (disk_of f1) a1 (Z.max (i_size i) (off + n));
  ld_foreign : ∀ x, foreign (fs_sb f) (disk_of f) (i_addrs i) x → disk_of f1 x = disk_of f x;
  ld_allocates : allocates (fs_sb f) (above off n) (disk_of f) (i_addrs i) (disk_of f1) a1;
}.

(** The block of the inode does not belong to the file. *)
Lemma inode_block_foreign f ip i H :
  fs_ok f → file_at f ip i → inum_ok f i H →
  foreign (fs_sb f) (disk_of f) (i_addrs i) (IBLOCK (i_inum i) (fs_sb f)).
Proof.
  intros [O1 O2 O3] [F1 F2 F3] [Hin _]. destruct (ly_inodes _ _ O1 _ Hin) as [Hus Hib].
  pose proof (ly_data _ _ O1) as Hd. pose proof (ly_bmap _ _ O1) as Hb. unfold datastart in *.
  split_and!; [lia|lia|unfold is_bitmap; lia|apply O2; unfold datastart; lia|].
  intros q Hq Hn. destruct (tr_data _ _ _ F3 q Hq Hn) as [Hr _]. unfold datastart in Hr. lia.
Qed.

(** The file keeps its size: the inode on the disk stays. *)
Lemma writei_keeps f ip i H k off n src a1 s1 f1 :
  fs_ok f → file_at f ip i → inum_ok f i H → loop_done f ip i H k off n src a1 s1 f1 → off + n <= i_size i → writei_post f ip i H k off n src f1 (set_i_addrs a1 i).
Proof.
  intros Hok Hf Hin [Hf1 Hok1 Hfile1 K1 Ho1 Hw Hd Hfr Hal] Hsame. rewrite Hf1 in *. split; try done.
  - exists s1. split; [done|]. destruct K1 as [K1 ? ?]. split; [|done|done]. eapply ready_weaken; [exact K1|lia].
  - rewrite Z.max_l by lia. by destruct i.
  - cbn. rewrite Z.max_l in Hd by lia. done.
  - intros x Hx _. by apply Hfr.
  - cbv zeta. destruct (Z.ltb_spec (i_size i) (off + n)); [lia|]. by eapply Hfr, inode_block_foreign.
Qed.

(** The file has grown: [s3] is the store with the inode written back. *)
Lemma writei_grows f ip i H k off n src a1 s1 f1 s3 (i2 := set_i_size (off + n) (set_i_addrs a1 i))
    (f2 := set_fs_icache (<[ip := i2]> (fs_icache f1)) f1) :
  fs_ok f → file_at f ip i → inum_ok f i H → loop_done f ip i H k off n src a1 s1 f1 → i_size i < off + n →
  kept (fs_store f1) H k s3 →
  (∀ x, contents s3 x = if decide (x = IBLOCK (i_inum i) (fs_sb f))
     then put_dinode (disk_of f1 x) (dinode_slot i2) i2 else disk_of f1 x) →
  writei_post f ip i H k off n src (set_fs_store s3 f2) i2.
Proof.
  intros Hok Hf Hin [Hf1 Hok1 Hfile1 K1 Ho1 Hw Hd Hfr Hal] Hgrow K3 V3. rewrite Z.max_r in Hd by lia.
  pose proof (lookup_lt_Some _ _ _ (fa_slot _ _ _ Hf)) as Hlt.
  assert (fs_icache f2 !! ip = Some i2) as Hi2.
  { unfold f2. cbn. apply list_lookup_insert_eq. rewrite Hf1. cbn. by rewrite length_insert. }
  destruct (ly_inodes _ _ (fo_layout _ Hok) _ (proj1 Hin)) as [_ [_ Hib]].
  assert (fs_sb f1 = fs_sb f) as Hsb by (by rewrite Hf1).
  assert (∀ x, x ≠ IBLOCK (i_inum i) (fs_sb f) → contents s3 x = disk_of f1 x) as Hv3.
  { intros x Hx. by rewrite V3, decide_False. }
  assert (layout (fs_sb f) (fs_store f1)) as L1 by (rewrite <-Hsb; apply Hok1).
  pose proof (fa_tree _ _ _ Hfile1) as T1. rewrite Hsb in T1. cbn [i_addrs set_i_addrs] in T1.
  split.
  - exists s3. split; [unfold f2; rewrite Hf1; cbn; by rewrite list_insert_insert_eq|].
    eapply kept_trans; [exact K1|]. rewrite Hf1 in K3. exact K3.
  - rewrite Z.max_r by lia. by destruct i.
  - destruct K3 as [K31 K32 _]. split; cbn; rewrite ?Hsb.
    + eapply layout_evolves; [exact K32|done].
    + eapply (meta_write_meta _ _ (disk_of f1)); [exact L1|exact Hib|exact Hv3|]. rewrite <-Hsb. apply Hok1.
    + intros m. by eapply contents_ok.
  - split; [exact Hi2|apply Hf|]. cbn. rewrite Hsb. by eapply (meta_write_tree _ _ (disk_of f1)).
  - intros x Hx. cbn [i_addrs i2 set_i_size set_i_addrs]. rewrite <-(Hw x Hx).
    eapply meta_write_byte; [exact L1|exact Hib|exact Hv3|done|lia].
  - intros Hdn bn Hb0 Hb1. cbn in Hb1. eapply meta_write_mapped; [exact L1|exact Hib|exact Hv3|done|done|]. by apply Hd.
  - intros x Hx Hne. unfold disk_of at 1. cbn. rewrite Hv3 by done. by apply Hfr.
  - intros x Hx. cbn [fs_sb set_fs_store f2 set_fs_icache i_addrs i2 set_i_size set_i_addrs].
    rewrite Hsb. eapply meta_write_foreign; [exact L1|exact Hib|exact Hv3|done|]. rewrite <-Hsb. by apply Ho1.
  - cbv zeta. rewrite (proj2 (Z.ltb_lt _ _) Hgrow). unfold disk_of at 1. cbn. rewrite V3, decide_True by done.
    by rewrite (Hfr _ (inode_block_foreign _ _ _ _ Hok Hf Hin)).
  - by eapply meta_write_allocates.
Qed.

(** [N] blocks cover the write; an allocation of a block of data and of its index
    blocks takes eleven entries of the log, the block itself one, the inode one. *)
Lemma writei_spec dw f ip i H k N off n src :
  fs_ok f → file_at f ip i → others f i H → inum_ok f i H →
  ready (fs_store f) H (12 * N + (1 + k)) → (size H ≤ 1 + k)%nat → i_type i ≠ T_DEV →
  0 <= off <= i_size i → 0 < n <= Z.of_nat (length src) → off + n <= MAXFILE * BSIZE →
  off + n <= (off / BSIZE + Z.of_nat N) * BSIZE →
  (4 * N ≤ nfree (fs_sb f) (disk_of f))%nat → bytes_ok src →
  returns (writei dw ip src off n) f (λ r f', r = n ∧ ∃ i', writei_post f ip i H k off n src f' i').
Proof.
  intros Hok Hf Ho Hin Hr Hsz Hty Hoff Hn Hmax Hcov Hfree Hsrc. unfold writei.
  eapply returns_bind_eq; [apply geti_eq, Hf|].
  destruct (Z.eqb_spec (i_type i) T_DEV); [done|]. destruct (Z.ltb_spec (i_size i) off); [lia|].
  rewrite u32_id by (unfold is_u32; fsconst; lia). destruct (Z.ltb_spec (off + n) off); [lia|].
  cbn [orb]. destruct (Z.ltb_spec (MAXFILE * BSIZE) (off + n)); [lia|].
  rstep (writei_loop_spec (Z.to_nat n) f ip i H (1 + k) N off 0 n src);
    [done..|lia|lia|lia|lia|lia|lia|done|done|lia|].
  intros off' f1 [-> Hst]. rewrite Z.sub_0_r in *.
  destruct (stored_post _ _ _ _ _ _ _ _ _ _ Hok Hf Ho Hst Hoff) as
    (a1 & s1 & Hf1 & Hok1 & Hfile1 & K1 & Ho1 & Hw & Hd & Hfr & Hal); [lia|].
  assert (loop_done f ip i H k off n src a1 s1 f1) as Hld by done.
  eapply returns_bind_eq; [apply geti_eq, Hfile1|]. change (i_size (set_i_addrs a1 i)) with (i_size i).
  assert ((0 <? n) = true) as -> by (apply Z.ltb_lt; lia). cbn [andb].
  destruct (Z.ltb_spec (i_size i) (off + n)) as [Hgrow|Hsame].
  - set (i2 := set_i_size (off + n) (set_i_addrs a1 i)).
    apply returns_bind. eapply returns_bind_eq; [apply updi_eq, Hfile1|].
    set (f2 := set_fs_icache _ f1). fold i2 in f2. assert (fs_sb f1 = fs_sb f) as Hsb by (by rewrite Hf1).
    rstep (iupdate_spec f2 ip i2 H k).
    { destruct Hok1. by split. }
    { unfold f2. cbn. apply list_lookup_insert_eq. rewrite Hf1. cbn. rewrite length_insert.
      eapply lookup_lt_Some, Hf. }
    { apply Hf. } { unfold inum_ok. cbn. by rewrite Hsb. } { cbn. rewrite Hf1. apply K1. } { lia. }
    intros _ f3 (s3 & -> & K3 & V3). apply returns_ret. split; [done|]. exists i2.
    change (disk_of f2) with (disk_of f1) in V3.
    cbn [i_inum i2 set_i_size set_i_addrs fs_sb f2 set_fs_icache] in V3. rewrite Hsb in V3.
    by eapply writei_grows.
  - eapply returns_bind_eq; [done|]. apply returns_ret. split; [done|].
    exists (set_i_addrs a1 i). by eapply writei_keeps.
Qed.
End inode_ops.
