(* ===== verification/FsThms.v ===== *)
(** * The file system: what it guarantees for the content of files *)
From S2P Require Import Prelude Params Block Bio BioInv Log LogSpec LogCrash LogBoot Store Str Fs.
From S2P Require Import FsAlloc FsTree FsMap FsContent FsWrite FsInode.

(** ** A small file system for the witnesses

    200 blocks: the log at 2 to 31, sixteen inodes at 32 and 33, the free map at 34,
    data from 35 on; an empty regular file with inode number 1. *)
Module Small.
Definition sb : superblock := mksb 200 165 16 LOGSIZE 2 32 34.
Definition map_block : block := foldl bit_set zero_block (seq 0 35).
Definition disk : gmap Z block := {[ 34 := map_block ]}.
Definition small_log : logst :=
  mklogst false 2 LOGSIZE 1 false ROOTDEV 0 (replicate (Z.to_nat LOGSIZE) 0).
Definition store : storage :=
  mkstorage (replicate NBUF blank_buf) (rev (seq 0 NBUF)) false disk 200 [] [] 3 small_log.
Definition file0 : inode :=
  mkinode ROOTDEV 1 1 (mksleeplock true 3) true T_FILE 0 0 1 0 (replicate 13 0).
Definition state : fsstate storage := mkfs store sb [file0] false 3 0 [].

Lemma lookup_blank (i : nat) b : bufs store !! i = Some b → b = blank_buf.
Proof. cbn -[replicate NBUF]. intros Hi. by apply lookup_replicate in Hi as [-> _]. Qed.

Lemma map_block_ok : blk_ok map_block.
Proof.
  unfold map_block. generalize (seq 0 35). intros l. generalize zero_block_ok. generalize zero_block.
  induction l as [|x l IH]; intros d Hd; cbn; [done|]. by apply IH, bit_set_ok.
Qed.

Lemma small_disk_ok n : blk_ok (disk_block disk n).
Proof.
  unfold disk_block, disk. destruct (decide (n = 34)) as [->|?].
  - rewrite lookup_singleton_eq. apply map_block_ok.
  - rewrite lookup_singleton_ne by done. apply zero_block_ok.
Qed.

Lemma no_tag Q n : ¬ tag Q store n.
Proof. intros (i & b & Hi & [Hd _] & _). by apply lookup_blank in Hi as ->. Qed.

Lemma store_wf : log_wf store.
Proof.
  split.
  - split; try done.
    + cbn -[NBUF]. symmetry. apply Permutation_rev.
    + intros i b Hi. apply lookup_blank in Hi as ->. by split.
    + intros i j bi bj Hi _ n [Hd _]. by apply lookup_blank in Hi as ->.
    + apply small_disk_ok.
  - split; cbn; unfold LOGSIZE, MAXOPBLOCKS; lia || done.
  - split; cbn; unfold LOGSIZE, MAXOPBLOCKS, nlog; cbn; lia.
  - intros n. split; [by intros ?%no_tag|]. unfold nlog. cbn. intros (k & ? & _). lia.
Qed.

Lemma store_ready k : (k ≤ 29)%nat → ready store ∅ k.
Proof.
  intros Hk. split_and!; [apply store_wf|done|done| |cbn; unfold LOGSIZE, MAXOPBLOCKS; lia].
  intros n. split; [by intros ?%no_tag|]. by intros ?%not_elem_of_empty.
Qed.

Lemma contents_eq n : contents store n = disk_block disk n.
Proof. apply view_uncached. intros (i & b & Hi & [Hd _]). by apply lookup_blank in Hi as ->. Qed.

Lemma used_eq n : used sb (disk_of state) n = used sb (disk_block disk) n.
Proof. unfold used, disk_of. cbn [fs_store state]. by rewrite contents_eq. Qed.

Lemma state_ok : fs_ok state.
Proof.
  assert (∀ n, 31 < n < 200 → usable store n) as Hu.
  { intros n Hn. split; [cbn; lia|]. unfold in_log. cbn. unfold LOGSIZE, MAXOPBLOCKS. lia. }
  split.
  - split; cbn [fs_sb state]; try (cbn; lia).
    + vm_compute. intros H. discriminate H.
    + unfold is_bitmap. change (datastart sb) with 35. cbn. intros n Hn. apply Hu. lia.
    + change (datastart sb) with 35. cbn. intros n Hn. apply Hu. lia.
    + intros i Hi. unfold IBLOCK. change IPB with 8. cbn in *. rewrite u32_id by (unfold is_u32; divlia).
      split; [apply Hu; divlia|divlia].
  - intros n Hn. change (datastart _) with 35 in Hn. cbn [fs_sb state]. rewrite used_eq.
    assert (Forall (λ n, used sb (disk_block disk) n = true) (seqZ 0 35)) as Hall.
    { by apply (bool_decide_eq_true_1 _); vm_compute. }
    rewrite Forall_forall in Hall. apply Hall, elem_of_seqZ. lia.
  - intros m. unfold disk_of. cbn [fs_store state]. rewrite contents_eq. apply small_disk_ok.
Qed.

Lemma node_zero v q : valid_pos q → node v (replicate 13 0) q = 0.
Proof.
  destruct q as [j p]. intros [Hj _]. cbn in Hj. unfold node.
  rewrite (list_lookup_total_correct _ _ 0) by (by rewrite lookup_replicate_2). by destruct p.
Qed.

Lemma state_file : file_at state 0 file0.
Proof.
  split; [done|done|]. split; [done|..].
  - intros q Hq. change (i_addrs file0) with (replicate 13 0). by rewrite node_zero.
  - intros q r Hq _. change (i_addrs file0) with (replicate 13 0). by rewrite node_zero.
Qed.

Lemma state_others : others state file0 ∅.
Proof. by intros n ?%not_elem_of_empty. Qed.

Lemma state_inum : inum_ok state file0 ∅.
Proof. split; [cbn; lia|apply not_elem_of_empty]. Qed.

Lemma state_free : (100 ≤ nfree sb (disk_of state))%nat.
Proof.
  rewrite (nfree_ext sb (disk_of state) (disk_block disk)) by (intros; apply used_eq).
  vm_compute. lia.
Qed.

Lemma state_dense : dense (disk_of state) (i_addrs file0) (i_size file0).
Proof. intros bn H0 H1. cbn in H1. fsconst. lia. Qed.
End Small.

(** ** The theorems *)
Section theorems.
Context {S : Type} `{!BlockStore S, !BlockStoreSpec S}.
Implicit Types (f : fsstate S).

(** C2: [bmap] returns, for every block index below MAXFILE (direct, single, double
    or triple indirect), the block at the position of the index in the inode's
    tree; it allocates what is missing on the way from the root of the tree to that
    position, and nothing else: the blocks of the file that were there stay where they
    are, new ones appear on that path only, and the blocks marked in the allocation map
    afterwards are exactly those marked before and the new ones.  New blocks are
    zeroed, so that every byte of the file reads as before; the blocks of a file stay
    pairwise distinct, allocated data blocks, and no block that belongs to something
    else changes. *)
Theorem bmap_correct f ip i H k bn :
  fs_ok f → file_at f ip i → others f i H → ready (fs_store f) H (11 + k) →
  (size H ≤ 1 + k)%nat → 0 <= bn < MAXFILE → (4 ≤ nfree (fs_sb f) (disk_of f))%nat →
  returns (bmap ip bn) f (λ a f', ∃ q a', bmap_path bn = Some q
    ∧ fs_icache f' = <[ip := set_i_addrs a' i]> (fs_icache f)
    ∧ a ≠ 0 ∧ node (disk_of f') a' q = a
    ∧ tree_wf (fs_sb f) (disk_of f') a'
    ∧ allocates (fs_sb f) (on_path q) (disk_of f) (i_addrs i) (disk_of f') a'
    ∧ (∀ x, 0 <= x → file_byte (disk_of f') a' x = file_byte (disk_of f) (i_addrs i) x)
    ∧ (∀ n, foreign (fs_sb f) (disk_of f) (i_addrs i) n → disk_of f' n = disk_of f n)).
Proof.
  intros Hok Hf Ho Hr Hsz Hbn Hfree. destruct (bmap_path_some bn Hbn) as (q & Hq & _).
  eapply returns_mono; [by apply (bmap_spec f ip i H k bn q); try lia|].
  intros a f' ((a' & s' & -> & _ & Hch & _) & Ha & Hnode). exists q, a'. pose proof Hch as [E1 _ _ _ E5 _ E7 _ _].
  split_and!; try done.
  - apply (Hnode (set_i_addrs a' i)). cbn. apply list_lookup_insert_eq. eapply lookup_lt_Some, Hf.
  - by eapply changes_allocates.
  - intros x Hx. unfold file_byte, file_block. destruct (bmap_path (x / BSIZE)) as [r|] eqn:Hr'; [|done].
    destruct (bmap_path_leaf (x / BSIZE) r ltac:(fsconst; divlia) Hr') as [_ Hlf].
    by rewrite <-(E5 r Hlf) by tauto.
Qed.

(** A block index of MAXFILE or more makes [bmap] panic. *)
Theorem bmap_out_of_range f ip bn :
  MAXFILE <= bn → bmap ip bn f = Panic "bmap: out of range".
Proof.
  intros Hbn. unfold bmap. fsconst. cbv zeta.
  repeat match goal with |- context [?x <? ?y] => destruct (Z.ltb_spec x y); [lia|] end. done.
Qed.

(** [readi] of a regular file without holes returns the number of bytes there
    are, at most [n], and exactly the bytes of the file at the offset; it needs no
    room in the log and changes no block. *)
Theorem readi_reads dr f ip i H k off n :
  fs_ok f → file_at f ip i → others f i H → ready (fs_store f) H k → (size H ≤ k)%nat →
  i_type i ≠ T_DEV → 0 <= i_size i <= MAXFILE * BSIZE → dense (disk_of f) (i_addrs i) (i_size i) →
  0 <= off <= i_size i → 0 <= n → off + n < 2 ^ 32 →
  returns (readi dr ip off n) f (λ rb f', rb.1 = Z.min n (i_size i - off)
    ∧ Z.of_nat (length rb.2) = rb.1
    ∧ (∀ j, 0 <= j < rb.1 →
         byte_at rb.2 (Z.to_nat j) = file_byte (disk_of f) (i_addrs i) (off + j))
    ∧ (∀ x, disk_of f' x = disk_of f x) ∧ fs_icache f' = fs_icache f).
Proof.
  intros. eapply returns_mono; [by apply (readi_spec dr f ip i H k off n)|].
  intros [r bytes] f' ((s' & -> & _ & V) & -> & Hl & Hb). by split_and!.
Qed.

(** C3: [writei] within the file or at its end stores the bytes at the offset,
    leaves every other byte of the file as it was and grows the size to the end of
    the write if need be; then the inode is in its block on disk, where nothing else
    changes, and otherwise that block stays as it is.  It keeps the file free of
    holes, moves no block of the file, and adds only the missing data blocks that the
    write touches and the index blocks above them: the blocks marked in the
    allocation map afterwards are exactly those marked before and the new ones.  No
    block of another file or of the inodes changes ([writei_post]). *)
Theorem writei_writes dw f ip i H k N off n src :
  fs_ok f → file_at f ip i → others f i H → inum_ok f i H →
  ready (fs_store f) H (12 * N + (1 + k)) → (size H ≤ 1 + k)%nat → i_type i ≠ T_DEV →
  0 <= off <= i_size i → 0 < n <= Z.of_nat (length src) → off + n <= MAXFILE * BSIZE →
  off + n <= (off / BSIZE + Z.of_nat N) * BSIZE →
  (4 * N ≤ nfree (fs_sb f) (disk_of f))%nat → bytes_ok src →
  returns (writei dw ip src off n) f (λ r f', r = n ∧ ∃ i', writei_post f ip i H k off n src f' i').
Proof. apply writei_spec. Qed.

(** C11: Reading back what was written: [writei] followed by [readi] at the same
    offset returns the bytes written. *)
Theorem write_read_roundtrip dr dw f ip i H k N off n src :
  fs_ok f → file_at f ip i → others f i H → inum_ok f i H →
  ready (fs_store f) H (12 * N + (1 + k)) → (size H ≤ k)%nat → i_type i ≠ T_DEV →
  0 <= off <= i_size i → i_size i <= MAXFILE * BSIZE → dense (disk_of f) (i_addrs i) (i_size i) →
  0 < n → Z.of_nat (length src) = n → off + n <= MAXFILE * BSIZE →
  off + n <= (off / BSIZE + Z.of_nat N) * BSIZE →
  (4 * N ≤ nfree (fs_sb f) (disk_of f))%nat → bytes_ok src →
  returns (writei dw ip src off n;; readi dr ip off n) f (λ rb _, rb = (n, src)).
Proof.
  intros Hok Hf Ho Hin Hr Hsz Hty Hoff Hsize Hd Hn Hlen Hmax Hcov Hfree Hsrc.
  rstep (writei_spec dw f ip i H k N off n src); try done; try lia.
  intros _ f1 (-> & i1 & Hp). pose proof Hp as [(s1 & Hf1 & K1) Hi1 P3 P4 P5 P6 P7 P8 P9 _].
  rewrite Hi1 in P6. specialize (P6 Hd).
  eapply returns_mono.
  { apply (readi_spec dr f1 ip i1 H k off n); try done.
    - rewrite Hf1. cbn. apply K1.
    - by rewrite Hi1.
    - rewrite Hi1. cbn. lia.
    - by rewrite Hi1.
    - rewrite Hi1. cbn. lia.
    - lia.
    - fsconst. lia. }
  intros [r bytes] f2 (_ & Hr2 & Hl2 & Hb). rewrite Hi1 in Hr2. cbn in Hr2.
  assert (r = n) as -> by lia. f_equal. apply list_eq_byte; [lia|].
  intros j Hj. specialize (Hb (Z.of_nat j) ltac:(lia)). rewrite Nat2Z.id in Hb. rewrite Hb, P5 by lia.
  rewrite decide_True by lia. f_equal. lia.
Qed.
End theorems.

(** *** Witnesses *)
Lemma bmap_correct_witness :
  returns (bmap 0 20000) Small.state (λ a f', ∃ q a', bmap_path 20000 = Some q
    ∧ fs_icache f' = <[0%nat := set_i_addrs a' Small.file0]> [Small.file0]
    ∧ a ≠ 0 ∧ node (disk_of f') a' q = a
    ∧ tree_wf Small.sb (disk_of f') a'
    ∧ allocates Small.sb (on_path q) (disk_of Small.state) (i_addrs Small.file0) (disk_of f') a'
    ∧ (∀ x, 0 <= x → file_byte (disk_of f') a' x
         = file_byte (disk_of Small.state) (i_addrs Small.file0) x)
    ∧ (∀ n, foreign Small.sb (disk_of Small.state) (i_addrs Small.file0) n →
         disk_of f' n = disk_of Small.state n)).
Proof.
  apply (bmap_correct Small.state 0 Small.file0 ∅ 18 20000).
  - apply Small.state_ok.
  - apply Small.state_file.
  - apply Small.state_others.
  - apply Small.store_ready. lia.
  - rewrite size_empty. lia.
  - fsconst. lia.
  - pose proof Small.state_free. change (fs_sb Small.state) with Small.sb. lia.
Defined.

Lemma bmap_out_of_range_witness :
  bmap 0 2113674 Small.state = Panic "bmap: out of range".
Proof. apply (bmap_out_of_range Small.state 0 2113674). fsconst. lia. Defined.

Lemma readi_reads_witness :
  returns (readi (λ _, None) 0 0 10) Small.state (λ rb f', rb.1 = Z.min 10 (0 - 0)
    ∧ Z.of_nat (length rb.2) = rb.1
    ∧ (∀ j, 0 <= j < rb.1 →
         byte_at rb.2 (Z.to_nat j) = file_byte (disk_of Small.state) (i_addrs Small.file0) (0 + j))
    ∧ (∀ x, disk_of f' x = disk_of Small.state x) ∧ fs_icache f' = [Small.file0]).
Proof.
  apply (readi_reads (λ _, None) Small.state 0 Small.file0 ∅ 0 0 10).
  - apply Small.state_ok.
  - apply Small.state_file.
  - apply Small.state_others.
  - apply Small.store_ready. lia.
  - rewrite size_empty. lia.
  - discriminate.
  - cbn. fsconst. lia.
  - apply Small.state_dense.
  - cbn. lia.
  - lia.
  - lia.
Defined.

Lemma writei_writes_witness :
  returns (writei (λ _, None) 0 (replicate 600 7) 0 600) Small.state (λ r f',
    r = 600 ∧ ∃ i', writei_post Small.state 0 Small.file0 ∅ 4 0 600 (replicate 600 7) f' i').
Proof.
  apply (writei_writes (λ _, None) Small.state 0 Small.file0 ∅ 4 2 0 600 (replicate 600 7)).
  - apply Small.state_ok.
  - apply Small.state_file.
  - apply Small.state_others.
  - apply Small.state_inum.
  - apply Small.store_ready. lia.
  - rewrite size_empty. lia.
  - discriminate.
  - cbn. lia.
  - rewrite length_replicate. lia.
  - fsconst. lia.
  - vm_compute. discriminate.
  - pose proof Small.state_free. change (fs_sb Small.state) with Small.sb. lia.
  - apply Forall_replicate. unfold is_byte. lia.
Defined.

Lemma write_read_roundtrip_witness :
  returns (writei (λ _, None) 0 (replicate 600 7) 0 600;; readi (λ _, None) 0 0 600) Small.state
    (λ rb _, rb = (600, replicate 600 7)).
Proof.
  apply (write_read_roundtrip (λ _, None) (λ _, None) Small.state 0 Small.file0 ∅ 4 2 0 600
    (replicate 600 7)).
  - apply Small.state_ok.
  - apply Small.state_file.
  - apply Small.state_others.
  - apply Small.state_inum.
  - apply Small.store_ready. lia.
  - rewrite size_empty. lia.
  - discriminate.
  - cbn. lia.
  - cbn. fsconst. lia.
  - apply Small.state_dense.
  - lia.
  - by rewrite length_replicate.
  - fsconst. lia.
  - vm_compute. discriminate.
  - pose proof Small.state_free. change (fs_sb Small.state) with Small.sb. lia.
  - apply Forall_replicate. unfold is_byte. lia.
Defined.
