(* ===== verification/FsIcache.v ===== *)
(** * The inode cache: iget, idup, ilock, iunlock, iput *)
From S2P Require Import Prelude Params Block Bio BioInv Log LogSpec LogCrash LogBoot Store Str Fs.
From S2P Require Import FsAlloc FsTree FsMap FsContent FsWrite FsInode FsThms.

Section icache.
Context {S : Type} `{!BlockStore S, !BlockStoreSpec S}.
Implicit Types (f : fsstate S) (s : S).

(** An inode is in at most one slot that is in use; a free slot is not locked. *)
Record icache_wf f : Prop := {
  ic_len : length (fs_icache f) = NINODE;
  ic_lock : fs_icache_lock f = false;
  ic_ref : ∀ (ip : nat) i, fs_icache f !! ip = Some i → 0 <= i_ref i;
  ic_uniq : ∀ (ip jp : nat) i j, fs_icache f !! ip = Some i → fs_icache f !! jp = Some j →
    0 < i_ref i → 0 < i_ref j → i_dev i = i_dev j → i_inum i = i_inum j → ip = jp;
  ic_free : ∀ (ip : nat) i, fs_icache f !! ip = Some i → i_ref i = 0 → sl_locked (i_lock i) = false;
}.

(** Slot [ip] holds inode [inum] and is in use. *)
Definition holds_inode (dev inum : Z) (i : inode) : Prop :=
  0 < i_ref i ∧ i_dev i = dev ∧ i_inum i = inum.

Definition hit (dev inum : Z) (i : inode) : bool :=
  (0 <? i_ref i) && (i_dev i =? dev) && (i_inum i =? inum).

Lemma hit_spec dev inum i : hit dev inum i = true ↔ holds_inode dev inum i.
Proof. unfold hit, holds_inode. rewrite !andb_true_iff, Z.ltb_lt, !Z.eqb_eq. tauto. Qed.

(** What the scan of [iget] finds. *)
Lemma iget_scan_spec f dev inum ips empty :
  (∀ ip, ip ∈ ips → is_Some (fs_icache f !! ip)) →
  ∃ r, iget_scan dev inum ips empty f = Ret r f ∧
    match r with
    | inl ip => ip ∈ ips ∧ ∃ i, fs_icache f !! ip = Some i ∧ holds_inode dev inum i
    | inr e => (∀ ip i, ip ∈ ips → fs_icache f !! ip = Some i → ¬ holds_inode dev inum i)
        ∧ (e = empty ∨ empty = None ∧ ∃ ip i, e = Some ip ∧ ip ∈ ips
             ∧ fs_icache f !! ip = Some i ∧ i_ref i = 0)
        ∧ (empty = None → e = None → ∀ ip i, ip ∈ ips → fs_icache f !! ip = Some i → i_ref i ≠ 0)
    end.
Proof.
  revert empty. induction ips as [|ip ips IH]; intros empty Hin; cbn [iget_scan].
  - exists (inr empty). split; [done|]. split_and!; [by intros ? ? ?%not_elem_of_nil|by left|].
    by intros _ _ ? ? ?%not_elem_of_nil.
  - destruct (Hin ip) as [i Hi]; [by left|].
    assert (geti ip f = Ret i f) as Hg by (unfold geti; by rewrite Hi).
    rewrite (bind_ret _ _ _ _ _ Hg). fold (hit dev inum i).
    destruct (hit dev inum i) eqn:Eh.
    + exists (inl ip). split; [done|]. split; [by left|]. exists i. split; [done|]. by apply hit_spec.
    + set (empty' := if bool_decide (empty = None) && (i_ref i =? 0) then Some ip else empty).
      destruct (IH empty') as (r & Hr & Hspec); [intros jp Hjp; apply Hin; by right|].
      exists r. split; [done|].
      assert (¬ holds_inode dev inum i) as Hno by (rewrite <-hit_spec, Eh; done).
      destruct r as [jp|e].
      * destruct Hspec as [Hjp Hj]. split; [by right|done].
      * destruct Hspec as (H1 & H2 & H3). split_and!.
        -- intros jp j [->|Hjp]%elem_of_cons Hj; [by simplify_eq|by eapply H1].
        -- unfold empty' in H2. destruct (bool_decide (empty = None)) eqn:Eb, (Z.eqb_spec (i_ref i) 0);
             cbn [andb] in H2; try apply bool_decide_eq_true in Eb.
           ++ destruct H2 as [->|[? _]]; [|done]. right. split; [done|].
              exists ip, i. split_and!; [done|by left|done|done].
           ++ destruct H2 as [->|(He & jp & j & Hx & Hjp & Hj & H0)]; [by left|right].
              split; [done|]. exists jp, j. split_and!; [done|by right|done|done].
           ++ destruct H2 as [->|(He & _)]; [by left|]. rewrite He in Eb.
              by rewrite bool_decide_true in Eb.
           ++ destruct H2 as [->|(He & _)]; [by left|]. rewrite He in Eb.
              by rewrite bool_decide_true in Eb.
        -- intros -> -> jp j [->|Hjp]%elem_of_cons Hj.
           ++ simplify_eq. intros H0. unfold empty' in *. rewrite bool_decide_true, H0 in H2 by done.
              cbn in H2. destruct H2 as [?|[? _]]; done.
           ++ unfold empty' in *. destruct (Z.eqb_spec (i_ref i) 0) as [H0|H0].
              ** rewrite bool_decide_true in H2 by done. cbn in H2. destruct H2 as [?|[? _]]; done.
              ** rewrite andb_false_r in H3. by eapply H3.
Qed.

(** [f] with the inode in slot [ip] replaced. *)
Definition with_slot f (ip : nat) (i : inode) : fsstate S :=
  set_fs_icache (<[ip := i]> (fs_icache f)) f.

Lemma with_slot_eq f ip i j : fs_icache f !! ip = Some i → fs_icache (with_slot f ip j) !! ip = Some j.
Proof. intros Hi. cbn. apply list_lookup_insert_eq. by eapply lookup_lt_Some. Qed.

Lemma with_slot_twice f ip i j : with_slot (with_slot f ip i) ip j = with_slot f ip j.
Proof. unfold with_slot. cbn. by rewrite list_insert_insert_eq. Qed.

Lemma updi_slot f ip i g : fs_icache f !! ip = Some i → updi ip g f = Ret tt (with_slot f ip (g i)).
Proof. intros Hi. unfold updi. by rewrite Hi. Qed.

Lemma icache_wf_slot f ip i j :
  icache_wf f → fs_icache f !! ip = Some i → 0 <= i_ref j →
  (i_ref j = 0 → sl_locked (i_lock j) = false) →
  (0 < i_ref j → i_dev j = i_dev i ∧ i_inum j = i_inum i ∧ 0 < i_ref i
     ∨ ∀ jp i', fs_icache f !! jp = Some i' → ¬ holds_inode (i_dev j) (i_inum j) i') →
  icache_wf (with_slot f ip j).
Proof.
  intros [W1 W2 W3 W4 W5] Hi Hj Hfree Hid.
  pose proof (lookup_lt_Some _ _ _ Hi) as Hlt.
  assert (∀ kp x, fs_icache (with_slot f ip j) !! kp = Some x →
    kp = ip ∧ x = j ∨ kp ≠ ip ∧ fs_icache f !! kp = Some x) as Hl.
  { intros kp x. cbn. destruct (decide (kp = ip)) as [->|Hn].
    - rewrite list_lookup_insert_eq by done. intros [= <-]. by left.
    - rewrite list_lookup_insert_ne by done. by right. }
  assert (∀ kp x, kp ≠ ip → fs_icache f !! kp = Some x → 0 < i_ref x → 0 < i_ref j →
    i_dev x = i_dev j → i_inum x = i_inum j → False) as Hclash.
  { intros kp x Hn Hx Hrx Hrj Hd Hm. destruct (Hid Hrj) as [(E1 & E2 & E3)|Hno].
    - apply Hn. eapply (W4 kp ip x i); try done; congruence.
    - by apply (Hno kp x Hx). }
  split; [cbn; by rewrite length_insert|done| | |].
  - intros kp x [[-> ->]|[_ Hx]]%Hl; [done|by eapply W3].
  - intros kp lp x y [[-> ->]|[Hn Hx]]%Hl [[-> ->]|[Hn' Hy]]%Hl; try done.
    + intros. exfalso. eapply (Hclash lp y); eauto.
    + intros. exfalso. eapply (Hclash kp x); eauto.
    + by eapply W4.
  - intros kp x [[-> ->]|[_ Hx]]%Hl; [done|by eapply W5].
Qed.

Lemma iget_spec f dev inum :
  icache_wf f →
  (∃ ip i, fs_icache f !! ip = Some i ∧ holds_inode dev inum i
     ∧ iget dev inum f = Ret ip (with_slot f ip (set_i_ref (i_ref i + 1) i)))
  ∨ (∀ ip i, fs_icache f !! ip = Some i → ¬ holds_inode dev inum i)
    ∧ ((∃ ip i, fs_icache f !! ip = Some i ∧ i_ref i = 0
        ∧ iget dev inum f = Ret ip (with_slot f ip
            (set_i_valid false (set_i_ref 1 (set_i_inum inum (set_i_dev dev i))))))
       ∨ (∀ ip i, fs_icache f !! ip = Some i → 0 < i_ref i)
         ∧ iget dev inum f = Panic "iget: no inodes").
Proof.
  intros [W1 W2 W3 W4 W5]. set (f1 := set_fs_icache_lock true f).
  assert (acquire_icache f = Ret tt f1) as Ha by (unfold acquire_icache; by rewrite W2).
  assert (∀ g : fsstate S, fs_icache_lock g = true → release_icache g = Ret tt (set_fs_icache_lock false g)) as Hrel
    by (intros g Hg; unfold release_icache; by rewrite Hg).
  assert (∀ ip, ip ∈ seq 0 NINODE → is_Some (fs_icache f1 !! ip)) as Hin.
  { intros ip Hip. apply elem_of_seq in Hip. apply lookup_lt_is_Some. cbn. lia. }
  assert (∀ ip i, fs_icache f !! ip = Some i → ip ∈ seq 0 NINODE) as Hall.
  { intros ip i Hi. apply elem_of_seq. apply lookup_lt_Some in Hi. lia. }
  assert (∀ ip j, set_fs_icache_lock false (with_slot f1 ip j) = with_slot f ip j) as Hout.
  { intros. unfold f1, with_slot. cbn. by rewrite <-W2. }
  destruct (iget_scan_spec f1 dev inum _ None Hin) as (r & Hr & Hspec).
  unfold iget. rewrite (bind_ret _ _ _ _ _ Ha), (bind_ret _ _ _ _ _ Hr).
  destruct r as [ip|e].
  - destruct Hspec as (_ & i & Hi & Hh). left. exists ip, i. split_and!; [done|done|].
    rewrite (bind_ret _ _ _ _ _ (updi_slot f1 ip i _ Hi)).
    erewrite bind_ret by (by apply Hrel). by rewrite Hout.
  - destruct Hspec as (H1 & H2 & H3). right. split.
    { intros ip i Hi. eapply H1; [by eapply Hall|done]. }
    destruct e as [ip|].
    + destruct H2 as [?|(_ & jp & i & [= <-] & _ & Hi & H0)]; [done|]. left.
      exists ip, i. split_and!; [done|done|].
      rewrite (bind_ret _ _ _ _ _ (updi_slot f1 ip i _ Hi)).
      do 3 (erewrite bind_ret by (eapply updi_slot, with_slot_eq, Hi); rewrite with_slot_twice).
      erewrite bind_ret by (by apply Hrel). by rewrite Hout.
    + right. split; [|done]. intros ip i Hi. pose proof (W3 ip i Hi).
      assert (i_ref i ≠ 0); [|lia]. by eapply (H3 eq_refl eq_refl ip i (Hall ip i Hi)).
Qed.

(** *** Locking *)

(** The inode in memory once [ilock] has read it. *)
Definition loaded f (i : inode) : inode :=
  set_i_valid true (get_dinode (disk_of f (IBLOCK (i_inum i) (fs_sb f))) (dinode_slot i)
    (set_i_lock (mksleeplock true (fs_pid f)) i)).

Lemma acquiresleep_i_eq f ip i :
  fs_icache f !! ip = Some i → sl_locked (i_lock i) = false →
  acquiresleep_i ip f = Ret tt (with_slot f ip (set_i_lock (mksleeplock true (fs_pid f)) i)).
Proof.
  intros Hi Hl. unfold acquiresleep_i. rewrite (bind_ret _ _ _ _ _ (geti_eq f ip i Hi)), Hl.
  by erewrite bind_gets, updi_slot.
Qed.

Lemma ilock_valid f ip i :
  fs_icache f !! ip = Some i → 1 <= i_ref i → sl_locked (i_lock i) = false → i_valid i = true →
  ilock ip f = Ret tt (with_slot f ip (set_i_lock (mksleeplock true (fs_pid f)) i)).
Proof.
  intros Hi Hr Hl Hv. unfold ilock. rewrite (bind_ret _ _ _ _ _ (geti_eq f ip i Hi)).
  destruct (Z.ltb_spec (i_ref i) 1); [lia|].
  rewrite (bind_ret _ _ _ _ _ (acquiresleep_i_eq f ip i Hi Hl)).
  erewrite bind_ret by (eapply geti_eq, with_slot_eq, Hi). cbn [i_valid set_i_lock]. by rewrite Hv.
Qed.

Lemma ilock_read f ip i H k :
  layout (fs_sb f) (fs_store f) → fs_icache f !! ip = Some i → 1 <= i_ref i → sl_locked (i_lock i) = false →
  i_valid i = false → i_dev i = ROOTDEV → inum_ok f i H →
  ready (fs_store f) H k → (size H ≤ k)%nat →
  dip_type (disk_of f (IBLOCK (i_inum i) (fs_sb f))) (dinode_slot i) ≠ 0 →
  returns (ilock ip) f (λ _ f', ∃ s', f' = with_slot (set_fs_store s' f) ip (loaded f i)
    ∧ kept (fs_store f) H k s' ∧ ∀ x, contents s' x = disk_of f x).
Proof.
  intros O1 Hi Hr Hl Hv Hd [Hin Hnot] Hrd Hsz Ht. unfold ilock.
  eapply returns_bind_eq; [by apply geti_eq|]. destruct (Z.ltb_spec (i_ref i) 1); [lia|].
  eapply returns_bind_eq; [by apply acquiresleep_i_eq|].
  set (i1 := set_i_lock (mksleeplock true (fs_pid f)) i).
  assert (∀ g j, fs_icache (with_slot (set_fs_store g f) ip j) !! ip = Some j) as Hsl
    by (intros; by eapply with_slot_eq).
  eapply returns_bind_eq; [by eapply geti_eq, with_slot_eq|]. cbn [i_valid i1 set_i_lock].
  rewrite Hv. cbn [negb]. eapply returns_bind_eq; [done|].
  change (i_dev i1) with (i_dev i). change (i_inum i1) with (i_inum i).
  change (fs_sb (with_slot f ip i1)) with (fs_sb f). rewrite Hd.
  destruct (ly_inodes _ _ O1 _ Hin) as [Hus _].
  rstep (read_release (with_slot f ip i1) H k); [done..|].
  intros bp f1 (s1 & -> & R1 & E1 & St1 & V1 & Ow & O1' & Fr).
  eapply returns_bind_eq; [by eapply data_spec|].
  change (set_fs_store s1 (with_slot f ip i1)) with (with_slot (set_fs_store s1 f) ip i1).
  eapply returns_bind_eq; [by eapply updi_slot, Hsl|]. rewrite with_slot_twice.
  cbn [fs_store with_slot set_fs_icache set_fs_store]. rewrite V1.
  rstep release_spec; [exact R1|exact Ow|exact St1|done|exact E1|exact O1'|exact Fr|].
  intros _ f2 (s2 & -> & K2 & V2).
  match goal with |- context [set_fs_store s2 (with_slot ?g ip ?j)] =>
    change (set_fs_store s2 (with_slot g ip j)) with (with_slot (set_fs_store s2 f) ip j) end.
  eapply returns_bind_eq; [by eapply updi_slot, Hsl|]. rewrite with_slot_twice.
  eapply returns_bind_eq; [by eapply geti_eq, Hsl|].
  match goal with |- context [i_type ?x =? 0] => destruct (Z.eqb_spec (i_type x) 0) as [He|_] end.
  { by destruct Ht. }
  apply returns_ret. exists s2. split_and!; [done|done|]. intros x. rewrite V2. cbn. apply V1.
Qed.

Lemma iunlock_eq f ip i :
  fs_icache f !! ip = Some i → i_lock i = mksleeplock true (fs_pid f) → 1 <= i_ref i →
  iunlock ip f = Ret tt (set_fs_wakeups (fs_wakeups f ++ [ChLock ip])
    (with_slot f ip (set_i_lock (mksleeplock false 0) i))).
Proof.
  intros Hi Hl Hr. unfold iunlock, holdingsleep_i, releasesleep_i.
  rewrite !bind_assoc. rewrite (bind_ret _ _ _ _ _ (geti_eq f ip i Hi)), bind_assoc, bind_gets, bind_mret.
  rewrite (bind_ret _ _ _ _ _ (geti_eq f ip i Hi)), Hl. cbn [sl_locked sl_pid]. rewrite Z.eqb_refl.
  destruct (Z.ltb_spec (i_ref i) 1); [lia|]. cbn [negb andb orb].
  by rewrite (bind_ret _ _ _ _ _ (updi_slot f ip i _ Hi)).
Qed.

(** *** Dropping a reference

    The inode stays on the disk unless it has no link and this is the last
    reference. *)
Lemma iput_keeps f ip i :
  fs_icache f !! ip = Some i → sl_locked (i_lock i) = false → fs_icache_lock f = false →
  ¬ (i_valid i = true ∧ i_nlink i = 0 ∧ i_ref i = 1) →
  iput ip f = Ret tt (set_fs_wakeups (fs_wakeups f ++ [ChLock ip])
    (with_slot f ip (set_i_ref (i_ref i - 1) (set_i_lock (mksleeplock false 0) i)))).
Proof.
  intros Hi Hl Hk Hno. unfold iput.
  rewrite (bind_ret _ _ _ _ _ (acquiresleep_i_eq f ip i Hi Hl)).
  set (i1 := set_i_lock (mksleeplock true (fs_pid f)) i). set (f1 := with_slot f ip i1).
  assert (fs_icache f1 !! ip = Some i1) as Hi1 by (by eapply with_slot_eq).
  assert (geti ip f1 = Ret i1 f1) as Hg by (by apply geti_eq).
  rewrite (bind_ret _ _ _ _ _ Hg).
  assert (∀ A (g : unit → M (fsstate S) A), ((if i_valid i1 && (i_nlink i1 =? 0) then
     acquire_icache;; i ← geti ip; release_icache;;
     if i_ref i =? 1 then itrunc ip;; updi ip (set_i_type 0);; iupdate ip;; updi ip (set_i_valid false)
     else mret tt else mret tt) ≫= g) f1 = g tt f1) as Hif.
  { intros A g. destruct (i_valid i1 && (i_nlink i1 =? 0)) eqn:E; [|done].
    apply andb_true_iff in E as [E1 E2%Z.eqb_eq]. apply bind_ret.
    assert (acquire_icache f1 = Ret tt (set_fs_icache_lock true f1)) as Ha
      by (unfold acquire_icache; change (fs_icache_lock f1) with (fs_icache_lock f); by rewrite Hk).
    rewrite (bind_ret _ _ _ _ _ Ha).
    erewrite bind_ret by (apply (geti_eq (set_fs_icache_lock true f1)), Hi1).
    erewrite bind_ret by (by unfold release_icache; cbn).
    destruct (Z.eqb_spec (i_ref i1) 1) as [E3|_]; [by destruct Hno|].
    unfold mret, M_ret. f_equal. unfold f1, with_slot. destruct f; cbn in Hk |- *; by rewrite Hk. }
  rewrite Hif. unfold releasesleep_i. rewrite bind_assoc.
  rewrite (bind_ret _ _ _ _ _ (updi_slot f1 ip i1 _ Hi1)), bind_modify. unfold f1.
  rewrite with_slot_twice.
  assert (∀ g : fsstate S, fs_icache_lock g = false →
    acquire_icache g = Ret tt (set_fs_icache_lock true g)) as Ha
    by (intros g Hg'; unfold acquire_icache; by rewrite Hg').
  erewrite bind_ret by (by apply Ha).
  erewrite bind_ret by (eapply updi_slot; cbn; apply list_lookup_insert_eq; by eapply lookup_lt_Some).
  unfold release_icache, with_slot. destruct f; cbn in Hk |- *. by rewrite list_insert_insert_eq, Hk.
Qed.

Lemma icache_wf_wakeups f w : icache_wf f → icache_wf (set_fs_wakeups w f).
Proof. intros [W1 W2 W3 W4 W5]. by split. Qed.

Lemma icache_wf_store f s : icache_wf f → icache_wf (set_fs_store s f).
Proof. intros [W1 W2 W3 W4 W5]. by split. Qed.

(** Unlocking and dropping the last reference of an inode that has links: its slot
    is free, and nothing else has changed. *)
Lemma iunlockput_last f ip i :
  icache_wf f → fs_icache f !! ip = Some i → i_lock i = mksleeplock true (fs_pid f) →
  i_ref i = 1 → i_nlink i ≠ 0 →
  ∃ w, iunlockput ip f = Ret tt (set_fs_wakeups w
    (with_slot f ip (set_i_ref 0 (set_i_lock (mksleeplock false 0) i)))).
Proof.
  intros Hw Hi Hl Hr Hn. unfold iunlockput.
  rewrite (bind_ret _ _ _ _ _ (iunlock_eq f ip i Hi Hl ltac:(lia))).
  erewrite iput_keeps; [|by eapply with_slot_eq|done|apply Hw|by intros (_ & ? & _)].
  eexists. f_equal. unfold with_slot. cbn. by rewrite list_insert_insert_eq, Hr.
Qed.

Lemma icache_wf_freed f ip i :
  icache_wf f → fs_icache f !! ip = Some i →
  icache_wf (with_slot f ip (set_i_ref 0 (set_i_lock (mksleeplock false 0) i))).
Proof. intros Hw Hi. eapply icache_wf_slot; [done|done|done|done|]. cbn. lia. Qed.
End icache.

(** ** The theorems *)
Section theorems.
Context {S : Type} `{!BlockStore S, !BlockStoreSpec S}.
Implicit Types (f : fsstate S).

(** C31: [iget] never puts one inode in two slots.  In a well-formed cache the call
    either returns the slot that holds the inode already, with one more reference;
    or, when no slot holds it, recycles a free slot with one reference and no valid
    content; or, when no slot is free, panics.  All other slots are as before and
    the cache is well-formed again. *)
Theorem iget_correct f dev inum :
  icache_wf f →
  (∃ ip i j, iget dev inum f = Ret ip (with_slot f ip j) ∧ fs_icache f !! ip = Some i
     ∧ icache_wf (with_slot f ip j) ∧ holds_inode dev inum j
     ∧ ((holds_inode dev inum i ∧ j = set_i_ref (i_ref i + 1) i)
        ∨ (i_ref i = 0 ∧ i_ref j = 1 ∧ i_valid j = false
           ∧ ∀ jp i', fs_icache f !! jp = Some i' → ¬ holds_inode dev inum i')))
  ∨ (iget dev inum f = Panic "iget: no inodes"
     ∧ ∀ jp i', fs_icache f !! jp = Some i' → 0 < i_ref i' ∧ ¬ holds_inode dev inum i').
Proof.
  intros Hw. destruct (iget_spec f dev inum Hw) as [(ip & i & Hi & Hh & E)|(Hno & [(ip & i & Hi & H0 & E)|[Hall E]])].
  - left. eexists ip, i, _. pose proof Hh as (Hr & Hd & Hm).
    split_and!; [done|done| |split_and!; cbn; [lia|done..]|by left].
    eapply icache_wf_slot; [done|done|cbn; lia|cbn; lia|]. intros _. by left.
  - left. eexists ip, i, _. split_and!; [done|done| |done|by right].
    eapply icache_wf_slot; [done|done|done|done|]. intros _. by right.
  - right. split; [done|]. intros jp i' Hi. split; [by eapply Hall|by eapply Hno].
Qed.

(** an inode survives its eviction from the cache.  When the holder of a linked
    inode writes it back, unlocks it and drops the last reference, [iget] and
    [ilock] of the same number succeed and find the same type, device numbers,
    link count, size and block addresses, read again from the disk. *)
Theorem inode_survives_eviction f ip i H k :
  icache_wf f → fs_ok f → fs_icache f !! ip = Some i → i_lock i = mksleeplock true (fs_pid f) →
  i_ref i = 1 → i_nlink i ≠ 0 → i_type i ≠ 0 → i_dev i = ROOTDEV → inode_fits i → inum_ok f i H →
  ready (fs_store f) H (1 + k) → (size H ≤ k)%nat →
  returns (iupdate ip;; iunlockput ip;; jp ← iget ROOTDEV (i_inum i); ilock jp;; geti jp) f
    (λ j _, same_dinode j i ∧ i_inum j = i_inum i ∧ i_ref j = 1 ∧ i_valid j = true
       ∧ i_lock j = mksleeplock true (fs_pid f)).
Proof.
  intros Hw Hok Hi Hl Hr Hn Ht Hd Hf Hin Hrd Hsz.
  rstep iupdate_spec; [done|done|done|exact Hin|exact Hrd|lia|].
  intros _ f1 (s1 & -> & K1 & V1). set (g := set_fs_store s1 f).
  destruct (iunlockput_last g ip i) as [w E]; [by apply icache_wf_store|done|done|done|done|].
  eapply returns_bind_eq; [exact E|]. set (i1 := set_i_ref 0 (set_i_lock (mksleeplock false 0) i)).
  set (g1 := set_fs_wakeups w (with_slot g ip i1)).
  assert (icache_wf g1) as Hw1 by (by apply icache_wf_wakeups, icache_wf_freed; [apply icache_wf_store|]).
  assert (∀ jp j, fs_icache g1 !! jp = Some j → ¬ holds_inode ROOTDEV (i_inum i) j) as Hno.
  { intros jp j Hj (Hrj & Hdj & Hmj). cbn in Hj. destruct (decide (jp = ip)) as [->|Hne].
    - rewrite list_lookup_insert_eq in Hj by (by eapply lookup_lt_Some). by simplify_eq.
    - rewrite list_lookup_insert_ne in Hj by done. apply Hne.
      eapply (ic_uniq f Hw jp ip j i); try done; [lia|congruence]. }
  destruct (iget_spec g1 ROOTDEV (i_inum i) Hw1)
    as [(jp & j & Hj & Hh & _)|(_ & [(jp & j & Hj & H0 & E1)|[Hall _]])].
  { by destruct (Hno jp j). }
  2:{ specialize (Hall ip i1). cbn in Hall.
      rewrite list_lookup_insert_eq in Hall by (by eapply lookup_lt_Some). by specialize (Hall eq_refl). }
  eapply returns_bind_eq; [exact E1|].
  set (j1 := set_i_valid false (set_i_ref 1 (set_i_inum (i_inum i) (set_i_dev ROOTDEV j)))).
  pose proof (fo_blocks f Hok (IBLOCK (i_inum i) (fs_sb f))) as [Hlen _].
  assert (disk_of (with_slot g1 jp j1) (IBLOCK (i_inum i) (fs_sb f))
    = put_dinode (disk_of f (IBLOCK (i_inum i) (fs_sb f))) (dinode_slot i) i) as Hdisk.
  { unfold disk_of at 1. cbn. rewrite V1. by rewrite decide_True. }
  pose proof (dinode_roundtrip (disk_of f (IBLOCK (i_inum i) (fs_sb f))) (dinode_slot i) i
    (set_i_lock (mksleeplock true (fs_pid f)) j1) Hlen (dinode_slot_lt i) Hf) as Hrt.
  rstep (ilock_read (with_slot g1 jp j1) jp j1 H k).
  - eapply layout_evolves; [apply K1|apply Hok].
  - by eapply with_slot_eq.
  - done.
  - cbn. by eapply (ic_free g1 Hw1).
  - done.
  - done.
  - exact Hin.
  - apply K1.
  - done.
  - change (dinode_slot j1) with (dinode_slot i). change (fs_sb _) with (fs_sb f).
    change (i_inum j1) with (i_inum i). rewrite Hdisk.
    destruct Hrt as [Hrt _]. cbn in Hrt. by rewrite Hrt.
  - intros _ f2 (s2 & -> & _). unfold returns.
    erewrite geti_eq by (eapply with_slot_eq; cbn; by eapply list_lookup_insert_eq, lookup_lt_Some).
    unfold loaded. change (dinode_slot j1) with (dinode_slot i). change (fs_sb _) with (fs_sb f).
    change (i_inum j1) with (i_inum i). rewrite Hdisk. split_and!; try done; apply Hrt.
Qed.
End theorems.

(** ** Witnesses: the small file system with a full-size inode cache *)
Module Cache.
Definition blank_inode : inode := mkinode 0 0 0 initsleeplock false 0 0 0 0 0 (replicate 13 0).
Definition state : fsstate storage :=
  mkfs Small.store Small.sb (Small.file0 :: replicate 49 blank_inode) false 3 0 [].

Lemma slot_cases (ip : nat) i :
  fs_icache state !! ip = Some i → ip = 0%nat ∧ i = Small.file0 ∨ i = blank_inode.
Proof.
  destruct ip as [|ip]; cbn; intros Hi; [left; by simplify_eq|right].
  by apply (lookup_replicate_1 49) in Hi as [-> _].
Qed.

Lemma state_wf : icache_wf state.
Proof.
  split; [done|done|..].
  - intros ip i [[-> ->]| ->]%slot_cases; done.
  - intros ip jp i j [[-> ->]| ->]%slot_cases [[-> ->]| ->]%slot_cases; done.
  - intros ip i [[-> ->]| ->]%slot_cases; done.
Qed.

Lemma state_fs_ok : fs_ok state.
Proof. destruct Small.state_ok as [O1 O2 O3]. by split. Qed.

Lemma file0_fits : inode_fits Small.file0.
Proof. split; try done; [..|apply Forall_replicate; done]; cbn; lia. Qed.
End Cache.

Lemma iget_correct_witness :
  icache_wf Cache.state
  ∧ ((∃ ip i j, iget ROOTDEV 1 Cache.state = Ret ip (with_slot Cache.state ip j)
       ∧ fs_icache Cache.state !! ip = Some i
       ∧ icache_wf (with_slot Cache.state ip j) ∧ holds_inode ROOTDEV 1 j
       ∧ ((holds_inode ROOTDEV 1 i ∧ j = set_i_ref (i_ref i + 1) i)
          ∨ (i_ref i = 0 ∧ i_ref j = 1 ∧ i_valid j = false
             ∧ ∀ jp i', fs_icache Cache.state !! jp = Some i' → ¬ holds_inode ROOTDEV 1 i')))
    ∨ (iget ROOTDEV 1 Cache.state = Panic "iget: no inodes"
       ∧ ∀ jp i', fs_icache Cache.state !! jp = Some i' → 0 < i_ref i' ∧ ¬ holds_inode ROOTDEV 1 i')).
Proof. split; [exact Cache.state_wf|]. exact (iget_correct Cache.state ROOTDEV 1 Cache.state_wf). Defined.

Lemma inode_survives_eviction_witness :
  returns (iupdate 0;; iunlockput 0;; jp ← iget ROOTDEV 1; ilock jp;; geti jp) Cache.state
    (λ j _, same_dinode j Small.file0 ∧ i_inum j = 1 ∧ i_ref j = 1 ∧ i_valid j = true
       ∧ i_lock j = mksleeplock true 3).
Proof.
  apply (inode_survives_eviction Cache.state 0 Small.file0 ∅ 5);
    [exact Cache.state_wf|exact Cache.state_fs_ok|reflexivity|reflexivity|reflexivity|discriminate
    |discriminate|reflexivity|exact Cache.file0_fits|exact Small.state_inum
    |apply Small.store_ready; lia|rewrite size_empty; lia].
Defined.
