(* ===== verification/Mkfs.v ===== *)
(** * The tool that makes the file system image (mkfs.c)

    The image is a function from sectors to their bytes.  [struct dinode] is kept as its
    64 bytes.  An error of the host (a file that cannot be opened, a failed seek or
    write) ends the tool; reading past the end of the image and a failed [assert] are
    the outcome [Panic]. *)
From S2P Require Import Prelude Params Block Log Fs.

Module Mkfs.
Definition NINODES : Z := 200.

Definition nbitmap : Z := FSSIZE / (BSIZE * 8) + 1.
Definition ninodeblocks : Z := NINODES / IPB + 1.
Definition nlog : Z := LOGSIZE.
Definition nmeta : Z := 2 + nlog + ninodeblocks + nbitmap.
Definition nblocks : Z := FSSIZE - nmeta.

Record image := mkimage {
  im_sect : Z → block;
  im_freeinode : Z;
  im_freeblock : Z
}.
Definition set_im_sect (v : Z → block) (s : image) : image := mkimage v (im_freeinode s) (im_freeblock s).
Definition set_im_freeinode (v : Z) (s : image) : image := mkimage (im_sect s) v (im_freeblock s).
Definition set_im_freeblock (v : Z) (s : image) : image := mkimage (im_sect s) (im_freeinode s) v.
Abbreviation IM := (M image).

(** The bytes of [x] in Intel order, read as a number of the host, which has that order. *)
Definition xshort (x : Z) : Z := get_half [x mod 2 ^ 8; (x / 2 ^ 8) mod 2 ^ 8] 0.
Definition xint (x : Z) : Z :=
  get_word [x mod 2 ^ 8; (x / 2 ^ 8) mod 2 ^ 8; (x / 2 ^ 16) mod 2 ^ 8; (x / 2 ^ 24) mod 2 ^ 8] 0.

Definition sb : superblock :=
  mksb (xint FSSIZE) (xint nblocks) (xint NINODES) (xint nlog) (xint 2) (xint (2 + nlog))
    (xint (2 + nlog + ninodeblocks)).
(** [memmove(buf, &sb, sizeof(sb))] *)
Definition sb_block : block :=
  foldl (λ d jv, put_word d jv.1 jv.2) zero_block
    [(0%nat, sb_size sb); (1%nat, sb_nblocks sb); (2%nat, sb_ninodes sb); (3%nat, sb_nlog sb);
     (4%nat, sb_logstart sb); (5%nat, sb_inodestart sb); (6%nat, sb_bmapstart sb)].

Definition wsect (sec : Z) (buf : block) : IM unit :=
  modify (λ s, set_im_sect (λ x, if x =? sec then buf else im_sect s x) s).
(** The image has [FSSIZE] sectors. *)
Definition rsect (sec : Z) : IM block :=
  if sec <? FSSIZE then gets (λ s, im_sect s sec) else panic "read".

Definition winode (inum : Z) (ip : list Z) : IM unit :=
  let bn := IBLOCK inum sb in
  buf ← rsect bn;
  wsect bn (put_bytes buf (Z.to_nat (inum mod IPB * sizeof_dinode)) ip).
Definition rinode (inum : Z) : IM (list Z) :=
  let bn := IBLOCK inum sb in
  buf ← rsect bn;
  mret (get_bytes buf (Z.to_nat (inum mod IPB * sizeof_dinode)) (Z.to_nat sizeof_dinode)).

(** The fields of [struct dinode]. *)
Definition din_zero : list Z := replicate (Z.to_nat sizeof_dinode) 0.
Definition din_size (din : list Z) : Z := get_word din 2.
Definition set_din_size (din : list Z) (v : Z) : list Z := put_word din 2 v.
Definition din_addr (din : list Z) (j : Z) : Z := get_word din (3 + Z.to_nat j).
Definition set_din_addr (din : list Z) (j v : Z) : list Z := put_word din (3 + Z.to_nat j) v.

Definition ialloc (type : Z) : IM Z :=
  inum ← gets im_freeinode;
  modify (set_im_freeinode (u32 (inum + 1)));;
  let din := din_zero in
  let din := put_half din 0 (xshort type) in
  let din := put_half din 3 (xshort 1) in
  let din := set_din_size din (xint 0) in
  winode inum din;;
  mret inum.

(** [for(i = 0; i < used; i++) buf[i/8] = buf[i/8] | (0x1 << (i%8))] *)
Definition bits (used : Z) : block := foldl bit_set zero_block (seq 0 (Z.to_nat used)).
Definition balloc (used : Z) : IM unit :=
  if negb (used <? BSIZE * 8) then panic "assert" else
  wsect (sb_bmapstart sb) (bits used).

(** [freeblock++] *)
Definition newblock : IM Z :=
  b ← gets im_freeblock;
  modify (set_im_freeblock (u32 (b + 1)));;
  mret b.

(** [if(xint(din.addrs[j]) == 0) din.addrs[j] = xint(freeblock++)] *)
Definition ensure_addr (din : list Z) (j : Z) : IM (list Z) :=
  if xint (din_addr din j) =? 0 then
    b ← newblock;
    mret (set_din_addr din j (xint b))
  else mret din.

(** The block [x] of the file for [fbn], and the inode. *)
Definition iappend_block (din : list Z) (fbn : Z) : IM (list Z * Z) :=
  if fbn <? NDIRECT then
    din ← ensure_addr din fbn;
    mret (din, xint (din_addr din fbn))
  else
    din ← ensure_addr din NDIRECT;
    let a := xint (din_addr din NDIRECT) in
    indirect ← rsect a;
    if NINDIRECT <=? fbn - NDIRECT then fault else
    let i := Z.to_nat (fbn - NDIRECT) in
    indirect ←
      (if get_word indirect i =? 0 then
         b ← newblock;
         let indirect := put_word indirect i (xint b) in
         wsect a indirect;;
         mret indirect
       else mret indirect);
    mret (din, xint (get_word indirect i)).

(** The loop of [iappend]: [p] is what is left of the [n] bytes. *)
Fixpoint iappend_loop (fuel : nat) (din : list Z) (off : Z) (p : list Z) : IM (list Z * Z) :=
  match p, fuel with
  | [], _ => mret (din, off)
  | _, O => fault
  | _, S fuel' =>
      let fbn := off / BSIZE in
      if negb (fbn <? MAXFILE) then panic "assert" else
      '(din, x) ← iappend_block din fbn;
      let n1 := Z.min (Z.of_nat (length p)) ((fbn + 1) * BSIZE - off) in
      buf ← rsect x;
      wsect x (put_bytes buf (Z.to_nat (off - fbn * BSIZE)) (take (Z.to_nat n1) p));;
      iappend_loop fuel' din (u32 (off + n1)) (drop (Z.to_nat n1) p)
  end.

Definition iappend (inum : Z) (p : list Z) : IM unit :=
  din ← rinode inum;
  let off := xint (din_size din) in
  '(din, off) ← iappend_loop (length p) din off p;
  winode inum (set_din_size din (xint off)).

(** [while((cc = read(fd, buf, sizeof(buf))) > 0) iappend(inum, buf, cc)] *)
Fixpoint append_file (fuel : nat) (inum : Z) (content : list Z) : IM unit :=
  match content, fuel with
  | [], _ => mret tt
  | _, O => fault
  | _, S fuel' =>
      iappend inum (take (Z.to_nat BSIZE) content);;
      append_file fuel' inum (drop (Z.to_nat BSIZE) content)
  end.

(** One file of the command line, by its name and content. *)
Definition add_file (rootino : Z) (f : list Z * list Z) : IM unit :=
  if bool_decide (47 ∈ f.1) then panic "assert" else
  let name := match f.1 with c :: name' => if c =? 95 then name' else f.1 | [] => f.1 end in
  inum ← ialloc T_FILE;
  iappend rootino (mk_dirent (xshort inum) name);;
  append_file (length f.2) inum f.2.

Definition main (files : list (list Z * list Z)) : IM unit :=
  modify (set_im_freeblock nmeta);;
  modify (set_im_sect (λ _, zero_block));;
  wsect 1 sb_block;;
  rootino ← ialloc T_DIR;
  if negb (rootino =? ROOTINO) then panic "assert" else
  iappend rootino (mk_dirent (xshort rootino) [46]);;
  iappend rootino (mk_dirent (xshort rootino) [46; 46]);;
  mfor files (add_file rootino);;
  din ← rinode rootino;
  let off := xint (din_size din) in
  let off := u32 ((off / BSIZE + 1) * BSIZE) in
  winode rootino (set_din_size din (xint off));;
  freeblock ← gets im_freeblock;
  balloc freeblock.

(** The variables before [main]. *)
Definition start : image := mkimage (λ _, []) 1 0.
End Mkfs.
