(* ===== verification/MkfsThms.v ===== *)
(** * The image mkfs makes

    Appending to a file adds the bytes to it and changes no other file; the image of
    [main] has the files of the command line, in the form the kernel reads. *)
From S2P Require Import Prelude Params Block Bio BioInv Log Str Store Fs FsAlloc FsTree FsMap FsContent Mkfs.

(** A place in the tree of a file: a direct block, the index block, one of its entries. *)
Inductive slot := D (j : nat) | X | E (e : nat).
#[export] Instance slot_eq_dec : EqDecision slot.
Proof. solve_decision. Defined.

Definition slot_ok (s : slot) : Prop := match s with D j => (j < 10)%nat | X => True | E e => (e < 128)%nat end.
Definition is_leaf (s : slot) : Prop := slot_ok s ∧ s ≠ X.
Definition is_inode (k : Z) : Prop := 0 <= k < 208.

Section forest_lemmas.
Implicit Types (v : Z → block) (a : list Z) (A : Z → list Z) (s : slot).

Definition at_slot v a s : Z :=
  match s with
  | D j => a !!! j
  | X => a !!! 10%nat
  | E e => if a !!! 10%nat =? 0 then 0 else get_word (v (a !!! 10%nat)) e
  end.
Definition leaf v a s : block := if at_slot v a s =? 0 then zero_block else v (at_slot v a s).
Definition slot_of (bn : Z) : slot := if bn <? 10 then D (Z.to_nat bn) else E (Z.to_nat (bn - 10)).

Lemma slot_of_leaf bn : 0 <= bn < 138 → is_leaf (slot_of bn).
Proof. intros. unfold slot_of, is_leaf. destruct (Z.ltb_spec bn 10); cbn; split; (lia || done). Qed.
Lemma slot_of_inj bn bn' : 0 <= bn → 0 <= bn' → slot_of bn = slot_of bn' → bn = bn'.
Proof.
  intros. unfold slot_of in *. destruct (Z.ltb_spec bn 10), (Z.ltb_spec bn' 10); simplify_eq; lia.
Qed.

(** What the kernel reads. *)
Lemma file_byte_leaf v a off :
  0 <= off < 138 * 512 → file_byte v a off = byte_at (leaf v a (slot_of (off / 512))) (Z.to_nat (off mod 512)).
Proof.
  intros Ho. assert (0 <= off / 512 < 138) as Hb by (split; [apply Z.div_pos; lia|apply Z.div_lt_upper_bound; lia]).
  unfold file_byte, file_block, bmap_path, slot_of. fsconst.
  destruct (Z.ltb_spec (off / 512) 10); [done|]. rewrite (proj2 (Z.ltb_lt (off / 512 - 10) 128)) by lia.
  unfold leaf_block, leaf, node, at_slot. cbn [fst snd walk]. done.
Qed.

Definition upd A (i : Z) a : Z → list Z := λ k, if k =? i then a else A k.
Lemma trees_eq A i a : upd A i a i = a.
Proof. unfold upd. by rewrite Z.eqb_refl. Qed.
Lemma trees_ne A i a k : k ≠ i → upd A i a k = A k.
Proof. intros. unfold upd. by rewrite (proj2 (Z.eqb_neq k i)). Qed.

Record forest v A (fb : Z) : Prop := {
  fo_range : ∀ k s, is_inode k → slot_ok s → at_slot v (A k) s ≠ 0 → Mkfs.nmeta <= at_slot v (A k) s < fb;
  fo_inj : ∀ k s k' s', is_inode k → is_inode k' → slot_ok s → slot_ok s' → at_slot v (A k) s ≠ 0 →
    at_slot v (A k) s = at_slot v (A k') s' → k = k' ∧ s = s';
  fo_fresh : ∀ b, fb <= b → v b = zero_block;
  fo_blk : ∀ b, blk_ok (v b);
  fo_fb : Mkfs.nmeta <= fb;
}.

(** [s0] of the file [i] gets the block [fb], the rest is as before. *)
Definition linked v A (fb i : Z) s0 v' A' : Prop :=
  ∀ k s, is_inode k → slot_ok s →
    at_slot v' (A' k) s = if decide (k = i ∧ s = s0) then fb else at_slot v (A k) s.

Lemma forest_link v A fb i s0 v' A' :
  forest v A fb → linked v A fb i s0 v' A' →
  (∀ b, fb + 1 <= b → v' b = zero_block) → (∀ b, blk_ok (v' b)) → forest v' A' (fb + 1).
Proof.
  intros [F1 F2 F3 F4 F5] Hl Hz Hb. constructor; try done; [..|lia].
  - intros k s Hk Hs. rewrite Hl by done. case_decide; [lia|]. intros Hn. specialize (F1 k s Hk Hs Hn). lia.
  - intros k s k' s' Hk Hk' Hs Hs'. rewrite !Hl by done.
    destruct (decide (k = i ∧ s = s0)) as [[-> ->]|H1], (decide (k' = i ∧ s' = s0)) as [[-> ->]|H2]; try done.
    + intros Hn Heq. assert (at_slot v (A k') s' ≠ 0) as Hn' by (rewrite <-Heq; done).
      specialize (F1 k' s' Hk' Hs' Hn'). lia.
    + intros Hn Heq. specialize (F1 k s Hk Hs Hn). lia.
    + by apply F2.
Qed.

(** The content of all files. *)
Definition same_leaves v A v' A' : Prop := ∀ k s, is_inode k → is_leaf s → leaf v' (A' k) s = leaf v (A k) s.

Lemma same_leaves_trans v1 A1 v2 A2 v3 A3 :
  same_leaves v1 A1 v2 A2 → same_leaves v2 A2 v3 A3 → same_leaves v1 A1 v3 A3.
Proof. intros H1 H2 k s Hk Hs. by rewrite H2, H1. Qed.

Lemma linked_leaves v A fb i s0 v' A' :
  forest v A fb → linked v A fb i s0 v' A' → v' fb = zero_block →
  is_inode i → slot_ok s0 → at_slot v (A i) s0 = 0 →
  (∀ k s, is_inode k → is_leaf s → at_slot v (A k) s ≠ 0 → v' (at_slot v (A k) s) = v (at_slot v (A k) s)) →
  same_leaves v A v' A'.
Proof.
  intros Hf Hl Hz Hi Hs0 H0 Hv k s Hk Hs. unfold leaf. rewrite Hl by (done || apply Hs). case_decide as Hc.
  - destruct Hc as [-> ->]. rewrite H0, Hz. cbn. by destruct (fb =? 0).
  - destruct (Z.eqb_spec (at_slot v (A k) s) 0) as [_|Hn]; [done|]. by apply Hv.
Qed.

(** A direct block, or the index block. *)
Lemma link_addr v A fb i (j : nat) :
  forest v A fb → is_inode i → length (A i) = 13%nat → (j <= 10)%nat → A i !!! j = 0 →
  forest v (upd A i (<[j := fb]> (A i))) (fb + 1) ∧ same_leaves v A v (upd A i (<[j := fb]> (A i))).
Proof.
  intros Hf Hi Hlen Hj H0. pose proof (fo_fresh _ _ _ Hf fb ltac:(lia)) as Hz.
  pose proof (fo_fb _ _ _ Hf) as Hfb. change Mkfs.nmeta with 68 in Hfb.
  set (s0 := if decide (j = 10%nat) then X else D j).
  assert (linked v A fb i s0 v (upd A i (<[j := fb]> (A i)))) as Hl.
  { intros k s Hk Hs. destruct (decide (k = i)) as [->|Hki]; [|rewrite trees_ne by done; rewrite decide_False by tauto; done].
    rewrite trees_eq. destruct s as [j'| |e]; cbn [at_slot slot_ok] in *; unfold s0.
    - destruct (decide (j' = j)) as [->|Hne].
      + rewrite list_lookup_total_insert_eq by lia. rewrite (decide_False (P := j = 10%nat)) by lia. by rewrite decide_True.
      + rewrite list_lookup_total_insert_ne by done. rewrite decide_False; [done|]. intros [_ Hc]. case_decide; congruence.
    - destruct (decide (j = 10%nat)) as [->|Hne].
      + rewrite list_lookup_total_insert_eq by lia. by rewrite decide_True.
      + rewrite list_lookup_total_insert_ne by done. rewrite decide_False; [done|]. by intros [_ ?].
    - rewrite (decide_False (P := i = i ∧ E e = _)) by (intros [_ Hc]; case_decide; congruence).
      destruct (decide (j = 10%nat)) as [->|Hne].
      + rewrite list_lookup_total_insert_eq by lia. rewrite H0, Hz, get_word_zero_block. cbn. by destruct (fb =? 0).
      + by rewrite list_lookup_total_insert_ne. }
  assert (slot_ok s0) as Hs0 by (unfold s0; case_decide; cbn; lia).
  assert (at_slot v (A i) s0 = 0) as Hat by (unfold s0; case_decide; subst; done).
  split; [|by eapply linked_leaves].
  eapply forest_link; [done|done|intros b Hb; apply (fo_fresh _ _ _ Hf); lia|apply Hf].
Qed.

(** A sector replaced. *)
Definition put_sect v (n : Z) (d : block) : Z → block := λ x, if x =? n then d else v x.
Lemma put_sect_eq v n d : put_sect v n d n = d.
Proof. unfold put_sect. by rewrite Z.eqb_refl. Qed.
Lemma put_sect_ne v n d x : x ≠ n → put_sect v n d x = v x.
Proof. intros. unfold put_sect. by rewrite (proj2 (Z.eqb_neq x n)). Qed.

Lemma blk_put_word d i x : blk_ok d → blk_ok (put_word d i x).
Proof. intros [H1 H2]. split; [by rewrite length_put_word|by apply put_word_bytes]. Qed.

(** An entry of the index block. *)
Lemma link_index v A fb i (e : nat) :
  forest v A fb → is_inode i → (e < 128)%nat → fb < 2 ^ 31 → A i !!! 10%nat ≠ 0 → at_slot v (A i) (E e) = 0 →
  let v' := put_sect v (A i !!! 10%nat) (put_word (v (A i !!! 10%nat)) e fb) in
  forest v' A (fb + 1) ∧ same_leaves v A v' A ∧ at_slot v' (A i) (E e) = fb.
Proof.
  intros Hf Hi He Hfb Hx H0 v'. pose proof Hf as [F1 F2 F3 F4 F5]. change Mkfs.nmeta with 68 in *.
  pose proof (F1 i X Hi I Hx) as Hr. cbn [at_slot] in Hr.
  assert (linked v A fb i (E e) v' A) as Hl.
  { intros k s Hk Hs. destruct s as [j| |e']; cbn [at_slot];
      [by rewrite decide_False by (intros [_ ?]; congruence)..|].
    destruct (Z.eqb_spec (A k !!! 10%nat) 0) as [Hz|Hz].
    { rewrite decide_False; [done|]. intros [-> _]. done. }
    destruct (decide (k = i)) as [->|Hki].
    - unfold v'. rewrite put_sect_eq. destruct (decide (e' = e)) as [->|Hne].
      + rewrite decide_True by done. rewrite get_put_word_eq; [apply u32_id; unfold is_u32; lia|].
        destruct (F4 (A i !!! 10%nat)) as [-> _]. change (Z.to_nat BSIZE) with 512%nat. lia.
      + rewrite get_put_word_ne by done. rewrite decide_False; [done|]. intros [_ ?]. congruence.
    - rewrite decide_False by tauto. unfold v'. rewrite put_sect_ne; [done|]. intros Hc.
      destruct (F2 k X i X Hk Hi I I Hz Hc). done. }
  split; [|split].
  - eapply forest_link; [done|done| |].
    + intros b Hb. unfold v'. rewrite put_sect_ne by lia. apply F3. lia.
    + intros b. unfold v', put_sect. case_match; [by apply blk_put_word|done].
  - eapply (linked_leaves v A fb i (E e)); try done.
    + unfold v'. rewrite put_sect_ne by lia. apply F3. lia.
    + intros k s Hk [Hs Hsx] Hn. unfold v'. rewrite put_sect_ne; [done|]. intros Hc.
      destruct (F2 k s i X Hk Hi Hs I Hn Hc). done.
  - rewrite Hl by done. by rewrite decide_True.
Qed.

(** Writing to a data block. *)
Lemma write_leaf v A fb i s0 d :
  forest v A fb → is_inode i → is_leaf s0 → at_slot v (A i) s0 ≠ 0 → blk_ok d →
  let v' := put_sect v (at_slot v (A i) s0) d in
  forest v' A fb ∧ (∀ k s, is_inode k → slot_ok s → at_slot v' (A k) s = at_slot v (A k) s)
  ∧ ∀ k s, is_inode k → is_leaf s → leaf v' (A k) s = if decide (k = i ∧ s = s0) then d else leaf v (A k) s.
Proof.
  intros Hf Hi [Hs0 Hx0] Hn0 Hd v'. pose proof Hf as [F1 F2 F3 F4 F5]. pose proof (F1 i s0 Hi Hs0 Hn0) as Hr.
  assert (∀ k s, is_inode k → slot_ok s → at_slot v' (A k) s = at_slot v (A k) s) as Hat.
  { intros k [j| |e] Hk Hs; cbn [at_slot]; try done. destruct (Z.eqb_spec (A k !!! 10%nat) 0) as [Hz|Hz]; [done|].
    unfold v'. rewrite put_sect_ne; [done|]. intros Hc. destruct (F2 k X i s0 Hk Hi I Hs0 Hz Hc). done. }
  split; [|split; [done|]].
  - constructor; try done.
    + intros k s Hk Hs. rewrite Hat by done. by apply F1.
    + intros k s k' s' Hk Hk' Hs Hs'. rewrite !Hat by done. by apply F2.
    + intros b Hb. unfold v'. rewrite put_sect_ne by lia. by apply F3.
    + intros b. unfold v', put_sect. by case_match.
  - intros k s Hk [Hs Hsx]. unfold leaf. rewrite Hat by done. case_decide as Hc.
    + destruct Hc as [-> ->]. rewrite (proj2 (Z.eqb_neq _ 0)) by done. unfold v'. by rewrite put_sect_eq.
    + destruct (Z.eqb_spec (at_slot v (A k) s) 0) as [_|Hn]; [done|]. unfold v'. rewrite put_sect_ne; [done|].
      intros He. destruct (F2 k s i s0 Hk Hi Hs Hs0 Hn He). tauto.
Qed.
End forest_lemmas.

Implicit Types (v : Z → block) (a : list Z) (A : Z → list Z) (din : list Z) (s : Mkfs.image).

Lemma xint_id x : is_u32 x → Mkfs.xint x = x.
Proof. intros Hx. etrans; [apply (digits_u32 x)|by apply u32_id]. Qed.
Lemma xshort_id x : 0 <= x < 2 ^ 16 → Mkfs.xshort x = x.
Proof.
  intros Hx. change (x mod 2 ^ 8 + 2 ^ 8 * ((x / 2 ^ 8) mod 2 ^ 8) = x).
  rewrite (Z.mod_small (x / 2 ^ 8)) by (split; [apply Z.div_pos; lia|apply Z.div_lt_upper_bound; lia]).
  pose proof (Z.div_mod x (2 ^ 8) ltac:(lia)). lia.
Qed.

(** The addresses of an inode. *)
Definition addrs_of din : list Z := (λ j, get_word din (3 + j)) <$> seq 0 13.

Lemma addrs_lookup din (j : nat) : (j < 13)%nat → addrs_of din !!! j = get_word din (3 + j).
Proof.
  intros Hj. unfold addrs_of. apply list_lookup_total_correct. rewrite list_lookup_fmap, lookup_seq_lt by done. done.
Qed.

Lemma addrs_set din (j : nat) b :
  length din = 64%nat → (j < 13)%nat → is_u32 b → addrs_of (put_word din (3 + j) b) = <[j := b]> (addrs_of din).
Proof.
  intros Hl Hj Hb. apply list_eq. intros k. destruct (decide (k < 13)%nat) as [Hk|Hk].
  - unfold addrs_of. rewrite list_lookup_fmap, lookup_seq_lt by done. cbn [fmap option_fmap option_map].
    destruct (decide (k = j)) as [->|Hne].
    + rewrite list_lookup_insert_eq by (rewrite length_fmap, length_seq; lia).
      rewrite get_put_word_eq by lia. by rewrite u32_id.
    + rewrite list_lookup_insert_ne by done. rewrite list_lookup_fmap, lookup_seq_lt by done.
      cbn [fmap option_fmap option_map]. by rewrite get_put_word_ne by lia.
  - rewrite !lookup_ge_None_2; [done|..]; unfold addrs_of; rewrite ?length_insert, length_fmap, length_seq; lia.
Qed.

Lemma length_addrs din : length (addrs_of din) = 13%nat.
Proof. unfold addrs_of. by rewrite length_fmap, length_seq. Qed.

(** ** One block *)
Section append.
Context (A : Z → list Z) (i : Z) (Hi : is_inode i).

Definition trees din : Z → list Z := upd A i (addrs_of din).
Definition mk_inv din s : Prop :=
  forest (Mkfs.im_sect s) (trees din) (Mkfs.im_freeblock s) ∧ length din = 64%nat.

(** The sectors before the data, the counters and the head of the inode. *)
Record step (n : Z) din s din' s' : Prop := {
  st_inv : mk_inv din' s';
  st_meta : ∀ b, b < Mkfs.nmeta → Mkfs.im_sect s' b = Mkfs.im_sect s b;
  st_fb : Mkfs.im_freeblock s <= Mkfs.im_freeblock s' <= Mkfs.im_freeblock s + n;
  st_ino : Mkfs.im_freeinode s' = Mkfs.im_freeinode s;
  st_head : ∀ k, (k < 12)%nat → byte_at din' k = byte_at din k;
  st_bytes : bytes_ok din → bytes_ok din';
}.

Lemma step_refl din s : mk_inv din s → step 0 din s din s.
Proof. intros H. constructor; try done. lia. Qed.
Lemma step_trans n1 n2 d1 s1 d2 s2 d3 s3 :
  step n1 d1 s1 d2 s2 → step n2 d2 s2 d3 s3 → step (n1 + n2) d1 s1 d3 s3.
Proof.
  intros [A1 A2 A3 A4 A5 A6] [B1 B2 B3 B4 B5 B6]. constructor; try done; [..|lia| | |auto].
  - intros b Hb. by rewrite B2, A2.
  - congruence.
  - intros k Hk. by rewrite B5, A5.
Qed.

Abbreviation same d s d' s' :=
  (same_leaves (Mkfs.im_sect s) (trees d) (Mkfs.im_sect s') (trees d')).

(** A block number is a 32-bit number. *)
Lemma slot_u32 din s sl :
  mk_inv din s → Mkfs.im_freeblock s <= FSSIZE → slot_ok sl → is_u32 (at_slot (Mkfs.im_sect s) (addrs_of din) sl).
Proof.
  intros [Hf _] Hle Hs. pose proof (fo_range _ _ _ Hf i sl Hi Hs) as Hr. unfold trees in Hr. rewrite trees_eq in Hr.
  destruct (decide (at_slot (Mkfs.im_sect s) (addrs_of din) sl = 0)) as [->|Hn]; [done|].
  specialize (Hr Hn). change Mkfs.nmeta with 68 in Hr. change FSSIZE with 40000 in Hle. unfold is_u32. lia.
Qed.

Lemma newblock_run s : 0 <= Mkfs.im_freeblock s < FSSIZE →
  Mkfs.newblock s = Ret (Mkfs.im_freeblock s) (Mkfs.set_im_freeblock (Mkfs.im_freeblock s + 1) s).
Proof.
  intros H. change FSSIZE with 40000 in H. unfold Mkfs.newblock. rewrite bind_gets, bind_modify.
  rewrite u32_id by (unfold is_u32; lia). done.
Qed.

Lemma ensure_addr_run din s (j : Z) :
  mk_inv din s → 0 <= j <= 10 → Mkfs.im_freeblock s < FSSIZE →
  ∃ din' s', Mkfs.ensure_addr din j s = Ret din' s' ∧ step 1 din s din' s' ∧ same din s din' s'
    ∧ Mkfs.im_sect s' = Mkfs.im_sect s ∧ addrs_of din' !!! Z.to_nat j ≠ 0.
Proof.
  intros Hinv Hj Hfb. pose proof Hinv as [Hf Hlen]. pose proof (fo_fb _ _ _ Hf) as Hn. change Mkfs.nmeta with 68 in Hn.
  set (jn := Z.to_nat j). unfold Mkfs.ensure_addr, Mkfs.din_addr, Mkfs.set_din_addr. fold jn.
  assert (is_u32 (get_word din (3 + jn))) as Hu.
  { pose proof (slot_u32 din s (if decide (jn = 10%nat) then X else D jn) Hinv ltac:(lia)) as Hu.
    rewrite <-addrs_lookup by lia. case_decide as Hc; cbn [at_slot slot_ok] in Hu; [rewrite Hc; by apply Hu|].
    apply Hu. lia. }
  rewrite (xint_id _ Hu). destruct (Z.eqb_spec (get_word din (3 + jn)) 0) as [Hz|Hz].
  - rewrite (bind_ret _ _ _ _ _ (newblock_run s ltac:(lia))).
    rewrite xint_id by (change FSSIZE with 40000 in Hfb; unfold is_u32; lia).
    set (b := Mkfs.im_freeblock s) in *.
    destruct (link_addr _ _ _ i jn Hf Hi) as [Hf' Hsame]; unfold trees; rewrite ?trees_eq;
      [apply length_addrs|lia|rewrite addrs_lookup by lia; done|].
    assert (∀ k, upd (upd A i (addrs_of din)) i (<[jn := b]> (addrs_of din)) k = upd A i (addrs_of (put_word din (3 + jn) b)) k)
      as Hupd.
    { intros k. unfold upd. destruct (k =? i); [|done].
      by rewrite addrs_set by (done || lia || (unfold is_u32; change FSSIZE with 40000 in Hfb; lia)). }
    unfold trees in Hf', Hsame. rewrite trees_eq in Hf', Hsame.
    eexists _, _. split; [done|]. cbn [Mkfs.im_sect Mkfs.set_im_freeblock]. split_and!.
    + constructor; cbn; try done; [|lia| |apply put_word_bytes].
      * split; [|by rewrite length_put_word]. cbn. destruct Hf' as [F1 F2 F3 F4 F5].
        constructor; try done; unfold trees; intros; rewrite <-?Hupd in *; eauto.
      * intros k Hk. apply byte_at_put_word_ne. lia.
    + intros k sl Hk Hs. unfold trees. rewrite <-Hupd. by apply Hsame.
    + done.
    + rewrite addrs_set by (done || lia || (unfold is_u32; change FSSIZE with 40000 in Hfb; lia)).
      rewrite list_lookup_total_insert_eq by (rewrite length_addrs; lia). lia.
  - exists din, s. split; [done|]. split_and!; [|done|done|by rewrite addrs_lookup by lia].
    destruct (step_refl din s Hinv). constructor; try done. lia.
Qed.

Lemma rsect_run s n : n < FSSIZE → Mkfs.rsect n s = Ret (Mkfs.im_sect s n) s.
Proof. intros H. unfold Mkfs.rsect. by rewrite (proj2 (Z.ltb_lt n FSSIZE)). Qed.

Lemma iappend_block_run din s fbn :
  mk_inv din s → 0 <= fbn < 138 → Mkfs.im_freeblock s + 2 <= FSSIZE →
  ∃ din' s' x, Mkfs.iappend_block din fbn s = Ret (din', x) s' ∧ step 2 din s din' s' ∧ same din s din' s'
    ∧ x = at_slot (Mkfs.im_sect s') (addrs_of din') (slot_of fbn) ∧ x ≠ 0.
Proof.
  intros Hinv Hfbn Hfb. unfold Mkfs.iappend_block, slot_of. change NDIRECT with 10. change NINDIRECT with 128.
  destruct (Z.ltb_spec fbn 10) as [Hlt|Hge].
  - destruct (ensure_addr_run din s fbn Hinv ltac:(lia) ltac:(lia)) as (din' & s' & Er & Hst & Hsame & _ & Hnz).
    rewrite (bind_ret _ _ _ _ _ Er). pose proof Hst as [I1 I2 I3 I4 I5 I6].
    pose proof (slot_u32 din' s' (D (Z.to_nat fbn)) I1 ltac:(lia) ltac:(cbn; lia)) as Hu. cbn [at_slot] in Hu.
    unfold Mkfs.din_addr. rewrite <-addrs_lookup by lia. rewrite xint_id by done.
    eexists din', s', _. split; [done|]. split_and!; try done. constructor; try done. lia.
  - destruct (ensure_addr_run din s 10 Hinv ltac:(lia) ltac:(lia)) as (d1 & s1 & Er & Hst & Hsame & Hsect & Hnz).
    rewrite (bind_ret _ _ _ _ _ Er). pose proof Hst as [I1 I2 I3 I4 I5 I6]. change (Z.to_nat 10) with 10%nat in Hnz.
    pose proof (slot_u32 d1 s1 X I1 ltac:(lia) I) as Hu. cbn [at_slot] in Hu.
    unfold Mkfs.din_addr. change (Z.to_nat 10) with 10%nat. rewrite <-addrs_lookup by lia. rewrite xint_id by done.
    set (x := addrs_of d1 !!! 10%nat) in *. pose proof I1 as [Hf Hlen].
    pose proof (fo_range _ _ _ Hf i X Hi I) as Hr. unfold trees in Hr. rewrite trees_eq in Hr. specialize (Hr Hnz).
    cbn [at_slot] in Hr. fold x in Hr. rewrite (bind_ret _ _ _ _ _ (rsect_run s1 x ltac:(lia))).
    rewrite (proj2 (Z.leb_gt 128 (fbn - 10))) by lia. set (e := Z.to_nat (fbn - 10)).
    assert (at_slot (Mkfs.im_sect s1) (addrs_of d1) (E e) = get_word (Mkfs.im_sect s1 x) e) as Hat.
    { cbn [at_slot]. fold x. by rewrite (proj2 (Z.eqb_neq x 0)). }
    pose proof (slot_u32 d1 s1 (E e) I1 ltac:(lia) ltac:(cbn; lia)) as Hue. rewrite Hat in Hue.
    destruct (Z.eqb_spec (get_word (Mkfs.im_sect s1 x) e) 0) as [Hz|Hz].
    + pose proof (fo_fb _ _ _ Hf) as Hfb0. change Mkfs.nmeta with 68 in *.
      rewrite bind_assoc, (bind_ret _ _ _ _ _ (newblock_run s1 ltac:(lia))).
      rewrite xint_id by (change FSSIZE with 40000 in Hfb; unfold is_u32; lia). unfold Mkfs.wsect.
      rewrite bind_assoc, bind_modify, bind_mret.
      destruct (link_index _ _ _ i e Hf Hi) as (Hf' & Hsame' & Hat'); unfold trees; rewrite ?trees_eq;
        [lia|change FSSIZE with 40000 in Hfb; lia|done|by rewrite Hat|].
      unfold trees in Hf', Hsame', Hat'. rewrite trees_eq in Hf', Hsame', Hat'. fold x in Hf', Hsame', Hat'.
      eexists d1, _, _. split; [done|]. split; [|split; [|split]].
      * constructor; cbn; [by split| |lia|done|done|done]. intros b Hb. change Mkfs.nmeta with 68 in Hb.
        etrans; [apply (put_sect_ne (Mkfs.im_sect s1) x); lia|by apply I2].
      * eapply same_leaves_trans; [exact Hsame|exact Hsame'].
      * cbn [Mkfs.im_sect Mkfs.set_im_sect Mkfs.set_im_freeblock]. etrans; [|symmetry; exact Hat'].
        rewrite get_put_word_eq; [|destruct (fo_blk _ _ _ Hf x) as [-> _]; change (Z.to_nat BSIZE) with 512%nat; lia].
        rewrite xint_id by apply u32_range. apply u32_id. change FSSIZE with 40000 in Hfb. unfold is_u32. lia.
      * rewrite get_put_word_eq; [|destruct (fo_blk _ _ _ Hf x) as [-> _]; change (Z.to_nat BSIZE) with 512%nat; lia].
        rewrite xint_id by apply u32_range. rewrite u32_id by (change FSSIZE with 40000 in Hfb; unfold is_u32; lia). lia.
    + rewrite bind_mret, xint_id by done. eexists d1, s1, _. split; [done|]. split_and!; try done.
      constructor; try done. lia.
Qed.

(** A block past the direct ones and those of the index block is outside [indirect],
    though it is below [MAXFILE]. *)
Lemma iappend_block_far din s fbn :
  mk_inv din s → 138 <= fbn → Mkfs.im_freeblock s < FSSIZE → Mkfs.iappend_block din fbn s = Fault.
Proof.
  intros Hinv Hfbn Hfb. unfold Mkfs.iappend_block. change NDIRECT with 10. change NINDIRECT with 128.
  rewrite (proj2 (Z.ltb_ge fbn 10)) by lia.
  destruct (ensure_addr_run din s 10 Hinv ltac:(lia) ltac:(lia)) as (d1 & s1 & Er & Hst & _ & _ & Hnz).
  rewrite (bind_ret _ _ _ _ _ Er). pose proof Hst as [I1 _ I3 _ _ _]. change (Z.to_nat 10) with 10%nat in Hnz.
  pose proof (slot_u32 d1 s1 X I1 ltac:(lia) I) as Hu. cbn [at_slot] in Hu.
  unfold Mkfs.din_addr. change (Z.to_nat 10) with 10%nat. rewrite <-addrs_lookup by lia. rewrite xint_id by done.
  pose proof (fo_range _ _ _ (proj1 I1) i X Hi I) as Hr. unfold trees in Hr. rewrite trees_eq in Hr. specialize (Hr Hnz).
  cbn [at_slot] in Hr. assert (addrs_of d1 !!! 10%nat < FSSIZE) as Hx by lia.
  rewrite (bind_ret _ _ _ _ _ (rsect_run s1 _ Hx)).
  by rewrite (proj2 (Z.leb_le 128 (fbn - 10))) by lia.
Qed.

(** ** The content *)
Definition fbyte v (T : Z → list Z) (k off : Z) : Z :=
  byte_at (leaf v (T k) (slot_of (off / 512))) (Z.to_nat (off mod 512)).

Lemma block_range off : 0 <= off < 138 * 512 → 0 <= off / 512 < 138.
Proof. intros. split; [apply Z.div_pos; lia|apply Z.div_lt_upper_bound; lia]. Qed.

Lemma fbyte_same v T v' T' k off :
  same_leaves v T v' T' → is_inode k → 0 <= off < 138 * 512 → fbyte v' T' k off = fbyte v T k off.
Proof. intros Hs Hk Ho. unfold fbyte. rewrite Hs; [done|done|]. by apply slot_of_leaf, block_range. Qed.

(** Part of a block is written. *)
Lemma write_part v T fb fbn (o1 n1 : Z) p d :
  forest v T fb → 0 <= fbn < 138 → at_slot v (T i) (slot_of fbn) ≠ 0 → bytes_ok p →
  0 <= o1 → o1 + n1 <= 512 → 0 <= n1 <= Z.of_nat (length p) →
  d = put_bytes (v (at_slot v (T i) (slot_of fbn))) (Z.to_nat o1) (take (Z.to_nat n1) p) →
  let v' := put_sect v (at_slot v (T i) (slot_of fbn)) d in
  forest v' T fb ∧ ∀ k o, is_inode k → 0 <= o < 138 * 512 →
    fbyte v' T k o = if decide (k = i ∧ fbn * 512 + o1 <= o < fbn * 512 + o1 + n1)
                     then byte_at p (Z.to_nat (o - (fbn * 512 + o1))) else fbyte v T k o.
Proof.
  intros Hf Hb Hn Hp Ho1 Hon Hn1 Hd v'. pose proof (slot_of_leaf fbn Hb) as Hleaf.
  pose proof (fo_blk _ _ _ Hf (at_slot v (T i) (slot_of fbn))) as [Hlen Hbytes]. change (Z.to_nat BSIZE) with 512%nat in Hlen.
  assert (blk_ok d) as Hdok.
  { subst d. split; [by rewrite length_put_bytes|]. apply put_bytes_ok; [done|]. by apply Forall_take. }
  destruct (write_leaf v T fb i (slot_of fbn) d Hf Hi Hleaf Hn Hdok) as (Hf' & _ & Hl). split; [done|].
  intros k o Hk Ho. unfold fbyte. pose proof (block_range o Ho) as Hbr. rewrite Hl by (done || by apply slot_of_leaf).
  pose proof (Z.div_mod o 512 ltac:(lia)) as Hdm. pose proof (Z.mod_pos_bound o 512 ltac:(lia)) as Hmb.
  destruct (decide (k = i ∧ slot_of (o / 512) = slot_of fbn)) as [[-> Hs]|Hc].
  - apply slot_of_inj in Hs; [|lia|lia]. unfold leaf. rewrite Hs, (proj2 (Z.eqb_neq _ 0)) by done. subst d.
    rewrite byte_at_put_bytes by (rewrite length_take; lia). rewrite length_take.
    destruct (decide (i = i ∧ _)) as [[_ Hr]|Hr].
    + rewrite decide_True by lia. unfold byte_at. rewrite lookup_take_lt by lia. do 2 f_equal. lia.
    + rewrite decide_False; [done|]. intros ?. apply Hr. split; [done|lia].
  - rewrite (decide_False (P := k = i ∧ _ <= o < _)); [done|]. intros [-> Hr]. apply Hc. split; [done|]. f_equal. lia.
Qed.

(** The blocks [len] bytes at [off] lie in. *)
Definition touched (off len : Z) : Z := if len =? 0 then 0 else (off + len - 1) / 512 - off / 512 + 1.

Lemma touched_next off len n1 :
  0 <= off → 0 < len → n1 = Z.min len ((off / 512 + 1) * 512 - off) →
  0 < n1 ∧ touched off len = 1 + touched (off + n1) (len - n1) ∧ 0 <= touched (off + n1) (len - n1).
Proof.
  intros Ho Hl ->. pose proof (Z.div_mod off 512 ltac:(lia)) as Hdm. pose proof (Z.mod_pos_bound off 512 ltac:(lia)) as Hmb.
  unfold touched. rewrite (proj2 (Z.eqb_neq len 0)) by lia.
  destruct (Z.min_spec len ((off / 512 + 1) * 512 - off)) as [[Hm ->]|[Hm ->]].
  - split; [lia|]. replace (len - len) with 0 by lia. cbn.
    replace ((off + len - 1) / 512) with (off / 512); [lia|]. apply Z.div_unique with ((off + len - 1) - 512 * (off / 512)); lia.
  - split; [lia|]. replace (off + ((off / 512 + 1) * 512 - off)) with ((off / 512 + 1) * 512) by lia. rewrite Z.div_mul by lia.
    destruct (Z.eqb_spec (len - ((off / 512 + 1) * 512 - off)) 0) as [Hz|Hz].
    + replace ((off + len - 1) / 512) with (off / 512); [lia|]. apply Z.div_unique with ((off + len - 1) - 512 * (off / 512)); lia.
    + replace ((off / 512 + 1) * 512 + (len - ((off / 512 + 1) * 512 - off)) - 1) with (off + len - 1) by lia.
      assert (off / 512 + 1 <= (off + len - 1) / 512) by (apply Z.div_le_lower_bound; lia). lia.
Qed.

Lemma iappend_loop_run fuel din s off p :
  mk_inv din s → 0 <= off → off + Z.of_nat (length p) <= 138 * 512 → (length p <= fuel)%nat → bytes_ok p →
  Mkfs.im_freeblock s + 2 * touched off (Z.of_nat (length p)) <= FSSIZE →
  ∃ din' s', Mkfs.iappend_loop fuel din off p s = Ret (din', off + Z.of_nat (length p)) s'
    ∧ step (2 * touched off (Z.of_nat (length p))) din s din' s'
    ∧ ∀ k o, is_inode k → 0 <= o < 138 * 512 →
        fbyte (Mkfs.im_sect s') (trees din') k o
        = if decide (k = i ∧ off <= o < off + Z.of_nat (length p)) then byte_at p (Z.to_nat (o - off))
          else fbyte (Mkfs.im_sect s) (trees din) k o.
Proof.
  revert din s off p. induction fuel as [|fuel IH]; intros din s off p Hinv Ho Hend Hfuel Hp Hfb.
  - destruct p as [|c p]; [|cbn in Hfuel; lia]. exists din, s. rewrite Z.add_0_r. split; [done|].
    split; [by apply step_refl|]. intros k o Hk Hoff. by rewrite decide_False by (cbn; lia).
  - destruct p as [|c p].
    { exists din, s. rewrite Z.add_0_r. split; [done|]. split; [by apply step_refl|]. intros k o Hk Hoff.
      by rewrite decide_False by (cbn; lia). }
    set (len := Z.of_nat (length (c :: p))) in *. assert (0 < len) as Hlen by (unfold len; cbn; lia).
    set (n1 := Z.min len ((off / 512 + 1) * 512 - off)).
    destruct (touched_next off len n1 Ho Hlen eq_refl) as (Hn1 & Ht & Ht0).
    pose proof (block_range off ltac:(lia)) as Hbr.
    pose proof (Z.div_mod off 512 ltac:(lia)) as Hdm. pose proof (Z.mod_pos_bound off 512 ltac:(lia)) as Hmb.
    cbn [Mkfs.iappend_loop]. change BSIZE with 512. fold len. fold n1.
    rewrite (proj2 (Z.ltb_lt (off / 512) MAXFILE)) by (fsconst; lia). cbn [negb].
    destruct (iappend_block_run din s (off / 512) Hinv ltac:(lia) ltac:(lia)) as (d1 & s1 & x & Er & Hst & Hsame & Hx & Hnz).
    rewrite (bind_ret _ _ _ _ _ Er). pose proof (st_inv _ _ _ _ _ Hst) as [Hf1 Hlen1].
    pose proof (st_fb _ _ _ _ _ Hst) as Hfb1.
    assert (at_slot (Mkfs.im_sect s1) (trees d1 i) (slot_of (off / 512)) = x) as Hat by (unfold trees; by rewrite trees_eq).
    pose proof (fo_range _ _ _ Hf1 i (slot_of (off / 512)) Hi (proj1 (slot_of_leaf _ Hbr))) as Hr.
    rewrite Hat in Hr. specialize (Hr Hnz). rewrite (bind_ret _ _ _ _ _ (rsect_run s1 x ltac:(lia))).
    unfold Mkfs.wsect at 1. rewrite bind_modify.
    set (d := put_bytes (Mkfs.im_sect s1 x) (Z.to_nat (off - off / 512 * 512)) (take (Z.to_nat n1) (c :: p))).
    destruct (write_part (Mkfs.im_sect s1) (trees d1) (Mkfs.im_freeblock s1) (off / 512) (off - off / 512 * 512) n1 (c :: p) d
      Hf1 Hbr ltac:(by rewrite Hat) Hp ltac:(lia) ltac:(lia) ltac:(fold len; lia) ltac:(by rewrite Hat)) as [Hf2 Hby].
    rewrite Hat in Hf2, Hby. set (s2 := Mkfs.set_im_sect (put_sect (Mkfs.im_sect s1) x d) s1).
    change (Mkfs.set_im_sect _ s1) with s2.
    assert (step 0 d1 s1 d1 s2) as Hst2.
    { constructor; cbn; [by split| |lia|done|done|done]. intros b Hb. apply put_sect_ne. lia. }
    rewrite u32_id by (unfold is_u32; lia).
    assert (Z.of_nat (length (drop (Z.to_nat n1) (c :: p))) = len - n1) as Hdrop by (rewrite length_drop; lia).
    destruct (IH d1 s2 (off + n1) (drop (Z.to_nat n1) (c :: p))) as (d3 & s3 & E3 & Hst3 & Hby3);
      [apply Hst2|lia|lia|rewrite length_drop; cbn in Hfuel |- *; lia|by apply Forall_drop|rewrite Hdrop; cbn; lia|].
    rewrite Hdrop in E3, Hst3, Hby3. exists d3, s3. split; [rewrite E3; do 2 f_equal; lia|]. split.
    + replace (2 * touched off len) with (2 + 0 + 2 * touched (off + n1) (len - n1)) by lia.
      eapply step_trans; [|done]. by eapply step_trans.
    + intros k o Hk Hoff. rewrite Hby3 by done. cbn [Mkfs.im_sect Mkfs.set_im_sect]. unfold s2. cbn [Mkfs.im_sect Mkfs.set_im_sect].
      replace (off / 512 * 512 + (off - off / 512 * 512)) with off in Hby by lia. rewrite Hby by done.
      rewrite (fbyte_same _ _ _ _ k o Hsame Hk Hoff).
      destruct (decide (k = i ∧ off + n1 <= o < _)) as [[-> H1]|H1].
      * rewrite decide_True by lia. unfold byte_at. rewrite lookup_drop. do 2 f_equal. lia.
      * destruct (decide (k = i ∧ off <= o < off + n1)) as [[-> H2]|H2].
        -- by rewrite decide_True by lia.
        -- rewrite decide_False; [done|]. intros [-> H3]. destruct (decide (o < off + n1)); [apply H2|apply H1]; split; (done || lia).
Qed.
End append.

(** ** Inodes in the image *)
Definition dinode v (k : Z) : list Z := get_bytes (v (IBLOCK k Mkfs.sb)) (Z.to_nat (k mod 8 * 64)) 64.
Definition addrs v (k : Z) : list Z := addrs_of (dinode v k).

Lemma iblock_range k : is_inode k → IBLOCK k Mkfs.sb = k / 8 + 32 ∧ 32 <= IBLOCK k Mkfs.sb < 58.
Proof.
  intros Hk. unfold is_inode in Hk. unfold IBLOCK. change (sb_inodestart Mkfs.sb) with 32. change IPB with 8.
  assert (0 <= k / 8 < 26) by (split; [apply Z.div_pos; lia|apply Z.div_lt_upper_bound; lia]).
  rewrite u32_id by (unfold is_u32; lia). lia.
Qed.

Lemma length_dinode v k : blk_ok (v (IBLOCK k Mkfs.sb)) → length (dinode v k) = 64%nat.
Proof.
  intros [Hl _]. unfold dinode. change (Z.to_nat BSIZE) with 512%nat in Hl. apply length_get_bytes. rewrite Hl.
  pose proof (Z.mod_pos_bound k 8 ltac:(lia)). lia.
Qed.

Lemma rinode_run s k : is_inode k → Mkfs.rinode k s = Ret (dinode (Mkfs.im_sect s) k) s.
Proof.
  intros Hk. destruct (iblock_range k Hk) as [_ Hr]. unfold Mkfs.rinode.
  rewrite (bind_ret _ _ _ _ _ (rsect_run s (IBLOCK k Mkfs.sb) ltac:(change FSSIZE with 40000; lia))). done.
Qed.

Lemma byte_at_dinode v k (j : nat) : (j < 64)%nat →
  byte_at (dinode v k) j = byte_at (v (IBLOCK k Mkfs.sb)) (Z.to_nat (k mod 8 * 64) + j).
Proof. intros Hj. unfold dinode. by apply byte_at_get_bytes. Qed.

(** An inode is written: it and the other inodes afterwards. *)
Lemma winode_run s k din :
  is_inode k → length din = 64%nat → bytes_ok din → (∀ b, blk_ok (Mkfs.im_sect s b)) →
  ∃ v', Mkfs.winode k din s = Ret tt (Mkfs.set_im_sect v' s)
    ∧ dinode v' k = din ∧ (∀ k', is_inode k' → k' ≠ k → dinode v' k' = dinode (Mkfs.im_sect s) k')
    ∧ (∀ b, blk_ok (v' b)) ∧ (∀ b, b < 32 ∨ 58 <= b → v' b = Mkfs.im_sect s b).
Proof.
  intros Hk Hlen Hb Hok. destruct (iblock_range k Hk) as [Hib Hr]. unfold Mkfs.winode.
  rewrite (bind_ret _ _ _ _ _ (rsect_run s (IBLOCK k Mkfs.sb) ltac:(change FSSIZE with 40000; lia))).
  set (d := put_bytes (Mkfs.im_sect s (IBLOCK k Mkfs.sb)) (Z.to_nat (k mod IPB * sizeof_dinode)) din).
  assert (d = put_bytes (Mkfs.im_sect s (IBLOCK k Mkfs.sb)) (Z.to_nat (k mod 8 * 64)) din) as Hd by done.
  pose proof (Z.mod_pos_bound k 8 ltac:(lia)) as Hm.
  destruct (Hok (IBLOCK k Mkfs.sb)) as [Hl Hbs]. change (Z.to_nat BSIZE) with 512%nat in Hl.
  assert (blk_ok d) as Hdok.
  { rewrite Hd. split; [by rewrite length_put_bytes|]. by apply put_bytes_ok. }
  exists (put_sect (Mkfs.im_sect s) (IBLOCK k Mkfs.sb) d). split; [done|]. split_and!.
  - apply list_eq_byte.
    + rewrite length_dinode; [done|]. by rewrite put_sect_eq.
    + intros j Hj. rewrite length_dinode in Hj by (by rewrite put_sect_eq).
      rewrite byte_at_dinode, put_sect_eq, Hd by done. rewrite byte_at_put_bytes by lia. rewrite decide_True by lia.
      f_equal. lia.
  - intros k' Hk' Hne. destruct (iblock_range k' Hk') as [Hib' Hr'].
    assert (blk_ok (put_sect (Mkfs.im_sect s) (IBLOCK k Mkfs.sb) d (IBLOCK k' Mkfs.sb))) as Hok'.
    { unfold put_sect. by case_match. }
    apply list_eq_byte; [by rewrite !length_dinode by done|]. intros j Hj. rewrite length_dinode in Hj by done.
    rewrite !byte_at_dinode by done. destruct (decide (IBLOCK k' Mkfs.sb = IBLOCK k Mkfs.sb)) as [He|He].
    + rewrite He, put_sect_eq, Hd. rewrite byte_at_put_bytes by lia. rewrite decide_False; [done|].
      pose proof (Z.mod_pos_bound k' 8 ltac:(lia)) as Hm'. pose proof (Z.div_mod k 8 ltac:(lia)).
      pose proof (Z.div_mod k' 8 ltac:(lia)). assert (k' mod 8 ≠ k mod 8) by lia. lia.
    + by rewrite put_sect_ne.
  - intros b. unfold put_sect. by case_match.
  - intros b Hb'. apply put_sect_ne. lia.
Qed.

Lemma dinode_bytes v k : blk_ok (v (IBLOCK k Mkfs.sb)) → bytes_ok (dinode v k).
Proof.
  intros Hb. apply Forall_lookup. intros j x Hj. pose proof (lookup_lt_Some _ _ _ Hj) as Hlt.
  rewrite length_dinode in Hlt by done. destruct Hb as [_ Hb].
  pose proof (byte_at_dinode v k j Hlt) as Hx. unfold byte_at at 1 in Hx. rewrite Hj in Hx. cbn in Hx.
  rewrite Hx. by apply byte_at_range.
Qed.

(** Only the sectors of data blocks matter to the trees. *)
Lemma forest_ext v T fb v' T' :
  forest v T fb → (∀ k, is_inode k → T' k = T k) → (∀ b, Mkfs.nmeta <= b → v' b = v b) → (∀ b, blk_ok (v' b)) →
  forest v' T' fb ∧ same_leaves v T v' T'.
Proof.
  intros [F1 F2 F3 F4 F5] HT Hv Hb. change Mkfs.nmeta with 68 in *.
  assert (∀ k sl, is_inode k → slot_ok sl → at_slot v' (T' k) sl = at_slot v (T k) sl) as Hat.
  { intros k sl Hk Hs. rewrite HT by done. destruct sl as [j| |e]; cbn [at_slot]; try done.
    destruct (Z.eqb_spec (T k !!! 10%nat) 0) as [_|Hn]; [done|]. rewrite Hv; [done|].
    apply (F1 k X Hk I Hn). }
  split.
  - constructor; try done.
    + intros k sl Hk Hs. rewrite Hat by done. by apply F1.
    + intros k sl k' sl' Hk Hk' Hs Hs'. rewrite !Hat by done. by apply F2.
    + intros b Hle. rewrite Hv by lia. by apply F3.
  - intros k sl Hk [Hs _]. unfold leaf. rewrite Hat by done.
    destruct (Z.eqb_spec (at_slot v (T k) sl) 0) as [_|Hn]; [done|]. apply Hv, (F1 k sl Hk Hs Hn).
Qed.

(** ** Files *)
Record fs_inv s : Prop := {
  fi_forest : forest (Mkfs.im_sect s) (addrs (Mkfs.im_sect s)) (Mkfs.im_freeblock s);
  fi_ino : 0 < Mkfs.im_freeinode s;
  fi_unused : ∀ k, is_inode k → Mkfs.im_freeinode s <= k → dinode (Mkfs.im_sect s) k = Mkfs.din_zero;
}.

(** The inode [k] of type [ty] has one link and the content [bs], with zeros after it. *)
Record file v (k ty : Z) (bs : list Z) : Prop := {
  fl_type : get_half (dinode v k) 0 = ty;
  fl_nlink : get_half (dinode v k) 3 = 1;
  fl_size : Mkfs.din_size (dinode v k) = Z.of_nat (length bs);
  fl_max : Z.of_nat (length bs) <= 138 * 512;
  fl_byte : ∀ o, 0 <= o < 138 * 512 → fbyte v (addrs v) k o = byte_at bs (Z.to_nat o);
}.

(** What does not change when the file [i] does. *)
Record frame (i n : Z) s s' : Prop := {
  fr_files : ∀ k ty bs, is_inode k → k ≠ i → file (Mkfs.im_sect s) k ty bs → file (Mkfs.im_sect s') k ty bs;
  fr_fb : Mkfs.im_freeblock s <= Mkfs.im_freeblock s' <= Mkfs.im_freeblock s + n;
  fr_meta : ∀ b, b < 32 ∨ 58 <= b < 68 → Mkfs.im_sect s' b = Mkfs.im_sect s b;
}.

Lemma byte_at_out (l : list Z) (j : nat) : (length l <= j)%nat → byte_at l j = 0.
Proof. intros Hj. unfold byte_at. by rewrite lookup_ge_None_2. Qed.

Lemma get_half_ext d d' (j : nat) : (∀ k, (k < 12)%nat → byte_at d' k = byte_at d k) → (j < 6)%nat → get_half d' j = get_half d j.
Proof. intros H Hj. with_strategy transparent [get_half] unfold get_half. rewrite !H by lia. done. Qed.

Lemma iappend_run s i ty bs p :
  fs_inv s → is_inode i → i < Mkfs.im_freeinode s → file (Mkfs.im_sect s) i ty bs → bytes_ok p →
  Z.of_nat (length bs) + Z.of_nat (length p) <= 138 * 512 →
  Mkfs.im_freeblock s + 2 * touched (Z.of_nat (length bs)) (Z.of_nat (length p)) <= FSSIZE →
  ∃ s', Mkfs.iappend i p s = Ret tt s' ∧ fs_inv s' ∧ file (Mkfs.im_sect s') i ty (bs ++ p)
    ∧ Mkfs.im_freeinode s' = Mkfs.im_freeinode s
    ∧ frame i (2 * touched (Z.of_nat (length bs)) (Z.of_nat (length p))) s s'.
Proof.
  intros [Hf Hino Hun] Hi Hlt [L1 L2 L3 L4 L5] Hp Hmax Hfb. set (v := Mkfs.im_sect s) in *.
  pose proof (fo_blk _ _ _ Hf) as Hok. set (din := dinode v i) in *.
  unfold Mkfs.iappend. rewrite (bind_ret _ _ _ _ _ (rinode_run s i Hi)). fold v. fold din.
  rewrite L3, xint_id by (unfold is_u32; lia).
  assert (mk_inv (addrs v) i din s) as Hinv.
  { split; [|by apply length_dinode]. eapply forest_ext; [exact Hf| |done|done].
    intros k Hk. unfold trees, upd. destruct (Z.eqb_spec k i) as [->|]; done. }
  destruct (iappend_loop_run (addrs v) i Hi (length p) din s (Z.of_nat (length bs)) p Hinv ltac:(lia) Hmax ltac:(lia) Hp Hfb)
    as (d1 & s1 & Er & Hst & Hby).
  rewrite (bind_ret _ _ _ _ _ Er). destruct Hst as [[Hf1 Hl1] I2 I3 I4 I5 I6]. change Mkfs.nmeta with 68 in *.
  specialize (I6 ltac:(by apply dinode_bytes)). rewrite xint_id by (unfold is_u32; lia).
  set (size := Z.of_nat (length bs) + Z.of_nat (length p)) in *. set (d2 := Mkfs.set_din_size d1 size).
  assert (length d2 = 64%nat) as Hl2 by (unfold d2, Mkfs.set_din_size; by rewrite length_put_word).
  destruct (winode_run s1 i d2 Hi Hl2 ltac:(by apply put_word_bytes) (fo_blk _ _ _ Hf1)) as (v2 & Ew & W1 & W2 & W3 & W4).
  assert (∀ k, is_inode k → k ≠ i → dinode v2 k = dinode v k) as Hdin.
  { intros k Hk Hne. rewrite W2 by done. unfold dinode. rewrite I2; [done|]. destruct (iblock_range k Hk). lia. }
  assert (∀ k, is_inode k → addrs v2 k = trees (addrs v) i d1 k) as Haddr.
  { intros k Hk. unfold trees, addrs. destruct (decide (k = i)) as [->|Hne].
    - rewrite trees_eq, W1. unfold addrs_of, d2, Mkfs.set_din_size. apply list_fmap_ext. intros _ j _.
      by rewrite get_put_word_ne by lia.
    - rewrite trees_ne by done. by rewrite Hdin. }
  destruct (forest_ext _ _ _ v2 (addrs v2) Hf1 Haddr) as [Hf2 Hsame2]; [intros b Hb; change Mkfs.nmeta with 68 in Hb; apply W4; lia|done|].
  assert (∀ k o, is_inode k → 0 <= o < 138 * 512 → fbyte v2 (addrs v2) k o
    = if decide (k = i ∧ Z.of_nat (length bs) <= o < size) then byte_at p (Z.to_nat (o - Z.of_nat (length bs)))
      else fbyte v (addrs v) k o) as Hbyte.
  { intros k o Hk Ho. rewrite (fbyte_same _ _ _ _ k o Hsame2 Hk Ho), Hby by done. fold size. case_decide; [done|].
    unfold fbyte, trees, upd. fold v. destruct (Z.eqb_spec k i) as [->|]; done. }
  eexists. split; [exact Ew|]. cbn [Mkfs.im_sect Mkfs.set_im_sect Mkfs.im_freeinode Mkfs.im_freeblock].
  assert (∀ j, (j < 4)%nat → get_half d2 j = get_half din j) as Hhalf.
  { intros j Hj. unfold d2, Mkfs.set_din_size. rewrite get_half_put_word by lia. apply get_half_ext; [done|lia]. }
  split_and!.
  - constructor; cbn; [done|lia|]. intros k Hk Hle. rewrite Hdin by lia || done. apply Hun; [done|lia].
  - constructor.
    + rewrite W1, Hhalf by lia. done.
    + rewrite W1, Hhalf by lia. done.
    + rewrite W1, length_app. unfold Mkfs.din_size, d2, Mkfs.set_din_size. rewrite get_put_word_eq by lia.
      rewrite u32_id by (unfold is_u32; lia). lia.
    + rewrite length_app. lia.
    + intros o Ho. rewrite Hbyte by done. rewrite byte_at_app. case_decide as Hc.
      * rewrite decide_False by lia. f_equal. lia.
      * rewrite L5 by done. case_decide as Hc2; [done|]. rewrite !byte_at_out by lia. done.
  - done.
  - constructor; cbn.
    + intros k ty' bs' Hk Hne [K1 K2 K3 K4 K5]. fold v in K1, K2, K3, K5. rewrite <-(Hdin k) in K1, K2, K3 by done. constructor; try done.
      intros o Ho. rewrite Hbyte by (done || lia). rewrite decide_False by tauto. by apply K5.
    + done.
    + intros b Hb. rewrite W4 by lia. apply I2. lia.
Qed.

(** A new inode. *)
Lemma empty_leaf v sl j : slot_ok sl → byte_at (leaf v (replicate 13 0) sl) j = 0.
Proof.
  intros Hs. assert (at_slot v (replicate 13 0) sl = 0) as Ha.
  { destruct sl as [i| |e]; cbn [at_slot slot_ok] in *; [apply list_lookup_total_correct, lookup_replicate_2; lia|done|done]. }
  unfold leaf. rewrite Ha. cbn [Z.eqb]. with_strategy transparent [zero_block] unfold zero_block.
  unfold byte_at. destruct (_ !! j) eqn:Ex; [|done]. by apply lookup_replicate in Ex as [-> _].
Qed.

Lemma din_zero_addrs : addrs_of Mkfs.din_zero = replicate 13 0.
Proof.
  unfold addrs_of, Mkfs.din_zero. apply list_eq. intros j. destruct (decide (j < 13)%nat) as [Hj|Hj].
  - rewrite list_lookup_fmap, lookup_seq_lt by done. rewrite lookup_replicate_2 by done. cbn [fmap option_fmap option_map].
    f_equal. apply get_word_zero.
  - rewrite !lookup_ge_None_2; [done|..]; rewrite ?length_fmap, ?length_seq, ?length_replicate; lia.
Qed.

Lemma din_new ty : 0 <= ty < 2 ^ 16 →
  let din := Mkfs.set_din_size (put_half (put_half Mkfs.din_zero 0 (Mkfs.xshort ty)) 3 (Mkfs.xshort 1)) (Mkfs.xint 0) in
  length din = 64%nat ∧ bytes_ok din ∧ addrs_of din = replicate 13 0 ∧ get_half din 0 = ty ∧ get_half din 3 = 1
  ∧ Mkfs.din_size din = 0.
Proof.
  intros Hty. rewrite !xshort_id, xint_id by (done || lia). intros din.
  assert (length Mkfs.din_zero = 64%nat) as Hl by done.
  unfold din, Mkfs.set_din_size, Mkfs.din_size. split_and!.
  - by rewrite length_put_word, !length_put_half.
  - apply put_word_bytes, put_half_bytes, put_half_bytes. apply Forall_replicate. unfold is_byte. lia.
  - etrans; [|apply din_zero_addrs]. unfold addrs_of. apply list_fmap_ext. intros _ j _.
    by rewrite get_put_word_ne, !get_word_put_half by lia.
  - rewrite get_half_put_word by lia. rewrite get_put_half_ne by lia. rewrite get_put_half_eq by (rewrite Hl; lia).
    by apply Z.mod_small.
  - rewrite get_half_put_word by lia. rewrite get_put_half_eq by (rewrite length_put_half, Hl; lia). done.
  - rewrite get_put_word_eq by (rewrite !length_put_half, Hl; lia). done.
Qed.

Lemma ialloc_run s ty :
  fs_inv s → is_inode (Mkfs.im_freeinode s) → 0 <= ty < 2 ^ 16 →
  ∃ s', Mkfs.ialloc ty s = Ret (Mkfs.im_freeinode s) s' ∧ fs_inv s' ∧ file (Mkfs.im_sect s') (Mkfs.im_freeinode s) ty []
    ∧ Mkfs.im_freeinode s' = Mkfs.im_freeinode s + 1 ∧ frame (Mkfs.im_freeinode s) 0 s s'.
Proof.
  intros [Hf Hino Hun] Hi Hty. set (i := Mkfs.im_freeinode s) in *. set (v := Mkfs.im_sect s) in *.
  destruct (din_new ty Hty) as (N1 & N2 & N3 & N4 & N5 & N6). unfold Mkfs.ialloc. rewrite bind_gets, bind_modify. fold i.
  rewrite u32_id by (unfold is_inode in Hi; unfold is_u32; lia).
  set (din := Mkfs.set_din_size _ _) in *. set (s1 := Mkfs.set_im_freeinode (i + 1) s).
  destruct (winode_run s1 i din Hi N1 N2 (fo_blk _ _ _ Hf)) as (v2 & Ew & W1 & W2 & W3 & W4). cbn in W2, W4. fold v in W2, W4.
  rewrite (bind_ret _ _ _ _ _ Ew).
  assert (addrs v i = replicate 13 0) as Hold.
  { unfold addrs. rewrite Hun by (done || lia). apply din_zero_addrs. }
  assert (∀ k, is_inode k → addrs v2 k = addrs v k) as Haddr.
  { intros k Hk. unfold addrs at 1. destruct (decide (k = i)) as [->|Hne]; [by rewrite W1, N3, Hold|]. by rewrite W2. }
  destruct (forest_ext v _ _ v2 (addrs v2) Hf Haddr) as [Hf2 Hsame]; [|done|].
  { intros b Hb. change Mkfs.nmeta with 68 in Hb. apply W4. lia. }
  eexists. split; [done|]. cbn. split_and!; [..|done|].
  - constructor; cbn; [done|lia|]. intros k Hk Hle. rewrite W2 by (done || lia). apply Hun; [done|lia].
  - constructor; rewrite ?W1; try done. intros o Ho. rewrite (byte_at_out []) by (cbn; lia).
    unfold fbyte. rewrite Haddr, Hold by done. apply empty_leaf. unfold slot_of.
    pose proof (block_range o Ho). case_match; cbn [slot_ok]; lia.
  - constructor; cbn; [|lia|intros b Hb; apply W4; lia].
    intros k ty' bs' Hk Hne [K1 K2 K3 K4 K5]. fold v in K1, K2, K3, K5. constructor; rewrite ?W2 by done; try done.
    intros o Ho. rewrite (fbyte_same _ _ _ _ k o Hsame Hk ltac:(lia)). by apply K5.
Qed.

(** A file, in pieces of a block. *)
Definition blocks (n : nat) : Z := (Z.of_nat n + 511) / 512.

Lemma touched_block off len : off mod 512 = 0 → 0 < len <= 512 → touched off len = 1.
Proof.
  intros Ho Hl. unfold touched. rewrite (proj2 (Z.eqb_neq len 0)) by lia.
  pose proof (Z.div_mod off 512 ltac:(lia)) as Hdm. replace ((off + len - 1) / 512) with (off / 512); [lia|].
  apply Z.div_unique with (len - 1); lia.
Qed.

Lemma frame_trans i n1 n2 s1 s2 s3 : frame i n1 s1 s2 → frame i n2 s2 s3 → frame i (n1 + n2) s1 s3.
Proof.
  intros [A1 A2 A3] [B1 B2 B3]. constructor; [|lia|].
  - intros k ty bs Hk Hne Hfl. by apply B1, A1.
  - intros b Hb. by rewrite B3, A3.
Qed.

Lemma append_file_run fuel s i ty bs cs :
  fs_inv s → is_inode i → i < Mkfs.im_freeinode s → file (Mkfs.im_sect s) i ty bs → bytes_ok cs →
  cs = [] ∨ Z.of_nat (length bs) mod 512 = 0 → Z.of_nat (length bs) + Z.of_nat (length cs) <= 138 * 512 →
  (length cs <= fuel)%nat →
  Mkfs.im_freeblock s + 2 * blocks (length cs) <= FSSIZE →
  ∃ s', Mkfs.append_file fuel i cs s = Ret tt s' ∧ fs_inv s' ∧ file (Mkfs.im_sect s') i ty (bs ++ cs)
    ∧ Mkfs.im_freeinode s' = Mkfs.im_freeinode s ∧ frame i (2 * blocks (length cs)) s s'.
Proof.
  revert s bs cs. induction fuel as [|fuel IH]; intros s bs cs Hinv Hi Hlt Hfl Hcs Hal Hmax Hfuel Hfb.
  - destruct cs as [|c cs]; [|cbn in Hfuel; lia]. exists s. rewrite app_nil_r. split_and!; try done.
    constructor; [done|change (blocks (length [])) with 0; lia|done].
  - destruct cs as [|c cs].
    { exists s. rewrite app_nil_r. split_and!; try done. constructor; [done|change (blocks (length [])) with 0; lia|done]. }
    destruct Hal as [?|Hal]; [done|]. cbn [Mkfs.append_file]. change (Z.to_nat BSIZE) with 512%nat.
    set (l := c :: cs) in *. set (p := take 512 l). set (q := drop 512 l).
    assert (length l = length p + length q)%nat as Hlen by (unfold p, q; by rewrite <-length_app, take_drop).
    assert (0 < Z.of_nat (length p) <= 512) as Hp by (unfold p, l; rewrite length_take; cbn [length]; lia).
    assert (blocks (length l) = 1 + blocks (length q) ∧ (q = [] ∨ length p = 512%nat)) as [Hblk Hfull].
    { unfold blocks, p, q, l. rewrite length_drop, length_take. set (n := length (c :: cs)). assert (0 < n)%nat by (unfold n; cbn; lia).
      destruct (decide (512 <= n)%nat) as [Hle|Hle].
      - split; [|right; lia]. replace (Z.of_nat n + 511) with (Z.of_nat (n - 512) + 511 + 1 * 512) by lia. rewrite Z.div_add by lia. lia.
      - split; [|left; apply drop_ge; unfold n in Hle; lia]. replace (n - 512)%nat with 0%nat by lia. change ((Z.of_nat 0 + 511) / 512) with 0.
        symmetry. apply Z.div_unique with (Z.of_nat n - 1); lia. }
    assert (0 <= blocks (length q)) as Hq0 by (apply Z.div_pos; lia).
    destruct (iappend_run s i ty bs p Hinv Hi Hlt Hfl) as (s1 & E1 & Hinv1 & Hfl1 & Hino1 & Hfr1);
      [by apply Forall_take|lia|rewrite touched_block by done; lia|].
    rewrite touched_block in Hfr1 by done. rewrite (bind_ret _ _ _ _ _ E1).
    pose proof (fr_fb _ _ _ _ Hfr1) as Hfb1.
    destruct (IH s1 (bs ++ p) q Hinv1 Hi ltac:(lia) Hfl1) as (s2 & E2 & Hinv2 & Hfl2 & Hino2 & Hfr2); try lia.
    + by apply Forall_drop.
    + destruct Hfull as [Hq|Hp512]; [by left|right]. rewrite length_app, Nat2Z.inj_add, Hp512. change (Z.of_nat 512) with (1 * 512). by rewrite Z.mod_add.
    + rewrite length_app. lia.
    + exists s2. rewrite <-app_assoc in Hfl2. unfold p, q in Hfl2. rewrite take_drop in Hfl2.
      split_and!; try done; [lia|]. rewrite Hblk. replace (2 * (1 + blocks (length q))) with (2 * 1 + 2 * blocks (length q)) by lia.
      by eapply frame_trans.
Qed.
