(* ===== verification/MkfsMain.v ===== *)
(** * The whole image *)
From S2P Require Import Prelude Params Block Bio BioInv Log Store Str Fs FsAlloc FsTree FsMap FsContent Mkfs MkfsThms.

Implicit Types (v : Z → block) (s : Mkfs.image) (rbs : list Z) (fs : list (list Z * list Z)).

(** The image with the files [fs]: their inodes follow that of the root directory, whose
    content is [rbs]. *)
Record world s rbs fs : Prop := {
  w_inv : fs_inv s;
  w_root : file (Mkfs.im_sect s) 1 T_DIR rbs;
  w_files : ∀ (n : nat) f, fs !! n = Some f → file (Mkfs.im_sect s) (2 + Z.of_nat n) T_FILE f.2;
  w_ino : Mkfs.im_freeinode s = 2 + Z.of_nat (length fs);
  w_sb : Mkfs.im_sect s 1 = Mkfs.sb_block;
  w_map : ∀ b, 58 <= b < 68 → Mkfs.im_sect s b = zero_block;
}.

(** The name a file gets. *)
Definition bare (name : list Z) : list Z :=
  match name with c :: name' => if c =? 95 then name' else name | [] => name end.
(** The blocks it may take. *)
Definition cost (f : list Z * list Z) : Z := 2 + 2 * blocks (length f.2).

Lemma touched_dirent off : off mod 16 = 0 → 0 <= off → touched off 16 = 1.
Proof.
  intros Ho Hpos. unfold touched. cbn [Z.eqb]. pose proof (Z.div_mod off 512 ltac:(lia)) as Hdm.
  pose proof (Z.mod_pos_bound off 512 ltac:(lia)) as Hmb.
  assert ((off mod 512) mod 16 = 0) as Hm.
  { rewrite Z.mod_mod_divide; [done|]. exists 32. lia. }
  pose proof (Z.div_mod (off mod 512) 16 ltac:(lia)) as Hdm2.
  replace ((off + 16 - 1) / 512) with (off / 512); [lia|]. apply Z.div_unique with (off mod 512 + 15); lia.
Qed.

Lemma length_dirent inum name : length (mk_dirent inum name) = 16%nat.
Proof.
  unfold mk_dirent. rewrite length_app, length_put_half, length_take, length_app, length_replicate.
  change (Z.to_nat DIRSIZ) with 14%nat. cbn [length]. lia.
Qed.

Lemma dirent_bytes inum name : bytes_ok name → bytes_ok (mk_dirent inum name).
Proof.
  intros Hn. unfold mk_dirent. apply Forall_app. split.
  - apply put_half_bytes. repeat constructor; unfold is_byte; lia.
  - apply Forall_take, Forall_app. split; [done|]. apply Forall_replicate. unfold is_byte. lia.
Qed.

(** An entry is added to the root directory. *)
Lemma root_append s rbs fs inum name :
  world s rbs fs → bytes_ok name → Z.of_nat (length rbs) mod 16 = 0 → Z.of_nat (length rbs) + 16 <= 138 * 512 →
  Mkfs.im_freeblock s + 2 <= FSSIZE → (length fs <= 206)%nat →
  ∃ s', Mkfs.iappend 1 (mk_dirent inum name) s = Ret tt s' ∧ world s' (rbs ++ mk_dirent inum name) fs ∧ frame 1 2 s s'.
Proof.
  intros [W1 W2 W3 W4 W5 W6] Hn Hal Hmax Hfb Hlen.
  pose proof (length_dirent inum name) as Hd.
  destruct (iappend_run s 1 T_DIR rbs (mk_dirent inum name) W1) as (s' & E & Hinv & Hfl & Hino & Hfr);
    [done|lia|done|by apply dirent_bytes|lia|rewrite Hd; change (Z.of_nat 16) with 16; rewrite touched_dirent by lia; lia|].
  rewrite Hd in Hfr. change (Z.of_nat 16) with 16 in Hfr. rewrite touched_dirent in Hfr by lia.
  exists s'. split; [done|]. split; [|done]. destruct Hfr as [F1 F2 F3]. constructor; try done.
  - intros n f Hf. pose proof (lookup_lt_Some _ _ _ Hf). apply F1; [unfold is_inode; lia|lia|by apply W3].
  - lia.
  - rewrite F3 by lia. done.
  - intros b Hb. rewrite F3 by lia. by apply W6.
Qed.

Lemma add_file_run s rbs fs f :
  world s rbs fs → bytes_ok f.1 → bytes_ok f.2 → 47 ∉ f.1 →
  Z.of_nat (length rbs) mod 16 = 0 → Z.of_nat (length rbs) + 16 <= 138 * 512 →
  Z.of_nat (length f.2) <= 138 * 512 → (length fs < 206)%nat → Mkfs.im_freeblock s + cost f <= FSSIZE →
  ∃ s', Mkfs.add_file 1 f s = Ret tt s'
    ∧ world s' (rbs ++ mk_dirent (2 + Z.of_nat (length fs)) (bare f.1)) (fs ++ [f])
    ∧ Mkfs.im_freeblock s <= Mkfs.im_freeblock s' <= Mkfs.im_freeblock s + cost f.
Proof.
  intros W Hn Hc H47 Hal Hrmax Hmax Hlen Hfb. pose proof W as [W1 W2 W3 W4 W5 W6]. unfold cost in *.
  assert (0 <= blocks (length f.2)) as Hb0 by (apply Z.div_pos; lia).
  unfold Mkfs.add_file. rewrite bool_decide_eq_false_2 by done.
  destruct (ialloc_run s T_FILE W1) as (s1 & E1 & Hinv1 & Hfl1 & Hino1 & Hfr1); [unfold is_inode; lia|done|].
  rewrite (bind_ret _ _ _ _ _ E1). rewrite W4 in *. set (k := 2 + Z.of_nat (length fs)) in *.
  rewrite xshort_id by lia. fold (bare f.1). pose proof (fr_fb _ _ _ _ Hfr1) as Hfb1.
  assert (bytes_ok (bare f.1)) as Hbare.
  { unfold bare. destruct f.1 as [|c name]; [done|]. destruct (c =? 95); [by apply Forall_cons in Hn as [_ ?]|done]. }
  destruct (iappend_run s1 1 T_DIR rbs (mk_dirent k (bare f.1)) Hinv1) as (s2 & E2 & Hinv2 & Hroot2 & Hino2 & Hfr2);
    [done|lia|by apply (fr_files _ _ _ _ Hfr1); [done|lia|]|by apply dirent_bytes|rewrite length_dirent; lia|
     rewrite length_dirent; change (Z.of_nat 16) with 16; rewrite touched_dirent by lia; lia|].
  rewrite length_dirent in Hfr2. change (Z.of_nat 16) with 16 in Hfr2. rewrite touched_dirent in Hfr2 by lia.
  rewrite (bind_ret _ _ _ _ _ E2). pose proof (fr_fb _ _ _ _ Hfr2) as Hfb2.
  assert (is_inode k) as Hk by (unfold is_inode, k; lia).
  assert (file (Mkfs.im_sect s2) k T_FILE []) as Hfl2 by (apply (fr_files _ _ _ _ Hfr2); [done|lia|done]).
  destruct (append_file_run (length f.2) s2 k T_FILE [] f.2 Hinv2 Hk) as (s3 & E3 & Hinv3 & Hfl3 & Hino3 & Hfr3);
    [lia|done|done|by right|cbn; lia|done|lia|].
  exists s3. split; [done|]. pose proof (fr_fb _ _ _ _ Hfr3) as Hfb3. split; [|lia]. constructor; try done.
  - apply (fr_files _ _ _ _ Hfr3); [done|lia|done].
  - intros n g Hg. apply lookup_app_Some in Hg as [Hg|[Hle Hg]].
    + pose proof (lookup_lt_Some _ _ _ Hg) as Hlt. assert (is_inode (2 + Z.of_nat n)) as Hkn by (unfold is_inode; lia).
      apply (fr_files _ _ _ _ Hfr3); [done|lia|]. apply (fr_files _ _ _ _ Hfr2); [done|lia|].
      apply (fr_files _ _ _ _ Hfr1); [done|lia|]. by apply W3.
    + destruct (n - length fs)%nat eqn:En; [|done]. cbn in Hg. injection Hg as <-. replace n with (length fs) by lia. exact Hfl3.
  - rewrite length_app. cbn. lia.
  - rewrite (fr_meta _ _ _ _ Hfr3), (fr_meta _ _ _ _ Hfr2), (fr_meta _ _ _ _ Hfr1) by lia. exact W5.
  - intros b Hb. rewrite (fr_meta _ _ _ _ Hfr3), (fr_meta _ _ _ _ Hfr2), (fr_meta _ _ _ _ Hfr1) by lia. by apply W6.
Qed.

(** The entries of the files, from the inode [k] on. *)
Fixpoint entries (k : Z) fs : list Z :=
  match fs with [] => [] | f :: fs' => mk_dirent k (bare f.1) ++ entries (k + 1) fs' end.
Definition total fs : Z := foldr (λ f c, cost f + c) 0 fs.

Lemma length_entries k fs : length (entries k fs) = (16 * length fs)%nat.
Proof. revert k. induction fs as [|f fs IH]; intros k; cbn; [done|]. rewrite length_app, length_dirent, IH. lia. Qed.

Lemma total_nonneg fs : 0 <= total fs.
Proof.
  unfold total. induction fs as [|f fs IH]; cbn [foldr]; [lia|].
  assert (0 <= blocks (length f.2)) by (apply Z.div_pos; lia). unfold cost at 1. lia.
Qed.

Definition small_files fs : Prop :=
  Forall (λ f, bytes_ok f.1 ∧ bytes_ok f.2 ∧ (47 ∉ f.1) ∧ Z.of_nat (length f.2) <= 138 * 512) fs.

Lemma add_files_run fs s rbs fs0 :
  world s rbs fs0 → small_files fs → Z.of_nat (length rbs) mod 16 = 0 →
  Z.of_nat (length rbs) + 16 * Z.of_nat (length fs) <= 138 * 512 → (length fs0 + length fs <= 206)%nat →
  Mkfs.im_freeblock s + total fs <= FSSIZE →
  ∃ s', mfor fs (Mkfs.add_file 1) s = Ret tt s'
    ∧ world s' (rbs ++ entries (2 + Z.of_nat (length fs0)) fs) (fs0 ++ fs)
    ∧ Mkfs.im_freeblock s <= Mkfs.im_freeblock s' <= Mkfs.im_freeblock s + total fs.
Proof.
  revert s rbs fs0. induction fs as [|f fs IH]; intros s rbs fs0 W Hsm Hal Hmax Hlen Hfb.
  { exists s. cbn [entries]. rewrite !app_nil_r. split; [done|]. split; [done|]. cbn. lia. }
  apply Forall_cons in Hsm as [(S1 & S2 & S3 & S4) Hsm]. cbn [length total foldr] in *. fold (total fs) in *.
  pose proof (total_nonneg fs) as Ht.
  destruct (add_file_run s rbs fs0 f W S1 S2 S3 Hal) as (s1 & E1 & W1 & Hfb1); [lia|lia|lia|lia|].
  cbn [mfor]. rewrite (bind_ret _ _ _ _ _ E1).
  destruct (IH s1 (rbs ++ mk_dirent (2 + Z.of_nat (length fs0)) (bare f.1)) (fs0 ++ [f]) W1 Hsm) as (s2 & E2 & W2 & Hfb2);
    rewrite ?length_app, ?length_dirent; cbn [length]; try lia.
  { rewrite Nat2Z.inj_add. change (Z.of_nat 16) with (1 * 16). by rewrite Z.mod_add. }
  exists s2. split; [done|]. split; [|lia]. cbn [entries]. rewrite <-!app_assoc in W2. cbn [app] in W2.
  rewrite length_app in W2. cbn [length] in W2. replace (2 + Z.of_nat (length fs0 + 1)) with (2 + Z.of_nat (length fs0) + 1) in W2 by lia.
  done.
Qed.

(** ** The free map *)
Lemma bits_spec (n j : nat) : (n <= 4096)%nat → bit_get (Mkfs.bits (Z.of_nat n)) j = bool_decide (j < n)%nat.
Proof.
  unfold Mkfs.bits. rewrite Nat2Z.id. induction n as [|n IH]; intros Hn.
  - cbn. rewrite bool_decide_eq_false_2 by lia. rewrite bit_get_testbit.
    assert (byte_at zero_block (j / 8) = 0) as ->; [|apply Z.bits_0].
    unfold byte_at. destruct (zero_block !! (j / 8)%nat) as [x|] eqn:Ex; [|done].
    with_strategy transparent [zero_block] unfold zero_block in Ex. by apply lookup_replicate in Ex as [-> _].
  - rewrite seq_S, foldl_app. cbn [foldl Nat.add].
    assert (∀ l d, length (foldl bit_set d l) = length d) as Hlen.
    { induction l as [|x l IHl]; intros d; [done|]. cbn [foldl]. rewrite IHl.
      with_strategy transparent [bit_set] unfold bit_set. apply length_insert. }
    rewrite bit_get_set; [|rewrite Hlen; change (length zero_block) with 512%nat; apply Nat.Div0.div_lt_upper_bound; lia].
    rewrite IH by lia. rewrite <-bool_decide_or. apply bool_decide_ext. lia.
Qed.

(** ** The first entries *)
Definition dots : list Z := mk_dirent 1 [46] ++ mk_dirent 1 [46; 46].

Definition blank : Mkfs.image := Mkfs.mkimage (put_sect (λ _, zero_block) 1 Mkfs.sb_block) 1 Mkfs.nmeta.

Lemma zero_ok : blk_ok zero_block.
Proof. split; [done|apply zero_block_bytes]. Qed.

Lemma sb_block_ok : blk_ok Mkfs.sb_block.
Proof. unfold Mkfs.sb_block. cbn [foldl fst snd]. repeat apply blk_put_word. apply zero_ok. Qed.

Lemma blank_inv : fs_inv blank.
Proof.
  assert (∀ k, is_inode k → dinode (Mkfs.im_sect blank) k = Mkfs.din_zero) as Hd.
  { intros k Hk. destruct (iblock_range k Hk) as [_ Hr]. unfold dinode. cbn [Mkfs.im_sect blank].
    rewrite put_sect_ne by lia. pose proof (Z.mod_pos_bound k 8 ltac:(lia)) as Hm.
    apply list_eq_byte.
    - rewrite length_get_bytes; [done|]. change (length zero_block) with 512%nat. lia.
    - intros j Hj. rewrite length_get_bytes in Hj by (change (length zero_block) with 512%nat; lia).
      rewrite byte_at_get_bytes by done.
      assert (∀ n j, byte_at (replicate n 0) j = 0) as Hz.
      { intros n j'. unfold byte_at. destruct (_ !! j') eqn:Ex; [|done]. by apply lookup_replicate in Ex as [-> _]. }
      with_strategy transparent [zero_block] unfold zero_block. unfold Mkfs.din_zero. by rewrite !Hz. }
  assert (∀ k, is_inode k → addrs (Mkfs.im_sect blank) k = replicate 13 0) as Ha.
  { intros k Hk. unfold addrs. rewrite Hd by done. apply din_zero_addrs. }
  assert (∀ k sl, is_inode k → slot_ok sl → at_slot (Mkfs.im_sect blank) (addrs (Mkfs.im_sect blank) k) sl = 0) as Hat.
  { intros k sl Hk Hs. rewrite Ha by done. destruct sl as [j| |e]; cbn [at_slot slot_ok] in *;
      [apply list_lookup_total_correct, lookup_replicate_2; lia|done|done]. }
  constructor; [|done|intros k Hk _; by apply Hd]. constructor.
  - intros k sl Hk Hs Hn. by rewrite Hat in Hn.
  - intros k sl k' sl' Hk Hk' Hs Hs' Hn. by rewrite Hat in Hn.
  - intros b Hb. change (Mkfs.im_freeblock blank) with 68 in Hb. apply put_sect_ne. lia.
  - intros b. cbn [Mkfs.im_sect blank]. unfold put_sect. case_match; [apply sb_block_ok|apply zero_ok].
  - done.
Qed.

(** ** The kernel's view *)
(** The inode [k] as [ilock] loads it. *)
Definition loaded v (k : Z) : inode :=
  get_dinode (v (IBLOCK k Mkfs.sb)) (Z.to_nat (k mod IPB))
    (mkinode ROOTDEV k 1 (mksleeplock true 0) false 0 0 0 0 0 []).

(** The kernel finds the type, one link, the size and, through [bmap], the bytes. *)
Definition kernel_file v (k ty : Z) (bs : list Z) : Prop :=
  i_type (loaded v k) = ty ∧ i_nlink (loaded v k) = 1 ∧ i_size (loaded v k) = Z.of_nat (length bs)
  ∧ ∀ o, 0 <= o < Z.of_nat (length bs) → file_byte v (i_addrs (loaded v k)) o = byte_at bs (Z.to_nat o).

Lemma dinode_words v k (j : nat) : is_inode k → (j < 16)%nat →
  get_word (v (IBLOCK k Mkfs.sb)) (dinode_word (Z.to_nat (k mod 8)) j) = get_word (dinode v k) j.
Proof.
  intros Hk Hj. pose proof (Z.mod_pos_bound k 8 ltac:(lia)) as Hm. unfold dinode_word.
  with_strategy transparent [get_word] unfold get_word. rewrite !byte_at_dinode by lia.
  replace (Z.to_nat (k mod 8 * 64)) with (4 * (16 * Z.to_nat (k mod 8)))%nat by lia.
  by rewrite !Nat.add_assoc, <-!Nat.mul_add_distr_l.
Qed.
Lemma dinode_halves v k (j : nat) : is_inode k → (j < 32)%nat →
  get_half (v (IBLOCK k Mkfs.sb)) (dinode_half (Z.to_nat (k mod 8)) j) = get_half (dinode v k) j.
Proof.
  intros Hk Hj. pose proof (Z.mod_pos_bound k 8 ltac:(lia)) as Hm. unfold dinode_half.
  with_strategy transparent [get_half] unfold get_half. rewrite !byte_at_dinode by lia.
  replace (Z.to_nat (k mod 8 * 64)) with (2 * (32 * Z.to_nat (k mod 8)))%nat by lia.
  by rewrite !Nat.add_assoc, <-!Nat.mul_add_distr_l.
Qed.

Lemma loaded_addrs v k : is_inode k → i_addrs (loaded v k) = addrs v k.
Proof.
  intros Hk. cbn [i_addrs loaded get_dinode set_i_addrs]. unfold addrs, addrs_of. change (Z.to_nat (NDIRECT + 3)) with 13%nat.
  apply list_fmap_ext. intros n j Hj%lookup_seq. change IPB with 8. apply dinode_words; [done|lia].
Qed.

Lemma file_kernel v k ty bs : file v k ty bs → is_inode k → 0 <= ty < 2 ^ 15 → kernel_file v k ty bs.
Proof.
  intros [L1 L2 L3 L4 L5] Hk Hty. unfold kernel_file. rewrite loaded_addrs by done.
  assert (∀ x, 0 <= x < 2 ^ 15 → s16 x = x) as Hs16 by (intros x Hx; unfold s16; rewrite Z.mod_small; lia).
  change (i_type (loaded v k)) with (s16 (get_half (v (IBLOCK k Mkfs.sb)) (dinode_half (Z.to_nat (k mod 8)) 0))).
  change (i_nlink (loaded v k)) with (s16 (get_half (v (IBLOCK k Mkfs.sb)) (dinode_half (Z.to_nat (k mod 8)) 3))).
  change (i_size (loaded v k)) with (get_word (v (IBLOCK k Mkfs.sb)) (dinode_word (Z.to_nat (k mod 8)) 2)).
  rewrite !dinode_halves, dinode_words by (done || lia).
  unfold Mkfs.din_size in L3. rewrite L1, L2, L3. split_and!; [by apply Hs16|by apply Hs16|done|].
  intros o Ho. rewrite file_byte_leaf by lia. apply L5. lia.
Qed.

(** ** The last steps of [main] *)
(** The size of the root directory becomes the next multiple of a block. *)
Definition pad (n : Z) : nat := Z.to_nat ((n / 512 + 1) * 512 - n).

Lemma byte_at_pad (l : list Z) (n j : nat) : byte_at (l ++ replicate n 0) j = byte_at l j.
Proof.
  rewrite byte_at_app. case_decide as Hc; [done|]. rewrite (byte_at_out l) by lia.
  unfold byte_at. destruct (_ !! _) eqn:Ex; [|done]. by apply lookup_replicate in Ex as [-> _].
Qed.

Lemma root_fix s rbs fs :
  world s rbs fs → Z.of_nat (length rbs) <= 137 * 512 → (length fs <= 206)%nat →
  ∃ s', (din ← Mkfs.rinode 1;
         let off := Mkfs.xint (Mkfs.din_size din) in
         let off := u32 ((off / BSIZE + 1) * BSIZE) in
         Mkfs.winode 1 (Mkfs.set_din_size din (Mkfs.xint off))) s = Ret tt s'
    ∧ world s' (rbs ++ replicate (pad (Z.of_nat (length rbs))) 0) fs ∧ Mkfs.im_freeblock s' = Mkfs.im_freeblock s.
Proof.
  intros [[Hf Hino Hun] [L1 L2 L3 L4 L5] W3 W4 W5 W6] Hmax Hlen. set (v := Mkfs.im_sect s) in *.
  assert (is_inode 1) as Hi by (unfold is_inode; lia).
  pose proof (fo_blk _ _ _ Hf) as Hok. set (din := dinode v 1) in *. set (n := Z.of_nat (length rbs)) in *.
  assert (length din = 64%nat) as Hl by (apply length_dinode, Hok).
  rewrite (bind_ret _ _ _ _ _ (rinode_run s 1 Hi)). fold v din. rewrite L3, (xint_id n) by (unfold is_u32; lia).
  change BSIZE with 512. set (size := (n / 512 + 1) * 512).
  assert (n < size <= n + 512) as Hsz by (unfold size; Z.to_euclidean_division_equations; lia).
  cbn zeta. rewrite u32_id, xint_id by (unfold is_u32; lia). set (d2 := Mkfs.set_din_size din size).
  destruct (winode_run s 1 d2 Hi) as (v2 & Ew & Q1 & Q2 & Q3 & Q4);
    [unfold d2, Mkfs.set_din_size; by rewrite length_put_word|by apply put_word_bytes, dinode_bytes|done|].
  fold v in Q2, Q4.
  assert (∀ k, is_inode k → addrs v2 k = addrs v k) as Haddr.
  { intros k Hk. unfold addrs. destruct (decide (k = 1)) as [->|Hne]; [|by rewrite Q2]. rewrite Q1. fold din.
    unfold addrs_of, d2, Mkfs.set_din_size. apply list_fmap_ext. intros _ j _. by rewrite get_put_word_ne by lia. }
  destruct (forest_ext v _ _ v2 (addrs v2) Hf Haddr) as [Hf2 Hsame];
    [intros b Hb; change Mkfs.nmeta with 68 in Hb; apply Q4; lia|done|].
  exists (Mkfs.set_im_sect v2 s). split; [exact Ew|]. split; [|done].
  constructor; cbn [Mkfs.im_sect Mkfs.set_im_sect Mkfs.im_freeinode Mkfs.im_freeblock].
  - constructor; cbn; [done|lia|]. intros k Hk Hle. rewrite Q2 by (done || lia). apply Hun; [done|lia].
  - unfold pad. fold n size. constructor; rewrite ?Q1; unfold d2, Mkfs.set_din_size.
    + rewrite get_half_put_word by lia. done.
    + rewrite get_half_put_word by lia. done.
    + unfold Mkfs.din_size. rewrite get_put_word_eq by lia. rewrite u32_id by (unfold is_u32; lia).
      rewrite length_app, length_replicate. lia.
    + rewrite length_app, length_replicate. lia.
    + intros o Ho. rewrite byte_at_pad, (fbyte_same _ _ _ _ 1 o Hsame Hi Ho). by apply L5.
  - intros m f Hm. pose proof (lookup_lt_Some _ _ _ Hm). assert (is_inode (2 + Z.of_nat m)) as Hk by (unfold is_inode; lia).
    destruct (W3 m f Hm) as [K1 K2 K3 K4 K5]. constructor; rewrite ?Q2 by (done || lia); try done.
    intros o Ho. rewrite (fbyte_same _ _ _ _ _ o Hsame Hk Ho). by apply K5.
  - done.
  - rewrite Q4 by lia. done.
  - intros b Hb. rewrite Q4 by lia. by apply W6.
Qed.

(** The free map does not matter to the files. *)
Lemma map_file s d :
  fs_inv s → blk_ok d →
  fs_inv (Mkfs.set_im_sect (put_sect (Mkfs.im_sect s) 58 d) s)
  ∧ ∀ k ty bs, is_inode k → file (Mkfs.im_sect s) k ty bs → file (put_sect (Mkfs.im_sect s) 58 d) k ty bs.
Proof.
  intros [Hf Hino Hun] Hd. set (v := Mkfs.im_sect s) in *. set (v' := put_sect v 58 d).
  assert (∀ k, is_inode k → dinode v' k = dinode v k) as Hdin.
  { intros k Hk. destruct (iblock_range k Hk) as [_ Hr]. unfold dinode, v'. by rewrite put_sect_ne by lia. }
  destruct (forest_ext v _ _ v' (addrs v') Hf) as [Hf2 Hsame].
  - intros k Hk. unfold addrs. by rewrite Hdin.
  - intros b Hb. change Mkfs.nmeta with 68 in Hb. unfold v'. by rewrite put_sect_ne by lia.
  - intros b. unfold v', put_sect. case_match; [done|apply Hf].
  - split.
    + constructor; cbn; [done|done|]. intros k Hk Hle. fold v'. rewrite Hdin by done. by apply Hun.
    + intros k ty bs Hk [K1 K2 K3 K4 K5]. constructor; rewrite ?Hdin by done; try done.
      intros o Ho. rewrite (fbyte_same _ _ _ _ _ o Hsame Hk Ho). by apply K5.
Qed.

Lemma bits_ok n : blk_ok (Mkfs.bits n).
Proof.
  unfold Mkfs.bits. assert (∀ l d, blk_ok d → blk_ok (foldl bit_set d l)) as H; [|apply H, zero_ok].
  induction l as [|j l IH]; intros d Hd; [done|]. by apply IH, bit_set_ok.
Qed.

Lemma used_bits v n b :
  0 <= n <= 4096 → v 58 = Mkfs.bits n → (∀ c, 59 <= c < 68 → v c = zero_block) → 0 <= b < FSSIZE →
  used Mkfs.sb v b = (b <? n).
Proof.
  intros Hn H58 Hz Hb. change FSSIZE with 40000 in Hb. unfold used, BBLOCK. change (sb_bmapstart Mkfs.sb) with 58.
  change BPB with 4096.
  assert (0 <= b / 4096 < 10) as Hq by (split; [apply Z.div_pos; lia|apply Z.div_lt_upper_bound; lia]).
  rewrite u32_id by (unfold is_u32; lia). pose proof (Z.mod_pos_bound b 4096 ltac:(lia)) as Hm.
  pose proof (Z.div_mod b 4096 ltac:(lia)) as Hdm. destruct (decide (b / 4096 = 0)) as [H0|H0].
  - rewrite H0. change (0 + 58) with 58. rewrite H58. rewrite <-(Z2Nat.id n) by lia. rewrite bits_spec by lia.
    destruct (Z.ltb_spec b (Z.of_nat (Z.to_nat n))); [rewrite bool_decide_eq_true_2|rewrite bool_decide_eq_false_2]; lia || done.
  - rewrite Hz by lia. change zero_block with (Mkfs.bits (Z.of_nat 0)). rewrite bits_spec by lia.
    rewrite bool_decide_eq_false_2 by lia. symmetry. apply Z.ltb_ge. lia.
Qed.

Lemma blank_world : ∃ s, Mkfs.ialloc T_DIR blank = Ret 1 s ∧ world s [] [] ∧ Mkfs.im_freeblock s = 68.
Proof.
  destruct (ialloc_run blank T_DIR blank_inv) as (s & E & Hinv & Hfl & Hino & [F1 F2 F3]); [unfold is_inode; cbn; lia|done|].
  change (Mkfs.im_freeinode blank) with 1 in *. change (Mkfs.im_freeblock blank) with 68 in *.
  exists s. split; [done|]. split; [|lia]. constructor; try done.
  - rewrite F3 by lia. cbn [Mkfs.im_sect blank]. apply put_sect_eq.
  - intros b Hb. rewrite F3 by lia. cbn [Mkfs.im_sect blank]. by rewrite put_sect_ne by lia.
Qed.

(** What the kernel finds on the image [s] of [files]. *)
Record image_of files s : Prop := {
  io_sb : decode_sb (Mkfs.im_sect s 1) = Mkfs.sb;
  io_root : let rbs := dots ++ entries 2 files in
    kernel_file (Mkfs.im_sect s) ROOTINO T_DIR (rbs ++ replicate (pad (Z.of_nat (length rbs))) 0);
  io_files : ∀ (n : nat) f, files !! n = Some f → kernel_file (Mkfs.im_sect s) (2 + Z.of_nat n) T_FILE f.2;
  io_rest : ∀ k, 2 + Z.of_nat (length files) <= k < 208 → i_type (loaded (Mkfs.im_sect s) k) = 0;
  io_blocks : forest (Mkfs.im_sect s) (λ k, i_addrs (loaded (Mkfs.im_sect s) k)) (Mkfs.im_freeblock s);
  io_used : ∀ b, 0 <= b < FSSIZE → used Mkfs.sb (Mkfs.im_sect s) b = (b <? Mkfs.im_freeblock s);
}.

Lemma world_image s rbs files :
  world s (rbs ++ replicate (pad (Z.of_nat (length rbs))) 0) files → rbs = dots ++ entries 2 files →
  (length files <= 206)%nat → Mkfs.im_freeblock s < 4096 →
  ∃ s', Mkfs.balloc (Mkfs.im_freeblock s) s = Ret tt s' ∧ image_of files s'.
Proof.
  intros [W1 W2 W3 W4 W5 W6] -> Hlen Hfb. set (n := Mkfs.im_freeblock s) in *.
  pose proof (fo_fb _ _ _ (fi_forest _ W1)) as Hn. change Mkfs.nmeta with 68 in Hn. fold n in Hn.
  destruct (map_file s (Mkfs.bits n) W1 (bits_ok n)) as [Hinv Hfile]. set (v := put_sect (Mkfs.im_sect s) 58 (Mkfs.bits n)) in *.
  exists (Mkfs.set_im_sect v s). split.
  { unfold Mkfs.balloc. change (BSIZE * 8) with 4096. rewrite (proj2 (Z.ltb_lt n 4096)) by done. done. }
  constructor; cbn [Mkfs.im_sect Mkfs.set_im_sect Mkfs.im_freeblock].
  - unfold v. rewrite put_sect_ne, W5 by lia. vm_compute. reflexivity.
  - cbn zeta. apply file_kernel; [|done|done]. by apply Hfile.
  - intros m f Hm. pose proof (lookup_lt_Some _ _ _ Hm). assert (is_inode (2 + Z.of_nat m)) as Hk by (unfold is_inode; lia).
    apply file_kernel; [|done|done]. apply Hfile; [done|]. by apply W3.
  - intros k Hk. assert (is_inode k) as Hi by (unfold is_inode; lia).
    change (i_type (loaded v k)) with (s16 (get_half (v (IBLOCK k Mkfs.sb)) (dinode_half (Z.to_nat (k mod 8)) 0))).
    rewrite dinode_halves by (done || lia). pose proof (fi_unused _ Hinv k Hi) as Hun. cbn in Hun. rewrite Hun by lia.
    vm_compute. reflexivity.
  - destruct Hinv as [Hf _ _]. cbn in Hf. destruct (forest_ext _ _ _ v (λ k, i_addrs (loaded v k)) Hf) as [Hf2 _]; [|done|apply Hf|done].
    intros k Hk. by apply loaded_addrs.
  - fold n. intros b Hb. apply used_bits; [lia|apply put_sect_eq| |done]. intros c Hc. unfold v. rewrite put_sect_ne by lia. apply W6. lia.
Qed.

(** C12: the image of a command line whose files fit is made, and the kernel finds on it the
    super block, the files with their contents, the root directory with their names, and
    the free map of the blocks in use. *)
Theorem mkfs_image files :
  small_files files → (length files <= 206)%nat → Mkfs.nmeta + 4 + total files < BSIZE * 8 →
  ∃ s, Mkfs.main files Mkfs.start = Ret tt s ∧ image_of files s.
Proof.
  intros Hsm Hlen Hfit. change Mkfs.nmeta with 68 in Hfit. change (BSIZE * 8) with 4096 in Hfit.
  pose proof (total_nonneg files) as Ht.
  unfold Mkfs.main. rewrite !bind_modify. unfold Mkfs.wsect at 1. rewrite bind_modify.
  change (Mkfs.set_im_sect _ _) with blank.
  destruct blank_world as (s0 & E0 & W0 & Hfb0). rewrite (bind_ret _ _ _ _ _ E0).
  change (negb (1 =? ROOTINO)) with false. cbn [negb]. cbv iota. change (Mkfs.xshort 1) with 1.
  destruct (root_append s0 [] [] 1 [46] W0) as (s1 & E1 & W1 & [_ F1 _]);
    [repeat constructor; unfold is_byte; lia|done|cbn; lia|rewrite Hfb0; change FSSIZE with 40000; lia|cbn; lia|].
  rewrite (bind_ret _ _ _ _ _ E1). cbn [app] in W1.
  destruct (root_append s1 _ [] 1 [46; 46] W1) as (s2 & E2 & W2 & [_ F2 _]);
    [repeat constructor; unfold is_byte; lia|by rewrite length_dirent|rewrite length_dirent; lia|
     change FSSIZE with 40000; lia|cbn; lia|].
  rewrite (bind_ret _ _ _ _ _ E2). fold dots in W2.
  assert (length dots = 32%nat) as Hd by (unfold dots; by rewrite length_app, !length_dirent).
  destruct (add_files_run files s2 dots [] W2 Hsm) as (s3 & E3 & W3 & F3);
    [by rewrite Hd|rewrite Hd; lia|cbn; lia|change FSSIZE with 40000; lia|].
  rewrite (bind_ret _ _ _ _ _ E3). cbn [app length] in W3. change (2 + Z.of_nat 0) with 2 in W3.
  destruct (root_fix s3 _ files W3) as (s4 & E4 & W4 & F4); [rewrite length_app, Hd, length_entries; lia|done|].
  destruct (world_image s4 _ files W4 eq_refl Hlen) as (s5 & E5 & W5); [lia|].
  exists s5. split; [|done].
  pose proof (rinode_run s3 1 ltac:(unfold is_inode; lia)) as Er. rewrite (bind_ret _ _ _ _ _ Er) in E4.
  rewrite (bind_ret _ _ _ _ _ Er). cbn zeta in E4 |- *. rewrite (bind_ret _ _ _ _ _ E4), bind_gets. exact E5.
Qed.

(** [mkfs fs.img _ls notes], the first file needing the index block. *)
Lemma mkfs_image_witness :
  let files := [([95; 108; 115], replicate (Z.to_nat 6000) 7); ([110; 111; 116; 101; 115], [104; 105; 10])] in
  ∃ s, Mkfs.main files Mkfs.start = Ret tt s ∧ image_of files s.
Proof.
  intros files. apply (mkfs_image files).
  - repeat apply Forall_cons_2; [..|apply Forall_nil_2]; cbn [fst snd].
    + split; [repeat constructor; unfold is_byte; lia|]. split; [apply Forall_replicate; unfold is_byte; lia|].
      split; [by apply (bool_decide_unpack _)|]. rewrite length_replicate. lia.
    + split; [repeat constructor; unfold is_byte; lia|]. split; [repeat constructor; unfold is_byte; lia|].
      split; [by apply (bool_decide_unpack _)|]. cbn. lia.
  - cbn. lia.
  - vm_compute. reflexivity.
Defined.
