(* ===== verification/Kalloc.v ===== *)
(** * The physical page allocator (kalloc.c)

    Kernel memory is a flat memory of bytes, addressed by kernel virtual
    addresses.  The list of free pages runs through the first word of each free
    page, as in the code.  [kend], the first address after the kernel ([end] of
    kernel.ld), is a parameter. *)
From S2P Require Import Prelude Params Str.

(** memlayout.h and mmu.h *)
Definition EXTMEM : Z := 1048576.
Definition PHYSTOP : Z := 234881024.
Definition DEVSPACE : Z := 4261412864.
Definition KERNLINK : Z := KERNBASE + EXTMEM.
Definition V2P (a : Z) : Z := u32 (a - KERNBASE).
Definition P2V (a : Z) : Z := u32 (a + KERNBASE).
Definition PGROUNDUP (sz : Z) : Z := Z.land (u32 (sz + PGSIZE - 1)) (Z.lnot (PGSIZE - 1)).
Definition PGROUNDDOWN (a : Z) : Z := Z.land a (Z.lnot (PGSIZE - 1)).

(** [*(uint* )a] *)
Definition load_word (m : mem) (a : Z) : Z :=
  m a + 2 ^ 8 * m (a + 1) + 2 ^ 16 * m (a + 2) + 2 ^ 24 * m (a + 3).

(** [kmem], the memory, and the page table registers that vm.c sets. *)
Record memory := mkmemory {
  mm_locked : bool;
  mm_use_lock : bool;
  mm_freelist : Z;  (* 0 is the null pointer *)
  mm_bytes : mem;
  mm_kpgdir : Z;
  mm_cr3 : Z;
  mm_esp0 : Z
}.

Definition set_mm_locked (v : bool) (s : memory) : memory :=
  mkmemory v (mm_use_lock s) (mm_freelist s) (mm_bytes s) (mm_kpgdir s) (mm_cr3 s) (mm_esp0 s).
Definition set_mm_use_lock (v : bool) (s : memory) : memory :=
  mkmemory (mm_locked s) v (mm_freelist s) (mm_bytes s) (mm_kpgdir s) (mm_cr3 s) (mm_esp0 s).
Definition set_mm_freelist (v : Z) (s : memory) : memory :=
  mkmemory (mm_locked s) (mm_use_lock s) v (mm_bytes s) (mm_kpgdir s) (mm_cr3 s) (mm_esp0 s).
Definition set_mm_bytes (v : mem) (s : memory) : memory :=
  mkmemory (mm_locked s) (mm_use_lock s) (mm_freelist s) v (mm_kpgdir s) (mm_cr3 s) (mm_esp0 s).
Definition set_mm_kpgdir (v : Z) (s : memory) : memory :=
  mkmemory (mm_locked s) (mm_use_lock s) (mm_freelist s) (mm_bytes s) v (mm_cr3 s) (mm_esp0 s).
Definition set_mm_cr3 (v : Z) (s : memory) : memory :=
  mkmemory (mm_locked s) (mm_use_lock s) (mm_freelist s) (mm_bytes s) (mm_kpgdir s) v (mm_esp0 s).
Definition set_mm_esp0 (v : Z) (s : memory) : memory :=
  mkmemory (mm_locked s) (mm_use_lock s) (mm_freelist s) (mm_bytes s) (mm_kpgdir s) (mm_cr3 s) v.

(** Accesses to memory. *)
Definition ldw (a : Z) : M memory Z := λ s, Ret (load_word (mm_bytes s) a) s.
Definition stw (a w : Z) : M memory unit := λ s, Ret tt (set_mm_bytes (store_word (mm_bytes s) a w) s).
Definition on_bytes (g : mem → mem) : M memory unit := λ s, Ret tt (set_mm_bytes (g (mm_bytes s)) s).

(** [if(kmem.use_lock) acquire(&kmem.lock)], and the release. *)
Definition acquire_kmem : M memory unit := λ s,
  if mm_use_lock s then
    if mm_locked s then Panic "acquire" else Ret tt (set_mm_locked true s)
  else Ret tt s.
Definition release_kmem : M memory unit := λ s,
  if mm_use_lock s then
    if mm_locked s then Ret tt (set_mm_locked false s) else Panic "release"
  else Ret tt s.

Section kalloc.
Context (kend : Z).

Definition kfree (v : Z) : M memory unit :=
  if negb (v mod PGSIZE =? 0) || (v <? kend) || (PHYSTOP <=? V2P v) then panic "kfree 1" else
  on_bytes (λ m, memset m v 1 PGSIZE);;
  acquire_kmem;;
  head ← gets mm_freelist;
  stw v head;;
  modify (set_mm_freelist v);;
  release_kmem.

Definition kalloc : M memory Z :=
  acquire_kmem;;
  r ← gets mm_freelist;
  (if r =? 0 then mret tt else
   next ← ldw r;
   modify (set_mm_freelist next));;
  release_kmem;;
  mret r.

(** The pages [p], [p + PGSIZE], ... of [freerange] with [p + PGSIZE <= vend]. *)
Definition range_pages (vstart vend : Z) : list Z :=
  (λ i, PGROUNDUP vstart + Z.of_nat i * PGSIZE)
    <$> seq 0 (Z.to_nat ((vend - PGROUNDUP vstart) / PGSIZE)).

Definition freerange (vstart vend : Z) : M memory unit := mfor (range_pages vstart vend) kfree.

Definition kinit1 (vstart vend : Z) : M memory unit :=
  modify (set_mm_locked false);;
  modify (set_mm_use_lock false);;
  freerange vstart vend.

Definition kinit2 (vstart vend : Z) : M memory unit :=
  freerange vstart vend;;
  modify (set_mm_use_lock true).
End kalloc.
