(* ===== verification/KallocInv.v ===== *)
(** * The page allocator: the free list and who owns which page *)
From S2P Require Import Prelude Params Str Kalloc.

(** ** Words in memory *)
Section words.
Implicit Types m : mem.

Lemma store_word_other m a w x : x < a ∨ a + 4 <= x → store_word m a w x = m x.
Proof. intros Hx. unfold store_word. rewrite !store_spec. by rewrite !decide_False by lia. Qed.

Lemma load_word_ext m m' a : (∀ x, a <= x < a + 4 → m x = m' x) → load_word m a = load_word m' a.
Proof. intros H. unfold load_word. by rewrite !H by lia. Qed.

Lemma load_store_eq m a w : is_u32 w → load_word (store_word m a w) a = w.
Proof.
  intros Hw. unfold load_word, store_word. rewrite !store_spec. unfold is_u32 in Hw.
  repeat first [case_decide; [lia|] | case_decide; [|lia]]. divlia.
Qed.

Lemma load_store_ne m a b w : b + 4 <= a ∨ a + 4 <= b → load_word (store_word m a w) b = load_word m b.
Proof. intros H. apply load_word_ext. intros x Hx. apply store_word_other. lia. Qed.
End words.

(** ** Rounding *)
Lemma land_page_mask a : Z.land a (Z.lnot (PGSIZE - 1)) = a / PGSIZE * PGSIZE.
Proof.
  change (PGSIZE - 1) with (Z.ones 12). rewrite <-Z.ldiff_land, Z.ldiff_ones_r by lia.
  rewrite Z.shiftl_mul_pow2, Z.shiftr_div_pow2 by lia. done.
Qed.

Lemma PGROUNDDOWN_eq a : PGROUNDDOWN a = a / PGSIZE * PGSIZE.
Proof. apply land_page_mask. Qed.

Lemma PGROUNDUP_eq a : 0 <= a <= 2 ^ 32 - PGSIZE → PGROUNDUP a = (a + PGSIZE - 1) / PGSIZE * PGSIZE.
Proof.
  intros Ha. unfold PGROUNDUP. rewrite land_page_mask, u32_id; [done|]. unfold is_u32, PGSIZE in *. lia.
Qed.

(** ** The free list *)
Section allocator.
Context (kend : Z) (kend_high : KERNBASE <= kend).
Implicit Types (s : memory) (l : list Z) (v p : Z).

(** A page the allocator may manage. *)
Definition page_ok v : Prop := v mod PGSIZE = 0 ∧ kend <= v < KERNBASE + PHYSTOP.

Definition in_page v x : Prop := v <= x < v + PGSIZE.

(** The list that starts at [head] and runs through the first words of its pages. *)
Fixpoint chain (m : mem) (head : Z) l : Prop :=
  match l with
  | [] => head = 0
  | p :: l' => head = p ∧ chain m (load_word m p) l'
  end.

Record kmem_wf s l : Prop := {
  km_chain : chain (mm_bytes s) (mm_freelist s) l;
  km_nodup : NoDup l;
  km_pages : Forall page_ok l;
  km_unlocked : mm_locked s = false;
}.

Lemma page_ok_u32 v : page_ok v → is_u32 v ∧ v ≠ 0.
Proof using kend_high. intros (_ & H). unfold is_u32, KERNBASE, PHYSTOP in *. lia. Qed.

Lemma pages_disjoint v w x : page_ok v → page_ok w → in_page v x → in_page w x → v = w.
Proof. intros [Hv _] [Hw _] H1 H2. unfold in_page, PGSIZE in *. divlia. Qed.

Lemma page_first_word v x : v <= x < v + 4 → in_page v x.
Proof. unfold in_page, PGSIZE. lia. Qed.

Lemma chain_ext (m m' : mem) head l :
  (∀ p x, p ∈ l → in_page p x → m x = m' x) → chain m head l → chain m' head l.
Proof.
  revert head. induction l as [|p l IH]; intros head Hm; cbn; [done|]. intros [-> Hc].
  split; [done|]. rewrite <-(load_word_ext m m').
  - apply IH; [|done]. intros q x Hq. apply Hm. by right.
  - intros x Hx. apply (Hm p); [by left|by apply page_first_word].
Qed.

Lemma chain_head (m : mem) head l : chain m head l → head = default 0 (list.head l).
Proof. destruct l; cbn; [done|]. by intros [-> _]. Qed.

Lemma acquire_kmem_eq s : mm_locked s = false →
  ∃ s1, acquire_kmem s = Ret tt s1 ∧ mm_bytes s1 = mm_bytes s ∧ mm_freelist s1 = mm_freelist s
    ∧ ∀ m fl, release_kmem (set_mm_freelist fl (set_mm_bytes m s1))
              = Ret tt (set_mm_freelist fl (set_mm_bytes m s)).
Proof.
  intros Hl. unfold acquire_kmem. destruct s as [lk ul fl0 b kp cr es]; cbn in *. subst lk.
  destruct ul; eexists; split_and!; done.
Qed.

Lemma kalloc_spec s l :
  kmem_wf s l →
  kalloc s = Ret (default 0 (head l)) (set_mm_freelist (default 0 (head (tail l))) s)
  ∧ kmem_wf (set_mm_freelist (default 0 (head (tail l))) s) (tail l).
Proof using kend_high.
  intros [W1 W2 W3 W4]. destruct (acquire_kmem_eq s W4) as (s1 & E1 & Eb & Ef & Hrel).
  assert (∀ fl, set_mm_freelist fl s1 = set_mm_freelist fl (set_mm_bytes (mm_bytes s) s1)) as Hs1
    by (intros; rewrite <-Eb; by destruct s1).
  assert (∀ fl, set_mm_freelist fl (set_mm_bytes (mm_bytes s) s) = set_mm_freelist fl s) as Hs
    by (intros; by destruct s).
  unfold kalloc. rewrite (bind_ret _ _ _ _ _ E1), bind_gets, Ef, (chain_head _ _ _ W1).
  destruct l as [|p l]; cbn [head tail default option_map from_option id].
  - rewrite Z.eqb_refl, bind_mret. cbn in W1.
    assert (s1 = set_mm_freelist 0 (set_mm_bytes (mm_bytes s) s1)) as ->.
    { destruct s1; cbn in *. unfold set_mm_freelist, set_mm_bytes; cbn. f_equal; congruence. }
    erewrite bind_ret by apply Hrel. rewrite Hs. split; [done|]. by split.
  - destruct W1 as [_ W1]. apply Forall_cons in W3 as [Hp W3]. apply NoDup_cons in W2 as [_ W2].
    destruct (page_ok_u32 p Hp) as [_ Hp0]. destruct (Z.eqb_spec p 0); [done|].
    rewrite bind_assoc. unfold ldw at 1. erewrite bind_ret by reflexivity.
    rewrite bind_modify, Eb, Hs1. erewrite bind_ret by apply Hrel.
    rewrite Hs, (chain_head _ _ _ W1). split; [done|]. split; try done.
    cbn. by rewrite <-(chain_head _ _ _ W1).
Qed.

(** The state after page [v] has been freed. *)
Definition freed_page s v : memory :=
  set_mm_freelist v (set_mm_bytes (store_word (memset (mm_bytes s) v 1 PGSIZE) v (mm_freelist s)) s).

Lemma freed_page_frame s v x : ¬ in_page v x → mm_bytes (freed_page s v) x = mm_bytes s x.
Proof.
  intros Hx. unfold in_page, PGSIZE in Hx. cbn. rewrite store_word_other by lia.
  rewrite memset_eq by (unfold PGSIZE; lia). rewrite decide_False; [done|unfold PGSIZE; lia].
Qed.

Lemma kfree_spec s l v :
  kmem_wf s l → page_ok v → v ∉ l →
  kfree kend v s = Ret tt (freed_page s v) ∧ kmem_wf (freed_page s v) (v :: l).
Proof using kend_high.
  intros [W1 W2 W3 W4] Hv Hnot. pose proof Hv as [Hal Hr]. unfold kfree. split.
  - rewrite Hal. cbn [negb]. rewrite Z.eqb_refl. destruct (Z.ltb_spec v kend); [lia|].
    assert (V2P v = v - KERNBASE) as ->.
    { apply u32_id. unfold is_u32, KERNBASE, PHYSTOP in *. lia. }
    destruct (Z.leb_spec PHYSTOP (v - KERNBASE)); [lia|]. cbn [orb negb].
    unfold on_bytes at 1. erewrite bind_ret by reflexivity.
    set (s0 := set_mm_bytes _ s). destruct (acquire_kmem_eq s0) as (s1 & E1 & Eb & Ef & Hrel); [done|].
    rewrite (bind_ret _ _ _ _ _ E1), bind_gets. unfold stw. erewrite bind_ret by reflexivity.
    rewrite bind_modify, Eb, Ef, Hrel. done.
  - split; [|by apply NoDup_cons|by apply Forall_cons|done]. cbn [chain freed_page mm_freelist
      set_mm_freelist]. split; [done|]. cbn [mm_bytes set_mm_freelist set_mm_bytes freed_page].
    assert (is_u32 (mm_freelist s)) as Hu.
    { rewrite (chain_head _ _ _ W1). destruct l as [|p l]; cbn; [done|].
      apply Forall_cons in W3 as [Hp _]. by apply page_ok_u32. }
    rewrite load_store_eq by done. eapply chain_ext; [|exact W1]. intros p x Hp Hx.
    symmetry. apply (freed_page_frame s v). intros Hx'. apply Hnot.
    rewrite Forall_forall in W3. rewrite (pages_disjoint v p x); auto.
Qed.

(** ** Owners of pages

    Clients of the allocator obtain pages, write to pages they own and give them
    back; [owned] is the list of pages handed out. *)
Inductive client_step : memory * list Z → memory * list Z → Prop :=
| client_alloc s owned p s' :
    kalloc s = Ret p s' → p ≠ 0 → client_step (s, owned) (s', p :: owned)
| client_exhausted s owned s' :
    kalloc s = Ret 0 s' → client_step (s, owned) (s', owned)
| client_free s owned1 p owned2 s' :
    kfree kend p s = Ret tt s' → client_step (s, owned1 ++ p :: owned2) (s', owned1 ++ owned2)
| client_write s owned p x b :
    p ∈ owned → in_page p x → client_step (s, owned) (set_mm_bytes (store (mm_bytes s) x b) s, owned).

Definition pages_inv (all : list Z) (c : memory * list Z) : Prop :=
  ∃ l, kmem_wf c.1 l ∧ c.2 ++ l ≡ₚ all.

Lemma client_step_inv all c c' :
  Forall page_ok all → NoDup all → client_step c c' → pages_inv all c → pages_inv all c'.
Proof using kend_high.
  intros Hall Hnd Hstep [l [Hw Hp]]. destruct Hstep; cbn in *.
  - destruct (kalloc_spec s l Hw) as [E Hw']. rewrite E in H. simplify_eq.
    destruct l as [|q l]; [done|]. exists l. split; [done|]. cbn. rewrite <-Hp. by rewrite Permutation_middle.
  - destruct (kalloc_spec s l Hw) as [E Hw']. rewrite E in H. simplify_eq. exists (tail l). split; [done|].
    destruct l as [|q l]; [done|]. cbn in H. destruct (page_ok_u32 q) as [_ Hq]; [|done].
    pose proof (km_pages _ _ Hw) as Hq. by apply Forall_cons in Hq as [? _].
  - assert (page_ok p) as Hpok.
    { rewrite Forall_forall in Hall. apply Hall. rewrite <-Hp. set_solver. }
    assert (p ∉ l) as Hnot.
    { rewrite <-Hp, <-app_assoc in Hnd. apply NoDup_app in Hnd as (_ & _ & Hnd).
      cbn in Hnd. apply NoDup_cons in Hnd as [Hnd _]. set_solver. }
    destruct (kfree_spec s l p Hw Hpok Hnot) as [E Hw']. rewrite E in H. simplify_eq.
    exists (p :: l). split; [done|]. cbn. rewrite <-Hp, <-!app_assoc. cbn. by rewrite Permutation_middle.
  - exists l. split; [|done]. destruct Hw as [W1 W2 W3 W4]. split; try done. cbn.
    eapply chain_ext; [|exact W1]. intros q y Hq Hy. rewrite store_spec. case_decide as Hxy; [|done].
    exfalso. subst y. assert (p = q) as ->.
    { rewrite Forall_forall in Hall. apply (pages_disjoint p q x); [apply Hall|apply Hall|done|done];
        rewrite <-Hp; set_solver. }
    rewrite <-Hp in Hnd. apply NoDup_app in Hnd as (_ & Hnd & _). by apply (Hnd q).
Qed.
End allocator.

Section theorems.
Context (kend : Z) (kend_high : KERNBASE <= kend).
Implicit Types (s : memory) (l : list Z).

Lemma mfor_kfree s l ps :
  kmem_wf kend s l → Forall (page_ok kend) ps → NoDup (ps ++ l) →
  returns (mfor ps (kfree kend)) s (λ _ s', kmem_wf kend s' (rev ps ++ l)
    ∧ mm_use_lock s' = mm_use_lock s).
Proof using kend_high.
  intros Hw Hps Hnd.
  apply (returns_mfor _ _ (λ done s', kmem_wf kend s' (rev done ++ l) ∧ mm_use_lock s' = mm_use_lock s)).
  - done.
  - intros dn p rest s1 -> [Hw1 Hu]. apply Forall_app in Hps as [_ [Hp _]%Forall_cons].
    assert (p ∉ rev dn ++ l) as Hnot.
    { rewrite <-app_assoc in Hnd. apply NoDup_app in Hnd as (_ & H1 & H2). cbn in H1, H2.
      apply NoDup_cons in H2 as [H2 _]. rewrite elem_of_app, list_elem_of_In, <-in_rev, <-list_elem_of_In.
      intros [Hd|Hl]; [|set_solver]. apply (H1 p Hd). set_solver. }
    destruct (kfree_spec kend kend_high s1 _ p Hw1 Hp Hnot) as [E Hw2].
    unfold returns. rewrite E. rewrite rev_app_distr. by split.
  - done.
Qed.

(** C5: no page is ever handed out twice.  From any allocator whose free list is
    well-formed, after any sequence of allocations, writes of clients to their own
    pages and frees of pages they own, the free list is well-formed again and the
    pages owned and the pages free are together the pages there were at the start,
    each once: two owners never share a page, no free page is owned, and no page
    is lost. *)
Theorem kalloc_exclusive s0 l0 s owned :
  kmem_wf kend s0 l0 → rtc (client_step kend) (s0, []) (s, owned) →
  ∃ l, kmem_wf kend s l ∧ owned ++ l ≡ₚ l0 ∧ NoDup (owned ++ l).
Proof using kend_high.
  intros Hw Hsteps.
  assert (pages_inv kend l0 (s, owned)) as [l [Hl Hp]].
  { assert (pages_inv kend l0 (s0, [])) as Hinv by (by exists l0).
    revert Hinv. generalize (s0, [] : list Z) (s, owned) Hsteps. clear Hsteps.
    induction 1 as [|c1 c2 c3 H12 _ IH]; [done|]. intros Hinv. apply IH.
    eapply client_step_inv; [done|apply Hw|apply Hw|done|done]. }
  exists l. split_and!; [done|done|]. rewrite Hp. apply Hw.
Qed.

(** The free list after boot.  [kinit1] and then [kinit2], on ranges of whole
    pages between the end of the kernel and PHYSTOP, do not panic: they leave the
    free list with exactly the pages of the two ranges, unlocked and with locking
    switched on. *)
Theorem kinit_frees_all s v1 e1 v2 e2 :
  mm_freelist s = 0 →
  Forall (page_ok kend) (range_pages v1 e1 ++ range_pages v2 e2) →
  NoDup (range_pages v1 e1 ++ range_pages v2 e2) →
  returns (kinit1 kend v1 e1;; kinit2 kend v2 e2) s (λ _ s', ∃ l,
    kmem_wf kend s' l ∧ l ≡ₚ range_pages v1 e1 ++ range_pages v2 e2 ∧ mm_use_lock s' = true).
Proof using kend_high.
  intros H0 Hok Hnd. apply Forall_app in Hok as [Hok1 Hok2].
  unfold kinit1, kinit2, freerange. apply returns_bind. unfold returns at 1. rewrite !bind_modify.
  set (s1 := set_mm_use_lock false (set_mm_locked false s)).
  assert (kmem_wf kend s1 []) as Hw1 by (split; try done; constructor).
  eapply returns_mono.
  { eapply (mfor_kfree s1 []); [done|done|]. rewrite app_nil_r. by apply NoDup_app in Hnd as [? _]. }
  intros _ s2 [Hw2 _]. rewrite app_nil_r in Hw2. rstep (mfor_kfree s2); [exact Hw2|done| |].
  { rewrite <-(Permutation_rev (range_pages v1 e1)), Permutation_app_comm. done. }
  intros _ s3 [Hw3 _]. unfold returns, modify. exists (rev (range_pages v2 e2) ++ rev (range_pages v1 e1)).
  destruct Hw3 as [W1 W2 W3 W4]. split_and!; [by split| |done].
  by rewrite <-!Permutation_rev, Permutation_app_comm.
Qed.
End theorems.

(** ** Witnesses: a machine with two pages *)
Module TwoPages.
Definition first : Z := KERNBASE + EXTMEM.
Definition blank : memory := mkmemory false false 0 (λ _, 0) 0 0 0.
Definition booted : memory := freed_page (freed_page blank first) (first + PGSIZE).

Lemma pages_ok : Forall (page_ok first) [first + PGSIZE; first].
Proof. repeat constructor; by vm_compute. Qed.

Lemma booted_wf : kmem_wf first booted [first + PGSIZE; first].
Proof.
  assert (KERNBASE <= first) as Hk by (vm_compute; discriminate).
  pose proof pages_ok as [H1 [H2 _]%Forall_cons]%Forall_cons.
  assert (kmem_wf first blank []) as H0 by (split; try done; constructor).
  destruct (kfree_spec first Hk blank [] first H0 H2 (not_elem_of_nil _)) as [_ Hw].
  apply (kfree_spec first Hk _ _ (first + PGSIZE) Hw H1). apply not_elem_of_cons.
  split; [by vm_compute|apply not_elem_of_nil].
Qed.
End TwoPages.

Lemma kalloc_exclusive_witness :
  ∃ l, kmem_wf TwoPages.first (set_mm_freelist TwoPages.first TwoPages.booted) l
    ∧ [TwoPages.first + PGSIZE] ++ l ≡ₚ [TwoPages.first + PGSIZE; TwoPages.first]
    ∧ NoDup ([TwoPages.first + PGSIZE] ++ l).
Proof.
  assert (KERNBASE <= TwoPages.first) as Hk by (vm_compute; discriminate).
  apply (kalloc_exclusive TwoPages.first Hk TwoPages.booted); [exact TwoPages.booted_wf|].
  eapply rtc_once, client_alloc; [|by vm_compute].
  apply (kalloc_spec TwoPages.first Hk TwoPages.booted _ TwoPages.booted_wf).
Defined.

Lemma kinit_frees_all_witness :
  returns (kinit1 TwoPages.first TwoPages.first (TwoPages.first + 4096);;
           kinit2 TwoPages.first (TwoPages.first + 4000) (TwoPages.first + 8192)) TwoPages.blank
    (λ _ s', ∃ l, kmem_wf TwoPages.first s' l
       ∧ l ≡ₚ range_pages TwoPages.first (TwoPages.first + 4096)
               ++ range_pages (TwoPages.first + 4000) (TwoPages.first + 8192)
       ∧ mm_use_lock s' = true).
Proof.
  assert (KERNBASE <= TwoPages.first) as Hk by (vm_compute; discriminate).
  apply (kinit_frees_all TwoPages.first Hk); [reflexivity| |].
  - assert (range_pages TwoPages.first (TwoPages.first + 4096)
      ++ range_pages (TwoPages.first + 4000) (TwoPages.first + 8192)
      = [TwoPages.first; TwoPages.first + PGSIZE]) as -> by (by vm_compute).
    pose proof TwoPages.pages_ok as [H1 [H2 _]%Forall_cons]%Forall_cons. by repeat constructor.
  - apply (bool_decide_eq_true_1 _). by vm_compute.
Defined.
