(* ===== verification/Vm.v ===== *)
(** * Page tables and user memory (vm.c)

    Page directories and page tables are pages of kernel memory; entries are
    32-bit words.  [kend] and [kdata] are the addresses [end] and [data] of the
    linker script.  [loaduvm], which also reads a file, is in [Exec]. *)
From S2P Require Import Prelude Params Str Kalloc.

(** mmu.h *)
Definition PTE_P : Z := 1.
Definition PTE_W : Z := 2.
Definition PTE_U : Z := 4.
Definition NPDENTRIES : nat := 1024.
Definition PDX (va : Z) : Z := Z.land (Z.shiftr va 22) 1023.
Definition PTX (va : Z) : Z := Z.land (Z.shiftr va 12) 1023.
Definition PGADDR (d t o : Z) : Z := u32 (Z.lor (Z.lor (Z.shiftl d 22) (Z.shiftl t 12)) o).
Definition PTE_ADDR (pte : Z) : Z := Z.land pte (Z.lnot 4095).
Definition PTE_FLAGS (pte : Z) : Z := Z.land pte 4095.

(** [pte & flag] as a condition. *)
Definition has (pte flag : Z) : bool := negb (Z.land pte flag =? 0).

Section vm.
Context (kend kdata : Z).

(** The address of the entry, 0 for a null result. *)
Definition walkpgdir (pgdir va : Z) (alloc : bool) : M memory Z :=
  let pde := pgdir + 4 * PDX va in
  e ← ldw pde;
  if has e PTE_P then mret (P2V (PTE_ADDR e) + 4 * PTX va) else
  if negb alloc then mret 0 else
  pgtab ← kalloc;
  if pgtab =? 0 then mret 0 else
  on_bytes (λ m, memset m pgtab 0 PGSIZE);;
  stw pde (Z.lor (Z.lor (Z.lor (V2P pgtab) PTE_P) PTE_W) PTE_U);;
  mret (pgtab + 4 * PTX va).

(** The loop of [mappages]; [a] goes up to [last] in steps of a page. *)
Fixpoint mappages_loop (fuel : nat) (pgdir a last pa perm : Z) : M memory Z :=
  match fuel with
  | O => fault
  | S fuel' =>
      pte ← walkpgdir pgdir a true;
      if pte =? 0 then mret (-1) else
      e ← ldw pte;
      if has e PTE_P then panic "remap" else
      stw pte (Z.lor (Z.lor pa perm) PTE_P);;
      if a =? last then mret 0 else
      mappages_loop fuel' pgdir (u32 (a + PGSIZE)) last (u32 (pa + PGSIZE)) perm
  end.

Definition mappages (pgdir va size pa perm : Z) : M memory Z :=
  let a := PGROUNDDOWN va in
  let last := PGROUNDDOWN (u32 (va + size - 1)) in
  mappages_loop (S (Z.to_nat (u32 (last - a) / PGSIZE))) pgdir a last pa perm.

(** [struct kmap]: virt, phys_start, phys_end, perm; and the table. *)
Record kmap_entry := mkkmap { k_virt : Z; k_phys_start : Z; k_phys_end : Z; k_perm : Z }.

Definition kmap : list kmap_entry :=
  [ mkkmap KERNBASE 0 EXTMEM PTE_W;
    mkkmap KERNLINK (V2P KERNLINK) (V2P kdata) 0;
    mkkmap kdata (V2P kdata) PHYSTOP PTE_W;
    mkkmap DEVSPACE DEVSPACE 0 PTE_W ].

(** The loop of [deallocuvm].  [a] grows by at least a page a turn. *)
Fixpoint deallocuvm_loop (fuel : nat) (pgdir a oldsz : Z) : M memory unit :=
  if a <? oldsz then
    match fuel with
    | O => fault
    | S fuel' =>
        pte ← walkpgdir pgdir a false;
        a' ← (if pte =? 0 then mret (u32 (PGADDR (PDX a + 1) 0 0 - PGSIZE)) else
              e ← ldw pte;
              if has e PTE_P then
                let pa := PTE_ADDR e in
                if pa =? 0 then panic "kfree" else
                kfree kend (P2V pa);;
                stw pte 0;;
                mret a
              else mret a);
        deallocuvm_loop fuel' pgdir (u32 (a' + PGSIZE)) oldsz
    end
  else mret tt.

Definition deallocuvm (pgdir oldsz newsz : Z) : M memory Z :=
  if oldsz <=? newsz then mret oldsz else
  let a := PGROUNDUP newsz in
  deallocuvm_loop (Z.to_nat ((oldsz - a) / PGSIZE + 1)) pgdir a oldsz;;
  mret newsz.

Definition freevm (pgdir : Z) : M memory unit :=
  if pgdir =? 0 then panic "freevm: no pgdir" else
  deallocuvm pgdir KERNBASE 0;;
  mfor (seq 0 NPDENTRIES) (λ i,
    e ← ldw (pgdir + 4 * Z.of_nat i);
    if has e PTE_P then kfree kend (P2V (PTE_ADDR e)) else mret tt);;
  kfree kend pgdir.

(** The loop of [setupkvm] over the table; the result is whether it went through. *)
Fixpoint setupkvm_loop (pgdir : Z) (ks : list kmap_entry) : M memory bool :=
  match ks with
  | [] => mret true
  | k :: ks' =>
      r ← mappages pgdir (k_virt k) (u32 (k_phys_end k - k_phys_start k)) (k_phys_start k) (k_perm k);
      if r <? 0 then mret false else setupkvm_loop pgdir ks'
  end.

Definition setupkvm : M memory Z :=
  pgdir ← kalloc;
  if pgdir =? 0 then mret 0 else
  on_bytes (λ m, memset m pgdir 0 PGSIZE);;
  if DEVSPACE <? P2V PHYSTOP then panic "PHYSTOP too high" else
  ok ← setupkvm_loop pgdir kmap;
  if (ok : bool) then mret pgdir else
  freevm pgdir;;
  mret 0.

Definition switchkvm : M memory unit :=
  kpgdir ← gets mm_kpgdir;
  modify (set_mm_cr3 (V2P kpgdir)).

Definition kvmalloc : M memory unit :=
  pgdir ← setupkvm;
  modify (set_mm_kpgdir pgdir);;
  switchkvm.

(** [switchuvm(p)], with the fields of [p] it reads; [None] is a null [p].  Of the
    task state segment only [esp0] is represented: the rest of it, and the descriptor
    that points to it, are set to the same values at every call. *)
Definition switchuvm (p : option (Z * Z)) : M memory unit :=
  match p with
  | None => panic "switchuvm: no process"
  | Some (kstack, pgdir) =>
      if kstack =? 0 then panic "switchuvm: no kstack" else
      if pgdir =? 0 then panic "switchuvm: no pgdir" else
      modify (set_mm_esp0 (u32 (kstack + KSTACKSIZE)));;
      modify (set_mm_cr3 (V2P pgdir))
  end.

(** A copy of [bytes] to the address [a]. *)
Fixpoint store_bytes (m : mem) (a : Z) (bytes : list Z) : mem :=
  match bytes with
  | [] => m
  | b :: bytes' => store_bytes (store m a b) (a + 1) bytes'
  end.

(** [init] is the content of the array of [sz] bytes. *)
Definition inituvm (pgdir : Z) (init : list Z) : M memory unit :=
  if PGSIZE <=? Z.of_nat (length init) then panic "inituvm: more than a page" else
  mem ← kalloc;
  if mem =? 0 then fault else
  on_bytes (λ m, memset m mem 0 PGSIZE);;
  mappages pgdir 0 PGSIZE (V2P mem) (Z.lor PTE_W PTE_U);;
  on_bytes (λ m, store_bytes m mem init).

(** The loop of [allocuvm]: a page at [a], [a + PGSIZE], ... below [newsz]. *)
Fixpoint allocuvm_loop (fuel : nat) (pgdir a oldsz newsz : Z) : M memory Z :=
  if a <? newsz then
    match fuel with
    | O => fault
    | S fuel' =>
        mem ← kalloc;
        if mem =? 0 then
          deallocuvm pgdir newsz oldsz;;
          mret 0
        else
        on_bytes (λ m, memset m mem 0 PGSIZE);;
        r ← mappages pgdir a PGSIZE (V2P mem) (Z.lor PTE_W PTE_U);
        if r <? 0 then
          deallocuvm pgdir newsz oldsz;;
          kfree kend mem;;
          mret 0
        else
        allocuvm_loop fuel' pgdir (u32 (a + PGSIZE)) oldsz newsz
    end
  else mret newsz.

Definition allocuvm (pgdir oldsz newsz : Z) : M memory Z :=
  if KERNBASE <=? newsz then mret 0 else
  if newsz <? oldsz then mret oldsz else
  let a := PGROUNDUP oldsz in
  allocuvm_loop (Z.to_nat ((newsz - a) / PGSIZE + 1)) pgdir a oldsz newsz.

Definition clearpteu (pgdir uva : Z) : M memory unit :=
  pte ← walkpgdir pgdir uva false;
  if pte =? 0 then panic "clearpteu" else
  e ← ldw pte;
  stw pte (Z.land e (Z.lnot PTE_U)).

(** The loop of [copyuvm]; [false] is the jump to [bad]. *)
Fixpoint copyuvm_loop (fuel : nat) (pgdir d i sz : Z) : M memory bool :=
  if i <? sz then
    match fuel with
    | O => fault
    | S fuel' =>
        pte ← walkpgdir pgdir i false;
        if pte =? 0 then panic "copyuvm: pte should exist" else
        e ← ldw pte;
        if negb (has e PTE_P) then panic "copyuvm: page not present" else
        let pa := PTE_ADDR e in
        let flags := PTE_FLAGS e in
        mem ← kalloc;
        if mem =? 0 then mret false else
        on_bytes (λ m, memmove m mem (P2V pa) PGSIZE);;
        r ← mappages d i PGSIZE (V2P mem) flags;
        if r <? 0 then kfree kend mem;; mret false else
        copyuvm_loop fuel' pgdir d (u32 (i + PGSIZE)) sz
    end
  else mret true.

Definition copyuvm (pgdir sz : Z) : M memory Z :=
  d ← setupkvm;
  if d =? 0 then mret 0 else
  ok ← copyuvm_loop (Z.to_nat (sz / PGSIZE + 1)) pgdir d 0 sz;
  if (ok : bool) then mret d else
  freevm d;;
  mret 0.

(** A null result of [walkpgdir] is dereferenced. *)
Definition uva2ka (pgdir uva : Z) : M memory Z :=
  pte ← walkpgdir pgdir uva false;
  if pte =? 0 then fault else
  e ← ldw pte;
  if negb (has e PTE_P) then mret 0 else
  if negb (has e PTE_U) then mret 0 else
  mret (P2V (PTE_ADDR e)).

(** [buf] is the content of the [len] bytes at [p].  A turn copies at least a byte. *)
Fixpoint copyout_loop (fuel : nat) (pgdir va : Z) (buf : list Z) : M memory Z :=
  match buf with
  | [] => mret 0
  | _ =>
      match fuel with
      | O => fault
      | S fuel' =>
          let va0 := PGROUNDDOWN va in
          pa0 ← uva2ka pgdir va0;
          if pa0 =? 0 then mret (-1) else
          let n := Z.min (PGSIZE - (va - va0)) (Z.of_nat (length buf)) in
          on_bytes (λ m, store_bytes m (pa0 + (va - va0)) (take (Z.to_nat n) buf));;
          copyout_loop fuel' pgdir (u32 (va0 + PGSIZE)) (drop (Z.to_nat n) buf)
      end
  end.

Definition copyout (pgdir va : Z) (buf : list Z) : M memory Z :=
  copyout_loop (length buf) pgdir va buf.
End vm.
