(* ===== verification/VmInv.v ===== *)
(** * Page tables: well-formedness, translation, and the walk *)
From S2P Require Import Prelude Params Str Kalloc KallocInv Vm.

(** ** Entries *)
Lemma has_present e : has e PTE_P = Z.odd e.
Proof.
  unfold has, PTE_P. change 1 with (Z.ones 1). rewrite Z.land_ones by lia. change (2 ^ 1) with 2.
  rewrite Zodd_mod. pose proof (Z.mod_pos_bound e 2 ltac:(lia)).
  destruct (Z.eqb_spec (e mod 2) 0), (Z.eqb_spec (e mod 2) 1); cbn; done || lia.
Qed.

Lemma PTE_ADDR_eq e : PTE_ADDR e = e / PGSIZE * PGSIZE.
Proof. apply (land_page_mask e). Qed.

Lemma PTE_FLAGS_eq e : PTE_FLAGS e = e mod PGSIZE.
Proof. unfold PTE_FLAGS. change 4095 with (Z.ones 12). by rewrite Z.land_ones by lia. Qed.

(** The flags fit into the low bits of an aligned address. *)
Lemma land_flags pa f : pa mod PGSIZE = 0 → 0 <= f < PGSIZE → Z.land pa f = 0.
Proof.
  intros Hpa Hf. apply Z.bits_inj'. intros i Hi. rewrite Z.land_spec, Z.bits_0.
    destruct (Z.lt_ge_cases i 12).
    - assert (Z.testbit pa i = false) as ->; [|done].
      rewrite <-(Z.mod_pow2_bits_low pa 12) by lia. change (2 ^ 12) with PGSIZE.
      rewrite Hpa. apply Z.bits_0.
    - assert (Z.testbit f i = false) as ->; [|apply andb_false_r].
      rewrite <-(Z.mod_small f (2 ^ 12)) by done. apply Z.mod_pow2_bits_high. lia.
Qed.

Lemma lor_flags pa f : pa mod PGSIZE = 0 → 0 <= f < PGSIZE → Z.lor pa f = pa + f.
Proof.
  intros Hpa Hf. pose proof (land_flags pa f Hpa Hf).
  rewrite <-Z.lxor_lor by done. symmetry. by apply Z.add_nocarry_lxor.
Qed.

Lemma has_flags pa f g :
  pa mod PGSIZE = 0 → 0 <= f < PGSIZE → 0 <= g < PGSIZE → has (pa + f) g = has f g.
Proof.
  intros Hpa Hf Hg. unfold has. by rewrite <-lor_flags, Z.land_lor_distr_l, land_flags by done.
Qed.

Lemma lor_flag_bound a b : 0 <= a < PGSIZE → 0 <= b < PGSIZE → 0 <= Z.lor a b < PGSIZE.
Proof. apply (lor_below 12). lia. Qed.

Lemma PDX_eq va : PDX va = (va / 2 ^ 22) mod 1024.
Proof.
  unfold PDX. change 1023 with (Z.ones 10). rewrite Z.land_ones by lia.
  by rewrite Z.shiftr_div_pow2 by lia.
Qed.

Lemma PTX_eq va : PTX va = (va / PGSIZE) mod 1024.
Proof.
  unfold PTX. change 1023 with (Z.ones 10). rewrite Z.land_ones by lia.
  by rewrite Z.shiftr_div_pow2 by lia.
Qed.

Lemma PDX_bound va : 0 <= PDX va < 1024.
Proof. rewrite PDX_eq. by apply Z.mod_pos_bound. Qed.

Lemma PTX_bound va : 0 <= PTX va < 1024.
Proof. rewrite PTX_eq. by apply Z.mod_pos_bound. Qed.

(** The two indices determine the page of an address. *)
Lemma index_inj va va' : is_u32 va → is_u32 va' →
  PDX va = PDX va' → PTX va = PTX va' → va / PGSIZE = va' / PGSIZE.
Proof. rewrite !PDX_eq, !PTX_eq. unfold is_u32, PGSIZE. intros. divlia. Qed.

Lemma index_page va va' : va / PGSIZE = va' / PGSIZE → PDX va = PDX va' ∧ PTX va = PTX va'.
Proof.
  intros H. rewrite !PDX_eq, !PTX_eq. split; [|by rewrite H].
  change (2 ^ 22) with (PGSIZE * 1024). by rewrite <-!Z.div_div, H by done.
Qed.

#[global] Opaque PDX PTX PTE_ADDR PTE_FLAGS.

(** ** Page tables in memory *)
Section tables.
Implicit Types (m : mem) (pgdir va : Z).

(** The page table for directory index [i], if there is one. *)
Definition table m pgdir (i : Z) : option Z :=
  let e := load_word m (pgdir + 4 * i) in
  if Z.odd e then Some (P2V (PTE_ADDR e)) else None.

(** The entry for [va]; 0, which is not present, if there is no page table. *)
Definition pte_at m pgdir va : Z :=
  match table m pgdir (PDX va) with
  | Some t => load_word m (t + 4 * PTX va)
  | None => 0
  end.

Definition mapped_page m pgdir va : bool := Z.odd (pte_at m pgdir va).

Lemma pte_at_page m pgdir va va' : va / PGSIZE = va' / PGSIZE → pte_at m pgdir va = pte_at m pgdir va'.
Proof. intros H. unfold pte_at. by destruct (index_page va va' H) as [-> ->]. Qed.
End tables.

Section wf.
Context (kend : Z) (kend_high : KERNBASE <= kend).
Implicit Types (s : memory) (m : mem) (pgdir va : Z) (l : list Z).

Record pt_wf m pgdir l : Prop := {
  pt_dir : page_ok kend pgdir;
  pt_dir_used : pgdir ∉ l;
  pt_tab : ∀ i t, 0 <= i < 1024 → table m pgdir i = Some t →
    page_ok kend t ∧ (t ∉ l) ∧ t ≠ pgdir;
  pt_inj : ∀ i j t, 0 <= i < 1024 → 0 <= j < 1024 →
    table m pgdir i = Some t → table m pgdir j = Some t → i = j;
}.

Lemma entry_in_page p i x : 0 <= i < 1024 → p + 4 * i <= x < p + 4 * i + 4 → in_page p x.
Proof. unfold in_page, PGSIZE. lia. Qed.

Lemma table_ext m m' pgdir i : 0 <= i < 1024 → (∀ x, in_page pgdir x → m' x = m x) →
  table m' pgdir i = table m pgdir i.
Proof.
  intros Hi H. unfold table. rewrite (load_word_ext m' m); [done|].
  intros x Hx. by eapply H, entry_in_page.
Qed.

(** A change of memory away from a page directory and its tables. *)
Lemma pte_at_ext m m' pgdir va :
  (∀ x, in_page pgdir x → m' x = m x) →
  (∀ i t x, 0 <= i < 1024 → table m pgdir i = Some t → in_page t x → m' x = m x) →
  pte_at m' pgdir va = pte_at m pgdir va.
Proof.
  intros Hd Ht. unfold pte_at. rewrite (table_ext m m') by (apply PDX_bound || done).
  destruct (table m pgdir (PDX va)) as [t|] eqn:E; [|done]. apply load_word_ext.
  intros x Hx. eapply Ht; [apply PDX_bound|done|]. by eapply entry_in_page; [apply PTX_bound|].
Qed.

Lemma pt_wf_ext m m' pgdir l l' :
  pt_wf m pgdir l → (∀ x, in_page pgdir x → m' x = m x) → (∀ p, p ∈ l' → p ∈ l) → pt_wf m' pgdir l'.
Proof.
  intros [P1 P2 P3 P4] Hd Hl.
  assert (∀ i, 0 <= i < 1024 → table m' pgdir i = table m pgdir i) as He
    by (intros; by apply table_ext).
  split; [done|by intros ?%Hl|..].
  - intros i t Hi. rewrite He by done. intros Ht. destruct (P3 i t Hi Ht) as (?&?&?). naive_solver.
  - intros i j t Hi Hj. rewrite !He by done. by apply P4.
Qed.

(** ** The walk *)

(** A new table [t], zeroed, put at directory index [d]. *)
Definition add_table m pgdir d t : mem :=
  store_word (memset m t 0 PGSIZE) (pgdir + 4 * d) (V2P t + 7).

Lemma V2P_page t : page_ok kend t → V2P t = t - KERNBASE.
Proof using kend_high. intros [_ Ht]. apply u32_id. unfold is_u32, KERNBASE, PHYSTOP in *. lia. Qed.

Lemma new_entry t : page_ok kend t →
  Z.lor (Z.lor (Z.lor (V2P t) PTE_P) PTE_W) PTE_U = V2P t + 7 ∧ is_u32 (V2P t + 7)
  ∧ Z.odd (V2P t + 7) = true ∧ P2V (PTE_ADDR (V2P t + 7)) = t.
Proof using kend_high.
  intros Ht. rewrite (V2P_page t Ht). destruct Ht as [Hal Hr].
  assert ((t - KERNBASE) mod PGSIZE = 0) as Hal' by (unfold KERNBASE, PGSIZE in *; divlia).
  split_and!.
  - rewrite <-!Z.lor_assoc. change (Z.lor PTE_P (Z.lor PTE_W PTE_U)) with 7. by apply lor_flags.
  - unfold is_u32, KERNBASE, PHYSTOP in *. lia.
  - rewrite Z.odd_add. assert (Z.odd (t - KERNBASE) = false) as ->; [|done].
    rewrite Zodd_mod. destruct (Z.eqb_spec ((t - KERNBASE) mod 2) 1) as [He|]; [|done].
    unfold PGSIZE in Hal'. exfalso. divlia.
  - rewrite PTE_ADDR_eq. assert ((t - KERNBASE + 7) / PGSIZE * PGSIZE = t - KERNBASE) as ->
      by (unfold PGSIZE in *; divlia).
    unfold P2V. rewrite u32_id; [lia|]. unfold is_u32, KERNBASE, PHYSTOP in *. lia.
Qed.

Section added.
Context (m : mem) (pgdir d t : Z) (l : list Z).
Context (Hwf : pt_wf m pgdir (t :: l)) (Ht : page_ok kend t) (Htl : t ∉ l).
Context (Hd : 0 <= d < 1024) (Hnone : table m pgdir d = None).
Let m' := add_table m pgdir d t.

Lemma added_dir x : in_page pgdir x → x < pgdir + 4 * d ∨ pgdir + 4 * d + 4 <= x → m' x = m x.
Proof using Hwf Ht.
  intros Hx Hx'. unfold m', add_table. rewrite store_word_other by done.
  rewrite memset_eq by done. rewrite decide_False; [done|]. intros Hin.
  destruct Hwf as [P1 P2 _ _]. apply P2. rewrite (pages_disjoint kend pgdir t x); [by left|done..].
Qed.

Lemma added_other x : ¬ in_page pgdir x → ¬ in_page t x → m' x = m x.
Proof using Hd.
  intros H1 H2. unfold m', add_table, in_page, PGSIZE in *. rewrite store_word_other by lia.
  rewrite memset_eq by lia. by rewrite decide_False by lia.
Qed.

Lemma added_table i : 0 <= i < 1024 → table m' pgdir i = if decide (i = d) then Some t else table m pgdir i.
Proof using Hwf Ht kend_high Hd.
  intros Hi. unfold table. case_decide as He.
  - subst i. destruct (new_entry t Ht) as (_ & Hu & Ho & Ha). unfold m', add_table.
    rewrite load_store_eq by done. by rewrite Ho, Ha.
  - rewrite (load_word_ext m' m); [done|]. intros x Hx. apply added_dir; [by eapply entry_in_page|lia].
Qed.

Lemma added_wf : pt_wf m' pgdir l.
Proof using Hwf Ht Htl kend_high Hd Hnone.
  destruct Hwf as [P1 P2 P3 P4]. apply not_elem_of_cons in P2 as [P2 P2'].
  assert (∀ i t', 0 <= i < 1024 → table m pgdir i = Some t' → t' ≠ t) as Hne.
  { intros i t' Hi Hs. destruct (P3 i t' Hi Hs) as (_ & Hn & _). set_solver. }
  split; [done|done|..].
  - intros i t' Hi. rewrite added_table by done. case_decide as He.
    + intros [= <-]. split_and!; [done|done|congruence].
    + intros Hs. destruct (P3 i t' Hi Hs) as (?&?&?). set_solver.
  - intros i j t' Hi Hj. rewrite !added_table by done. repeat case_decide; subst; try done.
    + intros [= <-] Hs. by destruct (Hne j t).
    + intros Hs [= <-]. by destruct (Hne i t).
    + by apply P4.
Qed.

Lemma load_zero (z : mem) a : (∀ x, a <= x < a + 4 → z x = 0) → load_word z a = 0.
Proof using Type. intros H. unfold load_word. by rewrite !H by lia. Qed.

Lemma added_pte va : pte_at m' pgdir va = pte_at m pgdir va.
Proof using Hwf Ht kend_high Hd Hnone.
  unfold pte_at. rewrite added_table by apply PDX_bound. pose proof Hwf as [P1 P2 P3 P4].
  apply not_elem_of_cons in P2 as [P2 P2']. case_decide as He.
  - rewrite He, Hnone. apply load_zero. intros x Hx.
    assert (in_page t x) as Hin by (eapply entry_in_page; [apply PTX_bound|done]).
    assert (x < pgdir + 4 * d ∨ pgdir + 4 * d + 4 <= x) as Hx'.
    { destruct (decide (pgdir + 4 * d <= x < pgdir + 4 * d + 4)); [|lia].
      exfalso. apply P2, (pages_disjoint kend pgdir t x P1 Ht); [by eapply entry_in_page|done]. }
    unfold m', add_table. rewrite store_word_other, memset_eq by done.
    by rewrite decide_True by done.
  - destruct (table m pgdir (PDX va)) as [t'|] eqn:E; [|done]. apply load_word_ext.
    destruct (P3 _ _ (PDX_bound va) E) as (Ht' & Hn & Hne). intros x Hx.
    assert (in_page t' x) as Hin by (eapply entry_in_page; [apply PTX_bound|done]).
    apply added_other; intros Hc.
    + by apply Hne, (pages_disjoint kend t' pgdir x).
    + apply Hn. rewrite (pages_disjoint kend t' t x); [by left|done..].
Qed.
End added.

(** A step of vm.c on the page table [pgdir], from the free pages [l] to [l']: page
    tables may be added, and outside the directory and its tables nothing changes. *)
Record pt_step s l pgdir s' l' : Prop := {
  ps_kmem : kmem_wf kend s' l';
  ps_wf : pt_wf (mm_bytes s') pgdir l';
  ps_taken : ∃ used, l = used ++ l';
  ps_new : ∀ used i t, l = used ++ l' → 0 <= i < 1024 → table (mm_bytes s') pgdir i = Some t →
    table (mm_bytes s) pgdir i = None → t ∈ used;
  ps_grow : ∀ i t, 0 <= i < 1024 → table (mm_bytes s) pgdir i = Some t →
    table (mm_bytes s') pgdir i = Some t;
  ps_frame : ∀ x, ¬ in_page pgdir x →
    (∀ i t, 0 <= i < 1024 → table (mm_bytes s') pgdir i = Some t → ¬ in_page t x) →
    mm_bytes s' x = mm_bytes s x;
  ps_used : ∀ p, p ∈ l → p ∈ l' ∨ ∃ i, 0 <= i < 1024 ∧ table (mm_bytes s') pgdir i = Some p;
}.

Lemma pt_step_trans pgdir s1 l1 s2 l2 s3 l3 :
  pt_step s1 l1 pgdir s2 l2 → pt_step s2 l2 pgdir s3 l3 → pt_step s1 l1 pgdir s3 l3.
Proof.
  intros [A1 A2 [u A3] AN A4 A5 A6] [B1 B2 [w B3] BN B4 B5 B6]. split; [done|done|..].
  - exists (u ++ w). by rewrite <-app_assoc, <-B3.
  - intros used i t Hu Hi Ht Hn. assert (used = u ++ w) as ->.
    { apply (app_inv_tail l3). by rewrite <-Hu, <-app_assoc, <-B3. }
    destruct (table (mm_bytes s2) pgdir i) as [t'|] eqn:E.
    + rewrite (B4 i t' Hi E) in Ht. simplify_eq. apply elem_of_app. left. by eapply AN.
    + apply elem_of_app. right. by eapply BN.
  - eauto.
  - intros x Hx Ht. rewrite B5, A5; [done|done| |done|done]. intros i t Hi Hs. eapply Ht; eauto.
  - intros p [Hp|(i & Hi & Ht)]%A6; [by apply B6|]. right. exists i. auto.
Qed.

Lemma kmem_wf_store s l pgdir m' :
  kmem_wf kend s l → (∀ p x, p ∈ l → in_page p x → m' x = mm_bytes s x) →
  kmem_wf kend (set_mm_bytes m' s) l.
Proof.
  intros [W1 W2 W3 W4] H. split; try done. cbn. eapply chain_ext; [|exact W1].
  intros p x Hp Hx. symmetry. eauto.
Qed.

Lemma ldw_eq a s : ldw a s = Ret (load_word (mm_bytes s) a) s.
Proof. done. Qed.

(** [walkpgdir] without allocation only reads. *)
Lemma walk_read s pgdir va :
  walkpgdir pgdir va false s
  = Ret (match table (mm_bytes s) pgdir (PDX va) with Some t => t + 4 * PTX va | None => 0 end) s.
Proof.
  unfold walkpgdir, table. rewrite (bind_ret _ _ _ _ _ (ldw_eq _ _)), has_present.
  by destruct (Z.odd _).
Qed.

Lemma walk_alloc s l pgdir va :
  kmem_wf kend s l → pt_wf (mm_bytes s) pgdir l →
  ∃ r s' l', walkpgdir pgdir va true s = Ret r s' ∧ pt_step s l pgdir s' l'
    ∧ (∀ va', pte_at (mm_bytes s') pgdir va' = pte_at (mm_bytes s) pgdir va')
    ∧ ((r = 0 ∧ l' = []) ∨ (r ≠ 0 ∧ ∃ t, table (mm_bytes s') pgdir (PDX va) = Some t
         ∧ r = t + 4 * PTX va)).
Proof using kend_high.
  intros Hk Hw. unfold walkpgdir. rewrite (bind_ret _ _ _ _ _ (ldw_eq _ _)), has_present.
  destruct (table (mm_bytes s) pgdir (PDX va)) as [t|] eqn:E.
  - pose proof E as E'. unfold table in E'. destruct (Z.odd _); [|done]. injection E' as E'. rewrite E'.
    exists (t + 4 * PTX va), s, l. split_and!; [done| |done|].
    + split; try done; [by exists []|intros; cbn in *; congruence|by left].
    + right. destruct (pt_tab _ _ _ Hw _ _ (PDX_bound va) E) as (Ht & _).
      destruct (page_ok_u32 kend kend_high t Ht) as [Hu _]. pose proof (PTX_bound va).
      destruct Ht as [_ Hr]. split; [unfold KERNBASE in *; lia|]. eauto.
  - pose proof E as E'. unfold table in E'. destruct (Z.odd _); [done|]. cbn [negb].
    destruct (kalloc_spec kend kend_high s l Hk) as [Ea Hk1].
    rewrite (bind_ret _ _ _ _ _ Ea). destruct l as [|t l]; cbn [head tail default from_option id].
    + rewrite Z.eqb_refl. cbn in Hk1. eexists 0, _, []. split_and!; [done| |done|by left].
      split; try done; [by exists []|intros; cbn in *; congruence|by left].
    + pose proof (km_pages _ _ _ Hk) as Hp. apply Forall_cons in Hp as [Hp _].
      pose proof (km_nodup _ _ _ Hk) as Hnd. apply NoDup_cons in Hnd as [Hnd _].
      destruct (page_ok_u32 kend kend_high t Hp) as [_ Ht0]. destruct (Z.eqb_spec t 0); [done|].
      destruct (new_entry t Hp) as (-> & _). cbn in Hk1.
      unfold on_bytes, stw. erewrite bind_ret by reflexivity. erewrite bind_ret by reflexivity.
      pose proof (pt_dir _ _ _ Hw) as Hdir. pose proof (pt_dir_used _ _ _ Hw) as Hdu.
      set (m' := add_table (mm_bytes s) pgdir (PDX va) t).
      set (s1 := set_mm_freelist (default 0 (head l)) s) in *.
      pose proof (PDX_bound va) as Hd. pose proof (PTX_bound va).
      assert (∀ i, 0 <= i < 1024 → table m' pgdir i
        = if decide (i = PDX va) then Some t else table (mm_bytes s) pgdir i) as Htab
        by (intros; by apply (added_table _ _ _ _ l)).
      exists (t + 4 * PTX va), (set_mm_bytes m' s1), l. split_and!; [done| | |].
      * split.
        -- apply (kmem_wf_store s1 l pgdir); [done|]. intros p x Hpl Hx. cbn.
           assert (page_ok kend p) as Hpp.
           { pose proof (km_pages _ _ _ Hk) as Hall. rewrite Forall_forall in Hall. apply Hall. by right. }
           apply added_other; [done|..]; intros Hc.
           ++ apply Hdu. rewrite (pages_disjoint kend pgdir p x); [by right|done..].
           ++ apply Hnd. by rewrite (pages_disjoint kend t p x).
        -- by apply added_wf.
        -- by exists [t].
        -- intros used i t' Hl Hi Hs Hn. cbn in Hs. rewrite Htab in Hs by done.
           assert (used = [t]) as -> by (by apply (app_inv_tail l)).
           case_decide; [|congruence]. simplify_eq. by left.
        -- intros i t' Hi Hs. cbn. rewrite Htab by done. case_decide; [congruence|done].
        -- intros x Hx Ht. cbn. apply added_other; [done|done|]. eapply (Ht (PDX va)); [done|]. cbn.
           rewrite Htab by done. by rewrite decide_True.
        -- intros p [->|Hpl]%elem_of_cons; [right|by left]. exists (PDX va). split; [done|]. cbn.
           rewrite Htab by done. by rewrite decide_True.
      * intros va'. by apply (added_pte _ _ _ _ l).
      * right. destruct Hp as [_ Hr]. split; [unfold KERNBASE in *; lia|]. exists t. split; [|done].
        cbn. rewrite Htab by done. by rewrite decide_True.
Qed.

(** Storing an entry. *)
Lemma set_entry s l pgdir va t w :
  kmem_wf kend s l → pt_wf (mm_bytes s) pgdir l → is_u32 va → is_u32 w →
  table (mm_bytes s) pgdir (PDX va) = Some t →
  let s' := set_mm_bytes (store_word (mm_bytes s) (t + 4 * PTX va) w) s in
  pt_step s l pgdir s' l
  ∧ ∀ va', is_u32 va' → pte_at (mm_bytes s') pgdir va'
      = if decide (va' / PGSIZE = va / PGSIZE) then w else pte_at (mm_bytes s) pgdir va'.
Proof using kend_high.
  intros Hk Hw Hva Hw32 Ht s'. pose proof (PDX_bound va) as Hd. pose proof (PTX_bound va) as Hx.
  destruct (pt_tab _ _ _ Hw _ _ Hd Ht) as (Hpt & Htl & Htd).
  assert (∀ x, ¬ in_page t x → mm_bytes s' x = mm_bytes s x) as Hout.
  { intros x Hnx. cbn. apply store_word_other. unfold in_page, PGSIZE in Hnx. lia. }
  assert (∀ x, in_page pgdir x → mm_bytes s' x = mm_bytes s x) as Hdir.
  { intros x Hin. apply Hout. intros Hc. by apply Htd, (pages_disjoint kend t pgdir x); [|apply Hw| |]. }
  assert (∀ i, 0 <= i < 1024 → table (mm_bytes s') pgdir i = table (mm_bytes s) pgdir i) as Htab
    by (intros; by apply table_ext).
  split.
  - split.
    + apply (kmem_wf_store s l pgdir); [done|]. intros p x Hp Hin. apply Hout. intros Hc. apply Htl.
      pose proof (km_pages _ _ _ Hk) as Hall. rewrite Forall_forall in Hall.
      by rewrite (pages_disjoint kend t p x) by auto.
    + by eapply pt_wf_ext.
    + by exists [].
    + intros used i t' _ Hi. rewrite Htab by done. congruence.
    + intros i t' Hi. by rewrite Htab.
    + intros x _ Hn. apply Hout. eapply Hn; [exact Hd|]. by rewrite Htab.
    + by left.
  - intros va' Hva'. unfold pte_at. rewrite Htab by apply PDX_bound. case_decide as He.
    + destruct (index_page va' va He) as [-> ->]. rewrite Ht. cbn. by apply load_store_eq.
    + destruct (table (mm_bytes s) pgdir (PDX va')) as [t'|] eqn:E; [|done].
      destruct (decide (PDX va' = PDX va)) as [Hi|Hi].
      * assert (t' = t) as -> by (rewrite Hi in E; congruence). apply load_store_ne.
        assert (PTX va' ≠ PTX va) by (intros ?; apply He; by apply index_inj). lia.
      * apply load_word_ext. intros x Hin. apply Hout. intros Hc.
        destruct (pt_tab _ _ _ Hw _ _ (PDX_bound va') E) as (Hpt' & _ & _).
        assert (t' = t) as ->.
        { apply (pages_disjoint kend t' t x); try done. eapply entry_in_page; [apply PTX_bound|done]. }
        by apply Hi, (pt_inj _ _ _ Hw _ _ t); [apply PDX_bound|..].
Qed.

(** ** mappages *)
Lemma mappages_loop_spec fuel s l pgdir a last pa perm n :
  kmem_wf kend s l → pt_wf (mm_bytes s) pgdir l → (n < fuel)%nat →
  a mod PGSIZE = 0 → 0 <= a → last = a + Z.of_nat n * PGSIZE → last + PGSIZE <= 2 ^ 32 →
  pa mod PGSIZE = 0 → 0 <= pa → pa + Z.of_nat n * PGSIZE + PGSIZE <= 2 ^ 32 → 0 <= perm < PGSIZE →
  (∀ k : nat, (k ≤ n)%nat → mapped_page (mm_bytes s) pgdir (a + Z.of_nat k * PGSIZE) = false) →
  ∃ r s' l' (j : nat), mappages_loop fuel pgdir a last pa perm s = Ret r s' ∧ pt_step s l pgdir s' l'
    ∧ ((r = 0 ∧ j = S n) ∨ (r = -1 ∧ (j ≤ n)%nat ∧ l' = []))
    ∧ ∀ va, is_u32 va → pte_at (mm_bytes s') pgdir va
        = let k := va / PGSIZE - a / PGSIZE in
          if decide (0 <= k < Z.of_nat j) then pa + k * PGSIZE + Z.lor perm PTE_P
          else pte_at (mm_bytes s) pgdir va.
Proof using kend_high.
  revert s l a pa n. induction fuel as [|fuel IH]; intros s l a pa n Hk Hw Hf Ha Ha0 Hl Hl32 Hpa Hpa0 Hp32 Hperm Hno;
    [lia|]. cbn [mappages_loop].
  destruct (walk_alloc s l pgdir a Hk Hw) as (r & s1 & l1 & E1 & P1 & V1 & Hr).
  rewrite (bind_ret _ _ _ _ _ E1). destruct Hr as [[-> ->]|(Hr0 & t & Ht & ->)].
  { cbn [Z.eqb]. exists (-1), s1, [], 0%nat. split_and!; [done|done|right; split_and!; [done|lia|done]|].
    intros va _. rewrite V1. cbv zeta. by rewrite decide_False by lia. }
  destruct (Z.eqb_spec (t + 4 * PTX a) 0); [done|].
  rewrite (bind_ret _ _ _ _ _ (ldw_eq _ _)), has_present.
  assert (Z.odd (load_word (mm_bytes s1) (t + 4 * PTX a)) = false) as ->.
  { specialize (Hno 0%nat ltac:(lia)). unfold mapped_page in Hno. rewrite Z.mul_0_l, Z.add_0_r, <-V1 in Hno.
    unfold pte_at in Hno. by rewrite Ht in Hno. }
  unfold stw. erewrite bind_ret by reflexivity.
  assert (Z.lor (Z.lor pa perm) PTE_P = pa + Z.lor perm PTE_P) as ->.
  { rewrite <-Z.lor_assoc. apply lor_flags; [done|]. apply lor_flag_bound; [done|]. by unfold PGSIZE, PTE_P. }
  set (w := pa + Z.lor perm PTE_P).
  assert (0 <= Z.lor perm PTE_P < PGSIZE) as Hfl by (apply lor_flag_bound; [done|by unfold PGSIZE, PTE_P]).
  assert (is_u32 w) as Hw32 by (unfold is_u32, w, PGSIZE in *; lia).
  assert (is_u32 a) as Ha32 by (unfold is_u32, PGSIZE in *; lia).
  destruct (set_entry s1 l1 pgdir a t w) as [P2 V2]; [apply P1|apply P1|done|done|done|].
  set (s2 := set_mm_bytes _ s1) in *. pose proof (pt_step_trans _ _ _ _ _ _ _ P1 P2) as P12.
  destruct (Z.eqb_spec a last) as [He|Hne].
  - assert (n = 0)%nat as -> by (unfold PGSIZE in *; lia).
    exists 0, s2, l1, 1%nat. split_and!; [done|done|by left|].
    intros va Hva. rewrite V2, V1 by done. cbv zeta. repeat case_decide; try lia.
  - destruct n as [|n]; [lia|].
    rewrite (u32_id (a + PGSIZE)) by (unfold is_u32, PGSIZE in *; lia).
    rewrite (u32_id (pa + PGSIZE)) by (unfold is_u32, PGSIZE in *; lia).
    assert ((a + PGSIZE) / PGSIZE = a / PGSIZE + 1) as Hdiv by (unfold PGSIZE; divlia).
    destruct (IH s2 l1 (a + PGSIZE) (pa + PGSIZE) n) as (r & s3 & l3 & j & E3 & P3 & Hr & V3);
      [apply P12|apply P12|lia|unfold PGSIZE in *; divlia|unfold PGSIZE in *; lia|lia|done
      |unfold PGSIZE in *; divlia|unfold PGSIZE in *; lia|unfold PGSIZE in *; lia|done| |].
    { intros k Hk'. specialize (Hno (S k) ltac:(lia)). unfold mapped_page in *.
      rewrite V2 by (unfold is_u32, PGSIZE in *; lia).
      rewrite decide_False by (unfold PGSIZE in *; divlia). rewrite V1.
      rewrite <-Hno. f_equal. f_equal. lia. }
    exists r, s3, l3, (S j). split_and!; [done|by eapply pt_step_trans| |].
    + destruct Hr as [[-> ->]|(-> & ? & ->)]; [by left|right; split_and!; [done|lia|done]].
    + intros va Hva. rewrite V3 by done. cbv zeta. rewrite Hdiv.
      rewrite V2, V1 by done. repeat case_decide; try lia.
Qed.
End wf.
