(* ===== verification/VmUser.v ===== *)
(** * User memory: frames, growing and shrinking an address space *)
From S2P Require Import Prelude Params Str Kalloc KallocInv Vm VmInv.

Section user.
Context (kend : Z) (kend_high : KERNBASE < kend).
Let kend_ge : KERNBASE <= kend := Z.lt_le_incl _ _ kend_high.
Implicit Types (s : memory) (m : mem) (pgdir va : Z) (l : list Z).

Definition user_va va : Prop := 0 <= va < KERNBASE.

(** The kernel address of the page an entry points to. *)
Definition frame_of (e : Z) : Z := P2V (PTE_ADDR e).

Record uvm_wf m pgdir l : Prop := {
  um_pt : pt_wf kend m pgdir l;
  um_frame : ∀ va, user_va va → mapped_page m pgdir va = true →
    page_ok kend (frame_of (pte_at m pgdir va)) ∧ (frame_of (pte_at m pgdir va) ∉ l)
    ∧ frame_of (pte_at m pgdir va) ≠ pgdir
    ∧ ∀ i t, 0 <= i < 1024 → table m pgdir i = Some t → frame_of (pte_at m pgdir va) ≠ t;
  um_inj : ∀ va va', user_va va → user_va va' →
    mapped_page m pgdir va = true → mapped_page m pgdir va' = true →
    frame_of (pte_at m pgdir va) = frame_of (pte_at m pgdir va') → va / PGSIZE = va' / PGSIZE;
}.

(** The pages of the allocator and of the process: free, a page table, or mapped. *)
Definition owned m pgdir l (p : Z) : Prop :=
  p ∈ l ∨ (∃ i, 0 <= i < 1024 ∧ table m pgdir i = Some p)
  ∨ ∃ va, user_va va ∧ mapped_page m pgdir va = true ∧ frame_of (pte_at m pgdir va) = p.

Lemma owned_ext m m' pgdir l l' p :
  (∀ i, 0 <= i < 1024 → table m' pgdir i = table m pgdir i) → (∀ va, pte_at m' pgdir va = pte_at m pgdir va) →
  (p ∈ l → p ∈ l') → owned m pgdir l p → owned m' pgdir l' p.
Proof.
  intros Ht Hp Hl [H|[(i & Hi & H)|(va & Hva & Hm & H)]]; [left; auto|right; left|right; right].
  - exists i. by rewrite Ht.
  - exists va. unfold mapped_page. by rewrite Hp.
Qed.

(** The byte a user access to [va] finds, if the page is present and accessible. *)
Definition user_byte m pgdir va : option Z :=
  let e := pte_at m pgdir va in
  if Z.odd e && has e PTE_U then Some (m (frame_of e + va mod PGSIZE)) else None.

Lemma user_u32 va : user_va va → is_u32 va.
Proof. unfold user_va, is_u32, KERNBASE. lia. Qed.

Lemma offset_in_page p va : in_page p (p + va mod PGSIZE).
Proof. unfold in_page. pose proof (Z.mod_pos_bound va PGSIZE ltac:(done)). lia. Qed.

(** Memory that changes only in pages that are neither tables nor the directory. *)
Definition away m pgdir (p : Z) : Prop :=
  p ≠ pgdir ∧ ∀ i t, 0 <= i < 1024 → table m pgdir i = Some t → p ≠ t.

Lemma page_change_table m m' pgdir l p :
  pt_wf kend m pgdir l → page_ok kend p → away m pgdir p →
  (∀ x, ¬ in_page p x → m' x = m x) →
  (∀ i, 0 <= i < 1024 → table m' pgdir i = table m pgdir i)
  ∧ ∀ va, pte_at m' pgdir va = pte_at m pgdir va.
Proof.
  intros Hw Hp [Hd Ht] Hm. assert (∀ x, in_page pgdir x → m' x = m x) as Hdir.
  { intros x Hx. apply Hm. intros Hc. by apply Hd, (pages_disjoint kend p pgdir x); [|apply Hw| |]. }
  split; [intros; by apply table_ext|]. intros va. apply pte_at_ext; [done|].
  intros i t x Hi Hs Hx. apply Hm. intros Hc. apply (Ht i t Hi Hs).
  apply (pages_disjoint kend p t x); try done. by apply (pt_tab _ _ _ _ Hw i t).
Qed.

(** A page that no table is in is put on the free list. *)
Lemma pt_wf_freed m m' pgdir l p :
  pt_wf kend m pgdir l → p ≠ pgdir → (∀ i t, 0 <= i < 1024 → table m pgdir i = Some t → p ≠ t) →
  (∀ i, 0 <= i < 1024 → table m' pgdir i = table m pgdir i) → pt_wf kend m' pgdir (p :: l).
Proof using kend_high kend_ge.
  intros [P1 P2 P3 P4] Hpd Hpt Htab. split; [done|set_solver|..].
  - intros i t' Hi'. rewrite Htab by done. intros Hs. destruct (P3 i t' Hi' Hs) as (?&?&?).
    split_and!; [done| |done]. apply not_elem_of_cons. split; [|done]. by apply not_eq_sym, (Hpt i t').
  - intros i j t' Hi' Hj'. rewrite !Htab by done. by apply P4.
Qed.

(** A write to an entry of a table does not change the directory. *)
Lemma entry_write_tables m pgdir l va t v i :
  pt_wf kend m pgdir l → table m pgdir (PDX va) = Some t → 0 <= i < 1024 →
  table (store_word m (t + 4 * PTX va) v) pgdir i = table m pgdir i.
Proof using kend_high kend_ge.
  intros Hw Ht Hi. apply table_ext; [done|]. intros x Hx. apply store_word_other. pose proof (PTX_bound va).
  destruct (pt_tab _ _ _ _ Hw _ _ (PDX_bound va) Ht) as (Hpg & _ & Hne).
  destruct (decide (t + 4 * PTX va <= x < t + 4 * PTX va + 4)) as [Hr|]; [|lia].
  exfalso. apply Hne, (pages_disjoint kend t pgdir x); [done|apply Hw|by eapply entry_in_page|done].
Qed.

(** *** Unmapping a page *)
Lemma unmap_page s l pgdir va t :
  kmem_wf kend s l → uvm_wf (mm_bytes s) pgdir l → user_va va →
  mapped_page (mm_bytes s) pgdir va = true → table (mm_bytes s) pgdir (PDX va) = Some t →
  ∃ s', (kfree kend (frame_of (pte_at (mm_bytes s) pgdir va));; stw (t + 4 * PTX va) 0) s = Ret tt s'
    ∧ kmem_wf kend s' (frame_of (pte_at (mm_bytes s) pgdir va) :: l)
    ∧ uvm_wf (mm_bytes s') pgdir (frame_of (pte_at (mm_bytes s) pgdir va) :: l)
    ∧ (∀ va', is_u32 va' → pte_at (mm_bytes s') pgdir va'
        = if decide (va' / PGSIZE = va / PGSIZE) then 0 else pte_at (mm_bytes s) pgdir va')
    ∧ (∀ i, 0 <= i < 1024 → table (mm_bytes s') pgdir i = table (mm_bytes s) pgdir i)
    ∧ ∀ va' x, user_va va' → va' / PGSIZE ≠ va / PGSIZE → mapped_page (mm_bytes s) pgdir va' = true →
        in_page (frame_of (pte_at (mm_bytes s) pgdir va')) x → mm_bytes s' x = mm_bytes s x.
Proof using kend_high kend_ge.
  intros Hk [Hw Hf Hi] Hva Hm Ht. set (p := frame_of (pte_at (mm_bytes s) pgdir va)).
  destruct (Hf va Hva Hm) as (Hp & Hpl & Hpd & Hpt). fold p in Hp, Hpl, Hpd, Hpt.
  destruct (kfree_spec kend kend_ge s l p Hk Hp Hpl) as [E1 Hk1].
  set (s1 := freed_page s p) in *.
  assert (∀ x, ¬ in_page p x → mm_bytes s1 x = mm_bytes s x) as Hfr by (intros; by apply freed_page_frame).
  destruct (page_change_table (mm_bytes s) (mm_bytes s1) pgdir l p Hw Hp (conj Hpd Hpt) Hfr) as [Htab Hpte].
  assert (pt_wf kend (mm_bytes s1) pgdir (p :: l)) as Hw1 by (by eapply pt_wf_freed).
  destruct (set_entry kend kend_ge s1 (p :: l) pgdir va t 0) as [P2 V2];
    [done|done|by apply user_u32|done|by rewrite Htab by apply PDX_bound|].
  set (s2 := set_mm_bytes _ s1) in *. exists s2.
  assert (∀ va', is_u32 va' → pte_at (mm_bytes s2) pgdir va'
    = if decide (va' / PGSIZE = va / PGSIZE) then 0 else pte_at (mm_bytes s) pgdir va') as V3.
  { intros va' H32. rewrite V2, Hpte by done. done. }
  assert (∀ i, 0 <= i < 1024 → table (mm_bytes s2) pgdir i = table (mm_bytes s) pgdir i) as Hback.
  { intros i Hi'. rewrite <-Htab by done. apply (entry_write_tables _ _ (p :: l)); [done| |done].
    by rewrite Htab by apply PDX_bound. }
  assert (∀ va', user_va va' → mapped_page (mm_bytes s2) pgdir va' = true →
    va' / PGSIZE ≠ va / PGSIZE ∧ mapped_page (mm_bytes s) pgdir va' = true
    ∧ pte_at (mm_bytes s2) pgdir va' = pte_at (mm_bytes s) pgdir va') as Hback'.
  { intros va' Hv' Hm'. unfold mapped_page in *. rewrite V3 in * by (by apply user_u32).
    by case_decide. }
  split_and!.
  - rewrite (bind_ret _ _ _ _ _ E1). done.
  - apply P2.
  - split; [apply P2|..].
    + intros va' Hv' Hm'. destruct (Hback' va' Hv' Hm') as (Hne & Hm0 & ->).
      destruct (Hf va' Hv' Hm0) as (Q1 & Q2 & Q3 & Q4). split_and!; [done| |done|].
      * apply not_elem_of_cons. split; [|done]. intros Hc. apply Hne. by apply Hi.
      * intros i t' Hi'. rewrite Hback by done. by apply Q4.
    + intros v1 v2 H1 H2 M1 M2. destruct (Hback' v1 H1 M1) as (_ & M1' & ->).
      destruct (Hback' v2 H2 M2) as (_ & M2' & ->). by apply Hi.
  - done.
  - done.
  - intros va' x Hv' Hne Hm' Hx. destruct (Hf va' Hv' Hm') as (Q1 & Q2 & Q3 & Q4).
    rewrite (ps_frame _ _ _ _ _ _ P2), Hfr; [done|..].
    + intros Hc. apply Hne, Hi; try done. by apply (pages_disjoint kend _ p x).
    + intros Hc. apply Q3, (pages_disjoint kend _ pgdir x); [done|apply Hw|done|done].
    + intros i t' Hi' Hs Hc. rewrite Hback in Hs by done. apply (Q4 i t' Hi' Hs).
      apply (pages_disjoint kend _ t' x); try done. by apply (pt_tab _ _ _ _ Hw i t').
Qed.

(** *** Shrinking *)

(** The page of [va] starts in [a .. b). *)
Definition page_in a b va : Prop := a <= va / PGSIZE * PGSIZE < b.

#[global] Instance page_in_dec a b va : Decision (page_in a b va).
Proof. apply and_dec; apply _. Defined.

Record shrunk s l pgdir a b s' l' : Prop := {
  sh_kmem : kmem_wf kend s' l';
  sh_wf : uvm_wf (mm_bytes s') pgdir l';
  sh_freed : ∃ fr, l' = fr ++ l ∧ ∀ q, q ∈ fr → ∃ va, user_va va
    ∧ mapped_page (mm_bytes s) pgdir va = true ∧ frame_of (pte_at (mm_bytes s) pgdir va) = q;
  sh_tables : ∀ i, 0 <= i < 1024 → table (mm_bytes s') pgdir i = table (mm_bytes s) pgdir i;
  sh_gone : ∀ va, user_va va → page_in a b va → mapped_page (mm_bytes s') pgdir va = false;
  sh_all : ∀ va, user_va va → page_in a b va → mapped_page (mm_bytes s) pgdir va = true →
    frame_of (pte_at (mm_bytes s) pgdir va) ∈ l';
  sh_kept : ∀ va, is_u32 va → ¬ page_in a b va →
    pte_at (mm_bytes s') pgdir va = pte_at (mm_bytes s) pgdir va;
  sh_data : ∀ va x, user_va va → ¬ page_in a b va → mapped_page (mm_bytes s) pgdir va = true →
    in_page (frame_of (pte_at (mm_bytes s) pgdir va)) x → mm_bytes s' x = mm_bytes s x;
}.

(** The turn of the loop for an address without page table. *)
Lemma skip_table a : user_va a → a mod PGSIZE = 0 →
  let a' := u32 (u32 (PGADDR (PDX a + 1) 0 0 - PGSIZE) + PGSIZE) in
  a + PGSIZE <= a' <= KERNBASE ∧ a' mod PGSIZE = 0
  ∧ ∀ va, page_in a a' va → PDX va = PDX a.
Proof.
  intros Ha Hal a'. pose proof (PDX_bound a) as Hd. unfold user_va, KERNBASE in Ha.
  assert (PDX a = a / 2 ^ 22) as Hq by (rewrite PDX_eq; divlia).
  assert (a' = (a / 2 ^ 22 + 1) * 2 ^ 22) as ->.
  { unfold a', PGADDR. rewrite Hq, Z.shiftl_0_l, !Z.lor_0_r, Z.shiftl_mul_pow2 by lia.
    rewrite u32_add_l. rewrite (u32_id ((a / 2 ^ 22 + 1) * 2 ^ 22)) by (unfold is_u32; divlia).
    rewrite Z.sub_add. apply u32_id. unfold is_u32; divlia. }
  split_and!; try (unfold PGSIZE, KERNBASE in *; divlia).
  intros va [H1 H2]. rewrite PDX_eq, Hq. unfold PGSIZE in *. divlia.
Qed.

Lemma shrunk_refl s l pgdir a b :
  kmem_wf kend s l → uvm_wf (mm_bytes s) pgdir l → b <= a → shrunk s l pgdir a b s l.
Proof.
  intros Hk Hw Hge. split; try done; [exists []; split; [done|]; by intros ? ?%not_elem_of_nil| |].
  all: intros va _ [? ?]; lia.
Qed.

(** Nothing was mapped in the pages before [a']. *)
Lemma shrunk_skip s l pgdir a a' b s' l' :
  shrunk s l pgdir a' b s' l' → a <= a' →
  (∀ va, user_va va → page_in a b va → ¬ page_in a' b va → mapped_page (mm_bytes s) pgdir va = false) →
  shrunk s l pgdir a b s' l'.
Proof.
  intros [S1 S2 S3 ST S4 SA S5 S6] Ha Hno.
  assert (∀ va, ¬ page_in a b va → ¬ page_in a' b va) as Hsplit by (intros va; unfold page_in; lia).
  split; [done|done|done|done| | |by eauto|by eauto].
  2:{ intros va Hva Hin Hm. destruct (decide (page_in a' b va)) as [|Hn]; [auto|]. by rewrite Hno in Hm. }
  intros va Hva Hin. destruct (decide (page_in a' b va)) as [|Hn]; [auto|].
  unfold mapped_page. rewrite S5 by (done || by apply user_u32). by apply Hno.
Qed.

(** The page of [a] is freed, then those after it. *)
Lemma shrunk_step s l pgdir a b s1 s' l' :
  a mod PGSIZE = 0 → a < b → user_va a → mapped_page (mm_bytes s) pgdir a = true →
  (∀ va, is_u32 va → pte_at (mm_bytes s1) pgdir va
     = if decide (va / PGSIZE = a / PGSIZE) then 0 else pte_at (mm_bytes s) pgdir va) →
  (∀ i, 0 <= i < 1024 → table (mm_bytes s1) pgdir i = table (mm_bytes s) pgdir i) →
  (∀ va x, user_va va → va / PGSIZE ≠ a / PGSIZE → mapped_page (mm_bytes s) pgdir va = true →
     in_page (frame_of (pte_at (mm_bytes s) pgdir va)) x → mm_bytes s1 x = mm_bytes s x) →
  shrunk s1 (frame_of (pte_at (mm_bytes s) pgdir a) :: l) pgdir (a + PGSIZE) b s' l' →
  shrunk s l pgdir a b s' l'.
Proof.
  intros Hal Hlt Hua Em V1 T1 D1 [S1 S2 (fr & S3 & S3') ST S4 SA S5 S6]. set (p := frame_of _) in *.
  assert (∀ va, ¬ page_in a b va → va / PGSIZE ≠ a / PGSIZE ∧ ¬ page_in (a + PGSIZE) b va) as Hsplit.
  { intros va Hn. unfold page_in, PGSIZE in *. divlia. }
  split; [done|done|..].
  - exists (fr ++ [p]). split; [by rewrite <-app_assoc|]. intros q [Hq|Hq]%elem_of_app.
    + destruct (S3' q Hq) as (va & Hva & Hm & Hfq). exists va. unfold mapped_page in *.
      rewrite V1 in Hm, Hfq by (by apply user_u32). by case_decide.
    + apply list_elem_of_singleton in Hq as ->. by exists a.
  - intros i Hi. by rewrite ST, T1.
  - intros va Hva Hin. destruct (decide (page_in (a + PGSIZE) b va)); [auto|].
    unfold mapped_page. rewrite S5, V1 by (done || by apply user_u32).
    rewrite decide_True; [done|]. unfold page_in, PGSIZE in *. divlia.
  - intros va Hva Hin Hm. destruct (decide (va / PGSIZE = a / PGSIZE)) as [Hpg|Hpg].
    + rewrite (pte_at_page _ _ va a Hpg). fold p. rewrite S3. apply elem_of_app. right. by left.
    + assert (pte_at (mm_bytes s1) pgdir va = pte_at (mm_bytes s) pgdir va) as Hp
        by (rewrite V1 by (by apply user_u32); by rewrite decide_False).
      rewrite <-Hp. apply SA; [done| |unfold mapped_page; by rewrite Hp].
      unfold page_in, PGSIZE in *. divlia.
  - intros va H32 Hn. destruct (Hsplit va Hn). rewrite S5, V1 by done. by rewrite decide_False.
  - intros va x Hva Hn Hm Hx. destruct (Hsplit va Hn) as [Hn1 Hn2].
    assert (pte_at (mm_bytes s1) pgdir va = pte_at (mm_bytes s) pgdir va) as Hp
      by (rewrite V1 by (by apply user_u32); by rewrite decide_False).
    rewrite (S6 va x); [by apply (D1 va)|done|done|..]; unfold mapped_page; by rewrite Hp.
Qed.

(** The address of the entry of [a], where its page table exists. *)
Lemma entry_address m pgdir l a t :
  uvm_wf m pgdir l → table m pgdir (PDX a) = Some t →
  t + 4 * PTX a ≠ 0 ∧ load_word m (t + 4 * PTX a) = pte_at m pgdir a.
Proof.
  intros Hw Et. destruct (pt_tab _ _ _ _ (um_pt _ _ _ Hw) _ _ (PDX_bound a) Et) as ([_ Htr] & _).
  pose proof (PTX_bound a). split; [unfold KERNBASE in *; lia|]. unfold pte_at. by rewrite Et.
Qed.

Lemma mapped_not_zero m pgdir l a :
  uvm_wf m pgdir l → user_va a → mapped_page m pgdir a = true → PTE_ADDR (pte_at m pgdir a) ≠ 0.
Proof using kend_high.
  intros Hw Hua Em He. destruct (um_frame _ _ _ Hw a Hua Em) as ([_ Hpr] & _).
  unfold frame_of in Hpr. rewrite He in Hpr. change (P2V 0) with KERNBASE in Hpr. lia.
Qed.

Lemma deallocuvm_loop_spec fuel s l pgdir a b :
  kmem_wf kend s l → uvm_wf (mm_bytes s) pgdir l → a mod PGSIZE = 0 → 0 <= a → b <= KERNBASE →
  (b - a) / PGSIZE + 1 <= Z.of_nat fuel →
  ∃ s' l', deallocuvm_loop kend fuel pgdir a b s = Ret tt s' ∧ shrunk s l pgdir a b s' l'.
Proof using kend_high kend_ge.
  assert (0 < PGSIZE) as HPG by done.
  revert s l a. induction fuel as [|fuel IH]; intros s l a Hk Hw Hal Ha0 Hb Hf.
  all: cbn [deallocuvm_loop]; destruct (Z.ltb_spec a b) as [Hlt|Hge].
  1: { exfalso. assert (0 <= (b - a) / PGSIZE) by (apply Z.div_pos; unfold PGSIZE; lia).
       change (Z.of_nat 0) with 0 in Hf. lia. }
  1,3: exists s, l; split; [done|by apply shrunk_refl].
  assert (user_va a) as Hua by (unfold user_va; lia).
  rewrite (bind_ret _ _ _ _ _ (walk_read s pgdir a)).
  assert ((b - (a + PGSIZE)) / PGSIZE + 1 <= Z.of_nat fuel) as Hf1.
  { replace (b - a) with (b - (a + PGSIZE) + 1 * PGSIZE) in Hf by lia.
    rewrite Z.div_add in Hf by done. lia. }
  destruct (table (mm_bytes s) pgdir (PDX a)) as [t|] eqn:Et.
  - destruct (entry_address _ _ _ _ _ Hw Et) as [Hnz Hld]. rewrite (proj2 (Z.eqb_neq _ 0)) by done.
    rewrite bind_assoc, (bind_ret _ _ _ _ _ (ldw_eq _ _)), has_present, Hld.
    assert (u32 (a + PGSIZE) = a + PGSIZE) as Hu
      by (apply u32_id; unfold is_u32, user_va, PGSIZE, KERNBASE in *; lia).
    assert ((a + PGSIZE) mod PGSIZE = 0) as Hal1 by (unfold PGSIZE in *; divlia).
    destruct (mapped_page (mm_bytes s) pgdir a) eqn:Em; pose proof Em as Em'; unfold mapped_page in Em'; rewrite Em'.
    + rewrite (proj2 (Z.eqb_neq _ 0)) by (by eapply mapped_not_zero).
      destruct (unmap_page s l pgdir a t Hk Hw Hua Em Et) as (s1 & E1 & Hk1 & Hw1 & V1 & T1 & D1).
      assert ((kfree kend (P2V (PTE_ADDR (pte_at (mm_bytes s) pgdir a)));;
        stw (t + 4 * PTX a) 0;; mret a) s = Ret a s1) as E1'.
      { rewrite <-bind_assoc. by rewrite (bind_ret _ _ _ _ _ E1). }
      rewrite (bind_ret _ _ _ _ _ E1'), Hu.
      destruct (IH s1 _ (a + PGSIZE) Hk1 Hw1 Hal1) as (s2 & l2 & E2 & Hs); [lia|done|done|].
      exists s2, l2. split; [done|]. by eapply shrunk_step.
    + rewrite bind_mret, Hu.
      destruct (IH s l (a + PGSIZE) Hk Hw Hal1) as (s2 & l2 & E2 & Hs); [lia|done|done|].
      exists s2, l2. split; [done|]. eapply shrunk_skip; [done|lia|]. intros va _ Hin Hn. unfold mapped_page.
      rewrite (pte_at_page _ _ va a); [done|]. unfold page_in, PGSIZE in *. divlia.
  - cbn [Z.eqb]. rewrite bind_mret. destruct (skip_table a Hua Hal) as ([Hlo Hhi] & Hal1 & Hpdx).
    set (a' := u32 (u32 _ + PGSIZE)) in *.
    destruct (IH s l a' Hk Hw Hal1) as (s2 & l2 & E2 & Hs); [lia|done| |].
    { etrans; [|exact Hf1]. apply Z.add_le_mono_r, Z.div_le_mono; [done|lia]. }
    exists s2, l2. split; [done|]. eapply shrunk_skip; [done|lia|]. intros va _ Hin Hn. unfold mapped_page, pte_at.
    rewrite (Hpdx va), Et; [done|]. unfold page_in in *. lia.
Qed.

Lemma shrunk_owned s l pgdir a b s' l' p :
  shrunk s l pgdir a b s' l' → owned (mm_bytes s) pgdir l p → owned (mm_bytes s') pgdir l' p.
Proof.
  intros [S1 S2 (fr & -> & _) ST S4 SA S5 S6] [H|[(i & Hi & H)|(va & Hva & Hm & H)]].
  - left. apply elem_of_app. by right.
  - right. left. exists i. by rewrite ST.
  - destruct (decide (page_in a b va)) as [Hin|Hin]; [left; rewrite <-H; by apply SA|].
    right. right. exists va. unfold mapped_page. by rewrite S5 by (done || by apply user_u32).
Qed.

Lemma deallocuvm_spec s l pgdir oldsz newsz :
  kmem_wf kend s l → uvm_wf (mm_bytes s) pgdir l → 0 <= newsz < oldsz → oldsz <= KERNBASE →
  ∃ s' l', deallocuvm kend pgdir oldsz newsz s = Ret newsz s'
    ∧ shrunk s l pgdir (PGROUNDUP newsz) oldsz s' l'.
Proof using kend_high kend_ge.
  intros Hk Hw Hn Ho. unfold deallocuvm. destruct (Z.leb_spec oldsz newsz); [lia|].
  assert (PGROUNDUP newsz = (newsz + PGSIZE - 1) / PGSIZE * PGSIZE) as Hr.
  { apply PGROUNDUP_eq. unfold KERNBASE, PGSIZE in *. lia. }
  destruct (deallocuvm_loop_spec (Z.to_nat ((oldsz - PGROUNDUP newsz) / PGSIZE + 1)) s l pgdir
    (PGROUNDUP newsz) oldsz) as (s' & l' & E & Hs); try done.
  - rewrite Hr. unfold PGSIZE. divlia.
  - rewrite Hr. unfold PGSIZE. divlia.
  - lia.
  - exists s', l'. split; [|done]. by rewrite (bind_ret _ _ _ _ _ E).
Qed.

(** *** Mapping a fresh page *)

(** A page that belongs to nobody: neither free, nor a table, nor mapped. *)
Record loose m pgdir l p : Prop := {
  lo_ok : page_ok kend p;
  lo_free : p ∉ l;
  lo_away : away m pgdir p;
  lo_frame : ∀ va, user_va va → mapped_page m pgdir va = true → frame_of (pte_at m pgdir va) ≠ p;
}.

(** Taking the first free page. *)
Lemma uvm_wf_tail m pgdir p l : uvm_wf m pgdir (p :: l) → uvm_wf m pgdir l.
Proof.
  intros [[P1 P2 P3 P4] U2 U3]. split; [|intros va Hva Hm|done].
  - split; [done|set_solver| |done]. intros i t Hi Ht. destruct (P3 i t Hi Ht) as (?&?&?). set_solver.
  - destruct (U2 va Hva Hm) as (?&?&?&?). split_and!; [done|set_solver|done|done].
Qed.

Lemma loose_head m pgdir p l :
  uvm_wf m pgdir (p :: l) → page_ok kend p → p ∉ l → loose m pgdir l p.
Proof.
  intros [[P1 P2 P3 P4] U2 U3] Hp Hl. split; [done|done| |].
  - split; [set_solver|]. intros i t Hi Ht. destruct (P3 i t Hi Ht) as (?&?&?). set_solver.
  - intros va Hva Hm. destruct (U2 va Hva Hm) as (?&?&?&?). set_solver.
Qed.

(** A change inside one page that is neither free nor part of the page table. *)
Lemma away_write s m' pgdir l p :
  kmem_wf kend s l → uvm_wf (mm_bytes s) pgdir l → page_ok kend p → p ∉ l →
  away (mm_bytes s) pgdir p → (∀ x, ¬ in_page p x → m' x = mm_bytes s x) →
  kmem_wf kend (set_mm_bytes m' s) l ∧ uvm_wf m' pgdir l
  ∧ (∀ i, 0 <= i < 1024 → table m' pgdir i = table (mm_bytes s) pgdir i)
  ∧ ∀ va, pte_at m' pgdir va = pte_at (mm_bytes s) pgdir va.
Proof using kend_high kend_ge.
  intros Hk [Hw U2 U3] L1 L2 L3 Hm.
  destruct (page_change_table _ m' pgdir l p Hw L1 L3 Hm) as [Ht Hp].
  assert (∀ va, mapped_page m' pgdir va = mapped_page (mm_bytes s) pgdir va) as Hmp
    by (intros; unfold mapped_page; by rewrite Hp).
  assert (∀ x, in_page pgdir x → m' x = mm_bytes s x) as Hdir.
  { intros x Hx. apply Hm. intros Hc. by apply (proj1 L3), (pages_disjoint kend p pgdir x); [|apply Hw| |]. }
  split_and!; [|split|done|done].
  - apply (kmem_wf_store kend s l pgdir); [done|]. intros q x Hq Hx. apply Hm. intros Hc. apply L2.
    pose proof (km_pages _ _ _ Hk) as Hall. rewrite Forall_forall in Hall.
    by rewrite (pages_disjoint kend p q x) by auto.
  - by eapply pt_wf_ext.
  - intros va Hva. rewrite Hmp, Hp. intros Hv. destruct (U2 va Hva Hv) as (?&?&?&Q). split_and!; try done.
    intros i t Hi. rewrite Ht by done. by apply Q.
  - intros va va' Hva Hva'. rewrite !Hmp, !Hp. by apply U3.
Qed.

Lemma loose_write s m' pgdir l p :
  kmem_wf kend s l → uvm_wf (mm_bytes s) pgdir l → loose (mm_bytes s) pgdir l p →
  (∀ x, ¬ in_page p x → m' x = mm_bytes s x) →
  kmem_wf kend (set_mm_bytes m' s) l ∧ uvm_wf m' pgdir l ∧ loose m' pgdir l p
  ∧ (∀ i, 0 <= i < 1024 → table m' pgdir i = table (mm_bytes s) pgdir i)
  ∧ ∀ va, pte_at m' pgdir va = pte_at (mm_bytes s) pgdir va.
Proof using kend_high kend_ge.
  intros Hk Hu [L1 L2 L3 L4] Hm.
  destruct (away_write s m' pgdir l p Hk Hu L1 L2 L3 Hm) as (W1 & W2 & Ht & Hp).
  split_and!; [done|done| |done|done]. split; [done|done|..].
  - destruct L3 as [L3 L3']. split; [done|]. intros i t Hi. rewrite Ht by done. by apply L3'.
  - intros va Hva. unfold mapped_page. rewrite Hp. by apply L4.
Qed.

(** Of a page that is neither free nor part of the page table, a step of the page table
    changes nothing. *)
Lemma step_away s l pgdir s' l' q :
  pt_step kend s l pgdir s' l' → page_ok kend q → q ∉ l → away (mm_bytes s) pgdir q →
  away (mm_bytes s') pgdir q ∧ (q ∉ l') ∧ ∀ x, in_page q x → mm_bytes s' x = mm_bytes s x.
Proof.
  intros P Hq Hql [Hqd Hqt]. pose proof P as [Q1 Q2 [used Q3] _ Q4 Q5 _].
  assert (∀ i t, 0 <= i < 1024 → table (mm_bytes s') pgdir i = Some t → q ≠ t) as Haw.
  { intros i t Hi Ht. destruct (table (mm_bytes s) pgdir i) as [t'|] eqn:E'.
    - pose proof (Q4 i t' Hi E'). assert (t = t') as -> by congruence. by eapply Hqt.
    - intros ->. apply Hql. rewrite Q3. apply elem_of_app. left. by eapply (ps_new _ _ _ _ _ _ P). }
  split_and!; [done| |].
  - rewrite Q3 in Hql. by apply not_elem_of_app in Hql as [_ ?].
  - intros x Hx. apply Q5.
    + intros Hc. apply Hqd, (pages_disjoint kend q pgdir x); [done|apply Q2|done|done].
    + intros i t Hi Ht Hc. apply (Haw i t Hi Ht), (pages_disjoint kend q t x); try done.
      by apply (pt_tab _ _ _ _ Q2 i t).
Qed.

Lemma entry_frame p fl : page_ok kend p → 0 <= fl < PGSIZE → frame_of (V2P p + fl) = p.
Proof using kend_ge.
  intros Hp Hfl. unfold frame_of. rewrite PTE_ADDR_eq, (V2P_page kend kend_ge p Hp). destruct Hp as [Hal Hr].
  assert ((p - KERNBASE + fl) / PGSIZE * PGSIZE = p - KERNBASE) as -> by (unfold KERNBASE, PGSIZE in *; divlia).
  unfold P2V. rewrite u32_id; [lia|]. unfold is_u32, KERNBASE, PHYSTOP in *. lia.
Qed.

(** One page is one turn of the loop. *)
Lemma mappages_one pgdir a pa perm : user_va a → a mod PGSIZE = 0 →
  mappages pgdir a PGSIZE pa perm = mappages_loop 1 pgdir a a pa perm.
Proof.
  intros Ha Hal. unfold mappages. rewrite !PGROUNDDOWN_eq.
  assert (a / PGSIZE * PGSIZE = a) as -> by (unfold PGSIZE in *; divlia).
  assert (u32 (a + PGSIZE - 1) / PGSIZE * PGSIZE = a) as ->.
  { rewrite u32_id by (unfold is_u32, user_va, KERNBASE, PGSIZE in *; lia). unfold PGSIZE in *. divlia. }
  by rewrite Z.sub_diag.
Qed.

(** A step of the page table that maps the page [p] at [a], or nothing. *)
Lemma step_uvm s l pgdir s' l' a p e (mapped : bool) :
  pt_step kend s l pgdir s' l' → uvm_wf (mm_bytes s) pgdir l → loose (mm_bytes s) pgdir l p → frame_of e = p →
  (∀ va, is_u32 va → pte_at (mm_bytes s') pgdir va
     = if decide (mapped = true ∧ va / PGSIZE = a / PGSIZE) then e else pte_at (mm_bytes s) pgdir va) →
  uvm_wf (mm_bytes s') pgdir l'.
Proof.
  intros P [Hw U2 U3] [L1 L2 L3 L4] Hfp V.
  destruct (step_away _ _ _ _ _ p P L1 L2 L3) as ([A1 A2] & Hpl & _). split; [apply P|..].
  - intros va Hva. unfold mapped_page. rewrite V by (by apply user_u32).
    destruct (decide (mapped = true ∧ va / PGSIZE = a / PGSIZE)); [rewrite Hfp; done|].
    intros Hm. destruct (U2 va Hva Hm) as (B1 & B2 & B3 & B4).
    destruct (step_away _ _ _ _ _ _ P B1 B2 (conj B3 B4)) as ([C1 C2] & C3 & _). done.
  - intros v1 v2 H1 H2. unfold mapped_page. rewrite !V by (by apply user_u32).
    destruct (decide (mapped = true ∧ v1 / PGSIZE = a / PGSIZE)) as [C1|C1],
      (decide (mapped = true ∧ v2 / PGSIZE = a / PGSIZE)) as [C2|C2]; rewrite ?Hfp; intros M1 M2 He.
    + lia.
    + by destruct (L4 v2).
    + by destruct (L4 v1).
    + by apply U3.
Qed.

Lemma entry_present p fl : page_ok kend p → Z.odd (V2P p + Z.lor fl PTE_P) = true.
Proof using kend_ge.
  intros Hp. rewrite Z.odd_add, (V2P_page kend kend_ge p Hp). destruct Hp as [Hal _].
  assert (Z.odd (p - KERNBASE) = false) as ->.
  { rewrite <-Z.negb_even. apply negb_false_iff. unfold KERNBASE, PGSIZE in *.
    apply Z.even_spec. exists ((p - 2147483648) / 2). divlia. }
  rewrite <-Z.bit0_odd, Z.lor_spec. cbn. by rewrite orb_true_r.
Qed.

(** No page is lost when the page table is extended. *)
Lemma step_owned s l pgdir s' l' a e (mapped : bool) q :
  pt_step kend s l pgdir s' l' → mapped_page (mm_bytes s) pgdir a = false → 
  (∀ va, is_u32 va → pte_at (mm_bytes s') pgdir va
     = if decide (mapped = true ∧ va / PGSIZE = a / PGSIZE) then e else pte_at (mm_bytes s) pgdir va) →
  owned (mm_bytes s) pgdir l q → owned (mm_bytes s') pgdir l' q.
Proof.
  intros P Hno V [H|[(i & Hi & H)|(va & Hva & Hm & H)]].
  - destruct (ps_used _ _ _ _ _ _ P q H) as [?|?]; [by left|by right; left].
  - right. left. exists i. split; [done|]. by apply (ps_grow _ _ _ _ _ _ P).
  - right. right. exists va. unfold mapped_page in *. rewrite V by (by apply user_u32).
    destruct (decide (mapped = true ∧ va / PGSIZE = a / PGSIZE)) as [Hc|Hc]; [|done].
    rewrite (pte_at_page _ _ va a (proj2 Hc)) in Hm. congruence.
Qed.

Lemma map_loose s l pgdir a p perm :
  kmem_wf kend s l → uvm_wf (mm_bytes s) pgdir l → loose (mm_bytes s) pgdir l p →
  user_va a → a mod PGSIZE = 0 → mapped_page (mm_bytes s) pgdir a = false → 0 <= perm < PGSIZE →
  ∃ r s' l', mappages pgdir a PGSIZE (V2P p) perm s = Ret r s'
    ∧ kmem_wf kend s' l' ∧ uvm_wf (mm_bytes s') pgdir l' ∧ (∃ used, l = used ++ l')
    ∧ (∀ x, in_page p x → mm_bytes s' x = mm_bytes s x)
    ∧ (∀ va x, user_va va → mapped_page (mm_bytes s) pgdir va = true →
         in_page (frame_of (pte_at (mm_bytes s) pgdir va)) x → mm_bytes s' x = mm_bytes s x)
    ∧ (∀ q, owned (mm_bytes s) pgdir l q ∨ (r = 0 ∧ q = p) → owned (mm_bytes s') pgdir l' q)
    ∧ ((r = 0 ∧ ∀ va, is_u32 va → pte_at (mm_bytes s') pgdir va
          = if decide (va / PGSIZE = a / PGSIZE) then V2P p + Z.lor perm PTE_P
            else pte_at (mm_bytes s) pgdir va)
       ∨ (r = -1 ∧ loose (mm_bytes s') pgdir l' p
          ∧ ∀ va, is_u32 va → pte_at (mm_bytes s') pgdir va = pte_at (mm_bytes s) pgdir va)).
Proof using kend_high kend_ge.
  intros Hk Hu Hlo Ha Hal Hno Hperm. assert (0 < PGSIZE) as HPG by done.
  pose proof Hu as [Hw U2 U3]. pose proof Hlo as [L1 L2 L3 L4]. pose proof L1 as [Lal Lr].
  assert (V2P p = p - KERNBASE) as Hv by (by apply (V2P_page kend kend_ge)).
  destruct (mappages_loop_spec kend kend_ge 1 s l pgdir a a (V2P p) perm 0)
    as (r & s' & l' & j & E & P & Hr & V); try done; try lia.
  all: try (rewrite ?Hv; unfold user_va, PHYSTOP, KERNBASE, PGSIZE in *; divlia).
  { intros k Hk0. assert (k = 0)%nat as -> by lia. by rewrite Z.mul_0_l, Z.add_0_r. }
  exists r, s', l'. rewrite mappages_one by done.
  assert (0 <= Z.lor perm PTE_P < PGSIZE) as Hfl by (apply lor_flag_bound; [done|by unfold PGSIZE, PTE_P]).
  destruct (step_away _ _ _ _ _ p P L1 L2 L3) as (Hap & Hpl & Hpx).
  assert (∀ va, is_u32 va → pte_at (mm_bytes s') pgdir va
    = if decide ((r =? 0) = true ∧ va / PGSIZE = a / PGSIZE) then V2P p + Z.lor perm PTE_P
      else pte_at (mm_bytes s) pgdir va) as V'.
  { intros va Hva. rewrite V by done. cbv zeta.
    destruct Hr as [[-> ->]|(-> & Hj & ->)]; cbn [Z.eqb]; repeat case_decide; try lia; try done. }
  split_and!; [done|apply P| |apply P|done| | |].
  - eapply step_uvm; [done|done|done|by apply (entry_frame p (Z.lor perm PTE_P))|exact V'].
  - intros va x Hva Hm. destruct (U2 va Hva Hm) as (B1 & B2 & B3 & B4).
    by apply (step_away _ _ _ _ _ _ P B1 B2 (conj B3 B4)).
  - intros q [Hq|[-> ->]]; [by eapply step_owned|]. right. right. exists a. unfold mapped_page.
    rewrite V' by (by apply user_u32). rewrite decide_True by done. rewrite entry_present by done.
    split_and!; [done|done|by apply (entry_frame p (Z.lor perm PTE_P))].
  - destruct Hr as [[-> ->]|(-> & Hj & ->)]; cbn [Z.eqb] in V'.
    + left. split; [done|]. intros va Hva. rewrite V' by done. repeat case_decide; try done; naive_solver.
    + assert (∀ va, is_u32 va → pte_at (mm_bytes s') pgdir va = pte_at (mm_bytes s) pgdir va) as V2.
      { intros va Hva. rewrite V' by done. by rewrite decide_False by naive_solver. }
      right. split_and!; [done| |done]. split; [done|done|done|].
      intros va Hva. unfold mapped_page. rewrite V2 by (by apply user_u32). by apply L4.
Qed.
End user.
