(* ===== verification/VmGrow.v ===== *)
(** * Growing an address space (allocuvm) and writing to it (copyout) *)
From S2P Require Import Prelude Params Str Kalloc KallocInv Vm VmInv VmUser.

Section grow.
Context (kend : Z) (kend_high : KERNBASE < kend).
Let kend_ge : KERNBASE <= kend := Z.lt_le_incl _ _ kend_high.
Implicit Types (s : memory) (m : mem) (pgdir va : Z) (l : list Z).

(** Outside the pages of [a .. b) the mappings and the data are the same. *)
Record agree s s' pgdir a b : Prop := {
  ag_pte : ∀ va, is_u32 va → ¬ page_in a b va →
    pte_at (mm_bytes s') pgdir va = pte_at (mm_bytes s) pgdir va;
  ag_data : ∀ va x, user_va va → ¬ page_in a b va → mapped_page (mm_bytes s) pgdir va = true →
    in_page (frame_of (pte_at (mm_bytes s) pgdir va)) x → mm_bytes s' x = mm_bytes s x;
}.

Lemma agree_mapped s s' pgdir a b va :
  agree s s' pgdir a b → user_va va → ¬ page_in a b va →
  mapped_page (mm_bytes s') pgdir va = mapped_page (mm_bytes s) pgdir va.
Proof. intros [A _] Hva Hn. unfold mapped_page. by rewrite A by (done || by apply user_u32). Qed.

Lemma agree_trans s1 s2 s3 pgdir a b :
  agree s1 s2 pgdir a b → agree s2 s3 pgdir a b → agree s1 s3 pgdir a b.
Proof.
  intros A B. split.
  - intros va H32 Hn. by rewrite (ag_pte _ _ _ _ _ B), (ag_pte _ _ _ _ _ A).
  - intros va x Hva Hn Hm Hx. rewrite (ag_data _ _ _ _ _ B va x); [by apply (ag_data _ _ _ _ _ A va)|done|done|..].
    + by rewrite (agree_mapped _ _ _ _ _ _ A).
    + by rewrite (ag_pte _ _ _ _ _ A) by (done || by apply user_u32).
Qed.

Lemma agree_weaken s s' pgdir a b a' b' :
  agree s s' pgdir a b → (∀ va, page_in a b va → page_in a' b' va) → agree s s' pgdir a' b'.
Proof. intros [A B] H. split; eauto. Qed.

Lemma agree_none s s' pgdir a b : agree s s' pgdir 0 0 → agree s s' pgdir a b.
Proof. intros A. eapply agree_weaken; [exact A|]. intros va [? ?]. lia. Qed.

Lemma agree_user_byte s s' pgdir a b va :
  agree s s' pgdir a b → user_va va → ¬ page_in a b va →
  user_byte (mm_bytes s') pgdir va = user_byte (mm_bytes s) pgdir va.
Proof.
  intros A Hva Hn. unfold user_byte. rewrite (ag_pte _ _ _ _ _ A) by (done || by apply user_u32).
  destruct (Z.odd _) eqn:E; [|done]. cbn. destruct (has _ _); [|done]. f_equal.
  apply (ag_data _ _ _ _ _ A va); [done|done|done|apply offset_in_page].
Qed.

(** A page a process has just obtained: writable, and all zeros. *)
Definition fresh_page m pgdir va : Prop :=
  has (pte_at m pgdir va) PTE_W = true ∧ user_byte m pgdir va = Some 0.

Lemma uvm_wf_cons m pgdir l p : uvm_wf kend m pgdir l → loose kend m pgdir l p → uvm_wf kend m pgdir (p :: l).
Proof.
  intros [[P1 P2 P3 P4] U2 U3] [L1 L2 [L3 L3'] L4]. split; [split|..]; try done.
  - by apply not_elem_of_cons.
  - intros i t Hi Ht. destruct (P3 i t Hi Ht) as (?&?&?). split_and!; [done| |done].
    apply not_elem_of_cons. split; [|done]. by apply not_eq_sym, (L3' i t).
  - intros va Hva Hm. destruct (U2 va Hva Hm) as (?&?&?&?). split_and!; try done.
    apply not_elem_of_cons. split; [|done]. by apply L4.
Qed.

(** Giving back a loose page. *)
Lemma free_loose s l pgdir p :
  kmem_wf kend s l → uvm_wf kend (mm_bytes s) pgdir l → loose kend (mm_bytes s) pgdir l p →
  ∃ s', kfree kend p s = Ret tt s' ∧ kmem_wf kend s' (p :: l) ∧ uvm_wf kend (mm_bytes s') pgdir (p :: l)
    ∧ agree s s' pgdir 0 0
    ∧ ∀ q, owned (mm_bytes s) pgdir l q ∨ q = p → owned (mm_bytes s') pgdir (p :: l) q.
Proof using kend_high kend_ge.
  intros Hk Hu Hlo. pose proof Hlo as [L1 L2 L3 L4].
  destruct (kfree_spec kend kend_ge s l p Hk L1 L2) as [E Hk'].
  exists (freed_page s p). pose proof (freed_page_frame s p) as Hfr.
  destruct (loose_write kend kend_high s (mm_bytes (freed_page s p)) pgdir l p Hk Hu Hlo Hfr)
    as (_ & Hu' & Hlo' & Ht & Hp).
  split_and!; [done|done|by apply uvm_wf_cons| |].
  2:{ intros q [Hq| ->]; [|by left; left]. eapply owned_ext; [done|done| |exact Hq]. by right. }
  split; [intros; apply Hp|].
  intros va x Hva _ Hm Hx. apply Hfr. intros Hc. apply (L4 va Hva Hm).
  apply (pages_disjoint kend _ p x); try done. by apply (um_frame _ _ _ _ Hu).
Qed.

(** Undoing a growth. *)
Lemma undo_growth s l pgdir oldsz newsz :
  kmem_wf kend s l → uvm_wf kend (mm_bytes s) pgdir l → 0 <= oldsz < newsz → newsz < KERNBASE →
  ∃ s' l', deallocuvm kend pgdir newsz oldsz s = Ret oldsz s' ∧ kmem_wf kend s' l'
    ∧ uvm_wf kend (mm_bytes s') pgdir l' ∧ agree s s' pgdir (PGROUNDUP oldsz) newsz
    ∧ (∀ va, user_va va → page_in (PGROUNDUP oldsz) newsz va → mapped_page (mm_bytes s') pgdir va = false)
    ∧ (∀ p, loose kend (mm_bytes s) pgdir l p → loose kend (mm_bytes s') pgdir l' p)
    ∧ ∀ q, owned (mm_bytes s) pgdir l q → owned (mm_bytes s') pgdir l' q.
Proof using kend_high kend_ge.
  intros Hk Hu Ho Hn.
  destruct (deallocuvm_spec kend kend_high s l pgdir newsz oldsz Hk Hu) as (s' & l' & E & Hsh);
    [lia|lia|]. pose proof Hsh as [S1 S2 (fr & -> & Hfr) ST S4 _ S5 S6].
  exists s', (fr ++ l). split_and!; try done; [|intros q; by eapply shrunk_owned]. intros p [L1 L2 [L3 L3'] L4]. split; [done|..].
  - apply not_elem_of_app. split; [|done]. intros Hp. destruct (Hfr p Hp) as (va & Hva & Hm & He).
    by apply (L4 va Hva Hm).
  - split; [done|]. intros i t Hi. rewrite ST by done. by apply L3'.
  - intros va Hva Hm. destruct (decide (page_in (PGROUNDUP oldsz) newsz va)) as [Hi|Hi].
    + rewrite S4 in Hm by done. done.
    + unfold mapped_page in *. rewrite S5 in * by (done || by apply user_u32). by apply L4.
Qed.

Definition zero_page_mem (p : Z) : mem → mem := λ m, memset m p 0 PGSIZE.

(** The page at the head of the free list. *)
Lemma km_head s p l : kmem_wf kend s (p :: l) → page_ok kend p ∧ p ≠ 0 ∧ p ∉ l.
Proof using kend_high kend_ge.
  intros Hk. pose proof (km_pages _ _ _ Hk) as Hps. apply Forall_cons in Hps as [Hp _].
  pose proof (km_nodup _ _ _ Hk) as Hnd. apply NoDup_cons in Hnd as [Hpl _].
  split_and!; [done| |done]. by destruct (page_ok_u32 kend kend_ge p Hp).
Qed.

(** [mem = kalloc(); memset(mem, 0, PGSIZE)]: no mapping and no mapped page changes. *)
Lemma clear_page s p l pgdir :
  kmem_wf kend s (p :: l) → uvm_wf kend (mm_bytes s) pgdir (p :: l) →
  let s1 := set_mm_freelist (default 0 (head l)) s in
  let s2 := set_mm_bytes (memset (mm_bytes s1) p 0 PGSIZE) s1 in
  kmem_wf kend s2 l ∧ uvm_wf kend (mm_bytes s2) pgdir l ∧ loose kend (mm_bytes s2) pgdir l p
  ∧ (∀ va, pte_at (mm_bytes s2) pgdir va = pte_at (mm_bytes s) pgdir va) ∧ agree s s2 pgdir 0 0
  ∧ ∀ q, owned (mm_bytes s) pgdir (p :: l) q → q = p ∨ owned (mm_bytes s2) pgdir l q.
Proof using kend_high kend_ge.
  intros Hk Hu s1 s2. destruct (kalloc_spec kend kend_ge s (p :: l) Hk) as [_ Hk1].
  destruct (km_head s p l Hk) as (Hp & _ & Hpl). assert (0 < PGSIZE) as HPG by done.
  assert (loose kend (mm_bytes s) pgdir l p) as Hlo by (by eapply loose_head).
  assert (uvm_wf kend (mm_bytes s) pgdir l) as Hu1 by (by eapply uvm_wf_tail).
  destruct (loose_write kend kend_high s1 (memset (mm_bytes s1) p 0 PGSIZE) pgdir l p Hk1 Hu1 Hlo)
    as (Hk2 & Hu2 & Hlo2 & Ht2 & Hpte2).
  { intros x Hx. rewrite memset_eq by done. by rewrite decide_False. }
  split_and!; [done|done|done|done| |].
  2:{ intros q [[->|H]%elem_of_cons|H]; [by left|right; by left|right].
      eapply (owned_ext (mm_bytes s)); [done|done| |by right; exact H]. exact id. }
  split; [intros; apply Hpte2|]. intros va x Hva _ Hm Hx. cbn. rewrite memset_eq by done.
  rewrite decide_False; [done|]. intros Hc. apply (lo_frame _ _ _ _ _ Hlo va Hva Hm).
  apply (pages_disjoint kend _ p x); try done. by apply (um_frame _ _ _ _ Hu).
Qed.

(** A zeroed page that has been mapped stays fresh while others are. *)
Lemma fresh_kept s s' pgdir a b va p :
  page_ok kend p → pte_at (mm_bytes s) pgdir va = V2P p + 7 → (∀ x, in_page p x → mm_bytes s x = 0) →
  agree s s' pgdir a b → user_va va → ¬ page_in a b va → fresh_page (mm_bytes s') pgdir va.
Proof using kend_high kend_ge.
  intros Hp He Hz A Hva Hn.
  assert (V2P p mod PGSIZE = 0) as Hal7.
  { rewrite (V2P_page kend kend_ge p Hp). destruct Hp as [Hp _]. unfold KERNBASE, PGSIZE in *. divlia. }
  destruct (new_entry kend kend_ge p Hp) as (_ & _ & Ho7 & Ha7).
  assert (frame_of (V2P p + 7) = p) as Hf7 by done.
  assert (mapped_page (mm_bytes s) pgdir va = true) as Hm by (unfold mapped_page; by rewrite He).
  assert (pte_at (mm_bytes s') pgdir va = V2P p + 7) as He'.
  { rewrite (ag_pte _ _ _ _ _ A) by (done || by apply user_u32). done. }
  unfold fresh_page, user_byte. rewrite He', !has_flags, Ho7, Hf7 by done. split; [done|]. cbn. f_equal.
  rewrite (ag_data _ _ _ _ _ A va); [|done|done|done|by rewrite He, Hf7; apply offset_in_page].
  apply Hz, offset_in_page.
Qed.

Lemma allocuvm_loop_spec fuel s l pgdir a oldsz newsz :
  kmem_wf kend s l → uvm_wf kend (mm_bytes s) pgdir l → a mod PGSIZE = 0 → 0 <= oldsz →
  oldsz <= PGROUNDUP oldsz <= a → newsz < KERNBASE → (newsz - a) / PGSIZE + 1 <= Z.of_nat fuel →
  (∀ va, user_va va → page_in a newsz va → mapped_page (mm_bytes s) pgdir va = false) →
  ∃ r s' l', allocuvm_loop kend fuel pgdir a oldsz newsz s = Ret r s' ∧ kmem_wf kend s' l'
    ∧ uvm_wf kend (mm_bytes s') pgdir l'
    ∧ (∀ q, owned (mm_bytes s) pgdir l q → owned (mm_bytes s') pgdir l' q)
    ∧ ((r = newsz ∧ agree s s' pgdir a newsz
        ∧ ∀ va, user_va va → page_in a newsz va → fresh_page (mm_bytes s') pgdir va)
       ∨ (r = 0 ∧ agree s s' pgdir (PGROUNDUP oldsz) newsz
          ∧ ∀ va, user_va va → page_in (PGROUNDUP oldsz) newsz va →
              mapped_page (mm_bytes s') pgdir va = false)).
Proof using kend_high kend_ge.
  assert (0 < PGSIZE) as HPG by done.
  revert s l a. induction fuel as [|fuel IH]; intros s l a Hk Hu Hal Ho Ha Hn Hf Hno.
  all: cbn [allocuvm_loop]; destruct (Z.ltb_spec a newsz) as [Hlt|Hge].
  1: { exfalso. assert (0 <= (newsz - a) / PGSIZE) by (apply Z.div_pos; lia).
       change (Z.of_nat 0) with 0 in Hf. lia. }
  1,3: exists newsz, s, l; split_and!; try done; left; split_and!; try done; intros va _ [? ?]; lia.
  destruct (kalloc_spec kend kend_ge s l Hk) as [Ea Hk1]. rewrite (bind_ret _ _ _ _ _ Ea).
  set (s1 := set_mm_freelist _ s) in *.
  destruct l as [|p l]; cbn [head tail default from_option id] in *.
  { rewrite Z.eqb_refl. destruct (undo_growth s1 [] pgdir oldsz newsz) as (s2 & l2 & E2 & K2 & U2 & A2 & G2 & _ & W2);
      [done|done|lia|done|]. exists 0, s2, l2. rewrite (bind_ret _ _ _ _ _ E2). split_and!; [done..|].
    right. split_and!; [done| |done]. by destruct A2; split. }
  destruct (km_head _ _ _ Hk) as (Hp & Hp0 & Hpl). rewrite (proj2 (Z.eqb_neq p 0)) by done.
  unfold on_bytes. erewrite bind_ret by reflexivity.
  destruct (clear_page s p l pgdir Hk Hu) as (Hk2 & Hu2 & Hlo2 & Hpte2 & A02 & W02).
  set (s2 := set_mm_bytes _ _) in *. assert (user_va a) as Hua by (unfold user_va; lia).
  assert (∀ v, page_in 0 0 v → False) as Hempty by (intros v [? ?]; lia).
  destruct (map_loose kend kend_high s2 l pgdir a p (Z.lor PTE_W PTE_U))
    as (r & s3 & l3 & E3 & Hk3 & Hu3 & _ & D3 & D3' & W3 & Hr); try done.
  { unfold mapped_page. cbn. rewrite Hpte2. apply Hno; [done|]. unfold page_in, PGSIZE in *. divlia. }
  rewrite (bind_ret _ _ _ _ _ E3). destruct Hr as [[-> V3]|(-> & Hlo3 & V3)]; cbn [Z.ltb].
  - assert (agree s2 s3 pgdir a (a + PGSIZE)) as A23.
    { split; [|intros va x Hva _; by apply D3']. intros va H32 Hin. rewrite V3 by done.
      rewrite decide_False; [done|]. unfold page_in, PGSIZE in *. divlia. }
    rewrite (u32_id (a + PGSIZE)) by (unfold is_u32, user_va, KERNBASE, PGSIZE in *; lia).
    assert (∀ va, page_in (a + PGSIZE) newsz va → ¬ page_in a (a + PGSIZE) va) as Hout.
    { intros va. unfold page_in. lia. }
    destruct (IH s3 l3 (a + PGSIZE)) as (r & s4 & l4 & E4 & Hk4 & Hu4 & W4 & Hr); try done; try lia.
    { unfold PGSIZE in *. divlia. }
    { replace (newsz - a) with (newsz - (a + PGSIZE) + 1 * PGSIZE) in Hf by lia.
      rewrite Z.div_add in Hf by done. lia. }
    { intros va Hva Hin. rewrite (agree_mapped _ _ _ _ _ _ A23) by (done || by apply Hout).
      rewrite (agree_mapped _ _ _ _ _ _ A02) by (done || (intros ?; by eapply Hempty)).
      apply Hno; [done|]. unfold page_in in *. lia. }
    exists r, s4, l4. split_and!; [done|done|done| |].
    { intros q Hq. apply W4, W3. destruct (W02 q Hq) as [->|?]; [by right|by left]. }
    destruct Hr as [(-> & A34 & F)|(-> & A34 & G)]; [left|right]; split_and!; [done| | |done| |done].
    + eapply agree_trans; [by apply agree_none, A02|].
      eapply agree_trans; (eapply agree_weaken; [eassumption|]); unfold page_in, PGSIZE in *;
        intros va Hin; divlia.
    + intros va Hva Hin. destruct (decide (page_in (a + PGSIZE) newsz va)) as [Hi|Hi]; [by apply F|].
      assert (va / PGSIZE = a / PGSIZE) as Hpg by (unfold page_in, PGSIZE in *; divlia).
      apply (fresh_kept s3 s4 pgdir (a + PGSIZE) newsz va p); try done.
      * rewrite V3 by (by apply user_u32). by rewrite decide_True.
      * intros x Hx. rewrite D3 by done. cbn. rewrite memset_eq by done. by rewrite decide_True.
    + eapply agree_trans; [by apply agree_none, A02|].
      eapply agree_trans; [|exact A34]. eapply agree_weaken; [exact A23|].
      unfold page_in, PGSIZE in *. intros va Hin. divlia.
  - assert (agree s2 s3 pgdir 0 0) as A23 by (split; [by intros; apply V3|by intros va x Hva _; apply D3']).
    destruct (undo_growth s3 l3 pgdir oldsz newsz) as (s4 & l4 & E4 & Hk4 & Hu4 & A34 & G4 & Lo4 & W4);
      [done|done|lia|done|]. change (-1 <? 0) with true. cbv iota. rewrite (bind_ret _ _ _ _ _ E4).
    destruct (free_loose s4 l4 pgdir p Hk4 Hu4 (Lo4 p Hlo3)) as (s5 & E5 & Hk5 & Hu5 & A45 & W5).
    rewrite (bind_ret _ _ _ _ _ E5). exists 0, s5, (p :: l4). split_and!; [done|done|done| |right].
    { intros q Hq. apply W5. destruct (W02 q Hq) as [->|?]; [by right|]. left. apply W4, W3. by left. }
    split_and!; [done| |].
    + eapply agree_trans; [by apply agree_none, A02|]. eapply agree_trans; [by apply agree_none, A23|].
      eapply agree_trans; [exact A34|]. by apply agree_none.
    + intros va Hva Hin. rewrite (agree_mapped _ _ _ _ _ _ A45); [by apply G4|done|by intros ?%Hempty].
Qed.

(** ** copyout *)
Lemma store_bytes_spec m a bytes x :
  store_bytes m a bytes x
  = if decide (a <= x < a + Z.of_nat (length bytes)) then default 0 (bytes !! Z.to_nat (x - a)) else m x.
Proof.
  revert m a. induction bytes as [|b bytes IH]; intros m a; cbn [store_bytes length].
  - by rewrite decide_False by lia.
  - rewrite IH, store_spec. repeat case_decide; try lia; try done.
    + by replace (Z.to_nat (x - a)) with (S (Z.to_nat (x - (a + 1)))) by lia.
    + subst. by rewrite Z.sub_diag.
Qed.

(** User code may access [va]. *)
Definition accessible m pgdir va : Prop :=
  Z.odd (pte_at m pgdir va) = true ∧ has (pte_at m pgdir va) PTE_U = true.

Lemma user_byte_accessible m pgdir va : accessible m pgdir va →
  user_byte m pgdir va = Some (m (frame_of (pte_at m pgdir va) + va mod PGSIZE)).
Proof. intros [H1 H2]. unfold user_byte. by rewrite H1, H2. Qed.

Lemma fresh_accessible m pgdir va : fresh_page m pgdir va → accessible m pgdir va.
Proof.
  intros [_ H]. unfold user_byte in H. unfold accessible. by destruct (Z.odd _), (has _ _).
Qed.

Lemma uva2ka_accessible s pgdir va l :
  uvm_wf kend (mm_bytes s) pgdir l → accessible (mm_bytes s) pgdir va →
  uva2ka pgdir va s = Ret (frame_of (pte_at (mm_bytes s) pgdir va)) s.
Proof using kend_high kend_ge.
  intros Hu [Ho Hus]. unfold uva2ka. rewrite (bind_ret _ _ _ _ _ (walk_read s pgdir va)).
  destruct (table (mm_bytes s) pgdir (PDX va)) as [t|] eqn:Et.
  - destruct (pt_tab _ _ _ _ (um_pt _ _ _ _ Hu) _ _ (PDX_bound va) Et) as ([_ Htr] & _).
    pose proof (PTX_bound va). destruct (Z.eqb_spec (t + 4 * PTX va) 0) as [?|_]; [unfold KERNBASE in *; lia|].
    rewrite (bind_ret _ _ _ _ _ (ldw_eq _ _)), has_present.
    assert (load_word (mm_bytes s) (t + 4 * PTX va) = pte_at (mm_bytes s) pgdir va) as ->
      by (unfold pte_at; by rewrite Et).
    by rewrite Ho, Hus.
  - unfold pte_at in Ho. by rewrite Et in Ho.
Qed.

(** One turn of [copyout]: bytes stored within one page. *)
Lemma store_user s l pgdir va part :
  kmem_wf kend s l → uvm_wf kend (mm_bytes s) pgdir l → user_va va → accessible (mm_bytes s) pgdir va →
  va mod PGSIZE + Z.of_nat (length part) <= PGSIZE →
  let s' := set_mm_bytes (store_bytes (mm_bytes s)
    (frame_of (pte_at (mm_bytes s) pgdir va) + va mod PGSIZE) part) s in
  kmem_wf kend s' l ∧ uvm_wf kend (mm_bytes s') pgdir l
  ∧ (∀ va', pte_at (mm_bytes s') pgdir va' = pte_at (mm_bytes s) pgdir va')
  ∧ ∀ va', user_va va' → user_byte (mm_bytes s') pgdir va'
      = if decide (va <= va' < va + Z.of_nat (length part)) then part !! Z.to_nat (va' - va)
        else user_byte (mm_bytes s) pgdir va'.
Proof using kend_high kend_ge.
  intros Hk Hu Hva [Ho Hus] Hlen. set (p := frame_of (pte_at (mm_bytes s) pgdir va)). intros s'.
  destruct (um_frame _ _ _ _ Hu va Hva Ho) as (F1 & F2 & F3 & F4). fold p in F1, F2, F3, F4.
  pose proof (Z.mod_pos_bound va PGSIZE ltac:(done)).
  destruct (away_write kend kend_high s (mm_bytes s') pgdir l p Hk Hu F1 F2 (conj F3 F4)) as (W1 & W2 & _ & Hp).
  { intros x Hx. cbn. rewrite store_bytes_spec, decide_False; [done|]. unfold in_page in Hx. lia. }
  split_and!; [done|done|done|]. intros va' Hva'.
  assert (accessible (mm_bytes s') pgdir va' ↔ accessible (mm_bytes s) pgdir va') as Hacc
    by (unfold accessible; by rewrite Hp).
  destruct (decide (va' / PGSIZE = va / PGSIZE)) as [Hpg|Hpg].
  - assert (pte_at (mm_bytes s) pgdir va' = pte_at (mm_bytes s) pgdir va) as He by (by apply pte_at_page).
    assert (accessible (mm_bytes s) pgdir va') as Ha by (unfold accessible; by rewrite He).
    rewrite !user_byte_accessible by (done || by apply Hacc). rewrite Hp, He. fold p. cbn.
    rewrite store_bytes_spec.
    assert (va' mod PGSIZE - va mod PGSIZE = va' - va) as Hd by (unfold PGSIZE in *; divlia).
    repeat case_decide; try lia; [|done].
    replace (p + va' mod PGSIZE - (p + va mod PGSIZE)) with (va' - va) by lia.
    destruct (lookup_lt_is_Some_2 part (Z.to_nat (va' - va))) as [b ->]; [lia|]. done.
  - rewrite decide_False by (unfold PGSIZE in *; divlia).
    unfold user_byte. rewrite Hp. destruct (Z.odd (pte_at (mm_bytes s) pgdir va')) eqn:Eo; [|done]. cbn [andb].
    destruct (has _ _); [|done]. f_equal. cbn. rewrite store_bytes_spec, decide_False; [done|].
    intros Hc. apply Hpg, (um_inj _ _ _ _ Hu); try done. fold p.
    destruct (um_frame _ _ _ _ Hu va' Hva' Eo) as (G1 & _).
    pose proof (offset_in_page (frame_of (pte_at (mm_bytes s) pgdir va')) va') as Hin.
    eapply (pages_disjoint kend); [done|done|exact Hin|]. unfold in_page. lia.
Qed.

Lemma copyout_loop_spec fuel s l pgdir va buf :
  kmem_wf kend s l → uvm_wf kend (mm_bytes s) pgdir l →
  (length buf ≤ fuel)%nat → (buf ≠ [] → 0 <= va ∧ va + Z.of_nat (length buf) <= KERNBASE) →
  (∀ va', va <= va' < va + Z.of_nat (length buf) → accessible (mm_bytes s) pgdir va') →
  ∃ s', copyout_loop fuel pgdir va buf s = Ret 0 s' ∧ kmem_wf kend s' l ∧ uvm_wf kend (mm_bytes s') pgdir l
    ∧ (∀ va', pte_at (mm_bytes s') pgdir va' = pte_at (mm_bytes s) pgdir va')
    ∧ ∀ va', user_va va' → user_byte (mm_bytes s') pgdir va'
        = if decide (va <= va' < va + Z.of_nat (length buf)) then buf !! Z.to_nat (va' - va)
          else user_byte (mm_bytes s) pgdir va'.
Proof using kend_high kend_ge.
  revert s va buf. induction fuel as [|fuel IH]; intros s va buf Hk Hu Hf Hr Hacc.
  all: destruct buf as [|b0 buf0] eqn:Eb;
    [exists s; split_and!; try done; intros va' _; cbn [length]; by rewrite decide_False by lia|].
  { cbn in Hf. lia. }
  rewrite <-Eb in *. assert (0 < length buf)%nat as Hlen by (rewrite Eb; cbn; lia).
  destruct (Hr ltac:(by rewrite Eb)) as [Hr0 Hr1].
  assert (copyout_loop (S fuel) pgdir va buf = let va0 := PGROUNDDOWN va in
    pa0 ← uva2ka pgdir va0; if pa0 =? 0 then mret (-1) else
    let n := Z.min (PGSIZE - (va - va0)) (Z.of_nat (length buf)) in
    on_bytes (λ m, store_bytes m (pa0 + (va - va0)) (take (Z.to_nat n) buf));;
    copyout_loop fuel pgdir (u32 (va0 + PGSIZE)) (drop (Z.to_nat n) buf)) as ->
    by (rewrite Eb; reflexivity).
  cbv zeta. clear Eb b0 buf0. rewrite PGROUNDDOWN_eq. set (va0 := va / PGSIZE * PGSIZE).
  set (n := Z.min _ _). assert (0 < PGSIZE) as HPG by done.
  assert (va0 = va - va mod PGSIZE) as Hva0 by (unfold va0, PGSIZE; divlia).
  pose proof (Z.mod_pos_bound va PGSIZE HPG) as Hmod.
  assert (va0 / PGSIZE = va / PGSIZE) as Hpg by (unfold va0, PGSIZE; divlia).
  assert (accessible (mm_bytes s) pgdir va) as Ha by (apply Hacc; lia).
  assert (pte_at (mm_bytes s) pgdir va0 = pte_at (mm_bytes s) pgdir va) as He by (by apply pte_at_page).
  assert (accessible (mm_bytes s) pgdir va0) as Ha0 by (unfold accessible; by rewrite He).
  assert (user_va va) as Hva by (unfold user_va; lia).
  rewrite (bind_ret _ _ _ _ _ (uva2ka_accessible s pgdir va0 l Hu Ha0)), He.
  destruct (um_frame _ _ _ _ Hu va Hva (proj1 Ha)) as ([_ Hfr] & _).
  set (p := frame_of _) in *. destruct (Z.eqb_spec p 0); [unfold KERNBASE in *; lia|].
  replace (p + (va - va0)) with (p + va mod PGSIZE) by lia.
  unfold on_bytes. erewrite bind_ret by reflexivity.
  assert (Z.of_nat (length (take (Z.to_nat n) buf)) = n) as Hn by (rewrite length_take; lia).
  destruct (store_user s l pgdir va (take (Z.to_nat n) buf) Hk Hu Hva Ha) as (K1 & U1 & P1 & B1); [lia|].
  fold p in K1, U1, P1, B1. set (s1 := set_mm_bytes _ s) in *. rewrite Hn in B1.
  assert (drop (Z.to_nat n) buf ≠ [] → va0 + PGSIZE = va + n) as Hnext.
  { intros Hne. destruct (decide (n = Z.of_nat (length buf))) as [Hc|Hc].
    - by rewrite drop_ge in Hne by lia.
    - lia. }
  assert (va0 + PGSIZE <= 2 ^ 31 + PGSIZE) as Hb by (unfold KERNBASE in *; lia).
  rewrite (u32_id (va0 + PGSIZE)) by (unfold is_u32, PGSIZE in *; lia).
  destruct (IH s1 (va0 + PGSIZE) (drop (Z.to_nat n) buf)) as (s2 & E2 & K2 & U2 & P2 & B2); [done|done| | | |].
  - rewrite length_drop. lia.
  - intros Hne. specialize (Hnext Hne). rewrite length_drop. lia.
  - intros va'. rewrite length_drop. intros Hin. unfold accessible. rewrite P1. apply Hacc.
    assert (va0 + PGSIZE = va + n); [|lia]. apply Hnext. intros Hd.
    apply (f_equal length) in Hd. rewrite length_drop in Hd. cbn in Hd. lia.
  - exists s2. split_and!; [done|done|done|by intros; rewrite P2|]. intros va' Hva'.
    rewrite B2, B1, length_drop by done.
    destruct (decide (drop (Z.to_nat n) buf = [])) as [Hd|Hd].
    + apply (f_equal length) in Hd as Hl. rewrite length_drop in Hl. cbn in Hl.
      rewrite take_ge by lia. repeat case_decide; try lia; done.
    + specialize (Hnext Hd). repeat case_decide; try lia; try done.
      * rewrite lookup_drop. f_equal. lia.
      * apply lookup_take_lt. lia.
Qed.
End grow.
