(* ===== verification/VmThms.v ===== *)
(** * Virtual memory: what the page table operations guarantee *)
From S2P Require Import Prelude Params Str Kalloc KallocInv Vm VmInv VmUser VmGrow.

Section theorems.
Context (kend : Z) (kend_high : KERNBASE < kend).
Let kend_ge : KERNBASE <= kend := Z.lt_le_incl _ _ kend_high.
Implicit Types (s : memory) (pgdir va : Z) (l : list Z).

(** [mappages] maps exactly the pages asked for.  On a well-formed page table,
    for [n + 1] pages none of which is mapped, it returns 0 with every page mapped to
    the corresponding physical page with the permissions and PTE_P; or, when there
    is no page left for a page table, -1 with a part of the pages mapped.  No other
    mapping changes, the page table stays well-formed (new tables come from the free
    list and are not shared) and memory outside the page table is untouched. *)
Theorem mappages_correct s l pgdir va (n : nat) pa perm :
  kmem_wf kend s l → pt_wf kend (mm_bytes s) pgdir l →
  va mod PGSIZE = 0 → 0 <= va → va + Z.of_nat (S n) * PGSIZE <= 2 ^ 32 →
  pa mod PGSIZE = 0 → 0 <= pa → pa + Z.of_nat (S n) * PGSIZE <= 2 ^ 32 → 0 <= perm < PGSIZE →
  (∀ k : nat, (k ≤ n)%nat → mapped_page (mm_bytes s) pgdir (va + Z.of_nat k * PGSIZE) = false) →
  ∃ r s' l' (j : nat), mappages pgdir va (Z.of_nat (S n) * PGSIZE) pa perm s = Ret r s'
    ∧ pt_step kend s l pgdir s' l'
    ∧ ((r = 0 ∧ j = S n) ∨ (r = -1 ∧ (j ≤ n)%nat ∧ l' = []))
    ∧ ∀ va', is_u32 va' → pte_at (mm_bytes s') pgdir va'
        = let k := va' / PGSIZE - va / PGSIZE in
          if decide (0 <= k < Z.of_nat j) then pa + k * PGSIZE + Z.lor perm PTE_P
          else pte_at (mm_bytes s) pgdir va'.
Proof using kend_high kend_ge.
  intros Hk Hw Hal Hva Hva32 Hpal Hpa Hpa32 Hperm Hno. unfold mappages. rewrite !PGROUNDDOWN_eq.
  assert (va / PGSIZE * PGSIZE = va) as -> by (unfold PGSIZE in *; divlia).
  rewrite (u32_id (va + _ - 1)) by (unfold is_u32, PGSIZE in *; lia).
  assert ((va + Z.of_nat (S n) * PGSIZE - 1) / PGSIZE * PGSIZE = va + Z.of_nat n * PGSIZE) as ->
    by (unfold PGSIZE in *; divlia).
  rewrite (u32_id (_ - va)) by (unfold is_u32, PGSIZE in *; lia).
  apply (mappages_loop_spec kend kend_ge _ s l pgdir va _ pa perm n); try done; try lia.
  assert ((va + Z.of_nat n * PGSIZE - va) / PGSIZE = Z.of_nat n) as -> by (unfold PGSIZE; divlia). lia.
Qed.

(** C10: [allocuvm] grows an address space entirely or not at all.  From a size
    [oldsz] to [newsz] below KERNBASE it returns [newsz] with every page of the new
    part accessible, writable and zero, or 0 with no page of the new part mapped; in
    both cases every other mapping and all memory of the process are as before and no
    physical page is shared between two user pages, with the page table or with the
    free list.  No page is lost: a page that was free is free again, or is a page table
    of the process (those are kept on failure too), or, on success, holds a page of the
    new part. *)
Theorem allocuvm_all_or_nothing s l pgdir oldsz newsz :
  kmem_wf kend s l → uvm_wf kend (mm_bytes s) pgdir l → 0 <= oldsz <= newsz → newsz < KERNBASE →
  (∀ va, user_va va → page_in (PGROUNDUP oldsz) newsz va → mapped_page (mm_bytes s) pgdir va = false) →
  ∃ r s' l', allocuvm kend pgdir oldsz newsz s = Ret r s' ∧ kmem_wf kend s' l'
    ∧ uvm_wf kend (mm_bytes s') pgdir l'
    ∧ (∀ va, user_va va → ¬ page_in (PGROUNDUP oldsz) newsz va →
         pte_at (mm_bytes s') pgdir va = pte_at (mm_bytes s) pgdir va
         ∧ user_byte (mm_bytes s') pgdir va = user_byte (mm_bytes s) pgdir va)
    ∧ (∀ p, p ∈ l → p ∈ l'
         ∨ (∃ i, 0 <= i < 1024 ∧ table (mm_bytes s') pgdir i = Some p)
         ∨ (r = newsz ∧ ∃ va, user_va va ∧ page_in (PGROUNDUP oldsz) newsz va
              ∧ frame_of (pte_at (mm_bytes s') pgdir va) = p))
    ∧ ((r = newsz ∧ ∀ va, user_va va → page_in (PGROUNDUP oldsz) newsz va →
          fresh_page (mm_bytes s') pgdir va)
       ∨ (r = 0 ∧ ∀ va, user_va va → page_in (PGROUNDUP oldsz) newsz va →
            mapped_page (mm_bytes s') pgdir va = false)).
Proof using kend_high kend_ge.
  intros Hk Hu Ho Hn Hno. unfold allocuvm. destruct (Z.leb_spec KERNBASE newsz); [lia|].
  destruct (Z.ltb_spec newsz oldsz); [lia|].
  assert (PGROUNDUP oldsz = (oldsz + PGSIZE - 1) / PGSIZE * PGSIZE) as Hr.
  { apply PGROUNDUP_eq. unfold KERNBASE, PGSIZE in *. lia. }
  destruct (allocuvm_loop_spec kend kend_high (Z.to_nat ((newsz - PGROUNDUP oldsz) / PGSIZE + 1))
    s l pgdir (PGROUNDUP oldsz) oldsz newsz) as (r & s' & l' & E & Hk' & Hu' & W & Hc); try done; try lia.
  { rewrite Hr. unfold PGSIZE. divlia. }
  { rewrite Hr. unfold PGSIZE. divlia. }
  assert (agree s s' pgdir (PGROUNDUP oldsz) newsz) as A by (destruct Hc as [(_ & A & _)|(_ & A & _)]; done).
  exists r, s', l'. split_and!; [done..| | |].
  - intros va Hva Hnot. split; [by apply (ag_pte _ _ _ _ _ A); [apply user_u32|]|by eapply agree_user_byte].
  - intros p Hp. destruct (W p (or_introl Hp)) as [?|[?|(va & Hva & Hm & Hfr)]]; [by left|by right; left|].
    right. right. destruct (decide (page_in (PGROUNDUP oldsz) newsz va)) as [Hin|Hin].
    + destruct Hc as [(-> & _)|(_ & _ & G)]; [|by rewrite G in Hm]. split; [done|]. by exists va.
    + exfalso. rewrite (agree_mapped _ _ _ _ _ _ A Hva Hin) in Hm.
      rewrite (ag_pte _ _ _ _ _ A va (user_u32 va Hva) Hin) in Hfr.
      destruct (um_frame _ _ _ _ Hu va Hva Hm) as (_ & Hnl & _). by rewrite Hfr in Hnl.
  - destruct Hc as [(-> & _ & F)|(-> & _ & G)]; [by left|by right].
Qed.

(** C35: [copyout] stores the bytes in user memory.  When every address of the
    destination lies below KERNBASE in a page that is present and accessible to the
    user, it returns 0, the user finds the bytes there, page boundaries included, and
    no other byte of the process's memory and no mapping changes. *)
Theorem copyout_writes s l pgdir va buf :
  kmem_wf kend s l → uvm_wf kend (mm_bytes s) pgdir l →
  0 <= va → va + Z.of_nat (length buf) <= KERNBASE →
  (∀ va', va <= va' < va + Z.of_nat (length buf) → accessible (mm_bytes s) pgdir va') →
  ∃ s', copyout pgdir va buf s = Ret 0 s' ∧ kmem_wf kend s' l ∧ uvm_wf kend (mm_bytes s') pgdir l
    ∧ (∀ va', pte_at (mm_bytes s') pgdir va' = pte_at (mm_bytes s) pgdir va')
    ∧ ∀ va', user_va va' → user_byte (mm_bytes s') pgdir va'
        = if decide (va <= va' < va + Z.of_nat (length buf)) then buf !! Z.to_nat (va' - va)
          else user_byte (mm_bytes s) pgdir va'.
Proof using kend_high kend_ge.
  intros Hk Hu Hva Hend Hacc. by apply (copyout_loop_spec kend kend_high).
Qed.

(** [copyout] to an address in a region without page table does not return an
    error: [uva2ka] reads the entry through the null pointer [walkpgdir] returns. *)
Theorem copyout_unmapped_faults s pgdir va b buf :
  table (mm_bytes s) pgdir (PDX va) = None →
  copyout pgdir va (b :: buf) s = Fault.
Proof using Type.
  intros Hn. unfold copyout. cbn [length copyout_loop]. apply bind_fault. unfold uva2ka.
  rewrite (bind_ret _ _ _ _ _ (walk_read s pgdir _)).
  assert (PDX (PGROUNDDOWN va) = PDX va) as ->.
  { rewrite PGROUNDDOWN_eq. apply (index_page (va / PGSIZE * PGSIZE) va). unfold PGSIZE. divlia. }
  by rewrite Hn.
Qed.
End theorems.

(** ** Witnesses: four free pages and an empty page directory *)
Module Machine.
Definition base : Z := KERNBASE + EXTMEM.
Definition page (i : Z) : Z := base + i * PGSIZE.
Definition pgdir : Z := page 4.
Definition blank : memory := mkmemory false true 0 (λ _, 0) 0 0 0.
Definition free_pages : list Z := [page 3; page 2; page 1; page 0].
Definition state : memory :=
  freed_page (freed_page (freed_page (freed_page blank (page 0)) (page 1)) (page 2)) (page 3).

Lemma base_high : KERNBASE < base.
Proof. done. Qed.

Lemma page_ok_small i : 0 <= i < 10 → page_ok base (page i).
Proof.
  intros Hi. unfold page_ok, page, base, KERNBASE, EXTMEM, PHYSTOP, PGSIZE. split; [divlia|lia].
Qed.

Lemma state_kmem : kmem_wf base state free_pages.
Proof.
  assert (KERNBASE <= base) as Hb by (pose proof base_high; lia).
  assert (∀ s l i, kmem_wf base s l → 0 <= i < 10 → page i ∉ l →
    kmem_wf base (freed_page s (page i)) (page i :: l)) as Hstep.
  { intros s l i Hw Hi Hn. apply (kfree_spec base Hb s l); [done|by apply page_ok_small|done]. }
  assert (kmem_wf base blank []) as H0 by (split; try done; constructor).
  unfold state, free_pages. repeat apply Hstep; try lia; try done;
    by apply (bool_decide_eq_true_1 (_ ∉ _)); vm_compute.
Qed.

Lemma state_dir x : in_page pgdir x → mm_bytes state x = 0.
Proof.
  intros Hx. assert (KERNBASE <= base) as Hb by (pose proof base_high; lia).
  assert (∀ i, 0 <= i < 4 → ¬ in_page (page i) x) as Hn.
  { intros i Hi Hc. unfold in_page, pgdir, page, PGSIZE in *. lia. }
  unfold state. rewrite !freed_page_frame by (apply Hn; lia). done.
Qed.

Lemma state_table i : 0 <= i < 1024 → table (mm_bytes state) pgdir i = None.
Proof.
  intros Hi. unfold table. rewrite (load_word_ext _ (λ _, 0)); [done|].
  intros x Hx. apply state_dir. by eapply entry_in_page.
Qed.

Lemma state_unmapped va : mapped_page (mm_bytes state) pgdir va = false.
Proof. unfold mapped_page, pte_at. by rewrite state_table by apply PDX_bound. Qed.

Lemma state_uvm : uvm_wf base (mm_bytes state) pgdir free_pages.
Proof.
  split; [split|..].
  - by apply page_ok_small.
  - by apply (bool_decide_eq_true_1 (_ ∉ _)); vm_compute.
  - intros i t Hi. by rewrite state_table.
  - intros i j t Hi _. by rewrite state_table.
  - intros va _. by rewrite state_unmapped.
  - intros va va' _ _. by rewrite state_unmapped.
Qed.

(** The process after it has grown to 5000 bytes. *)
Definition grown : memory :=
  match allocuvm base pgdir 0 5000 state with Ret _ s => s | _ => state end.

Lemma grown_result : match allocuvm base pgdir 0 5000 state with Ret r _ => r | _ => -1 end = 5000.
Proof. vm_compute. reflexivity. Qed.

Lemma allocuvm_5000 k p m : allocuvm k p 0 5000 m = allocuvm_loop k 2 p 0 0 5000 m.
Proof. reflexivity. Qed.

Lemma grown_ok : ∃ l, kmem_wf base grown l ∧ uvm_wf base (mm_bytes grown) pgdir l
  ∧ ∀ va, 0 <= va < 8192 → fresh_page (mm_bytes grown) pgdir va.
Proof.
  assert (PGROUNDUP 0 = 0) as H0 by done.
  destruct (allocuvm_loop_spec base base_high 2 state free_pages pgdir 0 0 5000)
    as (r & s' & l' & E & Hk & Hu & _ & Hc);
    [exact state_kmem|exact state_uvm|done|lia|rewrite H0; lia|done|by vm_compute|intros; apply state_unmapped|].
  pose proof grown_result as Hr. unfold grown. rewrite <-allocuvm_5000 in E.
  rewrite E in *. subst r. exists l'. split_and!; [done|done|]. intros va Hva.
  destruct Hc as [(_ & _ & F)|(? & _)]; [|done]. apply F; [unfold user_va, KERNBASE; lia|].
  unfold page_in, PGSIZE. divlia.
Qed.
End Machine.

Lemma mappages_correct_witness :
  ∃ r s' l' (j : nat), mappages Machine.pgdir 8192 (Z.of_nat 2 * PGSIZE) 4096 PTE_W Machine.state = Ret r s'
    ∧ pt_step Machine.base Machine.state Machine.free_pages Machine.pgdir s' l'
    ∧ ((r = 0 ∧ j = 2%nat) ∨ (r = -1 ∧ (j ≤ 1)%nat ∧ l' = []))
    ∧ ∀ va', is_u32 va' → pte_at (mm_bytes s') Machine.pgdir va'
        = let k := va' / PGSIZE - 8192 / PGSIZE in
          if decide (0 <= k < Z.of_nat j) then 4096 + k * PGSIZE + Z.lor PTE_W PTE_P
          else pte_at (mm_bytes Machine.state) Machine.pgdir va'.
Proof.
  apply (mappages_correct Machine.base Machine.base_high Machine.state Machine.free_pages Machine.pgdir 8192 1);
    [exact Machine.state_kmem|exact (um_pt _ _ _ _ Machine.state_uvm)|reflexivity|lia
    |unfold PGSIZE; lia|reflexivity|lia|unfold PGSIZE; lia|unfold PTE_W, PGSIZE; lia
    |intros; apply Machine.state_unmapped].
Defined.

Lemma allocuvm_all_or_nothing_witness :
  ∃ r s' l', allocuvm Machine.base Machine.pgdir 0 5000 Machine.state = Ret r s' ∧ kmem_wf Machine.base s' l'
    ∧ uvm_wf Machine.base (mm_bytes s') Machine.pgdir l'
    ∧ (∀ va, user_va va → ¬ page_in (PGROUNDUP 0) 5000 va →
         pte_at (mm_bytes s') Machine.pgdir va = pte_at (mm_bytes Machine.state) Machine.pgdir va
         ∧ user_byte (mm_bytes s') Machine.pgdir va = user_byte (mm_bytes Machine.state) Machine.pgdir va)
    ∧ (∀ p, p ∈ Machine.free_pages → p ∈ l'
         ∨ (∃ i, 0 <= i < 1024 ∧ table (mm_bytes s') Machine.pgdir i = Some p)
         ∨ (r = 5000 ∧ ∃ va, user_va va ∧ page_in (PGROUNDUP 0) 5000 va
              ∧ frame_of (pte_at (mm_bytes s') Machine.pgdir va) = p))
    ∧ ((r = 5000 ∧ ∀ va, user_va va → page_in (PGROUNDUP 0) 5000 va →
          fresh_page (mm_bytes s') Machine.pgdir va)
       ∨ (r = 0 ∧ ∀ va, user_va va → page_in (PGROUNDUP 0) 5000 va →
            mapped_page (mm_bytes s') Machine.pgdir va = false)).
Proof.
  apply (allocuvm_all_or_nothing Machine.base Machine.base_high Machine.state Machine.free_pages Machine.pgdir 0 5000);
    [exact Machine.state_kmem|exact Machine.state_uvm|lia|reflexivity|intros; apply Machine.state_unmapped].
Defined.

Lemma copyout_writes_witness :
  ∃ l s', copyout Machine.pgdir 4095 [7; 8] Machine.grown = Ret 0 s' ∧ kmem_wf Machine.base s' l
    ∧ uvm_wf Machine.base (mm_bytes s') Machine.pgdir l
    ∧ (∀ va', pte_at (mm_bytes s') Machine.pgdir va' = pte_at (mm_bytes Machine.grown) Machine.pgdir va')
    ∧ ∀ va', user_va va' → user_byte (mm_bytes s') Machine.pgdir va'
        = if decide (4095 <= va' < 4095 + 2) then [7; 8] !! Z.to_nat (va' - 4095)
          else user_byte (mm_bytes Machine.grown) Machine.pgdir va'.
Proof.
  destruct Machine.grown_ok as (l & Hk & Hu & Hf). exists l.
  apply (copyout_writes Machine.base Machine.base_high Machine.grown l Machine.pgdir 4095 [7; 8]);
    [exact Hk|exact Hu|lia|cbn; unfold KERNBASE; lia|].
  intros va' Hva. apply fresh_accessible, Hf. cbn in Hva. lia.
Defined.

Lemma copyout_unmapped_faults_witness : copyout Machine.pgdir 8192 [7] Machine.state = Fault.
Proof.
  apply (copyout_unmapped_faults Machine.state Machine.pgdir 8192 7 []).
  apply Machine.state_table, PDX_bound.
Defined.
