(* ===== verification/Pipe.v ===== *)
(** * Pipes (pipe.c)

    The ring buffer and its two ends.  A process that sleeps in [pipewrite] or
    [piperead] takes up at the head of the inner loop with the bytes it has not
    handled yet: [Blocked] carries them.  [killed] is [myproc()->killed] at the time
    the code looks at it.  [pipealloc], which also allocates the two files, is in
    [File]. *)
From S2P Require Import Prelude.

Definition PIPESIZE : Z := 512.

(** [struct pipe], and the calls of [wakeup] made. *)
Record pipe := mkpipe {
  p_lock : bool;
  p_data : list Z;   (* PIPESIZE bytes *)
  p_nread : Z;       (* uint *)
  p_nwrite : Z;      (* uint *)
  p_readopen : bool;
  p_writeopen : bool;
  p_wakeups : list chan
}.

Definition set_p_lock (v : bool) (p : pipe) : pipe :=
  mkpipe v (p_data p) (p_nread p) (p_nwrite p) (p_readopen p) (p_writeopen p) (p_wakeups p).
Definition set_p_data (v : list Z) (p : pipe) : pipe :=
  mkpipe (p_lock p) v (p_nread p) (p_nwrite p) (p_readopen p) (p_writeopen p) (p_wakeups p).
Definition set_p_nread (v : Z) (p : pipe) : pipe :=
  mkpipe (p_lock p) (p_data p) v (p_nwrite p) (p_readopen p) (p_writeopen p) (p_wakeups p).
Definition set_p_nwrite (v : Z) (p : pipe) : pipe :=
  mkpipe (p_lock p) (p_data p) (p_nread p) v (p_readopen p) (p_writeopen p) (p_wakeups p).
Definition set_p_readopen (v : bool) (p : pipe) : pipe :=
  mkpipe (p_lock p) (p_data p) (p_nread p) (p_nwrite p) v (p_writeopen p) (p_wakeups p).
Definition set_p_writeopen (v : bool) (p : pipe) : pipe :=
  mkpipe (p_lock p) (p_data p) (p_nread p) (p_nwrite p) (p_readopen p) v (p_wakeups p).
Definition set_p_wakeups (v : list chan) (p : pipe) : pipe :=
  mkpipe (p_lock p) (p_data p) (p_nread p) (p_nwrite p) (p_readopen p) (p_writeopen p) v.

(** The call returned, or put the process to sleep with the rest of its work. *)
Inductive progress (A : Type) :=
| Finished (a : A)
| Blocked (c : chan) (rest : list Z).
Arguments Finished {A} a.
Arguments Blocked {A} c rest.

Definition acquire_pipe : M pipe unit := λ p,
  if p_lock p then Panic "acquire" else Ret tt (set_p_lock true p).
Definition release_pipe : M pipe unit := λ p,
  if p_lock p then Ret tt (set_p_lock false p) else Panic "release".
Definition wakeup_pipe (c : chan) : M pipe unit :=
  modify (λ p, set_p_wakeups (p_wakeups p ++ [c]) p).

(** [id] names the pipe in its two sleep channels, [&p->nread] and [&p->nwrite]. *)
Section pipe.
Context (id : nat).

(** The content a pipe has after [pipealloc] has initialised it; [d] is what was in
    the page. *)
Definition new_pipe (d : list Z) : pipe := mkpipe false d 0 0 true true [].

(** The result is whether the pipe is to be freed. *)
Definition pipeclose (writable : bool) : M pipe bool :=
  acquire_pipe;;
  (if writable then
     modify (set_p_writeopen false);; wakeup_pipe (ChPipeRead id)
   else
     modify (set_p_readopen false);; wakeup_pipe (ChPipeWrite id));;
  p ← get;
  release_pipe;;
  mret (negb (p_readopen p) && negb (p_writeopen p)).

Definition full (p : pipe) : bool := p_nwrite p =? u32 (p_nread p + PIPESIZE).
Definition empty (p : pipe) : bool := p_nread p =? p_nwrite p.

(** [p->data[p->nwrite++ % PIPESIZE] = b] and [p->data[p->nread++ % PIPESIZE]] *)
Definition put_byte (b : Z) : M pipe unit :=
  modify (λ p, set_p_nwrite (u32 (p_nwrite p + 1))
    (set_p_data (<[Z.to_nat (p_nwrite p mod PIPESIZE) := b]> (p_data p)) p)).
Definition take_byte : M pipe Z :=
  p ← get;
  modify (set_p_nread (u32 (p_nread p + 1)));;
  deref (p_data p !! Z.to_nat (p_nread p mod PIPESIZE)).

(** The loops of [pipewrite] over the bytes left; [n] is the number asked for. *)
Fixpoint pipewrite_loop (killed : bool) (n : Z) (addr : list Z) : M pipe (progress Z) :=
  match addr with
  | [] =>
      wakeup_pipe (ChPipeRead id);;
      release_pipe;;
      mret (Finished n)
  | b :: addr' =>
      p ← get;
      if full p then
        if negb (p_readopen p) || killed then release_pipe;; mret (Finished (-1)) else
        wakeup_pipe (ChPipeRead id);;
        release_pipe;;  (* in sleep *)
        mret (Blocked (ChPipeWrite id) addr)
      else
        put_byte b;;
        pipewrite_loop killed n addr'
  end.

(** [pipewrite(p, addr, n)]; a writer that has slept continues with what is left. *)
Definition pipewrite (killed : bool) (n : Z) (addr : list Z) : M pipe (progress Z) :=
  acquire_pipe;;
  pipewrite_loop killed n addr.

Fixpoint piperead_copy (n : nat) : M pipe (list Z) :=
  match n with
  | O => mret []
  | S n' =>
      p ← get;
      if empty p then mret [] else
      b ← take_byte;
      rest ← piperead_copy n';
      mret (b :: rest)
  end.

(** The bytes stored at [addr], [None] for the result -1. *)
Definition piperead (killed : bool) (n : Z) : M pipe (progress (option (list Z))) :=
  acquire_pipe;;
  p ← get;
  if empty p && p_writeopen p then
    if killed then release_pipe;; mret (Finished None) else
    release_pipe;;  (* in sleep *)
    mret (Blocked (ChPipeRead id) [])
  else
  bytes ← piperead_copy (Z.to_nat n);
  wakeup_pipe (ChPipeWrite id);;
  release_pipe;;
  mret (Finished (Some bytes)).
End pipe.

(** ** The abstract queue

    A pipe is a queue of at most PIPESIZE bytes. *)
Section queue.
Context (id : nat).
Implicit Types (p : pipe) (q : list Z).

Record pipe_rep p q : Prop := {
  pr_data : length (p_data p) = Z.to_nat PIPESIZE;
  pr_read : is_u32 (p_nread p);
  pr_cap : Z.of_nat (length q) <= PIPESIZE;
  pr_write : p_nwrite p = u32 (p_nread p + Z.of_nat (length q));
  pr_bytes : ∀ i : nat, (i < length q)%nat →
    p_data p !! Z.to_nat ((p_nread p + Z.of_nat i) mod PIPESIZE) = q !! i;
}.

(** Same ends, lock taken. *)
Definition same_ends p p' : Prop :=
  p_readopen p' = p_readopen p ∧ p_writeopen p' = p_writeopen p.

Lemma slot_wrap z : u32 z mod PIPESIZE = z mod PIPESIZE.
Proof. apply u32_mod_divisor; [done|]. by exists (2 ^ 23). Qed.

Lemma rep_full p q : pipe_rep p q → full p = bool_decide (Z.of_nat (length q) = PIPESIZE).
Proof.
  intros [R1 R2 R3 R4 R5]. unfold full. rewrite R4. apply Bool.eq_iff_eq_true.
  rewrite Z.eqb_eq, bool_decide_eq_true. split; [|by intros ->].
  unfold u32, is_u32, PIPESIZE in *. intros H. divlia.
Qed.

Lemma rep_empty p q : pipe_rep p q → empty p = bool_decide (q = []).
Proof.
  intros [R1 R2 R3 R4 R5]. unfold empty. rewrite R4. apply Bool.eq_iff_eq_true.
  rewrite Z.eqb_eq, bool_decide_eq_true, <-length_zero_iff_nil.
  unfold u32, is_u32, PIPESIZE in *. split; intros H; [|rewrite H; change (Z.of_nat 0) with 0]; divlia.
Qed.

Lemma put_byte_rep p q b p' :
  pipe_rep p q → (Z.of_nat (length q) < PIPESIZE) → put_byte b p = Ret tt p' → pipe_rep p' (q ++ [b]).
Proof.
  intros [R1 R2 R3 R4 R5] Hlt [= <-]. split; cbn.
  - by rewrite length_insert.
  - done.
  - rewrite length_app. cbn. lia.
  - rewrite R4, u32_add_l, length_app. cbn. f_equal. lia.
  - intros i Hi. rewrite length_app in Hi. cbn in Hi. rewrite R4, slot_wrap.
    destruct (decide (i = length q)) as [->|Hne].
    + rewrite list_lookup_insert_eq; [by rewrite lookup_app_r, Nat.sub_diag by lia|].
      rewrite R1. unfold PIPESIZE. pose proof (Z.mod_pos_bound (p_nread p + Z.of_nat (length q)) 512). lia.
    + rewrite lookup_app_l by lia. rewrite list_lookup_insert_ne; [apply R5; lia|].
      unfold PIPESIZE in *. divlia.
Qed.

Lemma take_byte_rep p b q :
  pipe_rep p (b :: q) → ∃ p', take_byte p = Ret b p' ∧ pipe_rep p' q ∧ same_ends p p'
    ∧ p_lock p' = p_lock p ∧ p_wakeups p' = p_wakeups p.
Proof.
  intros [R1 R2 R3 R4 R5]. unfold take_byte. pose proof (R5 0%nat ltac:(cbn; lia)) as H0.
  rewrite Z.add_0_r in H0. change ((b :: q) !! 0%nat) with (Some b) in H0.
  eexists. split; [munfold; by rewrite H0|]. split; [|done].
  cbn [length] in R3, R4, R5.
  split; cbn [p_data p_nread p_nwrite set_p_nread]; [done|apply u32_range|lia| |].
  - rewrite u32_add_l, R4. f_equal. lia.
  - intros i Hi. specialize (R5 (S i) ltac:(lia)). etrans; [|exact R5]. f_equal. f_equal.
    rewrite <-slot_wrap, u32_add_l, slot_wrap. f_equal. lia.
Qed.

(** The channels a call of [pipewrite] wakes when [k] bytes of [addr] fit. *)
Definition write_wakes (killed ropen : bool) (k : nat) (addr : list Z) : list chan :=
  if decide (k = length addr) then [ChPipeRead id]
  else if negb ropen || killed then [] else [ChPipeRead id].

Lemma pipewrite_loop_spec killed n addr p q :
  pipe_rep p q → p_lock p = true →
  let k := Nat.min (length addr) (Z.to_nat PIPESIZE - length q) in
  ∃ r p', pipewrite_loop id killed n addr p = Ret r p' ∧ pipe_rep p' (q ++ take k addr)
    ∧ same_ends p p' ∧ p_lock p' = false
    ∧ r = (if decide (k = length addr) then Finished n
           else if negb (p_readopen p) || killed then Finished (-1)
           else Blocked (ChPipeWrite id) (drop k addr))
    ∧ p_wakeups p' = p_wakeups p ++ write_wakes killed (p_readopen p) k addr.
Proof.
  revert p q. induction addr as [|b addr IH]; intros p q Hr Hl k.
  - unfold k. cbn [length Nat.min take]. rewrite app_nil_r. cbn [pipewrite_loop].
    eexists _, _. split; [munfold; unfold wakeup_pipe, release_pipe; cbn; munfold; cbn; by rewrite Hl|].
    split; [by destruct Hr; split|]. unfold write_wakes. by rewrite !decide_True.
  - cbn [pipewrite_loop]. unfold get at 1. erewrite bind_ret by reflexivity.
    rewrite (rep_full p q Hr). pose proof (pr_cap p q Hr) as Hc.
    case_bool_decide as Hf.
    + assert (k = 0)%nat as Hk by (unfold k; lia). rewrite Hk. cbn [take drop]. rewrite app_nil_r.
      unfold write_wakes. rewrite !decide_False by done. destruct (negb (p_readopen p) || killed).
      * eexists _, _. split; [munfold; unfold release_pipe; by rewrite Hl|].
        cbn. rewrite app_nil_r. by destruct Hr; split_and!; [split|..].
      * eexists _, _. split; [munfold; unfold wakeup_pipe, release_pipe; munfold; cbn; by rewrite Hl|].
        by destruct Hr; split_and!; [split|..].
    + assert (Z.of_nat (length q) < PIPESIZE) as Hlt by lia.
      edestruct (put_byte b p) as [[] p1| | |] eqn:Eb; try done.
      rewrite (bind_ret _ _ _ _ _ Eb). pose proof (put_byte_rep p q b p1 Hr Hlt Eb) as Hr1.
      injection Eb as Eb. destruct (IH p1 (q ++ [b]) Hr1) as (r & p2 & E & Hr2 & Hs & Hl2 & Hres & Hwk);
        [by rewrite <-Eb|]. rewrite E. exists r, p2. split; [done|]. rewrite length_app in *. cbn [length] in *.
      assert (k = S (Nat.min (length addr) (Z.to_nat PIPESIZE - (length q + 1)))) as Hk by (unfold k; lia).
      rewrite Hk. cbn [take drop]. split_and!.
      * by rewrite <-app_assoc in Hr2.
      * destruct Hs as [H1 H2]. rewrite <-Eb in H1, H2. by split.
      * done.
      * rewrite Hres, <-Eb. cbn. repeat case_decide; try lia; done.
      * rewrite Hwk, <-Eb. unfold write_wakes. cbn. repeat case_decide; try lia; done.
Qed.

Lemma piperead_copy_spec n p q :
  pipe_rep p q → ∃ p', piperead_copy n p = Ret (take n q) p' ∧ pipe_rep p' (drop n q)
    ∧ same_ends p p' ∧ p_lock p' = p_lock p ∧ p_wakeups p' = p_wakeups p.
Proof.
  revert p q. induction n as [|n IH]; intros p q Hr.
  - exists p. rewrite drop_0. by split_and!.
  - cbn [piperead_copy]. unfold get. erewrite bind_ret by reflexivity.
    rewrite (rep_empty p q Hr). destruct q as [|b q]; cbn [bool_decide].
    + rewrite bool_decide_true by done. exists p. by split_and!.
    + rewrite bool_decide_false by done.
      destruct (take_byte_rep p b q Hr) as (p1 & E1 & Hr1 & [S1 S1'] & L1 & W1).
      rewrite (bind_ret _ _ _ _ _ E1).
      destruct (IH p1 q Hr1) as (p2 & E2 & Hr2 & [S2 S2'] & L2 & W2).
      rewrite (bind_ret _ _ _ _ _ E2). exists p2. split_and!; [done|done|split; congruence|congruence..].
Qed.

Lemma acquire_pipe_eq p : p_lock p = false → acquire_pipe p = Ret tt (set_p_lock true p).
Proof. intros Hl. unfold acquire_pipe. by rewrite Hl. Qed.

Lemma piperead_spec killed n p q :
  pipe_rep p q → p_lock p = false →
  ∃ p', same_ends p p' ∧ p_lock p' = false ∧ if decide (q = [] ∧ p_writeopen p = true) then
      piperead id killed n p = Ret (if killed then Finished None else Blocked (ChPipeRead id) []) p'
      ∧ pipe_rep p' q ∧ p_wakeups p' = p_wakeups p
    else piperead id killed n p = Ret (Finished (Some (take (Z.to_nat n) q))) p'
      ∧ pipe_rep p' (drop (Z.to_nat n) q) ∧ p_wakeups p' = p_wakeups p ++ [ChPipeWrite id].
Proof.
  intros Hr Hl. unfold piperead. rewrite (bind_ret _ _ _ _ _ (acquire_pipe_eq p Hl)).
  set (p1 := set_p_lock true p). assert (pipe_rep p1 q) as Hr1 by (by destruct Hr; split).
  unfold get. erewrite bind_ret by reflexivity. rewrite (rep_empty p1 q Hr1).
  change (p_writeopen p1) with (p_writeopen p).
  destruct (decide (q = [] ∧ p_writeopen p = true)) as [[-> Hw]|Hn].
  - rewrite Hw. rewrite bool_decide_true by done. cbn [andb].
    assert (set_p_lock false p1 = p) as Hp by (destruct p; cbn in *; by subst).
    exists p. destruct killed; erewrite bind_ret by (by unfold release_pipe); rewrite Hp; by split_and!.
  - assert (bool_decide (q = []) && p_writeopen p = false) as ->.
    { case_bool_decide; [|done]. destruct (p_writeopen p); naive_solver. }
    destruct (piperead_copy_spec (Z.to_nat n) p1 q Hr1) as (p2 & E2 & Hr2 & [S2 S2'] & L2 & W2).
    rewrite (bind_ret _ _ _ _ _ E2). eexists. split; [|split; [|split]].
    3: { munfold. unfold wakeup_pipe, release_pipe. munfold. cbn. by rewrite L2. }
    { split; [exact S2|exact S2']. }
    { done. }
    split; [by destruct Hr2; split|]. cbn. by rewrite W2.
Qed.
End queue.

(** ** Histories of a pipe

    [sent] are the bytes writers have put in, [received] the bytes readers got. *)
Section history.
Context (id : nat).
Implicit Types (p : pipe) (q sent received : list Z).

(** How many bytes of its argument a call of [pipewrite] put in. *)
Definition accepted p p' (addr : list Z) : list Z := take (Z.to_nat (u32 (p_nwrite p' - p_nwrite p))) addr.

Inductive pipe_step : pipe * list Z * list Z → pipe * list Z * list Z → Prop :=
| step_write p sent received killed n addr r p' :
    pipewrite id killed n addr p = Ret r p' →
    pipe_step (p, sent, received) (p', sent ++ accepted p p' addr, received)
| step_read p sent received killed n bytes p' :
    piperead id killed n p = Ret (Finished (Some bytes)) p' →
    pipe_step (p, sent, received) (p', sent, received ++ bytes)
| step_read_nothing p sent received killed n r p' :
    piperead id killed n p = Ret r p' → (∀ bytes, r ≠ Finished (Some bytes)) →
    pipe_step (p, sent, received) (p', sent, received)
| step_close p sent received writable b p' :
    pipeclose id writable p = Ret b p' → pipe_step (p, sent, received) (p', sent, received).

Lemma accepted_eq p q p' addr k :
  pipe_rep p q → pipe_rep p' (q ++ take k addr) → p_nread p' = p_nread p → (k ≤ length addr)%nat →
  accepted p p' addr = take k addr.
Proof.
  intros R R' Hn Hk. unfold accepted. rewrite (pr_write _ _ R'), (pr_write _ _ R), Hn, length_app, length_take.
  pose proof (pr_read _ _ R). pose proof (pr_cap _ _ R'). rewrite length_app, length_take in *.
  f_equal. unfold u32, is_u32, PIPESIZE in *. divlia.
Qed.

Lemma pipewrite_loop_nread killed n addr p r p' :
  pipewrite_loop id killed n addr p = Ret r p' → p_nread p' = p_nread p.
Proof.
  revert p. induction addr as [|b addr IH]; intros p; cbn [pipewrite_loop].
  - intros ([] & p1 & [= <-] & E)%bind_inv. apply bind_inv in E as ([] & p2 & E & [= _ <-]).
    unfold release_pipe in E. destruct (p_lock _); [by injection E as <-|done].
  - unfold get at 1. erewrite bind_ret by reflexivity. destruct (full p).
    + destruct (negb (p_readopen p) || killed).
      * intros ([] & p1 & E & [= _ <-])%bind_inv. unfold release_pipe in E.
        destruct (p_lock p); [by injection E as <-|done].
      * intros ([] & p1 & [= <-] & E)%bind_inv. apply bind_inv in E as ([] & p2 & E & [= _ <-]).
        unfold release_pipe in E. destruct (p_lock _); [by injection E as <-|done].
    + intros ([] & p1 & [= <-] & E)%bind_inv. by apply IH in E.
Qed.

Lemma pipeclose_rep writable p q :
  pipe_rep p q → p_lock p = false → ∃ b p', pipeclose id writable p = Ret b p'
  ∧ pipe_rep p' q ∧ p_lock p' = false
  ∧ b = negb (p_readopen p') && negb (p_writeopen p')
  ∧ if writable
    then p_writeopen p' = false ∧ p_readopen p' = p_readopen p ∧ p_wakeups p' = p_wakeups p ++ [ChPipeRead id]
    else p_readopen p' = false ∧ p_writeopen p' = p_writeopen p ∧ p_wakeups p' = p_wakeups p ++ [ChPipeWrite id].
Proof.
  intros [R1 R2 R3 R4 R5] Hl. unfold pipeclose. rewrite (bind_ret _ _ _ _ _ (acquire_pipe_eq p Hl)).
  destruct writable; munfold; unfold wakeup_pipe, release_pipe; munfold; cbn; eexists _, _;
    (split; [done|]); (split; [by split|]); (split; [done|]); (split; [done|]); done.
Qed.

(** C15: a pipe is a queue.  With [q] in the pipe, [pipewrite] appends the bytes that
    fit into PIPESIZE; it returns [n] when that is all of them, and otherwise -1 if
    the read end is closed or the process killed, or sleeps with exactly the bytes
    that did not fit; it wakes the readers before it returns [n] or sleeps.
    [piperead] returns the first [n] bytes and wakes the writers; on an empty pipe it
    sleeps (or returns -1 when killed) while the write end is open and returns no
    bytes, end of file, when it is closed.  [pipeclose] closes the end it is given and
    wakes the processes sleeping at the other one, leaves the bytes in the pipe, and
    says that the pipe is to be freed exactly when both ends are closed.  No call makes
    another wakeup, and each leaves the lock free.  The counters are 32-bit and wrap. *)
Theorem pipe_refines_queue p q :
  pipe_rep p q → p_lock p = false →
  (∀ killed n addr, let k := Nat.min (length addr) (Z.to_nat PIPESIZE - length q) in
     ∃ r p', pipewrite id killed n addr p = Ret r p' ∧ pipe_rep p' (q ++ take k addr)
       ∧ same_ends p p' ∧ p_lock p' = false
       ∧ r = (if decide (k = length addr) then Finished n
              else if negb (p_readopen p) || killed then Finished (-1)
              else Blocked (ChPipeWrite id) (drop k addr))
       ∧ p_wakeups p' = p_wakeups p ++ write_wakes id killed (p_readopen p) k addr)
  ∧ (∀ killed n, ∃ p', same_ends p p' ∧ p_lock p' = false
       ∧ if decide (q = [] ∧ p_writeopen p = true) then
           piperead id killed n p = Ret (if killed then Finished None else Blocked (ChPipeRead id) []) p'
           ∧ pipe_rep p' q ∧ p_wakeups p' = p_wakeups p
         else piperead id killed n p = Ret (Finished (Some (take (Z.to_nat n) q))) p'
           ∧ pipe_rep p' (drop (Z.to_nat n) q) ∧ p_wakeups p' = p_wakeups p ++ [ChPipeWrite id])
  ∧ (∀ writable, ∃ b p', pipeclose id writable p = Ret b p' ∧ pipe_rep p' q ∧ p_lock p' = false
       ∧ b = negb (p_readopen p') && negb (p_writeopen p')
       ∧ if writable
         then p_writeopen p' = false ∧ p_readopen p' = p_readopen p ∧ p_wakeups p' = p_wakeups p ++ [ChPipeRead id]
         else p_readopen p' = false ∧ p_writeopen p' = p_writeopen p ∧ p_wakeups p' = p_wakeups p ++ [ChPipeWrite id]).
Proof.
  intros Hr Hl. split; [|split; intros; [by apply piperead_spec|by apply pipeclose_rep]]. intros killed n addr k.
  unfold pipewrite. rewrite (bind_ret _ _ _ _ _ (acquire_pipe_eq p Hl)).
  assert (pipe_rep (set_p_lock true p) q) as Hr1 by (by destruct Hr; split).
  destruct (pipewrite_loop_spec id killed n addr _ q Hr1 eq_refl) as (r & p' & E & H).
  by exists r, p'.
Qed.

(** bytes come out of a pipe in the order they went in, each once.  After any
    sequence of writes, reads and closes on a new pipe, also when calls are put to
    sleep, interrupted or resumed in between, the bytes sent are the bytes received
    followed by what is in the buffer, and that is at most PIPESIZE bytes. *)
Theorem pipe_fifo d p sent received :
  length d = Z.to_nat PIPESIZE →
  rtc pipe_step (new_pipe d, [], []) (p, sent, received) →
  ∃ q, pipe_rep p q ∧ sent = received ++ q ∧ Z.of_nat (length q) <= PIPESIZE.
Proof.
  intros Hd Hsteps.
  set (I := λ c : pipe * list Z * list Z, ∃ q, pipe_rep c.1.1 q ∧ p_lock c.1.1 = false ∧ c.1.2 = c.2 ++ q).
  enough (I (p, sent, received)) as (q & H1 & _ & H3) by (exists q; split_and!; [done|done|apply H1]).
  assert (I (new_pipe d, [], [])) as H0.
  { exists []. split_and!; [|done|done]. split; cbn; [done|done|unfold PIPESIZE; lia|done|lia]. }
  revert H0. generalize (new_pipe d, [] : list Z, [] : list Z) (p, sent, received) Hsteps. clear Hsteps Hd.
  induction 1 as [|c1 c2 c3 Hstep _ IH]; [done|]. intros (q & Hr & Hl & Hq). apply IH. clear IH.
  destruct Hstep as [p1 s1 r1 killed n addr r p2 E|p1 s1 r1 killed n bytes p2 E|p1 s1 r1 killed n r p2 E Hn
    |p1 s1 r1 writable b p2 E]; cbn in *; subst s1; unfold I; cbn.
  - unfold pipewrite in E. rewrite (bind_ret _ _ _ _ _ (acquire_pipe_eq p1 Hl)) in E.
    assert (pipe_rep (set_p_lock true p1) q) as Hr1 by (by destruct Hr; split).
    destruct (pipewrite_loop_spec id killed n addr _ q Hr1 eq_refl) as (r' & p' & E' & H1 & H2 & H3 & H4 & _).
    rewrite E' in E. simplify_eq. eexists. split_and!; [exact H1|done|].
    erewrite (accepted_eq p1 q p2); [|done|exact H1| |lia]; [by rewrite app_assoc|].
    by apply pipewrite_loop_nread in E'.
  - destruct (piperead_spec id killed n p1 q Hr Hl) as (p' & _ & Hl' & Hres). case_decide.
    + destruct Hres as [E' _]. rewrite E' in E. by destruct killed.
    + destruct Hres as (E' & Hr' & _). rewrite E' in E. simplify_eq. eexists. split_and!; [exact Hr'|done|].
      by rewrite <-app_assoc, take_drop.
  - destruct (piperead_spec id killed n p1 q Hr Hl) as (p' & _ & Hl' & Hres). case_decide.
    + destruct Hres as (E' & Hr' & _). rewrite E' in E. simplify_eq. by exists q.
    + destruct Hres as (E' & Hr' & _). rewrite E' in E. simplify_eq. by destruct (Hn (take (Z.to_nat n) q)).
  - destruct (pipeclose_rep writable p1 q Hr Hl) as (b' & p' & E' & Hr' & Hl' & _).
    rewrite E' in E. simplify_eq. by exists q.
Qed.
End history.

Lemma new_pipe_rep : pipe_rep (new_pipe (replicate 512 0)) [].
Proof. split; cbn; [done|done|unfold PIPESIZE; lia|done|lia]. Qed.

Lemma pipe_refines_queue_witness :
  ∃ r p', pipewrite 0 false 3 [10; 20; 30] (new_pipe (replicate 512 0)) = Ret r p'
    ∧ pipe_rep p' ([] ++ take 3 [10; 20; 30])
    ∧ same_ends (new_pipe (replicate 512 0)) p' ∧ p_lock p' = false ∧ r = Finished 3
    ∧ p_wakeups p' = [ChPipeRead 0].
Proof.
  destruct (pipe_refines_queue 0 (new_pipe (replicate 512 0)) [] new_pipe_rep eq_refl) as [Hw _].
  exact (Hw false 3 [10; 20; 30]).
Defined.

Definition demo_written : pipe :=
  match pipewrite 0 false 2 [7; 8] (new_pipe (replicate 512 0)) with Ret _ p => p | _ => new_pipe [] end.
Definition demo_read : pipe :=
  match piperead 0 false 1 demo_written with Ret _ p => p | _ => new_pipe [] end.

Lemma pipe_fifo_witness :
  ∃ q, pipe_rep demo_read q ∧ [7; 8] = [7] ++ q ∧ Z.of_nat (length q) <= PIPESIZE.
Proof.
  apply (pipe_fifo 0 (replicate 512 0)); [reflexivity|].
  apply (rtc_l _ _ (demo_written, [7; 8], [])).
  - assert ([7; 8] = [] ++ accepted (new_pipe (replicate 512 0)) demo_written [7; 8]) as Ha
      by (vm_compute; reflexivity).
    rewrite Ha at 1.
    apply (step_write 0 _ [] [] false 2 [7; 8] (Finished 2) demo_written). vm_compute. reflexivity.
  - apply rtc_once. apply (step_read 0 demo_written [7; 8] [] false 1 [7]). vm_compute. reflexivity.
Defined.
