(* ===== verification/Console.v ===== *)
(** * The console (console.c)

    Output goes to the serial port and to the text memory of the screen, with the
    cursor of the display controller; input is edited line by line in a ring buffer
    between the interrupt handler and the readers.  The state holds what was sent to
    the serial port and the calls of [wakeup]; [getc] is the sequence of its results.
    The processor that finds [panicked] set stops for good, as in [panic]. *)
From S2P Require Import Prelude.

Definition BACKSPACE : Z := 256.
Definition INPUT_BUF : Z := 128.
(** [C(x)], control and a letter *)
Definition C (x : Z) : Z := x - 64.

(** [cons], [panicked], [input], the display and the serial port. *)
Record console := mkcons {
  cn_lock : bool;
  cn_locking : bool;
  cn_panicked : bool;
  cn_buf : list Z;   (* INPUT_BUF bytes *)
  cn_r : Z;          (* uint *)
  cn_w : Z;
  cn_e : Z;
  cn_crt : list Z;   (* cells of 16 bits *)
  cn_cursor : Z;     (* the two cursor registers *)
  cn_uart : list Z;
  cn_wakeups : list chan
}.

Definition set_cn_lock (v : bool) (c : console) : console :=
  mkcons v (cn_locking c) (cn_panicked c) (cn_buf c) (cn_r c) (cn_w c) (cn_e c) (cn_crt c) (cn_cursor c) (cn_uart c) (cn_wakeups c).
Definition set_cn_locking (v : bool) (c : console) : console :=
  mkcons (cn_lock c) v (cn_panicked c) (cn_buf c) (cn_r c) (cn_w c) (cn_e c) (cn_crt c) (cn_cursor c) (cn_uart c) (cn_wakeups c).
Definition set_cn_buf (v : list Z) (c : console) : console :=
  mkcons (cn_lock c) (cn_locking c) (cn_panicked c) v (cn_r c) (cn_w c) (cn_e c) (cn_crt c) (cn_cursor c) (cn_uart c) (cn_wakeups c).
Definition set_cn_r (v : Z) (c : console) : console :=
  mkcons (cn_lock c) (cn_locking c) (cn_panicked c) (cn_buf c) v (cn_w c) (cn_e c) (cn_crt c) (cn_cursor c) (cn_uart c) (cn_wakeups c).
Definition set_cn_w (v : Z) (c : console) : console :=
  mkcons (cn_lock c) (cn_locking c) (cn_panicked c) (cn_buf c) (cn_r c) v (cn_e c) (cn_crt c) (cn_cursor c) (cn_uart c) (cn_wakeups c).
Definition set_cn_e (v : Z) (c : console) : console :=
  mkcons (cn_lock c) (cn_locking c) (cn_panicked c) (cn_buf c) (cn_r c) (cn_w c) v (cn_crt c) (cn_cursor c) (cn_uart c) (cn_wakeups c).
Definition set_cn_crt (v : list Z) (c : console) : console :=
  mkcons (cn_lock c) (cn_locking c) (cn_panicked c) (cn_buf c) (cn_r c) (cn_w c) (cn_e c) v (cn_cursor c) (cn_uart c) (cn_wakeups c).
Definition set_cn_cursor (v : Z) (c : console) : console :=
  mkcons (cn_lock c) (cn_locking c) (cn_panicked c) (cn_buf c) (cn_r c) (cn_w c) (cn_e c) (cn_crt c) v (cn_uart c) (cn_wakeups c).
Definition set_cn_uart (v : list Z) (c : console) : console :=
  mkcons (cn_lock c) (cn_locking c) (cn_panicked c) (cn_buf c) (cn_r c) (cn_w c) (cn_e c) (cn_crt c) (cn_cursor c) v (cn_wakeups c).
Definition set_cn_wakeups (v : list chan) (c : console) : console :=
  mkcons (cn_lock c) (cn_locking c) (cn_panicked c) (cn_buf c) (cn_r c) (cn_w c) (cn_e c) (cn_crt c) (cn_cursor c) (cn_uart c) v.

Abbreviation CM := (M console).

Definition acquire_cons : CM unit := λ c,
  if cn_lock c then Panic "acquire" else Ret tt (set_cn_lock true c).
Definition release_cons : CM unit := λ c,
  if cn_lock c then Ret tt (set_cn_lock false c) else Panic "release".

(** ** Output *)
Definition uartputc (b : Z) : CM unit := modify (λ c, set_cn_uart (cn_uart c ++ [b]) c).

(** [crt[i] = v] *)
Definition set_cell (i v : Z) : CM unit :=
  c ← get;
  if (0 <=? i) && (i <? Z.of_nat (length (cn_crt c)))
  then modify (set_cn_crt (<[Z.to_nat i := v]> (cn_crt c)))
  else fault.

(** [memmove(crt, crt+80, sizeof(crt[0])*23*80)] and
    [memset(crt+pos, 0, sizeof(crt[0])*(24*80 - pos))] *)
Definition scroll_up (l : list Z) : list Z := take 1840 (drop 80 l) ++ drop 1840 l.
Definition clear_from (pos : Z) (l : list Z) : list Z :=
  take (Z.to_nat pos) l ++ replicate (Z.to_nat (24 * 80 - pos)) 0
  ++ drop (Z.to_nat pos + Z.to_nat (24 * 80 - pos)) l.

Definition cgaputc (c : Z) : CM unit :=
  pos ← gets cn_cursor;
  pos ← (if c =? 10 then mret (pos + (80 - pos mod 80))
         else if c =? BACKSPACE then mret (if 0 <? pos then pos - 1 else pos)
         else set_cell pos (Z.lor (Z.land c 255) 1792);; mret (pos + 1));
  if (pos <? 0) || (25 * 80 <? pos) then panic "pos under/overflow" else
  pos ← (if 24 <=? pos / 80 then
           modify (λ c, set_cn_crt (scroll_up (cn_crt c)) c);;
           let pos := pos - 80 in
           modify (λ c, set_cn_crt (clear_from pos (cn_crt c)) c);;
           mret pos
         else mret pos);
  modify (set_cn_cursor (pos mod 2 ^ 16));;
  set_cell pos (Z.lor 32 1792).

Definition consputc (c : Z) : CM unit :=
  p ← gets cn_panicked;
  if (p : bool) then panic "panicked" else
  (if c =? BACKSPACE then uartputc 8;; uartputc 32;; uartputc 8 else uartputc c);;
  cgaputc c.

(** ** Formatted output *)
Definition digits : list Z :=
  [48; 49; 50; 51; 52; 53; 54; 55; 56; 57; 97; 98; 99; 100; 101; 102].

(** [do{ buf[i++] = digits[x % base]; }while((x /= base) != 0)], with [buf] the
    characters stored so far; 32 turns are enough for any base. *)
Fixpoint digit_loop {S} (fuel : nat) (tbl : list Z) (base x : Z) (buf : list Z) : M S (list Z) :=
  match fuel with
  | O => fault
  | Datatypes.S fuel' =>
      d ← deref (tbl !! Z.to_nat (x mod base));
      let buf := buf ++ [d] in
      if x / base =? 0 then mret buf else digit_loop fuel' tbl base (x / base) buf
  end.
(** An array of 16 characters holds them. *)
Definition in_buf16 {S} (buf : list Z) : M S unit :=
  if (length buf <=? 16)%nat then mret tt else fault.

Definition printint (xx base : Z) (sign : bool) : CM unit :=
  let neg := sign && (xx <? 0) in
  buf ← digit_loop 32 digits base (if neg then u32 (- xx) else u32 xx) [];
  let buf := buf ++ (if neg then [45] else []) in
  in_buf16 buf;;
  mfor (reverse buf) consputc.

(** The loop over [fmt]; [args] are the words after it on the stack and [string_at]
    the memory, which gives the characters of a string up to its NUL. *)
Section cprintf.
Context (string_at : Z → list Z).
Definition null_string : list Z := [40; 110; 117; 108; 108; 41].

Fixpoint cprintf_loop (fmt args : list Z) : CM unit :=
  match fmt with
  | [] => mret tt
  | c :: fmt' =>
      if c =? 0 then mret tt else
      if negb (c =? 37) then consputc c;; cprintf_loop fmt' args else
      match fmt' with
      | [] => mret tt
      | c :: fmt' =>
          if c =? 0 then mret tt else
          if c =? 100 then
            a ← deref (head args); printint (s32 a) 10 true;; cprintf_loop fmt' (tail args)
          else if (c =? 120) || (c =? 112) then
            a ← deref (head args); printint (s32 a) 16 false;; cprintf_loop fmt' (tail args)
          else if c =? 115 then
            a ← deref (head args);
            mfor (if a =? 0 then null_string else string_at a) consputc;;
            cprintf_loop fmt' (tail args)
          else if c =? 37 then consputc 37;; cprintf_loop fmt' args
          else consputc 37;; consputc c;; cprintf_loop fmt' args
      end
  end.

Definition cprintf (fmt : option (list Z)) (args : list Z) : CM unit :=
  locking ← gets cn_locking;
  (if (locking : bool) then acquire_cons else mret tt);;
  match fmt with
  | None => panic "null fmt"
  | Some fmt => cprintf_loop fmt args
  end;;
  (if (locking : bool) then release_cons else mret tt).
End cprintf.

(** ** Input *)
(** [input.buf[i % INPUT_BUF]] *)
Definition input_at (i : Z) : CM Z :=
  c ← get;
  deref (cn_buf c !! Z.to_nat (i mod INPUT_BUF)).

(** [while(input.e != input.w && input.buf[(input.e-1) % INPUT_BUF] != '\n')]; each
    turn brings [e] one closer to [w]. *)
Fixpoint kill_line (fuel : nat) : CM unit :=
  c ← get;
  if cn_e c =? cn_w c then mret tt else
  b ← input_at (u32 (cn_e c - 1));
  if b =? 10 then mret tt else
  match fuel with
  | O => fault
  | S fuel' =>
      modify (set_cn_e (u32 (cn_e c - 1)));;
      consputc BACKSPACE;;
      kill_line fuel'
  end.

(** One character of input; the result is whether a process listing was asked for. *)
Definition console_char (c : Z) : CM bool :=
  if c =? C 80 then mret true else
  if c =? C 85 then
    s ← get;
    kill_line (Z.to_nat (u32 (cn_e s - cn_w s)));;
    mret false
  else if (c =? C 72) || (c =? 127) then
    s ← get;
    (if negb (cn_e s =? cn_w s) then
       modify (set_cn_e (u32 (cn_e s - 1)));; consputc BACKSPACE
     else mret tt);;
    mret false
  else
    s ← get;
    (if negb (c =? 0) && (u32 (cn_e s - cn_r s) <? INPUT_BUF) then
       let c := if c =? 13 then 10 else c in
       modify (λ s, set_cn_buf (<[Z.to_nat (cn_e s mod INPUT_BUF) := c mod 256]> (cn_buf s)) s);;
       modify (λ s, set_cn_e (u32 (cn_e s + 1)) s);;
       consputc c;;
       s ← get;
       if (c =? 10) || (c =? C 68) || (cn_e s =? u32 (cn_r s + INPUT_BUF)) then
         modify (λ s, set_cn_w (cn_e s) s);;
         modify (λ s, set_cn_wakeups (cn_wakeups s ++ [ChInput]) s)
       else mret tt
     else mret tt);;
    mret false.

(** [while((c = getc()) >= 0)] *)
Fixpoint consoleintr_loop (getc : list Z) (doprocdump : bool) : CM bool :=
  match getc with
  | [] => mret doprocdump
  | c :: getc' =>
      if c <? 0 then mret doprocdump else
      d ← console_char c;
      consoleintr_loop getc' (doprocdump || d)
  end.

(** The result is whether [procdump], which only prints, is called at the end. *)
Definition consoleintr (getc : list Z) : CM bool :=
  acquire_cons;;
  d ← consoleintr_loop getc false;
  release_cons;;
  mret d.

(** The call returned bytes, or -1, or put the process to sleep after it had stored
    [got]; it takes up from there. *)
Inductive reading := Read (bytes : list Z) | Killed | Waiting (got : list Z).

(** The loop of [consoleread]; [n] more bytes are wanted and [got] are stored. *)
Fixpoint consoleread_loop (killed : bool) (n : nat) (got : list Z) : CM reading :=
  match n with
  | O => release_cons;; mret (Read got)
  | S n' =>
      s ← get;
      if cn_r s =? cn_w s then
        release_cons;;  (* before -1, or in sleep *)
        mret (if killed then Killed else Waiting got)
      else
      c ← input_at (cn_r s);
      modify (set_cn_r (u32 (cn_r s + 1)));;
      if c =? C 68 then
        (if negb (match got with [] => true | _ => false end)
         then modify (λ s, set_cn_r (u32 (cn_r s - 1)) s) else mret tt);;
        release_cons;;
        mret (Read got)
      else if c =? 10 then release_cons;; mret (Read (got ++ [c]))
      else consoleread_loop killed n' (got ++ [c])
  end.

(** [consoleread] between [iunlock(ip)] and [ilock(ip)]; the first call has [got = []],
    a reader that has slept continues with the bytes it has stored. *)
Definition consoleread (killed : bool) (n : Z) (got : list Z) : CM reading :=
  acquire_cons;;
  consoleread_loop killed (Z.to_nat n - length got) got.

(** [consolewrite] between [iunlock(ip)] and [ilock(ip)]. *)
Definition consolewrite (buf : list Z) (n : Z) : CM Z :=
  acquire_cons;;
  mfor (take (Z.to_nat n) buf) (λ b, consputc (Z.land b 255));;
  release_cons;;
  mret n.

Definition consoleinit : CM unit :=
  modify (set_cn_lock false);;
  modify (set_cn_locking true).
