(* ===== verification/ConsoleThms.v ===== *)
(** * The console: the screen, the input lines

    The cursor never leaves the 24 text rows; the input side implements a queue of
    finished lines and one line being edited. *)
From S2P Require Import Prelude Console.

(** ** Output *)
Lemma land_byte b : 0 <= b < 256 → Z.land b 255 = b.
Proof. intros Hb. change 255 with (Z.ones 8). rewrite Z.land_ones by lia. apply Z.mod_small. lia. Qed.

Definition ROWS24 : Z := 24 * 80.

(** No processor has panicked and the cursor is in the text rows. *)
Record screen_ok (c : console) : Prop := {
  so_panicked : cn_panicked c = false;
  so_cursor : 0 <= cn_cursor c < ROWS24;
  so_crt : ROWS24 < Z.of_nat (length (cn_crt c));
}.

(** [c'] differs from [c] in what the display shows and in the serial port. *)
Definition output_only (c c' : console) : Prop :=
  ∃ crt cur uart, length crt = length (cn_crt c) ∧ c' = set_cn_uart uart (set_cn_cursor cur (set_cn_crt crt c)).

Lemma output_only_refl c : output_only c c.
Proof. exists (cn_crt c), (cn_cursor c), (cn_uart c). by destruct c. Qed.
Lemma output_only_trans c1 c2 c3 : output_only c1 c2 → output_only c2 c3 → output_only c1 c3.
Proof. intros (a & b & d & H & ->) (a' & b' & d' & H' & ->). exists a', b', d'. split; [|done]. by rewrite H'. Qed.

Lemma length_scroll_up l : ROWS24 < Z.of_nat (length l) → length (scroll_up l) = length l.
Proof. unfold ROWS24, scroll_up. intros. rewrite length_app, length_take, !length_drop. lia. Qed.

Lemma length_clear_from pos l :
  0 <= pos <= ROWS24 → ROWS24 < Z.of_nat (length l) → length (clear_from pos l) = length l.
Proof.
  unfold ROWS24, clear_from. intros. rewrite !length_app, length_take, length_replicate, length_drop. lia.
Qed.

Lemma set_cell_run i v c :
  0 <= i < Z.of_nat (length (cn_crt c)) →
  set_cell i v c = Ret tt (set_cn_crt (<[Z.to_nat i := v]> (cn_crt c)) c).
Proof.
  intros Hi. unfold set_cell, get. erewrite bind_ret by reflexivity.
  destruct (Z.leb_spec 0 i), (Z.ltb_spec i (Z.of_nat (length (cn_crt c)))); try lia. done.
Qed.

(** The cursor after [c] has been put at [pos]. *)
Definition advance (c pos : Z) : Z :=
  if c =? 10 then pos + (80 - pos mod 80) else if c =? BACKSPACE then Z.max 0 (pos - 1) else pos + 1.
Definition next_cursor (c pos : Z) : Z :=
  let p := advance c pos in if p =? ROWS24 then p - 80 else p.

Lemma advance_range c pos : 0 <= pos < ROWS24 → 0 <= advance c pos <= ROWS24.
Proof. unfold advance, ROWS24. intros. repeat case_match; divlia. Qed.

Lemma cgaputc_run ch c :
  screen_ok c → returns (cgaputc ch) c (λ _ c',
    screen_ok c' ∧ cn_cursor c' = next_cursor ch (cn_cursor c) ∧ cn_uart c' = cn_uart c ∧ output_only c c').
Proof.
  intros [H1 H2 H3]. pose proof (advance_range ch _ H2) as Ha. unfold cgaputc.
  eapply returns_bind_eq; [done|].
  set (pos := cn_cursor c) in *.
  assert (∃ crt, length crt = length (cn_crt c) ∧
    (if ch =? 10 then mret (pos + (80 - pos mod 80))
     else if ch =? BACKSPACE then mret (if 0 <? pos then pos - 1 else pos)
     else set_cell pos (Z.lor (Z.land ch 255) 1792);; mret (pos + 1)) c
    = Ret (advance ch pos) (set_cn_crt crt c)) as (crt & Hl & E).
  { unfold advance. case_match; [exists (cn_crt c); by destruct c|].
    case_match.
    { exists (cn_crt c). split; [done|].
      assert ((if 0 <? pos then pos - 1 else pos) = Z.max 0 (pos - 1)) as -> by (destruct (Z.ltb_spec 0 pos); lia).
      by destruct c. }
    eexists. rewrite (bind_ret _ _ _ _ _ (set_cell_run pos _ c ltac:(lia))). split; [|done].
    by rewrite length_insert. }
  eapply returns_bind_eq; [exact E|]. unfold next_cursor. set (p := advance ch pos) in *.
  unfold ROWS24 in *.
  destruct (Z.ltb_spec p 0); [lia|]. destruct (Z.ltb_spec (25 * 80) p); [lia|]. cbn [orb].
  assert (∃ crt', length crt' = length (cn_crt c) ∧
    (if 24 <=? p / 80 then
       modify (λ c, set_cn_crt (scroll_up (cn_crt c)) c);;
       modify (λ c, set_cn_crt (clear_from (p - 80) (cn_crt c)) c);;
       mret (p - 80)
     else mret p) (set_cn_crt crt c)
    = Ret (if p =? 24 * 80 then p - 80 else p) (set_cn_crt crt' c)) as (crt' & Hl' & E').
  { destruct (Z.eqb_spec p (24 * 80)) as [Hp|Hp].
    - rewrite Hp. eexists. split; [|reflexivity]. cbn [cn_crt set_cn_crt].
      assert (length (scroll_up crt) = length crt) as Hsc by (apply length_scroll_up; unfold ROWS24; lia).
      rewrite length_clear_from; unfold ROWS24; lia.
    - destruct (Z.leb_spec 24 (p / 80)); [divlia|]. by eexists. }
  eapply returns_bind_eq; [exact E'|]. set (q := if p =? 24 * 80 then p - 80 else p) in *.
  assert (0 <= q < 24 * 80) as Hq by (unfold q; destruct (Z.eqb_spec p (24 * 80)); lia).
  eapply returns_bind_eq; [done|]. unfold returns. rewrite set_cell_run by (cbn; lia).
  rewrite Z.mod_small by lia.
  split; [|split; [done|split; [done|]]].
  - split; cbn [cn_panicked cn_cursor cn_crt set_cn_crt set_cn_cursor];
      [done|unfold ROWS24; lia|rewrite length_insert; unfold ROWS24; lia].
  - exists (<[Z.to_nat q := Z.lor 32 1792]> crt'), q, (cn_uart c).
    split; [by rewrite length_insert|reflexivity].
Qed.

(** What [consputc c] sends to the serial port. *)
Definition serial (c : Z) : list Z := if c =? BACKSPACE then [8; 32; 8] else [c].

Lemma consputc_run ch c :
  screen_ok c → returns (consputc ch) c (λ _ c',
    screen_ok c' ∧ cn_cursor c' = next_cursor ch (cn_cursor c)
    ∧ cn_uart c' = cn_uart c ++ serial ch ∧ output_only c c').
Proof.
  intros Hs. unfold consputc. eapply returns_bind_eq; [done|]. rewrite (so_panicked c Hs).
  eapply (returns_bind_eq _ _ _ tt (set_cn_uart (cn_uart c ++ serial ch) c)).
  { unfold serial. case_match; [|done]. unfold uartputc. munfold. cbn. f_equal. by rewrite <-!app_assoc. }
  eapply returns_mono; [apply cgaputc_run; by destruct Hs; split|].
  intros _ c' (H1 & H2 & H3 & H4). split_and!; [done|done|done|].
  destruct H4 as (a & b & d & H4 & ->). by exists a, b, d.
Qed.

Lemma put_all_run cs c :
  screen_ok c → returns (mfor cs consputc) c (λ _ c',
    screen_ok c' ∧ cn_cursor c' = foldl (flip next_cursor) (cn_cursor c) cs
    ∧ cn_uart c' = cn_uart c ++ mjoin (serial <$> cs) ∧ output_only c c').
Proof.
  revert c. induction cs as [|ch cs IH]; intros c Hs; cbn [mfor].
  - apply returns_ret. rewrite app_nil_r. split_and!; try done. apply output_only_refl.
  - apply returns_bind. eapply returns_mono; [by apply consputc_run|].
    intros _ c1 (H1 & H2 & H3 & H4). eapply returns_mono; [by apply IH|].
    intros _ c2 (K1 & K2 & K3 & K4). split_and!; [done| | |by eapply output_only_trans].
    + by rewrite K2, H2.
    + rewrite K3, H3, <-app_assoc. done.
Qed.

(** ** Input: the lines a reader can take, and the line being edited *)

(** The characters from [r] to [e], oldest first. *)
Record ring_rep (c : console) (q : list Z) : Prop := {
  lr_buf : length (cn_buf c) = Z.to_nat INPUT_BUF;
  lr_r : is_u32 (cn_r c);
  lr_e : cn_e c = u32 (cn_r c + Z.of_nat (length q));
  lr_cap : Z.of_nat (length q) <= INPUT_BUF;
  lr_bytes : ∀ i : nat, (i < length q)%nat →
    cn_buf c !! Z.to_nat ((cn_r c + Z.of_nat i) mod INPUT_BUF) = q !! i;
}.

(** [com] is what a reader can take, [pend] the line being edited. *)
Record line_rep (c : console) (com pend : list Z) : Prop := {
  lr_ring : ring_rep c (com ++ pend);
  lr_w : cn_w c = u32 (cn_r c + Z.of_nat (length com));
  lr_line : 10 ∉ pend;
}.

Lemma output_only_rep c c' com pend : output_only c c' → line_rep c com pend → line_rep c' com pend.
Proof. intros (a & b & d & _ & ->) [[] ? ?]. by split; [split|..]. Qed.

Lemma input_wrap z : u32 z mod INPUT_BUF = z mod INPUT_BUF.
Proof. apply u32_mod_divisor; [done|]. by exists (2 ^ 25). Qed.

(** The tests on the indices. *)
Lemma rep_editing c com pend : line_rep c com pend → (cn_e c =? cn_w c) = bool_decide (pend = []).
Proof.
  intros [[R1 R2 R4 R5 _] R3 _]. rewrite R3, R4, length_app in *. apply Bool.eq_iff_eq_true.
  rewrite Z.eqb_eq, bool_decide_eq_true, <-length_zero_iff_nil.
  unfold u32, is_u32, INPUT_BUF in *. split; intros H; [|rewrite H, Nat.add_0_r; done]. divlia.
Qed.

Lemma rep_waiting c com pend : line_rep c com pend → (cn_r c =? cn_w c) = bool_decide (com = []).
Proof.
  intros [[R1 R2 R4 R5 _] R3 _]. rewrite R3, length_app in *. apply Bool.eq_iff_eq_true.
  rewrite Z.eqb_eq, bool_decide_eq_true, <-length_zero_iff_nil.
  unfold u32, is_u32, INPUT_BUF in *. split; intros H; [divlia|]. rewrite H. change (Z.of_nat 0) with 0. divlia.
Qed.

Lemma ring_room c q : ring_rep c q → u32 (cn_e c - cn_r c) = Z.of_nat (length q).
Proof. intros [R1 R2 R4 R5 _]. rewrite R4. unfold u32, is_u32, INPUT_BUF in *. divlia. Qed.

Lemma ring_full c q :
  ring_rep c q → (cn_e c =? u32 (cn_r c + INPUT_BUF)) = bool_decide (Z.of_nat (length q) = INPUT_BUF).
Proof.
  intros [R1 R2 R4 R5 _]. rewrite R4. apply Bool.eq_iff_eq_true. rewrite Z.eqb_eq, bool_decide_eq_true.
  split; [|by intros ->]. unfold u32, is_u32, INPUT_BUF in *. intros. divlia.
Qed.

(** The last character typed; taking it back. *)
Lemma ring_last c q b : ring_rep c (q ++ [b]) → input_at (u32 (cn_e c - 1)) c = Ret b c.
Proof.
  intros [R1 R2 R4 R5 R6]. unfold input_at, get. erewrite bind_ret by reflexivity.
  rewrite length_app in *. cbn [length] in *. specialize (R6 (length q) ltac:(lia)).
  rewrite lookup_app_r, Nat.sub_diag in R6 by lia. cbn in R6. rewrite R4.
  assert (u32 (u32 (cn_r c + Z.of_nat (length q + 1)) - 1) = u32 (cn_r c + Z.of_nat (length q))) as ->
    by (unfold u32; divlia).
  by rewrite input_wrap, R6.
Qed.

Lemma rep_unput c com pend b :
  line_rep c com (pend ++ [b]) → line_rep (set_cn_e (u32 (cn_e c - 1)) c) com pend.
Proof.
  intros [[R1 R2 R4 R5 R6] R3 R7]. rewrite app_assoc, length_app in *. cbn [length] in *.
  split; [split|..]; cbn [cn_buf cn_r cn_w cn_e set_cn_e]; try done; [|lia| |set_solver].
  - rewrite R4. unfold u32. divlia.
  - intros i Hi. rewrite R6 by lia. by rewrite lookup_app_l by lia.
Qed.

(** [input.buf[input.e++ % INPUT_BUF] = b] *)
Definition typed (b : Z) (c : console) : console :=
  set_cn_e (u32 (cn_e c + 1)) (set_cn_buf (<[Z.to_nat (cn_e c mod INPUT_BUF) := b]> (cn_buf c)) c).

Lemma ring_put c q b : ring_rep c q → Z.of_nat (length q) < INPUT_BUF → ring_rep (typed b c) (q ++ [b]).
Proof.
  intros [R1 R2 R4 R5 R6] Hlt. split; cbn [cn_buf cn_r cn_e set_cn_e set_cn_buf typed]; [|done| | |].
  - by rewrite length_insert.
  - rewrite R4, u32_add_l, length_app. cbn. f_equal. lia.
  - rewrite length_app. cbn. lia.
  - intros i Hi. rewrite length_app in Hi. cbn in Hi. rewrite R4, input_wrap.
    destruct (decide (i = length q)) as [->|Hne].
    + rewrite list_lookup_insert_eq; [by rewrite lookup_app_r, Nat.sub_diag by lia|].
      rewrite R1. unfold INPUT_BUF. divlia.
    + rewrite lookup_app_l by lia. rewrite list_lookup_insert_ne; [apply R6; lia|].
      unfold INPUT_BUF in *. divlia.
Qed.

Lemma u32_succ_pred z : is_u32 z → u32 (u32 (z + 1) - 1) = z.
Proof. unfold u32, is_u32. intros. divlia. Qed.

(** The oldest character; taking it. *)
Lemma ring_first c b q : ring_rep c (b :: q) → input_at (cn_r c) c = Ret b c.
Proof.
  intros [R1 R2 R4 R5 R6]. unfold input_at, get. erewrite bind_ret by reflexivity.
  specialize (R6 0%nat ltac:(cbn; lia)). rewrite Z.add_0_r in R6. by rewrite R6.
Qed.

Lemma rep_take c b com pend :
  line_rep c (b :: com) pend → line_rep (set_cn_r (u32 (cn_r c + 1)) c) com pend.
Proof.
  intros [[R1 R2 R4 R5 R6] R3 R7]. rewrite <-app_comm_cons in *. cbn [length] in *.
  split; [split|..]; cbn [cn_buf cn_r cn_w cn_e set_cn_r]; try done; [apply u32_range| |lia| |].
  - rewrite u32_add_l, R4. f_equal. lia.
  - intros i Hi. specialize (R6 (S i) ltac:(lia)). etrans; [|exact R6]. f_equal. f_equal.
    rewrite <-input_wrap, u32_add_l, input_wrap. f_equal. lia.
  - rewrite u32_add_l, R3. f_equal. lia.
Qed.

(** The effect of a character on the finished lines and the line being edited. *)
Definition edit (s : list Z * list Z) (c : Z) : list Z * list Z :=
  let '(com, pend) := s in
  if c =? C 80 then s else
  if c =? C 85 then (com, []) else
  if (c =? C 72) || (c =? 127) then (com, take (length pend - 1) pend) else
  if (c =? 0) || (INPUT_BUF <=? Z.of_nat (length (com ++ pend))) then s else
  let c := if c =? 13 then 10 else c in
  if (c =? 10) || (c =? C 68) || (Z.of_nat (length (com ++ pend)) + 1 =? INPUT_BUF)
  then (com ++ pend ++ [c], []) else (com, pend ++ [c]).

(** The invariant of the interrupt handler: the screen, the input and the lock; the
    readers have been woken if there is more to read than [com0]. *)
Record handling (com0 : list Z) (w0 : list chan) (s : list Z * list Z) (c : console) : Prop := {
  h_screen : screen_ok c;
  h_rep : line_rep c s.1 s.2;
  h_lock : cn_lock c = true;
  h_woken : ∃ w, cn_wakeups c = w0 ++ w ∧ (s.1 = com0 ∨ ChInput ∈ w);
}.

Lemma handling_output com0 w0 s c c' :
  handling com0 w0 s c → output_only c c' → screen_ok c' → handling com0 w0 s c'.
Proof. intros [H1 H2 H3 H4] Ho ?. split; [done|by eapply output_only_rep|..]; by destruct Ho as (?&?&?&?&->). Qed.

(** Taking back a character, with its echo. *)
Lemma unput_run com0 w0 com pend b c :
  handling com0 w0 (com, pend ++ [b]) c →
  returns (modify (set_cn_e (u32 (cn_e c - 1)));; consputc BACKSPACE) c
    (λ _ c', handling com0 w0 (com, pend) c').
Proof.
  intros [H1 H2 H3 H4]. eapply returns_bind_eq; [done|].
  assert (handling com0 w0 (com, pend) (set_cn_e (u32 (cn_e c - 1)) c)) as Hh.
  { split; [by destruct H1; split|by eapply rep_unput|done|done]. }
  eapply returns_mono; [apply consputc_run, Hh|]. intros _ c' (K1 & _ & _ & K4). by eapply handling_output.
Qed.

Lemma kill_line_run com0 w0 com n pend c :
  handling com0 w0 (com, pend) c → (length pend <= n)%nat →
  returns (kill_line n) c (λ _ c', handling com0 w0 (com, []) c').
Proof.
  revert pend c. induction n as [|n IH]; intros pend c Hh Hn; cbn [kill_line];
    (eapply returns_bind_eq; [done|]); rewrite (rep_editing _ _ _ (h_rep _ _ _ _ Hh)).
  - destruct pend; [|cbn in Hn; lia]. by rewrite bool_decide_true by done.
  - case_bool_decide as Hp; cbn [snd] in Hp; [by subst pend|].
    destruct (exists_last Hp) as (pend' & b & Hb). cbn in Hb. subst pend.
    pose proof (h_rep _ _ _ _ Hh) as [Hr Hw Hl]. cbn [fst snd] in Hr, Hl. rewrite app_assoc in Hr.
    eapply returns_bind_eq; [by eapply ring_last|]. destruct (Z.eqb_spec b 10); [set_solver|].
    apply returns_assoc, returns_bind. eapply returns_mono; [by apply (unput_run com0 w0 com pend' b)|].
    intros [] c' Hh'. eapply IH; [done|]. rewrite length_app in Hn. cbn in Hn. lia.
Qed.

(** Storing a character: it is part of the line, or finishes it. *)
Lemma store_char_run com0 w0 com pend b c :
  b mod 256 = b → handling com0 w0 (com, pend) c → Z.of_nat (length (com ++ pend)) < INPUT_BUF →
  returns (consputc b;; s ← get;
    if (b =? 10) || (b =? C 68) || (cn_e s =? u32 (cn_r s + INPUT_BUF)) then
      modify (λ s, set_cn_w (cn_e s) s);; modify (λ s, set_cn_wakeups (cn_wakeups s ++ [ChInput]) s)
    else mret tt) (typed b c)
    (λ _ c', handling com0 w0
      (if (b =? 10) || (b =? C 68) || (Z.of_nat (length (com ++ pend)) + 1 =? INPUT_BUF)
       then (com ++ pend ++ [b], []) else (com, pend ++ [b])) c').
Proof.
  intros Hb [H1 [Hring Hw Hl] H3 (w & H4 & H5)] Hroom. cbn [fst snd] in *.
  pose proof (ring_put c _ b Hring Hroom) as Hring1. rewrite <-app_assoc in Hring1.
  apply returns_bind. eapply returns_mono; [apply consputc_run; by destruct H1; split|].
  intros [] c2 (K1 & _ & _ & crt & cur & uart & _ & K4).
  assert (ring_rep c2 (com ++ pend ++ [b])) as Hring2 by (subst c2; destruct Hring1; by split).
  eapply returns_bind_eq; [done|]. rewrite (ring_full _ _ Hring2).
  assert (bool_decide (Z.of_nat (length (com ++ pend ++ [b])) = INPUT_BUF)
    = (Z.of_nat (length (com ++ pend)) + 1 =? INPUT_BUF)) as ->.
  { rewrite app_assoc, (length_app (com ++ pend)). cbn [length]. apply Bool.eq_iff_eq_true.
    rewrite bool_decide_eq_true, Z.eqb_eq. lia. }
  assert (cn_w c2 = cn_w c ∧ cn_r c2 = cn_r c ∧ cn_wakeups c2 = cn_wakeups c ∧ cn_lock c2 = cn_lock c)
    as (E1 & E2 & E3 & E4) by (by subst c2). clear K4.
  destruct ((b =? 10) || (b =? C 68) || (Z.of_nat (length (com ++ pend)) + 1 =? INPUT_BUF)) eqn:Et.
  - eapply returns_bind_eq; [done|]. unfold returns, modify. split; cbn [fst snd].
    + by destruct K1; split.
    + split; [rewrite app_nil_r; destruct Hring2; by split|cbn; by rewrite (lr_e _ _ Hring2)|set_solver].
    + cbn. congruence.
    + exists (w ++ [ChInput]). cbn. split; [by rewrite E3, H4, <-app_assoc|]. set_solver.
  - apply returns_ret. apply orb_false_iff in Et as [[Hn%Z.eqb_neq _]%orb_false_iff _].
    split; cbn [fst snd]; [done| |congruence|exists w; split; [congruence|done]].
    split; [done|congruence|set_solver].
Qed.

Lemma console_char_run com0 w0 s ch c :
  0 <= ch < 256 → handling com0 w0 s c →
  returns (console_char ch) c (λ d c', d = (ch =? C 80) ∧ handling com0 w0 (edit s ch) c').
Proof.
  intros Hch Hh. destruct s as [com pend]. unfold console_char, edit.
  destruct (ch =? C 80); [by apply returns_ret|].
  pose proof (h_rep _ _ _ _ Hh) as Hr. cbn [fst snd] in Hr.
  destruct (ch =? C 85).
  { eapply returns_bind_eq; [done|]. apply returns_bind. eapply returns_mono.
    { eapply kill_line_run; [exact Hh|]. pose proof (lr_w _ _ _ Hr) as Hw.
      pose proof (lr_ring _ _ _ Hr) as [R1 R2 R4 R5 _]. rewrite R4, Hw, length_app in *.
      unfold u32, is_u32, INPUT_BUF in *. divlia. }
    intros [] c' Hh'. by apply returns_ret. }
  destruct ((ch =? C 72) || (ch =? 127)).
  { eapply returns_bind_eq; [done|]. rewrite (rep_editing _ _ _ Hr). apply returns_bind.
    case_bool_decide as Hp; cbn [negb].
    - subst pend. by apply returns_ret.
    - destruct (exists_last Hp) as (pend' & b & ->). rewrite length_app. cbn [length].
      rewrite Nat.add_sub, take_app_length. eapply returns_mono; [by eapply unput_run|]. done. }
  eapply returns_bind_eq; [done|]. pose proof (lr_ring _ _ _ Hr) as Hring.
  rewrite (ring_room _ _ Hring).
  destruct (Z.eqb_spec ch 0); [by apply returns_bind, returns_ret|]. cbn [negb andb orb].
  destruct (Z.leb_spec INPUT_BUF (Z.of_nat (length (com ++ pend)))) as [Hfull|Hroom];
    [rewrite (proj2 (Z.ltb_ge _ _) Hfull); by apply returns_bind, returns_ret|].
  rewrite (proj2 (Z.ltb_lt _ _) Hroom). apply returns_bind.
  set (b := if ch =? 13 then 10 else ch). assert (b mod 256 = b) as Hb by (unfold b; case_match; divlia).
  eapply returns_bind_eq; [done|]. eapply returns_bind_eq; [done|].
  cbn [cn_e cn_buf set_cn_buf]. rewrite Hb. change (set_cn_e _ (set_cn_buf _ c)) with (typed b c).
  eapply returns_mono; [by apply (store_char_run com0 w0)|]. done.
Qed.

(** The results of [getc] up to the first negative one. *)
Fixpoint received (getc : list Z) : list Z :=
  match getc with [] => [] | c :: getc' => if c <? 0 then [] else c :: received getc' end.

Lemma consoleintr_loop_run com0 w0 getc d s c :
  Forall (λ ch, ch < 256) getc → handling com0 w0 s c →
  returns (consoleintr_loop getc d) c (λ d' c',
    d' = d || existsb (λ ch, ch =? C 80) (received getc) ∧ handling com0 w0 (foldl edit s (received getc)) c').
Proof.
  intros Hf. revert d s c. induction Hf as [|ch getc Hch Hf IH]; intros d s c Hh; cbn [consoleintr_loop received].
  - apply returns_ret. cbn. by rewrite orb_false_r.
  - destruct (Z.ltb_spec ch 0); [apply returns_ret; cbn; by rewrite orb_false_r|].
    apply returns_bind. eapply returns_mono; [apply (console_char_run com0 w0 s); [lia|done]|].
    intros d' c' [-> Hh']. eapply returns_mono; [by apply IH|]. intros d'' c'' [-> Hh'']. cbn.
    by rewrite orb_assoc.
Qed.

(** What a reader that wants [n] more bytes and has [got] takes from the finished lines. *)
Fixpoint read_line (killed : bool) (n : nat) (got com : list Z) : reading * list Z :=
  match n, com with
  | O, _ => (Read got, com)
  | S n', [] => (if killed then Killed else Waiting got, [])
  | S n', b :: com' =>
      if b =? C 68 then (Read got, if decide (got = []) then com' else com)
      else if b =? 10 then (Read (got ++ [b]), com')
      else read_line killed n' (got ++ [b]) com'
  end.

Lemma consoleread_loop_run killed n got com pend c :
  line_rep c com pend → cn_lock c = true →
  returns (consoleread_loop killed n got) c (λ res c',
    res = (read_line killed n got com).1 ∧ line_rep c' (read_line killed n got com).2 pend
    ∧ cn_lock c' = false ∧ (screen_ok c → screen_ok c')).
Proof.
  revert got com c. induction n as [|n IH]; intros got com c Hr Hl; cbn [consoleread_loop].
  - eapply returns_bind_eq; [unfold release_cons; by rewrite Hl|]. apply returns_ret.
    split_and!; [done| |done|]; [by destruct Hr as [[] ? ?]; split; [split|..]|by intros []; split].
  - assert (∀ c1 com1 (r : reading), line_rep c1 com1 pend → cn_lock c1 = true → (screen_ok c → screen_ok c1) →
      returns (release_cons;; mret r) c1 (λ res c', res = r ∧ line_rep c' com1 pend ∧ cn_lock c' = false
        ∧ (screen_ok c → screen_ok c'))) as Hend.
    { intros c1 com1 r [[] ? ?] Hl1 Hs. eapply returns_bind_eq; [unfold release_cons; by rewrite Hl1|].
      apply returns_ret. split_and!; [done|by split; [split|..]|done|].
      intros [??]%Hs; by split. }
    eapply returns_bind_eq; [done|]. rewrite (rep_waiting _ _ _ Hr).
    destruct com as [|b com]; cbn [read_line]; [by apply Hend|rewrite bool_decide_false by done].
    eapply returns_bind_eq; [eapply ring_first, Hr|]. eapply returns_bind_eq; [done|].
    pose proof (rep_take _ _ _ _ Hr) as Hr1. set (c1 := set_cn_r (u32 (cn_r c + 1)) c) in *.
    assert (screen_ok c → screen_ok c1) as Hs by (intros []; by split).
    destruct (b =? C 68).
    + destruct got as [|g got]; cbn [negb]; (eapply returns_bind_eq; [done|]); [by apply Hend|].
      rewrite decide_False by done. assert (set_cn_r (u32 (cn_r c1 - 1)) c1 = c) as ->; [|by apply Hend].
      pose proof (lr_r _ _ (lr_ring _ _ _ Hr)) as Hu. unfold c1. cbn [cn_r set_cn_r].
      rewrite (u32_succ_pred _ Hu). by destruct c.
    + destruct (b =? 10); [by apply Hend|].
      eapply returns_mono; [by apply (IH (got ++ [b]) com c1)|]. naive_solver.
Qed.

(** C16: The console refines a line editor.  For an input buffer that holds the
    finished lines [com] and the line being edited [pend], with the indices free to
    wrap around:
    - [consoleintr] applies the editing function to each character received
      (erasing, killing the line, finishing it at a newline, an end-of-file mark or a
      full buffer, dropping what does not fit), reports whether the process listing was
      asked for, wakes the readers if it finished a line, and never fails;
    - [consoleread] takes the characters of at most one finished line, up to the
      number wanted, keeps an end-of-file mark that does not come first for the next
      read, and sleeps when there is no finished line. *)
Theorem console_refines_lines c com pend :
  screen_ok c → line_rep c com pend → cn_lock c = false →
  (∀ getc, Forall (λ ch, ch < 256) getc →
     let s := foldl edit (com, pend) (received getc) in
     ∃ c' w, consoleintr getc c = Ret (existsb (λ ch, ch =? C 80) (received getc)) c'
       ∧ screen_ok c' ∧ line_rep c' s.1 s.2 ∧ cn_lock c' = false
       ∧ cn_wakeups c' = cn_wakeups c ++ w ∧ (s.1 = com ∨ ChInput ∈ w))
  ∧ (∀ killed n got, let '(res, com') := read_line killed (Z.to_nat n - length got) got com in
     ∃ c', consoleread killed n got c = Ret res c'
       ∧ screen_ok c' ∧ line_rep c' com' pend ∧ cn_lock c' = false).
Proof.
  intros Hs Hr Hl. assert (acquire_cons c = Ret tt (set_cn_lock true c)) as Ha
    by (unfold acquire_cons; by rewrite Hl).
  assert (screen_ok (set_cn_lock true c) ∧ line_rep (set_cn_lock true c) com pend) as [Hs1 Hr1]
    by (destruct Hs, Hr as [[] ? ?]; split; split; try done; by split).
  split.
  - intros getc Hf. unfold consoleintr. rewrite (bind_ret _ _ _ _ _ Ha).
    assert (handling com (cn_wakeups c) (com, pend) (set_cn_lock true c)) as Hh.
    { split; try done. exists []. cbn. rewrite app_nil_r. auto. }
    pose proof (consoleintr_loop_run com (cn_wakeups c) getc false _ _ Hf Hh) as Hrun.
    apply returns_eq in Hrun as (d & c1 & E & -> & [K1 K2 K3 (w & K4 & K5)]).
    rewrite (bind_ret _ _ _ _ _ E). unfold release_cons. munfold. rewrite K3.
    eexists _, w. split; [done|]. split_and!; try done; [by destruct K1; split|].
    destruct K2 as [[] ? ?]; by split; [split|..].
  - intros killed n got. unfold consoleread. rewrite (bind_ret _ _ _ _ _ Ha).
    pose proof (consoleread_loop_run killed (Z.to_nat n - length got) got com pend _ Hr1 eq_refl) as Hrun.
    destruct (read_line _ _ _ _) as [res com']. apply returns_eq in Hrun as (? & c' & E & -> & H1 & H2 & H3).
    eauto 6.
Qed.

Lemma serial_bytes l : Forall (λ b, 0 <= b < 256) l → mjoin (serial <$> l) = l.
Proof.
  induction 1 as [|b l Hb _ IH]; [done|]. change (serial b ++ mjoin (serial <$> l) = b :: l).
  rewrite IH. unfold serial. by rewrite (proj2 (Z.eqb_neq b BACKSPACE)) by (unfold BACKSPACE; lia).
Qed.

(** C34: Writing to the console keeps the cursor on the screen.  With the cursor in the
    first 24 rows, [consolewrite] returns for any bytes: every one is sent to the
    serial port in order, the cursor ends where the characters lead it, scrolling
    included, and is still in those rows, no cell outside the text memory is touched,
    and the input is as it was. *)
Theorem console_output_bounds c buf n :
  screen_ok c → cn_lock c = false → Forall (λ b, 0 <= b < 256) buf →
  let out := take (Z.to_nat n) buf in
  ∃ c', consolewrite buf n c = Ret n c'
    ∧ 0 <= cn_cursor c' < ROWS24 ∧ length (cn_crt c') = length (cn_crt c)
    ∧ cn_cursor c' = foldl (flip next_cursor) (cn_cursor c) out
    ∧ cn_uart c' = cn_uart c ++ out ∧ output_only c c'.
Proof.
  intros Hs Hl Hb out. unfold consolewrite, acquire_cons. munfold. rewrite Hl. fold out.
  assert (Forall (λ b, 0 <= b < 256) out) as Ho by by apply Forall_take.
  assert (∀ c, mfor out (λ b, consputc (Z.land b 255)) c = mfor out consputc c) as Hland.
  { clear -Ho. induction Ho as [|b l Hb _ IH]; intros c; cbn [mfor]; [done|].
    rewrite (land_byte b Hb). unfold mbind, M_bind. by destruct (consputc b c). }
  rewrite Hland.
  assert (screen_ok (set_cn_lock true c)) as Hs1 by by destruct Hs; split.
  apply (put_all_run out), returns_eq in Hs1 as ([] & c1 & -> & K1 & K2 & K3 & K4).
  destruct K4 as (crt & cur & uart & K4 & ->). unfold release_cons. cbn. eexists. split; [done|].
  split_and!; try done.
  - apply (so_cursor _ K1).
  - apply (so_cursor _ K1).
  - cbn in K3 |- *. by rewrite K3, serial_bytes.
  - exists crt, cur, uart. split; [done|]. destruct c; cbn in *; by rewrite Hl.
Qed.

(** A console after [consoleinit], with an empty screen. *)
Definition fresh_console : console :=
  mkcons false true false (replicate 128 0) (2 ^ 32 - 2) (2 ^ 32 - 2) (2 ^ 32 - 2)
    (replicate 2000 0) (23 * 80 + 79) [] [].

Lemma fresh_console_ok : screen_ok fresh_console ∧ line_rep fresh_console [] [].
Proof. by repeat split; cbn; try lia; try set_solver. Qed.

(** [ls], an erased character and a newline are typed across the wrap of the indices. *)
Lemma console_refines_lines_witness :
  ∃ c' w, consoleintr [108; 120; 8; 115; 13; -1] fresh_console = Ret false c'
    ∧ screen_ok c' ∧ line_rep c' [108; 115; 10] [] ∧ cn_lock c' = false
    ∧ cn_wakeups c' = [] ++ w ∧ ([108; 115; 10] = [] ∨ ChInput ∈ w).
Proof.
  exact (proj1 (console_refines_lines fresh_console [] [] (proj1 fresh_console_ok) (proj2 fresh_console_ok) eq_refl)
    [108; 120; 8; 115; 13; -1] ltac:(repeat constructor)).
Defined.

(** The last row scrolls. *)
Lemma console_output_bounds_witness :
  ∃ c', consolewrite [97; 98; 99] 3 fresh_console = Ret 3 c'
    ∧ 0 <= cn_cursor c' < ROWS24 ∧ length (cn_crt c') = 2000%nat
    ∧ cn_cursor c' = 23 * 80 + 2
    ∧ cn_uart c' = [97; 98; 99] ∧ output_only fresh_console c'.
Proof.
  exact (console_output_bounds fresh_console [97; 98; 99] 3 (proj1 fresh_console_ok) eq_refl
    ltac:(repeat constructor; lia)).
Defined.
