(* ===== verification/Spinlock.v ===== *)
(** * Spin locks (spinlock.c)

    One lock and the processors that use it.  A processor has its interrupt flag and
    the two fields of [struct cpu] that [pushcli] and [popcli] maintain.  The pieces
    of [acquire] and [release] between which another processor can run are separate
    definitions; [lock_step] interleaves them. *)
From S2P Require Import Prelude Params Str Kalloc.

(** [ncli] and [intena] of [struct cpu], and FL_IF of the processor's eflags. *)
Record cpu := mkcpu { c_ncli : Z; c_intena : bool; c_if : bool }.

(** [struct spinlock] *)
Record spinlock := mkspin { lk_locked : Z; lk_cpu : option nat; lk_pcs : list Z }.

Record machine := mkmachine { cpus : list cpu; lk : spinlock }.

Definition set_cpus (v : list cpu) (s : machine) : machine := mkmachine v (lk s).
Definition set_lk (v : spinlock) (s : machine) : machine := mkmachine (cpus s) v.

(** [mycpu()], on processor [c] *)
Definition getcpu (c : nat) : M machine cpu := s ← get; deref (cpus s !! c).
Definition putcpu (c : nat) (v : cpu) : M machine unit := modify (λ s, set_cpus (<[c := v]> (cpus s)) s).

Definition initlock : M machine unit := modify (λ s, set_lk (mkspin 0 None (lk_pcs (lk s))) s).

Definition pushcli (c : nat) : M machine unit :=
  v ← getcpu c;
  let eflags_if := c_if v in
  putcpu c (mkcpu (c_ncli v + 1) (if c_ncli v =? 0 then eflags_if else c_intena v) false).

Definition popcli (c : nat) : M machine unit :=
  v ← getcpu c;
  if c_if v then panic "popcli - interruptible" else
  let ncli := c_ncli v - 1 in
  if ncli <? 0 then panic "popcli" else
  putcpu c (mkcpu ncli (c_intena v) (if (ncli =? 0) && c_intena v then true else c_if v)).

Definition holding (c : nat) : M machine bool :=
  pushcli c;;
  s ← get;
  popcli c;;
  mret (negb (lk_locked (lk s) =? 0) && bool_decide (lk_cpu (lk s) = Some c)).

(** The call stack: [v] is the address of the argument, [m] the memory. *)
Fixpoint callerpcs_loop (m : mem) (ebp : Z) (n : nat) : list Z :=
  match n with
  | O => []
  | S n' =>
      if (ebp =? 0) || (ebp <? KERNBASE) || (ebp =? 4294967295) then replicate n 0 else
      load_word m (ebp + 4) :: callerpcs_loop m (load_word m ebp) n'
  end.
Definition getcallerpcs (m : mem) (v : Z) : list Z := callerpcs_loop m (u32 (v - 8)) 10.

(** *** acquire *)

(** [pushcli(); if(holding(lk)) panic("acquire")] *)
Definition acquire_enter (c : nat) : M machine unit :=
  pushcli c;;
  h ← holding c;
  if (h : bool) then panic "acquire" else mret tt.

(** [xchg(&lk->locked, 1)] *)
Definition xchg_locked : M machine Z :=
  s ← get;
  modify (set_lk (mkspin 1 (lk_cpu (lk s)) (lk_pcs (lk s))));;
  mret (lk_locked (lk s)).

(** [lk->cpu = mycpu(); getcallerpcs(&lk, lk->pcs)] *)
Definition acquire_record (c : nat) (pcs : list Z) : M machine unit :=
  modify (λ s, set_lk (mkspin (lk_locked (lk s)) (Some c) pcs) s).

Fixpoint acquire_spin (fuel : nat) : M machine unit :=
  match fuel with
  | O => fault
  | S fuel' => old ← xchg_locked; if negb (old =? 0) then acquire_spin fuel' else mret tt
  end.

(** [acquire] on a processor that is not disturbed: one turn of the loop gets a free
    lock, no number of turns gets a taken one. *)
Definition acquire (fuel c : nat) (pcs : list Z) : M machine unit :=
  acquire_enter c;;
  acquire_spin fuel;;
  acquire_record c pcs.

(** *** release *)
Definition release_clear (c : nat) : M machine unit :=
  h ← holding c;
  if negb h then panic "release" else
  modify (λ s, set_lk (mkspin (lk_locked (lk s)) None (<[0%nat := 0]> (lk_pcs (lk s)))) s).

Definition release_unlock : M machine unit :=
  modify (λ s, set_lk (mkspin 0 (lk_cpu (lk s)) (lk_pcs (lk s))) s).

Definition release (c : nat) : M machine unit :=
  release_clear c;;
  release_unlock;;
  popcli c.

(** ** Interleaving

    Where a processor is with respect to the lock. *)
Inductive place :=
| Outside
| Spinning   (* in the loop of acquire *)
| Recording  (* has the lock, before acquire returns *)
| Inside     (* between acquire and release *)
| Clearing   (* in release, before locked is cleared *)
| Leaving.   (* in release, before popcli *)

#[export] Instance place_eq_dec : EqDecision place.
Proof. solve_decision. Defined.

Inductive lock_step : machine * list place → machine * list place → Prop :=
| ls_interrupts s ps c v b :
    ps !! c = Some Outside → cpus s !! c = Some v → c_ncli v = 0 →
    lock_step (s, ps) (set_cpus (<[c := mkcpu 0 (c_intena v) b]> (cpus s)) s, ps)
| ls_enter s s' ps c :
    ps !! c = Some Outside → acquire_enter c s = Ret tt s' →
    lock_step (s, ps) (s', <[c := Spinning]> ps)
| ls_spin s s' ps c old :
    ps !! c = Some Spinning → xchg_locked s = Ret old s' → old ≠ 0 →
    lock_step (s, ps) (s', ps)
| ls_get s s' ps c :
    ps !! c = Some Spinning → xchg_locked s = Ret 0 s' →
    lock_step (s, ps) (s', <[c := Recording]> ps)
| ls_record s s' ps c pcs :
    ps !! c = Some Recording → acquire_record c pcs s = Ret tt s' →
    lock_step (s, ps) (s', <[c := Inside]> ps)
| ls_clear s s' ps c :
    ps !! c = Some Inside → release_clear c s = Ret tt s' →
    lock_step (s, ps) (s', <[c := Clearing]> ps)
| ls_unlock s s' ps c :
    ps !! c = Some Clearing → release_unlock s = Ret tt s' →
    lock_step (s, ps) (s', <[c := Leaving]> ps)
| ls_leave s s' ps c :
    ps !! c = Some Leaving → popcli c s = Ret tt s' →
    lock_step (s, ps) (s', <[c := Outside]> ps).

(** The processor has the lock. *)
Definition has_lock (p : place) : bool :=
  match p with Recording | Inside | Clearing => true | _ => false end.

(** ** Invariant *)
Section mutex.
Implicit Types (s : machine) (ps : list place).

Definition cpu_ok (p : place) (v : cpu) : Prop :=
  match p with Outside => c_ncli v = 0 | _ => c_ncli v = 1 ∧ c_if v = false end.

Record lock_inv s ps : Prop := {
  li_len : length (cpus s) = length ps;
  li_cpu : ∀ (c : nat) p v, ps !! c = Some p → cpus s !! c = Some v → cpu_ok p v;
  li_locked : lk_locked (lk s) ≠ 0 ↔ ∃ (c : nat) p, ps !! c = Some p ∧ has_lock p = true;
  li_one : ∀ (c d : nat) p q, ps !! c = Some p → ps !! d = Some q →
    has_lock p = true → has_lock q = true → c = d;
  li_owner : ∀ (c : nat), lk_cpu (lk s) = Some c ↔ ps !! c = Some Inside;
}.

Lemma getcpu_eq c s v : cpus s !! c = Some v → getcpu c s = Ret v s.
Proof. intros H. unfold getcpu. munfold. by rewrite H. Qed.

Lemma pushcli_eq c s v : cpus s !! c = Some v →
  pushcli c s = Ret tt (set_cpus (<[c := mkcpu (c_ncli v + 1)
    (if c_ncli v =? 0 then c_if v else c_intena v) false]> (cpus s)) s).
Proof. intros H. unfold pushcli. by rewrite (bind_ret _ _ _ _ _ (getcpu_eq c s v H)). Qed.

Lemma popcli_eq c s v : cpus s !! c = Some v → c_if v = false → 1 <= c_ncli v →
  popcli c s = Ret tt (set_cpus (<[c := mkcpu (c_ncli v - 1) (c_intena v)
    ((c_ncli v - 1 =? 0) && c_intena v)]> (cpus s)) s).
Proof.
  intros H Hi Hn. unfold popcli. rewrite (bind_ret _ _ _ _ _ (getcpu_eq c s v H)), Hi.
  destruct (Z.ltb_spec (c_ncli v - 1) 0); [lia|]. by destruct (_ && _).
Qed.

(** [holding] leaves the state as it is: its push and pop cancel out. *)
Lemma holding_eq c s v : cpus s !! c = Some v → 0 <= c_ncli v → (0 < c_ncli v → c_if v = false) →
  ∃ v', holding c s = Ret (negb (lk_locked (lk s) =? 0) && bool_decide (lk_cpu (lk s) = Some c))
      (set_cpus (<[c := v']> (cpus s)) s)
    ∧ c_ncli v' = c_ncli v ∧ c_if v' = c_if v ∧ (0 < c_ncli v → c_intena v' = c_intena v).
Proof.
  intros H Hn Hi. unfold holding. rewrite (bind_ret _ _ _ _ _ (pushcli_eq c s v H)).
  unfold get. erewrite bind_ret by reflexivity.
  set (v1 := mkcpu (c_ncli v + 1) _ false).
  erewrite bind_ret.
  2:{ apply (popcli_eq c _ v1); [|done|cbn; lia]. cbn. apply list_lookup_insert_eq. by eapply lookup_lt_Some. }
  eexists. split; [cbn; by rewrite list_insert_insert_eq|]. cbn.
  replace (c_ncli v + 1 - 1) with (c_ncli v) by lia. split_and!; [done| |].
  - destruct (Z.eqb_spec (c_ncli v) 0) as [H0|H0]; [done|]. cbn. symmetry. apply Hi. lia.
  - intros Hp. destruct (Z.eqb_spec (c_ncli v) 0); [lia|done].
Qed.

Lemma enter_eq c s ps v : lock_inv s ps → ps !! c = Some Outside → cpus s !! c = Some v →
  ∃ v', acquire_enter c s = Ret tt (set_cpus (<[c := v']> (cpus s)) s)
    ∧ c_ncli v' = 1 ∧ c_if v' = false ∧ c_intena v' = c_if v.
Proof.
  intros [L1 L2 L3 L4 L5] Hp Hv. pose proof (L2 c _ v Hp Hv) as H0. cbn in H0.
  unfold acquire_enter. rewrite (bind_ret _ _ _ _ _ (pushcli_eq c s v Hv)).
  rewrite H0. cbn [Z.eqb Z.add]. set (v1 := mkcpu 1 (c_if v) false).
  destruct (holding_eq c (set_cpus (<[c := v1]> (cpus s)) s) v1) as (v2 & E & N2 & I2 & A2);
    [cbn; apply list_lookup_insert_eq; by eapply lookup_lt_Some|cbn; lia|done|].
  rewrite (bind_ret _ _ _ _ _ E). cbn [lk set_cpus].
  rewrite (bool_decide_false (lk_cpu (lk s) = Some c)).
  - rewrite andb_false_r. exists v2. cbn. rewrite list_insert_insert_eq. split_and!; [done..|].
    rewrite A2; [done|cbn; lia].
  - rewrite L5. congruence.
Qed.

Lemma clear_eq c s ps v : lock_inv s ps → ps !! c = Some Inside → cpus s !! c = Some v →
  ∃ v', release_clear c s = Ret tt (mkmachine (<[c := v']> (cpus s))
      (mkspin (lk_locked (lk s)) None (<[0%nat := 0]> (lk_pcs (lk s)))))
    ∧ c_ncli v' = 1 ∧ c_if v' = false.
Proof.
  intros [L1 L2 L3 L4 L5] Hp Hv. pose proof (L2 c _ v Hp Hv) as [H1 H2].
  destruct (holding_eq c s v Hv) as (v2 & E & N2 & I2 & A2); [lia|done|].
  unfold release_clear. rewrite (bind_ret _ _ _ _ _ E).
  rewrite bool_decide_true by (by apply L5).
  assert (lk_locked (lk s) ≠ 0) as Hl by (apply L3; eauto).
  destruct (Z.eqb_spec (lk_locked (lk s)) 0); [done|]. cbn.
  exists v2. split_and!; [done|congruence|congruence].
Qed.

(** One processor moves from place [p] to [q]. *)
Lemma inv_move s s' ps c p q v :
  lock_inv s ps → ps !! c = Some p → cpus s !! c = Some v →
  (∃ v', cpus s' = <[c := v']> (cpus s) ∧ cpu_ok q v') →
  (has_lock q = true → has_lock p = true ∨ lk_locked (lk s) = 0) →
  (lk_locked (lk s') ≠ 0 ↔ has_lock q = true ∨ (has_lock p = false ∧ lk_locked (lk s) ≠ 0)) →
  (∀ d, lk_cpu (lk s') = Some d ↔ if decide (d = c) then q = Inside else p ≠ Inside ∧ q ≠ Inside ∧ lk_cpu (lk s) = Some d) →
  lock_inv s' (<[c := q]> ps).
Proof.
  intros [L1 L2 L3 L4 L5] Hp Hv (v' & Hc & Hok) Hget Hlk Hown.
  pose proof (lookup_lt_Some _ _ _ Hp) as Hlt. pose proof (lookup_lt_Some _ _ _ Hv) as Hlt'.
  assert (∀ d x, <[c := q]> ps !! d = Some x → d = c ∧ x = q ∨ d ≠ c ∧ ps !! d = Some x) as Hl.
  { intros d x. destruct (decide (d = c)) as [->|Hn].
    - rewrite list_lookup_insert_eq by done. intros [= <-]. by left.
    - rewrite list_lookup_insert_ne by done. by right. }
  assert (∀ d x, d ≠ c → ps !! d = Some x → has_lock x = true → has_lock q = false) as Hexcl.
  { intros d x Hn Hx Hh. destruct (has_lock q) eqn:Eq; [|done]. destruct (Hget eq_refl) as [Hhp|H0].
    - by destruct Hn; apply (L4 d c x p).
    - exfalso. apply L3; [|done]. eauto. }
  split.
  - rewrite Hc, !length_insert. done.
  - intros d x w [[-> ->]|[Hn Hx]]%Hl; rewrite Hc.
    + rewrite list_lookup_insert_eq by done. by intros [= <-].
    + rewrite list_lookup_insert_ne by done. by eapply L2.
  - rewrite Hlk. split.
    + intros [Hq|[Hhp Hl0]].
      * exists c, q. split; [by apply list_lookup_insert_eq|done].
      * apply L3 in Hl0 as (d & x & Hx & Hh). exists d, x. split; [|done].
        rewrite list_lookup_insert_ne; [done|]. intros ->. congruence.
    + intros (d & x & [[-> ->]|[Hn Hx]]%Hl & Hh); [by left|].
      destruct (has_lock p) eqn:Eh; [by destruct Hn; apply (L4 d c x p)|].
      right. split; [done|]. apply L3. eauto.
  - intros d e x y [[-> ->]|[Hn Hx]]%Hl [[-> ->]|[Hn' Hy]]%Hl Hhx Hhy; try done.
    + by rewrite (Hexcl e y) in Hhx.
    + by rewrite (Hexcl d x) in Hhy.
    + by apply (L4 d e x y).
  - intros d. rewrite Hown. destruct (decide (d = c)) as [->|Hn].
    + rewrite list_lookup_insert_eq by done. split; [by intros ->|congruence].
    + rewrite list_lookup_insert_ne by done. rewrite L5. split; [tauto|]. intros Hd. split_and!; [| |done].
      * intros ->. destruct Hn. by apply (L4 d c Inside Inside).
      * intros ->. by specialize (Hexcl d Inside Hn Hd eq_refl).
Qed.

Lemma lock_step_inv s ps s' ps' : lock_step (s, ps) (s', ps') → lock_inv s ps → lock_inv s' ps'.
Proof.
  intros Hstep Hinv. pose proof Hinv as [L1 L2 L3 L4 L5].
  assert (∀ c p, ps !! c = Some p → ∃ v, cpus s !! c = Some v) as Hcpu.
  { intros c p Hp. apply lookup_lt_is_Some. rewrite L1. by eapply lookup_lt_Some. }
  assert (∀ c v, cpus s !! c = Some v → <[c := v]> (cpus s) = cpus s) as Hid by (intros; by apply list_insert_id).
  inversion Hstep as [? ? c v b Hp Hv H0|? ? ? c Hp E|? ? ? c old Hp E Ho|? ? ? c Hp E|? ? ? c pcs Hp E
    |? ? ? c Hp E|? ? ? c Hp E|? ? ? c Hp E]; subst; try destruct (Hcpu c _ Hp) as [v Hv].
  - rewrite <-(list_insert_id ps' c Outside Hp). eapply (inv_move s); [done|done|done|by eexists|done| |].
    + cbn. split; [by right|by intros [?|[_ ?]]].
    + intros d. cbn. rewrite !L5. case_decide as Hd; [subst; split; congruence|]. naive_solver.
  - destruct (enter_eq c s ps v Hinv Hp Hv) as (v' & E' & N & I & _). rewrite E' in E. injection E as <-.
    eapply (inv_move s); [done|done|done|by eexists|done| |].
    + cbn. split; [by right|by intros [?|[_ ?]]].
    + intros d. cbn. rewrite !L5. case_decide as Hd; [subst; split; congruence|]. naive_solver.
  - injection E as <- <-. rewrite <-(list_insert_id ps' c Spinning Hp).
    eapply (inv_move s); [done|done|done| |done| |].
    + exists v. split; [symmetry; by apply Hid|by eapply L2].
    + cbn. split; [by right|done].
    + intros d. cbn. rewrite !L5. case_decide as Hd; [subst; split; congruence|]. naive_solver.
  - injection E as H0 <-. eapply (inv_move s); [done|done|done| |by right| |].
    + exists v. split; [symmetry; by apply Hid|by apply (L2 c Spinning)].
    + cbn. split; [by left|done].
    + intros d. cbn. rewrite !L5. case_decide as Hd; [subst; split; congruence|]. naive_solver.
  - injection E as <-. eapply (inv_move s); [done|done|done| |by left| |].
    + exists v. split; [symmetry; by apply Hid|by apply (L2 c Recording)].
    + cbn. split; [by left|]. intros _. apply L3. eauto.
    + intros d. cbn. case_decide as Hd; [subst; by split|]. split; [congruence|tauto].
  - destruct (clear_eq c s ps v Hinv Hp Hv) as (v' & E' & N & I). rewrite E' in E. injection E as <-.
    eapply (inv_move s); [done|done|done|by eexists|by left| |].
    + cbn. split; [by left|]. intros _. apply L3. eauto.
    + intros d. cbn. case_decide; naive_solver.
  - injection E as <-. eapply (inv_move s); [done|done|done| |done| |].
    + exists v. split; [symmetry; by apply Hid|by apply (L2 c Clearing)].
    + cbn. split; [done|]. by intros [?|[? _]].
    + intros d. cbn. rewrite !L5. case_decide as Hd; [subst; split; congruence|]. naive_solver.
  - pose proof (L2 c _ v Hp Hv) as [N I]. rewrite (popcli_eq c s v Hv I) in E by lia. injection E as <-.
    eapply (inv_move s); [done|done|done|eexists; split; [reflexivity|cbn; lia]|done| |].
    + cbn. split; [by right|by intros [?|[_ ?]]].
    + intros d. cbn. rewrite !L5. case_decide as Hd; [subst; split; congruence|]. naive_solver.
Qed.
End mutex.

(** ** The theorem *)

(** All processors outside, the lock free, interrupts as they may be. *)
Definition lock_idle (s : machine) (ps : list place) : Prop :=
  length (cpus s) = length ps ∧ Forall (λ p, p = Outside) ps ∧ Forall (λ v, c_ncli v = 0) (cpus s)
  ∧ lk_locked (lk s) = 0 ∧ lk_cpu (lk s) = None.

Lemma lock_idle_inv s ps : lock_idle s ps → lock_inv s ps.
Proof.
  intros (H1 & H2 & H3 & H4 & H5). rewrite Forall_lookup in H2. rewrite Forall_lookup in H3.
  split; [done|..].
  - intros c p v Hp Hv. rewrite (H2 _ _ Hp). by apply (H3 c).
  - split; [done|]. intros (c & p & Hp & Hh). by rewrite (H2 _ _ Hp) in Hh.
  - intros c d p q Hp _ Hh. by rewrite (H2 _ _ Hp) in Hh.
  - intros c. rewrite H5. split; [done|]. intros Hc. by apply H2 in Hc.
Qed.

(** C6: a spin lock excludes, and disables interrupts while it is held.  In every
    state the processors can reach by interleaving the steps of [acquire] and
    [release]: at most one of them is between the exchange that takes the lock and
    the store that frees it; a processor that is past [pushcli] in [acquire] has its
    interrupts off; a processor outside does not panic when it enters [acquire], and
    one that holds the lock does not panic in [release]; and a processor that has
    released has its interrupts back as [pushcli] found them. *)
Theorem spinlock_excludes s0 ps0 s ps :
  lock_idle s0 ps0 → rtc lock_step (s0, ps0) (s, ps) →
  (∀ (c d : nat) p q, ps !! c = Some p → ps !! d = Some q →
     has_lock p = true → has_lock q = true → c = d)
  ∧ (∀ (c : nat) p v, ps !! c = Some p → p ≠ Outside → cpus s !! c = Some v → c_if v = false)
  ∧ (∀ c v, ps !! c = Some Outside → cpus s !! c = Some v →
       ∃ s' v', acquire_enter c s = Ret tt s' ∧ cpus s' !! c = Some v' ∧ c_intena v' = c_if v)
  ∧ (∀ c, ps !! c = Some Inside → ∃ s', release_clear c s = Ret tt s')
  ∧ (∀ c v, ps !! c = Some Leaving → cpus s !! c = Some v →
       ∃ s' v', popcli c s = Ret tt s' ∧ cpus s' !! c = Some v' ∧ c_if v' = c_intena v).
Proof.
  intros H0 Hsteps. apply lock_idle_inv in H0.
  assert (lock_inv s ps) as Hinv.
  { revert H0. remember (s0, ps0) as a eqn:Ea. remember (s, ps) as b eqn:Eb. revert s0 ps0 Ea.
    induction Hsteps as [|a [s1 ps1] b Hst _ IH]; intros s0 ps0 -> H0; [by simplify_eq|].
    eapply IH; [done|done|]. by eapply lock_step_inv. }
  pose proof Hinv as [L1 L2 L3 L4 L5].
  assert (∀ (c : nat) p, ps !! c = Some p → ∃ v, cpus s !! c = Some v) as Hcpu.
  { intros c p Hp. apply lookup_lt_is_Some. rewrite L1. by eapply lookup_lt_Some. }
  split_and!.
  - done.
  - intros c p v Hp Hn Hv. specialize (L2 c p v Hp Hv). destruct p; try done; apply L2.
  - intros c v Hp Hv. destruct (enter_eq c s ps v Hinv Hp Hv) as (v' & E & _ & _ & A).
    exists (set_cpus (<[c := v']> (cpus s)) s), v'. split_and!; [done| |done].
    cbn. apply list_lookup_insert_eq. by eapply lookup_lt_Some.
  - intros c Hp. destruct (Hcpu c _ Hp) as [v Hv].
    destruct (clear_eq c s ps v Hinv Hp Hv) as (v' & E & _). eauto.
  - intros c v Hp Hv. pose proof (L2 c _ v Hp Hv) as [N I]. eexists _, _.
    rewrite (popcli_eq c s v Hv I) by lia. split_and!; [done| |].
    + cbn. apply list_lookup_insert_eq. by eapply lookup_lt_Some.
    + cbn. by rewrite N.
Qed.

Definition two_cpus : machine := mkmachine [mkcpu 0 true true; mkcpu 0 false true] (mkspin 0 None []).

(** Processor 0 is in the critical section, processor 1 spins. *)
Definition contended : machine :=
  mkmachine [mkcpu 1 true false; mkcpu 1 true false] (mkspin 1 (Some 0%nat) [1; 2]).

Lemma contended_reachable :
  rtc lock_step (two_cpus, [Outside; Outside]) (contended, [Inside; Spinning]).
Proof.
  eapply rtc_l; [eapply (ls_enter _ _ [Outside; Outside] 0%nat); reflexivity|].
  eapply rtc_l; [eapply (ls_enter _ _ [Spinning; Outside] 1%nat); reflexivity|].
  eapply rtc_l; [eapply (ls_get _ _ [Spinning; Spinning] 0%nat); reflexivity|].
  eapply rtc_l; [eapply (ls_spin _ _ [Recording; Spinning] 1%nat 1); [reflexivity..|done]|].
  eapply rtc_l; [eapply (ls_record _ _ [Recording; Spinning] 0%nat [1; 2]); reflexivity|].
  apply rtc_refl.
Qed.

Lemma spinlock_excludes_witness : ∃ s', release_clear 0 contended = Ret tt s'.
Proof.
  refine (proj1 (proj2 (proj2 (proj2 (spinlock_excludes two_cpus [Outside; Outside]
    contended [Inside; Spinning] _ contended_reachable)))) 0%nat _).
  - repeat split; repeat constructor.
  - reflexivity.
Defined.
