(* ===== verification/Proc.v ===== *)
(** * Processes and threads (proc.c)

    One definition per function of proc.c over the process table and an environment
    [E] that stands for memory, files and the file system: [ProcEnv] names the
    functions of the other files that proc.c calls.  A function that ends in
    [sched()] is cut there: its definition returns when control has gone to the
    scheduler, and what the code does when it is scheduled again is a definition of
    its own.  Locks other than the three of proc.c and myscheduler.c are not in the
    state; the contents of a new kernel stack (the return address and the saved
    context) are not represented, the trap frame is [p_tf]. *)
From S2P Require Import Prelude Params ProcState Sched.

Class ProcEnv (E : Type) := {
  e_kalloc : M E Z;
  e_kfree : Z → M E unit;
  e_setupkvm : M E Z;
  e_inituvm : Z → M E unit;  (* with the initcode *)
  e_allocuvm : Z → Z → Z → M E Z;
  e_deallocuvm : Z → Z → Z → M E Z;
  e_copyuvm : Z → Z → M E Z;
  e_freevm : Z → M E unit;
  e_clearpteu : Z → Z → M E unit;
  e_copyout : Z → Z → list Z → M E Z;
  e_switchuvm : Z → Z → M E unit;  (* kstack and pgdir of the process *)
  e_switchkvm : M E unit;
  e_filedup : nat → M E nat;
  e_fileclose : nat → M E unit;
  e_idup : nat → M E nat;
  e_iput : nat → M E unit;
  e_begin_op : M E unit;
  e_end_op : M E unit;
  e_namei_root : M E (option nat);
  e_fs_init : M E unit;  (* iinit(ROOTDEV); initlog(ROOTDEV) *)
}.

Record pstate (E : Type) := mkpstate { ps_k : kstate; ps_env : E }.
Arguments mkpstate {E}.
Arguments ps_k {E}.
Arguments ps_env {E}.

(** The little-endian bytes of [uint ustack[3]]. *)
Definition word_bytes (w : Z) : list Z :=
  [w mod 2 ^ 8; (w / 2 ^ 8) mod 2 ^ 8; (w / 2 ^ 16) mod 2 ^ 8; (w / 2 ^ 24) mod 2 ^ 8].

(** [safestrcpy(s, t, n)] on arrays: at most [n - 1] characters up to and with the NUL,
    then another NUL; what follows in [s] stays. *)
Definition copy_name (s t : list Z) : list Z :=
  let c := take (length s - 1) (cstring t ++ [0]) ++ [0] in c ++ drop (length c) s.

Section proc.
Context {E : Type} `{!ProcEnv E}.
Abbreviation PM := (M (pstate E)).

Definition on_k {A} (m : M kstate A) : PM A := λ s,
  match m (ps_k s) with
  | Ret a k => Ret a (mkpstate k (ps_env s))
  | Panic msg => Panic msg
  | Fault => Fault
  | Asleep c k => Asleep c (mkpstate k (ps_env s))
  end.
Definition on_env {A} (m : M E A) : PM A := λ s,
  match m (ps_env s) with
  | Ret a e => Ret a (mkpstate (ps_k s) e)
  | Panic msg => Panic msg
  | Fault => Fault
  | Asleep c e => Asleep c (mkpstate (ps_k s) e)
  end.

Definition getp (i : nat) : PM proc := on_k (ProcState.getp i).
Definition updp (i : nat) (f : proc → proc) : PM unit := on_k (ProcState.updp i f).
Definition myproc : PM nat := on_k ProcState.myproc.
Definition acquire_ptable : PM unit := on_k ProcState.acquire_ptable.
Definition release_ptable : PM unit := on_k ProcState.release_ptable.
Definition acquire_thread : PM unit := on_k ProcState.acquire_thread.
Definition release_thread : PM unit := on_k ProcState.release_thread.

Definition pinit : PM unit := on_k (modify (set_ptable_lock false)).

(** *** Allocation *)

(** The first [UNUSED] slot, made [EMBRYO] with a new pid. *)
Definition find_unused : PM (option nat) :=
  acquire_ptable;;
  k ← on_k get;
  match list_find (λ p, p_state p = UNUSED) (ptable k) with
  | None => release_ptable;; mret None
  | Some (p, _) =>
      updp p (set_p_state EMBRYO);;
      updp p (set_p_pid (nextpid k));;
      on_k (modify (set_nextpid (s32 (nextpid k + 1))));;
      release_ptable;;
      mret (Some p)
  end.

(** The kernel stack; [false] when there is no memory. *)
Definition alloc_kstack (p : nat) : PM bool :=
  ks ← on_env e_kalloc;
  updp p (set_p_kstack ks);;
  if ks =? 0 then updp p (set_p_state UNUSED);; mret false else mret true.

Definition allocproc : PM (option nat) :=
  found ← find_unused;
  match found with
  | None => mret None
  | Some p =>
      ok ← alloc_kstack p;
      if negb ok then mret None else
      on_k (push_MLFQ p 0);;
      updp p (set_p_mystride (Some 0%nat));;
      mret (Some p)
  end.

(** The loop that puts a thread into the first empty slot of its master. *)
Definition add_worker (master p : nat) : PM unit :=
  m ← getp master;
  match list_find (λ w, w = None) (take NTHRE (p_workerthread m)) with
  | Some (i, _) =>
      updp master (set_p_workerthread (<[i := Some p]> (p_workerthread m)));;
      updp master (λ m, set_p_threadcnt (s32 (p_threadcnt m + 1)) m);;
      updp p (set_p_tindex (Z.of_nat i))
  | None => panic "no more threading"
  end.

Definition allocthread (master : nat) : PM (option nat) :=
  found ← find_unused;
  match found with
  | None => mret None
  | Some p =>
      ok ← alloc_kstack p;
      if negb ok then mret None else
      m ← getp master;
      updp p (set_p_parent (p_parent m));;
      updp p (set_p_master (Some master));;
      updp p (set_p_pgdir (p_pgdir m));;
      updp p (set_p_isthread 1);;
      updp master (set_p_isthread 1);;
      updp p (set_p_fqtick (p_fqtick m));;
      updp p (set_p_level (p_level m));;
      updp p (set_p_mystride (p_mystride m));;
      updp p (set_p_isstride (p_isstride m));;
      add_worker master p;;
      mret (Some p)
  end.

Definition allocusrstack (master new : nat) : PM Z :=
  acquire_thread;;
  m ← getp master;
  let guard :=
    n ← getp new;
    on_env (e_clearpteu (p_pgdir m) (u32 (p_sz n - 2 * PGSIZE)));;
    release_thread;;
    mret 0 in
  match list_find (λ a, a ≠ 0) (take NTHRE (p_freeusrspace m)) with
  | Some (i, a) =>
      sz ← on_env (e_allocuvm (p_pgdir m) a (u32 (a + 2 * PGSIZE)));
      updp new (set_p_sz sz);;
      if sz =? 0 then release_thread;; mret (-1) else
      updp master (set_p_freeusrspace (<[i := 0]> (p_freeusrspace m)));;
      guard
  | None =>
      sz ← on_env (e_allocuvm (p_pgdir m) (p_sz m) (u32 (p_sz m + 2 * PGSIZE)));
      updp new (set_p_sz sz);;
      if sz =? 0 then release_thread;; mret (-1) else
      updp master (set_p_sz sz);;
      guard
  end.

Definition deallocstack (worker : nat) : PM Z :=
  acquire_thread;;
  w ← getp worker;
  on_env (e_kfree (p_kstack w));;
  master ← deref (p_master w);
  m ← getp master;
  match list_find (λ a, a = 0) (take NTHRE (p_freeusrspace m)) with
  | Some (i, _) =>
      a ← on_env (e_deallocuvm (p_pgdir w) (p_sz w) (u32 (p_sz w - 2 * PGSIZE)));
      updp master (set_p_freeusrspace (<[i := a]> (p_freeusrspace m)));;
      release_thread;;
      mret (if a =? 0 then -1 else 0)
  | None => release_thread;; mret (-1)
  end.

(** *** Files of a process *)

(** [for(i = 0; i < NOFILE; i++) if(from->ofile[i]) to->ofile[i] = filedup(...)] *)
Definition dup_files (from to : nat) : PM unit :=
  mfor (seq 0 NOFILE) (λ i,
    pr ← getp from;
    f ← deref (p_ofile pr !! i);
    match f with
    | None => mret tt
    | Some f =>
        g ← on_env (e_filedup f);
        updp to (λ t, set_p_ofile (<[i := Some g]> (p_ofile t)) t)
    end).

Definition dup_cwd (from to : nat) : PM unit :=
  pr ← getp from;
  d ← deref (p_cwd pr);
  d' ← on_env (e_idup d);
  updp to (set_p_cwd (Some d')).

Definition close_files (p : nat) : PM unit :=
  mfor (seq 0 NOFILE) (λ fd,
    pr ← getp p;
    f ← deref (p_ofile pr !! fd);
    match f with
    | None => mret tt
    | Some f =>
        on_env (e_fileclose f);;
        updp p (λ t, set_p_ofile (<[fd := None]> (p_ofile t)) t)
    end).

(** [begin_op(); iput(p->cwd); end_op(); p->cwd = 0] *)
Definition drop_cwd (p : nat) : PM unit :=
  on_env e_begin_op;;
  pr ← getp p;
  d ← deref (p_cwd pr);
  on_env (e_iput d);;
  on_env e_end_op;;
  updp p (set_p_cwd None).

(** *** Scheduling *)

(** [wakeup1]: the channel of a process is the process. *)
Definition wakeup1 (c : chan) : PM unit :=
  mfor (seq 0 NPROC) (λ i,
    p ← getp i;
    if bool_decide (p_state p = SLEEPING ∧ p_chan p = Some c)
    then updp i (set_p_state RUNNABLE) else mret tt).

Definition wakeup (c : chan) : PM unit :=
  acquire_ptable;;
  wakeup1 c;;
  release_ptable.

(** A null pointer as a channel matches the processes that sleep on no channel. *)
Definition wakeup1_proc (p : option nat) : PM unit :=
  match p with
  | Some i => wakeup1 (ChProc i)
  | None => mfor (seq 0 NPROC) (λ i,
      p ← getp i;
      if bool_decide (p_state p = SLEEPING ∧ p_chan p = None)
      then updp i (set_p_state RUNNABLE) else mret tt)
  end.

(** The spin locks this processor holds, [mycpu()->ncli]. *)
Definition locks_held (k : kstate) : Z :=
  Z.b2z (ptable_lock k) + Z.b2z (FQ_ticklock k) + Z.b2z (threadlock k).

Definition sched : PM unit :=
  k ← on_k get;
  if negb (ptable_lock k) then panic "sched ptable.lock" else
  if negb (locks_held k =? 1) then panic "sched locks" else
  p ← myproc;
  pr ← getp p;
  if decide (p_state pr = RUNNING) then panic "sched running" else
  mret tt.

(** [yield] up to the switch, and after it. *)
Definition yield_begin : PM unit :=
  acquire_ptable;;
  p ← myproc;
  updp p (set_p_state RUNNABLE);;
  sched.
Definition yield_end : PM unit := release_ptable.

(** [sleep(chan, lk)] up to the switch; for the channel [None] is a null pointer, for
    the lock [None] is [&ptable.lock]. *)
Definition sleep_begin (c : option chan) (release_lk : option (PM unit)) : PM unit :=
  cur ← on_k (gets cpu_proc);
  match cur with
  | None => panic "sleep"
  | Some p =>
      match release_lk with None => mret tt | Some rel => acquire_ptable;; rel end;;
      updp p (set_p_chan c);;
      updp p (set_p_state SLEEPING);;
      sched
  end.
Definition sleep_end (acquire_lk : option (PM unit)) : PM unit :=
  p ← myproc;
  updp p (set_p_chan None);;
  match acquire_lk with None => mret tt | Some acq => release_ptable;; acq end.

(** One visit of the loop of [scheduler] to slot [p]: the process switched to. *)
Definition scheduler_visit (p : nat) : PM (option nat) :=
  pr ← getp p;
  if decide (p_state pr ≠ RUNNABLE) then mret None else
  chosen ← on_k (choose_lowpass 0);
  chosen ← match chosen with
           | Some c => mret (Some c)
           | None =>
               on_k (updst 0 (λ s, set_st_pass (s32 (st_pass s + st_stride s)) s));;
               on_k (choose_lowpass 1)
           end;
  let chosen := default p chosen in
  on_k (modify (set_cpu_proc (Some chosen)));;
  c ← getp chosen;
  on_env (e_switchuvm (p_kstack c) (p_pgdir c));;
  updp chosen (set_p_state RUNNING);;
  mret (Some chosen).

(** When the process has switched back. *)
Definition scheduler_back : PM unit :=
  on_env e_switchkvm;;
  on_k (modify (set_cpu_proc None)).

(** [forkret]; [first] is its static variable, the result what it leaves there. *)
Definition forkret (first : bool) : PM bool :=
  release_ptable;;
  if first then on_env e_fs_init;; mret false else mret false.

(** *** Processes *)
Definition userinit_tables : PM unit :=
  on_k (
    updst 0 (set_st_stride (MAXTICKET / 20));;
    updst 0 (set_st_share 20);;
    updst 0 (set_st_pass 0);;
    updst 0 (set_st_proc None);;
    mfor (seq 0 NPROC) (λ i,
      updst i (set_st_stride 0);;
      updst i (set_st_proc None));;
    mfor (seq 0 NQUEUE) (λ j,
      updq (Z.of_nat j) (set_fq_total 0);;
      updq (Z.of_nat j) (set_fq_current 0);;
      updq (Z.of_nat j) (λ q, set_fq_holdingproc ((λ _, None) <$> fq_holdingproc q) q))).

(** "initcode" *)
Definition initcode_name : list Z := [105; 110; 105; 116; 99; 111; 100; 101].

Definition userinit : PM unit :=
  userinit_tables;;
  r ← allocproc;
  on_k (updst 0 (set_st_proc r));;
  on_k (modify (set_initproc r));;
  p ← deref r;
  pgdir ← on_env e_setupkvm;
  updp p (set_p_pgdir pgdir);;
  if pgdir =? 0 then panic "userinit: out of memory?" else
  on_env (e_inituvm pgdir);;
  updp p (set_p_sz PGSIZE);;
  (* the selectors of user code and data, FL_IF *)
  updp p (set_p_tf (mktf 0 0 PGSIZE 512 27 35 35 35));;
  updp p (λ pr, set_p_name (copy_name (p_name pr) initcode_name) pr);;
  cwd ← on_env e_namei_root;
  updp p (set_p_cwd cwd);;
  acquire_ptable;;
  updp p (set_p_state RUNNABLE);;
  release_ptable.

Definition growproc (n : Z) : PM Z :=
  cur ← myproc;
  c ← getp cur;
  let master := default cur (p_master c) in
  m ← getp master;
  sz ← (if 0 <? n then on_env (e_allocuvm (p_pgdir m) (p_sz m) (u32 (p_sz m + n)))
        else if n <? 0 then on_env (e_deallocuvm (p_pgdir m) (p_sz m) (u32 (p_sz m + n)))
        else mret (p_sz m));
  if negb (n =? 0) && (sz =? 0) then mret (-1) else
  updp master (set_p_sz sz);;
  c ← getp cur;
  on_env (e_switchuvm (p_kstack c) (p_pgdir c));;
  mret 0.

Definition fork : PM Z :=
  cur ← myproc;
  r ← allocproc;
  match r with
  | None => mret (-1)
  | Some np =>
      c ← getp cur;
      pgdir ← on_env (e_copyuvm (p_pgdir c) (p_sz c));
      updp np (set_p_pgdir pgdir);;
      if pgdir =? 0 then
        n ← getp np;
        on_env (e_kfree (p_kstack n));;
        updp np (set_p_kstack 0);;
        updp np (set_p_state UNUSED);;
        mret (-1)
      else
      updp np (set_p_sz (p_sz c));;
      updp np (set_p_parent (Some cur));;
      updp np (set_p_tf (p_tf c));;
      updp np (λ n, set_p_tf (set_tf_eax 0 (p_tf n)) n);;
      dup_files cur np;;
      dup_cwd cur np;;
      updp np (λ n, set_p_name (copy_name (p_name n) (p_name c)) n);;
      n ← getp np;
      acquire_ptable;;
      updp np (set_p_state RUNNABLE);;
      release_ptable;;
      mret (p_pid n)
  end.

(** [p->parent = initproc] for the children of [q], and the wakeups of init. *)
Definition reparent (q : nat) : PM unit :=
  mfor (seq 0 NPROC) (λ i,
    p ← getp i;
    if decide (p_parent p = Some q) then
      k ← on_k get;
      updp i (set_p_parent (initproc k));;
      if decide (p_state p = ZOMBIE) then wakeup1_proc (initproc k) else mret tt
    else mret tt).

(** The part of [exit] before it takes ptable.lock: close the files of the workers
    and of the master. *)
Definition exit_close (master : nat) : PM unit :=
  mfor (seq 0 NTHRE) (λ i,
    m ← getp master;
    w ← deref (p_workerthread m !! i);
    match w with
    | None => mret tt
    | Some t =>
        k ← on_k get;
        if decide (Some t = initproc k) then panic "init exiting" else
        close_files t;;
        drop_cwd t
    end);;
  close_files master;;
  m ← getp master;
  match p_cwd m with None => mret tt | Some _ => drop_cwd master end.

(** The rest up to the switch, with ptable.lock taken. *)
Definition exit_zombie (master : nat) : PM unit :=
  acquire_ptable;;
  m ← getp master;
  wakeup1_proc (p_parent m);;
  reparent master;;
  mfor (seq 0 NTHRE) (λ i,
    m ← getp master;
    w ← deref (p_workerthread m !! i);
    match w with None => mret tt | Some t => updp t (set_p_state ZOMBIE) end);;
  m ← getp master;
  (if p_isstride m =? 1 then
     on_k (
       j ← deref (p_mystride m);
       st ← getst j;
       updst 0 (λ s, set_st_share (s32 (st_share s + st_share st)) s);;
       st0 ← getst 0;
       d ← idiv MAXTICKET (st_share st0);
       updst 0 (set_st_stride d);;
       updst j (set_st_stride 0);;
       updst j (set_st_pass 0);;
       updst j (set_st_share 0))
   else on_k (pop_MLFQ master);; mret tt);;
  updp master (set_p_state ZOMBIE);;
  sched.

Definition exit : PM unit :=
  cur ← myproc;
  c ← getp cur;
  let master := default cur (p_master c) in
  k ← on_k get;
  if decide (Some cur = initproc k) then panic "init exiting" else
  exit_close master;;
  exit_zombie master.

(** A worker of a process that is reaped. *)
Definition reap_worker (p i : nat) : PM unit :=
  pr ← getp p;
  w ← deref (p_workerthread pr !! i);
  match w with
  | None => mret tt
  | Some t =>
      tp ← getp t;
      on_env (e_kfree (p_kstack tp));;
      updp t (set_p_kstack 0);;
      updp t (set_p_parent None);;
      updp t (λ tp, set_p_name (<[0%nat := 0]> (p_name tp)) tp);;
      updp t (set_p_pid 0);;
      updp t (set_p_state UNUSED);;
      updp t (set_p_killed 0);;
      updp p (λ pr, set_p_workerthread (<[i := None]> (p_workerthread pr)) pr)
  end.

(** The zombie child [p] is freed; its pid. *)
Definition reap (p : nat) : PM Z :=
  mfor (seq 0 NTHRE) (reap_worker p);;
  pr ← getp p;
  on_env (e_kfree (p_kstack pr));;
  updp p (set_p_kstack 0);;
  on_env (e_freevm (p_pgdir pr));;
  updp p (set_p_pid 0);;
  updp p (set_p_parent None);;
  updp p (λ pr, set_p_name (<[0%nat := 0]> (p_name pr)) pr);;
  updp p (set_p_killed 0);;
  updp p (set_p_state UNUSED);;
  mret (p_pid pr).

(** The scan of [wait]: the first zombie child, or whether there are children. *)
Fixpoint wait_scan (cur : nat) (ps : list nat) (havekids : bool) : PM (nat + bool) :=
  match ps with
  | [] => mret (inr havekids)
  | p :: ps' =>
      pr ← getp p;
      if bool_decide (p_parent pr ≠ Some cur ∨ p_master pr ≠ None) then wait_scan cur ps' havekids else
      if decide (p_state pr = ZOMBIE) then mret (inl p) else wait_scan cur ps' true
  end.

(** [wait]; a parent whose children live on sleeps on itself. *)
Definition wait : PM Z :=
  cur ← myproc;
  acquire_ptable;;
  r ← wait_scan cur (seq 0 NPROC) false;
  match r with
  | inl p => pid ← reap p; release_ptable;; mret pid
  | inr havekids =>
      c ← getp cur;
      if negb havekids || negb (p_killed c =? 0) then release_ptable;; mret (-1) else
      sleep_begin (Some (ChProc cur)) None;;
      go_to_sleep (ChProc cur)
  end.

Definition kill (pid : Z) : PM Z :=
  acquire_ptable;;
  k ← on_k get;
  match list_find (λ p, p_pid p = pid) (ptable k) with
  | Some (i, p) =>
      updp i (set_p_killed 1);;
      (if decide (p_state p = SLEEPING) then updp i (set_p_state RUNNABLE) else mret tt);;
      release_ptable;;
      mret 0
  | None => release_ptable;; mret (-1)
  end.

Definition getppid : PM Z :=
  cur ← myproc;
  c ← getp cur;
  parent ← deref (p_parent c);
  p ← getp parent;
  mret (p_pid p).

(** *** Threads *)

(** The result, and what is stored at [*thread]. *)
Definition thread_create (start_routine arg : Z) : PM (Z * option Z) :=
  cur ← myproc;
  c ← getp cur;
  let master := default cur (p_master c) in
  r ← allocthread master;
  match r with
  | None => mret (-1, None)
  | Some thrd =>
      st ← allocusrstack master thrd;
      if st <? 0 then mret (-1, None) else
      dup_files master thrd;;
      dup_cwd master thrd;;
      m ← getp master;
      updp thrd (λ t, set_p_name (copy_name (p_name t) (p_name m)) t);;
      updp thrd (set_p_tf (p_tf m));;
      updp thrd (λ t, set_p_tf (set_tf_eip start_routine (p_tf t)) t);;
      t ← getp thrd;
      let sp := u32 (p_sz t - 12) in
      e ← on_env (e_copyout (p_pgdir m) sp (word_bytes 4294967295 ++ word_bytes arg ++ word_bytes 0));
      if e <? 0 then mret (-1, None) else
      updp thrd (λ t, set_p_tf (set_tf_esp sp (p_tf t)) t);;
      acquire_ptable;;
      updp thrd (set_p_state RUNNABLE);;
      release_ptable;;
      mret (0, Some (p_pid t))
  end.

(** [thread_join]; the result and what is stored at [*retval].  Without a process of
    that pid the scan leaves [p] at [&ptable.proc[NPROC]]. *)
Definition thread_join (thread : Z) : PM (Z * option Z) :=
  acquire_ptable;;
  k ← on_k get;
  let join := match list_find (λ p, p_pid p = thread) (ptable k) with Some (i, _) => i | None => NPROC end in
  p ← getp join;
  if decide (p_state p = UNUSED) then release_ptable;; mret (0, None) else
  if decide (p_state p ≠ ZOMBIE) then
    sleep_begin (ChProc <$> p_master p) None;;
    go_to_sleep (default ChNull (ChProc <$> p_master p))
  else
  r ← deallocstack join;
  if r =? -1 then release_ptable;; mret (-1, None) else
  master ← deref (p_master p);
  m ← getp master;
  v ← (if p_tindex p <? 0 then fault else deref (p_retvals m !! Z.to_nat (p_tindex p)));
  updp master (λ m, set_p_workerthread (<[Z.to_nat (p_tindex p) := None]> (p_workerthread m)) m);;
  updp join (set_p_state UNUSED);;
  updp join (set_p_kstack 0);;
  updp join (set_p_killed 0);;
  release_ptable;;
  mret (0, Some v).

Definition thread_exit (retval : Z) : PM unit :=
  cur ← myproc;
  c ← getp cur;
  match p_master c with
  | None => exit
  | Some master =>
      close_files cur;;
      drop_cwd cur;;
      acquire_ptable;;
      wakeup1 (ChProc master);;
      reparent cur;;
      c ← getp cur;
      m ← getp master;
      (if bool_decide (0 <= p_tindex c < Z.of_nat (length (p_retvals m)))
       then updp master (set_p_retvals (<[Z.to_nat (p_tindex c) := retval]> (p_retvals m)))
       else fault);;
      updp cur (set_p_state ZOMBIE);;
      updp master (λ m, set_p_threadcnt (s32 (p_threadcnt m - 1)) m);;
      sched
  end.
End proc.
