(* ===== verification/ProcInv.v ===== *)
(** * The process table stays well formed

    [spec I m Q]: a run of [m] from a state with [I] that returns ends in a state with
    [I] and with a result that satisfies [Q]; one that goes to sleep leaves [I].  The
    rules of the first section follow the shape of monadic code, so that the invariant
    of a function is proved by running over its text with the tactic [spec_auto]; the
    sections after it apply them to every operation of myscheduler.c and proc.c. *)
From S2P Require Import Prelude Params ProcState Sched Proc.

Definition spec {S A} (I : S → Prop) (m : M S A) (Q : A → Prop) : Prop := ∀ s, I s →
  match m s with
  | Ret a s' => I s' ∧ Q a
  | Asleep _ s' => I s'
  | Panic _ | Fault => True
  end.
Abbreviation keeps I m := (spec I m (λ _, True)).

Section rules.
Context {S : Type} (I : S → Prop).

Lemma spec_ret {A} (a : A) Q : Q a → spec I (mret a) Q.
Proof. by intros ? s. Qed.
Lemma spec_panic {A} msg Q : spec I (panic (A := A) msg) Q.
Proof. by intros s. Qed.
Lemma spec_fault {A} Q : spec I (fault (A := A)) Q.
Proof. by intros s. Qed.
Lemma spec_sleep {A} c Q : spec I (go_to_sleep (A := A) c) Q.
Proof. by intros s. Qed.
Lemma spec_get Q : (∀ s, I s → Q s) → spec I get Q.
Proof. intros H s Hs. split; [done|]. by apply H. Qed.
Lemma spec_gets {A} (f : S → A) Q : (∀ s, I s → Q (f s)) → spec I (gets f) Q.
Proof. intros H s Hs. split; [done|]. by apply H. Qed.
Lemma spec_deref {A} (o : option A) Q : (∀ a, o = Some a → Q a) → spec I (deref o) Q.
Proof. intros H. destruct o; intros s Hs; [|done]. split; [done|]. by apply H. Qed.
Lemma spec_idiv a b : keeps I (idiv a b).
Proof. unfold idiv. by destruct (b =? 0); intros s. Qed.
Lemma spec_modify f : (∀ s, I s → I (f s)) → keeps I (modify f).
Proof. intros H s Hs. split; [|done]. by apply H. Qed.

Lemma spec_bind {A B} (m : M S A) (f : A → M S B) (R : A → Prop) Q :
  spec I m R → (∀ a, R a → spec I (f a) Q) → spec I (m ≫= f) Q.
Proof.
  intros Hm Hf s Hs. unfold mbind, M_bind. specialize (Hm s Hs).
  destruct (m s); try done. destruct Hm. by apply Hf.
Qed.

Lemma spec_mono {A} (m : M S A) (Q Q' : A → Prop) :
  spec I m Q → (∀ a, Q a → Q' a) → spec I m Q'.
Proof.
  intros H HQ s Hs. specialize (H s Hs). destruct (m s); try done.
  destruct H. split; [done|]. by apply HQ.
Qed.

Lemma spec_mfor {X} (l : list X) body :
  (∀ x, keeps I (body x)) → keeps I (mfor l body).
Proof.
  intros H. induction l; simpl; [by apply spec_ret|]. by eapply spec_bind.
Qed.

Lemma spec_mfold {X A} (l : list X) (a : A) body Q :
  Q a → (∀ a x, Q a → spec I (body a x) Q) → spec I (mfold l a body) Q.
Proof.
  intros Ha H. revert a Ha. induction l; intros; simpl; [by apply spec_ret|].
  eapply spec_bind; [by apply H|done].
Qed.
End rules.

(** ** The invariant

    Lengths of the arrays, every pointer to a process or a stride element within its
    table, and the process ids: those in use are below [nextpid] and different. *)
Definition valid (o : option nat) : Prop := ∀ i, o = Some i → (i < NPROC)%nat.

Record proc_ok (p : proc) : Prop := {
  ok_ofile : length (p_ofile p) = NOFILE;
  ok_name : length (p_name p) = 16%nat;
  ok_workers : length (p_workerthread p) = NTHRE;
  ok_retvals : length (p_retvals p) = NTHRE;
  ok_free : length (p_freeusrspace p) = NTHRE;
  ok_parent : valid (p_parent p);
  ok_master : valid (p_master p);
  ok_stride : valid (p_mystride p);
  ok_worker i w : p_workerthread p !! i = Some w → valid w
}.

Record queue_ok (q : FQ) : Prop := {
  ok_holding : length (fq_holdingproc q) = NPROC;
  ok_held i h : fq_holdingproc q !! i = Some h → valid h
}.

Record table_ok (k : kstate) : Prop := {
  tab_procs : length (ptable k) = NPROC;
  tab_strides : length (stride_arr k) = NPROC;
  tab_queues : length (MLFQ_queues k) = NQUEUE;
  tab_proc i p : ptable k !! i = Some p → proc_ok p;
  tab_stride i s : stride_arr k !! i = Some s → valid (st_proc s);
  tab_queue i q : MLFQ_queues k !! i = Some q → queue_ok q;
  tab_init : valid (initproc k);
  tab_cpu : valid (cpu_proc k);
  tab_pid i p : ptable k !! i = Some p → 0 <= p_pid p < nextpid k;
  tab_unique i j p q : ptable k !! i = Some p → ptable k !! j = Some q →
    p_pid p = p_pid q → p_pid p ≠ 0 → i = j
}.

(** What an update of a process may do to its id. *)
Definition pid_kept (p p' : proc) : Prop := p_pid p' = p_pid p ∨ p_pid p' = 0.

Create HintDb spec.

Section tables.
Implicit Types (k : kstate) (i : nat).

Lemma spec_getp i : spec table_ok (ProcState.getp i) (λ p, (i < NPROC)%nat ∧ proc_ok p).
Proof.
  intros k Hk. unfold ProcState.getp. destruct (ptable k !! i) as [p|] eqn:E; [|done].
  split_and!; [done| |by eapply tab_proc]. apply lookup_lt_Some in E. by rewrite tab_procs in E.
Qed.

Lemma table_set_proc k i p p' :
  table_ok k → ptable k !! i = Some p → proc_ok p' → pid_kept p p' →
  table_ok (set_ptable (<[i := p']> (ptable k)) k).
Proof.
  intros Hk Hp Hp' Hpid. pose proof (lookup_lt_Some _ _ _ Hp) as Hlt.
  assert (∀ j q', <[i := p']> (ptable k) !! j = Some q' →
    ∃ q, ptable k !! j = Some q ∧ pid_kept q q' ∧ proc_ok q') as Hlook.
  { intros j q' [(-> & -> & _)|(? & ?)]%list_lookup_insert_Some; [by exists p|].
    exists q'. split_and!; [done|by left|by eapply tab_proc]. }
  destruct Hk; constructor; cbn; try done.
  - by rewrite length_insert.
  - intros j q' (q & _ & _ & ?)%Hlook. done.
  - intros j q' (q & Hq & [-> | ->] & _)%Hlook; [eauto|]. pose proof (tab_pid0 _ _ Hq). lia.
  - intros j j' q q' (q1 & H1 & [K1|K1] & _)%Hlook (q2 & H2 & [K2|K2] & _)%Hlook;
      intros ??; eapply tab_unique0; eauto; congruence.
Qed.

Lemma spec_updp i f :
  (∀ p, (i < NPROC)%nat → proc_ok p → proc_ok (f p) ∧ pid_kept p (f p)) →
  spec table_ok (ProcState.updp i f) (λ _, (i < NPROC)%nat).
Proof.
  intros Hf k Hk. unfold ProcState.updp. destruct (ptable k !! i) as [p|] eqn:E; [|done].
  pose proof (lookup_lt_Some _ _ _ E) as Hi. rewrite tab_procs in Hi by done.
  destruct (Hf p Hi (tab_proc _ Hk _ _ E)) as [H1 H2].
  split; [by eapply table_set_proc|done].
Qed.

Lemma spec_getst i : spec table_ok (getst i) (λ s, (i < NPROC)%nat ∧ valid (st_proc s)).
Proof.
  intros k Hk. unfold getst. destruct (stride_arr k !! i) as [s|] eqn:E; [|done].
  split_and!; [done| |by eapply tab_stride]. apply lookup_lt_Some in E. by rewrite tab_strides in E.
Qed.

Lemma spec_updst i f :
  (∀ s, valid (st_proc s) → valid (st_proc (f s))) →
  spec table_ok (updst i f) (λ _, (i < NPROC)%nat).
Proof.
  intros Hf k Hk. unfold updst. destruct (stride_arr k !! i) as [s|] eqn:E; [|done].
  pose proof (lookup_lt_Some _ _ _ E) as Hi. rewrite tab_strides in Hi by done.
  split; [|done]. destruct Hk; constructor; cbn; try done.
  - by rewrite length_insert.
  - intros j s' [(_ & <- & _)|(? & ?)]%list_lookup_insert_Some; eauto.
Qed.

Lemma spec_getq l : spec table_ok (getq l) queue_ok.
Proof.
  intros k Hk. unfold getq. destruct (l <? 0); [done|].
  destruct (MLFQ_queues k !! Z.to_nat l) as [q|] eqn:E; [|done].
  split; [done|]. by eapply tab_queue.
Qed.

Lemma spec_updq l f : (∀ q, queue_ok q → queue_ok (f q)) → keeps table_ok (updq l f).
Proof.
  intros Hf k Hk. unfold updq. destruct (l <? 0); [done|].
  destruct (MLFQ_queues k !! Z.to_nat l) as [q|] eqn:E; [|done].
  split; [|done]. destruct Hk; constructor; cbn; try done.
  - by rewrite length_insert.
  - intros j s' [(_ & <- & _)|(? & ?)]%list_lookup_insert_Some; eauto.
Qed.

(** The fields the invariant does not mention. *)
Lemma table_ok_same k k' :
  ptable k' = ptable k → stride_arr k' = stride_arr k → MLFQ_queues k' = MLFQ_queues k →
  initproc k' = initproc k → cpu_proc k' = cpu_proc k → nextpid k' = nextpid k →
  table_ok k → table_ok k'.
Proof. intros E1 E2 E3 E4 E5 E6 []. by constructor; rewrite ?E1, ?E2, ?E3, ?E4, ?E5, ?E6. Qed.

Lemma spec_myproc : spec table_ok ProcState.myproc (λ i, (i < NPROC)%nat).
Proof.
  eapply (spec_bind _ _ _ valid).
  - apply spec_gets. intros k Hk. by apply tab_cpu.
  - intros o Ho. by apply spec_deref.
Qed.

(** A lock is taken and given back without touching the tables. *)
Ltac lock_spec := intros k Hk; cbv [ProcState.acquire_ptable ProcState.release_ptable acquire_FQ
    release_FQ ProcState.acquire_thread ProcState.release_thread];
  match goal with |- context [if ?b then _ else _] => destruct b end;
  [done || (split; [by apply (table_ok_same k)|done])..].

Lemma spec_acquire_ptable : keeps table_ok ProcState.acquire_ptable.
Proof. lock_spec. Qed.
Lemma spec_release_ptable : keeps table_ok ProcState.release_ptable.
Proof. lock_spec. Qed.
Lemma spec_acquire_FQ : keeps table_ok acquire_FQ.
Proof. lock_spec. Qed.
Lemma spec_release_FQ : keeps table_ok release_FQ.
Proof. lock_spec. Qed.
Lemma spec_acquire_thread : keeps table_ok ProcState.acquire_thread.
Proof. lock_spec. Qed.
Lemma spec_release_thread : keeps table_ok ProcState.release_thread.
Proof. lock_spec. Qed.
End tables.

#[export] Hint Resolve spec_getp spec_getst spec_getq spec_myproc spec_acquire_ptable
  spec_release_ptable spec_acquire_FQ spec_release_FQ spec_acquire_thread
  spec_release_thread spec_idiv : spec.

Lemma valid_some (i : nat) : (i < NPROC)%nat → valid (Some i).
Proof. by intros H j [= <-]. Qed.
Lemma valid_none : valid None.
Proof. done. Qed.
Lemma valid_zero : valid (Some 0%nat).
Proof. apply valid_some. unfold NPROC. lia. Qed.
Lemma valid_lt (o : option nat) i : valid o → o = Some i → (i < NPROC)%nat.
Proof. intros H. apply H. Qed.
#[export] Hint Resolve valid_some valid_none valid_zero ok_parent ok_master ok_stride : spec.
#[export] Hint Resolve ok_worker ok_held ok_ofile ok_name ok_workers ok_retvals ok_free ok_holding : spec.

Lemma length_copy_name s t : length s = 16%nat → length (copy_name s t) = 16%nat.
Proof. intros H. unfold copy_name. rewrite length_app, length_drop, length_app, length_take, length_app; simpl. lia. Qed.
#[export] Hint Resolve length_copy_name : spec.

(** An update keeps a process well formed: the fields it leaves alone, and the array
    or pointer it writes. *)
Ltac field_ok :=
  first
    [ done
    | solve [eauto 3 with spec]
    | rewrite length_insert; solve [eauto 3 with spec]
    | rewrite length_fmap; solve [eauto 3 with spec]
    | intros ? ? [(_ & <- & _)|[_ ?]]%list_lookup_insert_Some; solve [eauto with spec]
    | idtac ].
Ltac upd_ok :=
  let p := fresh "p" in let Hp := fresh "Hp" in
  intros p ? Hp; split;
    [pose proof Hp as []; constructor; cbn; field_ok|first [by left|by right|idtac]].
Ltac queue_upd_ok :=
  let q := fresh "q" in let Hq := fresh "Hq" in
  intros q Hq; pose proof Hq as []; constructor; cbn; field_ok.

(** One rule for the head of the goal. *)
Ltac spec_head :=
  lazymatch goal with
  | |- spec _ (mret _) _ => apply spec_ret; try solve [done|eauto 3 with spec]
  | |- spec _ (panic _) _ => apply spec_panic
  | |- spec _ fault _ => apply spec_fault
  | |- spec _ (go_to_sleep _) _ => apply spec_sleep
  | |- spec _ get _ => apply spec_get; try done
  | |- spec _ (gets _) _ => apply spec_gets; try done
  | |- spec _ (deref _) (λ _, True) => by apply spec_deref
  | |- spec _ (mfor _ _) _ => apply spec_mfor; intros ?
  | |- spec _ (ProcState.updp _ _) _ => eapply spec_mono; [apply spec_updp; upd_ok|try done]
  | |- spec _ (updst _ _) _ => eapply spec_mono; [apply spec_updst; intros ? ?; cbn; field_ok|try done]
  | |- spec _ (updq _ _) _ => apply spec_updq; queue_upd_ok
  | |- spec _ (match ?x with _ => _ end) _ => destruct x eqn:?
  | |- spec _ (let _ := _ in _) _ => cbv zeta
  end.
Ltac spec_bind_step :=
  lazymatch goal with
  | |- spec _ (mbind _ (ProcState.updp _ _)) _ => eapply spec_bind; [apply spec_updp; upd_ok|intros ? ?]
  | |- spec _ (mbind _ (updst _ _)) _ => eapply spec_bind; [apply spec_updst; intros ? ?; cbn; field_ok|intros ? ?]
  | |- spec _ (mbind _ _) _ =>
      first [ eapply spec_bind; [solve [eauto 3 with spec nocore]|intros ? ?]
            | apply (spec_bind _ _ _ (λ _, True)); [|intros ? _] ]
  end;
  repeat match goal with
    | H : (λ _, _) _ |- _ => cbn beta in H
    | H : _ ∧ _ |- _ => destruct H
    end.
Ltac spec_auto :=
  repeat first
    [ spec_bind_step
    | spec_head
    | eapply spec_mono; [solve [eauto 3 with spec nocore]|done] ].

Section scheduler.
Lemma spec_push_MLFQ p l : (p < NPROC)%nat → keeps table_ok (push_MLFQ p l).
Proof. intros. unfold push_MLFQ. spec_auto. Qed.
Lemma spec_pop_MLFQ p : spec table_ok (pop_MLFQ p) (λ _, (p < NPROC)%nat).
Proof. unfold pop_MLFQ. spec_auto. Qed.
Hint Resolve spec_push_MLFQ spec_pop_MLFQ : spec.
Lemma spec_level_change_MLFQ p l : keeps table_ok (level_change_MLFQ p l).
Proof. unfold level_change_MLFQ. spec_auto. Qed.
Hint Resolve spec_level_change_MLFQ : spec.
Lemma spec_boost_priority : keeps table_ok boost_priority.
Proof.
  unfold boost_priority, boost_body. spec_auto. apply spec_modify. intros k. by apply table_ok_same.
Qed.
Hint Resolve spec_boost_priority : spec.
Lemma spec_increasealltick p : keeps table_ok (increasealltick p).
Proof. unfold increasealltick. spec_auto. Qed.
Lemma spec_setthreadtick p : keeps table_ok (setthreadtick p).
Proof. unfold setthreadtick. spec_auto. Qed.
Lemma spec_tick_decide a q : keeps table_ok (tick_decide a q).
Proof. unfold tick_decide. spec_auto. Qed.
Hint Resolve spec_increasealltick spec_setthreadtick spec_tick_decide : spec.
Lemma spec_tick_add_MLFQ : keeps table_ok tick_add_MLFQ.
Proof. unfold tick_add_MLFQ. spec_auto; apply spec_modify; intros k; by apply table_ok_same. Qed.
Lemma spec_pickthread m : spec table_ok (pickthread m) (λ i, (i < NPROC)%nat).
Proof.
  assert (∀ fuel i, spec table_ok (pickthread_loop fuel m i) (λ i, (i < NPROC)%nat)) as H.
  { induction fuel as [|fuel IH]; intros i; simpl; spec_auto. }
  unfold pickthread. spec_auto.
Qed.
Hint Resolve spec_pickthread : spec.
Lemma spec_exec_MLFQ : spec table_ok exec_MLFQ valid.
Proof.
  assert (∀ n l pos, spec table_ok (exec_MLFQ_scan l n pos) valid) as H.
  { induction n as [|n IH]; intros l pos; simpl; unfold holds_runnable; spec_auto. }
  unfold exec_MLFQ. generalize [0; 1; 2]. induction l as [|i l IH];
    cbn [exec_MLFQ_levels]; spec_auto; apply valid_some, H0; done.
Qed.
Hint Resolve spec_exec_MLFQ : spec.
Lemma spec_choose_lowpass n : spec table_ok (choose_lowpass n) valid.
Proof.
  unfold choose_lowpass. eapply (spec_bind _ _ _ (λ _, True)).
  { apply spec_mfold; [done|]. intros a x _. unfold lowpass_step. spec_auto. }
  intros sel _. spec_auto.
Qed.
Lemma spec_reserve p n t : (p < NPROC)%nat → spec table_ok (reserve p n t) (λ j, (j < NPROC)%nat).
Proof.
  intros. unfold reserve. spec_auto. apply spec_mfold; [done|]. intros. spec_auto.
Qed.
Hint Resolve spec_reserve : spec.
Lemma spec_set_cpu_share n : keeps table_ok (set_cpu_share n).
Proof.
  unfold set_cpu_share. spec_auto. apply spec_mfold; [done|]. intros. spec_auto.
Qed.
End scheduler.

#[export] Hint Resolve spec_push_MLFQ spec_pop_MLFQ spec_choose_lowpass : spec.

(** ** proc.c *)
Section base.
Context {E : Type} `{!ProcEnv E}.
Abbreviation I := (λ s : pstate E, table_ok (ps_k s)).

Lemma spec_lift {A} (J : kstate → Prop) (m : M kstate A) Q :
  spec J m Q → spec (λ s : pstate E, J (ps_k s)) (on_k m) Q.
Proof. intros H s Hs. unfold on_k. specialize (H _ Hs). by destruct (m (ps_k s)). Qed.
Lemma spec_on_k {A} (m : M kstate A) Q : spec table_ok m Q → spec I (on_k m) Q.
Proof. apply spec_lift. Qed.
Lemma spec_on_env {A} (m : M E A) : keeps I (on_env m).
Proof. intros s Hs. unfold on_env. by destruct (m (ps_env s)). Qed.

Lemma spec_getp' i : spec I (getp i) (λ p, (i < NPROC)%nat ∧ proc_ok p).
Proof. apply spec_on_k, spec_getp. Qed.
Lemma spec_updp' i f :
  (∀ p, (i < NPROC)%nat → proc_ok p → proc_ok (f p) ∧ pid_kept p (f p)) →
  spec I (updp i f) (λ _, (i < NPROC)%nat).
Proof. intros. by apply spec_on_k, spec_updp. Qed.
Lemma spec_get_k : spec I (on_k get) table_ok.
Proof. apply spec_on_k. by apply spec_get. Qed.
End base.

#[export] Hint Resolve spec_on_k spec_on_env spec_getp' spec_get_k tab_init : spec.
#[export] Hint Extern 1 (spec _ myproc _) => apply spec_on_k, spec_myproc : spec.
#[export] Hint Extern 1 (spec _ acquire_ptable _) => apply spec_on_k, spec_acquire_ptable : spec.
#[export] Hint Extern 1 (spec _ release_ptable _) => apply spec_on_k, spec_release_ptable : spec.
#[export] Hint Extern 1 (spec _ acquire_thread _) => apply spec_on_k, spec_acquire_thread : spec.
#[export] Hint Extern 1 (spec _ release_thread _) => apply spec_on_k, spec_release_thread : spec.

Ltac proc_step :=
  first
    [ lazymatch goal with
      | |- spec _ (mbind _ (updp _ _)) _ => eapply spec_bind; [apply spec_updp'; upd_ok|intros ? ?]
      | |- spec _ (updp _ _) _ => eapply spec_mono; [apply spec_updp'; upd_ok|try done]
      | |- spec _ (on_k (mbind _ _)) _ => apply spec_on_k
      | |- spec _ (on_k (updst _ _)) _ => apply spec_on_k
      | |- spec _ (on_k (gets _)) _ => apply spec_on_k
      | |- spec _ (on_k (modify _)) _ => apply spec_on_k, spec_modify; intros ?
      end
    | spec_bind_step | spec_head
    | eapply spec_mono; [solve [eauto 3 with spec nocore]|done] ].
Ltac proc_auto := repeat proc_step.

Section proc.
Context {E : Type} `{!ProcEnv E}.
Abbreviation I := (λ s : pstate E, table_ok (ps_k s)).

Lemma table_set_cpu k o : table_ok k → valid o → table_ok (set_cpu_proc o k).
Proof. intros [] ?. by constructor. Qed.

Lemma spec_alloc_kstack p : keeps I (alloc_kstack p).
Proof. unfold alloc_kstack. proc_auto. Qed.
Lemma spec_wakeup1 c : keeps I (wakeup1 c).
Proof. unfold wakeup1. proc_auto. Qed.
Hint Resolve spec_alloc_kstack spec_wakeup1 : spec.
Lemma spec_wakeup1_proc c : keeps I (wakeup1_proc c).
Proof. unfold wakeup1_proc. proc_auto. Qed.
Hint Resolve spec_wakeup1_proc : spec.
Lemma spec_sched : keeps I sched.
Proof. unfold sched. proc_auto. Qed.
Hint Resolve spec_sched : spec.
Lemma spec_reparent q : keeps I (reparent q).
Proof. unfold reparent. proc_auto. Qed.
Lemma spec_dup_files a b : keeps I (dup_files a b).
Proof. unfold dup_files. proc_auto. Qed.
Lemma spec_dup_cwd a b : keeps I (dup_cwd a b).
Proof. unfold dup_cwd. proc_auto. Qed.
Lemma spec_close_files a : keeps I (close_files a).
Proof. unfold close_files. proc_auto. Qed.
Lemma spec_drop_cwd a : keeps I (drop_cwd a).
Proof. unfold drop_cwd. proc_auto. Qed.
Hint Resolve spec_reparent spec_dup_files spec_dup_cwd spec_close_files spec_drop_cwd : spec.
Lemma spec_exit : keeps I exit.
Proof.
  unfold exit, exit_close, exit_zombie. proc_auto.
Qed.
Hint Resolve spec_exit : spec.
Lemma spec_reap p : keeps I (reap p).
Proof. unfold reap, reap_worker. proc_auto. Qed.
(** The lock that [sleep] gives back, if it is not ptable.lock. *)
Definition keeps_opt (m : option (M (pstate E) unit)) : Prop :=
  match m with Some m => keeps I m | None => True end.
Lemma spec_sleep_begin c m : keeps_opt m → keeps I (sleep_begin c m).
Proof. intros H. unfold sleep_begin. destruct m; proc_auto. Qed.
Hint Resolve spec_reap : spec.
Hint Extern 1 (spec _ (sleep_begin _ None) _) => apply spec_sleep_begin, Logic.I : spec.
Lemma spec_wait_scan c ps h : keeps I (wait_scan c ps h).
Proof. revert h. induction ps; intros; simpl; proc_auto; done. Qed.
Hint Resolve spec_wait_scan : spec.
Lemma spec_wait : keeps I wait.
Proof. unfold wait. proc_auto. Qed.
Lemma spec_kill n : keeps I (kill n).
Proof. unfold kill. proc_auto. Qed.
Lemma spec_growproc n : keeps I (growproc n).
Proof. unfold growproc. proc_auto. Qed.
Lemma spec_yield : keeps I yield_begin.
Proof. unfold yield_begin. proc_auto. Qed.
Lemma spec_wakeup c : keeps I (wakeup c).
Proof. unfold wakeup. proc_auto. Qed.
Lemma spec_scheduler_visit p : keeps I (scheduler_visit p).
Proof.
  unfold scheduler_visit. do 3 proc_step. eapply (spec_bind _ _ _ valid).
  { proc_auto. }
  intros c Hc. proc_auto. intros Hk. apply table_set_cpu; [done|].
  destruct c; simpl; eauto with spec.
Qed.
Lemma spec_scheduler_back : keeps I scheduler_back.
Proof. unfold scheduler_back. proc_auto. intros. by apply table_set_cpu. Qed.
Lemma spec_thread_exit n : keeps I (thread_exit n).
Proof. unfold thread_exit. proc_auto. Qed.
Lemma spec_deallocstack n : keeps I (deallocstack n).
Proof. unfold deallocstack. proc_auto. Qed.
Hint Resolve spec_deallocstack : spec.
Lemma spec_thread_join n : keeps I (thread_join n).
Proof. unfold thread_join. proc_auto. Qed.
Lemma spec_allocusrstack m n : keeps I (allocusrstack m n).
Proof. unfold allocusrstack. proc_auto. Qed.
Hint Resolve spec_allocusrstack : spec.

(** *** Allocation of a process id

    These functions take the next id: the counter must not have run out. *)
Definition room (s : pstate E) : Prop := nextpid (ps_k s) < 2 ^ 31 - 1.
Definition alloc_spec {A} (m : M (pstate E) A) (Q : A → Prop) : Prop :=
  ∀ s, I s → room s →
  match m s with Ret a s' => I s' ∧ Q a | Asleep _ s' => I s' | _ => True end.

Lemma spec_alloc {A} (m : M (pstate E) A) Q : spec I m Q → alloc_spec m Q.
Proof. intros H s Hs _. by apply H. Qed.

Lemma alloc_bind {A B} (m : M (pstate E) A) (f : A → M (pstate E) B) R Q :
  alloc_spec m R → (∀ a, R a → spec I (f a) Q) → alloc_spec (m ≫= f) Q.
Proof.
  intros Hm Hf s Hs Hr. unfold mbind, M_bind. specialize (Hm s Hs Hr).
  destruct (m s); try done. destruct Hm. by apply Hf.
Qed.

(** Before the allocation a function only reads, or leaves the counter alone. *)
Lemma alloc_before {A B} (m : M (pstate E) A) (f : A → M (pstate E) B) R Q :
  spec I m R → (∀ n, keeps (λ s, nextpid (ps_k s) = n) m) →
  (∀ a, R a → alloc_spec (f a) Q) → alloc_spec (m ≫= f) Q.
Proof.
  intros Hm Hn Hf s Hs Hr. unfold mbind, M_bind. specialize (Hm s Hs).
  specialize (Hn _ s eq_refl). destruct (m s); try done. destruct Hm, Hn as [Hn _].
  apply Hf; try done. unfold room in *. cbn beta in Hn. by rewrite Hn.
Qed.

Lemma table_new_pid k i p :
  table_ok k → nextpid k < 2 ^ 31 - 1 → ptable k !! i = Some p →
  table_ok (set_nextpid (s32 (nextpid k + 1))
    (set_ptable (<[i := set_p_pid (nextpid k) (set_p_state EMBRYO p)]> (ptable k)) k)).
Proof.
  intros Hk Hr Hp. pose proof (tab_pid _ Hk _ _ Hp) as Hpid.
  assert (proc_ok (set_p_pid (nextpid k) (set_p_state EMBRYO p))) as Hok.
  { by destruct (tab_proc _ Hk _ _ Hp). }
  assert (s32 (nextpid k + 1) = nextpid k + 1) as Hn.
  { apply s32_id. unfold is_s32. lia. }
  destruct Hk; constructor; cbn; rewrite ?Hn; try done.
  - by rewrite length_insert.
  - intros j q [(_ & <- & _)|[_ ?]]%list_lookup_insert_Some; eauto.
  - intros j q [(_ & <- & _)|[_ Hq]]%list_lookup_insert_Some; [cbn; lia|].
    pose proof (tab_pid0 _ _ Hq). lia.
  - intros j j' q q' [(<- & <- & _)|[_ Hq]]%list_lookup_insert_Some
      [(<- & <- & _)|[_ Hq']]%list_lookup_insert_Some; cbn; try done.
    + pose proof (tab_pid0 _ _ Hq'). lia.
    + pose proof (tab_pid0 _ _ Hq). lia.
    + eauto.
Qed.

Lemma find_unused_spec : alloc_spec find_unused valid.
Proof.
  intros [k e] Hs Hr. unfold room in Hr. cbn in Hs, Hr. unfold find_unused.
  unfold mbind, M_bind, acquire_ptable, on_k at 1, ProcState.acquire_ptable. cbn.
  destruct (ptable_lock k); [done|]. cbn.
  destruct (list_find _ (ptable k)) as [[i p]|] eqn:Hf.
  - apply list_find_Some in Hf as (Hp & _ & _).
    pose proof (lookup_lt_Some _ _ _ Hp) as Hi. rewrite tab_procs in Hi by done.
    unfold updp, on_k, ProcState.updp. cbn. rewrite Hp. cbn.
    rewrite list_lookup_insert_eq by (by rewrite tab_procs). cbn.
    rewrite list_insert_insert_eq. split; [|by apply valid_some].
    eapply table_ok_same; [..|by apply (table_new_pid k i p)]; done.
  - cbn. split; [|done]. by apply (table_ok_same k).
Qed.

Lemma allocproc_spec : alloc_spec allocproc valid.
Proof.
  unfold allocproc. eapply alloc_bind; [apply find_unused_spec|]. intros r Hr. proc_auto.
  apply spec_on_k, spec_push_MLFQ. by apply Hr.
Qed.

Lemma spec_add_worker m p : (p < NPROC)%nat → keeps I (add_worker m p).
Proof. intros. unfold add_worker. proc_auto. Qed.
Hint Resolve spec_add_worker : spec.

Lemma allocthread_spec m : alloc_spec (allocthread m) valid.
Proof.
  unfold allocthread. eapply alloc_bind; [apply find_unused_spec|]. intros r Hr. proc_auto.
Qed.

(** Reading the table. *)
Lemma keeps_myproc n : keeps (λ s, nextpid (ps_k s) = n) (myproc (E := E)).
Proof. intros s Hs. unfold myproc, on_k, ProcState.myproc, gets, mbind, M_bind, deref. by destruct (cpu_proc _). Qed.
Lemma keeps_getp n i : keeps (λ s, nextpid (ps_k s) = n) (getp (E := E) i).
Proof. intros s Hs. unfold getp, on_k, ProcState.getp. by destruct (_ !! i). Qed.

Lemma fork_spec : alloc_spec fork (λ _, True).
Proof.
  unfold fork. eapply alloc_before; [eauto with spec|apply keeps_myproc|]. intros cur Hc.
  eapply alloc_bind; [apply allocproc_spec|]. intros r Hr. proc_auto.
Qed.

Lemma thread_create_spec a b : alloc_spec (thread_create a b) (λ _, True).
Proof.
  unfold thread_create. eapply alloc_before; [eauto with spec|apply keeps_myproc|]. intros cur Hc.
  eapply alloc_before; [eauto with spec|intros n; apply keeps_getp|]. intros c _. cbv zeta.
  eapply alloc_bind; [apply allocthread_spec|]. intros r Hr. proc_auto.
Qed.

Lemma spec_userinit_tables : keeps I userinit_tables.
Proof.
  unfold userinit_tables. proc_auto. intros i h Hh.
  apply list_lookup_fmap_Some in Hh as (? & -> & _). done.
Qed.

Lemma keeps_userinit_tables n : keeps (λ s, nextpid (ps_k s) = n) (userinit_tables (E := E)).
Proof.
  assert (∀ i f, keeps (λ k, nextpid k = n) (updst i f)) as Hst.
  { intros i f k Hk. unfold updst. by destruct (_ !! i). }
  assert (∀ i f, keeps (λ k, nextpid k = n) (updq i f)) as Hq.
  { intros i f k Hk. unfold updq. destruct (i <? 0); [done|]. by destruct (_ !! Z.to_nat i). }
  unfold userinit_tables. apply (spec_lift (λ k, nextpid k = n)).
  repeat (eapply spec_bind; [apply Hst|intros [] _]).
  eapply spec_bind; [apply spec_mfor; intros i; eapply spec_bind; [apply Hst|intros [] _; apply Hst]|].
  intros [] _. apply spec_mfor. intros i. repeat (eapply spec_bind; [apply Hq|intros [] _]). apply Hq.
Qed.

Lemma userinit_spec : alloc_spec userinit (λ _, True).
Proof.
  unfold userinit. eapply alloc_before; [apply spec_userinit_tables|apply keeps_userinit_tables|].
  intros _ _. eapply alloc_bind; [apply allocproc_spec|]. intros r Hr. proc_auto.
  intros []. by constructor.
Qed.
Lemma spec_sleep_end m : keeps_opt m → keeps I (sleep_end m).
Proof. intros H. unfold sleep_end. destruct m; proc_auto. Qed.
Lemma spec_forkret b : keeps I (forkret b).
Proof. unfold forkret. proc_auto. Qed.
Lemma spec_getppid : keeps I getppid.
Proof. unfold getppid. proc_auto. Qed.
End proc.

#[export] Hint Resolve spec_exit spec_wait spec_kill spec_growproc spec_getppid spec_thread_join
  spec_thread_exit spec_wakeup1 spec_wakeup spec_yield spec_scheduler_visit spec_scheduler_back
  spec_forkret spec_tick_add_MLFQ spec_set_cpu_share : spec.
#[export] Hint Extern 1 (spec _ (sleep_begin _ _) _) => apply spec_sleep_begin : spec.
#[export] Hint Extern 1 (spec _ (sleep_end _) _) => apply spec_sleep_end : spec.
#[export] Hint Extern 1 (keeps_opt None) => exact Logic.I : spec.

(** ** The operations together

    An operation of the kernel on the process table, as a system call, the timer or
    the scheduler runs it; a step runs one, from a state in which the process ids have
    not run out, to its return or to the point where it goes to sleep; or it changes
    memory and files. *)
Inductive proc_op :=
| OpUserinit | OpFork | OpExit | OpWait | OpKill (pid : Z) | OpGrow (n : Z) | OpGetppid
| OpThreadCreate (start arg : Z) | OpThreadJoin (t : Z) | OpThreadExit (v : Z)
| OpSleep (c : option chan) | OpSleepEnd | OpWakeup (c : chan) | OpYield | OpYieldEnd
| OpVisit (p : nat) | OpBack | OpForkret (first : bool) | OpTick | OpShare (portion : Z).

Section steps.
Context {E : Type} `{!ProcEnv E}.

Definition run_op (o : proc_op) : M (pstate E) unit :=
  match o with
  | OpUserinit => userinit
  | OpFork => fork;; mret tt
  | OpExit => exit
  | OpWait => wait;; mret tt
  | OpKill pid => kill pid;; mret tt
  | OpGrow n => growproc n;; mret tt
  | OpGetppid => getppid;; mret tt
  | OpThreadCreate f a => thread_create f a;; mret tt
  | OpThreadJoin t => thread_join t;; mret tt
  | OpThreadExit v => thread_exit v
  | OpSleep c => sleep_begin c None
  | OpSleepEnd => sleep_end None
  | OpWakeup c => wakeup c
  | OpYield => yield_begin
  | OpYieldEnd => yield_end
  | OpVisit p => scheduler_visit p;; mret tt
  | OpBack => scheduler_back
  | OpForkret b => forkret b;; mret tt
  | OpTick => on_k tick_add_MLFQ;; mret tt
  | OpShare n => on_k (set_cpu_share n);; mret tt
  end.

Inductive proc_step : pstate E → pstate E → Prop :=
| step_ret o s s' : nextpid (ps_k s) < 2 ^ 31 - 1 → run_op o s = Ret tt s' → proc_step s s'
| step_sleep o c s s' : nextpid (ps_k s) < 2 ^ 31 - 1 → run_op o s = Asleep c s' → proc_step s s'
| step_env k e e' : proc_step (mkpstate k e) (mkpstate k e').

Lemma spec_run_op o : alloc_spec (run_op o) (λ _, True).
Proof.
  assert (∀ {A} (m : M (pstate E) A), alloc_spec m (λ _, True) → alloc_spec (m;; mret tt) (λ _, True)) as Hd.
  { intros A m H. eapply alloc_bind; [done|]. intros. by apply spec_ret. }
  assert (∀ {A} (m : M (pstate E) A), spec (λ s, table_ok (ps_k s)) m (λ _, True) → alloc_spec (m;; mret tt) (λ _, True)) as Hs.
  { intros A m H. by apply Hd, spec_alloc. }
  destruct o; simpl; try (apply Hs; eauto with spec; fail); try (apply spec_alloc; eauto with spec; fail).
  - apply userinit_spec.
  - apply Hd, fork_spec.
  - apply Hd, thread_create_spec.
Qed.

Lemma proc_step_ok s s' : proc_step s s' → table_ok (ps_k s) → table_ok (ps_k s').
Proof.
  intros [o ? ? Hr H|o c ? ? Hr H|k e e'] Hs; [..|done];
    pose proof (spec_run_op o _ Hs Hr) as Hop; rewrite H in Hop; [by destruct Hop|done].
Qed.
End steps.
