(* ===== verification/ProcThms.v ===== *)
(** * Processes: what the operations of proc.c do

    The invariant of the process table over all operations, sleep and wakeup, the
    choice of the scheduler, fork, wait and the life of threads, against the interface
    [ProcEnv] of the rest of the kernel. *)
From S2P Require Import Prelude Params ProcState Sched SchedInv SchedPick SchedShare SchedThms Proc ProcInv.

Definition new_page : M Z Z := λ n, Ret (KERNBASE + n * PGSIZE) (n + 1).

#[export] Instance page_counter : ProcEnv Z := {|
  e_kalloc := new_page;
  e_kfree _ := mret tt;
  e_setupkvm := new_page;
  e_inituvm _ := mret tt;
  e_allocuvm _ _ newsz := mret newsz;
  e_deallocuvm _ _ newsz := mret newsz;
  e_copyuvm _ _ := new_page;
  e_freevm _ := mret tt;
  e_clearpteu _ _ := mret tt;
  e_copyout _ _ _ := mret 0;
  e_switchuvm _ _ := mret tt;
  e_switchkvm := mret tt;
  e_filedup f := mret f;
  e_fileclose _ := mret tt;
  e_idup i := mret i;
  e_iput _ := mret tt;
  e_begin_op := mret tt;
  e_end_op := mret tt;
  e_namei_root := mret (Some 0%nat);
  e_fs_init := mret tt
|}.

(** The first process, with its directory and memory. *)
Definition first_proc : proc :=
  set_p_state RUNNING (set_p_pid 1 (set_p_cwd (Some 0%nat) (set_p_sz PGSIZE
    (set_p_pgdir (KERNBASE + PGSIZE) (set_p_kstack KERNBASE blank_proc))))).

(** [kstate_with] for that process, with the ids above its own free. *)
Definition first_kstate (pr : proc) : kstate := set_nextpid 2 (kstate_with pr 0).
Definition first_state (pr : proc) : pstate Z := mkpstate (first_kstate pr) 10.

Lemma blank_ok : proc_ok blank_proc.
Proof.
  constructor; try done; try (by intros i [= <-]; unfold NPROC; lia).
  intros i w H. by apply lookup_replicate in H as [-> _].
Qed.

Lemma first_lookup pr i p :
  ptable (first_kstate pr) !! i = Some p → (i = 0%nat ∧ p = pr) ∨ p = blank_proc.
Proof.
  intros [(-> & <- & _)|(_ & H)]%list_lookup_insert_Some; [by left|right].
  by apply lookup_replicate in H as [-> _].
Qed.

Lemma first_kstate_ok pr : proc_ok pr → p_pid pr = 1 → table_ok (first_kstate pr).
Proof.
  intros Hp Hpid. pose proof blank_ok.
  assert (valid (Some 0%nat)) as Hz by apply valid_zero.
  constructor; try done.
  - intros i p [[-> ->]| ->]%first_lookup; done.
  - intros i st [(_ & <- & _)|(_ & Hs)]%list_lookup_insert_Some; [done|].
    by apply lookup_replicate in Hs as [-> _].
  - assert (queue_ok (queue_with empty_slots)) as Hq.
    { constructor; [done|]. intros i h Hh. by apply lookup_replicate in Hh as [-> _]. }
    intros i q [(_ & <- & _)|(_ & Hs)]%list_lookup_insert_Some;
      [|by apply lookup_replicate in Hs as [-> _]].
    constructor; [done|]. intros j h [(_ & <- & _)|(_ & Hs)]%list_lookup_insert_Some; [done|].
    by apply lookup_replicate in Hs as [-> _].
  - intros i p [[-> ->]| ->]%first_lookup; cbn; lia.
  - intros i j p q [[-> ->]| ->]%first_lookup [[-> ->]| ->]%first_lookup; cbn; congruence.
Qed.

(** Runs of operations, one after the other; a run that panics or faults stays put. *)
Fixpoint run_ops (os : list proc_op) (s : pstate Z) : pstate Z :=
  match os with
  | [] => s
  | o :: os' =>
      if nextpid (ps_k s) <? 2 ^ 31 - 1 then
        match run_op o s with
        | Ret _ s' | Asleep _ s' => run_ops os' s'
        | Panic _ | Fault => s
        end
      else s
  end.

Lemma run_ops_ok os s : table_ok (ps_k s) → table_ok (ps_k (run_ops os s)).
Proof.
  revert s. induction os as [|o os IH]; intros s Hs; cbn [run_ops]; [done|].
  destruct (Z.ltb_spec (nextpid (ps_k s)) (2 ^ 31 - 1)) as [Hr|]; [|done].
  pose proof (spec_run_op o s Hs Hr) as H. destruct (run_op o s); try done; [|by apply IH].
  destruct H. by apply IH.
Qed.

Lemma first_state_ok : table_ok (ps_k (first_state first_proc)).
Proof. apply first_kstate_ok; [|done]. pose proof blank_ok as []. by constructor. Qed.

(** The running process gives up the processor and another one is scheduled. *)
Definition switch : list proc_op := [OpYield; OpBack; OpVisit 0].
(** The first process forks, and its child, in slot 1, is scheduled. *)
Definition to_child : list proc_op := [OpFork] ++ switch ++ [OpYieldEnd] ++ switch ++ [OpForkret false].
(** The child exits and the first process is scheduled. *)
Definition child_exits : list proc_op := to_child ++ [OpExit; OpBack; OpVisit 0; OpYieldEnd].
(** The child makes a thread, the thread exits, and the child is scheduled. *)
Definition thread_left : list proc_op :=
  to_child ++ [OpThreadCreate 100 7] ++ switch ++ [OpYieldEnd] ++ switch ++ [OpYieldEnd] ++ switch
  ++ [OpYieldEnd] ++ switch ++ [OpForkret false; OpThreadExit 7; OpBack; OpVisit 0; OpYieldEnd]
  ++ switch ++ [OpYieldEnd].

(** A state with the table and the lock replaced. *)
Definition with_table {E} (t : list proc) (s : pstate E) : pstate E :=
  mkpstate (set_ptable t (ps_k s)) (ps_env s).
Definition with_lock {E} (b : bool) (s : pstate E) : pstate E :=
  mkpstate (set_ptable_lock b (ps_k s)) (ps_env s).

Section equations.
Context {E : Type} `{!ProcEnv E}.
Implicit Types (s : pstate E) (i : nat).

Lemma getp_run s i p : ptable (ps_k s) !! i = Some p → getp i s = Ret p s.
Proof. intros H. unfold getp, on_k. rewrite (getp_eq _ _ _ H). by destruct s. Qed.

Lemma updp_run s i p f : ptable (ps_k s) !! i = Some p →
  updp i f s = Ret tt (with_table (<[i := f p]> (ptable (ps_k s))) s).
Proof. intros H. unfold updp, on_k. by rewrite (updp_eq _ _ _ _ H). Qed.

Lemma getk_run s : on_k get s = Ret (ps_k s) s.
Proof. by destruct s. Qed.

Lemma myproc_run s i : cpu_proc (ps_k s) = Some i → myproc s = Ret i s.
Proof. intros H. unfold myproc, on_k. rewrite (myproc_eq _ _ H). by destruct s. Qed.

Lemma acquire_run s : ptable_lock (ps_k s) = false → acquire_ptable s = Ret tt (with_lock true s).
Proof. intros H. unfold acquire_ptable, on_k, ProcState.acquire_ptable. by rewrite H. Qed.

Lemma release_run s : ptable_lock (ps_k s) = true → release_ptable s = Ret tt (with_lock false s).
Proof. intros H. unfold release_ptable, on_k, ProcState.release_ptable. by rewrite H. Qed.

Lemma sched_run s cur p :
  ptable_lock (ps_k s) = true → FQ_ticklock (ps_k s) = false → threadlock (ps_k s) = false →
  cpu_proc (ps_k s) = Some cur → ptable (ps_k s) !! cur = Some p → p_state p ≠ RUNNING →
  sched s = Ret tt s.
Proof.
  intros Hl HF HT Hc Hp Hst. unfold sched. rewrite (bind_ret _ _ _ _ _ (getk_run _)).
  unfold locks_held. rewrite Hl, HF, HT. change (Z.b2z true + Z.b2z false + Z.b2z false =? 1) with true. cbn [negb].
  rewrite (bind_ret _ _ _ _ _ (myproc_run _ _ Hc)), (bind_ret _ _ _ _ _ (getp_run _ _ _ Hp)).
  by rewrite decide_False.
Qed.

(** A loop over the whole table that changes the processes that satisfy [P]. *)
Lemma mfor_table (P : proc → bool) (g : proc → proc) (body : nat → M (pstate E) unit) s :
  (∀ s i p, ptable (ps_k s) !! i = Some p →
     body i s = Ret tt (if P p then with_table (<[i := g p]> (ptable (ps_k s))) s else s)) →
  length (ptable (ps_k s)) = NPROC →
  mfor (seq 0 NPROC) body s
  = Ret tt (with_table ((λ p, if P p then g p else p) <$> ptable (ps_k s)) s).
Proof.
  intros Hb Hlen.
  assert (∀ n s, (n <= length (ptable (ps_k s)))%nat →
    mfor (seq (length (ptable (ps_k s)) - n) n) body s
    = Ret tt (with_table (take (length (ptable (ps_k s)) - n) (ptable (ps_k s)) ++
        ((λ p, if P p then g p else p) <$> drop (length (ptable (ps_k s)) - n) (ptable (ps_k s)))) s)) as Hgen.
  { clear s Hlen. induction n as [|n IH]; intros s Hn.
    - rewrite Nat.sub_0_r, take_ge, drop_ge by done. simpl. rewrite app_nil_r.
      by destruct s as [[] ?].
    - set (i := (length (ptable (ps_k s)) - S n)%nat).
      destruct (lookup_lt_is_Some_2 (ptable (ps_k s)) i) as [p Hp]; [lia|]. cbn [seq mfor].
      rewrite (bind_ret _ _ _ _ _ (Hb s i p Hp)).
      set (s' := if P p then _ else s).
      assert (ptable (ps_k s') = <[i := if P p then g p else p]> (ptable (ps_k s))
        ∧ ∀ t, with_table t s' = with_table t s) as [Ht Hw].
      { subst s'. destruct (P p); [by destruct s|]. split; [|done]. by rewrite list_insert_id. }
      assert (length (ptable (ps_k s')) = length (ptable (ps_k s))) as Hl by (by rewrite Ht, length_insert).
      replace (S i) with (length (ptable (ps_k s')) - n)%nat by lia.
      rewrite IH by lia. rewrite Hw. f_equal. f_equal. rewrite Hl.
      replace (length (ptable (ps_k s)) - n)%nat with (S i) by lia. rewrite Ht.
      rewrite (drop_S _ _ _ Hp), drop_insert_lt by lia.
      rewrite (take_S_r _ _ (if P p then g p else p)) by (rewrite list_lookup_insert_eq; [done|lia]).
      rewrite take_insert_ge by lia. by rewrite <-app_assoc. }
  pose proof (Hgen NPROC s) as Hn. rewrite Hlen, Nat.sub_diag, take_0, drop_0 in Hn. cbn [app] in Hn.
  by rewrite Hn by lia.
Qed.
End equations.

(** ** Sleep and wakeup *)
Section sleep.
Context {E : Type} `{!ProcEnv E}.
Implicit Types (s : pstate E) (c : chan).

Definition asleep_on c (p : proc) : bool := bool_decide (p_state p = SLEEPING ∧ p_chan p = Some c).
(** The table after a wakeup. *)
Definition woken c (p : proc) : proc := if asleep_on c p then set_p_state RUNNABLE p else p.

Lemma wakeup1_run s c : length (ptable (ps_k s)) = NPROC →
  wakeup1 c s = Ret tt (with_table (woken c <$> ptable (ps_k s)) s).
Proof.
  intros H. unfold wakeup1. apply (mfor_table (asleep_on c) (set_p_state RUNNABLE)); [|done].
  intros s' i p Hp. rewrite (bind_ret _ _ _ _ _ (getp_run _ _ _ Hp)). unfold asleep_on.
  case_bool_decide; [|done]. by rewrite (updp_run _ _ _ _ Hp).
Qed.

Lemma wakeup_run s c : length (ptable (ps_k s)) = NPROC → ptable_lock (ps_k s) = false →
  wakeup c s = Ret tt (with_table (woken c <$> ptable (ps_k s)) s).
Proof.
  intros H Hl. unfold wakeup. rewrite (bind_ret _ _ _ _ _ (acquire_run _ Hl)).
  rewrite (bind_ret _ _ _ _ _ (wakeup1_run (with_lock true s) _ H)).
  rewrite release_run by done. destruct s as [[] e]; cbn in *. by subst.
Qed.

Lemma wakeups_run (cs : list chan) s :
  length (ptable (ps_k s)) = NPROC → ptable_lock (ps_k s) = false →
  mfor cs wakeup s = Ret tt (with_table (foldr (λ c t, woken c <$> t) (ptable (ps_k s)) (reverse cs)) s).
Proof.
  revert s. induction cs as [|c cs IH]; intros s H Hl; cbn [mfor].
  - by destruct s as [[] e].
  - rewrite (bind_ret _ _ _ _ _ (wakeup_run _ _ H Hl)). rewrite IH by (cbn; by rewrite ?length_fmap).
    rewrite reverse_cons, foldr_app. done.
Qed.

(** A process asleep on [c] sleeps through the wakeups of other channels. *)
Lemma foldr_woken c (cs : list chan) (t : list proc) i p :
  t !! i = Some p → asleep_on c p = true → c ∉ cs →
  foldr (λ c t, woken c <$> t) t cs !! i = Some p.
Proof.
  intros Hp Ha. induction cs as [|c' cs IH]; cbn [foldr]; [done|].
  intros [Hne Hin]%not_elem_of_cons. rewrite list_lookup_fmap, (IH Hin). cbn. f_equal.
  unfold woken. destruct (asleep_on c' p) eqn:Ha'; [|done].
  unfold asleep_on in *. rewrite bool_decide_eq_true in Ha, Ha'. destruct Ha, Ha'. congruence.
Qed.

Lemma length_foldr_woken (cs : list chan) (t : list proc) :
  length (foldr (λ c t, woken c <$> t) t cs) = length t.
Proof. induction cs; cbn; [done|]. by rewrite length_fmap. Qed.
End sleep.

Section sleep_thms.
Context {E : Type} `{!ProcEnv E}.
Implicit Types (s : pstate E) (c : chan).

(** What [sleep] leaves in the table for the process [p]. *)
Definition sleeper c (p : proc) : proc := set_p_state SLEEPING (set_p_chan (Some c) p).

Lemma sleep_begin_run s cur p c rel e' :
  cpu_proc (ps_k s) = Some cur → ptable (ps_k s) !! cur = Some p →
  ptable_lock (ps_k s) = false → FQ_ticklock (ps_k s) = false → threadlock (ps_k s) = false →
  rel (with_lock true s) = Ret tt (mkpstate (set_ptable_lock true (ps_k s)) e') →
  sleep_begin (Some c) (Some rel) s
  = Ret tt (mkpstate (set_ptable_lock true (set_ptable (<[cur := sleeper c p]> (ptable (ps_k s))) (ps_k s))) e').
Proof.
  intros Hc Hp Hl HF HT Hrel. unfold sleep_begin.
  assert (on_k (gets cpu_proc) s = Ret (Some cur) s) as Hg by (unfold on_k, gets; rewrite Hc; by destruct s).
  rewrite (bind_ret _ _ _ _ _ Hg). rewrite bind_assoc, (bind_ret _ _ _ _ _ (acquire_run _ Hl)).
  rewrite (bind_ret _ _ _ _ _ Hrel).
  pose proof (lookup_lt_Some _ _ _ Hp) as Hlt.
  destruct s as [[t sa q mt np ini cu pl fl tl] e]; cbn in *; subst.
  erewrite bind_ret by (by apply updp_run; cbn). cbn.
  erewrite bind_ret by (apply updp_run; cbn; by apply list_lookup_insert_eq). cbn.
  rewrite list_insert_insert_eq.
  by erewrite sched_run by (try done; cbn; by apply list_lookup_insert_eq).
Qed.
End sleep_thms.

(** ** The claims *)
Section claims.
Context {E : Type} `{!ProcEnv E}.
Implicit Types (s : pstate E).

(** the process table stays well formed.  Whatever sequence of system calls, timer
    ticks and scheduler visits the kernel runs, and wherever they go to sleep: the
    arrays keep their lengths, every pointer to a process (parent, master, worker,
    queue slot, stride element, current process) is null or names a slot of the table,
    and no two slots hold the same process id. *)
Theorem process_table_invariant s0 s :
  table_ok (ps_k s0) → rtc proc_step s0 s → table_ok (ps_k s).
Proof.
  intros H0 Hsteps. induction Hsteps as [|s0 s1 s2 Hst _ IH]; [done|].
  apply IH. by eapply proc_step_ok.
Qed.

(** C8: no wakeup is lost.  [sleep] with the lock of a condition holds [ptable.lock]
    before it gives the condition's lock back ([rel] is only run with it held), and
    leaves the caller SLEEPING on its channel, still holding [ptable.lock].  Once the
    scheduler has released that lock, wakeups of other channels leave the process
    asleep, and a wakeup of its channel makes it RUNNABLE, together with exactly the
    other processes that sleep on that channel. *)
Theorem no_lost_wakeup s cur p c rel f (cs : list chan) :
  length (ptable (ps_k s)) = NPROC →
  cpu_proc (ps_k s) = Some cur → ptable (ps_k s) !! cur = Some p →
  ptable_lock (ps_k s) = false → FQ_ticklock (ps_k s) = false → threadlock (ps_k s) = false →
  (∀ s, ptable_lock (ps_k s) = true → rel s = Ret tt (mkpstate (ps_k s) (f (ps_env s)))) →
  c ∉ cs →
  ∃ s1 s2 s3,
    sleep_begin (Some c) (Some rel) s = Ret tt s1
    ∧ ptable_lock (ps_k s1) = true ∧ ps_env s1 = f (ps_env s)
    ∧ ptable (ps_k s1) = <[cur := sleeper c p]> (ptable (ps_k s))
    ∧ mfor cs wakeup (with_lock false s1) = Ret tt s2
    ∧ ptable (ps_k s2) !! cur = Some (sleeper c p)
    ∧ wakeup c s2 = Ret tt s3
    ∧ ptable (ps_k s3) !! cur = Some (set_p_state RUNNABLE (sleeper c p))
    ∧ ∀ i q, ptable (ps_k s2) !! i = Some q →
        ptable (ps_k s3) !! i = Some (if asleep_on c q then set_p_state RUNNABLE q else q).
Proof.
  intros Hlen Hc Hp Hl HF HT Hrel Hcs.
  pose proof (lookup_lt_Some _ _ _ Hp) as Hlt.
  eexists _, _, _. split_and!; [by apply sleep_begin_run, Hrel|done..| | |apply wakeup_run| |].
  - apply wakeups_run; cbn; [by rewrite length_insert|done].
  - cbn. apply (foldr_woken c); [by apply list_lookup_insert_eq| |by rewrite elem_of_reverse].
    unfold asleep_on. by apply bool_decide_eq_true.
  - cbn. by rewrite length_foldr_woken, length_insert.
  - done.
  - cbn. rewrite list_lookup_fmap, (foldr_woken c _ _ _ (sleeper c p)).
    + cbn. unfold woken, asleep_on. by rewrite bool_decide_true.
    + by apply list_lookup_insert_eq.
    + unfold asleep_on. by apply bool_decide_eq_true.
    + by rewrite elem_of_reverse.
  - intros i q Hq. cbn in Hq |- *. by rewrite list_lookup_fmap, Hq.
Qed.
End claims.

(** The first process forks and both are scheduled on. *)
Definition forked : pstate Z :=
  match run_op OpFork (first_state first_proc) with Ret _ s => s | _ => first_state first_proc end.

Lemma forked_eq : run_op OpFork (first_state first_proc) = Ret tt forked.
Proof. vm_compute. reflexivity. Qed.

Lemma process_table_invariant_witness : table_ok (ps_k forked).
Proof.
  apply (process_table_invariant (first_state first_proc)).
  - apply first_kstate_ok; [|reflexivity]. pose proof blank_ok as []. by constructor.
  - apply rtc_once, (step_ret OpFork); [reflexivity|apply forked_eq].
Defined.

Lemma no_lost_wakeup_witness :
  ∃ s1 s2 s3,
    sleep_begin (Some ChTicks) (Some (λ s, Ret tt s)) (first_state first_proc) = Ret tt s1
    ∧ mfor [ChLog] wakeup (with_lock false s1) = Ret tt s2
    ∧ wakeup ChTicks s2 = Ret tt s3
    ∧ ptable (ps_k s3) !! 0%nat = Some (set_p_state RUNNABLE (sleeper ChTicks first_proc)).
Proof.
  destruct (no_lost_wakeup (first_state first_proc) 0 first_proc ChTicks (λ s, Ret tt s) id [ChLog])
    as (s1 & s2 & s3 & H1 & _ & _ & _ & H2 & _ & H3 & H4 & _); try reflexivity.
  - by intros [].
  - by intros ?%list_elem_of_singleton.
  - exists s1, s2, s3. done.
Defined.
