(* ===== verification/ProcSched.v ===== *)
(** * The scheduler loop of proc.c

    What a visit of [scheduler] to a slot of the process table does, from the
    guarantees of [choose_lowpass] about the process it returns. *)
From S2P Require Import Prelude Params ProcState Sched SchedInv SchedPick SchedShare SchedThms.
From S2P Require Import Proc ProcInv ProcThms.

(** A process up to [curthread], the one field that choosing a process to run changes. *)
Definition proc_view (p : proc) : proc := set_p_curthread 0 p.
Definition view (k : kstate) : list proc := proc_view <$> ptable k.

Create HintDb view.

Section view.
Context (v : list proc).
Abbreviation I := (λ k, view k = v).

Lemma view_getp i : keeps I (ProcState.getp i).
Proof. intros k Hk. unfold ProcState.getp. by destruct (_ !! i). Qed.
Lemma view_getq i : keeps I (getq i).
Proof. intros k Hk. unfold getq. destruct (i <? 0); [done|]. by destruct (_ !! Z.to_nat i). Qed.
Lemma view_getst i : keeps I (getst i).
Proof. intros k Hk. unfold getst. by destruct (_ !! i). Qed.
Lemma view_updq i f : keeps I (updq i f).
Proof. intros k Hk. unfold updq. destruct (i <? 0); [done|]. by destruct (_ !! Z.to_nat i). Qed.
Lemma view_updst i f : keeps I (updst i f).
Proof. intros k Hk. unfold updst. by destruct (_ !! i). Qed.
Lemma view_updp i f : (∀ p, proc_view (f p) = proc_view p) → keeps I (ProcState.updp i f).
Proof.
  intros Hf k Hk. unfold ProcState.updp. destruct (ptable k !! i) as [p|] eqn:Hp; [|done].
  split; [|done]. unfold view in *. cbn. rewrite list_fmap_insert, Hf, Hk.
  apply list_insert_id. by rewrite <-Hk, list_lookup_fmap, Hp.
Qed.
Hint Resolve view_getp view_getq view_getst view_updq view_updst : view.
Hint Extern 1 (spec _ (ProcState.updp _ _) _) => apply view_updp; done : view.
Hint Extern 1 (spec _ (deref _) _) => by apply spec_deref : view.

Ltac view_auto :=
  repeat first
    [ lazymatch goal with
      | |- spec _ (mbind _ _) _ => apply (spec_bind _ _ _ (λ _, True)); [|intros ? _]
      | |- spec _ (mret _) _ => by apply spec_ret
      | |- spec _ fault _ => apply spec_fault
      | |- spec _ (mfor _ _) _ => apply spec_mfor; intros ?
      | |- spec _ (mfold _ _ _) _ => apply spec_mfold; [done|intros ? ? _]
      | |- spec _ (match ?x with _ => _ end) _ => destruct x
      | |- spec _ (let _ := _ in _) _ => cbv zeta
      end
    | match goal with H : context [spec _ _ _] |- _ => apply H end
    | solve [eauto 2 with view nocore] ].

Lemma view_pickthread m : keeps I (pickthread m).
Proof.
  assert (∀ fuel i, keeps I (pickthread_loop fuel m i)) as H.
  { clear. induction fuel as [|fuel IH]; intros i; simpl; view_auto. }
  unfold pickthread. view_auto.
Qed.
Hint Resolve view_pickthread : view.

Lemma view_exec_MLFQ : keeps I exec_MLFQ.
Proof.
  assert (∀ n l pos, keeps I (exec_MLFQ_scan l n pos)) as H.
  { induction n as [|n IH]; intros l pos; simpl; unfold holds_runnable; view_auto; apply IH. }
  unfold exec_MLFQ. generalize [0; 1; 2]. induction l as [|i l IH]; cbn [exec_MLFQ_levels]; view_auto;
    first [apply IH|apply H].
Qed.
Hint Resolve view_exec_MLFQ : view.

Lemma view_choose_lowpass n : keeps I (choose_lowpass n).
Proof. unfold choose_lowpass, lowpass_step. view_auto. Qed.
End view.

Lemma view_lookup k k' i p :
  view k' = view k → ptable k !! i = Some p →
  ∃ p', ptable k' !! i = Some p' ∧ proc_view p' = proc_view p.
Proof.
  intros Hv Hp. assert (view k' !! i = Some (proc_view p)) as H
    by (rewrite Hv; unfold view; by rewrite list_lookup_fmap, Hp).
  unfold view in H. apply list_lookup_fmap_Some in H as (p' & ? & ?). by exists p'.
Qed.

(** What [choose_lowpass] returns, with the rest of the table as it was. *)
Lemma choose_runnable k n :
  mlfq_wf k → groups_wf k → strides_wf k → (∀ j, (j < NPROC)%nat → pass_of k j <= 200000000) →
  returns (choose_lowpass n) k (λ r k',
    view k' = view k ∧ match r with Some t => runnable k t | None => k' = k end).
Proof.
  intros Hwf Hg Hst Hp. pose proof (choose_lowpass_spec k n Hwf Hg Hst Hp) as H.
  pose proof (view_choose_lowpass (view k) n k eq_refl) as Hv.
  unfold returns in *. destruct (choose_lowpass n k) as [r k'| | |]; try done.
  destruct Hv as [Hv _]. destruct H as (_ & _ & Hr & s & _ & Hcase). split; [done|].
  destruct r as [t|]; [by apply Hr|]. destruct (decide (s = 0%nat)); [by destruct Hcase|].
  by destruct Hcase as (? & ? & _ & ? & _).
Qed.

(** Adding the stride to the pass of the queues. *)
Definition charged (k : kstate) (st0 : stride) : kstate :=
  set_stride_arr (<[0%nat := set_st_pass (s32 (st_pass st0 + st_stride st0)) st0]> (stride_arr k)) k.

Lemma charged_wf k st0 :
  stride_arr k !! 0%nat = Some st0 → 0 <= st_pass st0 → 0 <= st_stride st0 →
  mlfq_wf k → groups_wf k → strides_wf k →
  (∀ j, (j < NPROC)%nat → pass_of k j + st_stride st0 <= 200000000) →
  mlfq_wf (charged k st0) ∧ groups_wf (charged k st0) ∧ strides_wf (charged k st0)
  ∧ ∀ j, (j < NPROC)%nat → pass_of (charged k st0) j <= 200000000.
Proof.
  intros H0 Hp Hs Hwf Hg [Hl Hst] Hb. pose proof (Hb 0%nat ltac:(unfold NPROC; lia)) as Hb0.
  rewrite (pass_of_eq _ _ _ H0) in Hb0. split_and!.
  - by destruct Hwf; constructor.
  - done.
  - split; cbn; [by rewrite length_insert|].
    intros j st [(<- & <- & _)|[_ Hj]]%list_lookup_insert_Some; cbn; eauto.
  - intros j Hj. specialize (Hb j Hj). unfold pass_of, charged in *. cbn.
    destruct (decide (j = 0%nat)) as [->|].
    + rewrite list_lookup_insert_eq by (by eapply lookup_lt_Some). cbn.
      rewrite s32_id; [lia|unfold is_s32; lia].
    + rewrite list_lookup_insert_ne by done. destruct (stride_arr k !! j); lia.
Qed.

Section visit.
Context {E : Type} `{!ProcEnv E}.
Implicit Types (s : pstate E).

(** The three ways to choose: from the lowest pass, again after charging the queues,
    or the slot that is visited. *)
Lemma visit_choice s i st0 :
  let k := ps_k s in
  mlfq_wf k → groups_wf k → strides_wf k → stride_arr k !! 0%nat = Some st0 →
  0 <= st_pass st0 → 0 <= st_stride st0 →
  (∀ j, (j < NPROC)%nat → pass_of k j + st_stride st0 <= 200000000) →
  runnable k i →
  returns (chosen ← on_k (choose_lowpass 0);
           match chosen with
           | Some c => mret (Some c)
           | None => on_k (updst 0 (λ st, set_st_pass (s32 (st_pass st + st_stride st)) st));;
                     on_k (choose_lowpass 1)
           end) s (λ c s',
    runnable k (default i c) ∧ view (ps_k s') = view k ∧ ps_env s' = ps_env s).
Proof.
  intros k Hwf Hg Hst H0 Hp Hs Hb Hi.
  assert (∀ j, (j < NPROC)%nat → pass_of k j <= 200000000) as Hb' by (intros j Hj; specialize (Hb j Hj); lia).
  apply returns_bind. pose proof (choose_runnable k 0 Hwf Hg Hst Hb') as H.
  unfold returns in H |- * at 1. unfold on_k at 1. fold k.
  destruct (choose_lowpass 0 k) as [[t|] k'| | |] eqn:E0; try done; destruct H as [Hv Hr].
  - by apply returns_ret.
  - subst k'. destruct (charged_wf k st0 H0 Hp Hs Hwf Hg Hst Hb) as (W1 & W2 & W3 & W4).
    apply returns_bind. unfold returns at 1, on_k at 1. cbn. rewrite (updst_eq _ _ _ _ H0).
    pose proof (choose_runnable _ 1 W1 W2 W3 W4) as H. unfold returns in H |- *. unfold on_k. cbn.
    fold (charged k st0). destruct (choose_lowpass 1 (charged k st0)) as [[t|] k'| | |]; try done;
      destruct H as [Hv' Hr']; [done|]. by subst.
Qed.

(** From the choice to the switch. *)
Lemma visit_switch s t q f :
  ptable (ps_k s) !! t = Some q → e_switchuvm (p_kstack q) (p_pgdir q) (ps_env s) = Ret tt f →
  returns (on_k (modify (set_cpu_proc (Some t)));;
           c ← getp t;
           on_env (e_switchuvm (p_kstack c) (p_pgdir c));;
           updp t (set_p_state RUNNING);;
           mret (Some t)) s (λ r s',
    r = Some t ∧ cpu_proc (ps_k s') = Some t ∧ ps_env s' = f
    ∧ ptable (ps_k s') = <[t := set_p_state RUNNING q]> (ptable (ps_k s))).
Proof.
  intros Hq He. unfold returns. destruct s as [k e]; cbn in *.
  unfold on_k at 1, modify, mbind, M_bind; cbn. unfold getp, on_k, ProcState.getp; cbn. rewrite Hq; cbn.
  unfold on_env; cbn. rewrite He; cbn. unfold updp, on_k, ProcState.updp; cbn. by rewrite Hq.
Qed.

(** C32: the scheduler switches to runnable processes only.  A visit to a slot that is
    not RUNNABLE does nothing; a visit to a RUNNABLE one makes exactly one process
    RUNNING, a process that was RUNNABLE (not necessarily the visited one), records it
    as the current process of the processor, switches to its stack and page table, and
    changes nothing else in the process table but the field [curthread], in which
    [pickthread] keeps the place of a master among its threads.  The passes are assumed
    to be so small that adding the stride of the queues keeps them within 200000000,
    where [choose_lowpass] does not reset them (its reset is the fault of
    [choose_lowpass_guard_faults]).  [f] is the effect of [switchuvm]. *)
Theorem scheduler_runs_runnable s i p st0 f :
  let k := ps_k s in
  mlfq_wf k → groups_wf k → strides_wf k → stride_arr k !! 0%nat = Some st0 →
  0 <= st_pass st0 → 0 <= st_stride st0 →
  (∀ j, (j < NPROC)%nat → pass_of k j + st_stride st0 <= 200000000) →
  (∀ j q, ptable k !! j = Some q → p_state q = RUNNABLE → p_kstack q ≠ 0 ∧ p_pgdir q ≠ 0) →
  (∀ ks pg e, ks ≠ 0 → pg ≠ 0 → e_switchuvm ks pg e = Ret tt (f ks pg e)) →
  ptable k !! i = Some p →
  returns (scheduler_visit i) s (λ r s',
    match r with
    | None => p_state p ≠ RUNNABLE ∧ s' = s
    | Some t => p_state p = RUNNABLE ∧ ∃ q,
        ptable k !! t = Some q ∧ p_state q = RUNNABLE
        ∧ cpu_proc (ps_k s') = Some t ∧ ps_env s' = f (p_kstack q) (p_pgdir q) (ps_env s)
        ∧ view (ps_k s') = <[t := proc_view (set_p_state RUNNING q)]> (view k)
    end).
Proof.
  intros k Hwf Hg Hst H0 Hp Hs Hb Hmem Hsw Hi. unfold scheduler_visit.
  eapply returns_bind_eq; [by apply getp_run|].
  destruct (decide (p_state p ≠ RUNNABLE)) as [Hn|Hn]; [by apply returns_ret|].
  assert (p_state p = RUNNABLE) as Hr by (by destruct (p_state p); try done; destruct Hn).
  assert (runnable k i) as Hri by (by exists p).
  pose proof (visit_choice s i st0 Hwf Hg Hst H0 Hp Hs Hb Hri) as Hc.
  apply returns_eq in Hc as (c & s' & Hc & Hrt & Hv & He).
  apply returns_assoc. eapply returns_bind_eq; [exact Hc|]. cbv zeta.
  destruct Hrt as (q & Hq & Hqr). destruct (view_lookup k (ps_k s') _ _ Hv Hq) as (q' & Hq' & Hpv).
  pose proof (f_equal p_kstack Hpv) as E2. pose proof (f_equal p_pgdir Hpv) as E3. cbn in E2, E3. destruct (Hmem _ _ Hq Hqr) as [K1 K2].
  pose proof (visit_switch s' (default i c) q' (f (p_kstack q) (p_pgdir q) (ps_env s)) Hq') as Hf.
  rewrite E2, E3, He in Hf. specialize (Hf (Hsw _ _ _ K1 K2)).
  eapply returns_mono; [exact Hf|]. intros r s2 (-> & F1 & F2 & F3). split; [done|]. exists q. split_and!; try done.
  unfold view at 1. rewrite F3, list_fmap_insert. fold (view (ps_k s')). rewrite Hv.
  f_equal. change (set_p_state RUNNING (proc_view q') = set_p_state RUNNING (proc_view q)). by rewrite Hpv.
Qed.
End visit.

Definition ready_first : proc := set_p_state RUNNABLE first_proc.

Lemma scheduler_runs_runnable_witness :
  returns (scheduler_visit 0) (first_state ready_first) (λ r s',
    match r with
    | None => RUNNABLE ≠ RUNNABLE ∧ s' = first_state ready_first
    | Some t => RUNNABLE = RUNNABLE ∧ ∃ q,
        ptable (first_kstate ready_first) !! t = Some q ∧ p_state q = RUNNABLE
        ∧ cpu_proc (ps_k s') = Some t ∧ ps_env s' = 10
        ∧ view (ps_k s') = <[t := proc_view (set_p_state RUNNING q)]> (view (first_kstate ready_first))
    end).
Proof.
  apply (scheduler_runs_runnable (first_state ready_first) 0 ready_first mlfq_stride (λ _ _ e, e)).
  - pose proof (kstate_with_wf ready_first 0 ltac:(unfold NQUEUE; lia) eq_refl) as []. by constructor.
  - apply (kstate_with_groups ready_first 0). by destruct blank_group.
  - apply (kstate_with_strides ready_first 0).
  - reflexivity.
  - done.
  - done.
  - intros j Hj. pose proof (kstate_with_pass ready_first 0 j) as Hz.
    unfold pass_of in *. cbn in *. rewrite Hz. lia.
  - intros j q [[-> ->]| ->]%first_lookup; [done|]. done.
  - done.
  - reflexivity.
Defined.
