(* ===== verification/ProcLife.v ===== *)
(** * The life of a process: fork, wait, exit

    [fork] and [wait] on the process table, against the interface [ProcEnv]; and two
    runs in which thread slots go wrong. *)
From S2P Require Import Prelude Params ProcState Sched SchedInv SchedPick SchedShare SchedThms.
From S2P Require Import Proc ProcInv ProcThms.

(** The state with slot [i] replaced. *)
Definition at_slot {E} (k : kstate) (e : E) (i : nat) (q : proc) : pstate E :=
  mkpstate (set_ptable (<[i := q]> (ptable k)) k) e.

Section slots.
Context {E : Type} `{!ProcEnv E}.
Implicit Types (k : kstate) (e : E) (i j : nat).

Lemma at_slot_upd k e i q f : (i < length (ptable k))%nat →
  updp i f (at_slot k e i q) = Ret tt (at_slot k e i (f q)).
Proof.
  intros Hi. erewrite updp_run by (cbn; by apply list_lookup_insert_eq).
  unfold at_slot, with_table; cbn. by rewrite list_insert_insert_eq.
Qed.

Lemma at_slot_get k e i q : (i < length (ptable k))%nat → getp i (at_slot k e i q) = Ret q (at_slot k e i q).
Proof. intros Hi. apply getp_run. cbn. by apply list_lookup_insert_eq. Qed.

Lemma at_slot_get_ne k e i j q p : i ≠ j → ptable k !! j = Some p →
  getp j (at_slot k e i q) = Ret p (at_slot k e i q).
Proof. intros Hi Hj. apply getp_run. cbn. by rewrite list_lookup_insert_ne. Qed.

Lemma at_slot_acquire k e i q : ptable_lock k = false →
  acquire_ptable (at_slot k e i q) = Ret tt (at_slot (set_ptable_lock true k) e i q).
Proof. intros H. by rewrite acquire_run. Qed.
Lemma at_slot_release k e i q : ptable_lock k = false →
  release_ptable (at_slot (set_ptable_lock true k) e i q) = Ret tt (at_slot k e i q).
Proof. intros H. rewrite release_run by done. destruct k; cbn in *. by subst. Qed.

Lemma set_tf_twice t f q : set_p_tf (f (p_tf (set_p_tf t q))) (set_p_tf t q) = set_p_tf (f t) q.
Proof. done. Qed.

Lemma table_twice k t t' : set_ptable t (set_ptable t' k) = set_ptable t k.
Proof. done. Qed.

Lemma table_of k t : ptable (set_ptable t k) = t.
Proof. done. Qed.

Lemma queued_table k t l i : queued (set_ptable t k) l i ↔ queued k l i.
Proof. done. Qed.

(** *** allocproc *)
Definition embryo (pid ks : Z) (old : proc) : proc :=
  set_p_kstack ks (set_p_pid pid (set_p_state EMBRYO old)).
Definition newborn (pid ks : Z) (old : proc) : proc :=
  set_p_mystride (Some 0%nat) (pushed_proc 0 (embryo pid ks old)).
Definition counted k : kstate := set_nextpid (s32 (nextpid k + 1)) k.

Lemma find_unused_run k e i old :
  ptable_lock k = false → list_find (λ p, p_state p = UNUSED) (ptable k) = Some (i, old) →
  find_unused (mkpstate k e)
  = Ret (Some i) (at_slot (counted k) e i (set_p_pid (nextpid k) (set_p_state EMBRYO old))).
Proof.
  intros Hl Hf. pose proof Hf as (Hi & _ & _)%list_find_Some. pose proof (lookup_lt_Some _ _ _ Hi).
  unfold find_unused. rewrite (bind_ret _ _ _ _ _ (acquire_run (mkpstate k e) Hl)).
  rewrite (bind_ret _ _ _ _ _ (getk_run _)). cbn [with_lock ps_k ptable set_ptable_lock]. rewrite Hf.
  destruct k as [t sa q mt np ini cu pl fl tl]; cbn in *; subst.
  unfold mbind, M_bind, updp, on_k, ProcState.updp; cbn. rewrite Hi; cbn.
  rewrite list_lookup_insert_eq by done. cbn. by rewrite list_insert_insert_eq.
Qed.

(** Process [i] has joined the queue of level 0; the others are as they were. *)
Definition enqueued (k k' : kstate) (i : nat) : Prop :=
  mlfq_wf k' ∧ queue_of k' 0 ≡ₚ i :: queue_of k 0 ∧ ∀ l, l ≠ 0%nat → queue_of k' l = queue_of k l.

(** The slot may change further, but for its level. *)
Lemma enqueued_slot k k1 i q q' :
  enqueued k (set_ptable (<[i := q]> (ptable k)) k1) i → (i < length (ptable k))%nat → p_level q' = p_level q →
  enqueued k (set_ptable (<[i := q']> (ptable k)) k1) i.
Proof.
  intros (Hwf & Hq & Hr) Hi Hl. split; [|done].
  pose proof (mlfq_wf_proc _ i q q' Hwf (list_lookup_insert_eq _ _ _ Hi) Hl) as Hw.
  by rewrite table_twice, table_of, list_insert_insert_eq in Hw.
Qed.

Lemma allocproc_run k e i old ks e1 :
  mlfq_wf k → ptable_lock k = false →
  list_find (λ p, p_state p = UNUSED) (ptable k) = Some (i, old) → (∀ l, ¬ queued k l i) →
  e_kalloc e = Ret ks e1 → ks ≠ 0 →
  ∃ Q, allocproc (mkpstate k e)
       = Ret (Some i) (at_slot (set_MLFQ_queues Q (counted k)) e1 i (newborn (nextpid k) ks old))
    ∧ let k' := set_ptable (<[i := newborn (nextpid k) ks old]> (ptable k)) (set_MLFQ_queues Q (counted k)) in
      enqueued k k' i.
Proof.
  intros Hwf Hl Hf Hq Hka Hks. pose proof Hf as (Hi & _ & _)%list_find_Some.
  pose proof (lookup_lt_Some _ _ _ Hi) as Hlt. pose proof Hlt as Hlt'. rewrite (wf_ptable _ Hwf) in Hlt'.
  set (q1 := embryo (nextpid k) ks old).
  set (k1 := set_ptable (<[i := q1]> (ptable k)) (counted k)).
  assert (mlfq_wf k1) as Hwf1.
  { pose proof (mlfq_wf_proc k i old q1 Hwf Hi eq_refl) as []. by constructor. }
  destruct (push_MLFQ_spec k1 i 0 Hwf1) as (k2 & Hpush & Hwf2 & Hin & Hoth & Htab & Hk2);
    [done|unfold NQUEUE; lia|done|].
  specialize (Htab q1). cbn in Htab. rewrite list_lookup_insert_eq, list_insert_insert_eq in Htab by done.
  specialize (Htab eq_refl). change (Z.of_nat 0) with 0 in *. exists (MLFQ_queues k2). split.
  - unfold allocproc. rewrite (bind_ret _ _ _ _ _ (find_unused_run k e i old Hl Hf)).
    unfold alloc_kstack. rewrite bind_assoc.
    assert (∀ q, on_env e_kalloc (at_slot (counted k) e i q) = Ret ks (at_slot (counted k) e1 i q)) as Hka'.
    { intros q. unfold on_env. cbn. by rewrite Hka. }
    rewrite (bind_ret _ _ _ _ _ (Hka' _)), bind_assoc, (bind_ret _ _ _ _ _ (at_slot_upd (counted k) e1 i _ _ Hlt)).
    rewrite (proj2 (Z.eqb_neq ks 0) Hks). cbn [negb]. rewrite bind_mret. cbn [negb].
    assert (on_k (push_MLFQ i 0) (at_slot (counted k) e1 i q1)
      = Ret 0 (at_slot (set_MLFQ_queues (MLFQ_queues k2) (counted k)) e1 i (pushed_proc 0 q1))) as Hpush'.
    { unfold on_k, at_slot. cbn [ps_k ps_env].
      change (set_ptable _ (counted k)) with k1. rewrite Hpush. rewrite Hk2 at 1. by rewrite Htab. }
    rewrite (bind_ret _ _ _ _ _ Hpush').
    by rewrite (bind_ret _ _ _ _ _ (at_slot_upd (set_MLFQ_queues (MLFQ_queues k2) (counted k)) e1 i _ _ Hlt)).
  - cbv zeta. split.
    + assert (ptable k2 !! i = Some (pushed_proc 0 q1)) as Hi2 by (rewrite Htab; by apply list_lookup_insert_eq).
      pose proof (mlfq_wf_proc k2 i _ (newborn (nextpid k) ks old) Hwf2 Hi2 eq_refl) as Hw.
      rewrite Htab, list_insert_insert_eq in Hw. rewrite Hk2 in Hw. destruct Hw; by constructor.
    + split; [exact Hin|exact Hoth].
Qed.

(** *** fork *)
Definition dup_list (from to : list (option nat)) : list (option nat) :=
  zip_with (λ a b, match a with Some f => Some f | None => b end) from to.

Lemma dup_list_step (from to : list (option nat)) (n : nat) x y :
  from !! n = Some x → to !! n = Some y → length from = length to →
  take (S n) (dup_list from to) ++ drop (S n) to
  = <[n := match x with Some f => Some f | None => y end]> (take n (dup_list from to) ++ drop n to).
Proof.
  intros Hx Hy Hl. pose proof (lookup_lt_Some _ _ _ Hx). pose proof (lookup_lt_Some _ _ _ Hy).
  assert (dup_list from to !! n = Some (match x with Some f => Some f | None => y end)) as Hd
    by (unfold dup_list; by rewrite lookup_zip_with, Hx, Hy).
  pose proof (lookup_lt_Some _ _ _ Hd).
  rewrite (take_S_r _ _ _ Hd), (drop_S _ _ _ Hy), <-app_assoc.
  rewrite insert_app_r_alt by (rewrite length_take; lia).
  replace (n - length (take n (dup_list from to)))%nat with 0%nat by (rewrite length_take; lia). done.
Qed.

(** The calls of [filedup] for the open files of a process, in the order of the
    descriptors. *)
Definition dup_env (files : list (option nat)) : M E unit :=
  mfor (omap id files) (λ f, e_filedup f;; mret tt).

Lemma dup_files_run k e np q cur c :
  cur ≠ np → (np < length (ptable k))%nat → ptable k !! cur = Some c →
  length (p_ofile c) = NOFILE → length (p_ofile q) = NOFILE →
  (∀ f e, ∃ e', e_filedup f e = Ret f e') →
  ∃ e', dup_env (p_ofile c) e = Ret tt e' ∧ dup_files cur np (at_slot k e np q)
        = Ret tt (at_slot k e' np (set_p_ofile (dup_list (p_ofile c) (p_ofile q)) q)).
Proof.
  intros Hne Hnp Hc Hl1 Hl2 Hdup.
  assert (returns (dup_files cur np) (at_slot k e np q) (λ _ s', ∃ e', dup_env (p_ofile c) e = Ret tt e'
    ∧ s' = at_slot k e' np (set_p_ofile (dup_list (p_ofile c) (p_ofile q)) q))) as H.
  { unfold dup_files. set (D := dup_list (p_ofile c) (p_ofile q)).
    assert (length D = NOFILE) as HD by (unfold D, dup_list; rewrite length_zip_with; lia).
    apply (returns_mfor _ _ (λ done s', ∃ e', dup_env (take (length done) (p_ofile c)) e = Ret tt e' ∧ s' = at_slot k e' np
      (set_p_ofile (take (length done) D ++ drop (length done) (p_ofile q)) q))).
    - exists e. cbn. rewrite drop_0. by destruct q.
    - intros done i rest s' Hs (e' & HE & ->).
      assert (i = length done ∧ (i < NOFILE)%nat) as [-> Hi].
      { pose proof (f_equal (.!! length done) Hs) as Hs'. rewrite list_lookup_middle in Hs' by done.
        apply lookup_seq in Hs' as [-> ?]. split; lia. }
      destruct (lookup_lt_is_Some_2 (p_ofile c) (length done)) as [x Hx]; [lia|].
      destruct (lookup_lt_is_Some_2 (p_ofile q) (length done)) as [y Hy]; [lia|].
      eapply returns_bind_eq; [by apply at_slot_get_ne|]. rewrite Hx. apply returns_bind, returns_ret.
      rewrite length_app, Nat.add_1_r. unfold D. rewrite (dup_list_step _ _ _ _ _ Hx Hy) by lia.
      fold D. assert (omap id (take (S (length done)) (p_ofile c))
        = omap id (take (length done) (p_ofile c)) ++ match x with Some f => [f] | None => [] end) as HO
        by (rewrite (take_S_r _ _ _ Hx), omap_app; by destruct x).
      unfold dup_env in HE |- *. rewrite HO. destruct x as [f|].
      + destruct (Hdup f e') as [e'' He]. eapply returns_bind_eq; [unfold on_env; cbn; by rewrite He|].
        unfold returns. cbn [ps_k].
        change (mkpstate _ e'') with (at_slot k e'' np (set_p_ofile (take (length done) D ++ drop (length done) (p_ofile q)) q)).
        rewrite at_slot_upd by done. exists e''. split; [|done].
        eapply mfor_snoc; [exact HE|]. by rewrite (bind_ret _ _ _ _ _ He).
      + apply returns_ret. exists e'. rewrite app_nil_r. split; [done|].
        f_equal. f_equal. symmetry. apply list_insert_id.
        rewrite lookup_app_r by (rewrite length_take; lia).
        rewrite length_take, lookup_drop. rewrite <-Hy. f_equal. lia.
    - intros s' (e' & HE & ->). exists e'. rewrite length_seq, take_ge in HE by lia. split; [done|].
      f_equal. f_equal. rewrite length_seq. rewrite take_ge, drop_ge by lia. by rewrite app_nil_r. }
  apply returns_eq in H as ([] & s' & Hr & e' & HE & ->). by exists e'.
Qed.

(** The child that [fork] leaves in the slot that held [old]. *)
Definition fork_copy (cur : nat) (c : proc) (pg : Z) (q : proc) : proc :=
  set_p_tf (set_tf_eax 0 (p_tf c)) (set_p_parent (Some cur) (set_p_sz (p_sz c) (set_p_pgdir pg q))).
Definition fork_child_of (cur : nat) (c old : proc) (pid ks pg : Z) : proc :=
  set_p_state RUNNABLE (set_p_name (copy_name (p_name old) (p_name c)) (set_p_cwd (p_cwd c)
    (set_p_ofile (dup_list (p_ofile c) (p_ofile old)) (fork_copy cur c pg (newborn pid ks old))))).

(** The caller of [fork] and the slot it would get; references can be counted up and
    pages given back. *)
Record can_fork (s : pstate E) (cur : nat) (c : proc) : Prop := {
  cf_wf : mlfq_wf (ps_k s);
  cf_lock : ptable_lock (ps_k s) = false;
  cf_cpu : cpu_proc (ps_k s) = Some cur;
  cf_cur : ptable (ps_k s) !! cur = Some c;
  cf_state : p_state c ≠ UNUSED;
  cf_files : length (p_ofile c) = NOFILE;
  cf_cwd : p_cwd c ≠ None;
  cf_slot np old : list_find (λ p, p_state p = UNUSED) (ptable (ps_k s)) = Some (np, old) →
    (∀ l, ¬ queued (ps_k s) l np) ∧ length (p_ofile old) = NOFILE;
  cf_dup f (e : E) : ∃ e', e_filedup f e = Ret f e';
  cf_idup i (e : E) : ∃ e', e_idup i e = Ret i e';
  cf_kfree a (e : E) : ∃ e', e_kfree a e = Ret tt e'
}.

(** The references [fork] takes, from the state [e] of the environment. *)
Definition fork_dups (c : proc) (e e' : E) : Prop :=
  ∃ d e1, p_cwd c = Some d ∧ dup_env (p_ofile c) e = Ret tt e1 ∧ e_idup d e1 = Ret d e'.

Lemma fork_run s cur c np old ks pg e1 e2 :
  can_fork s cur c → list_find (λ p, p_state p = UNUSED) (ptable (ps_k s)) = Some (np, old) →
  e_kalloc (ps_env s) = Ret ks e1 → ks ≠ 0 → e_copyuvm (p_pgdir c) (p_sz c) e1 = Ret pg e2 → pg ≠ 0 →
  let child := fork_child_of cur c old (nextpid (ps_k s)) ks pg in
  ∃ Q e', fork s = Ret (nextpid (ps_k s)) (at_slot (set_MLFQ_queues Q (counted (ps_k s))) e' np child)
    ∧ fork_dups c e2 e'
    ∧ let k' := set_ptable (<[np := child]> (ptable (ps_k s))) (set_MLFQ_queues Q (counted (ps_k s))) in
      enqueued (ps_k s) k' np.
Proof.
  intros [Hwf Hl Hcpu Hcur Hst Hl1 Hcwd Hslot Hdup Hid _] Hf Hka Hks Hcu Hpg child.
  destruct (Hslot np old Hf) as [Hfree Hl2]. clear Hslot.
  destruct s as [k e]; cbn [ps_k ps_env] in *.
  destruct (allocproc_run k e np old ks e1 Hwf Hl Hf Hfree Hka Hks) as (Q & Ha & Hwf').
  pose proof Hf as (Hnp & Hun & _)%list_find_Some. pose proof (lookup_lt_Some _ _ _ Hnp) as Hlt.
  assert (cur ≠ np) as Hne by (intros ->; congruence).
  set (k1 := set_MLFQ_queues Q (counted k)). set (nb := newborn (nextpid k) ks old).
  set (cp := fork_copy cur c pg nb).
  destruct (dup_files_run k1 e2 np cp cur c Hne Hlt Hcur Hl1) as (e3 & HE & Hd); [done|done|].
  destruct (p_cwd c) as [d|] eqn:Ed; [|done]. destruct (Hid d e3) as [e4 He4].
  exists Q, e4. split; [|split; [by exists d, e3|]].
  - unfold fork. rewrite (bind_ret _ _ _ _ _ (myproc_run (mkpstate k e) cur Hcpu)).
    rewrite (bind_ret _ _ _ _ _ Ha). fold k1 nb.
    rewrite (bind_ret _ _ _ _ _ (at_slot_get_ne k1 e1 np cur nb c (not_eq_sym Hne) Hcur)).
    assert (on_env (e_copyuvm (p_pgdir c) (p_sz c)) (at_slot k1 e1 np nb) = Ret pg (at_slot k1 e2 np nb)) as Hcu'
      by (unfold on_env; cbn; by rewrite Hcu).
    rewrite (bind_ret _ _ _ _ _ Hcu'). rewrite (bind_ret _ _ _ _ _ (at_slot_upd k1 e2 np _ _ Hlt)).
    rewrite (proj2 (Z.eqb_neq pg 0) Hpg).
    do 4 rewrite (bind_ret _ _ _ _ _ (at_slot_upd k1 e2 np _ _ Hlt)). cbn beta.
    rewrite set_tf_twice. change (set_p_tf _ _) with cp. rewrite (bind_ret _ _ _ _ _ Hd).
    unfold dup_cwd. rewrite bind_assoc, (bind_ret _ _ _ _ _ (at_slot_get_ne k1 e3 np cur _ c (not_eq_sym Hne) Hcur)).
    rewrite Ed, bind_assoc. cbn [deref]. rewrite bind_mret, bind_assoc.
    assert (∀ q, on_env (e_idup d) (at_slot k1 e3 np q) = Ret d (at_slot k1 e4 np q)) as He4'
      by (intros q; unfold on_env; cbn; by rewrite He4).
    rewrite (bind_ret _ _ _ _ _ (He4' _)).
    do 2 rewrite (bind_ret _ _ _ _ _ (at_slot_upd k1 e4 np _ _ Hlt)).
    rewrite (bind_ret _ _ _ _ _ (at_slot_get k1 e4 np _ Hlt)).
    rewrite (bind_ret _ _ _ _ _ (at_slot_acquire k1 e4 np _ Hl)).
    rewrite (bind_ret _ _ _ _ _ (at_slot_upd (set_ptable_lock true k1) e4 np _ _ Hlt)).
    rewrite (bind_ret _ _ _ _ _ (at_slot_release k1 e4 np _ Hl)).
    unfold child, fork_child_of. rewrite Ed. reflexivity.
  - cbv zeta in Hwf' |- *. apply (enqueued_slot k k1 np nb child); [exact Hwf'|exact Hlt|exact eq_refl].
Qed.

(** *** The failures of fork *)
Lemma fork_no_slot s cur c :
  can_fork s cur c → list_find (λ p, p_state p = UNUSED) (ptable (ps_k s)) = None → fork s = Ret (-1) s.
Proof.
  intros Hc Hf. pose proof (cf_lock _ _ _ Hc) as Hl. unfold fork.
  rewrite (bind_ret _ _ _ _ _ (myproc_run s cur (cf_cpu _ _ _ Hc))).
  unfold allocproc, find_unused. rewrite !bind_assoc, (bind_ret _ _ _ _ _ (acquire_run s Hl)).
  rewrite !bind_assoc, (bind_ret _ _ _ _ _ (getk_run _)). cbn [with_lock ps_k ptable set_ptable_lock]. rewrite Hf.
  rewrite !bind_assoc, (bind_ret _ _ _ _ _ (release_run (with_lock true s) eq_refl)), !bind_mret.
  unfold mret, M_ret. f_equal. destruct s as [[] ?]; cbn in *. by subst.
Qed.

Lemma fork_no_stack s cur c np old e1 :
  can_fork s cur c → list_find (λ p, p_state p = UNUSED) (ptable (ps_k s)) = Some (np, old) →
  e_kalloc (ps_env s) = Ret 0 e1 →
  fork s = Ret (-1) (at_slot (counted (ps_k s)) e1 np (set_p_state UNUSED (embryo (nextpid (ps_k s)) 0 old))).
Proof.
  intros Hc Hf Hka. pose proof Hf as (Hnp & _ & _)%list_find_Some. pose proof (lookup_lt_Some _ _ _ Hnp) as Hlt.
  destruct s as [k e]; cbn [ps_k ps_env] in *. unfold fork.
  rewrite (bind_ret _ _ _ _ _ (myproc_run _ cur (cf_cpu _ _ _ Hc))). unfold allocproc.
  rewrite bind_assoc, (bind_ret _ _ _ _ _ (find_unused_run k e np old (cf_lock _ _ _ Hc) Hf)), bind_assoc.
  unfold alloc_kstack. rewrite bind_assoc.
  assert (∀ q, on_env e_kalloc (at_slot (counted k) e np q) = Ret 0 (at_slot (counted k) e1 np q)) as Hka'
    by (intros q; unfold on_env; cbn; by rewrite Hka).
  rewrite (bind_ret _ _ _ _ _ (Hka' _)), bind_assoc, (bind_ret _ _ _ _ _ (at_slot_upd (counted k) e1 np _ _ Hlt)).
  rewrite Z.eqb_refl, bind_assoc. by rewrite (bind_ret _ _ _ _ _ (at_slot_upd (counted k) e1 np _ _ Hlt)).
Qed.

(** The slot goes back to UNUSED, but stays in the queue. *)
Lemma fork_no_memory s cur c np old ks e1 e2 :
  can_fork s cur c → list_find (λ p, p_state p = UNUSED) (ptable (ps_k s)) = Some (np, old) →
  e_kalloc (ps_env s) = Ret ks e1 → ks ≠ 0 → e_copyuvm (p_pgdir c) (p_sz c) e1 = Ret 0 e2 →
  let left := set_p_state UNUSED (set_p_kstack 0 (set_p_pgdir 0 (newborn (nextpid (ps_k s)) ks old))) in
  ∃ Q e', fork s = Ret (-1) (at_slot (set_MLFQ_queues Q (counted (ps_k s))) e' np left)
    ∧ e_kfree ks e2 = Ret tt e'
    ∧ let k' := set_ptable (<[np := left]> (ptable (ps_k s))) (set_MLFQ_queues Q (counted (ps_k s))) in
      enqueued (ps_k s) k' np.
Proof.
  intros Hc Hf Hka Hks Hcu left. pose proof Hf as (Hnp & Hun & _)%list_find_Some.
  pose proof (lookup_lt_Some _ _ _ Hnp) as Hlt. pose proof (cf_cur _ _ _ Hc) as Hcur.
  assert (cur ≠ np) as Hne by (intros ->; pose proof (cf_state _ _ _ Hc); congruence).
  destruct (cf_slot _ _ _ Hc np old Hf) as [Hfree _]. destruct (cf_kfree _ _ _ Hc ks e2) as [e3 Hk].
  pose proof (cf_wf _ _ _ Hc) as Hwf. pose proof (cf_lock _ _ _ Hc) as Hl. pose proof (cf_cpu _ _ _ Hc) as Hcpu.
  destruct s as [k e]; cbn [ps_k ps_env] in *.
  destruct (allocproc_run k e np old ks e1 Hwf Hl Hf Hfree Hka Hks) as (Q & Ha & Hwf').
  set (k1 := set_MLFQ_queues Q (counted k)) in *. set (nb := newborn (nextpid k) ks old) in *.
  exists Q, e3. split; [|split; [done|]].
  - unfold fork. rewrite (bind_ret _ _ _ _ _ (myproc_run (mkpstate k e) cur Hcpu)), (bind_ret _ _ _ _ _ Ha).
    rewrite (bind_ret _ _ _ _ _ (at_slot_get_ne k1 e1 np cur nb c (not_eq_sym Hne) Hcur)).
    assert (on_env (e_copyuvm (p_pgdir c) (p_sz c)) (at_slot k1 e1 np nb) = Ret 0 (at_slot k1 e2 np nb)) as Hcu'
      by (unfold on_env; cbn; by rewrite Hcu).
    rewrite (bind_ret _ _ _ _ _ Hcu'), (bind_ret _ _ _ _ _ (at_slot_upd k1 e2 np _ _ Hlt)), Z.eqb_refl.
    rewrite (bind_ret _ _ _ _ _ (at_slot_get k1 e2 np _ Hlt)).
    assert (∀ q, on_env (e_kfree ks) (at_slot k1 e2 np q) = Ret tt (at_slot k1 e3 np q)) as Hk'
      by (intros q; unfold on_env; cbn; by rewrite Hk).
    change (p_kstack (set_p_pgdir 0 nb)) with ks. rewrite (bind_ret _ _ _ _ _ (Hk' _)).
    do 2 rewrite (bind_ret _ _ _ _ _ (at_slot_upd k1 e3 np _ _ Hlt)). reflexivity.
  - cbv zeta in Hwf' |- *. apply (enqueued_slot k k1 np nb left); [exact Hwf'|exact Hlt|exact eq_refl].
Qed.
End slots.
