(* ===== verification/ProcWait.v ===== *)
(** * wait, and what fork and wait do together

    The scan of [wait] as a search of the table, the release of a zombie and its
    threads, and the theorems about [fork], [wait] and [exit]. *)
From S2P Require Import Prelude Params ProcState Sched SchedInv SchedPick SchedShare SchedThms.
From S2P Require Import Proc ProcInv ProcThms ProcLife.

(** The children [wait] looks at, and the first one that has exited. *)
Definition waitable (cur : nat) (p : proc) : bool :=
  bool_decide (p_parent p = Some cur ∧ p_master p = None).
Definition exited_child (cur : nat) (p : proc) : Prop := waitable cur p = true ∧ p_state p = ZOMBIE.
#[export] Instance exited_child_dec cur p : Decision (exited_child cur p).
Proof. unfold exited_child. apply _. Defined.

Section wait.
Context {E : Type} `{!ProcEnv E}.
Implicit Types (s : pstate E).

Lemma wait_scan_run s cur n h :
  wait_scan cur (seq n (length (ptable (ps_k s)) - n)) h s =
  Ret (match list_find (exited_child cur) (drop n (ptable (ps_k s))) with
       | Some (j, _) => inl (n + j)%nat
       | None => inr (h || existsb (waitable cur) (drop n (ptable (ps_k s))))
       end) s.
Proof.
  remember (length (ptable (ps_k s)) - n)%nat as m eqn:Hm. revert n h Hm.
  induction m as [|m IH]; intros n h Hm; cbn [seq wait_scan].
  - rewrite drop_ge by lia. cbn. by rewrite orb_false_r.
  - destruct (lookup_lt_is_Some_2 (ptable (ps_k s)) n) as [p Hp]; [lia|].
    rewrite (bind_ret _ _ _ _ _ (getp_run _ _ _ Hp)), (drop_S _ _ _ Hp). cbn [list_find existsb].
    assert (waitable cur p = negb (bool_decide (p_parent p ≠ Some cur ∨ p_master p ≠ None))) as Hw.
    { unfold waitable.
      destruct (decide (p_parent p = Some cur)), (decide (p_master p = None));
        [rewrite (bool_decide_true (_ ∧ _)), (bool_decide_false (_ ∨ _)) by tauto; done
        |rewrite (bool_decide_false (_ ∧ _)), (bool_decide_true (_ ∨ _)) by tauto; done..]. }
    case_bool_decide as Hb; cbn in Hw.
    + rewrite decide_False by (unfold exited_child; rewrite Hw; naive_solver).
      rewrite Hw, orb_false_l, IH by lia.
      destruct (list_find _ (drop (S n) _)) as [[j q]|]; cbn; [|done]. do 2 f_equal. lia.
    + destruct (decide (p_state p = ZOMBIE)) as [Hz|Hz].
      * rewrite decide_True by done. cbn. unfold mret, M_ret. do 2 f_equal. lia.
      * rewrite decide_False by (unfold exited_child; naive_solver).
        rewrite Hw, IH by lia. cbn [orb]. rewrite orb_true_r.
        destruct (list_find _ (drop (S n) _)) as [[j q]|]; cbn; [|done]. do 2 f_equal. lia.
Qed.

(** *** Releasing a zombie *)
Definition cleared (q : proc) : proc :=
  set_p_killed 0 (set_p_state UNUSED (set_p_pid 0 (set_p_name (<[0%nat := 0]> (p_name q))
    (set_p_parent None (set_p_kstack 0 q))))).

Lemma reap_worker_run s p pr i t q :
  p ≠ t → ptable (ps_k s) !! p = Some pr → p_workerthread pr !! i = Some (Some t) →
  ptable (ps_k s) !! t = Some q → (∀ a (e : E), ∃ e', e_kfree a e = Ret tt e') →
  ∃ e', e_kfree (p_kstack q) (ps_env s) = Ret tt e' ∧ reap_worker p i s = Ret tt (mkpstate (set_ptable
    (<[p := set_p_workerthread (<[i := None]> (p_workerthread pr)) pr]> (<[t := cleared q]> (ptable (ps_k s)))) (ps_k s)) e').
Proof.
  intros Hne Hp Hw Ht Hk. destruct s as [k e]; cbn in *. destruct (Hk (p_kstack q) e) as [e' He].
  pose proof (lookup_lt_Some _ _ _ Ht) as Hlt. exists e'. split; [done|]. unfold reap_worker.
  rewrite (bind_ret _ _ _ _ _ (getp_run (mkpstate k e) p pr Hp)), Hw. cbn [deref]. rewrite bind_mret.
  rewrite (bind_ret _ _ _ _ _ (getp_run (mkpstate k e) t q Ht)).
  assert (on_env (e_kfree (p_kstack q)) (mkpstate k e) = Ret tt (mkpstate k e')) as He'
    by (unfold on_env; cbn; by rewrite He).
  rewrite (bind_ret _ _ _ _ _ He').
  rewrite (bind_ret _ _ _ _ _ (updp_run (mkpstate k e') t q _ Ht)).
  change (with_table _ _) with (at_slot k e' t (set_p_kstack 0 q)).
  do 5 rewrite (bind_ret _ _ _ _ _ (at_slot_upd k e' t _ _ Hlt)). cbn beta.
  erewrite updp_run by (cbn; by rewrite list_lookup_insert_ne). done.
Qed.

Lemma cleared_twice q : cleared (cleared q) = cleared q.
Proof. unfold cleared. cbn. by rewrite list_insert_insert_eq. Qed.

(** The table after the workers in [W] have been released by the master in slot [p]. *)
Definition released (tab T : list proc) (p : nat) (W : list (option nat)) : Prop :=
  length T = length tab ∧
  ∀ j, j ≠ p → T !! j = if decide (j ∈ members W) then cleared <$> tab !! j else tab !! j.

Lemma released_step tab T p W w q :
  released tab T p W → w ≠ p → tab !! w = Some q → 
  ∃ q', T !! w = Some q' ∧ ((w ∉ members W) → q' = q) ∧ ∀ pr, released tab (<[p := pr]> (<[w := cleared q']> T)) p (W ++ [Some w]).
Proof.
  intros [Hl Hr] Hne Hq. pose proof (lookup_lt_Some _ _ _ Hq).
  assert (members (W ++ [Some w]) = members W ++ [w]) as HW by (unfold members; by rewrite omap_app).
  pose proof (Hr w Hne) as Hw. rewrite Hq in Hw. cbn in Hw.
  set (q' := if decide (w ∈ members W) then cleared q else q).
  assert (T !! w = Some q') as Hw' by (rewrite Hw; unfold q'; by destruct (decide _)).
  assert (cleared q' = cleared q) as Hc by (unfold q'; destruct (decide _); [apply cleared_twice|done]).
  exists q'. split; [done|]. split; [intros Hni; unfold q'; by rewrite decide_False|].
  intros pr. split; [by rewrite !length_insert|].
  intros j Hj. rewrite list_lookup_insert_ne by done. rewrite HW.
  destruct (decide (j = w)) as [->|Hjw].
  - rewrite list_lookup_insert_eq by lia. rewrite decide_True by set_solver. by rewrite Hq, Hc.
  - rewrite list_lookup_insert_ne by done. rewrite Hr by done.
    destruct (decide (j ∈ members W)); [rewrite decide_True by set_solver|rewrite decide_False by set_solver]; done.
Qed.

(** The kernel stacks of the workers, in the order of the slots. *)
Definition worker_stacks (tab : list proc) (W : list (option nat)) : list Z :=
  omap (λ t, p_kstack <$> tab !! t) (members W).

Lemma worker_stacks_snoc tab W t q :
  tab !! t = Some q → worker_stacks tab (W ++ [Some t]) = worker_stacks tab W ++ [p_kstack q].
Proof. intros Ht. unfold worker_stacks, members. rewrite !omap_app. cbn. by rewrite Ht. Qed.

Lemma members_fresh (W : list (option nat)) (n t : nat) :
  NoDup (members W) → W !! n = Some (Some t) → t ∉ members (take n W).
Proof.
  intros Hnd Hn. rewrite <-(take_drop_middle _ _ _ Hn) in Hnd. unfold members in *. rewrite omap_app in Hnd.
  apply NoDup_app in Hnd as (_ & Hd & _). intros Ht. apply (Hd t Ht). cbn. by left.
Qed.

Lemma reap_workers_run s p pr :
  ptable (ps_k s) !! p = Some pr → length (p_workerthread pr) = NTHRE → NoDup (members (p_workerthread pr)) →
  (∀ t, t ∈ members (p_workerthread pr) → t ≠ p ∧ (t < length (ptable (ps_k s)))%nat) →
  (∀ a (e : E), ∃ e', e_kfree a e = Ret tt e') →
  returns (mfor (seq 0 NTHRE) (reap_worker p)) s (λ _ s', ∃ T e',
    s' = mkpstate (set_ptable T (ps_k s)) e'
    ∧ mfor (worker_stacks (ptable (ps_k s)) (p_workerthread pr)) e_kfree (ps_env s) = Ret tt e'
    ∧ T !! p = Some (set_p_workerthread (replicate NTHRE None) pr)
    ∧ released (ptable (ps_k s)) T p (p_workerthread pr)).
Proof.
  intros Hp Hl Hnd Hw Hk. set (W := p_workerthread pr).
  apply (returns_mfor _ _ (λ done s', ∃ T e', s' = mkpstate (set_ptable T (ps_k s)) e'
    ∧ mfor (worker_stacks (ptable (ps_k s)) (take (length done) W)) e_kfree (ps_env s) = Ret tt e'
    ∧ T !! p = Some (set_p_workerthread (replicate (length done) None ++ drop (length done) W) pr)
    ∧ released (ptable (ps_k s)) T p (take (length done) W))).
  - exists (ptable (ps_k s)), (ps_env s). split_and!; [by destruct s as [[] ?]|done| |].
    + rewrite Hp. f_equal. cbn. rewrite drop_0. by destruct pr.
    + split; [done|]. intros j _. by rewrite decide_False by (cbn; set_solver).
  - intros done i rest s' Hs (T & e' & -> & HE & HT & Hrel).
    assert (i = length done ∧ (i < NTHRE)%nat) as [-> Hi].
    { pose proof (f_equal (.!! length done) Hs) as Hs'. rewrite list_lookup_middle in Hs' by done.
      apply lookup_seq in Hs' as [-> ?]. split; lia. }
    rewrite length_app, Nat.add_1_r. set (n := length done) in *.
    destruct (lookup_lt_is_Some_2 W n) as [w Hwn]; [unfold W; lia|].
    rewrite (take_S_r _ _ _ Hwn). rewrite (drop_S _ _ _ Hwn) in HT.
    assert ((replicate n None ++ w :: drop (S n) W) !! n = Some w) as Hn
      by (rewrite lookup_app_r; rewrite length_replicate; [by rewrite Nat.sub_diag|lia]).
    assert (<[n := None]> (replicate n None ++ w :: drop (S n) W) = replicate (S n) None ++ drop (S n) W) as HnN.
    { rewrite insert_app_r_alt by (rewrite length_replicate; lia).
      rewrite length_replicate, Nat.sub_diag, replicate_S_end, <-app_assoc. done. }
    destruct w as [t|].
    + destruct (Hw t) as [Hne Htl]; [apply elem_of_members; by exists n|].
      destruct (lookup_lt_is_Some_2 _ _ Htl) as [q Hq].
      destruct (released_step _ _ _ _ _ _ Hrel Hne Hq) as (q' & Hq' & Hsame & Hrel').
      rewrite (Hsame (members_fresh W n t Hnd Hwn)) in *. clear q' Hsame.
      destruct (reap_worker_run (mkpstate (set_ptable T (ps_k s)) e') p _ n t q (not_eq_sym Hne) HT Hn Hq' Hk)
        as (e'' & He'' & Hr).
      unfold returns. rewrite Hr. cbn [ps_k ps_env p_workerthread set_p_workerthread]. rewrite HnN.
      eexists _, e''. split_and!; [reflexivity| | |apply Hrel'].
      { rewrite (worker_stacks_snoc _ _ _ _ Hq). by eapply mfor_snoc. }
      cbn. rewrite list_lookup_insert_eq; [done|]. rewrite length_insert. by eapply lookup_lt_Some.
    + unfold reap_worker. eapply returns_bind_eq; [by apply getp_run|].
      cbn [p_workerthread set_p_workerthread]. rewrite Hn. apply returns_bind, returns_ret, returns_ret.
      exists T, e'. split_and!; [done| | |].
      * unfold worker_stacks, members. rewrite omap_app. cbn. by rewrite app_nil_r.
      * rewrite HT, <-HnN, list_insert_id by done. done.
      * destruct Hrel as [? Hrel]. split; [done|]. intros j Hj. rewrite Hrel by done.
        unfold members. rewrite omap_app. cbn. by rewrite app_nil_r.
  - intros s' (T & e' & -> & HE & HT & Hrel). rewrite length_seq in *. exists T, e'. split; [done|].
    rewrite drop_ge, app_nil_r in HT by (unfold W; lia). rewrite take_ge in Hrel, HE by (unfold W; lia). done.
Qed.

(** The child's own slot. *)
Definition freed_child (pr : proc) : proc :=
  set_p_state UNUSED (set_p_killed 0 (set_p_name (<[0%nat := 0]> (p_name pr)) (set_p_parent None
    (set_p_pid 0 (set_p_kstack 0 (set_p_workerthread (replicate NTHRE None) pr)))))).

(** What [wait] gives back for the child [pr]: the stacks of its workers, its own, and
    its memory. *)
Definition reap_frees (tab : list proc) (pr : proc) (e e' : E) : Prop :=
  ∃ e1 e2, mfor (worker_stacks tab (p_workerthread pr)) e_kfree e = Ret tt e1
    ∧ e_kfree (p_kstack pr) e1 = Ret tt e2 ∧ e_freevm (p_pgdir pr) e2 = Ret tt e'.

Lemma reap_run s p pr :
  ptable (ps_k s) !! p = Some pr → length (p_workerthread pr) = NTHRE → NoDup (members (p_workerthread pr)) →
  (∀ t, t ∈ members (p_workerthread pr) → t ≠ p ∧ (t < length (ptable (ps_k s)))%nat) →
  (∀ a (e : E), ∃ e', e_kfree a e = Ret tt e') → (∀ a (e : E), ∃ e', e_freevm a e = Ret tt e') →
  returns (reap p) s (λ pid s', pid = p_pid pr ∧ ∃ T e',
    s' = mkpstate (set_ptable T (ps_k s)) e' ∧ reap_frees (ptable (ps_k s)) pr (ps_env s) e'
    ∧ T !! p = Some (freed_child pr)
    ∧ released (ptable (ps_k s)) T p (p_workerthread pr)).
Proof.
  intros Hp Hl Hnd Hw Hk Hf. unfold reap. apply returns_bind.
  eapply returns_mono; [by apply reap_workers_run|]. intros [] s1 (T & e1 & -> & HE & HT & Hrel).
  pose proof (lookup_lt_Some _ _ _ HT) as Hlt.
  set (pr' := set_p_workerthread _ pr) in *. set (k := set_ptable T (ps_k s)).
  destruct (Hk (p_kstack pr') e1) as [e2 H2]. destruct (Hf (p_pgdir pr') e2) as [e3 H3].
  eapply returns_bind_eq; [by apply getp_run|].
  eapply (returns_bind_eq _ _ _ tt (mkpstate k e2)); [unfold on_env; cbn [ps_env ps_k]; by rewrite H2|].
  eapply returns_bind_eq; [apply (updp_run (mkpstate k e2)); exact HT|].
  eapply (returns_bind_eq _ _ _ tt (at_slot k e3 p (set_p_kstack 0 pr'))).
  { unfold on_env, with_table. cbn [ps_env ps_k]. by rewrite H3. }
  do 5 (eapply returns_bind_eq; [by apply at_slot_upd|]). apply returns_ret. split; [done|].
  exists (<[p := freed_child pr]> T), e3. split; [reflexivity|]. split; [by exists e1, e2|]. split.
  - apply list_lookup_insert_eq. exact Hlt.
  - destruct Hrel as [? Hrel]. split; [by rewrite length_insert|]. intros j Hj.
    rewrite list_lookup_insert_ne by done. by apply Hrel.
Qed.

(** The caller of [wait]. *)
Record can_wait (s : pstate E) (cur : nat) (c : proc) : Prop := {
  cw_ok : table_ok (ps_k s);
  cw_lock : ptable_lock (ps_k s) = false ∧ FQ_ticklock (ps_k s) = false ∧ threadlock (ps_k s) = false;
  cw_cpu : cpu_proc (ps_k s) = Some cur;
  cw_cur : ptable (ps_k s) !! cur = Some c
}.

Lemma wait_scanned s cur c : can_wait s cur c →
  wait s = (match list_find (exited_child cur) (ptable (ps_k s)) with
            | Some (j, _) => pid ← reap j; release_ptable;; mret pid
            | None =>
                if negb (existsb (waitable cur) (ptable (ps_k s))) || negb (p_killed c =? 0)
                then release_ptable;; mret (-1)
                else sleep_begin (Some (ChProc cur)) None;; go_to_sleep (ChProc cur)
            end) (with_lock true s).
Proof.
  intros [Hok (Hl & _) Hcpu Hcur]. unfold wait.
  rewrite (bind_ret _ _ _ _ _ (myproc_run _ _ Hcpu)), (bind_ret _ _ _ _ _ (acquire_run _ Hl)).
  pose proof (wait_scan_run (with_lock true s) cur 0 false) as Hs. rewrite Nat.sub_0_r, drop_0 in Hs.
  cbn [with_lock ps_k ptable set_ptable_lock] in Hs. rewrite (tab_procs _ Hok) in Hs.
  rewrite (bind_ret _ _ _ _ _ Hs). destruct (list_find _ _) as [[j q]|]; [done|].
  assert (getp cur (with_lock true s) = Ret c (with_lock true s)) as Hg by (by apply getp_run).
  by rewrite (bind_ret _ _ _ _ _ Hg).
Qed.

(** C22: what [wait] does, on every branch.  If some child has exited, it frees the
    first one in table order: it gives back the kernel stacks of the child's threads and
    of the child and then the child's memory, and calls nothing else of memory; it
    returns the child's process id, the slot is UNUSED with id 0, no parent and no
    workers, the slots of the child's threads are UNUSED too, and no other slot, queue
    or lock changes.  If no child has exited, it returns -1 when there
    is no child or the caller is killed, with the table unchanged, and otherwise
    leaves the caller SLEEPING on itself, the channel [exit] wakes.  A child is a
    process whose parent is the caller and whose [master] is null. *)
Theorem wait_reaps s cur c :
  can_wait s cur c →
  (∀ i pr, ptable (ps_k s) !! i = Some pr →
     NoDup (members (p_workerthread pr)) ∧ i ∉ members (p_workerthread pr)) →
  (∀ a (e : E), ∃ e', e_kfree a e = Ret tt e') → (∀ a (e : E), ∃ e', e_freevm a e = Ret tt e') →
  match list_find (exited_child cur) (ptable (ps_k s)) with
  | Some (i, pr) => returns wait s (λ pid s', pid = p_pid pr ∧ ∃ T e',
      s' = mkpstate (set_ptable T (ps_k s)) e'
      ∧ reap_frees (ptable (ps_k s)) pr (ps_env s) e' ∧ T !! i = Some (freed_child pr)
      ∧ released (ptable (ps_k s)) T i (p_workerthread pr))
  | None =>
      if existsb (waitable cur) (ptable (ps_k s)) && (p_killed c =? 0)
      then wait s = Asleep (ChProc cur) (with_lock true
             (with_table (<[cur := sleeper (ChProc cur) c]> (ptable (ps_k s))) s))
      else wait s = Ret (-1) s
  end.
Proof.
  intros Hc Hself Hk Hf. pose proof Hc as [Hok (Hl & HF & HT) Hcpu Hcur].
  pose proof (wait_scanned s cur c Hc) as Hw. 
  destruct (list_find _ _) as [[i pr]|] eqn:Hfind.
  - apply list_find_Some in Hfind as (Hi & _ & _). unfold returns. rewrite Hw.
    fold (returns (pid ← reap i; release_ptable;; mret pid) (with_lock true s)
      (λ pid s', pid = p_pid pr ∧ ∃ T e', s' = mkpstate (set_ptable T (ps_k s)) e'
        ∧ reap_frees (ptable (ps_k s)) pr (ps_env s) e' ∧ T !! i = Some (freed_child pr) ∧ released (ptable (ps_k s)) T i (p_workerthread pr))).
    apply returns_bind. eapply returns_mono.
    + apply (reap_run (with_lock true s) i pr); try done.
      * by apply (tab_proc _ Hok _ _ Hi).
      * by apply (Hself i).
      * intros t Ht. split; [intros ->; by apply (Hself i pr Hi)|]. cbn. rewrite (tab_procs _ Hok).
        apply elem_of_members in Ht as [n Hn]. by eapply (ok_worker _ (tab_proc _ Hok _ _ Hi)).
    + intros pid s' (-> & T & e' & -> & HE & H1 & H2).
      eapply returns_bind_eq; [by apply release_run|]. apply returns_ret. split; [done|].
      exists T, e'. split_and!; [|done|done|done..]. destruct s as [[] ?]; cbn in *. by subst.
  - rewrite Hw. destruct (existsb _ _); destruct (p_killed c =? 0); cbn [negb orb andb].
    1: { unfold sleep_begin. rewrite bind_assoc.
      assert (on_k (gets cpu_proc) (with_lock true s) = Ret (Some cur) (with_lock true s)) as Hg
        by (unfold on_k, gets; cbn; rewrite Hcpu; done).
      rewrite (bind_ret _ _ _ _ _ Hg), bind_assoc, bind_mret, bind_assoc.
      pose proof (lookup_lt_Some _ _ _ Hcur) as Hlt. destruct s as [k e]; cbn [ps_k ps_env] in *.
      change (with_lock true (mkpstate k e)) with (mkpstate (set_ptable_lock true k) e).
      rewrite (bind_ret _ _ _ _ _ (updp_run (mkpstate (set_ptable_lock true k) e) cur c _ Hcur)).
      change (with_table _ _) with (at_slot (set_ptable_lock true k) e cur (set_p_chan (Some (ChProc cur)) c)) at 1.
      rewrite bind_assoc, (bind_ret _ _ _ _ _ (at_slot_upd (set_ptable_lock true k) e cur _ _ Hlt)).
      erewrite bind_ret; [reflexivity|].
      apply (sched_run _ cur (sleeper (ChProc cur) c)); try done. cbn. by apply list_lookup_insert_eq. }
    all: rewrite (bind_ret _ _ _ _ _ (release_run (with_lock true s) eq_refl)); unfold mret, M_ret; f_equal;
      destruct s as [[] ?]; cbn in *; by subst.
Qed.
End wait.

Section fork_thms.
Context {E : Type} `{!ProcEnv E}.
Implicit Types (s : pstate E).

Lemma dup_list_lookup (a b : list (option nat)) (fd : nat) :
  length a = length b → dup_list a b !! fd = match a !! fd with Some None => b !! fd | r => r end.
Proof.
  intros Hl. unfold dup_list. rewrite lookup_zip_with. destruct (a !! fd) as [x|] eqn:Ha; [|done].
  pose proof (lookup_lt_Some _ _ _ Ha) as Hlt. rewrite Hl in Hlt.
  destruct (lookup_lt_is_Some_2 _ _ Hlt) as [y ->]. by destruct x.
Qed.

Lemma copied_name (t q : list Z) : cstring (copy_name t q) = take (length t - 1) (cstring q).
Proof.
  assert (∀ n r, cstring ((take n (cstring q ++ [0]) ++ [0]) ++ r) = take n (cstring q)) as H; [|apply H].
  induction q as [|c q IH]; intros [|n] r; cbn; try done; destruct (Z.eqb_spec c 0) as [->|Hc]; cbn; try done.
  rewrite (proj2 (Z.eqb_neq c 0) Hc). f_equal. apply IH.
Qed.

(** C21: what [fork] does, on every branch.  Without an UNUSED slot it returns -1 and
    changes nothing.  Without a page for the stack, or without memory for the copy of
    the address space, it returns -1 with the stack given back and the slot UNUSED
    again; only the process id has been used up and, in the second case, the slot is
    left in the queue of level 0.  Otherwise it returns the next process id and fills
    the first UNUSED slot, and only it: the child has that id, the caller as its parent,
    the new page table and stack, the caller's size, directory, name and open files
    (where the caller has none, what the slot held), the caller's trap frame with 0 in
    %eax (its result of the call), is RUNNABLE and waits in the queue of level 0; one
    reference is taken for each open file and one for the directory, and nothing else
    happens to files and memory; no other process enters or leaves a queue, the queues
    keep their invariant and the lock is free. *)
Theorem fork_child s cur c :
  can_fork s cur c →
  let k := ps_k s in
  match list_find (λ p, p_state p = UNUSED) (ptable k) with
  | None => fork s = Ret (-1) s
  | Some (np, old) => ∀ ks e1, e_kalloc (ps_env s) = Ret ks e1 →
      if ks =? 0 then
        fork s = Ret (-1) (at_slot (counted k) e1 np (set_p_state UNUSED (embryo (nextpid k) 0 old)))
      else ∀ pg e2, e_copyuvm (p_pgdir c) (p_sz c) e1 = Ret pg e2 →
      if pg =? 0 then ∃ Q e',
        let left := set_p_state UNUSED (set_p_kstack 0 (set_p_pgdir 0 (newborn (nextpid k) ks old))) in
        let k' := set_ptable (<[np := left]> (ptable k)) (set_MLFQ_queues Q (counted k)) in
        fork s = Ret (-1) (mkpstate k' e') ∧ e_kfree ks e2 = Ret tt e' ∧ enqueued k k' np
      else ∃ Q ch e', let k' := set_ptable (<[np := ch]> (ptable k)) (set_MLFQ_queues Q (counted k)) in
        fork s = Ret (nextpid k) (mkpstate k' e') ∧ fork_dups c e2 e'
        ∧ p_state ch = RUNNABLE ∧ p_pid ch = nextpid k ∧ p_parent ch = Some cur
        ∧ p_sz ch = p_sz c ∧ p_pgdir ch = pg ∧ p_kstack ch = ks ∧ p_cwd ch = p_cwd c
        ∧ p_tf ch = set_tf_eax 0 (p_tf c)
        ∧ cstring (p_name ch) = take (length (p_name old) - 1) (cstring (p_name c))
        ∧ (∀ fd : nat, p_ofile ch !! fd
             = match p_ofile c !! fd with Some None => p_ofile old !! fd | r => r end)
        ∧ enqueued k k' np ∧ ptable_lock k' = false
  end.
Proof.
  intros Hc k. destruct (list_find _ _) as [[np old]|] eqn:Hf; [|by eapply fork_no_slot].
  destruct (cf_slot _ _ _ Hc np old Hf) as [_ Hlo]. pose proof (cf_files _ _ _ Hc) as Hlc.
  intros ks e1 Hka. destruct (Z.eqb_spec ks 0) as [->|Hks]; [by eapply fork_no_stack|].
  intros pg e2 Hcu. destruct (Z.eqb_spec pg 0) as [->|Hpg].
  - destruct (fork_no_memory s cur c np old ks e1 e2 Hc Hf Hka Hks Hcu) as (Q & e' & F & Hk & Hq).
    exists Q, e'. split; [exact F|]. split; [exact Hk|exact Hq].
  - destruct (fork_run s cur c np old ks pg e1 e2 Hc Hf Hka Hks Hcu Hpg) as (Q & e' & F & HE & Hin).
    exists Q, (fork_child_of cur c old (nextpid k) ks pg), e'. split; [exact F|]. split; [exact HE|].
    split_and!; try reflexivity; [apply copied_name| |exact Hin|exact (cf_lock _ _ _ Hc)].
    intros fd. apply dup_list_lookup. congruence.
Qed.

(** a child that [fork] puts into a slot a thread has used is never seen by
    [wait].  [allocproc] leaves the [master] of the slot as it finds it, and neither
    [thread_join] nor [wait] resets it; [wait] skips processes with a master.  So a
    process without other children gets -1 from [wait] right after [fork] has given it
    a child, and the child, once it has exited, is never freed. *)
Theorem wait_misses_child s cur np c old ks pg e1 e2 m :
  can_fork s cur c → list_find (λ p, p_state p = UNUSED) (ptable (ps_k s)) = Some (np, old) →
  e_kalloc (ps_env s) = Ret ks e1 → ks ≠ 0 → e_copyuvm (p_pgdir c) (p_sz c) e1 = Ret pg e2 → pg ≠ 0 →
  table_ok (ps_k s) → nextpid (ps_k s) < 2 ^ 31 - 1 →
  FQ_ticklock (ps_k s) = false → threadlock (ps_k s) = false →
  p_master old = Some m → existsb (waitable cur) (ptable (ps_k s)) = false →
  ∃ s', fork s = Ret (nextpid (ps_k s)) s' ∧ wait s' = Ret (-1) s'.
Proof.
  intros Hc Hfind Hka Hks Hcu Hpg Hok Hr HF HT Hm Hno.
  destruct (fork_run s cur c np old ks pg e1 e2 Hc Hfind Hka Hks Hcu Hpg) as (Q & e' & Hf & _). set (s' := at_slot _ _ _ _) in *.
  exists s'. split; [done|].
  pose proof (fork_spec s Hok Hr) as Hok'. rewrite Hf in Hok'. destruct Hok' as [Hok' _].
  pose proof Hc as [Hwf Hl Hcpu Hcur Hst _ _ _ _ _ _].
  pose proof Hfind as (Hnp & Hun & _)%list_find_Some.
  assert (cur ≠ np) as Hne by (intros ->; congruence).
  assert (can_wait s' cur c) as Hcw.
  { constructor; [exact Hok'|split_and!; [exact Hl|exact HF|exact HT]|exact Hcpu|].
    unfold s'. cbn. by rewrite list_lookup_insert_ne. }
  pose proof (wait_scanned s' cur c Hcw) as Hw.
  assert (∀ i p, ptable (ps_k s') !! i = Some p → waitable cur p = false) as Hnone.
  { intros i p [(<- & <- & _)|[_ Hi]]%list_lookup_insert_Some.
    - unfold waitable. apply bool_decide_eq_false. intros [_ K]. cbn in K. congruence.
    - destruct (waitable cur p) eqn:Hwp; [|done]. rewrite <-Hno. symmetry.
      apply existsb_exists. exists p. split; [|done]. apply list_elem_of_In. by eapply list_elem_of_lookup_2. }
  destruct (list_find (exited_child cur) (ptable (ps_k s'))) as [[j q]|] eqn:Hz.
  { apply list_find_Some in Hz as (Hj & [Hwj _] & _). by rewrite (Hnone _ _ Hj) in Hwj. }
  assert (existsb (waitable cur) (ptable (ps_k s')) = false) as Hex.
  { apply Bool.not_true_iff_false. intros (p & Hp & Hwp)%existsb_exists.
    apply list_elem_of_In, list_elem_of_lookup in Hp as [i Hi]. by rewrite (Hnone _ _ Hi) in Hwp. }
  rewrite Hex in Hw. cbn [negb orb] in Hw. rewrite Hw.
  rewrite (bind_ret _ _ _ _ _ (release_run (with_lock true s') eq_refl)). unfold mret, M_ret. f_equal.
  assert (∀ s1 : pstate E, ptable_lock (ps_k s1) = false → with_lock false (with_lock true s1) = s1) as Hlk.
  { intros [[] ?] H; cbn in *. by subst. }
  by apply Hlk.
Qed.
End fork_thms.

Section exit_thms.
Context {E : Type} `{!ProcEnv E}.
Implicit Types (s : pstate E).

Lemma close_files_none s t q :
  ptable (ps_k s) !! t = Some q → p_ofile q = replicate NOFILE None → close_files t s = Ret tt s.
Proof.
  intros Ht Hq. unfold close_files.
  assert (∀ l, Forall (λ i, (i < NOFILE)%nat) l → mfor l (λ fd,
    pr ← getp t; f ← deref (p_ofile pr !! fd);
    match f with
    | None => mret tt
    | Some f => on_env (e_fileclose f);; updp t (λ t, set_p_ofile (<[fd := None]> (p_ofile t)) t)
    end) s = Ret tt s) as H.
  { induction 1 as [|i l Hi _ IH]; cbn [mfor]; [done|]. rewrite bind_assoc.
    rewrite (bind_ret _ _ _ _ _ (getp_run _ _ _ Ht)), bind_assoc, Hq, lookup_replicate_2 by done.
    cbn [deref]. by rewrite bind_mret. }
  apply H. apply Forall_forall. intros i Hi. apply elem_of_seq in Hi. lia.
Qed.

(** [exit] of a process with a thread that has exited and was not joined is a
    fault.  [thread_exit] leaves the thread's slot in the workers of its master and its
    directory null; the loop of [exit] over the workers passes that null pointer to
    [iput]. *)
Theorem exit_unjoined_faults s cur c i t q :
  cpu_proc (ps_k s) = Some cur → ptable (ps_k s) !! cur = Some c → p_master c = None →
  initproc (ps_k s) ≠ Some cur → initproc (ps_k s) ≠ Some t →
  length (p_workerthread c) = NTHRE →
  list_find (λ w, w ≠ None) (p_workerthread c) = Some (i, Some t) →
  ptable (ps_k s) !! t = Some q → p_ofile q = replicate NOFILE None → p_cwd q = None →
  (∀ e : E, ∃ e', e_begin_op e = Ret tt e') →
  exit s = Fault.
Proof.
  intros Hcpu Hcur Hm Hi1 Hi2 Hl Hf Ht Hq1 Hq2 Hb. unfold exit.
  rewrite (bind_ret _ _ _ _ _ (myproc_run _ _ Hcpu)), (bind_ret _ _ _ _ _ (getp_run _ _ _ Hcur)), Hm.
  cbn [default]. rewrite (bind_ret _ _ _ _ _ (getk_run _)), decide_False by congruence.
  apply bind_fault. unfold exit_close. apply bind_fault.
  apply list_find_Some in Hf as (Hi & _ & Hbef). pose proof (lookup_lt_Some _ _ _ Hi).
  apply (mfor_fault _ _ _ i i).
  - apply lookup_seq. split; lia.
  - intros m y Hm' Hy. apply lookup_seq in Hy as [-> ?].
    rewrite (bind_ret _ _ _ _ _ (getp_run _ _ _ Hcur)). cbn [Nat.add].
    destruct (lookup_lt_is_Some_2 (p_workerthread c) m) as [w Hw]; [lia|]. rewrite Hw. cbn [deref]. rewrite bind_mret.
    destruct w as [w|]; [|done]. exfalso. apply (Hbef _ _ Hw); [lia|done].
  - rewrite (bind_ret _ _ _ _ _ (getp_run _ _ _ Hcur)), Hi. cbn [deref]. rewrite bind_mret.
    rewrite (bind_ret _ _ _ _ _ (getk_run _)), decide_False by congruence.
    rewrite (bind_ret _ _ _ _ _ (close_files_none _ _ _ Ht Hq1)). unfold drop_cwd.
    destruct (Hb (ps_env s)) as [e' He]. destruct s as [k e]; cbn [ps_k ps_env] in *.
    erewrite bind_ret by (unfold on_env; cbn; by rewrite He).
    rewrite (bind_ret _ _ _ _ _ (getp_run (mkpstate k e') t q Ht)). by rewrite Hq2.
Qed.
End exit_thms.

(** ** Runs of the small kernel *)
Definition slot (s : pstate Z) (i : nat) : proc := nth i (ptable (ps_k s)) blank_proc.

Definition after_exit : pstate Z := run_ops child_exits (first_state first_proc).

Lemma after_exit_can_wait : can_wait after_exit 0 (slot after_exit 0).
Proof.
  constructor.
  - apply run_ops_ok, first_state_ok.
  - vm_compute. done.
  - vm_compute. done.
  - vm_compute. done.
Qed.

Lemma after_exit_workers : Forall (λ p, members (p_workerthread p) = []) (ptable (ps_k after_exit)).
Proof. vm_compute. repeat constructor. Qed.

(** The child, with id 2, has exited: [wait] returns its id. *)
Lemma wait_reaps_witness : returns wait after_exit (λ pid _, pid = 2).
Proof.
  pose proof (wait_reaps after_exit 0 (slot after_exit 0) after_exit_can_wait) as H.
  assert (list_find (exited_child 0) (ptable (ps_k after_exit)) = Some (1%nat, slot after_exit 1)) as Hf
    by (vm_compute; reflexivity).
  rewrite Hf in H.
  assert (p_pid (slot after_exit 1) = 2) as Hp by (vm_compute; reflexivity).
  eapply returns_mono; [apply H|].
  - intros i pr Hi. pose proof (Forall_lookup_1 _ _ _ _ after_exit_workers Hi) as Hm.
    cbn beta in Hm. rewrite Hm. split; [apply NoDup_nil_2|apply not_elem_of_nil].
  - intros a e. exists e. reflexivity.
  - intros a e. exists e. reflexivity.
  - intros pid s' [-> _]. exact Hp.
Defined.

Lemma first_find_unused old :
  p_state old = UNUSED →
  list_find (λ p, p_state p = UNUSED) (<[1%nat := old]> (ptable (first_kstate first_proc))) = Some (1%nat, old).
Proof.
  intros Hst. change (<[1%nat := old]> (ptable (first_kstate first_proc))) with (first_proc :: old :: replicate 62 blank_proc).
  cbn [list_find]. rewrite decide_False by discriminate. by rewrite decide_True.
Qed.

Lemma first_can_fork old m :
  p_state old = UNUSED → p_ofile old = replicate NOFILE None → p_master old = m → p_level old = 0 →
  let s := mkpstate (set_ptable (<[1%nat := old]> (ptable (first_kstate first_proc))) (first_kstate first_proc)) 10 in
  can_fork s 0 first_proc.
Proof.
  intros Hst Hof Hm Hlev s. constructor.
  - pose proof (kstate_with_wf first_proc 0 ltac:(unfold NQUEUE; lia) eq_refl) as Hwf.
    pose proof (mlfq_wf_proc _ 1 blank_proc old Hwf eq_refl Hlev) as [].
    constructor; assumption.
  - reflexivity.
  - reflexivity.
  - reflexivity.
  - discriminate.
  - reflexivity.
  - discriminate.
  - intros np old' Hf. change (ptable (ps_k s)) with (<[1%nat := old]> (ptable (first_kstate first_proc))) in Hf.
    rewrite (first_find_unused old Hst) in Hf. injection Hf as <- <-. split; [|by rewrite Hof].
    intros l. unfold s. cbn [ps_k]. rewrite queued_table. intros Hq. unfold queued, queue_of in Hq.
    do 3 (destruct l as [|l]; [vm_compute in Hq; set_solver|]). vm_compute in Hq. set_solver.
  - intros f e. by exists e.
  - intros i e. by exists e.
  - intros a e. by exists e.
Qed.

Lemma fork_child_witness :
  ∃ s' ch, fork (first_state first_proc) = Ret 2 s'
    ∧ ptable (ps_k s') = <[1%nat := ch]> (ptable (first_kstate first_proc))
    ∧ p_state ch = RUNNABLE ∧ p_parent ch = Some 0%nat ∧ tf_eax (p_tf ch) = 0.
Proof.
  pose proof (fork_child (first_state first_proc) 0 first_proc
    (first_can_fork blank_proc None eq_refl eq_refl eq_refl eq_refl)) as H. cbv zeta in H.
  pose proof (first_find_unused blank_proc eq_refl) as Hf.
  change (<[1%nat := blank_proc]> (ptable (first_kstate first_proc))) with (ptable (ps_k (first_state first_proc))) in Hf.
  rewrite Hf in H. specialize (H (KERNBASE + 10 * PGSIZE) 11 eq_refl).
  change (KERNBASE + 10 * PGSIZE =? 0) with false in H. specialize (H (KERNBASE + 11 * PGSIZE) 12 eq_refl).
  change (KERNBASE + 11 * PGSIZE =? 0) with false in H.
  destruct H as (Q & ch & e' & F & _ & H1 & _ & H2 & _ & _ & _ & _ & H3 & _).
  eexists _, ch. split; [exact F|]. split; [reflexivity|]. split; [exact H1|]. split; [exact H2|].
  rewrite H3. reflexivity.
Defined.

(** Slot 1 was a thread of slot 0 that has been joined: only its [master] is left. *)
Definition joined_slot : proc := set_p_master (Some 0%nat) blank_proc.
Definition after_join : pstate Z :=
  mkpstate (set_ptable (<[1%nat := joined_slot]> (ptable (first_kstate first_proc))) (first_kstate first_proc)) 10.

Lemma wait_misses_child_witness :
  ∃ s', fork after_join = Ret 2 s' ∧ wait s' = Ret (-1) s'.
Proof.
  apply (wait_misses_child after_join 0 1 first_proc joined_slot
    (KERNBASE + 10 * PGSIZE) (KERNBASE + 11 * PGSIZE) 11 12 0).
  - exact (first_can_fork joined_slot (Some 0%nat) eq_refl eq_refl eq_refl eq_refl).
  - exact (first_find_unused joined_slot eq_refl).
  - reflexivity.
  - discriminate.
  - reflexivity.
  - discriminate.
  - apply (table_set_proc _ 1 blank_proc); [exact first_state_ok|reflexivity| |left; reflexivity].
    pose proof blank_ok as []. constructor; assumption.
  - reflexivity.
  - reflexivity.
  - reflexivity.
  - reflexivity.
  - vm_compute. reflexivity.
Defined.

Definition after_thread_exit : pstate Z := run_ops thread_left (first_state first_proc).

Lemma exit_unjoined_faults_witness : exit after_thread_exit = Fault.
Proof.
  apply (exit_unjoined_faults after_thread_exit 1 (slot after_thread_exit 1) 0 2 (slot after_thread_exit 2));
    try (vm_compute; reflexivity); try (vm_compute; discriminate).
  intros e. exists e. reflexivity.
Defined.
