(* ===== verification/File.v ===== *)
(** * Open files (file.c, and pipealloc of pipe.c)

    The table of open files over an environment [E] for what is below it: the pipes,
    the inodes and the log, whose operations [FileEnv] names.  A [struct file*] is the
    index of a slot of [ftable.file].  A call that sleeps (on an empty or full pipe,
    for a lock, for room in the log) has the outcome [Asleep]. *)
From S2P Require Import Prelude Params Block Bio BioInv Log Store Str Fs.

Inductive file_type := FD_NONE | FD_PIPE | FD_INODE.
#[export] Instance file_type_eq_dec : EqDecision file_type.
Proof. solve_decision. Defined.

(** [struct file] (file.h) *)
Record file := mkfile {
  f_type : file_type;
  f_ref : Z;
  f_readable : bool;
  f_writable : bool;
  f_pipe : Z;  (* the address of the pipe *)
  f_ip : nat;  (* index into the inode cache *)
  f_off : Z
}.

Definition set_f_type (v : file_type) (f : file) : file :=
  mkfile v (f_ref f) (f_readable f) (f_writable f) (f_pipe f) (f_ip f) (f_off f).
Definition set_f_ref (v : Z) (f : file) : file :=
  mkfile (f_type f) v (f_readable f) (f_writable f) (f_pipe f) (f_ip f) (f_off f).
Definition set_f_readable (v : bool) (f : file) : file :=
  mkfile (f_type f) (f_ref f) v (f_writable f) (f_pipe f) (f_ip f) (f_off f).
Definition set_f_writable (v : bool) (f : file) : file :=
  mkfile (f_type f) (f_ref f) (f_readable f) v (f_pipe f) (f_ip f) (f_off f).
Definition set_f_pipe (v : Z) (f : file) : file :=
  mkfile (f_type f) (f_ref f) (f_readable f) (f_writable f) v (f_ip f) (f_off f).
Definition set_f_ip (v : nat) (f : file) : file :=
  mkfile (f_type f) (f_ref f) (f_readable f) (f_writable f) (f_pipe f) v (f_off f).
Definition set_f_off (v : Z) (f : file) : file :=
  mkfile (f_type f) (f_ref f) (f_readable f) (f_writable f) (f_pipe f) (f_ip f) v.

Class FileEnv (E : Type) := {
  fe_begin_op : M E unit;
  fe_end_op : M E unit;
  fe_ilock : nat → M E unit;
  fe_iunlock : nat → M E unit;
  fe_iput : nat → M E unit;
  fe_stati : nat → M E stat;
  fe_readi : nat → Z → Z → M E (Z * list Z);
  fe_writei : nat → list Z → Z → Z → M E Z;
  fe_pipeclose : Z → bool → M E unit;
  fe_piperead : bool → Z → Z → M E (Z * list Z);  (* whether the caller is killed *)
  fe_pipewrite : bool → Z → list Z → Z → M E Z;
  fe_newpipe : M E Z;  (* kalloc, and the initialisation of the pipe; 0 is null *)
}.

(** [ftable], and what is below. *)
Record filest (E : Type) := mkfilest { ft : list file; ft_lock : bool; ft_env : E }.
Arguments mkfilest {E}.
Arguments ft {E}.
Arguments ft_lock {E}.
Arguments ft_env {E}.

Section file.
Context {E : Type} `{!FileEnv E}.
Abbreviation KM := (M (filest E)).

Definition below {A} (m : M E A) : KM A := λ s,
  match m (ft_env s) with
  | Ret a e => Ret a (mkfilest (ft s) (ft_lock s) e)
  | Panic msg => Panic msg
  | Fault => Fault
  | Asleep c e => Asleep c (mkfilest (ft s) (ft_lock s) e)
  end.

Definition getf (f : nat) : KM file := λ s,
  match ft s !! f with Some x => Ret x s | None => Fault end.
Definition updf (f : nat) (g : file → file) : KM unit := λ s,
  match ft s !! f with
  | Some x => Ret tt (mkfilest (<[f := g x]> (ft s)) (ft_lock s) (ft_env s))
  | None => Fault
  end.
Definition acquire_ft : KM unit := λ s,
  if ft_lock s then Panic "acquire" else Ret tt (mkfilest (ft s) true (ft_env s)).
Definition release_ft : KM unit := λ s,
  if ft_lock s then Ret tt (mkfilest (ft s) false (ft_env s)) else Panic "release".

Definition fileinit : KM unit := modify (λ s, mkfilest (ft s) false (ft_env s)).

Definition filealloc : KM (option nat) :=
  acquire_ft;;
  s ← get;
  match list_find (λ f, f_ref f = 0) (ft s) with
  | Some (f, _) =>
      updf f (set_f_ref 1);;
      release_ft;;
      mret (Some f)
  | None => release_ft;; mret None
  end.

Definition filedup (f : nat) : KM nat :=
  acquire_ft;;
  x ← getf f;
  if f_ref x <? 1 then panic "filedup" else
  updf f (set_f_ref (s32 (f_ref x + 1)));;
  release_ft;;
  mret f.

(** What [fileclose] does with the copy [ff] of the file, once nobody refers to it. *)
Definition close_object (ff : file) : KM unit :=
  match f_type ff with
  | FD_PIPE => below (fe_pipeclose (f_pipe ff) (f_writable ff))
  | FD_INODE =>
      below fe_begin_op;;
      below (fe_iput (f_ip ff));;
      below fe_end_op
  | FD_NONE => mret tt
  end.

Definition fileclose (f : nat) : KM unit :=
  acquire_ft;;
  x ← getf f;
  if f_ref x <? 1 then panic "fileclose" else
  updf f (set_f_ref (f_ref x - 1));;
  if 0 <? f_ref x - 1 then release_ft else
  ff ← getf f;
  updf f (set_f_ref 0);;
  updf f (set_f_type FD_NONE);;
  release_ft;;
  close_object ff.

(** The result and what is stored at [st]. *)
Definition filestat (f : nat) : KM (Z * option stat) :=
  x ← getf f;
  match f_type x with
  | FD_INODE =>
      below (fe_ilock (f_ip x));;
      st ← below (fe_stati (f_ip x));
      below (fe_iunlock (f_ip x));;
      mret (0, Some st)
  | _ => mret (-1, None)
  end.

(** The result and the bytes stored at [addr]. *)
Definition filepread (killed : bool) (f : nat) (n off : Z) : KM (Z * list Z) :=
  x ← getf f;
  if negb (f_readable x) then mret (-1, []) else
  match f_type x with
  | FD_PIPE => below (fe_piperead killed (f_pipe x) n)
  | FD_INODE =>
      below (fe_ilock (f_ip x));;
      r ← below (fe_readi (f_ip x) (u32 off) (u32 n));
      below (fe_iunlock (f_ip x));;
      mret r
  | FD_NONE => panic "filepread"
  end.

Definition fileread (killed : bool) (f : nat) (n : Z) : KM (Z * list Z) :=
  x ← getf f;
  if negb (f_readable x) then mret (-1, []) else
  match f_type x with
  | FD_PIPE => below (fe_piperead killed (f_pipe x) n)
  | FD_INODE =>
      below (fe_ilock (f_ip x));;
      r ← below (fe_readi (f_ip x) (f_off x) (u32 n));
      (if 0 <? r.1 then updf f (λ x, set_f_off (u32 (f_off x + r.1)) x) else mret tt);;
      below (fe_iunlock (f_ip x));;
      mret r
  | FD_NONE => panic "fileread"
  end.

(** [((MAXOPBLOCKS-1-1-2) / 2) * 512] *)
Definition max_chunk : Z := Z.quot (MAXOPBLOCKS - 1 - 1 - 2) 2 * 512.

(** The loop of [filepwrite]; [src] are the bytes at [addr + i].  A turn that goes on
    has written at least one byte. *)
Fixpoint filepwrite_loop (fuel : nat) (f : nat) (src : list Z) (i n off : Z) : KM Z :=
  if i <? n then
    match fuel with
    | O => fault
    | S fuel' =>
        let n1 := if max_chunk <? n - i then max_chunk else n - i in
        x ← getf f;
        below fe_begin_op;;
        below (fe_ilock (f_ip x));;
        r ← below (fe_writei (f_ip x) src (u32 off) n1);
        below (fe_iunlock (f_ip x));;
        below fe_end_op;;
        if r <? 0 then mret i else
        if negb (r =? n1) then panic "short filewrite" else
        filepwrite_loop fuel' f (drop (Z.to_nat r) src) (i + r) n off
    end
  else mret i.

Definition filepwrite (killed : bool) (f : nat) (src : list Z) (n off : Z) : KM Z :=
  x ← getf f;
  if negb (f_writable x) then mret (-1) else
  match f_type x with
  | FD_PIPE => below (fe_pipewrite killed (f_pipe x) src n)
  | FD_INODE =>
      i ← filepwrite_loop (Z.to_nat n) f src 0 n off;
      mret (if i =? n then n else -1)
  | FD_NONE => panic "filepwrite"
  end.

Fixpoint filewrite_loop (fuel : nat) (f : nat) (src : list Z) (i n : Z) : KM Z :=
  if i <? n then
    match fuel with
    | O => fault
    | S fuel' =>
        let n1 := if max_chunk <? n - i then max_chunk else n - i in
        x ← getf f;
        below fe_begin_op;;
        below (fe_ilock (f_ip x));;
        r ← below (fe_writei (f_ip x) src (f_off x) n1);
        (if 0 <? r then updf f (λ x, set_f_off (u32 (f_off x + r)) x) else mret tt);;
        below (fe_iunlock (f_ip x));;
        below fe_end_op;;
        if r <? 0 then mret i else
        if negb (r =? n1) then panic "short filewrite" else
        filewrite_loop fuel' f (drop (Z.to_nat r) src) (i + r) n
    end
  else mret i.

Definition filewrite (killed : bool) (f : nat) (src : list Z) (n : Z) : KM Z :=
  x ← getf f;
  if negb (f_writable x) then mret (-1) else
  match f_type x with
  | FD_PIPE => below (fe_pipewrite killed (f_pipe x) src n)
  | FD_INODE =>
      i ← filewrite_loop (Z.to_nat n) f src 0 n;
      mret (if i =? n then n else -1)
  | FD_NONE => panic "filewrite"
  end.

(** [pipealloc]: the two files, [None] for the result -1. *)
Definition pipealloc_bad (f0 f1 : option nat) : KM (option (nat * nat)) :=
  match f0 with Some f => fileclose f | None => mret tt end;;
  match f1 with Some f => fileclose f | None => mret tt end;;
  mret None.

Definition pipe_end (f : nat) (readable writable : bool) (p : Z) : KM unit :=
  updf f (set_f_type FD_PIPE);;
  updf f (set_f_readable readable);;
  updf f (set_f_writable writable);;
  updf f (set_f_pipe p).

Definition pipealloc : KM (option (nat * nat)) :=
  f0 ← filealloc;
  match f0 with
  | None => pipealloc_bad None None
  | Some r =>
      f1 ← filealloc;
      match f1 with
      | None => pipealloc_bad (Some r) None
      | Some w =>
          p ← below fe_newpipe;
          if p =? 0 then pipealloc_bad (Some r) (Some w) else
          pipe_end r true false p;;
          pipe_end w false true p;;
          mret (Some (r, w))
      end
  end.
End file.
