(* ===== verification/FileThms.v ===== *)
(** * Open files: references, and writing in chunks

    The reference counts of the file table under any sequence of operations by the
    holders of references; and what [filewrite] and [filepwrite], which cut a write
    into transactions, leave in the file. *)
From S2P Require Import Prelude Params Block Bio BioInv Log Store Str Fs File.

Section run.
Context {E : Type} `{!FileEnv E}.
Implicit Types (s : filest E).

Lemma getf_run s f x : ft s !! f = Some x → getf f s = Ret x s.
Proof. intros H. unfold getf. by rewrite H. Qed.
Lemma updf_run s f x g : ft s !! f = Some x →
  updf f g s = Ret tt (mkfilest (<[f := g x]> (ft s)) (ft_lock s) (ft_env s)).
Proof. intros H. unfold updf. by rewrite H. Qed.
Lemma below_run {A} s (m : M E A) a e : m (ft_env s) = Ret a e → below m s = Ret a (mkfilest (ft s) (ft_lock s) e).
Proof. intros H. unfold below. by rewrite H. Qed.
End run.

(** ** References *)
Definition refs (h : list nat) (i : nat) : Z := Z.of_nat (length (filter (λ j, j = i) h)).

Lemma refs_cons h i j : refs (i :: h) j = refs h j + (if decide (i = j) then 1 else 0).
Proof. unfold refs. rewrite filter_cons. destruct (decide (i = j)); cbn; lia. Qed.
Lemma refs_perm h h' i : h ≡ₚ h' → refs h i = refs h' i.
Proof. unfold refs. by intros ->. Qed.
Lemma refs_pos h i : i ∈ h ↔ 0 < refs h i.
Proof.
  induction h as [|j h IH]; [split; [by intros ?%elem_of_nil|done]|].
  rewrite refs_cons, elem_of_cons, IH. assert (0 <= refs h i) by (unfold refs; lia).
  destruct (decide (j = i)) as [->|]; split.
  - lia.
  - by left.
  - intros [->|]; [done|lia].
  - right. lia.
Qed.
Lemma refs_le h i : refs h i <= Z.of_nat (length h).
Proof. unfold refs. pose proof (length_filter (λ j, j = i) h). lia. Qed.

(** The table, and the references [h] that the rest of the kernel holds: a descriptor
    of a process, or a local variable between [filealloc] and [fdalloc]. *)
Record ftable_wf {E} (s : filest E) (h : list nat) : Prop := {
  fw_lock : ft_lock s = false;
  fw_len : length (ft s) = NFILE;
  fw_ref i x : ft s !! i = Some x → f_ref x = refs h i;
  fw_held i : i ∈ h → (i < NFILE)%nat
}.

Section references.
Context {E : Type} `{!FileEnv E}.
Implicit Types (s : filest E) (h : list nat).

(** A slot updated, its reference count as given. *)
Lemma ftable_wf_set s h h' f x x' (e : E) :
  ftable_wf s h → ft s !! f = Some x → f_ref x' = refs h' f →
  (∀ i, i ≠ f → refs h' i = refs h i) → (∀ i, i ∈ h' → (i < NFILE)%nat) →
  ftable_wf (mkfilest (<[f := x']> (ft s)) false e) h'.
Proof.
  intros [L1 L2 L3 L4] Hf Hx Ho Hh. split; cbn; try done; [by rewrite length_insert|].
  intros i y [(<- & <- & _)|[Hne Hi]]%list_lookup_insert_Some; [done|]. rewrite Ho by done. eauto.
Qed.

Lemma filealloc_run s h :
  ftable_wf s h →
  (∃ f x, ft s !! f = Some x ∧ (f ∉ h)
     ∧ filealloc s = Ret (Some f) (mkfilest (<[f := set_f_ref 1 x]> (ft s)) false (ft_env s))
     ∧ ftable_wf (mkfilest (<[f := set_f_ref 1 x]> (ft s)) false (ft_env s)) (f :: h))
  ∨ (filealloc s = Ret None s ∧ ∀ i, (i < NFILE)%nat → i ∈ h).
Proof.
  intros Hwf. pose proof Hwf as [L1 L2 L3 L4]. destruct s as [t l e]; cbn in *; subst l.
  unfold filealloc, mbind, M_bind, acquire_ft; cbn.
  destruct (list_find (λ f, f_ref f = 0) t) as [[f x]|] eqn:Hf.
  - left. apply list_find_Some in Hf as (Hi & Hr & _). exists f, x.
    assert (f ∉ h) as Hn by (rewrite refs_pos, <-(L3 _ _ Hi); lia). split_and!; try done.
    + erewrite updf_run by done. done.
    + eapply (ftable_wf_set (mkfilest t false e)); try done; cbn.
      * rewrite refs_cons, decide_True by done. rewrite refs_pos in Hn. unfold refs in *. lia.
      * intros i Hne. rewrite refs_cons, decide_False by done. lia.
      * intros i [->|]%elem_of_cons; [|eauto]. apply lookup_lt_Some in Hi. lia.
  - right. split; [done|]. intros i Hi. apply list_find_None in Hf.
    destruct (lookup_lt_is_Some_2 t i) as [x Hx]; [lia|]. apply refs_pos.
    rewrite <-(L3 _ _ Hx). pose proof (Forall_lookup_1 _ _ _ _ Hf Hx) as Hz. cbn in Hz.
    rewrite (L3 _ _ Hx) in *. unfold refs in *. lia.
Qed.

Lemma filedup_run s h f :
  ftable_wf s h → f ∈ h → Z.of_nat (length h) < 2 ^ 31 - 1 →
  ∃ x, ft s !! f = Some x
    ∧ filedup f s = Ret f (mkfilest (<[f := set_f_ref (f_ref x + 1) x]> (ft s)) false (ft_env s))
    ∧ ftable_wf (mkfilest (<[f := set_f_ref (f_ref x + 1) x]> (ft s)) false (ft_env s)) (f :: h).
Proof.
  intros Hwf Hin Hb. pose proof Hwf as [L1 L2 L3 L4]. pose proof (L4 _ Hin) as Hlt.
  destruct (lookup_lt_is_Some_2 (ft s) f) as [x Hx]; [lia|]. exists x.
  pose proof (L3 _ _ Hx) as Hr. pose proof (refs_le h f). apply refs_pos in Hin as Hp.
  destruct s as [t l e]; cbn in *; subst l. split_and!; [done| |].
  - unfold filedup, mbind, M_bind, acquire_ft; cbn. erewrite getf_run by done.
    destruct (Z.ltb_spec (f_ref x) 1); [lia|]. erewrite updf_run by done. cbn.
    rewrite s32_id by (unfold is_s32; lia). done.
  - eapply (ftable_wf_set (mkfilest t false e)); try done; cbn.
    + rewrite refs_cons, decide_True by done. lia.
    + intros i Hne. rewrite refs_cons, decide_False by done. lia.
    + intros i [->|]%elem_of_cons; eauto.
Qed.

(** The slot [fileclose] leaves when the last reference goes. *)
Definition closed_slot (x : file) : file := set_f_type FD_NONE (set_f_ref 0 x).

Lemma fileclose_run s h f h' :
  ftable_wf s h → h ≡ₚ f :: h' →
  ∃ x, ft s !! f = Some x
    ∧ if decide (f ∈ h')
      then fileclose f s = Ret tt (mkfilest (<[f := set_f_ref (f_ref x - 1) x]> (ft s)) false (ft_env s))
        ∧ ftable_wf (mkfilest (<[f := set_f_ref (f_ref x - 1) x]> (ft s)) false (ft_env s)) h'
      else fileclose f s = close_object (set_f_ref 0 x) (mkfilest (<[f := closed_slot x]> (ft s)) false (ft_env s))
        ∧ ∀ e : E, ftable_wf (mkfilest (<[f := closed_slot x]> (ft s)) false e) h'.
Proof.
  intros Hwf Hperm. pose proof Hwf as [L1 L2 L3 L4].
  assert (f ∈ h) as Hin by (rewrite Hperm; by left). pose proof (L4 _ Hin) as Hlt.
  destruct (lookup_lt_is_Some_2 (ft s) f) as [x Hx]; [lia|]. exists x. split; [done|].
  pose proof (L3 _ _ Hx) as Hr. rewrite (refs_perm _ _ f Hperm), refs_cons, decide_True in Hr by done.
  assert (∀ i, i ≠ f → refs h' i = refs h i) as Ho.
  { intros i Hne. rewrite (refs_perm _ _ i Hperm), refs_cons, decide_False by done. lia. }
  assert (∀ i, i ∈ h' → (i < NFILE)%nat) as Hh by (intros i Hi; apply L4; rewrite Hperm; by right).
  pose proof (lookup_lt_Some _ _ _ Hx) as Hlx.
  destruct s as [t l e]; cbn in *; subst l.
  assert (fileclose f (mkfilest t false e) =
    (if 0 <? f_ref x - 1 then release_ft else
     ff ← getf f; updf f (set_f_ref 0);; updf f (set_f_type FD_NONE);; release_ft;; close_object ff)
    (mkfilest (<[f := set_f_ref (f_ref x - 1) x]> t) true e)) as Hc.
  { unfold fileclose. rewrite (bind_ret _ _ _ tt (mkfilest t true e)) by done.
    erewrite bind_ret by (by apply getf_run). destruct (Z.ltb_spec (f_ref x) 1); [unfold refs in *; lia|].
    erewrite bind_ret by (by apply updf_run). done. }
  destruct (decide (f ∈ h')) as [Hm|Hm]; rewrite refs_pos in Hm.
  - rewrite Hc. destruct (Z.ltb_spec 0 (f_ref x - 1)); [|lia]. split; [done|].
    eapply (ftable_wf_set (mkfilest t false e)); try done. cbn. lia.
  - rewrite Hc. destruct (Z.ltb_spec 0 (f_ref x - 1)); [lia|]. split.
    + assert (f_ref x - 1 = 0) as -> by (unfold refs in *; lia).
      do 3 (erewrite bind_ret by ((apply getf_run || apply updf_run); cbn; by apply list_lookup_insert_eq; rewrite ?length_insert);
            cbn [ft ft_lock ft_env]; rewrite ?list_insert_insert_eq).
      done.
    + intros e'. eapply (ftable_wf_set (mkfilest t false e)); try done. cbn. unfold refs in *. lia.
Qed.
End references.

(** What the holders of references can do: get a new file, duplicate or close a
    reference they hold, and change the fields of a file they hold, its count apart
    (opening and reading do); what is below may change on its own. *)
Section steps.
Context {E : Type} `{!FileEnv E}.
Implicit Types (s : filest E) (h : list nat).

Inductive file_step : filest E * list nat → filest E * list nat → Prop :=
| fstep_alloc s s' h f : filealloc s = Ret (Some f) s' → file_step (s, h) (s', f :: h)
| fstep_dup s s' h f : f ∈ h → Z.of_nat (length h) < 2 ^ 31 - 1 →
    filedup f s = Ret f s' → file_step (s, h) (s', f :: h)
| fstep_close s s' h h' f : h ≡ₚ f :: h' → fileclose f s = Ret tt s' → file_step (s, h) (s', h')
| fstep_fields s h f x x' : f ∈ h → ft s !! f = Some x → f_ref x' = f_ref x →
    file_step (s, h) (mkfilest (<[f := x']> (ft s)) (ft_lock s) (ft_env s), h)
| fstep_below s h e : file_step (s, h) (mkfilest (ft s) (ft_lock s) e, h).

Lemma close_object_table (x : file) s s' : close_object x s = Ret tt s' → s' = mkfilest (ft s) (ft_lock s) (ft_env s').
Proof.
  unfold close_object, below, mbind, M_bind, mret, M_ret. destruct s as [t l e]; cbn.
  destruct (f_type x); intros H; repeat case_match; simplify_eq; done.
Qed.

Lemma file_step_wf s h s' h' : file_step (s, h) (s', h') → ftable_wf s h → ftable_wf s' h'.
Proof.
  intros Hst Hwf. inversion Hst as [? ? ? f Hr|? ? ? f Hin Hb Hr|? ? ? ? f Hp Hr|? ? f x x' Hin Hx Hre|? ? e]; subst.
  - destruct (filealloc_run s h Hwf) as [(g & x & _ & _ & Hg & Hw)|[Hg _]]; rewrite Hg in Hr; by simplify_eq.
  - destruct (filedup_run s h f Hwf Hin Hb) as (x & _ & Hg & Hw). rewrite Hg in Hr. by simplify_eq.
  - destruct (fileclose_run s h f h' Hwf Hp) as (x & _ & Hc). destruct (decide (f ∈ h')).
    + destruct Hc as [Hc Hw]. rewrite Hc in Hr. by simplify_eq.
    + destruct Hc as [Hc Hw]. rewrite Hc in Hr. apply close_object_table in Hr as ->. apply Hw.
  - rewrite (fw_lock _ _ Hwf). pose proof Hwf as [L1 L2 L3 L4]. eapply ftable_wf_set; try done.
    rewrite Hre. by apply L3.
  - by destruct Hwf.
Qed.

(** C20: a file lives as long as somebody refers to it.  From a table without open
    files, whatever the holders of references do: [filealloc] gives a slot nobody
    refers to, and fails only when every slot is referred to; duplicating and closing
    a reference one holds does not panic; closing one of several references only
    counts it down, leaving what is below alone; closing the last one frees the slot
    and closes the pipe or releases the inode of that very file. *)
Theorem file_references s0 s h :
  ftable_wf s0 [] → rtc file_step (s0, []) (s, h) →
  (∃ r s', filealloc s = Ret r s' ∧
     match r with Some f => f ∉ h | None => ∀ i, (i < NFILE)%nat → i ∈ h end)
  ∧ (∀ f, f ∈ h → Z.of_nat (length h) < 2 ^ 31 - 1 → ∃ s', filedup f s = Ret f s')
  ∧ (∀ f h', h ≡ₚ f :: h' → ∃ x, ft s !! f = Some x ∧
       if decide (f ∈ h')
       then fileclose f s = Ret tt (mkfilest (<[f := set_f_ref (f_ref x - 1) x]> (ft s)) false (ft_env s))
       else fileclose f s = close_object (set_f_ref 0 x)
              (mkfilest (<[f := closed_slot x]> (ft s)) false (ft_env s))).
Proof.
  intros H0 Hsteps.
  assert (ftable_wf s h) as Hwf.
  { remember (s0, []) as a eqn:Ea. remember (s, h) as b eqn:Eb.
    assert (ftable_wf a.1 a.2) as Ha by (by subst). clear H0 Ea s0.
    induction Hsteps as [|[s1 h1] [s2 h2] c Hst _ IH]; [by subst|].
    apply IH; [done|]. by eapply file_step_wf. }
  split_and!.
  - destruct (filealloc_run s h Hwf) as [(f & x & _ & Hn & Hr & _)|[Hr Hall]]; eauto.
  - intros f Hin Hb. destruct (filedup_run s h f Hwf Hin Hb) as (x & _ & Hr & _). eauto.
  - intros f h' Hp. destruct (fileclose_run s h f h' Hwf Hp) as (x & Hx & Hc). exists x.
    split; [done|]. destruct (decide (f ∈ h')); by destruct Hc.
Qed.
End steps.

(** ** Writing in chunks *)
Definition overwrite (c : list Z) (off : nat) (src : list Z) : list Z :=
  take off c ++ src ++ drop (off + length src) c.

Lemma overwrite_app c off a b : (off ≤ length c)%nat →
  overwrite (overwrite c off a) (off + length a) b = overwrite c off (a ++ b).
Proof.
  intros Ho. unfold overwrite. rewrite (app_assoc (take off c) a).
  assert (length (take off c ++ a) = (off + length a)%nat) as Hl by (rewrite length_app, length_take; lia).
  rewrite take_app_le by lia. rewrite take_ge by lia.
  rewrite drop_app_ge by lia. rewrite drop_drop, Hl, length_app, <-!app_assoc. do 4 f_equal. lia.
Qed.

Lemma overwrite_nil c off : overwrite c off [] = c.
Proof. unfold overwrite. rewrite app_nil_l, Nat.add_0_r. apply take_drop. Qed.

Lemma length_overwrite c off src : (off ≤ length c)%nat →
  length (overwrite c off src) = Nat.max (length c) (off + length src).
Proof. intros. unfold overwrite. rewrite !length_app, length_take, length_drop. lia. Qed.

(** What [filewrite] relies on: as long as [able e], a transaction that writes at most
    [max_chunk] bytes at an offset within the file or at its end, up to [limit], goes
    through, and leaves the file with these bytes at that offset. *)
Class WriteLaws (E : Type) `{!FileEnv E} := {
  content : E → nat → list Z;
  able : E → Prop;
  limit : Z;
  limit_u32 : limit < 2 ^ 32;
  chunk_law e ip src off n :
    able e → (off ≤ length (content e ip))%nat → 0 < n <= max_chunk → n <= Z.of_nat (length src) →
    Z.of_nat off + n <= limit →
    ∃ e1 e2 e3 e4 e5,
      fe_begin_op e = Ret tt e1 ∧ fe_ilock ip e1 = Ret tt e2
      ∧ fe_writei ip src (Z.of_nat off) n e2 = Ret n e3
      ∧ fe_iunlock ip e3 = Ret tt e4 ∧ fe_end_op e4 = Ret tt e5
      ∧ able e5 ∧ content e5 ip = overwrite (content e ip) off (take (Z.to_nat n) src)
      ∧ ∀ j, j ≠ ip → content e5 j = content e j
}.

Section chunks.
Context {E : Type} `{!FileEnv E, !WriteLaws E}.
Implicit Types (s : filest E).

(** The next chunk. *)
Definition chunk (n i : Z) : Z := if max_chunk <? n - i then max_chunk else n - i.
Lemma chunk_range n i : i < n → 0 < chunk n i <= max_chunk ∧ i + chunk n i <= n.
Proof. intros H. unfold chunk. assert (max_chunk = 1536) as -> by done. destruct (Z.ltb_spec 1536 (n - i)); lia. Qed.

(** The state after the loop of [filewrite] with [src] left to write. *)
Lemma filewrite_loop_run fuel s f x src (off : nat) i n :
  ft s !! f = Some x → f_off x = Z.of_nat off → able (ft_env s) →
  (off ≤ length (content (ft_env s) (f_ip x)))%nat → 0 <= i <= n → n - i <= Z.of_nat (length src) →
  Z.of_nat off + (n - i) <= limit → (Z.to_nat (n - i) ≤ fuel)%nat →
  ∃ e', filewrite_loop fuel f src i n s
    = Ret n (mkfilest (<[f := set_f_off (f_off x + (n - i)) x]> (ft s)) (ft_lock s) e')
    ∧ able e' ∧ content e' (f_ip x) = overwrite (content (ft_env s) (f_ip x)) off (take (Z.to_nat (n - i)) src)
    ∧ ∀ j, j ≠ f_ip x → content e' j = content (ft_env s) j.
Proof.
  revert s x src off i. induction fuel as [|fuel IH]; intros s x src off i Hx Hoff Hab Hlen Hi Hsrc Hlim Hfuel;
    cbn [filewrite_loop].
  1,2: destruct (Z.ltb_spec i n) as [Hlt|Hge].
  1: lia.
  1,3: assert (n - i = 0) as -> by lia; assert (i = n) as -> by lia; exists (ft_env s);
    split_and!; [|done| |done];
    [rewrite Z.add_0_r, list_insert_id; [by destruct s|rewrite Hx; by destruct x]
    |change (Z.to_nat 0) with 0%nat; by rewrite take_0, overwrite_nil].
  destruct (chunk_range n i Hlt) as [Hc1 Hc2]. fold (chunk n i). cbv zeta.
  set (c := chunk n i) in *.
  destruct (chunk_law (ft_env s) (f_ip x) src off c Hab Hlen Hc1) as (e1 & e2 & e3 & e4 & e5 & H1 & H2 & H3 & H4 & H5 & Hab' & Hcont & Hoth); [lia|lia|].
  rewrite (bind_ret _ _ _ _ _ (getf_run _ _ _ Hx)).
  rewrite (bind_ret _ _ _ _ _ (below_run s _ _ _ H1)).
  erewrite bind_ret by (apply below_run; exact H2). cbn [ft ft_lock].
  rewrite Hoff. erewrite bind_ret by (apply below_run; exact H3). cbn [ft ft_lock].
  destruct (Z.ltb_spec 0 c); [|lia].
  erewrite bind_ret by (apply updf_run; exact Hx). cbn [ft ft_lock ft_env].
  erewrite bind_ret by (apply below_run; exact H4). cbn [ft ft_lock].
  erewrite bind_ret by (apply below_run; exact H5). cbn [ft ft_lock].
  destruct (Z.ltb_spec c 0); [lia|]. rewrite Z.eqb_refl. cbn [negb].
  pose proof limit_u32. rewrite u32_id by (unfold is_u32; lia).
  set (x' := set_f_off (f_off x + c) x). pose proof (lookup_lt_Some _ _ _ Hx) as Hlx.
  assert (length (take (Z.to_nat c) src) = Z.to_nat c) as Hlt' by (rewrite length_take; lia).
  edestruct (IH (mkfilest (<[f := x']> (ft s)) (ft_lock s) e5) x' (drop (Z.to_nat c) src) (off + Z.to_nat c)%nat (i + c))
    as (e' & Hr & Ha & Hc & Ho); cbn [ft ft_lock ft_env].
  - by apply list_lookup_insert_eq.
  - cbn. lia.
  - done.
  - cbn. rewrite Hcont, length_overwrite by done. lia.
  - lia.
  - rewrite length_drop. lia.
  - lia.
  - lia.
  - exists e'. rewrite Hr. cbn [ft ft_lock ft_env] in *. rewrite list_insert_insert_eq. split_and!; [|done| |].
    + do 3 f_equal. unfold x', set_f_off; cbn. f_equal. lia.
    + cbn in Hc. rewrite Hc, Hcont.
      pose proof (overwrite_app (content (ft_env s) (f_ip x)) off (take (Z.to_nat c) src)
        (take (Z.to_nat (n - (i + c))) (drop (Z.to_nat c) src)) Hlen) as Hap.
      rewrite Hlt' in Hap. rewrite Hap. f_equal.
      rewrite take_take_drop. f_equal. lia.
    + intros j Hj. cbn in Ho. rewrite Ho by done. by apply Hoth.
Qed.

(** [filewrite] on a regular file writes all its bytes, in order, at the offset of
    the file, however many transactions it takes, and moves the offset behind them; it
    returns their number; no other file changes. *)
Theorem filewrite_stream killed s f x src (off : nat) n :
  ft s !! f = Some x → f_writable x = true → f_type x = FD_INODE → f_off x = Z.of_nat off →
  able (ft_env s) → (off ≤ length (content (ft_env s) (f_ip x)))%nat →
  0 <= n → Z.of_nat (length src) = n → Z.of_nat off + n <= limit →
  ∃ e', filewrite killed f src n s
        = Ret n (mkfilest (<[f := set_f_off (f_off x + n) x]> (ft s)) (ft_lock s) e')
    ∧ content e' (f_ip x) = overwrite (content (ft_env s) (f_ip x)) off src
    ∧ ∀ j, j ≠ f_ip x → content e' j = content (ft_env s) j.
Proof.
  intros Hx Hw Ht Hoff Hab Hlen Hn Hsrc Hlim.
  destruct (filewrite_loop_run (Z.to_nat n) s f x src off 0 n) as (e' & Hr & _ & Hc & Ho); try done; try lia.
  exists e'. rewrite Z.sub_0_r in *. rewrite take_ge in Hc by lia. split_and!; [|done|done].
  unfold filewrite. rewrite (bind_ret _ _ _ _ _ (getf_run _ _ _ Hx)), Hw, Ht. cbn [negb].
  rewrite (bind_ret _ _ _ _ _ Hr), Z.eqb_refl. done.
Qed.

(** One turn of the loop of [filepwrite]. *)
Lemma filepwrite_turn fuel s f x src (off : nat) i n :
  ft s !! f = Some x → able (ft_env s) → (off ≤ length (content (ft_env s) (f_ip x)))%nat →
  i < n → n - i <= Z.of_nat (length src) → Z.of_nat off + (n - i) <= limit →
  let c := chunk n i in
  ∃ e', filepwrite_loop (S fuel) f src i n (Z.of_nat off) s
        = filepwrite_loop fuel f (drop (Z.to_nat c) src) (i + c) n (Z.of_nat off) (mkfilest (ft s) (ft_lock s) e')
    ∧ able e' ∧ content e' (f_ip x) = overwrite (content (ft_env s) (f_ip x)) off (take (Z.to_nat c) src).
Proof.
  intros Hx Hab Hlen Hi Hsrc Hlim c. destruct (chunk_range n i Hi) as [Hc1 Hc2]. fold c in Hc1, Hc2.
  destruct (chunk_law (ft_env s) (f_ip x) src off c Hab Hlen Hc1)
    as (e1 & e2 & e3 & e4 & e5 & H1 & H2 & H3 & H4 & H5 & Hab' & Hcont & _); [lia|lia|].
  exists e5. split_and!; [|done|done]. cbn [filepwrite_loop]. destruct (Z.ltb_spec i n); [|lia].
  fold (chunk n i). cbv zeta. fold c. pose proof limit_u32.
  rewrite (bind_ret _ _ _ _ _ (getf_run _ _ _ Hx)), (bind_ret _ _ _ _ _ (below_run s _ _ _ H1)).
  erewrite bind_ret by (apply below_run; exact H2). cbn [ft ft_lock].
  rewrite u32_id by (unfold is_u32; lia). erewrite bind_ret by (apply below_run; exact H3). cbn [ft ft_lock].
  erewrite bind_ret by (apply below_run; exact H4). cbn [ft ft_lock].
  erewrite bind_ret by (apply below_run; exact H5). cbn [ft ft_lock].
  destruct (Z.ltb_spec c 0); [lia|]. by rewrite Z.eqb_refl.
Qed.

(** [filepwrite] of more than one chunk writes the chunks over each other.  Its
    loop passes the same offset to every [writei]: of a write of two chunks at the end
    of a file, the file gets the first [max_chunk] bytes, the start of which the second
    chunk then overwrites; the call reports that all [n] bytes were written, but the
    file has grown by [max_chunk] only. *)
Theorem filepwrite_overwrites killed s f x src (off : nat) n :
  ft s !! f = Some x → f_writable x = true → f_type x = FD_INODE →
  able (ft_env s) → off = length (content (ft_env s) (f_ip x)) →
  max_chunk < n <= 2 * max_chunk → Z.of_nat (length src) = n → Z.of_nat off + n <= limit →
  ∃ s', filepwrite killed f src n (Z.of_nat off) s = Ret n s'
    ∧ Z.of_nat (length (content (ft_env s') (f_ip x))) = Z.of_nat off + max_chunk
    ∧ ∀ j : nat, Z.of_nat j < n - max_chunk →
        content (ft_env s') (f_ip x) !! (off + j)%nat = src !! (Z.to_nat max_chunk + j)%nat.
Proof.
  intros Hx Hw Ht Hab Hoff Hn Hsrc Hlim. assert (max_chunk = 1536) as Hmax by done.
  set (c0 := content (ft_env s) (f_ip x)) in *.
  destruct (filepwrite_turn (Z.to_nat n - 1) s f x src off 0 n) as (e1 & H1 & Hab1 & Hc1); try done; try lia.
  { fold c0. lia. }
  assert (chunk n 0 = max_chunk) as Hk by (unfold chunk; destruct (Z.ltb_spec max_chunk (n - 0)); lia).
  rewrite Hk, Z.add_0_l in *. fold c0 in Hc1.
  set (s1 := mkfilest (ft s) (ft_lock s) e1) in *.
  destruct (filepwrite_turn (Z.to_nat n - 2) s1 f x (drop (Z.to_nat max_chunk) src) off max_chunk n)
    as (e2 & H2 & Hab2 & Hc2); try done; try lia.
  { change (ft_env s1) with e1. rewrite Hc1, length_overwrite by lia. lia. }
  { rewrite length_drop. lia. }
  assert (chunk n max_chunk = n - max_chunk) as Hk2 by (unfold chunk; destruct (Z.ltb_spec max_chunk (n - max_chunk)); lia).
  rewrite Hk2 in *. replace (max_chunk + (n - max_chunk)) with n in H2 by lia.
  change (ft_env s1) with e1 in Hc2. rewrite Hc1 in Hc2. rewrite (take_ge (drop _ _)) in Hc2 by (rewrite length_drop; lia).
  assert (length (overwrite c0 off (take (Z.to_nat max_chunk) src)) = off + Z.to_nat max_chunk)%nat as Hl1
    by (rewrite length_overwrite, length_take by lia; lia).
  exists (mkfilest (ft s) (ft_lock s) e2). split_and!.
  - unfold filepwrite. rewrite (bind_ret _ _ _ _ _ (getf_run _ _ _ Hx)), Hw, Ht. cbn [negb].
    replace (Z.to_nat n) with (S (Z.to_nat n - 1)) at 1 by lia.
    assert (filepwrite_loop (S (Z.to_nat n - 1)) f src 0 n (Z.of_nat off) s = Ret n (mkfilest (ft s) (ft_lock s) e2)) as Hl.
    { rewrite H1. replace (Z.to_nat n - 1)%nat with (S (Z.to_nat n - 2)) by lia. rewrite H2.
      destruct (Z.to_nat n - 2)%nat; cbn [filepwrite_loop]; by rewrite Z.ltb_irrefl. }
    rewrite (bind_ret _ _ _ _ _ Hl), Z.eqb_refl. done.
  - cbn [ft_env]. rewrite Hc2, length_overwrite, Hl1, length_drop by lia. lia.
  - intros j Hj. cbn [ft_env]. rewrite Hc2. unfold overwrite at 1.
    rewrite lookup_app_r; rewrite length_take, Hl1; [|lia].
    replace (off + j - _)%nat with j by lia.
    rewrite lookup_app_l by (rewrite length_drop; lia). rewrite lookup_drop. done.
Qed.
End chunks.

(** ** Files in memory

    An environment in which the content of an inode is a list of bytes. *)
Module Ram.
Definition ram := nat → list Z.

Definition ram_writei (ip : nat) (src : list Z) (off n : Z) : M ram Z := λ e,
  Ret n (λ j, if Nat.eqb j ip then overwrite (e ip) (Z.to_nat off) (take (Z.to_nat n) src) else e j).

#[export] Instance ram_env : FileEnv ram := {|
  fe_begin_op := mret tt;
  fe_end_op := mret tt;
  fe_ilock _ := mret tt;
  fe_iunlock _ := mret tt;
  fe_iput _ := mret tt;
  fe_stati ip := gets (λ e, mkstat T_FILE ROOTDEV (Z.of_nat ip) 1 (Z.of_nat (length (e ip))));
  fe_readi ip off n := gets (λ e,
    let bytes := take (Z.to_nat n) (drop (Z.to_nat off) (e ip)) in (Z.of_nat (length bytes), bytes));
  fe_writei := ram_writei;
  fe_pipeclose _ _ := mret tt;
  fe_piperead _ _ _ := mret (0, []);
  fe_pipewrite _ _ _ n := mret n;
  fe_newpipe := mret 0
|}.

#[export] Program Instance ram_laws : WriteLaws ram := {|
  content e ip := e ip;
  able _ := True;
  limit := MAXFILE * BSIZE
|}.
Next Obligation. done. Qed.
Next Obligation.
  intros e ip src off n _ Hoff Hn Hsrc Hlim. eexists e, e, _, _, _. split_and!; try done.
  - cbn. by rewrite Nat.eqb_refl, Nat2Z.id.
  - intros j Hj. cbn. by rewrite (proj2 (Nat.eqb_neq j ip) Hj).
Qed.

Definition blank_file : file := mkfile FD_NONE 0 false false 0 0 0.
Definition open_file : file := mkfile FD_INODE 1 true true 0 0 0.
Definition empty_table : filest ram := mkfilest (replicate NFILE blank_file) false (λ _, []).
(** One open, empty file. *)
Definition one_file : filest ram := mkfilest [open_file] false (λ _, []).

Lemma empty_table_wf : ftable_wf empty_table [].
Proof.
  split; try done.
  - intros i x Hx. by apply lookup_replicate in Hx as [-> _].
  - intros i Hi. by apply elem_of_nil in Hi.
Qed.
End Ram.
Import Ram.

Lemma file_references_witness :
  ∃ x, <[0%nat := set_f_ref 1 Ram.blank_file]> (ft Ram.empty_table) !! 0%nat = Some x.
Proof.
  assert (rtc file_step (Ram.empty_table, [])
    (mkfilest (<[0%nat := set_f_ref 1 Ram.blank_file]> (ft Ram.empty_table)) false (λ _, []), [0%nat])) as Hs
    by (apply rtc_once, fstep_alloc; reflexivity).
  destruct (proj2 (proj2 (file_references _ _ _ Ram.empty_table_wf Hs)) 0%nat [] (Permutation_refl _))
    as (x & Hx & _).
  exists x. exact Hx.
Defined.

(** 2000 bytes, more than a chunk. *)
Definition some_bytes : list Z := (λ i, Z.of_nat i mod 256) <$> seq 0 2000.

Lemma filewrite_stream_witness :
  ∃ e', filewrite false 0 some_bytes 2000 Ram.one_file
        = Ret 2000 (mkfilest [set_f_off 2000 Ram.open_file] false e')
    ∧ content e' 0%nat = overwrite [] 0 some_bytes.
Proof.
  destruct (filewrite_stream false Ram.one_file 0 Ram.open_file some_bytes 0 2000) as (e' & H1 & H2 & _).
  1-9: first [reflexivity | done | vm_compute; discriminate | vm_compute; reflexivity].
  exists e'. split; [exact H1|exact H2].
Defined.

Lemma filepwrite_overwrites_witness :
  ∃ s', filepwrite false 0 some_bytes 2000 0 Ram.one_file = Ret 2000 s'
    ∧ Z.of_nat (length (content (ft_env s') 0%nat)) = 1536.
Proof.
  destruct (filepwrite_overwrites false Ram.one_file 0 Ram.open_file some_bytes 0 2000) as (s' & H1 & H2 & _).
  1-8: first [reflexivity | done | vm_compute; split; [reflexivity|discriminate] | vm_compute; discriminate].
  exists s'. split; [exact H1|exact H2].
Defined.
