(* ===== verification/Syscall.v ===== *)
(** * Arguments of system calls (syscall.c)

    The functions that fetch the arguments of a system call from the user stack and
    check them against the size of the process; user memory is behind the interface
    [UserMem].  [None] stands for the result -1. *)
From S2P Require Import Prelude Params ProcState Sched Proc.

(** Memory as user code and the kernel see it through a page table: a byte of a user
    address, loaded or stored.  An address that is not mapped, or not writable for a
    store, is a page fault. *)
Class UserMem (E : Type) := {
  u_load : Z → Z → M E Z;
  u_store : Z → Z → Z → M E unit;
}.

Section syscall.
Context {E : Type} `{!UserMem E}.
Abbreviation PM := (M (pstate E)).

(** The calling process. *)
Definition curproc : PM proc := cur ← myproc; getp cur.

(** A little-endian word of user memory, as an [int]. *)
Definition load_int (pgdir a : Z) : PM Z :=
  b0 ← on_env (u_load pgdir a);
  b1 ← on_env (u_load pgdir (a + 1));
  b2 ← on_env (u_load pgdir (a + 2));
  b3 ← on_env (u_load pgdir (a + 3));
  mret (s32 (b0 + 2 ^ 8 * b1 + 2 ^ 16 * b2 + 2 ^ 24 * b3)).

Definition fetchint (addr : Z) : PM (option Z) :=
  c ← curproc;
  if (p_sz c <=? addr) || (p_sz c <? u32 (addr + 4)) then mret None else
  i ← load_int (p_pgdir c) addr;
  mret (Some i).

(** The loop of [fetchstr]: the characters before the NUL, at most [n] of them. *)
Fixpoint fetchstr_loop (n : nat) (pgdir a : Z) : PM (option (list Z)) :=
  match n with
  | O => mret None
  | S n' =>
      b ← on_env (u_load pgdir a);
      if b =? 0 then mret (Some []) else
      r ← fetchstr_loop n' pgdir (a + 1);
      mret (cons b <$> r)
  end.

(** The string that [*pp] points to; the result of the C function is its length. *)
Definition fetchstr (addr : Z) : PM (option (list Z)) :=
  c ← curproc;
  if p_sz c <=? addr then mret None else
  fetchstr_loop (Z.to_nat (p_sz c - addr)) (p_pgdir c) addr.

Definition argint (n : Z) : PM (option Z) :=
  c ← curproc;
  fetchint (u32 (tf_esp (p_tf c) + 4 + 4 * n)).

(** The pointer, an address of user memory. *)
Definition argptr (n size : Z) : PM (option Z) :=
  c ← curproc;
  i ← argint n;
  match i with
  | None => mret None
  | Some i =>
      if (size <? 0) || (p_sz c <=? u32 i) || (p_sz c <? u32 (u32 i + size)) then mret None
      else mret (Some (u32 i))
  end.

Definition argstr (n : Z) : PM (option (list Z)) :=
  addr ← argint n;
  match addr with None => mret None | Some addr => fetchstr (u32 addr) end.
End syscall.
