(* ===== verification/Kernel.v ===== *)
(** * The kernel put together

    The state below the process table: memory, pipes, the file system, the console and
    the timer ticks, with the file table on top of them; the interfaces [FileEnv], [ProcEnv] and
    [UserMem] of the components above are instances built from the components below.
    A pipe is kept apart from the bytes of the page that holds it.  The file system
    runs over any block store with transactions; the storage stack is one. *)
From S2P Require Import Prelude Params ProcState Sched Proc Block Bio BioInv Log Store Str Fs.
From S2P Require Import Kalloc Vm Pipe File Syscall Console.

(** log.c as the file system's clients use it. *)
Class Transactions (S : Type) := {
  s_begin_op : M S unit;
  s_end_op : M S unit;
  s_initlog : Z → M S unit;
  s_sync : M S Z;
  s_log_num : M S Z;
  s_caller : Z → S → S;  (* the pid of the calling process, for the locks of buffers *)
  s_wakeups : S → list chan;  (* the calls of wakeup made, and the state without them *)
  s_woken : S → S;
}.
#[export] Instance storage_transactions : Transactions storage := {|
  s_begin_op := begin_op;
  s_end_op := end_op;
  s_initlog := initlog;
  s_sync := sys_sync;
  s_log_num := sys_get_log_num;
  s_caller := set_cur_pid;
  s_wakeups := wakeups;
  s_woken := set_wakeups []
|}.

(** The processor's translation: the entry of the page table for [va]. *)
Definition mmu_entry (pgdir va : Z) : M memory Z :=
  pte ← walkpgdir pgdir va false;
  if pte =? 0 then fault else ldw pte.
Definition mem_load (pgdir va : Z) : M memory Z :=
  e ← mmu_entry pgdir va;
  if negb (has e PTE_P) then fault else
  gets (λ m, mm_bytes m (P2V (PTE_ADDR e) + va mod PGSIZE)).
Definition mem_store (pgdir va b : Z) : M memory unit :=
  e ← mmu_entry pgdir va;
  if negb (has e PTE_P && has e PTE_W) then fault else
  on_bytes (λ m, store m (P2V (PTE_ADDR e) + va mod PGSIZE) b).

Record kern (S : Type) := mkkern {
  kn_mem : memory;
  kn_pipes : gmap Z pipe;
  kn_fs : fsstate S;
  kn_cons : console;
  kn_ticks : Z;      (* uint *)
  kn_tickslock : bool;
  kn_shift : Z       (* the modifiers of the keyboard *)
}.
Arguments mkkern {S}.
Arguments kn_mem {S}.
Arguments kn_pipes {S}.
Arguments kn_fs {S}.
Arguments kn_cons {S}.
Arguments kn_ticks {S}.
Arguments kn_tickslock {S}.
Arguments kn_shift {S}.

Definition set_kn_mem {S} (v : memory) (k : kern S) : kern S :=
  mkkern v (kn_pipes k) (kn_fs k) (kn_cons k) (kn_ticks k) (kn_tickslock k) (kn_shift k).
Definition set_kn_pipes {S} (v : gmap Z pipe) (k : kern S) : kern S :=
  mkkern (kn_mem k) v (kn_fs k) (kn_cons k) (kn_ticks k) (kn_tickslock k) (kn_shift k).
Definition set_kn_fs {S} (v : fsstate S) (k : kern S) : kern S :=
  mkkern (kn_mem k) (kn_pipes k) v (kn_cons k) (kn_ticks k) (kn_tickslock k) (kn_shift k).
Definition set_kn_cons {S} (v : console) (k : kern S) : kern S :=
  mkkern (kn_mem k) (kn_pipes k) (kn_fs k) v (kn_ticks k) (kn_tickslock k) (kn_shift k).
Definition set_kn_ticks {S} (v : Z) (k : kern S) : kern S :=
  mkkern (kn_mem k) (kn_pipes k) (kn_fs k) (kn_cons k) v (kn_tickslock k) (kn_shift k).
Definition set_kn_tickslock {S} (v : bool) (k : kern S) : kern S :=
  mkkern (kn_mem k) (kn_pipes k) (kn_fs k) (kn_cons k) (kn_ticks k) v (kn_shift k).
Definition set_kn_shift {S} (v : Z) (k : kern S) : kern S :=
  mkkern (kn_mem k) (kn_pipes k) (kn_fs k) (kn_cons k) (kn_ticks k) (kn_tickslock k) v.

(** A function of one component, on the part of the state it works on. *)
Definition on_part {K P A} (part : K → P) (put : P → K → K) (m : M P A) : M K A := λ s,
  match m (part s) with
  | Ret a x => Ret a (put x s)
  | Panic msg => Panic msg
  | Fault => Fault
  | Asleep c x => Asleep c (put x s)
  end.

Section kernel.
Context {S : Type} `{!BlockStore S, !Transactions S}.
(** [end] and [data] of the linker script, the initial program, and devsw. *)
Context (kend kdata : Z) (initcode : list Z).
Context (dev_read : Z → option (nat → Z → M (fsstate S) (Z * list Z))).
Context (dev_write : Z → option (nat → list Z → Z → M (fsstate S) Z)).
Abbreviation NM := (M (kern S)).

Definition on_mem {A} (m : M memory A) : NM A := on_part kn_mem set_kn_mem m.
Definition on_fs {A} (m : M (fsstate S) A) : NM A := on_part kn_fs set_kn_fs m.
Definition on_cons {A} (m : M console A) : NM A := on_part kn_cons set_kn_cons m.
Definition on_log {A} (m : M S A) : NM A := on_fs (on_store m).
Definition set_pipes (f : gmap Z pipe → gmap Z pipe) : NM unit :=
  modify (λ s, set_kn_pipes (f (kn_pipes s)) s).
(** An operation on the pipe at the address [p]. *)
Definition on_pipe {A} (p : Z) (m : M pipe A) : NM A := λ s,
  match kn_pipes s !! p with
  | None => Fault
  | Some x => on_part (λ _, x) (λ y s, set_kn_pipes (<[p := y]> (kn_pipes s)) s) m s
  end.

(** The page of a new pipe, its bytes as they are. *)
Definition newpipe : NM Z :=
  p ← on_mem kalloc;
  if p =? 0 then mret 0 else
  m ← gets (λ s, mm_bytes (kn_mem s));
  set_pipes (<[p := new_pipe ((λ i, m (p + Z.of_nat i)) <$> seq 0 (Z.to_nat PIPESIZE))]>);;
  mret p.

(** [pipeclose], with the [kfree] that ends it. *)
Definition close_pipe (p : Z) (writable : bool) : NM unit :=
  dead ← on_pipe p (pipeclose (Z.to_nat p) writable);
  if (dead : bool) then
    set_pipes (delete p);;
    on_mem (kfree kend p)
  else mret tt.

Definition read_pipe (killed : bool) (p n : Z) : NM (Z * list Z) :=
  r ← on_pipe p (piperead (Z.to_nat p) killed n);
  match r with
  | Finished None => mret (-1, [])
  | Finished (Some bytes) => mret (Z.of_nat (length bytes), bytes)
  | Blocked c _ => go_to_sleep c
  end.
Definition write_pipe (killed : bool) (p : Z) (src : list Z) (n : Z) : NM Z :=
  r ← on_pipe p (pipewrite (Z.to_nat p) killed n (take (Z.to_nat n) src));
  match r with Finished v => mret v | Blocked c _ => go_to_sleep c end.

#[export] Instance kern_files : FileEnv (kern S) := {|
  fe_begin_op := on_log s_begin_op;
  fe_end_op := on_log s_end_op;
  fe_ilock ip := on_fs (ilock ip);
  fe_iunlock ip := on_fs (iunlock ip);
  fe_iput ip := on_fs (iput ip);
  fe_stati ip := on_fs (stati ip);
  fe_readi ip off n := on_fs (readi dev_read ip off n);
  fe_writei ip src off n := on_fs (writei dev_write ip src off n);
  fe_pipeclose := close_pipe;
  fe_piperead := read_pipe;
  fe_pipewrite := write_pipe;
  fe_newpipe := newpipe
|}.

#[export] Instance kern_proc : ProcEnv (filest (kern S)) := {|
  e_kalloc := below (on_mem kalloc);
  e_kfree v := below (on_mem (kfree kend v));
  e_setupkvm := below (on_mem (setupkvm kend kdata));
  e_inituvm pgdir := below (on_mem (inituvm pgdir initcode));
  e_allocuvm pgdir oldsz newsz := below (on_mem (allocuvm kend pgdir oldsz newsz));
  e_deallocuvm pgdir oldsz newsz := below (on_mem (deallocuvm kend pgdir oldsz newsz));
  e_copyuvm pgdir sz := below (on_mem (copyuvm kend kdata pgdir sz));
  e_freevm pgdir := below (on_mem (freevm kend pgdir));
  e_clearpteu pgdir uva := below (on_mem (clearpteu pgdir uva));
  e_copyout pgdir va buf := below (on_mem (copyout pgdir va buf));
  e_switchuvm kstack pgdir := below (on_mem (switchuvm (Some (kstack, pgdir))));
  e_switchkvm := below (on_mem switchkvm);
  e_filedup := filedup;
  e_fileclose := fileclose;
  e_idup ip := below (on_fs (idup ip));
  e_iput ip := below (on_fs (iput ip));
  e_begin_op := below (on_log s_begin_op);
  e_end_op := below (on_log s_end_op);
  e_namei_root := below (on_fs (namei dev_read [47]));
  e_fs_init := below (on_fs (iinit ROOTDEV));; below (on_log (s_initlog ROOTDEV))
|}.

(** The calls of [wakeup] that the components have made, and the state without them. *)
Definition kern_wakeups (k : kern S) : list chan :=
  mjoin (p_wakeups <$> (map_to_list (kn_pipes k)).*2) ++ fs_wakeups (kn_fs k)
  ++ s_wakeups (fs_store (kn_fs k)) ++ cn_wakeups (kn_cons k).
Definition kern_woken (k : kern S) : kern S :=
  set_kn_pipes (set_p_wakeups [] <$> kn_pipes k)
    (set_kn_cons (set_cn_wakeups [] (kn_cons k))
      (set_kn_fs (set_fs_wakeups [] (set_fs_store (s_woken (fs_store (kn_fs k))) (kn_fs k))) k)).

#[export] Instance kern_user : UserMem (filest (kern S)) := {|
  u_load pgdir va := below (on_mem (mem_load pgdir va));
  u_store pgdir va b := below (on_mem (mem_store pgdir va b))
|}.
End kernel.
