(* ===== verification/SyscallThms.v ===== *)
(** * Arguments of system calls: the checks are tight

    For a process whose memory below its size is mapped, the argument functions
    neither fault nor let a bad pointer through, and refuse nothing else. *)
From S2P Require Import Prelude Params ProcState Sched Proc SchedInv SchedPick.
From S2P Require Import SchedShare SchedThms ProcInv ProcThms Syscall.

Section args.
Context {E : Type} `{!ProcEnv E, !UserMem E}.
Implicit Types (s : pstate E) (m : Z → Z).

(** The calling process [c], its memory [m] of bytes mapped below its size. *)
Record caller s (c : proc) m : Prop := {
  ca_cpu : ∃ cur, cpu_proc (ps_k s) = Some cur ∧ ptable (ps_k s) !! cur = Some c;
  ca_size : 0 <= p_sz c <= KERNBASE;
  ca_mem a : 0 <= a < p_sz c → u_load (p_pgdir c) a (ps_env s) = Ret (m a) (ps_env s) ∧ 0 <= m a < 256
}.

Definition word m (a : Z) : Z := m a + 2 ^ 8 * m (a + 1) + 2 ^ 16 * m (a + 2) + 2 ^ 24 * m (a + 3).

(** The address of the [n]th argument, and the argument as an unsigned word. *)
Definition arg_addr (c : proc) (n : Z) : Z := u32 (tf_esp (p_tf c) + 4 + 4 * n).

Lemma curproc_run s c m : caller s c m → curproc s = Ret c s.
Proof.
  intros [(cur & Hc & Hp) _ _]. unfold curproc.
  by rewrite (bind_ret _ _ _ _ _ (myproc_run _ _ Hc)), (getp_run _ _ _ Hp).
Qed.

Lemma u_load_run s c m a : caller s c m → 0 <= a < p_sz c →
  on_env (u_load (p_pgdir c) a) s = Ret (m a) s.
Proof. intros [_ _ Hm] Ha. unfold on_env. rewrite (proj1 (Hm a Ha)). by destruct s. Qed.

Lemma word_range s c m a : caller s c m → 0 <= a → a + 4 <= p_sz c → 0 <= word m a < 2 ^ 32.
Proof.
  intros [_ _ Hm] H0 H4. unfold word.
  pose proof (proj2 (Hm a ltac:(lia))). pose proof (proj2 (Hm (a + 1) ltac:(lia))).
  pose proof (proj2 (Hm (a + 2) ltac:(lia))). pose proof (proj2 (Hm (a + 3) ltac:(lia))). lia.
Qed.

Lemma u32_s32 w : 0 <= w < 2 ^ 32 → u32 (s32 w) = w.
Proof.
  intros H. unfold u32, s32. rewrite Zminus_mod, Zmod_mod, <-Zminus_mod.
  replace (w + 2 ^ 31 - 2 ^ 31) with w by lia. by apply Z.mod_small.
Qed.

Lemma argint_run s c m n : caller s c m →
  argint n s = Ret (if arg_addr c n + 4 <=? p_sz c then Some (s32 (word m (arg_addr c n))) else None) s.
Proof.
  intros Hc. pose proof Hc as [_ Hsz _]. unfold argint.
  rewrite (bind_ret _ _ _ _ _ (curproc_run _ _ _ Hc)). fold (arg_addr c n).
  assert (0 <= arg_addr c n < 2 ^ 32) as Ha by apply u32_range. set (a := arg_addr c n) in *.
  unfold fetchint. rewrite (bind_ret _ _ _ _ _ (curproc_run _ _ _ Hc)).
  unfold KERNBASE in Hsz. destruct (Z.leb_spec (p_sz c) a) as [H1|H1]; cbn [orb].
  { destruct (Z.leb_spec (a + 4) (p_sz c)); [lia|done]. }
  rewrite u32_id by (unfold is_u32; lia). destruct (Z.ltb_spec (p_sz c) (a + 4)).
  { destruct (Z.leb_spec (a + 4) (p_sz c)); [lia|done]. }
  destruct (Z.leb_spec (a + 4) (p_sz c)); [|lia]. unfold load_int. rewrite bind_assoc.
  rewrite (bind_ret _ _ _ _ _ (u_load_run _ _ _ a Hc ltac:(lia))), bind_assoc.
  rewrite (bind_ret _ _ _ _ _ (u_load_run _ _ _ (a + 1) Hc ltac:(lia))), bind_assoc.
  rewrite (bind_ret _ _ _ _ _ (u_load_run _ _ _ (a + 2) Hc ltac:(lia))), bind_assoc.
  by rewrite (bind_ret _ _ _ _ _ (u_load_run _ _ _ (a + 3) Hc ltac:(lia))).
Qed.

(** C17: [argptr] accepts a buffer exactly when it lies in the process.  It returns the
    [n]th argument [p] iff the argument itself is on the user stack below the size of
    the process, [size] is not negative, [p] is below the size and so is the whole
    buffer: the sums do not wrap around.  It never faults and changes nothing. *)
Theorem argptr_in_process s c m n size :
  caller s c m → is_s32 size →
  ∃ r, argptr n size s = Ret r s
    ∧ ∀ p, r = Some p ↔ arg_addr c n + 4 <= p_sz c ∧ p = word m (arg_addr c n)
             ∧ 0 <= size ∧ 0 <= p < p_sz c ∧ p + size <= p_sz c.
Proof.
  intros Hc Hs. pose proof Hc as [_ Hsz _]. unfold argptr.
  rewrite (bind_ret _ _ _ _ _ (curproc_run _ _ _ Hc)), (bind_ret _ _ _ _ _ (argint_run _ _ _ n Hc)).
  assert (0 <= arg_addr c n < 2 ^ 32) as Ha by apply u32_range.
  destruct (Z.leb_spec (arg_addr c n + 4) (p_sz c)) as [Hin|Hin].
  - pose proof (word_range s c m _ Hc (proj1 Ha) Hin) as Hw. rewrite u32_s32 by done.
    set (w := word m (arg_addr c n)) in *. unfold is_s32, KERNBASE in *.
    destruct (Z.ltb_spec size 0); cbn [orb].
    { exists None. split; [done|]. intros p. split; [done|lia]. }
    destruct (Z.leb_spec (p_sz c) w); cbn [orb].
    { exists None. split; [done|]. intros p. split; [done|lia]. }
    rewrite u32_id by (unfold is_u32; lia). destruct (Z.ltb_spec (p_sz c) (w + size)).
    + exists None. split; [done|]. intros p. split; [done|lia].
    + exists (Some w). split; [done|]. intros p. split; [intros [= <-]; lia|].
      intros (_ & -> & _). done.
  - exists None. split; [done|]. intros p. split; [done|lia].
Qed.

Lemma fetchstr_loop_run s c m n a : caller s c m → 0 <= a → a + Z.of_nat n <= p_sz c →
  ∃ r, fetchstr_loop n (p_pgdir c) a s = Ret r s
    ∧ match r with
      | Some str => (Z.of_nat (length str) < Z.of_nat n) ∧ m (a + Z.of_nat (length str)) = 0
          ∧ (∀ i b, str !! i = Some b → b = m (a + Z.of_nat i) ∧ b ≠ 0)
      | None => ∀ i, 0 <= i < Z.of_nat n → m (a + i) ≠ 0
      end.
Proof.
  intros Hc. revert a. induction n as [|n IH]; intros a Ha Hn; cbn [fetchstr_loop].
  { exists None. split; [done|]. lia. }
  rewrite (bind_ret _ _ _ _ _ (u_load_run _ _ _ a Hc ltac:(lia))).
  destruct (Z.eqb_spec (m a) 0) as [Hz|Hz].
  - exists (Some []). cbn. rewrite Z.add_0_r. split_and!; try done; lia.
  - destruct (IH (a + 1)) as (r & Hr & Hpost); [lia|lia|]. rewrite (bind_ret _ _ _ _ _ Hr).
    exists (cons (m a) <$> r). split; [done|]. destruct r as [str|]; cbn.
    + destruct Hpost as (H1 & H2 & H3). split_and!; [lia| |].
      * replace (a + Z.of_nat (S (length str))) with (a + 1 + Z.of_nat (length str)) by lia. done.
      * intros [|i] b Hb; cbn in Hb; [simplify_eq; by rewrite Z.add_0_r|].
        destruct (H3 i b Hb) as [-> ?]. split; [f_equal; lia|done].
    + intros i Hi. destruct (decide (i = 0)) as [->|]; [by rewrite Z.add_0_r|].
      replace (a + i) with (a + 1 + (i - 1)) by lia. apply Hpost. lia.
Qed.

(** C33: [argstr] finds the string.  Its loop stops within the process, without a
    fault.  When it succeeds, the result is the bytes from the argument up to the
    first NUL, which is below the size of the process; it fails exactly when the
    argument is not there, points outside, or no NUL follows below the size. *)
Theorem argstr_terminated s c m n :
  caller s c m →
  let a := word m (arg_addr c n) in
  ∃ r, argstr n s = Ret r s
    ∧ match r with
      | Some str => arg_addr c n + 4 <= p_sz c ∧ a + Z.of_nat (length str) < p_sz c
          ∧ m (a + Z.of_nat (length str)) = 0
          ∧ (∀ i b, str !! i = Some b → b = m (a + Z.of_nat i) ∧ b ≠ 0)
      | None => arg_addr c n + 4 <= p_sz c → ∀ x, a <= x < p_sz c → m x ≠ 0
      end.
Proof.
  intros Hc a. pose proof Hc as [_ Hsz _]. unfold argstr.
  rewrite (bind_ret _ _ _ _ _ (argint_run _ _ _ n Hc)).
  assert (0 <= arg_addr c n < 2 ^ 32) as Ha by apply u32_range.
  destruct (Z.leb_spec (arg_addr c n + 4) (p_sz c)) as [Hin|Hin].
  - pose proof (word_range s c m _ Hc (proj1 Ha) Hin) as Hw. rewrite u32_s32 by done. fold a in Hw |- *.
    unfold fetchstr. rewrite (bind_ret _ _ _ _ _ (curproc_run _ _ _ Hc)).
    destruct (Z.leb_spec (p_sz c) a); [exists None; split; [done|lia]|].
    destruct (fetchstr_loop_run s c m (Z.to_nat (p_sz c - a)) a Hc) as (r & Hr & Hpost); [lia|lia|].
    exists r. split; [done|]. destruct r as [str|].
    + destruct Hpost as (H1 & H2 & H3). split_and!; try done. lia.
    + intros _ x Hx. replace x with (a + (x - a)) by lia. apply Hpost. lia.
  - exists None. split; [done|]. lia.
Qed.
End args.

(** A process of one page: the first argument, at 4004, is the address 100 of the
    string 'sh'. *)
Definition user_page (a : Z) : Z := if a =? 4004 then 100 else if a =? 100 then 115 else if a =? 101 then 104 else 0.
#[export] Instance page_user : UserMem Z := {|
  u_load _ a := mret (user_page a);
  u_store _ _ _ := mret tt
|}.
Definition user_proc : proc := set_p_tf (mktf 0 0 4000 0 0 0 0 0) first_proc.

Lemma user_caller : caller (first_state user_proc) user_proc user_page.
Proof.
  split.
  - exists 0%nat. done.
  - cbn. unfold PGSIZE, KERNBASE. lia.
  - intros a Ha. split; [done|]. unfold user_page. repeat case_match; lia.
Qed.

Lemma argptr_in_process_witness : argptr 0 16 (first_state user_proc) = Ret (Some 100) (first_state user_proc).
Proof.
  destruct (argptr_in_process (first_state user_proc) user_proc user_page 0 16 user_caller) as (r & Hr & Hp).
  - unfold is_s32. lia.
  - rewrite Hr. f_equal. apply Hp. vm_compute. repeat split; discriminate.
Defined.

Lemma argstr_terminated_witness : ∃ r, argstr 0 (first_state user_proc) = Ret r (first_state user_proc) ∧ r ≠ None.
Proof.
  destruct (argstr_terminated (first_state user_proc) user_proc user_page 0 user_caller) as (r & Hr & Hp).
  exists r. split; [exact Hr|]. intros ->. refine (Hp _ 102 _ _); vm_compute; repeat split; discriminate.
Defined.
