(* ===== verification/Sysfile.v ===== *)
(** * File system calls (sysfile.c)

    The bodies that work on inodes and paths run in the file system monad; the system
    calls fetch and check their arguments, run a body as the calling process, and move
    the bytes of user memory.  A string argument is the list of its characters. *)
From S2P Require Import Prelude Params ProcState Sched Proc Block Bio BioInv Log Store Str Fs.
From S2P Require Import Kalloc Vm Pipe File Syscall Kernel.

(** fcntl.h *)
Definition O_RDONLY : Z := 0.
Definition O_WRONLY : Z := 1.
Definition O_RDWR : Z := 2.
Definition O_CREATE : Z := 512.

(** The names of the two special entries. *)
Definition dot : list Z := [46].
Definition dotdot : list Z := [46; 46].

(** ** Inodes and paths *)
Section bodies.
Context {S : Type} `{!BlockStore S, !Transactions S}.
Context (dev_read : Z → option (nat → Z → M (fsstate S) (Z * list Z))).
Context (dev_write : Z → option (nat → list Z → Z → M (fsstate S) Z)).
Abbreviation FM := (M (fsstate S)).

Definition fs_begin_op : FM unit := on_store s_begin_op.
Definition fs_end_op : FM unit := on_store s_end_op.

(** [bad: ilock(ip); ip->nlink--; iupdate(ip); iunlockput(ip); end_op(); return -1] *)
Definition link_bad (ip : nat) : FM Z :=
  ilock ip;;
  updi ip (λ i, set_i_nlink (s16 (i_nlink i - 1)) i);;
  iupdate ip;;
  iunlockput ip;;
  fs_end_op;;
  mret (-1).

Definition link_paths (old new : list Z) : FM Z :=
  fs_begin_op;;
  r ← namei dev_read old;
  match r with
  | None => fs_end_op;; mret (-1)
  | Some ip =>
      ilock ip;;
      i ← geti ip;
      if i_type i =? T_DIR then iunlockput ip;; fs_end_op;; mret (-1) else
      updi ip (λ i, set_i_nlink (s16 (i_nlink i + 1)) i);;
      iupdate ip;;
      iunlock ip;;
      p ← nameiparent dev_read new;
      match p with
      | None => link_bad ip
      | Some (dp, name) =>
          ilock dp;;
          d ← geti dp;
          i ← geti ip;
          r ← (if negb (i_dev d =? i_dev i) then mret (-1)
               else dirlink dev_read dev_write dp name (i_inum i));
          if r <? 0 then iunlockput dp;; link_bad ip else
          iunlockput dp;;
          iput ip;;
          fs_end_op;;
          mret 0
      end
  end.

(** [for(off=2*sizeof(de); off<dp->size; off+=sizeof(de))] *)
Fixpoint isdirempty_scan (dp : nat) (offs : list Z) : FM bool :=
  match offs with
  | [] => mret true
  | off :: offs' =>
      '(r, de) ← readi dev_read dp off sizeof_dirent;
      if negb (r =? sizeof_dirent) then panic "isdirempty: readi" else
      if negb (de_inum de =? 0) then mret false else isdirempty_scan dp offs'
  end.
Definition isdirempty (dp : nat) : FM bool :=
  i ← geti dp;
  isdirempty_scan dp (drop 2 (dir_offsets (i_size i))).

Definition unlink_path (path : list Z) : FM Z :=
  fs_begin_op;;
  p ← nameiparent dev_read path;
  match p with
  | None => fs_end_op;; mret (-1)
  | Some (dp, name) =>
      ilock dp;;
      let bad := iunlockput dp;; fs_end_op;; mret (-1) in
      if (namecmp name dot =? 0) || (namecmp name dotdot =? 0) then bad else
      found ← dirlookup dev_read dp name;
      match found with
      | None => bad
      | Some (ip, off) =>
          ilock ip;;
          i ← geti ip;
          if i_nlink i <? 1 then panic "unlink: nlink < 1" else
          full ← (if i_type i =? T_DIR then e ← isdirempty ip; mret (negb e) else mret false);
          if (full : bool) then iunlockput ip;; bad else
          r ← writei dev_write dp (replicate (Z.to_nat sizeof_dirent) 0) off sizeof_dirent;
          if negb (r =? sizeof_dirent) then panic "unlink: writei" else
          (if i_type i =? T_DIR then
             updi dp (λ d, set_i_nlink (s16 (i_nlink d - 1)) d);;
             iupdate dp
           else mret tt);;
          iunlockput dp;;
          updi ip (λ i, set_i_nlink (s16 (i_nlink i - 1)) i);;
          iupdate ip;;
          iunlockput ip;;
          fs_end_op;;
          mret 0
      end
  end.

(** The new inode, locked; [None] is a null result. *)
Definition create (path : list Z) (type major minor : Z) : FM (option nat) :=
  p ← nameiparent dev_read path;
  match p with
  | None => mret None
  | Some (dp, name) =>
      ilock dp;;
      found ← dirlookup dev_read dp name;
      match found with
      | Some (ip, _) =>
          iunlockput dp;;
          ilock ip;;
          i ← geti ip;
          if (type =? T_FILE) && (i_type i =? T_FILE) then mret (Some ip) else
          iunlockput ip;;
          mret None
      | None =>
          d ← geti dp;
          ip ← ialloc (i_dev d) type;
          ilock ip;;
          updi ip (set_i_major (s16 major));;
          updi ip (set_i_minor (s16 minor));;
          updi ip (set_i_nlink 1);;
          iupdate ip;;
          i ← geti ip;
          (if type =? T_DIR then
             updi dp (λ d, set_i_nlink (s16 (i_nlink d + 1)) d);;
             iupdate dp;;
             r ← dirlink dev_read dev_write ip dot (i_inum i);
             if r <? 0 then panic "create dots" else
             d ← geti dp;
             r ← dirlink dev_read dev_write ip dotdot (i_inum d);
             if r <? 0 then panic "create dots" else mret tt
           else mret tt);;
          r ← dirlink dev_read dev_write dp name (i_inum i);
          if r <? 0 then panic "create: dirlink" else
          iunlockput dp;;
          mret (Some ip)
      end
  end.

(** The body of [sys_mkdir] and of [sys_mknod]. *)
Definition create_close (path : list Z) (type major minor : Z) : FM Z :=
  r ← create path type major minor;
  match r with
  | None => fs_end_op;; mret (-1)
  | Some ip => iunlockput ip;; fs_end_op;; mret 0
  end.

(** The part of [sys_open] that finds the inode, which is then locked. *)
Definition open_inode (path : list Z) (omode : Z) : FM (option nat) :=
  if negb (Z.land omode O_CREATE =? 0) then
    r ← create path T_FILE 0 0;
    match r with
    | None => fs_end_op;; mret None
    | Some ip => mret (Some ip)
    end
  else
    r ← namei dev_read path;
    match r with
    | None => fs_end_op;; mret None
    | Some ip =>
        ilock ip;;
        i ← geti ip;
        if (i_type i =? T_DIR) && negb (omode =? O_RDONLY) then
          iunlockput ip;; fs_end_op;; mret None
        else mret (Some ip)
    end.

(** The part of [sys_chdir] after its arguments: the new directory. *)
Definition chdir_inode (path : list Z) (cwd : option nat) : FM (option nat) :=
  r ← namei dev_read path;
  match r with
  | None => fs_end_op;; mret None
  | Some ip =>
      ilock ip;;
      i ← geti ip;
      if negb (i_type i =? T_DIR) then iunlockput ip;; fs_end_op;; mret None else
      iunlock ip;;
      old ← deref cwd;
      iput old;;
      fs_end_op;;
      mret (Some ip)
  end.
End bodies.

(** ** The system calls *)
Section calls.
Context {S : Type} `{!BlockStore S, !Transactions S}.
Context (kend : Z).
Context (dev_read : Z → option (nat → Z → M (fsstate S) (Z * list Z))).
Context (dev_write : Z → option (nat → list Z → Z → M (fsstate S) Z)).
Context `{!FileEnv (kern S)}.
Abbreviation PM := (M (pstate (filest (kern S)))).

(** A body as the calling process: the file system sees its pid and its directory. *)
Definition as_caller (c : proc) (f : fsstate S) : fsstate S :=
  mkfs (s_caller (p_pid c) (fs_store f)) (fs_sb f) (fs_icache f) (fs_icache_lock f) (p_pid c)
    (default NINODE (p_cwd c)) (fs_wakeups f).
Definition fs_call {A} (m : M (fsstate S) A) : PM A :=
  c ← curproc;
  on_env (below (on_fs (modify (as_caller c))));;
  on_env (below (on_fs m)).
Definition file_call {A} (m : M (filest (kern S)) A) : PM A :=
  c ← curproc;
  on_env (below (on_fs (modify (as_caller c))));;
  on_env m.

(** Bytes from and to user memory. *)
Fixpoint load_user (pgdir a : Z) (n : nat) : PM (list Z) :=
  match n with
  | O => mret []
  | Datatypes.S n' =>
      b ← on_env (u_load pgdir a);
      r ← load_user pgdir (a + 1) n';
      mret (b :: r)
  end.
Fixpoint store_user (pgdir a : Z) (bytes : list Z) : PM unit :=
  match bytes with
  | [] => mret tt
  | b :: bytes' =>
      on_env (u_store pgdir a b);;
      store_user pgdir (a + 1) bytes'
  end.

(** The descriptor and the file. *)
Definition argfd (n : Z) : PM (option (Z * nat)) :=
  r ← argint n;
  match r with
  | None => mret None
  | Some fd =>
      if (fd <? 0) || (Z.of_nat NOFILE <=? fd) then mret None else
      c ← curproc;
      f ← deref (p_ofile c !! Z.to_nat fd);
      mret (match f with None => None | Some f => Some (fd, f) end)
  end.

Definition set_fd (fd : nat) (f : option nat) : PM unit :=
  cur ← myproc;
  updp cur (λ c, set_p_ofile (<[fd := f]> (p_ofile c)) c).

Definition fdalloc (f : nat) : PM Z :=
  c ← curproc;
  match list_find (λ o, o = None) (take NOFILE (p_ofile c)) with
  | Some (fd, _) => set_fd fd (Some f);; mret (Z.of_nat fd)
  | None => mret (-1)
  end.

Definition sys_dup : PM Z :=
  r ← argfd 0;
  match r with
  | None => mret (-1)
  | Some (_, f) =>
      fd ← fdalloc f;
      if fd <? 0 then mret (-1) else
      on_env (filedup f);;
      mret fd
  end.

(** [argfd(0), argint(2), argptr(1)] of the four transfers: file, count, pointer. *)
Definition arg_transfer : PM (option (nat * Z * Z)) :=
  f ← argfd 0;
  match f with
  | None => mret None
  | Some (_, f) =>
      n ← argint 2;
      match n with
      | None => mret None
      | Some n =>
          p ← argptr 1 n;
          mret (match p with None => None | Some p => Some (f, n, p) end)
      end
  end.

Definition sys_read : PM Z :=
  a ← arg_transfer;
  match a with
  | None => mret (-1)
  | Some (f, n, p) =>
      c ← curproc;
      '(r, bytes) ← file_call (fileread (negb (p_killed c =? 0)) f n);
      store_user (p_pgdir c) p bytes;;
      mret r
  end.

Definition sys_pread : PM Z :=
  a ← arg_transfer;
  match a with
  | None => mret (-1)
  | Some (f, n, p) =>
      off ← argint 3;
      match off with
      | None => mret (-1)
      | Some off =>
          c ← curproc;
          '(r, bytes) ← file_call (filepread (negb (p_killed c =? 0)) f n off);
          store_user (p_pgdir c) p bytes;;
          mret r
      end
  end.

Definition sys_write : PM Z :=
  a ← arg_transfer;
  match a with
  | None => mret (-1)
  | Some (f, n, p) =>
      c ← curproc;
      src ← load_user (p_pgdir c) p (Z.to_nat n);
      file_call (filewrite (negb (p_killed c =? 0)) f src n)
  end.

Definition sys_pwrite : PM Z :=
  a ← arg_transfer;
  match a with
  | None => mret (-1)
  | Some (f, n, p) =>
      off ← argint 3;
      match off with
      | None => mret (-1)
      | Some off =>
          c ← curproc;
          src ← load_user (p_pgdir c) p (Z.to_nat n);
          file_call (filepwrite (negb (p_killed c =? 0)) f src n off)
      end
  end.

Definition sys_close : PM Z :=
  r ← argfd 0;
  match r with
  | None => mret (-1)
  | Some (fd, f) =>
      set_fd (Z.to_nat fd) None;;
      file_call (fileclose f);;
      mret 0
  end.

(** [struct stat]: two shorts at 0 and 12, three words at 4, 8 and 16; the padding is
    not written. *)
Definition half_bytes (v : Z) : list Z := [v mod 2 ^ 8; (v / 2 ^ 8) mod 2 ^ 8].
Definition store_stat (pgdir a : Z) (st : stat) : PM unit :=
  store_user pgdir a (half_bytes (stat_type st));;
  store_user pgdir (a + 4) (word_bytes (stat_dev st));;
  store_user pgdir (a + 8) (word_bytes (stat_ino st));;
  store_user pgdir (a + 12) (half_bytes (stat_nlink st));;
  store_user pgdir (a + 16) (word_bytes (stat_size st)).

Definition sys_fstat : PM Z :=
  f ← argfd 0;
  match f with
  | None => mret (-1)
  | Some (_, f) =>
      p ← argptr 1 20;
      match p with
      | None => mret (-1)
      | Some p =>
          c ← curproc;
          '(r, st) ← file_call (filestat f);
          match st with Some st => store_stat (p_pgdir c) p st | None => mret tt end;;
          mret r
      end
  end.

Definition sys_link : PM Z :=
  old ← argstr 0;
  match old with
  | None => mret (-1)
  | Some old =>
      new ← argstr 1;
      match new with
      | None => mret (-1)
      | Some new => fs_call (link_paths dev_read dev_write old new)
      end
  end.

Definition sys_unlink : PM Z :=
  path ← argstr 0;
  match path with
  | None => mret (-1)
  | Some path => fs_call (unlink_path dev_read dev_write path)
  end.

(** The end of [sys_open]. *)
Definition open_file (f ip : nat) (omode : Z) : M (filest (kern S)) unit :=
  updf f (set_f_type FD_INODE);;
  updf f (set_f_ip ip);;
  updf f (set_f_off 0);;
  updf f (set_f_readable (Z.land omode O_WRONLY =? 0));;
  updf f (set_f_writable (negb (Z.land omode O_WRONLY =? 0) || negb (Z.land omode O_RDWR =? 0))).

Definition sys_open : PM Z :=
  path ← argstr 0;
  match path with
  | None => mret (-1)
  | Some path =>
      m ← argint 1;
      match m with
      | None => mret (-1)
      | Some omode =>
          fs_call fs_begin_op;;
          r ← fs_call (open_inode dev_read dev_write path omode);
          match r with
          | None => mret (-1)
          | Some ip =>
              let bad := fs_call (iunlockput ip);; fs_call fs_end_op;; mret (-1) in
              f ← on_env filealloc;
              match f with
              | None => bad
              | Some f =>
                  fd ← fdalloc f;
                  if fd <? 0 then file_call (fileclose f);; bad else
                  fs_call (iunlock ip);;
                  fs_call fs_end_op;;
                  on_env (open_file f ip omode);;
                  mret fd
              end
          end
      end
  end.

Definition sys_mkdir : PM Z :=
  fs_call fs_begin_op;;
  path ← argstr 0;
  match path with
  | None => fs_call fs_end_op;; mret (-1)
  | Some path => fs_call (create_close dev_read dev_write path T_DIR 0 0)
  end.

Definition sys_mknod : PM Z :=
  fs_call fs_begin_op;;
  let bad := fs_call fs_end_op;; mret (-1) in
  path ← argstr 0;
  match path with
  | None => bad
  | Some path =>
      major ← argint 1;
      match major with
      | None => bad
      | Some major =>
          minor ← argint 2;
          match minor with
          | None => bad
          | Some minor => fs_call (create_close dev_read dev_write path T_DEV (s16 major) (s16 minor))
          end
      end
  end.

Definition sys_chdir : PM Z :=
  cur ← myproc;
  c ← getp cur;
  fs_call fs_begin_op;;
  path ← argstr 0;
  match path with
  | None => fs_call fs_end_op;; mret (-1)
  | Some path =>
      r ← fs_call (chdir_inode dev_read path (p_cwd c));
      match r with
      | None => mret (-1)
      | Some ip => updp cur (set_p_cwd (Some ip));; mret 0
      end
  end.

Definition sys_pipe : PM Z :=
  p ← argptr 0 8;
  match p with
  | None => mret (-1)
  | Some p =>
      r ← file_call pipealloc;
      match r with
      | None => mret (-1)
      | Some (rf, wf) =>
          let bad := file_call (fileclose rf);; file_call (fileclose wf);; mret (-1) in
          fd0 ← fdalloc rf;
          if fd0 <? 0 then bad else
          fd1 ← fdalloc wf;
          if fd1 <? 0 then set_fd (Z.to_nat fd0) None;; bad else
          c ← curproc;
          store_user (p_pgdir c) p (word_bytes fd0);;
          store_user (p_pgdir c) (p + 4) (word_bytes fd1);;
          mret 0
      end
  end.
End calls.
