(* ===== verification/Exec.v ===== *)
(** * Running a program (exec.c, and loaduvm of vm.c)

    [exec] over the interface [ExecEnv], which adds to [ProcEnv] the operations on the
    inode of the program; [loaduvm] and the instance are over the kernel of [Kernel].
    The ELF headers are decoded from the bytes that [readi] returns. *)
From S2P Require Import Prelude Params ProcState Sched Proc Block Bio BioInv Log Store Str Fs.
From S2P Require Import Kalloc Vm Pipe File Syscall Kernel Sysfile.

Class ExecEnv (E : Type) := {
  x_namei : list Z → M E (option nat);
  x_ilock : nat → M E unit;
  x_iunlockput : nat → M E unit;
  x_readi : nat → Z → Z → M E (Z * list Z);
  x_loaduvm : Z → Z → nat → Z → Z → M E Z;
}.

(** elf.h: the magic number, the sizes of the two headers and the fields [exec] reads *)
Definition ELF_MAGIC : Z := 1179403647.
Definition ELF_PROG_LOAD : Z := 1.
Definition sizeof_elfhdr : Z := 52.
Definition sizeof_proghdr : Z := 32.
Definition elf_magic (h : list Z) : Z := get_word h 0.
Definition elf_entry (h : list Z) : Z := get_word h 6.
Definition elf_phoff (h : list Z) : Z := get_word h 7.
Definition elf_phnum (h : list Z) : Z := get_half h 22.
Definition ph_type (h : list Z) : Z := get_word h 0.
Definition ph_off (h : list Z) : Z := get_word h 1.
Definition ph_vaddr (h : list Z) : Z := get_word h 2.
Definition ph_filesz (h : list Z) : Z := get_word h 4.
Definition ph_memsz (h : list Z) : Z := get_word h 5.

Section exec.
Context {E : Type} `{!ProcEnv E, !ExecEnv E}.
Abbreviation PM := (M (pstate E)).

(** The loop over the program headers; [n] headers are left, the first at [off].  The
    result is the size reached, [None] for the jump to [bad]. *)
Fixpoint load_segments (n : nat) (ip : nat) (pgdir off sz : Z) : PM (option Z) :=
  match n with
  | O => mret (Some sz)
  | S n' =>
      '(r, ph) ← on_env (x_readi ip (u32 off) sizeof_proghdr);
      if negb (r =? sizeof_proghdr) then mret None else
      if negb (ph_type ph =? ELF_PROG_LOAD)
      then load_segments n' ip pgdir (s32 (off + sizeof_proghdr)) sz else
      if ph_memsz ph <? ph_filesz ph then mret None else
      if u32 (ph_vaddr ph + ph_memsz ph) <? ph_vaddr ph then mret None else
      sz ← on_env (e_allocuvm pgdir sz (u32 (ph_vaddr ph + ph_memsz ph)));
      if sz =? 0 then mret None else
      if negb (ph_vaddr ph mod PGSIZE =? 0) then mret None else
      r ← on_env (x_loaduvm pgdir (ph_vaddr ph) ip (ph_off ph) (ph_filesz ph));
      if r <? 0 then mret None else
      load_segments n' ip pgdir (s32 (off + sizeof_proghdr)) sz
  end.

(** The loop that pushes the argument strings: the stack pointer and the addresses of
    the strings. *)
Fixpoint push_args (argv : list (list Z)) (argc : Z) (pgdir sp : Z) : PM (option (Z * list Z)) :=
  match argv with
  | [] => mret (Some (sp, []))
  | a :: argv' =>
      if MAXARG <=? argc then mret None else
      let sp := Z.land (u32 (sp - (Z.of_nat (length a) + 1))) (Z.lnot 3) in
      r ← on_env (e_copyout pgdir sp (a ++ [0]));
      if r <? 0 then mret None else
      r ← push_args argv' (argc + 1) pgdir sp;
      mret (match r with None => None | Some (sp', ptrs) => Some (sp', sp :: ptrs) end)
  end.

(** The words below the strings: fake return address, argc, argv, the pointers. *)
Definition ustack (argc sp : Z) (ptrs : list Z) : list Z :=
  [4294967295; argc; u32 (sp - (argc + 1) * 4)] ++ ptrs ++ [0].

(** The last element of the path. *)
Fixpoint last_elem (path last : list Z) : list Z :=
  match path with
  | [] => last
  | c :: path' => last_elem path' (if c =? 47 then path' else last)
  end.

(** [bad], after the program file has been closed. *)
Definition exec_bad (pgdir : Z) : PM Z :=
  (if negb (pgdir =? 0) then on_env (e_freevm pgdir) else mret tt);;
  mret (-1).
(** [bad], with the file still open. *)
Definition exec_bad_open (pgdir : Z) (ip : nat) : PM Z :=
  (if negb (pgdir =? 0) then on_env (e_freevm pgdir) else mret tt);;
  on_env (x_iunlockput ip);;
  on_env e_end_op;;
  mret (-1).

(** From the new image to the return. *)
Definition exec_commit (cur : nat) (path : list Z) (pgdir sz sp entry : Z) : PM Z :=
  updp cur (λ c, set_p_name (copy_name (p_name c) (last_elem path path)) c);;
  c ← getp cur;
  updp cur (set_p_pgdir pgdir);;
  updp cur (set_p_sz sz);;
  updp cur (λ c, set_p_tf (set_tf_eip entry (p_tf c)) c);;
  updp cur (λ c, set_p_tf (set_tf_esp sp (p_tf c)) c);;
  on_env (e_switchuvm (p_kstack c) pgdir);;
  on_env (e_freevm (p_pgdir c));;
  mret 0.

(** From the loaded program: the stack and the arguments. *)
Definition exec_stack (cur : nat) (path : list Z) (argv : list (list Z)) (pgdir sz entry : Z) : PM Z :=
  let sz := PGROUNDUP sz in
  sz ← on_env (e_allocuvm pgdir sz (u32 (sz + 2 * PGSIZE)));
  if sz =? 0 then exec_bad pgdir else
  on_env (e_clearpteu pgdir (u32 (sz - 2 * PGSIZE)));;
  r ← push_args argv 0 pgdir sz;
  match r with
  | None => exec_bad pgdir
  | Some (sp, ptrs) =>
      let argc := Z.of_nat (length argv) in
      let words := ustack argc sp ptrs in
      let sp := u32 (sp - (3 + argc + 1) * 4) in
      r ← on_env (e_copyout pgdir sp (mjoin (word_bytes <$> words)));
      if r <? 0 then exec_bad pgdir else
      exec_commit cur path pgdir sz sp entry
  end.

Definition exec (path : list Z) (argv : list (list Z)) : PM Z :=
  cur ← myproc;
  on_env e_begin_op;;
  r ← on_env (x_namei path);
  match r with
  | None => on_env e_end_op;; mret (-1)
  | Some ip =>
      on_env (x_ilock ip);;
      '(r, elf) ← on_env (x_readi ip 0 sizeof_elfhdr);
      if negb (r =? sizeof_elfhdr) then exec_bad_open 0 ip else
      if negb (elf_magic elf =? ELF_MAGIC) then exec_bad_open 0 ip else
      pgdir ← on_env e_setupkvm;
      if pgdir =? 0 then exec_bad_open 0 ip else
      r ← load_segments (Z.to_nat (elf_phnum elf)) ip pgdir (s32 (elf_phoff elf)) 0;
      match r with
      | None => exec_bad_open pgdir ip
      | Some sz =>
          on_env (x_iunlockput ip);;
          on_env e_end_op;;
          exec_stack cur path argv pgdir sz (elf_entry elf)
      end
  end.
End exec.

(** ** loaduvm, and the program's inode in the kernel *)
Section loaduvm.
Context {S : Type} `{!BlockStore S, !Transactions S}.
Context (dev_read : Z → option (nat → Z → M (fsstate S) (Z * list Z))).

(** The loop of [loaduvm]; [i] grows by a page a turn. *)
Fixpoint loaduvm_loop (fuel : nat) (pgdir addr : Z) (ip : nat) (offset i sz : Z) : M (kern S) Z :=
  if i <? sz then
    match fuel with
    | O => fault
    | Datatypes.S fuel' =>
        pte ← on_mem (walkpgdir pgdir (u32 (addr + i)) false);
        if pte =? 0 then panic "loaduvm: address should exist" else
        e ← on_mem (ldw pte);
        let pa := PTE_ADDR e in
        let n := if sz - i <? PGSIZE then sz - i else PGSIZE in
        '(r, bytes) ← on_fs (readi dev_read ip (u32 (offset + i)) n);
        on_mem (on_bytes (λ m, store_bytes m (P2V pa) bytes));;
        if negb (r =? n) then mret (-1) else
        loaduvm_loop fuel' pgdir addr ip offset (i + PGSIZE) sz
    end
  else mret 0.

Definition loaduvm (pgdir addr : Z) (ip : nat) (offset sz : Z) : M (kern S) Z :=
  if negb (addr mod PGSIZE =? 0) then panic "loaduvm: addr must be page aligned" else
  loaduvm_loop (Z.to_nat (sz / PGSIZE + 1)) pgdir addr ip offset 0 sz.

#[export] Instance kern_exec : ExecEnv (filest (kern S)) := {|
  x_namei path := below (on_fs (namei dev_read path));
  x_ilock ip := below (on_fs (ilock ip));
  x_iunlockput ip := below (on_fs (iunlockput ip));
  x_readi ip off n := below (on_fs (readi dev_read ip off n));
  x_loaduvm pgdir addr ip offset sz := below (loaduvm pgdir addr ip offset sz)
|}.
End loaduvm.

(** *** The system call *)
Section sys_exec.
Context {E : Type} `{!ProcEnv E, !ExecEnv E, !UserMem E}.
Abbreviation PM := (M (pstate E)).

(** The loop over [uargv]: [n] entries of [argv] are left. *)
Fixpoint fetch_args (n : nat) (a : Z) : PM (option (list (list Z))) :=
  match n with
  | O => mret None
  | S n' =>
      uarg ← fetchint a;
      match uarg with
      | None => mret None
      | Some uarg =>
          if uarg =? 0 then mret (Some []) else
          str ← fetchstr (u32 uarg);
          match str with
          | None => mret None
          | Some str =>
              r ← fetch_args n' (u32 (a + 4));
              mret (cons str <$> r)
          end
      end
  end.

Definition sys_exec : PM Z :=
  path ← argstr 0;
  match path with
  | None => mret (-1)
  | Some path =>
      u ← argint 1;
      match u with
      | None => mret (-1)
      | Some uargv =>
          argv ← fetch_args (Z.to_nat MAXARG) (u32 uargv);
          match argv with
          | None => mret (-1)
          | Some argv => exec path argv
          end
      end
  end.
End sys_exec.
