(* ===== verification/ExecThms.v ===== *)
(** * exec replaces the image of a process, or leaves everything as it was

    The theorem is over any environment: it says which operations of the environment
    [exec] calls, in which order, with which arguments and results, and what it makes
    of the process table. *)
From S2P Require Import Prelude Params ProcState Sched SchedInv SchedPick SchedShare SchedThms.
From S2P Require Import Proc ProcInv ProcThms Block Bio BioInv Log Store Str Fs.
From S2P Require Import Kalloc Vm Pipe File Syscall Kernel Sysfile Exec.

(** ** Calls of the environment *)

(** A call that returned, with its arguments and its result. *)
Inductive event :=
| EvBegin
| EvEnd
| EvNamei (path : list Z) (r : option nat)
| EvIlock (ip : nat)
| EvIunlockput (ip : nat)
| EvReadi (ip : nat) (off n : Z) (r : Z * list Z)
| EvSetupkvm (r : Z)
| EvFreevm (d : Z)
| EvAllocuvm (d oldsz newsz r : Z)
| EvLoaduvm (d va : Z) (ip : nat) (off n r : Z)
| EvClearpteu (d va : Z)
| EvCopyout (d va : Z) (bytes : list Z) (r : Z)
| EvSwitchuvm (kstack d : Z).

(** What a sequence of calls holds at its end: page directories that were made and not
    freed, open operations of the log, references to inodes. *)
Record holdings := mkholdings { dirs : gset Z; open_ops : Z; inode_refs : Z }.
Definition nothing : holdings := mkholdings ∅ 0 0.

Definition account (h : holdings) (ev : event) : holdings :=
  match ev with
  | EvBegin => mkholdings (dirs h) (open_ops h + 1) (inode_refs h)
  | EvEnd => mkholdings (dirs h) (open_ops h - 1) (inode_refs h)
  | EvNamei _ (Some _) => mkholdings (dirs h) (open_ops h) (inode_refs h + 1)
  | EvIunlockput _ => mkholdings (dirs h) (open_ops h) (inode_refs h - 1)
  | EvSetupkvm r => if r =? 0 then h else mkholdings ({[r]} ∪ dirs h) (open_ops h) (inode_refs h)
  | EvFreevm d => mkholdings (dirs h ∖ {[d]}) (open_ops h) (inode_refs h)
  | _ => h
  end.
Definition balance (l : list event) : holdings := foldl account nothing l.

(** The call is about no directory but [d], and does not switch to one. *)
Definition on_dir (d : Z) (ev : event) : Prop :=
  match ev with
  | EvSetupkvm d' | EvFreevm d' | EvAllocuvm d' _ _ _ | EvLoaduvm d' _ _ _ _ _
  | EvClearpteu d' _ | EvCopyout d' _ _ _ => d' = d
  | EvSwitchuvm _ _ => False
  | _ => True
  end.

(** Every directory the calls are about was made by one of them. *)
Definition own_dirs (l : list event) : Prop :=
  Forall (λ ev, match ev with
    | EvFreevm d | EvAllocuvm d _ _ _ | EvLoaduvm d _ _ _ _ _
    | EvClearpteu d _ | EvCopyout d _ _ _ => EvSetupkvm d ∈ l
    | EvSwitchuvm _ _ => False
    | _ => True
    end) l.

Lemma on_dir_own d l : Forall (on_dir d) l → EvSetupkvm d ∈ l → own_dirs l.
Proof. intros H Hd. eapply Forall_impl; [exact H|]. intros []; cbn; by intros ?; subst. Qed.

(** A call that fills the directory [d]. *)
Definition fills (d : Z) (ev : event) : Prop :=
  match ev with
  | EvReadi _ _ _ _ => True
  | EvAllocuvm d' _ _ _ | EvLoaduvm d' _ _ _ _ _ | EvClearpteu d' _ | EvCopyout d' _ _ _ => d' = d
  | _ => False
  end.

Lemma fills_balance d l h : Forall (fills d) l → foldl account h l = h.
Proof. intros H. revert h. induction H as [|[] l Hf _ IH]; intros h; cbn; try apply IH; done. Qed.

Lemma fills_on_dir d l : Forall (fills d) l → Forall (on_dir d) l.
Proof. intros H. eapply Forall_impl; [exact H|]. by intros []. Qed.

(** ** The image that is built *)

(** The calls for [n] program headers, the first at [off], that take an image of [sz]
    bytes to one of [sz'] bytes: every header is read, and every segment to be loaded
    gets its memory and its bytes of the file. *)
Inductive segments (ip : nat) (d : Z) : nat → Z → Z → list event → Z → Prop :=
| seg_done off sz : segments ip d 0 off sz [] sz
| seg_skip n off sz ph l sz' :
    ph_type ph ≠ ELF_PROG_LOAD → segments ip d n (s32 (off + sizeof_proghdr)) sz l sz' →
    segments ip d (S n) off sz (EvReadi ip (u32 off) sizeof_proghdr (sizeof_proghdr, ph) :: l) sz'
| seg_load n off sz ph sz1 r l sz' :
    ph_type ph = ELF_PROG_LOAD → ph_filesz ph <= ph_memsz ph →
    ph_vaddr ph <= u32 (ph_vaddr ph + ph_memsz ph) → ph_vaddr ph mod PGSIZE = 0 → sz1 ≠ 0 → 0 <= r →
    segments ip d n (s32 (off + sizeof_proghdr)) sz1 l sz' →
    segments ip d (S n) off sz
      (EvReadi ip (u32 off) sizeof_proghdr (sizeof_proghdr, ph)
       :: EvAllocuvm d sz (u32 (ph_vaddr ph + ph_memsz ph)) sz1
       :: EvLoaduvm d (ph_vaddr ph) ip (ph_off ph) (ph_filesz ph) r :: l) sz'.

(** The addresses of the argument strings on a stack that starts at [sp], and where the
    stack is after them. *)
Fixpoint arg_addrs (sp : Z) (argv : list (list Z)) : list Z :=
  match argv with
  | [] => []
  | a :: argv' =>
      let sp := Z.land (u32 (sp - (Z.of_nat (length a) + 1))) (Z.lnot 3) in
      sp :: arg_addrs sp argv'
  end.
Definition args_end (sp : Z) (argv : list (list Z)) : Z := default sp (last (arg_addrs sp argv)).

(** Every argument is copied, with its NUL, to its address. *)
Definition args_copied (d sp : Z) (argv : list (list Z)) (l : list event) : Prop :=
  Forall2 (λ ap ev, ∃ r, 0 <= r ∧ ev = EvCopyout d ap.2 (ap.1 ++ [0]) r) (zip argv (arg_addrs sp argv)) l.

(** The new image of [c]. *)
Definition new_image (c : proc) (path : list Z) (pgdir sz sp entry : Z) : proc :=
  set_p_tf (set_tf_esp sp (set_tf_eip entry (p_tf c)))
    (set_p_sz sz (set_p_pgdir pgdir (set_p_name (copy_name (p_name c) (last_elem path path)) c))).

(** From the loaded program of [sz] bytes to the return: the calls, the top of the stack
    and the stack pointer. *)
Definition stack_built (c : proc) (argv : list (list Z)) (d sz top sp : Z) (l : list event) : Prop :=
  let argc := Z.of_nat (length argv) in
  ∃ args r, top ≠ 0 ∧ argc <= MAXARG ∧ 0 <= r ∧ args_copied d top argv args
    ∧ sp = u32 (args_end top argv - (3 + argc + 1) * 4)
    ∧ l = EvAllocuvm d (PGROUNDUP sz) (u32 (PGROUNDUP sz + 2 * PGSIZE)) top
          :: EvClearpteu d (u32 (top - 2 * PGSIZE)) :: args
          ++ [EvCopyout d sp (mjoin (word_bytes <$> ustack argc (args_end top argv) (arg_addrs top argv))) r;
              EvSwitchuvm (p_kstack c) d; EvFreevm (p_pgdir c)].

(** What a return of [exec] with [r] means for the process [c] in slot [cur]; [k] and
    [k'] are the kernel's data before and after, [l] the calls in between. *)
Definition exec_post (k : kstate) (cur : nat) (c : proc) (path : list Z) (argv : list (list Z))
    (r : Z) (k' : kstate) (l : list event) : Prop :=
  (r = -1 ∧ k' = k ∧ balance l = nothing ∧ own_dirs l)
  ∨ (r = 0 ∧ ∃ ip elf d sz top sp segs stack,
       l = [EvBegin; EvNamei path (Some ip); EvIlock ip;
            EvReadi ip 0 sizeof_elfhdr (sizeof_elfhdr, elf); EvSetupkvm d]
           ++ segs ++ [EvIunlockput ip; EvEnd] ++ stack
       ∧ elf_magic elf = ELF_MAGIC ∧ d ≠ 0
       ∧ segments ip d (Z.to_nat (elf_phnum elf)) (s32 (elf_phoff elf)) 0 segs sz
       ∧ stack_built c argv d sz top sp stack
       ∧ k' = set_ptable (<[cur := new_image c path d top sp (elf_entry elf)]> (ptable k)) k).

Section exec.
Context {E : Type} `{!ProcEnv E, !ExecEnv E}.
Implicit Types (s : pstate E) (e : E) (l : list event).

(** The call [ev] takes the environment from [e] to [e']. *)
Definition call (ev : event) e e' : Prop :=
  match ev with
  | EvBegin => e_begin_op e = Ret tt e'
  | EvEnd => e_end_op e = Ret tt e'
  | EvNamei path r => x_namei path e = Ret r e'
  | EvIlock ip => x_ilock ip e = Ret tt e'
  | EvIunlockput ip => x_iunlockput ip e = Ret tt e'
  | EvReadi ip off n r => x_readi ip off n e = Ret r e'
  | EvSetupkvm r => e_setupkvm e = Ret r e'
  | EvFreevm d => e_freevm d e = Ret tt e'
  | EvAllocuvm d a b r => e_allocuvm d a b e = Ret r e'
  | EvLoaduvm d a ip off n r => x_loaduvm d a ip off n e = Ret r e'
  | EvClearpteu d a => e_clearpteu d a e = Ret tt e'
  | EvCopyout d a bs r => e_copyout d a bs e = Ret r e'
  | EvSwitchuvm ks d => e_switchuvm ks d e = Ret tt e'
  end.

Fixpoint calls l e e' : Prop :=
  match l with
  | [] => e' = e
  | ev :: l' => ∃ e1, call ev e e1 ∧ calls l' e1 e'
  end.

Lemma calls_app l1 l2 e e1 e' : calls l1 e e1 → calls l2 e1 e' → calls (l1 ++ l2) e e'.
Proof.
  revert e. induction l1 as [|ev l1 IH]; intros e; cbn; [by intros ->|].
  intros (e2 & ? & ?) ?. eauto.
Qed.

(** An operation of the environment that does not return from [e]: it sleeps, panics or
    faults. *)
Definition no_return {A} (m : M E A) e : Prop := ∀ a e', m e ≠ Ret a e'.
Inductive stops e : Prop :=
| stop_begin : no_return e_begin_op e → stops e
| stop_end : no_return e_end_op e → stops e
| stop_namei path : no_return (x_namei path) e → stops e
| stop_ilock ip : no_return (x_ilock ip) e → stops e
| stop_iunlockput ip : no_return (x_iunlockput ip) e → stops e
| stop_readi ip off n : no_return (x_readi ip off n) e → stops e
| stop_setupkvm : no_return e_setupkvm e → stops e
| stop_freevm d : no_return (e_freevm d) e → stops e
| stop_allocuvm d a b : no_return (e_allocuvm d a b) e → stops e
| stop_loaduvm d a ip off n : no_return (x_loaduvm d a ip off n) e → stops e
| stop_clearpteu d a : no_return (e_clearpteu d a) e → stops e
| stop_copyout d a bs : no_return (e_copyout d a bs) e → stops e
| stop_switchuvm ks d : no_return (e_switchuvm ks d) e → stops e.

(** [m] returns, with [Q] of the result, of the kernel's data and of the calls made, or
    it stops in a call of the environment. *)
Definition traced {A} (m : M (pstate E) A) s (Q : A → kstate → list event → Prop) : Prop :=
  match m s with
  | Ret a s' => ∃ l, calls l (ps_env s) (ps_env s') ∧ Q a (ps_k s') l
  | _ => ∃ l e', calls l (ps_env s) e' ∧ stops e'
  end.

Lemma traced_ret {A} (a : A) s (Q : A → kstate → list event → Prop) : Q a (ps_k s) [] → traced (mret a) s Q.
Proof. intros H. by exists []. Qed.

Lemma traced_bind {A B} (m : M (pstate E) A) (f : A → M (pstate E) B) s Q :
  traced m s (λ a k l, ∀ e, traced (f a) (mkpstate k e) (λ b k' l', Q b k' (l ++ l'))) →
  traced (m ≫= f) s Q.
Proof.
  intros H. unfold traced in H |- * at 1. unfold mbind, M_bind. destruct (m s) as [a s'| | |]; [|done..].
  destruct H as (l & Hl & H). specialize (H (ps_env s')). destruct s' as [k e]; cbn [ps_k ps_env] in *.
  destruct (f a (mkpstate k e)).
  1: destruct H as (l' & Hl' & H); eauto using calls_app.
  all: destruct H as (l' & e' & Hl' & H); eauto using calls_app.
Qed.

Lemma traced_mono {A} (m : M (pstate E) A) s (Q Q' : A → kstate → list event → Prop) :
  traced m s Q → (∀ a k l, Q a k l → Q' a k l) → traced m s Q'.
Proof. unfold traced. destruct (m s); [|done..]. intros (l & ? & ?). eauto. Qed.

(** A call of the environment leaves the kernel's own data alone. *)
Lemma traced_env {A B} (m : M E A) (ev : A → event) (f : A → M (pstate E) B) s Q :
  (∀ e, no_return m e → stops e) → (∀ a e e', m e = Ret a e' → call (ev a) e e') →
  (∀ a e, traced (f a) (mkpstate (ps_k s) e) (λ b k l, Q b k (ev a :: l))) →
  traced (on_env m ≫= f) s Q.
Proof.
  intros Hs Hc H. apply traced_bind. unfold traced at 1, on_env.
  destruct (m (ps_env s)) as [a e'| | |] eqn:Em.
  { exists [ev a]. split; [exists e'; split; [by apply Hc|done]|]. exact (λ e, H a e). }
  all: exists [], (ps_env s); split; [done|]; apply Hs; intros a e'; congruence.
Qed.

Ltac env_call ev c := eapply (traced_env _ ev); [intros ?; eapply c|first [by intros ? ? ?|by intros [] ? ?]|]; intros ? ?; cbn [ps_k].

Lemma load_segments_traced n ip d off sz s :
  traced (load_segments n ip d off sz) s (λ r k l, k = ps_k s ∧ Forall (fills d) l
    ∧ ∀ sz', r = Some sz' → segments ip d n off sz l sz').
Proof.
  revert off sz s. induction n as [|n IH]; intros off sz s; cbn [load_segments].
  { apply traced_ret. split_and!; [done|constructor|]. intros ? [= <-]. constructor. }
  env_call (EvReadi ip (u32 off) sizeof_proghdr) stop_readi. destruct a as [r ph].
  destruct (Z.eqb_spec r sizeof_proghdr) as [->|]; cbn [negb];
    [|apply traced_ret; split_and!; [done|by repeat constructor|done]].
  destruct (Z.eqb_spec (ph_type ph) ELF_PROG_LOAD) as [Hty|Hty]; cbn [negb].
  2:{ eapply traced_mono; [apply IH|]. intros r k l (-> & Hl & Hs).
      split_and!; [done|by constructor|]. intros sz' Hr. apply seg_skip; auto. }
  destruct (Z.ltb_spec (ph_memsz ph) (ph_filesz ph)) as [|Hm];
    [apply traced_ret; split_and!; [done|by repeat constructor|done]|].
  destruct (Z.ltb_spec (u32 (ph_vaddr ph + ph_memsz ph)) (ph_vaddr ph)) as [|Hv];
    [apply traced_ret; split_and!; [done|by repeat constructor|done]|].
  env_call (EvAllocuvm d sz (u32 (ph_vaddr ph + ph_memsz ph))) stop_allocuvm.
  destruct (Z.eqb_spec a 0) as [|Ha]; [apply traced_ret; split_and!; [done|by repeat constructor|done]|].
  destruct (Z.eqb_spec (ph_vaddr ph mod PGSIZE) 0) as [Hal|]; cbn [negb];
    [|apply traced_ret; split_and!; [done|by repeat constructor|done]].
  env_call (EvLoaduvm d (ph_vaddr ph) ip (ph_off ph) (ph_filesz ph)) stop_loaduvm.
  destruct (Z.ltb_spec a0 0) as [|Hr]; [apply traced_ret; split_and!; [done|by repeat constructor|done]|].
  eapply traced_mono; [apply IH|]. intros r k l (-> & Hl & Hs).
  split_and!; [done|by repeat constructor|]. intros sz' Hr'. apply seg_load; auto.
Qed.

Lemma push_args_traced argv argc d sp s :
  traced (push_args argv argc d sp) s (λ r k l, k = ps_k s ∧ Forall (fills d) l
    ∧ ∀ sp' ptrs, r = Some (sp', ptrs) → sp' = args_end sp argv ∧ ptrs = arg_addrs sp argv
        ∧ args_copied d sp argv l ∧ (argv = [] ∨ argc + Z.of_nat (length argv) <= MAXARG)).
Proof.
  revert argc sp s. induction argv as [|a argv IH]; intros argc sp s; cbn [push_args].
  { apply traced_ret. split_and!; [done|constructor|]. intros ? ? [= <- <-]. split_and!; [done|done|constructor|by left]. }
  destruct (Z.leb_spec MAXARG argc) as [|Hmax]; [apply traced_ret; split_and!; [done|constructor|done]|].
  set (sp1 := Z.land _ _).
  env_call (EvCopyout d sp1 (a ++ [0])) stop_copyout.
  destruct (Z.ltb_spec a0 0) as [|Hr]; [apply traced_ret; split_and!; [done|by repeat constructor|done]|].
  apply traced_bind. eapply traced_mono; [apply IH|]. intros r k l (-> & Hl & Hs) e1. apply traced_ret.
  rewrite app_nil_r. split_and!; [done|by constructor|]. intros sp' ptrs Hr'.
  destruct r as [[sp2 ps]|]; [|done]. destruct (Hs sp2 ps eq_refl) as (-> & -> & Hc & Hn). injection Hr' as <- <-.
  split_and!.
  - unfold args_end. cbn [arg_addrs]. fold sp1. rewrite last_cons. by destruct (last (arg_addrs sp1 argv)).
  - done.
  - constructor; [by exists a0|exact Hc].
  - right. cbn [length]. destruct Hn as [->|Hn]; cbn [length]; lia.
Qed.

(** The end of a failed call: what [exec_stack] leaves. *)
Definition gives_back (d : Z) l : Prop := ∃ l0, Forall (fills d) l0 ∧ l = l0 ++ [EvFreevm d].

Lemma exec_bad_traced d l0 s (Q : Z → kstate → list event → Prop) :
  d ≠ 0 → Forall (fills d) l0 → (∀ l, gives_back d l → Q (-1) (ps_k s) l) →
  traced (exec_bad d) s (λ r k l, Q r k (l0 ++ l)).
Proof.
  intros Hd Hl HQ. unfold exec_bad. rewrite (proj2 (Z.eqb_neq _ _) Hd). cbn [negb].
  env_call (λ _ : unit, EvFreevm d) stop_freevm. apply traced_ret. apply HQ. by exists l0.
Qed.

Lemma exec_commit_traced cur c path d sz sp entry s :
  ptable (ps_k s) !! cur = Some c →
  traced (exec_commit cur path d sz sp entry) s (λ r k l, r = 0
    ∧ l = [EvSwitchuvm (p_kstack c) d; EvFreevm (p_pgdir c)]
    ∧ k = set_ptable (<[cur := new_image c path d sz sp entry]> (ptable (ps_k s))) (ps_k s)).
Proof.
  intros Hc. pose proof (lookup_lt_Some _ _ _ Hc) as Hlt.
  unfold exec_commit, traced. erewrite bind_ret by (by apply updp_run).
  do 5 (erewrite bind_ret by ((apply getp_run || apply updp_run); cbn; apply list_lookup_insert_eq; by rewrite ?length_insert);
        cbn [with_table ps_k ps_env ptable set_ptable]; rewrite ?list_insert_insert_eq).
  cbn [p_kstack set_p_name p_pgdir].
  match goal with |- match (_ ≫= ?f) ?s1 with _ => _ end =>
    change (traced (on_env (e_switchuvm (p_kstack c) d) ≫= f) s1 (λ r k l, r = 0
      ∧ l = [EvSwitchuvm (p_kstack c) d; EvFreevm (p_pgdir c)]
      ∧ k = set_ptable (<[cur := new_image c path d sz sp entry]> (ptable (ps_k s))) (ps_k s))) end.
  env_call (λ _ : unit, EvSwitchuvm (p_kstack c) d) stop_switchuvm.
  env_call (λ _ : unit, EvFreevm (p_pgdir c)) stop_freevm. by apply traced_ret.
Qed.

(** What [exec_stack] comes to. *)
Definition stack_post (k : kstate) cur c path argv d sz entry (r : Z) (k' : kstate) l : Prop :=
  (r = -1 ∧ k' = k ∧ gives_back d l)
  ∨ (r = 0 ∧ ∃ top sp, stack_built c argv d sz top sp l
       ∧ k' = set_ptable (<[cur := new_image c path d top sp entry]> (ptable k)) k).

Lemma exec_stack_traced cur c path argv d sz entry s :
  ptable (ps_k s) !! cur = Some c → d ≠ 0 →
  traced (exec_stack cur path argv d sz entry) s (stack_post (ps_k s) cur c path argv d sz entry).
Proof.
  intros Hc Hd. unfold exec_stack. set (k := ps_k s) in *.
  assert (∀ e l0, Forall (fills d) l0 → traced (exec_bad d) (mkpstate k e)
    (λ r k' l, stack_post k cur c path argv d sz entry r k' (l0 ++ l))) as Hbad.
  { intros e l0 Hl. apply exec_bad_traced; [done|done|]. intros l Hg. by left. }
  env_call (EvAllocuvm d (PGROUNDUP sz) (u32 (PGROUNDUP sz + 2 * PGSIZE))) stop_allocuvm. rename a into top.
  destruct (Z.eqb_spec top 0) as [|Ht]; [by apply (Hbad _ [_]); repeat constructor|].
  env_call (λ _ : unit, EvClearpteu d (u32 (top - 2 * PGSIZE))) stop_clearpteu.
  apply traced_bind. eapply traced_mono; [apply push_args_traced|]. intros r k' args (-> & Hl & Hs) e1.
  cbn [ps_k]. destruct r as [[sp ptrs]|]; [|by apply (Hbad _ (_ :: _ :: args)); repeat constructor].
  destruct (Hs sp ptrs eq_refl) as (-> & -> & Hargs & Hn).
  env_call (EvCopyout d (u32 (args_end top argv - (3 + Z.of_nat (length argv) + 1) * 4))
    (mjoin (word_bytes <$> ustack (Z.of_nat (length argv)) (args_end top argv) (arg_addrs top argv)))) stop_copyout.
  destruct (Z.ltb_spec a0 0) as [|Hr].
  - eapply traced_mono; [eapply (Hbad _ (_ :: _ :: args ++ [_]))|].
    2:{ intros r k' l Hb. cbn [app] in Hb. rewrite <-app_assoc in Hb. exact Hb. }
    do 2 (constructor; [done|]). apply Forall_app. split; [done|by repeat constructor].
  - eapply traced_mono; [by apply (exec_commit_traced cur c)|]. intros r k' l (-> & -> & ->).
    right. split; [done|]. eexists top, _. split; [|done]. exists args, a0.
    split_and!; [done| |done|done|done|done]. destruct Hn as [->|Hn]; [by vm_compute|lia].
Qed.

(** [bad] with the program file still open. *)
Lemma exec_bad_open_traced d ip s (Q : Z → kstate → list event → Prop) :
  Q (-1) (ps_k s) ((if d =? 0 then [] else [EvFreevm d]) ++ [EvIunlockput ip; EvEnd]) →
  traced (exec_bad_open d ip) s Q.
Proof.
  intros HQ. unfold exec_bad_open. destruct (d =? 0); cbn [negb app] in *.
  - unfold traced. rewrite bind_mret. 
    match goal with |- match ?m s with _ => _ end => change (traced m s Q) end.
    env_call (λ _ : unit, EvIunlockput ip) stop_iunlockput. env_call (λ _ : unit, EvEnd) stop_end. by apply traced_ret.
  - env_call (λ _ : unit, EvFreevm d) stop_freevm.
    env_call (λ _ : unit, EvIunlockput ip) stop_iunlockput. env_call (λ _ : unit, EvEnd) stop_end. by apply traced_ret.
Qed.

(** The calls of a failed [exec] are undone. *)
Definition undone l : Prop := balance l = nothing ∧ own_dirs l.

Definition opening (path : list Z) ip elf d : list event :=
  [EvBegin; EvNamei path (Some ip); EvIlock ip; EvReadi ip 0 sizeof_elfhdr elf; EvSetupkvm d].

Lemma opening_balance path ip elf d l : d ≠ 0 →
  balance (opening path ip elf d ++ l) = foldl account (mkholdings {[d]} 1 1) l.
Proof.
  intros Hd. unfold balance, opening. rewrite foldl_app. cbn. rewrite (proj2 (Z.eqb_neq _ _) Hd). cbn.
  f_equal. f_equal. set_solver.
Qed.

Lemma undone_open path ip elf d l : d ≠ 0 → Forall (fills d) l →
  undone (opening path ip elf d ++ l ++ [EvFreevm d; EvIunlockput ip; EvEnd]).
Proof.
  intros Hd Hl. split.
  - rewrite opening_balance, foldl_app, (fills_balance d l) by done. cbn. unfold nothing. f_equal. set_solver.
  - apply (on_dir_own d); [|unfold opening; set_solver]. unfold opening. apply Forall_app. split; [by repeat constructor|].
    apply Forall_app. split; [by apply fills_on_dir|by repeat constructor].
Qed.

Lemma undone_closed path ip elf d segs l : d ≠ 0 → Forall (fills d) segs → gives_back d l →
  undone (opening path ip elf d ++ segs ++ EvIunlockput ip :: EvEnd :: l).
Proof.
  intros Hd Hs (l0 & Hl & ->). split.
  - rewrite opening_balance, foldl_app, (fills_balance d segs) by done. cbn.
    rewrite foldl_app, (fills_balance d l0) by done. cbn. unfold nothing. f_equal. set_solver.
  - apply (on_dir_own d); [|unfold opening; set_solver]. unfold opening. apply Forall_app. split; [by repeat constructor|].
    apply Forall_app. split; [by apply fills_on_dir|]. do 2 (constructor; [done|]).
    apply Forall_app. split; [by apply fills_on_dir|by repeat constructor].
Qed.

Lemma exec_traced s cur c path argv :
  cpu_proc (ps_k s) = Some cur → ptable (ps_k s) !! cur = Some c →
  traced (exec path argv) s (exec_post (ps_k s) cur c path argv).
Proof.
  intros Hcur Hc. set (k := ps_k s) in *. unfold exec, traced. rewrite (bind_ret _ _ _ _ _ (myproc_run _ _ Hcur)).
  match goal with |- match ?m s with _ => _ end => change (traced m s (exec_post k cur c path argv)) end.
  env_call (λ _ : unit, EvBegin) stop_begin. env_call (EvNamei path) stop_namei. fold k. destruct a0 as [ip|].
  2:{ env_call (λ _ : unit, EvEnd) stop_end. apply traced_ret. left. split_and!; [done|done|done|].
      by repeat constructor. }
  env_call (λ _ : unit, EvIlock ip) stop_ilock. env_call (EvReadi ip 0 sizeof_elfhdr) stop_readi.
  destruct a1 as [r elf].
  assert (∀ e r0, traced (exec_bad_open 0 ip) (mkpstate k e) (λ r k' l, exec_post k cur c path argv r k'
    (EvBegin :: EvNamei path (Some ip) :: EvIlock ip :: EvReadi ip 0 sizeof_elfhdr r0 :: l))) as Hbad.
  { intros e' r0. apply exec_bad_open_traced. left. split_and!; [done|done|done|]. by repeat constructor. }
  destruct (Z.eqb_spec r sizeof_elfhdr) as [->|]; cbn [negb]; [|apply Hbad].
  destruct (Z.eqb_spec (elf_magic elf) ELF_MAGIC) as [Hm|]; cbn [negb]; [|apply Hbad].
  env_call EvSetupkvm stop_setupkvm. rename a1 into d. destruct (Z.eqb_spec d 0) as [->|Hd].
  { apply exec_bad_open_traced. left. split_and!; [done|done|done|]. by repeat constructor. }
  apply traced_bind. eapply traced_mono; [apply load_segments_traced|]. intros r k' segs (-> & Hf & Hs) e4. cbn [ps_k].
  destruct r as [sz|].
  2:{ apply exec_bad_open_traced. rewrite (proj2 (Z.eqb_neq _ _) Hd). left. cbn [ps_k]. split; [done|]. split; [done|].
      exact (undone_open path ip (sizeof_elfhdr, elf) d segs Hd Hf). }
  env_call (λ _ : unit, EvIunlockput ip) stop_iunlockput. env_call (λ _ : unit, EvEnd) stop_end.
  eapply traced_mono; [by apply (exec_stack_traced cur c)|]. cbn [ps_k].
  intros r k' l [(-> & -> & Hg)|(-> & top & sp & Hst & ->)]; [left|right; split; [done|]].
  - split; [done|]. split; [done|]. exact (undone_closed path ip (sizeof_elfhdr, elf) d segs l Hd Hf Hg).
  - exists ip, elf, d, sz, top, sp, segs, l. split_and!; [done|done|done|by apply Hs|done|done].
Qed.

(** C9: exec is all or nothing.  Over any environment, [exec] of the process [c] in slot
    [cur] returns unless an operation it calls does not.  If it returns -1, the process
    table and the scheduler's data are as before, every page directory it made has been
    freed, every operation of the log ended and every reference to an inode put back, and
    no directory but one made by the call was touched.  If it returns 0, it has opened the file,
    checked its header, made a directory, given every loadable segment its memory and its
    part of the file ([segments]), closed the file, built the stack with the strings and
    pointers of the arguments above a guard page ([stack_built]), switched to the new
    directory and freed the old one, in this order and nothing else; and in the process
    table exactly the caller's name, page directory, size, entry point (that of the
    header) and stack pointer (that of the stack built) are replaced. *)
Theorem exec_all_or_nothing s cur c path argv :
  cpu_proc (ps_k s) = Some cur → ptable (ps_k s) !! cur = Some c →
  match exec path argv s with
  | Ret r s' => ∃ l, calls l (ps_env s) (ps_env s') ∧ exec_post (ps_k s) cur c path argv r (ps_k s') l
  | _ => ∃ l e', calls l (ps_env s) e' ∧ stops e'
  end.
Proof. apply exec_traced. Qed.

(** A process that shares its page directory with the caller, as a thread and its
    master do, is left with a directory that the call has freed. *)
Lemma exec_frees_shared s cur c path argv w q s' :
  cpu_proc (ps_k s) = Some cur → ptable (ps_k s) !! cur = Some c →
  w ≠ cur → ptable (ps_k s) !! w = Some q → p_pgdir q = p_pgdir c →
  exec path argv s = Ret 0 s' →
  ptable (ps_k s') !! w = Some q
  ∧ ∃ l, calls (l ++ [EvFreevm (p_pgdir q)]) (ps_env s) (ps_env s').
Proof.
  intros Hcur Hc Hw Hq Hd He. pose proof (exec_traced s cur c path argv Hcur Hc) as H.
  unfold traced in H. rewrite He in H.
  destruct H as (l & Hl & [[? _]|(_ & ip & elf & d & sz & top & sp & segs & stack & -> & _ & _ & _ & Hst & Hk)]); [done|].
  destruct Hst as (args & r & _ & _ & _ & _ & _ & ->). rewrite Hk. cbn [ptable set_ptable].
  rewrite list_lookup_insert_ne by done. split; [done|]. rewrite Hd.
  match type of Hl with calls (?a ++ ?b ++ ?c ++ ?x :: ?y :: ?m ++ [?u; ?v; ?w]) _ _ =>
    exists (a ++ b ++ c ++ x :: y :: m ++ [u; v]) end.
  rewrite <-!app_assoc. cbn [app]. rewrite <-!app_assoc. exact Hl.
Qed.
End exec.

(** ** A small environment with one program file *)
Module Toy.
(** The page directories in use. *)
Record env := mkenv { t_dirs : gset Z }.

(** A page directory that is not in use. *)
Definition new_dir : M env Z := λ e,
  let d := fresh ({[0]} ∪ t_dirs e) in Ret d (mkenv ({[d]} ∪ t_dirs e)).

#[export] Instance toy_proc : ProcEnv env := {|
  e_kalloc := mret KERNBASE;
  e_kfree _ := mret tt;
  e_setupkvm := new_dir;
  e_inituvm _ := mret tt;
  e_allocuvm _ _ newsz := mret newsz;
  e_deallocuvm _ _ newsz := mret newsz;
  e_copyuvm _ _ := new_dir;
  e_freevm d := λ e, Ret tt (mkenv (t_dirs e ∖ {[d]}));
  e_clearpteu _ _ := mret tt;
  e_copyout _ _ _ := mret 0;
  e_switchuvm _ _ := mret tt;
  e_switchkvm := mret tt;
  e_filedup f := mret f;
  e_fileclose _ := mret tt;
  e_idup i := mret i;
  e_iput _ := mret tt;
  e_begin_op := mret tt;
  e_end_op := mret tt;
  e_namei_root := mret (Some 0%nat);
  e_fs_init := mret tt
|}.

(** An executable with one segment of 8 bytes at address 0 and the entry point 4. *)
Definition image : list Z :=
  mjoin (word_bytes <$> [ELF_MAGIC; 0; 0; 0; 0; 0; 4; 52; 0; 0; 0])
  ++ [1; 0; 0; 0; 0; 0; 0; 0]
  ++ mjoin (word_bytes <$> [ELF_PROG_LOAD; 84; 0; 0; 8; 8; 0; 4096])
  ++ [1; 2; 3; 4; 5; 6; 7; 8].
(** The path [/init]. *)
Definition path : list Z := [47; 105; 110; 105; 116].

#[export] Instance toy_exec : ExecEnv env := {|
  x_namei p := if bool_decide (p = path) then mret (Some 1%nat) else mret None;
  x_ilock _ := mret tt;
  x_iunlockput _ := mret tt;
  x_readi _ off n := mret (Z.min n (Z.of_nat (length image) - off), take (Z.to_nat n) (drop (Z.to_nat off) image));
  x_loaduvm _ _ _ _ _ := mret 0
|}.

(** The first process runs; its directory is the only one in use. *)
Definition start : pstate env :=
  mkpstate (first_kstate first_proc) (mkenv {[KERNBASE + PGSIZE]}).
End Toy.
#[export] Existing Instance Toy.toy_proc.
#[export] Existing Instance Toy.toy_exec.

(** [exec("/init", {"/init", "-l"})] by the first process returns 0; with a path that
    does not resolve it returns -1. *)
Lemma exec_all_or_nothing_witness :
  (∃ s', exec Toy.path [Toy.path; [45; 108]] Toy.start = Ret 0 s'
     ∧ ∃ l, calls l (ps_env Toy.start) (ps_env s')
         ∧ exec_post (first_kstate first_proc) 0 first_proc Toy.path [Toy.path; [45; 108]] 0 (ps_k s') l)
  ∧ (∃ s', exec [97] [] Toy.start = Ret (-1) s'
     ∧ ∃ l, calls l (ps_env Toy.start) (ps_env s') ∧ exec_post (first_kstate first_proc) 0 first_proc [97] [] (-1) (ps_k s') l).
Proof.
  pose proof (exec_all_or_nothing Toy.start 0 first_proc Toy.path [Toy.path; [45; 108]] eq_refl eq_refl) as H1.
  pose proof (exec_all_or_nothing Toy.start 0 first_proc [97] [] eq_refl eq_refl) as H2.
  split.
  - destruct (exec Toy.path [Toy.path; [45; 108]] Toy.start) as [r s'| | |] eqn:E1; [|exfalso; vm_compute in E1; discriminate E1..].
    assert (r = 0) as ->.
    { transitivity (match exec Toy.path [Toy.path; [45; 108]] Toy.start with Ret r _ => r | _ => 7 end);
        [by rewrite E1|vm_compute; reflexivity]. }
    exists s'. split; [reflexivity|exact H1].
  - destruct (exec [97] [] Toy.start) as [r s'| | |] eqn:E2; [|exfalso; vm_compute in E2; discriminate E2..].
    assert (r = -1) as ->.
    { transitivity (match exec [97] [] Toy.start with Ret r _ => r | _ => 7 end);
        [by rewrite E2|vm_compute; reflexivity]. }
    exists s'. split; [reflexivity|exact H2].
Defined.
