(* ===== verification/Sysproc.v ===== *)
(** * Process system calls and the dispatcher (sysproc.c, syscall.c)

    A system call goes on and returns a value, or has switched away: after [exit] it
    never comes back, after [yield] it comes back, calls [yield_end] and returns the
    value. *)
From S2P Require Import Prelude Params ProcState Sched Proc Block Bio BioInv Log Store Str Fs.
From S2P Require Import Kalloc Vm Pipe File Syscall Console Kernel Sysfile Exec.

Inductive flow (A : Type) := Goes (a : A) | Exits | Yields (a : A).
Arguments Goes {A} a.
Arguments Exits {A}.
Arguments Yields {A} a.

(** Timer ticks; [tickslock] is the lock of [ticks]. *)
Section ticks.
Context {S : Type}.
Definition acquire_ticks : M (kern S) unit := λ k,
  if kn_tickslock k then Panic "acquire" else Ret tt (set_kn_tickslock true k).
Definition release_ticks : M (kern S) unit := λ k,
  if kn_tickslock k then Ret tt (set_kn_tickslock false k) else Panic "release".
End ticks.

Section sysproc.
Context {S : Type} `{!BlockStore S, !Transactions S}.
Context `{!FileEnv (kern S), !ProcEnv (filest (kern S)), !UserMem (filest (kern S)), !ExecEnv (filest (kern S))}.
Context (dev_read : Z → option (nat → Z → M (fsstate S) (Z * list Z))).
Context (dev_write : Z → option (nat → list Z → Z → M (fsstate S) Z)).
Abbreviation PM := (M (pstate (filest (kern S)))).

Definition on_kern {A} (m : M (kern S) A) : PM A := on_env (below m).

Definition sys_fork : PM Z := fork.
Definition sys_exit : PM (flow Z) := exit;; mret Exits.
Definition sys_wait : PM Z := wait.
Definition sys_kill : PM Z :=
  pid ← argint 0;
  match pid with None => mret (-1) | Some pid => kill pid end.
Definition sys_getppid : PM Z := getppid.
Definition sys_getpid : PM Z :=
  c ← curproc;
  mret (p_pid c).

Definition sys_sbrk : PM Z :=
  n ← argint 0;
  match n with
  | None => mret (-1)
  | Some n =>
      c ← curproc;
      addr ← (if p_isthread c =? 1 then
                match p_master c with
                | Some master => m ← getp master; mret (p_sz m)
                | None => mret (p_sz c)
                end
              else mret (p_sz c));
      r ← growproc n;
      if r <? 0 then mret (-1) else mret (s32 addr)
  end.

(** The loop of [sys_sleep], with tickslock held; [ticks - ticks0 < n] compares as
    [uint].  A process that has slept takes up here after [sleep_end]. *)
Definition sys_sleep_loop (n ticks0 : Z) : PM Z :=
  ticks ← on_kern (gets kn_ticks);
  if u32 (ticks - ticks0) <? u32 n then
    c ← curproc;
    if negb (p_killed c =? 0) then on_kern release_ticks;; mret (-1) else
    sleep_begin (Some ChTicks) (Some (on_kern release_ticks));;
    go_to_sleep ChTicks
  else
    on_kern release_ticks;;
    mret 0.
Definition sys_sleep : PM Z :=
  n ← argint 0;
  match n with
  | None => mret (-1)
  | Some n =>
      on_kern acquire_ticks;;
      ticks0 ← on_kern (gets kn_ticks);
      sys_sleep_loop n ticks0
  end.

Definition sys_uptime : PM Z :=
  on_kern acquire_ticks;;
  xticks ← on_kern (gets kn_ticks);
  on_kern release_ticks;;
  mret (s32 xticks).

Definition sys_yield : PM (flow Z) :=
  p ← myproc;
  c ← getp p;
  (if 0 <? p_fqtick c then updp p (set_p_fqtick (p_fqtick c - 1)) else mret tt);;
  yield_begin;;
  mret (Yields 0).

Definition sys_getlev : PM Z :=
  c ← curproc;
  mret (p_level c).

Definition sys_set_cpu_share : PM Z :=
  n ← argint 0;
  match n with None => mret (-1) | Some n => on_k (set_cpu_share n) end.

(** The words [*thread] and [*retval] are stored without a check of the address.  Below
    KERNBASE that is user memory; an address in the kernel's half would overwrite the
    kernel itself, its tables included, and there the model stops with a fault. *)
Definition store_result (a : Z) (v : option Z) : PM unit :=
  match v with
  | None => mret tt
  | Some v =>
      if KERNBASE <? u32 a + 4 then fault else
      c ← curproc;
      store_user (p_pgdir c) (u32 a) (word_bytes v)
  end.

Definition sys_thread_create : PM Z :=
  thread ← argint 0;
  match thread with
  | None => mret (-1)
  | Some thread =>
      start_routine ← argint 1;
      match start_routine with
      | None => mret (-1)
      | Some start_routine =>
          arg ← argint 2;
          match arg with
          | None => mret (-1)
          | Some arg =>
              '(r, v) ← thread_create (u32 start_routine) (u32 arg);
              store_result thread v;;
              mret r
          end
      end
  end.

Definition sys_thread_exit : PM (flow Z) :=
  retval ← argint 0;
  match retval with
  | None => mret (Goes (-1))
  | Some retval => thread_exit (u32 retval);; mret Exits
  end.

Definition sys_thread_join : PM Z :=
  thread ← argint 0;
  match thread with
  | None => mret (-1)
  | Some thread =>
      retval ← argint 1;
      match retval with
      | None => mret (-1)
      | Some retval =>
          '(r, v) ← thread_join thread;
          store_result retval v;;
          mret r
      end
  end.

(** log.c's system calls, on the composed state. *)
Definition sys_log_call (m : M S Z) : PM Z := fs_call (on_store m).

(** ** The dispatcher *)
Definition goes (m : PM Z) : PM (flow Z) := r ← m; mret (Goes r).

(** [syscalls[num]], in the order of syscall.h *)
Definition syscalls : list (PM (flow Z)) :=
  [ goes sys_fork; sys_exit; goes sys_wait; goes sys_pipe; goes sys_read; goes sys_kill;
    goes sys_exec; goes sys_fstat; goes (sys_chdir dev_read); goes sys_dup; goes sys_getpid;
    goes sys_sbrk; goes sys_sleep; goes sys_uptime; goes (sys_open dev_read dev_write);
    goes sys_write; goes (sys_mknod dev_read dev_write); goes (sys_unlink dev_read dev_write);
    goes (sys_link dev_read dev_write); goes (sys_mkdir dev_read dev_write); goes sys_close;
    sys_yield; goes sys_getlev; goes sys_set_cpu_share; goes sys_thread_create;
    goes sys_thread_join; sys_thread_exit; goes (sys_log_call s_sync);
    goes (sys_log_call s_log_num); goes sys_pread; goes sys_pwrite ].

(** [curproc->tf->eax = v] *)
Definition set_result (cur : nat) (v : Z) : PM unit :=
  updp cur (λ c, set_p_tf (set_tf_eax (u32 v) (p_tf c)) c).

(** A caller that yielded stores its result when it is back. *)
Definition syscall : PM (flow Z) :=
  cur ← myproc;
  c ← getp cur;
  let num := s32 (tf_eax (p_tf c)) in
  match (if 0 <? num then syscalls !! Z.to_nat (num - 1) else None) with
  | Some f =>
      r ← f;
      match r with
      | Goes v => set_result cur v;; mret (Goes v)
      | Exits => mret Exits
      | Yields v => mret (Yields v)
      end
  | None => set_result cur (-1);; mret (Goes (-1))
  end.
(** What is left of the call when the process is back from [yield]. *)
Definition syscall_back (v : Z) : PM unit :=
  yield_end;;
  cur ← myproc;
  set_result cur v.
End sysproc.
