(* ===== verification/Kbd.v ===== *)
(** * The keyboard (kbd.c, kbd.h)

    [kbdgetc] keeps the modifiers in [shift] and turns the scan codes of the keyboard
    controller into characters with the tables of kbd.h. *)
From S2P Require Import Prelude.
From Stdlib Require Import Ascii.

Module Kbd.
Definition NO : Z := 0.
Definition SHIFT : Z := 1.
Definition CTL : Z := 2.
Definition ALT : Z := 4.
Definition CAPSLOCK : Z := 8.
Definition NUMLOCK : Z := 16.
Definition SCROLLLOCK : Z := 32.
Definition E0ESC : Z := 64.

Definition KEY_HOME : Z := 0xE0.
Definition KEY_END : Z := 0xE1.
Definition KEY_UP : Z := 0xE2.
Definition KEY_DN : Z := 0xE3.
Definition KEY_LF : Z := 0xE4.
Definition KEY_RT : Z := 0xE5.
Definition KEY_PGUP : Z := 0xE6.
Definition KEY_PGDN : Z := 0xE7.
Definition KEY_INS : Z := 0xE8.
Definition KEY_DEL : Z := 0xE9.

(** [C(x)], for each character. *)
Definition C (s : string) : list Z := (λ c, c - 64) <$> codes s.

(** A table of 256 entries, the first ones in a row and the others by index. *)
Definition table (first : list Z) (others : list (Z * Z)) : list Z :=
  foldr (λ e t, <[Z.to_nat e.1 := e.2]> t) (first ++ replicate (256 - length first) NO) others.

Definition shiftcode : list Z :=
  table [] [(0x1D, CTL); (0x2A, SHIFT); (0x36, SHIFT); (0x38, ALT); (0x9D, CTL); (0xB8, ALT)].
Definition togglecode : list Z :=
  table [] [(0x3A, CAPSLOCK); (0x45, NUMLOCK); (0x46, SCROLLLOCK)].

Definition arrows : list (Z * Z) :=
  [(0xC8, KEY_UP); (0xD0, KEY_DN); (0xC9, KEY_PGUP); (0xD1, KEY_PGDN); (0xCB, KEY_LF); (0xCD, KEY_RT);
   (0x97, KEY_HOME); (0xCF, KEY_END); (0xD2, KEY_INS); (0xD3, KEY_DEL)].

Definition normalmap : list Z :=
  table ([NO; 0x1B] ++ codes "123456"                                    (* 0x00 *)
    ++ codes "7890-=" ++ [8; 9]
    ++ codes "qwertyui"                                                  (* 0x10 *)
    ++ codes "op[]" ++ [10; NO] ++ codes "as"
    ++ codes "dfghjkl;"                                                  (* 0x20 *)
    ++ codes "'`" ++ [NO] ++ codes "\zxcv"
    ++ codes "bnm,./" ++ [NO] ++ codes "*"                               (* 0x30 *)
    ++ [NO] ++ codes " " ++ [NO; NO; NO; NO; NO; NO]
    ++ [NO; NO; NO; NO; NO; NO; NO] ++ codes "7"                         (* 0x40 *)
    ++ codes "89-456+1"
    ++ codes "230." ++ [NO; NO; NO; NO])                                 (* 0x50 *)
    ([(0x9C, 10); (0xB5, 47)] ++ arrows).

Definition shiftmap : list Z :=
  table ([NO; 0x1B] ++ codes "!@#$%^"                                    (* 0x00 *)
    ++ codes "&*()_+" ++ [8; 9]
    ++ codes "QWERTYUI"                                                  (* 0x10 *)
    ++ codes "OP{}" ++ [10; NO] ++ codes "AS"
    ++ codes "DFGHJKL:"                                                  (* 0x20 *)
    ++ [34] ++ codes "~" ++ [NO] ++ codes "|ZXCV"
    ++ codes "BNM<>?" ++ [NO] ++ codes "*"                               (* 0x30 *)
    ++ [NO] ++ codes " " ++ [NO; NO; NO; NO; NO; NO]
    ++ [NO; NO; NO; NO; NO; NO; NO] ++ codes "7"                         (* 0x40 *)
    ++ codes "89-456+1"
    ++ codes "230." ++ [NO; NO; NO; NO])                                 (* 0x50 *)
    ([(0x9C, 10); (0xB5, 47)] ++ arrows).

(** [C('/')] is negative: the entry is a [uchar]. *)
Definition ctlmap : list Z :=
  table ([NO; NO; NO; NO; NO; NO; NO; NO]
    ++ [NO; NO; NO; NO; NO; NO; NO; NO]
    ++ C "QWERTYUI"
    ++ C "OP" ++ [NO; NO; 13; NO] ++ C "AS"
    ++ C "DFGHJKL" ++ [NO]
    ++ [NO; NO; NO] ++ C "\ZXCV"
    ++ C "BNM" ++ [NO; NO; (47 - 64) mod 2 ^ 8; NO; NO])
    ([(0x9C, 13); (0xB5, (47 - 64) mod 2 ^ 8)] ++ arrows).

Definition charcode : list (list Z) := [normalmap; shiftmap; ctlmap; ctlmap].

(** [data] is the byte of the data port, when the status port says that there is one;
    the character (or 0, or -1) and the new [shift]. *)
Definition kbdgetc (data : option Z) (shift : Z) : Z * Z :=
  match data with
  | None => (-1, shift)
  | Some data =>
      if data =? 0xE0 then (0, Z.lor shift E0ESC)
      else if negb (Z.land data 0x80 =? 0) then
        let data := if negb (Z.land shift E0ESC =? 0) then data else Z.land data 0x7F in
        (0, Z.land shift (u32 (Z.lnot (Z.lor (default 0 (shiftcode !! Z.to_nat data)) E0ESC))))
      else
        let '(data, shift) :=
          if negb (Z.land shift E0ESC =? 0) then (Z.lor data 0x80, Z.land shift (u32 (Z.lnot E0ESC)))
          else (data, shift) in
        let shift := Z.lor shift (default 0 (shiftcode !! Z.to_nat data)) in
        let shift := Z.lxor shift (default 0 (togglecode !! Z.to_nat data)) in
        let map := default [] (charcode !! Z.to_nat (Z.land shift (Z.lor CTL SHIFT))) in
        let c := default 0 (map !! Z.to_nat data) in
        let c :=
          if negb (Z.land shift CAPSLOCK =? 0) then
            if (97 <=? c) && (c <=? 122) then c + (65 - 97)
            else if (65 <=? c) && (c <=? 90) then c + (97 - 65)
            else c
          else c in
        (c, shift)
  end.

(** The results of [kbdgetc] until the controller has no more bytes. *)
Fixpoint scan (bytes : list Z) (shift : Z) : list Z * Z :=
  match bytes with
  | [] => ([-1], shift)
  | b :: bytes' =>
      let '(c, shift) := kbdgetc (Some b) shift in
      let '(cs, shift) := scan bytes' shift in
      (c :: cs, shift)
  end.
End Kbd.

(** ** What it returns *)
(** For every scan code and all modifiers the character is a byte and the modifiers
    stay in their seven bits: the tables are never read out of range. *)
Definition in_range (r : Z * Z) : bool := (0 <=? r.1) && (r.1 <? 2 ^ 8) && (0 <=? r.2) && (r.2 <? 2 ^ 7).

Lemma kbdgetc_bounds data shift :
  0 <= data < 2 ^ 8 → 0 <= shift < 2 ^ 7 → in_range (Kbd.kbdgetc (Some data) shift) = true.
Proof.
  assert (forallb (λ d, forallb (λ s, in_range (Kbd.kbdgetc (Some (Z.of_nat d)) (Z.of_nat s))) (seq 0 128)) (seq 0 256)
    = true) as H by (vm_compute; reflexivity).
  intros Hd Hs. rewrite forallb_forall in H. specialize (H (Z.to_nat data)). rewrite in_seq in H.
  specialize (H ltac:(lia)). rewrite forallb_forall in H. specialize (H (Z.to_nat shift)). rewrite in_seq in H.
  specialize (H ltac:(lia)). by rewrite !Z2Nat.id in H by lia.
Qed.

(** What [consoleintr] gets: characters, then the -1 that ends the loop. *)
Lemma scan_bounds bytes shift :
  Forall (λ b, 0 <= b < 2 ^ 8) bytes → 0 <= shift < 2 ^ 7 →
  ∃ cs shift', Kbd.scan bytes shift = (cs ++ [-1], shift') ∧ length cs = length bytes
    ∧ Forall (λ c, 0 <= c < 2 ^ 8) cs ∧ 0 <= shift' < 2 ^ 7.
Proof.
  intros Hb. revert shift. induction Hb as [|b bytes Hb _ IH]; intros shift Hs; cbn [Kbd.scan]; [by exists [], shift|].
  pose proof (kbdgetc_bounds b shift Hb Hs) as Hr. unfold in_range in Hr.
  destruct (Kbd.kbdgetc (Some b) shift) as [c s1]. cbn [fst snd] in Hr.
  destruct (IH s1) as (cs & s2 & -> & Hlen & Hcs & Hs2); [lia|]. exists (c :: cs), s2. split_and!; cbn; try done; try lia.
  constructor; [lia|done].
Qed.

(** Shift, h, release; i; caps lock, a; control-p; keypad enter: [Hi], [A], ^P, newline. *)
Example typed : Kbd.scan [0x2A; 0x23; 0xA3; 0xAA; 0x17; 0x3A; 0x1E; 0x1D; 0x19; 0xE0; 0x1C] 0
  = ([0; 72; 0; 0; 105; 0; 65; 0; 16; 0; 13; -1], 10).
Proof. vm_compute. reflexivity. Qed.
