(* ===== verification/Trap.v ===== *)
(** * Traps (trap.c)

    The handler of system calls, interrupts and faults.  [cpu] is [cpuid()]; [scancodes]
    are the bytes the keyboard controller has, and [serial_in] the results of [uartgetc], at
    the interrupts of the two
    devices.  [enter] runs a handler as the machine does: the calls of [wakeup] that the
    components made reach the process table, and a process that has to wait inside a
    component goes to sleep. *)
From S2P Require Import Prelude Params ProcState Sched Proc Block Bio BioInv Log Store Str Fs.
From S2P Require Import Kalloc Vm Pipe File Syscall Console Kernel Sysfile Exec Sysproc Kbd.

Definition DPL_USER : Z := 3.

Section trap.
Context {S : Type} `{!BlockStore S, !Transactions S}.
Context `{!FileEnv (kern S), !ProcEnv (filest (kern S)), !UserMem (filest (kern S)), !ExecEnv (filest (kern S))}.
Context (dev_read : Z → option (nat → Z → M (fsstate S) (Z * list Z))).
Context (dev_write : Z → option (nat → list Z → Z → M (fsstate S) Z)).
Abbreviation PM := (M (pstate (filest (kern S)))).

(** The calls of [wakeup] made by the components reach the process table. *)
Definition deliver : PM unit :=
  ws ← on_kern (gets kern_wakeups);
  on_kern (modify kern_woken);;
  mfor ws wakeup1.

(** A process that waits inside a component: [wait], [thread_join] and [sys_sleep]
    have called [sleep] themselves. *)
Definition fall_asleep (c : chan) : PM unit :=
  cur ← on_k (gets cpu_proc);
  match cur with
  | None => panic "sleep"
  | Some p =>
      pr ← getp p;
      if decide (p_state pr = SLEEPING) then mret tt
      else sleep_begin (Some c) (Some (mret tt))
  end.

Definition enter {A} (m : PM A) : PM A := λ s,
  match m s with
  | Ret a s' => (deliver;; mret a) s'
  | Asleep c s' => (deliver;; fall_asleep c;; go_to_sleep c) s'
  | Panic msg => Panic msg
  | Fault => Fault
  end.

(** The file system sees the running process. *)
Definition as_running : PM unit :=
  cur ← on_k (gets cpu_proc);
  match cur with
  | None => mret tt
  | Some p => c ← getp p; on_kern (on_fs (modify (as_caller c)))
  end.

(** [if(myproc() && myproc()->killed && (tf->cs&3) == DPL_USER) exit();] and the rest *)
Definition unless_killed {A} (cs : Z) (rest : PM (flow A)) : PM (flow A) :=
  cur ← on_k (gets cpu_proc);
  match cur with
  | None => rest
  | Some p =>
      c ← getp p;
      if negb (p_killed c =? 0) && (Z.land cs 3 =? DPL_USER) then exit;; mret Exits else rest
  end.

(** [case T_IRQ0 + IRQ_TIMER] *)
Definition timer_intr (cpu : Z) : PM unit :=
  if cpu =? 0 then
    on_kern acquire_ticks;;
    on_kern (modify (λ k, set_kn_ticks (u32 (kn_ticks k + 1)) k));;
    wakeup ChTicks;;
    on_kern release_ticks
  else mret tt.

Definition kbdintr (scancodes : list Z) : PM unit :=
  shift ← on_kern (gets kn_shift);
  let '(keys, shift) := Kbd.scan scancodes shift in
  on_kern (modify (set_kn_shift shift));;
  on_kern (on_cons (consoleintr keys));;
  mret tt.
Definition uartintr (serial_in : list Z) : PM unit := on_kern (on_cons (consoleintr serial_in));; mret tt.

(** The switch on [tf->trapno]. *)
Definition trap_switch (trapno cs cpu : Z) (scancodes serial_in : list Z) : PM unit :=
  if trapno =? T_IRQ0 + IRQ_TIMER then timer_intr cpu
  else if (trapno =? T_IRQ0 + IRQ_IDE) || (trapno =? T_IRQ0 + IRQ_IDE + 1) then mret tt
  else if trapno =? T_IRQ0 + IRQ_KBD then kbdintr scancodes
  else if trapno =? T_IRQ0 + IRQ_COM1 then uartintr serial_in
  else if (trapno =? T_IRQ0 + 7) || (trapno =? T_IRQ0 + IRQ_SPURIOUS) then mret tt
  else
    cur ← on_k (gets cpu_proc);
    match cur with
    | None => panic "trap"
    | Some p =>
        if Z.land cs 3 =? 0 then panic "trap" else
        updp p (set_p_killed 1)
    end.

(** The tick of the running process, which may have used up its quantum. *)
Definition trap_tick (trapno : Z) : PM (flow unit) :=
  cur ← on_k (gets cpu_proc);
  match cur with
  | None => mret (Goes tt)
  | Some p =>
      c ← getp p;
      if bool_decide (p_state c = RUNNING) && (trapno =? T_IRQ0 + IRQ_TIMER) then
        r ← on_k tick_add_MLFQ;
        if negb (r =? 0) then yield_begin;; mret (Yields tt) else mret (Goes tt)
      else mret (Goes tt)
  end.

(** A system call: [tf] is the frame on the kernel stack. *)
Definition trap_syscall (tf : trapframe) : PM (flow unit) :=
  p ← myproc;
  c ← getp p;
  if negb (p_killed c =? 0) then exit;; mret Exits else
  updp p (set_p_tf tf);;
  r ← syscall dev_read dev_write;
  match r with
  | Goes _ =>
      p ← myproc;
      c ← getp p;
      if negb (p_killed c =? 0) then exit;; mret Exits else mret (Goes tt)
  | Exits => mret Exits
  | Yields _ => mret (Yields tt)
  end.

Definition trap (trapno : Z) (tf : trapframe) (cpu : Z) (scancodes serial_in : list Z) : PM (flow unit) :=
  enter (
    as_running;;
    if trapno =? T_SYSCALL then trap_syscall tf else
    trap_switch trapno (tf_cs tf) cpu scancodes serial_in;;
    unless_killed (tf_cs tf) (
      r ← trap_tick trapno;
      match r with
      | Goes _ => unless_killed (tf_cs tf) (mret (Goes tt))
      | r => mret r
      end)).

(** What is left of a trap when the process is back from [yield]: after a timer
    interrupt, and after [sys_yield]. *)
Definition trap_back (cs : Z) : PM (flow unit) :=
  enter (yield_end;; unless_killed cs (mret (Goes tt))).
Definition trap_syscall_back : PM (flow unit) :=
  enter (
    syscall_back 0;;
    p ← myproc;
    c ← getp p;
    if negb (p_killed c =? 0) then exit;; mret Exits else mret (Goes tt)).
End trap.
