(* ===== verification/TrapInv.v ===== *)
(** * Every trap keeps the process table well formed

    The invariant of [ProcInv], carried through the system calls, the dispatcher and the
    trap handler of the composed kernel. *)
From S2P Require Import Prelude Params ProcState Sched Proc ProcInv Block Bio BioInv Log Store Str Fs.
From S2P Require Import Kalloc Vm Pipe File Syscall Console Kernel Sysfile Exec Sysproc Trap.

Section calls.
Context {E : Type} `{!ProcEnv E, !UserMem E, !ExecEnv E}.

(** The functions that only read the process table keep any property of it. *)
Definition reads {A} (m : M (pstate E) A) : Prop := ∀ J : kstate → Prop, keeps (λ s, J (ps_k s)) m.

Lemma reads_ret {A} (a : A) : reads (mret a).
Proof. intros J. by apply spec_ret. Qed.
Lemma reads_bind {A B} (m : M (pstate E) A) (f : A → M (pstate E) B) :
  reads m → (∀ a, reads (f a)) → reads (m ≫= f).
Proof. intros Hm Hf J. eapply spec_bind; [apply Hm|]. intros a _. apply Hf. Qed.
Lemma reads_env {A} (m : M E A) : reads (on_env m).
Proof. intros J s Hs. unfold on_env. by destruct (m (ps_env s)). Qed.
Lemma reads_fault {A} : reads (fault (A := A)).
Proof. by intros J s. Qed.
Lemma reads_deref {A} (o : option A) : reads (deref o).
Proof. destruct o; [apply reads_ret|apply reads_fault]. Qed.
Lemma reads_getp i : reads (getp i).
Proof. intros J s Hs. unfold getp, on_k, ProcState.getp. by destruct (_ !! i). Qed.
Lemma reads_gets {A} (f : kstate → A) : reads (on_k (gets f)).
Proof. intros J s Hs. done. Qed.
Lemma reads_myproc : reads myproc.
Proof. intros J s Hs. unfold myproc, on_k, ProcState.myproc, gets, mbind, M_bind, deref. by destruct (cpu_proc _). Qed.

Ltac reads_auto :=
  repeat first
    [ apply reads_ret | apply reads_env | apply reads_fault | apply reads_deref | apply reads_getp
    | apply reads_gets | apply reads_myproc | assumption
    | lazymatch goal with
      | |- reads (mbind _ _) => apply reads_bind; [|intros ?]
      | |- reads (match ?x with _ => _ end) => destruct x
      | |- reads (let _ := _ in _) => cbv zeta
      end ].

Lemma reads_curproc : reads curproc.
Proof. unfold curproc. reads_auto. Qed.
Lemma reads_fetchint a : reads (fetchint a).
Proof. pose proof reads_curproc. unfold fetchint, load_int. reads_auto. Qed.
Lemma reads_argint n : reads (argint n).
Proof. pose proof reads_curproc. unfold argint. apply reads_bind; [done|]. intros. apply reads_fetchint. Qed.
Lemma reads_fetchstr a : reads (fetchstr a).
Proof.
  pose proof reads_curproc. assert (∀ n d b, reads (fetchstr_loop n d b)) as Hl.
  { induction n as [|n IH]; intros; cbn [fetchstr_loop]; reads_auto; apply IH. }
  unfold fetchstr. reads_auto. apply Hl.
Qed.
Lemma reads_argptr n z : reads (argptr n z).
Proof. pose proof reads_curproc. pose proof (reads_argint n). unfold argptr. reads_auto. Qed.
Lemma reads_argstr n : reads (argstr n).
Proof. pose proof (reads_argint n). unfold argstr. reads_auto. apply reads_fetchstr. Qed.
Lemma reads_fetch_args n a : reads (fetch_args n a).
Proof.
  revert a. induction n as [|n IH]; intros a; cbn [fetch_args]; [apply reads_ret|].
  apply reads_bind; [apply reads_fetchint|]. intros [u|]; [|apply reads_ret]. reads_auto; [apply reads_fetchstr|apply IH].
Qed.
Lemma reads_load_segments n ip d o z : reads (load_segments n ip d o z).
Proof. revert o z. induction n as [|n IH]; intros; cbn [load_segments]; reads_auto; apply IH. Qed.
Lemma reads_push_args l c d p : reads (push_args l c d p).
Proof. revert c p. induction l as [|a l IH]; intros; cbn [push_args]; reads_auto; apply IH. Qed.
End calls.

Lemma keeps_reads {E A} (m : M (pstate E) A) :
  reads m → spec (λ s : pstate E, table_ok (ps_k s)) m (λ _, True).
Proof. intros H. apply H. Qed.
#[export] Hint Resolve keeps_reads reads_curproc reads_fetchint reads_argint reads_fetchstr reads_argptr
  reads_argstr reads_fetch_args reads_load_segments reads_push_args : spec.

Section exec.
Context {E : Type} `{!ProcEnv E, !ExecEnv E, !UserMem E}.
Abbreviation I := (λ s : pstate E, table_ok (ps_k s)).

Lemma spec_exec path argv : keeps I (exec path argv).
Proof. unfold exec, exec_bad_open, exec_stack, exec_bad, exec_commit. proc_auto. Qed.
Lemma spec_sys_exec : keeps I sys_exec.
Proof. unfold sys_exec. proc_auto. apply spec_exec. Qed.
End exec.

Section sysfile.
Context {S : Type} `{!BlockStore S, !Transactions S}.
Context `{!FileEnv (kern S), !ProcEnv (filest (kern S)), !UserMem (filest (kern S)), !ExecEnv (filest (kern S))}.
Context (dev_read : Z → option (nat → Z → M (fsstate S) (Z * list Z))).
Context (dev_write : Z → option (nat → list Z → Z → M (fsstate S) Z)).
Abbreviation PS := (pstate (filest (kern S))).
Abbreviation I := (λ s : PS, table_ok (ps_k s)).

Lemma spec_fs_call {A} (m : M (fsstate S) A) : keeps I (fs_call m).
Proof. unfold fs_call. proc_auto. Qed.
Lemma spec_file_call {A} (m : M (filest (kern S)) A) : keeps I (file_call m).
Proof. unfold file_call. proc_auto. Qed.
Lemma reads_load_user d a n : reads (load_user (S := S) d a n).
Proof.
  revert a. induction n as [|n IH]; intros; cbn [load_user]; [apply reads_ret|].
  apply reads_bind; [apply reads_env|]. intros b. apply reads_bind; [apply IH|]. intros. apply reads_ret.
Qed.
Lemma reads_store_user d a l : reads (Sysfile.store_user (S := S) d a l).
Proof.
  revert a. induction l as [|b l IH]; intros; cbn [Sysfile.store_user]; [apply reads_ret|].
  apply reads_bind; [apply reads_env|]. intros _. apply IH.
Qed.
Hint Resolve spec_fs_call spec_file_call reads_load_user reads_store_user spec_sys_exec : spec.

Lemma spec_argfd n : keeps I (argfd n).
Proof. unfold argfd. proc_auto. Qed.
Lemma spec_set_fd fd f : keeps I (set_fd fd f).
Proof. unfold set_fd. proc_auto. Qed.
Hint Resolve spec_argfd spec_set_fd : spec.
Lemma spec_fdalloc f : keeps I (fdalloc f).
Proof. unfold fdalloc. proc_auto. Qed.
Lemma spec_arg_transfer : keeps I arg_transfer.
Proof. unfold arg_transfer. proc_auto. Qed.
Hint Resolve spec_fdalloc spec_arg_transfer : spec.

(** The file system calls. *)
Lemma spec_sys_dup : keeps I sys_dup.
Proof. unfold sys_dup. proc_auto. Qed.
Lemma spec_sys_read : keeps I sys_read.
Proof. unfold sys_read. proc_auto. Qed.
Lemma spec_sys_pread : keeps I sys_pread.
Proof. unfold sys_pread. proc_auto. Qed.
Lemma spec_sys_write : keeps I sys_write.
Proof. unfold sys_write. proc_auto. Qed.
Lemma spec_sys_pwrite : keeps I sys_pwrite.
Proof. unfold sys_pwrite. proc_auto. Qed.
Lemma spec_sys_close : keeps I sys_close.
Proof. unfold sys_close. proc_auto. Qed.
Lemma spec_sys_fstat : keeps I sys_fstat.
Proof. unfold sys_fstat, store_stat. proc_auto. Qed.
Lemma spec_sys_link : keeps I (sys_link dev_read dev_write).
Proof. unfold sys_link. proc_auto. Qed.
Lemma spec_sys_unlink : keeps I (sys_unlink dev_read dev_write).
Proof. unfold sys_unlink. proc_auto. Qed.
Lemma spec_sys_open : keeps I (sys_open dev_read dev_write).
Proof. unfold sys_open. proc_auto. Qed.
Lemma spec_sys_mkdir : keeps I (sys_mkdir dev_read dev_write).
Proof. unfold sys_mkdir. proc_auto. Qed.
Lemma spec_sys_mknod : keeps I (sys_mknod dev_read dev_write).
Proof. unfold sys_mknod. proc_auto. Qed.
Lemma spec_sys_chdir : keeps I (sys_chdir dev_read).
Proof. unfold sys_chdir. proc_auto. Qed.
Lemma spec_sys_pipe : keeps I sys_pipe.
Proof. unfold sys_pipe. proc_auto. Qed.
Hint Resolve spec_sys_dup spec_sys_read spec_sys_pread spec_sys_write spec_sys_pwrite spec_sys_close
  spec_sys_fstat spec_sys_link spec_sys_unlink spec_sys_open spec_sys_mkdir spec_sys_mknod
  spec_sys_chdir spec_sys_pipe : spec.

(** The process calls. *)
Lemma reads_kern {A} (m : M (kern S) A) : reads (on_kern m).
Proof. apply reads_env. Qed.
Lemma reads_store_result a v : reads (store_result (S := S) a v).
Proof.
  destruct v as [v|]; [|apply reads_ret]. cbn [store_result].
  destruct (KERNBASE <? u32 a + 4); [apply reads_fault|]. apply reads_bind; [apply reads_curproc|]. intros. apply reads_store_user.
Qed.
Hint Resolve reads_kern reads_store_result : spec.
Hint Extern 1 (keeps_opt (Some _)) => unfold keeps_opt : spec.

Lemma spec_sys_kill : keeps I sys_kill.
Proof. unfold sys_kill. proc_auto. Qed.
Lemma spec_sys_getpid : keeps I sys_getpid.
Proof. unfold sys_getpid. proc_auto. Qed.
Lemma spec_sys_sbrk : keeps I sys_sbrk.
Proof. unfold sys_sbrk. proc_auto. Qed.
Lemma spec_sys_sleep_loop n t : keeps I (sys_sleep_loop n t).
Proof. unfold sys_sleep_loop. proc_auto. Qed.
Hint Resolve spec_sys_sleep_loop : spec.
Lemma spec_sys_sleep : keeps I sys_sleep.
Proof. unfold sys_sleep. proc_auto. Qed.
Lemma spec_sys_uptime : keeps I sys_uptime.
Proof. unfold sys_uptime. proc_auto. Qed.
Lemma spec_sys_yield : keeps I sys_yield.
Proof. unfold sys_yield. proc_auto. Qed.
Lemma spec_sys_getlev : keeps I sys_getlev.
Proof. unfold sys_getlev. proc_auto. Qed.
Lemma spec_sys_set_cpu_share : keeps I sys_set_cpu_share.
Proof. unfold sys_set_cpu_share. proc_auto. Qed.
Lemma spec_sys_thread_exit : keeps I sys_thread_exit.
Proof. unfold sys_thread_exit. proc_auto. Qed.
Lemma spec_sys_thread_join : keeps I sys_thread_join.
Proof. unfold sys_thread_join. proc_auto. Qed.
Lemma spec_sys_exit : keeps I sys_exit.
Proof. unfold sys_exit. proc_auto. Qed.
Hint Resolve spec_sys_kill spec_sys_getpid spec_sys_sbrk spec_sys_sleep spec_sys_uptime spec_sys_yield
  spec_sys_getlev spec_sys_set_cpu_share spec_sys_thread_exit spec_sys_thread_join spec_sys_exit : spec.

(** [reads] in front of an allocation. *)
Lemma alloc_reads {A B} (m : M PS A) (f : A → M PS B) Q :
  reads m → (∀ a, alloc_spec (f a) Q) → alloc_spec (m ≫= f) Q.
Proof.
  intros Hm Hf. eapply alloc_before; [apply (Hm table_ok)|intros n; apply (Hm (λ k, nextpid k = n))|].
  intros a _. apply Hf.
Qed.

Lemma alloc_sys_thread_create : alloc_spec sys_thread_create (λ _, True).
Proof.
  unfold sys_thread_create.
  do 3 (apply alloc_reads; [apply reads_argint|intros [?|]; [|by apply spec_alloc, spec_ret]]).
  eapply alloc_bind; [apply thread_create_spec|]. intros [r v] _. proc_auto.
Qed.

Lemma alloc_goes (m : M PS Z) : alloc_spec m (λ _, True) → alloc_spec (goes m) (λ _, True).
Proof. intros H. unfold goes. eapply alloc_bind; [done|]. intros. by apply spec_ret. Qed.

Lemma alloc_syscalls f : f ∈ syscalls dev_read dev_write → alloc_spec f (λ _, True).
Proof.
  unfold syscalls, sys_fork, sys_wait, sys_log_call.
  repeat (intros [->|H]%elem_of_cons; [|revert H]); try (by intros ?%elem_of_nil);
    first [ apply alloc_goes, fork_spec | apply alloc_goes, alloc_sys_thread_create
          | apply alloc_goes, spec_alloc; solve [eauto 3 with spec]
          | apply spec_alloc; solve [eauto 3 with spec] ].
Qed.

Lemma alloc_syscall : alloc_spec (syscall dev_read dev_write) (λ _, True).
Proof.
  unfold syscall. apply alloc_reads; [apply reads_myproc|]. intros cur.
  apply alloc_reads; [apply reads_getp|]. intros c. cbv zeta.
  destruct (if 0 <? _ then _ else _) as [f|] eqn:Hf.
  - assert (f ∈ syscalls dev_read dev_write) as Hin.
    { case_match; [|done]. by eapply list_elem_of_lookup_2. }
    eapply alloc_bind; [by apply alloc_syscalls|]. intros r _. unfold set_result. proc_auto.
  - apply spec_alloc. unfold set_result. proc_auto.
Qed.

(** ** The trap handler *)
Lemma spec_deliver : keeps I deliver.
Proof. unfold deliver. proc_auto. Qed.
Lemma spec_fall_asleep c : keeps I (fall_asleep c).
Proof. unfold fall_asleep. proc_auto. apply spec_sleep_begin. by apply spec_ret. Qed.
Hint Resolve spec_deliver spec_fall_asleep : spec.

Lemma alloc_enter {A} (m : M PS A) : alloc_spec m (λ _, True) → alloc_spec (enter m) (λ _, True).
Proof.
  intros H s Hs Hr. specialize (H s Hs Hr). unfold enter. destruct (m s) as [a s'| | |c s']; try done.
  - destruct H as [H _]. assert (keeps I (deliver;; mret a)) as Hd by proc_auto. by apply Hd.
  - assert (keeps I (deliver;; fall_asleep c;; go_to_sleep (A := A) c)) as Hd by proc_auto.
    by apply Hd.
Qed.

Lemma spec_unless_killed {A} cs (m : M PS (flow A)) : keeps I m → keeps I (unless_killed cs m).
Proof. intros H. unfold unless_killed. proc_auto. Qed.

Lemma spec_trap_switch n cs cpu keys ser : keeps I (trap_switch n cs cpu keys ser).
Proof. unfold trap_switch, timer_intr, kbdintr, uartintr. proc_auto. Qed.
Lemma spec_trap_tick n : keeps I (trap_tick n).
Proof. unfold trap_tick. proc_auto. Qed.

Lemma alloc_trap_syscall tf : alloc_spec (trap_syscall dev_read dev_write tf) (λ _, True).
Proof.
  unfold trap_syscall. apply alloc_reads; [apply reads_myproc|]. intros p.
  apply alloc_reads; [apply reads_getp|]. intros c. case_match; [apply spec_alloc; proc_auto|].
  eapply (alloc_before _ _ (λ _, True)).
  - proc_auto.
  - intros n s Hs. unfold updp, on_k, ProcState.updp. by destruct (_ !! p).
  - intros _ _. eapply alloc_bind; [apply alloc_syscall|]. intros r _. proc_auto.
Qed.

Lemma alloc_trap n tf cpu keys ser : alloc_spec (trap dev_read dev_write n tf cpu keys ser) (λ _, True).
Proof.
  unfold trap. apply alloc_enter. apply alloc_reads.
  { unfold as_running. apply reads_bind; [apply reads_gets|]. intros [p|]; [|apply reads_ret].
    apply reads_bind; [apply reads_getp|]. intros. apply reads_kern. }
  intros _. case_match; [apply alloc_trap_syscall|]. apply spec_alloc.
  eapply spec_bind; [apply spec_trap_switch|]. intros _ _. apply spec_unless_killed.
  eapply spec_bind; [apply spec_trap_tick|]. intros [] _; [|by apply spec_ret..].
  apply spec_unless_killed. by apply spec_ret.
Qed.
End sysfile.
