(* ===== verification/TrapThms.v ===== *)
(** * The kernel from the outside: traps, system calls, sleeping for ticks *)
From S2P Require Import Prelude Params ProcState Sched SchedInv SchedPick SchedShare SchedThms.
From S2P Require Import Proc ProcInv ProcThms Block Bio BioInv Log Store Str Fs.
From S2P Require Import Kalloc Vm Pipe File Syscall Console Kernel Sysfile Exec Sysproc Trap TrapInv.

Section trap.
Context {S : Type} `{!BlockStore S, !Transactions S}.
Context `{!FileEnv (kern S), !ProcEnv (filest (kern S)), !UserMem (filest (kern S)), !ExecEnv (filest (kern S))}.
Context (dev_read : Z → option (nat → Z → M (fsstate S) (Z * list Z))).
Context (dev_write : Z → option (nat → list Z → Z → M (fsstate S) Z)).
Abbreviation PS := (pstate (filest (kern S))).
Implicit Types (s : PS).

(** What the machine does: a trap, the way back of a process that had yielded or
    slept, and the steps of the scheduler.  What a system call does after it has slept
    is not among the events. *)
Inductive event :=
| Trap (trapno : Z) (tf : trapframe) (cpu : Z) (scancodes serial_in : list Z)
| TrapBack (cs : Z) | SyscallBack | Awake | Visit (p : nat) | Back | Forkret (first : bool).

Definition handle (e : event) : M PS unit :=
  match e with
  | Trap n tf cpu keys ser => trap dev_read dev_write n tf cpu keys ser;; mret tt
  | TrapBack cs => trap_back cs;; mret tt
  | SyscallBack => trap_syscall_back;; mret tt
  | Awake => sleep_end None
  | Visit p => scheduler_visit p;; mret tt
  | Back => scheduler_back
  | Forkret first => forkret first;; mret tt
  end.

Inductive machine_step : PS → PS → Prop :=
| machine_ret e s s' : nextpid (ps_k s) < 2 ^ 31 - 1 → handle e s = Ret tt s' → machine_step s s'
| machine_sleep e c s s' : nextpid (ps_k s) < 2 ^ 31 - 1 → handle e s = Asleep c s' → machine_step s s'.

Lemma alloc_handle e : alloc_spec (handle e) (λ _, True).
Proof.
  assert (∀ {A} (m : M PS A), alloc_spec m (λ _, True) → alloc_spec (m;; mret tt) (λ _, True)) as Hd.
  { intros A m H. eapply alloc_bind; [done|]. intros. by apply spec_ret. }
  destruct e; cbn [handle]; try (apply Hd).
  - apply alloc_trap.
  - apply alloc_enter, spec_alloc. unfold yield_end. eapply spec_bind; [eauto with spec|].
    intros _ _. apply spec_unless_killed. by apply spec_ret.
  - apply alloc_enter, spec_alloc. unfold syscall_back, yield_end, set_result. proc_auto.
  - by apply spec_alloc, spec_sleep_end.
  - apply spec_alloc. eauto with spec.
  - apply spec_alloc, spec_scheduler_back.
  - apply spec_alloc. eauto with spec.
Qed.

(** The process table keeps its shape.  Through any sequence of traps, ways back from a
    yield or a sleep and steps of the scheduler that the model runs, the arrays of the
    process table and of the scheduler keep their lengths, every link between processes
    is null or names a slot, and ids in use are unique.  Of a call that falls asleep the
    part before the sleep is run, the rest only for [yield] and for the return from the
    trap; a run that faults or panics ends there, which includes a result stored by
    [sys_thread_create] or [sys_thread_join] at an address in the kernel: the code makes
    that store, and no invariant of the kernel survives it. *)
Theorem kernel_table_invariant s0 s :
  table_ok (ps_k s0) → rtc machine_step s0 s → table_ok (ps_k s).
Proof.
  intros H0 Hsteps. induction Hsteps as [|s0 s1 s2 Hst _ IH]; [done|]. apply IH.
  destruct Hst as [e s s' Hr H|e c s s' Hr H]; pose proof (alloc_handle e s H0 Hr) as Hop;
    rewrite H in Hop; [by destruct Hop|done].
Qed.

(** System call numbers.  [syscall] runs the function of the table when the number
    in eax is one of the 31 calls; for every other value, zero, negative and too large
    ones included, the only effect of the call is -1 in the caller's eax. *)
Theorem syscall_unknown s cur c :
  cpu_proc (ps_k s) = Some cur → ptable (ps_k s) !! cur = Some c →
  ¬ (1 <= s32 (tf_eax (p_tf c)) <= 31) →
  syscall dev_read dev_write s
  = Ret (Goes (-1)) (with_table (<[cur := set_p_tf (set_tf_eax (2 ^ 32 - 1) (p_tf c)) c]> (ptable (ps_k s))) s).
Proof.
  intros Hcur Hc Hn. unfold syscall.
  rewrite (bind_ret _ _ _ _ _ (myproc_run _ _ Hcur)), (bind_ret _ _ _ _ _ (getp_run _ _ _ Hc)). cbv zeta.
  assert ((if 0 <? s32 (tf_eax (p_tf c)) then syscalls dev_read dev_write !! Z.to_nat (s32 (tf_eax (p_tf c)) - 1)
    else None) = None) as ->.
  { destruct (Z.ltb_spec 0 (s32 (tf_eax (p_tf c)))); [|done]. apply lookup_ge_None_2. cbn. lia. }
  unfold set_result. by rewrite (bind_ret _ _ _ _ _ (updp_run _ _ _ _ Hc)).
Qed.

(** ** Sleeping for a number of ticks *)
Definition kn s : kern S := ft_env (ps_env s).
Definition with_kn (k : kern S) s : PS :=
  mkpstate (ps_k s) (mkfilest (ft (ps_env s)) (ft_lock (ps_env s)) k).

Lemma on_kern_run {A} (m : M (kern S) A) s a k : m (kn s) = Ret a k → on_kern m s = Ret a (with_kn k s).
Proof. intros H. unfold on_kern, on_env, below. unfold kn in H. by rewrite H. Qed.
Lemma with_kn_id s : with_kn (kn s) s = s.
Proof. by destruct s as [k [? ? ?]]. Qed.

Lemma ticks_run s : on_kern (gets kn_ticks) s = Ret (kn_ticks (kn s)) s.
Proof. rewrite (on_kern_run _ _ (kn_ticks (kn s)) (kn s)) by done. by rewrite with_kn_id. Qed.
Lemma release_ticks_run s :
  kn_tickslock (kn s) = true → on_kern release_ticks s = Ret tt (with_kn (set_kn_tickslock false (kn s)) s).
Proof. intros H. apply on_kern_run. unfold release_ticks. by rewrite H. Qed.

(** The timer interrupt of the first processor. *)
Lemma timer_intr_run s :
  length (ptable (ps_k s)) = NPROC → ptable_lock (ps_k s) = false → kn_tickslock (kn s) = false →
  timer_intr 0 s = Ret tt (with_table (woken ChTicks <$> ptable (ps_k s))
    (with_kn (set_kn_ticks (u32 (kn_ticks (kn s) + 1)) (kn s)) s)).
Proof.
  intros Hlen Hl Ht. unfold timer_intr. cbn [Z.eqb].
  assert (on_kern acquire_ticks s = Ret tt (with_kn (set_kn_tickslock true (kn s)) s)) as Ha.
  { apply on_kern_run. unfold acquire_ticks. by rewrite Ht. }
  rewrite (bind_ret _ _ _ _ _ Ha). erewrite bind_ret by (by apply on_kern_run).
  erewrite bind_ret by (by apply wakeup_run). rewrite release_ticks_run by done.
  destruct s as [k [f l [m p fs c t b]]]. unfold kn, with_kn, with_table in *. cbn in *. by subst b.
Qed.

(** C36: [sys_sleep] waits for the number of ticks asked for, no less and, since every
    tick wakes it, no more.  At [k] ticks after the call, however the tick counter has
    wrapped: if [k < n] the process goes back to sleep on the ticks, with tickslock
    given back and nothing else changed, and the next timer interrupt counts the tick and
    makes it runnable; if [k >= n] the call returns 0. *)
Theorem sleep_counts_ticks s cur c n ticks0 k :
  length (ptable (ps_k s)) = NPROC →
  cpu_proc (ps_k s) = Some cur → ptable (ps_k s) !! cur = Some c → p_killed c = 0 →
  ptable_lock (ps_k s) = false → FQ_ticklock (ps_k s) = false → threadlock (ps_k s) = false →
  kn_tickslock (kn s) = true →
  0 <= n < 2 ^ 31 → 0 <= k < 2 ^ 32 → kn_ticks (kn s) = u32 (ticks0 + k) →
  if k <? n then
    ∃ s1 s2, sys_sleep_loop n ticks0 s = Asleep ChTicks s1
      ∧ ptable (ps_k s1) = <[cur := sleeper ChTicks c]> (ptable (ps_k s))
      ∧ kn s1 = set_kn_tickslock false (kn s)
      ∧ timer_intr 0 (with_lock false s1) = Ret tt s2
      ∧ kn_ticks (kn s2) = u32 (ticks0 + (k + 1))
      ∧ ptable (ps_k s2) !! cur = Some (set_p_state RUNNABLE (sleeper ChTicks c))
  else sys_sleep_loop n ticks0 s = Ret 0 (with_kn (set_kn_tickslock false (kn s)) s).
Proof.
  intros Hlen Hcur Hc Hkill Hl HF HT Ht Hn Hk Hticks. pose proof (lookup_lt_Some _ _ _ Hc) as Hlt.
  unfold sys_sleep_loop. rewrite (bind_ret _ _ _ _ _ (ticks_run s)), Hticks.
  assert (u32 (u32 (ticks0 + k) - ticks0) = k) as ->.
  { unfold u32. rewrite Zminus_mod_idemp_l. replace (ticks0 + k - ticks0) with k by lia. by apply Z.mod_small. }
  rewrite (u32_id n) by (unfold is_u32; lia). destruct (k <? n).
  2:{ by rewrite (bind_ret _ _ _ _ _ (release_ticks_run s Ht)). }
  assert (curproc s = Ret c s) as Hcp.
  { unfold curproc. rewrite (bind_ret _ _ _ _ _ (myproc_run _ _ Hcur)). by apply getp_run. }
  rewrite (bind_ret _ _ _ _ _ Hcp), Hkill. cbn [negb Z.eqb].
  eexists _, _. split_and!.
  - erewrite bind_ret; [reflexivity|]. apply sleep_begin_run; try done.
    rewrite release_ticks_run by done. reflexivity.
  - done.
  - done.
  - apply timer_intr_run; [|done|done]. cbn. by rewrite length_insert.
  - unfold kn, with_kn in *. cbn [kn_ticks ft_env ps_env with_table set_kn_ticks set_kn_tickslock with_lock] in *.
    rewrite Hticks, u32_add_l. f_equal. lia.
  - cbn [ptable ps_k with_table set_ptable with_lock set_ptable_lock with_kn].
    rewrite list_lookup_fmap, list_lookup_insert_eq by done. cbn. unfold woken, asleep_on.
    by rewrite bool_decide_true.
Qed.
End trap.

(** ** A small machine

    The composed kernel over an empty disk, with the first process running. *)
Module Machine.
Definition dev_read : Z → option (nat → Z → M (fsstate storage) (Z * list Z)) := λ _, None.
Definition dev_write : Z → option (nat → list Z → Z → M (fsstate storage) Z) := λ _, None.
#[export] Instance files : FileEnv (kern storage) := kern_files (KERNBASE + EXTMEM) dev_read dev_write.
#[export] Instance procs : ProcEnv (filest (kern storage)) :=
  kern_proc (KERNBASE + EXTMEM) (KERNBASE + EXTMEM) [] dev_read dev_write.
#[export] Instance programs : ExecEnv (filest (kern storage)) := kern_exec dev_read.

Definition disk : storage :=
  mkstorage [] [] false ∅ 0 [] [] 0 (mklogst false 0 0 0 false 1 0 (replicate 30 0)).
Definition console0 : console :=
  mkcons false true false (replicate 128 0) 0 0 0 (replicate 2000 0) 0 [] [].
Definition kernel (ticks : Z) (locked : bool) : kern storage :=
  mkkern (mkmemory false true 0 (λ _, 0) 0 0 0) ∅ (mkfs disk (mksb 0 0 0 0 0 0 0) [] false 0 0 [])
    console0 ticks locked 0.
Definition state (pr : proc) (ticks : Z) (locked : bool) : pstate (filest (kern storage)) :=
  mkpstate (first_kstate pr) (mkfilest [] false (kernel ticks locked)).

(** A timer interrupt in user mode and then a keystroke. *)
Definition user_frame : trapframe := mktf 77 0 0 0 27 35 35 35.
Definition timer_event : event := Trap 32 user_frame 0 [] [].
Definition key_event : event := Trap 33 user_frame 0 [0x23; 0x1C] [].
Definition call_event : event := Trap 64 user_frame 0 [] [].
Definition next (e : event) (s : pstate (filest (kern storage))) : pstate (filest (kern storage)) :=
  match handle dev_read dev_write e s with Ret _ s' | Asleep _ s' => s' | _ => s end.
End Machine.
#[export] Existing Instance Machine.files.
#[export] Existing Instance Machine.procs.
#[export] Existing Instance Machine.programs.

Abbreviation machine := (machine_step Machine.dev_read Machine.dev_write).

Lemma machine_event e s :
  (nextpid (ps_k s) <? 2 ^ 31 - 1) = true →
  match handle Machine.dev_read Machine.dev_write e s with Ret _ _ | Asleep _ _ => true | _ => false end = true →
  machine s (Machine.next e s).
Proof.
  intros Hr%Z.ltb_lt H. unfold Machine.next.
  destruct (handle Machine.dev_read Machine.dev_write e s) as [[] s'| | |c s'] eqn:He; try done.
  - by eapply machine_ret.
  - by eapply machine_sleep.
Qed.

(** The first process is interrupted by the timer, the line [h] is typed, and it makes
    an unknown system call. *)
Definition machine_1 : pstate (filest (kern storage)) := Machine.state first_proc (2 ^ 32 - 1) false.
Definition machine_2 : pstate (filest (kern storage)) := Machine.next Machine.timer_event machine_1.
Definition machine_3 : pstate (filest (kern storage)) := Machine.next Machine.key_event machine_2.
Definition machine_4 : pstate (filest (kern storage)) := Machine.next Machine.call_event machine_3.

Lemma machine_12 : machine machine_1 machine_2.
Proof. apply machine_event; vm_compute; reflexivity. Qed.
Lemma machine_23 : machine machine_2 machine_3.
Proof. apply machine_event; vm_compute; reflexivity. Qed.
Lemma machine_34 : machine machine_3 machine_4.
Proof. apply machine_event; vm_compute; reflexivity. Qed.

Lemma kernel_table_invariant_witness :
  table_ok (ps_k machine_4) ∧ kn_ticks (kn machine_4) = 0
  ∧ (p_tf <$> ptable (ps_k machine_4) !! 0%nat) = Some (set_tf_eax (2 ^ 32 - 1) Machine.user_frame).
Proof.
  split; [|split; vm_compute; reflexivity].
  apply (kernel_table_invariant Machine.dev_read Machine.dev_write machine_1); [exact first_state_ok|].
  exact (rtc_l _ _ _ _ machine_12 (rtc_l _ _ _ _ machine_23 (rtc_once _ _ machine_34))).
Defined.

Lemma syscall_unknown_witness :
  syscall Machine.dev_read Machine.dev_write machine_1
  = Ret (Goes (-1)) (with_table
      (<[0%nat := set_p_tf (set_tf_eax (2 ^ 32 - 1) (p_tf first_proc)) first_proc]> (ptable (ps_k machine_1))) machine_1).
Proof.
  apply (syscall_unknown Machine.dev_read Machine.dev_write machine_1 0 first_proc);
    [reflexivity|reflexivity|vm_compute; intros [H _]; by apply H].
Defined.

(** Two ticks of three have passed, the counter has wrapped. *)
Definition sleeping_machine : pstate (filest (kern storage)) := Machine.state first_proc 1 true.

Lemma sleep_counts_ticks_witness :
  ∃ s1 s2, sys_sleep_loop 3 (2 ^ 32 - 1) sleeping_machine = Asleep ChTicks s1
    ∧ ptable (ps_k s1) = <[0%nat := sleeper ChTicks first_proc]> (ptable (ps_k sleeping_machine))
    ∧ kn s1 = set_kn_tickslock false (kn sleeping_machine)
    ∧ timer_intr 0 (with_lock false s1) = Ret tt s2
    ∧ kn_ticks (kn s2) = 2
    ∧ ptable (ps_k s2) !! 0%nat = Some (set_p_state RUNNABLE (sleeper ChTicks first_proc)).
Proof.
  exact (sleep_counts_ticks sleeping_machine 0 first_proc 3 (2 ^ 32 - 1) 2
    eq_refl eq_refl eq_refl eq_refl eq_refl eq_refl eq_refl eq_refl ltac:(lia) ltac:(lia) eq_refl).
Defined.
