(* ===== verification/Ulib.v ===== *)
(** * The user library (ulib.c, printf.c)

    The memory routines run on the memory of the program; a loop without a bound of its
    own takes fuel and gives [None] when it runs out.  What a program writes is the list
    of the descriptors and bytes passed to [write]. *)
From S2P Require Import Prelude Str Console.

(** ** ulib.c *)
Module Ulib.
Fixpoint strcpy (fuel : nat) (m : mem) (s t : Z) : option mem :=
  match fuel with
  | O => None
  | S fuel' => if m t =? 0 then Some (store m s 0) else strcpy fuel' (store m s (m t)) (s + 1) (t + 1)
  end.

Fixpoint strcmp (fuel : nat) (p q : nat → Z) : option Z :=
  match fuel with
  | O => None
  | S fuel' =>
      if negb (p O =? 0) && (p O =? q O) then strcmp fuel' (λ i, p (S i)) (λ i, q (S i))
      else Some (p O - q O)
  end.

Fixpoint strlen_loop (fuel : nat) (m : mem) (s n : Z) : option Z :=
  match fuel with
  | O => None
  | S fuel' => if m (s + n) =? 0 then Some n else strlen_loop fuel' m s (n + 1)
  end.
Definition strlen (fuel : nat) (m : mem) (s : Z) : option Z := strlen_loop fuel m s 0.

Definition memset (m : mem) (dst c n : Z) : mem := stosb m dst c (Z.to_nat n).

(** The address found; 0 is the null pointer. *)
Fixpoint strchr (fuel : nat) (m : mem) (s c : Z) : option Z :=
  match fuel with
  | O => None
  | S fuel' => if m s =? 0 then Some 0 else if m s =? c then Some s else strchr fuel' m (s + 1) c
  end.

(** [gets]: [reads] are the bytes [read(0, &c, 1)] gives, its end the first result
    below 1; the characters stored before the NUL. *)
Fixpoint gets_loop (max i : Z) (reads : list Z) : list Z :=
  if i + 1 <? max then
    match reads with
    | [] => []
    | c :: reads' => c :: (if (c =? 10) || (c =? 13) then [] else gets_loop max (i + 1) reads')
    end
  else [].
Definition gets (max : Z) (reads : list Z) : list Z := gets_loop max 0 reads ++ [0].

Fixpoint atoi_loop (s : list Z) (n : Z) : Z :=
  match s with
  | [] => n
  | c :: s' => if (48 <=? c) && (c <=? 57) then atoi_loop s' (s32 (n * 10 + c - 48)) else n
  end.
Definition atoi (s : list Z) : Z := atoi_loop s 0.

Definition memmove (m : mem) (vdst vsrc n : Z) : mem := move_up m vdst vsrc (Z.to_nat n).
End Ulib.

(** ** printf.c *)
Module Printf.
Abbreviation OM := (M (list (Z * Z))).

Definition putc (fd c : Z) : OM unit := modify (λ out, out ++ [(fd, c mod 2 ^ 8)]).

Definition digits : list Z :=
  [48; 49; 50; 51; 52; 53; 54; 55; 56; 57; 65; 66; 67; 68; 69; 70].

Definition printint (fd xx base : Z) (sgn : bool) : OM unit :=
  let neg := sgn && (xx <? 0) in
  buf ← digit_loop 32 digits base (if neg then u32 (- xx) else u32 xx) [];
  let buf := buf ++ (if neg then [45] else []) in
  in_buf16 buf;;
  mfor (reverse buf) (putc fd).

(** The loop over [fmt] with its [state]: after a [%] or not. *)
Section printf.
Context (string_at : Z → list Z).

Fixpoint printf_loop (fd : Z) (fmt : list Z) (percent : bool) (ap : list Z) : OM unit :=
  match fmt with
  | [] => mret tt
  | c :: fmt' =>
      if c =? 0 then mret tt else
      if negb percent then
        if c =? 37 then printf_loop fd fmt' true ap else putc fd c;; printf_loop fd fmt' false ap
      else if c =? 100 then
        a ← deref (head ap); printint fd (s32 a) 10 true;; printf_loop fd fmt' false (tail ap)
      else if (c =? 120) || (c =? 112) then
        a ← deref (head ap); printint fd (s32 a) 16 false;; printf_loop fd fmt' false (tail ap)
      else if c =? 115 then
        a ← deref (head ap);
        mfor (if a =? 0 then null_string else string_at a) (putc fd);;
        printf_loop fd fmt' false (tail ap)
      else if c =? 99 then
        a ← deref (head ap); putc fd a;; printf_loop fd fmt' false (tail ap)
      else if c =? 37 then putc fd c;; printf_loop fd fmt' false ap
      else putc fd 37;; putc fd c;; printf_loop fd fmt' false ap
  end.
Definition printf (fd : Z) (fmt ap : list Z) : OM unit := printf_loop fd fmt false ap.
End printf.
End Printf.

(** ** Numbers in and out *)
Section numbers.

(** The digits of a number, the lowest first. *)
Definition value (base : Z) (ds : list Z) : Z := foldr (λ d v, d + base * v) 0 ds.
Definition chars (tbl ds : list Z) : list Z := (λ d, default 0 (tbl !! Z.to_nat d)) <$> ds.

Lemma digit_loop_run {S} (s : S) tbl base (k fuel : nat) x buf :
  1 < base <= Z.of_nat (length tbl) → (k < fuel)%nat → 0 <= x < base ^ Z.of_nat (Datatypes.S k) →
  ∃ ds, digit_loop fuel tbl base x buf s = Ret (buf ++ chars tbl ds) s
    ∧ value base ds = x ∧ Forall (λ d, 0 <= d < base) ds ∧ (1 <= length ds <= Datatypes.S k)%nat.
Proof.
  intros Hb. revert k x buf. induction fuel as [|fuel IH]; intros k x buf Hk Hx; [lia|]. cbn [digit_loop].
  pose proof (Z.mod_pos_bound x base ltac:(lia)) as Hm.
  destruct (lookup_lt_is_Some_2 tbl (Z.to_nat (x mod base))) as [c Hc]; [lia|]. rewrite Hc. cbn [deref].
  rewrite bind_mret. pose proof (Z.div_mod x base ltac:(lia)) as Hdm.
  destruct (Z.eqb_spec (x / base) 0) as [H0|H0].
  - exists [x mod base]. split_and!; [cbn; by rewrite Hc|cbn; lia|by apply Forall_singleton|cbn; lia|cbn; lia].
  - assert (0 < x / base) as Hpos by (pose proof (Z.div_pos x base); lia).
    destruct k as [|k]; [rewrite Z.pow_1_r in Hx; rewrite Z.div_small in Hpos by lia; lia|].
    destruct (IH k (x / base) (buf ++ [c])) as (ds & E & Hv & Hf & Hl); [lia| |].
    { split; [lia|]. apply Z.div_lt_upper_bound; [lia|]. rewrite Nat2Z.inj_succ, Z.pow_succ_r in Hx by lia. lia. }
    exists (x mod base :: ds). rewrite E. split_and!.
    + cbn. rewrite Hc. cbn. by rewrite <-app_assoc.
    + cbn. change (foldr _ _ ds) with (value base ds). lia.
    + by constructor.
    + cbn. lia.
    + cbn. lia.
Qed.

(** [atoi] on the characters of decimal digits, the highest first. *)
Lemma s32_mul10 n d : s32 (s32 n * 10 + d) = s32 (n * 10 + d).
Proof. unfold s32. divlia. Qed.

Lemma atoi_loop_digits ds rest n :
  Forall (λ d, 0 <= d < 10) ds →
  Ulib.atoi_loop (((λ d, 48 + d) <$> ds) ++ rest) (s32 n)
  = Ulib.atoi_loop rest (s32 (foldl (λ v d, v * 10 + d) n ds)).
Proof.
  intros Hf. revert n. induction Hf as [|d ds Hd Hf IH]; intros n; [done|].
  rewrite fmap_cons. cbn [app Ulib.atoi_loop foldl].
  destruct (Z.leb_spec 48 (48 + d)), (Z.leb_spec (48 + d) 57); try lia. cbn [andb].
  replace (s32 n * 10 + (48 + d) - 48) with (s32 n * 10 + d) by lia. by rewrite s32_mul10, IH.
Qed.

Lemma value_foldl ds : foldl (λ v d, v * 10 + d) 0 (reverse ds) = value 10 ds.
Proof.
  induction ds as [|d ds IH]; [done|]. rewrite reverse_cons, foldl_app. cbn [foldl]. rewrite IH. cbn.
  change (foldr _ _ ds) with (value 10 ds). lia.
Qed.

(** The table of printf.c on decimal digits. *)
Lemma chars_decimal ds : Forall (λ d, 0 <= d < 10) ds → chars Printf.digits ds = (λ d, 48 + d) <$> ds.
Proof.
  induction 1 as [|d ds Hd _ IH]; [done|]. unfold chars in *. rewrite !fmap_cons, IH. f_equal.
  assert (d = 0 ∨ d = 1 ∨ d = 2 ∨ d = 3 ∨ d = 4 ∨ d = 5 ∨ d = 6 ∨ d = 7 ∨ d = 8 ∨ d = 9) as Hc by lia.
  by repeat (destruct Hc as [-> | Hc]; [done|]); subst.
Qed.

Lemma put_chars fd l out :
  Forall (λ c, 0 <= c < 2 ^ 8) l → mfor l (Printf.putc fd) out = Ret tt (out ++ (pair fd <$> l)).
Proof.
  intros Hf. revert out. induction Hf as [|c l Hc Hf IH]; intros out; cbn [mfor]; [by rewrite app_nil_r|].
  rewrite (bind_ret _ _ _ tt (out ++ [(fd, c mod 2 ^ 8)])) by done. rewrite IH, Z.mod_small by done. by rewrite <-app_assoc.
Qed.

(** The text of a number: a minus sign for a negative one, then at most ten digits. *)
Lemma printint_text fd xx out :
  is_s32 xx →
  ∃ text, Printf.printint fd xx 10 true out = Ret tt (out ++ (pair fd <$> (if xx <? 0 then [45] else []) ++ text))
    ∧ (1 <= length text <= 10)%nat ∧ Forall (λ c, 48 <= c <= 57) text
    ∧ ∀ rest, Ulib.atoi (text ++ 0 :: rest) = s32 (Z.abs xx).
Proof.
  intros Hxx. unfold is_s32 in Hxx. unfold Printf.printint. cbn [andb]. set (neg := xx <? 0).
  assert ((if neg then u32 (- xx) else u32 xx) = Z.abs xx) as ->.
  { unfold neg, u32. destruct (Z.ltb_spec xx 0); rewrite Z.mod_small; lia. }
  destruct (digit_loop_run out Printf.digits 10 9 32 (Z.abs xx) []) as (ds & E & Hv & Hf & Hl);
    [cbn; lia|lia|change (10 ^ Z.of_nat 10) with 10000000000; lia|].
  rewrite (bind_ret _ _ _ _ _ E), (chars_decimal ds Hf). cbn [app].
  assert (Forall (λ c, 48 <= c <= 57) (reverse ((λ d, 48 + d) <$> ds))) as Hc.
  { apply Forall_reverse, Forall_fmap. eapply Forall_impl; [done|]. cbn. intros. lia. }
  assert (Forall (λ c, 0 <= c < 2 ^ 8) (reverse (((λ d, 48 + d) <$> ds) ++ (if neg then [45] else [])))) as Hb.
  { rewrite reverse_app. apply Forall_app. split; [destruct neg; repeat constructor; lia|].
    eapply Forall_impl; [done|]. cbn. intros. lia. }
  unfold in_buf16. rewrite length_app, length_fmap.
  destruct (Nat.leb_spec (length ds + length (if neg then [45] else [])) 16); [|destruct neg; cbn in *; lia].
  rewrite bind_mret, (put_chars fd _ _ Hb), reverse_app.
  exists (reverse ((λ d, 48 + d) <$> ds)). split_and!; [by destruct neg| | |done|].
  - rewrite length_reverse, length_fmap. lia.
  - rewrite length_reverse, length_fmap. lia.
  - intros rest. unfold Ulib.atoi. rewrite <-fmap_reverse.
    etrans; [by apply (atoi_loop_digits (reverse ds) (0 :: rest) 0), Forall_reverse|]. by rewrite value_foldl, Hv.
Qed.

(** Printing a number and reading it back.  For every 32-bit integer, the smallest
    one included, the decimal [printint] of printf.c writes a minus sign exactly for the
    negative ones and then digits, at most ten, so that its buffer of 16 characters is
    never overrun, from which [atoi] of ulib.c computes the absolute value (as an int),
    whatever non-digit follows; for a number that is not negative [atoi] of the whole
    text is the number. *)
Theorem printint_atoi fd xx out :
  is_s32 xx →
  ∃ text, Printf.printint fd xx 10 true out = Ret tt (out ++ (pair fd <$> (if xx <? 0 then [45] else []) ++ text))
    ∧ (1 <= length text <= 10)%nat ∧ Forall (λ c, 48 <= c <= 57) text
    ∧ ∀ rest, Ulib.atoi (text ++ 0 :: rest) = s32 (Z.abs xx).
Proof. apply printint_text. Qed.

Lemma printint_atoi_witness :
  ∃ text, Printf.printint 1 (- 2 ^ 31) 10 true [] = Ret tt ([] ++ (pair 1 <$> [45] ++ text))
    ∧ (1 <= length text <= 10)%nat ∧ Forall (λ c, 48 <= c <= 57) text
    ∧ ∀ rest, Ulib.atoi (text ++ 0 :: rest) = - 2 ^ 31.
Proof. exact (printint_atoi 1 (- 2 ^ 31) [] ltac:(unfold is_s32; lia)). Defined.
End numbers.
