(* ===== verification/Umalloc.v ===== *)
(** * The user memory allocator (umalloc.c)

    The free blocks form a ring of headers in address order, through [base], a header
    of size 0 in the data of the program.  A header is kept at its address; sizes count
    headers of 8 bytes.  [granted brk n] is whether the kernel lets [sbrk(n)] move the
    break from [brk]; [sbrk] then returns the old break, and -1 otherwise. *)
From S2P Require Import Prelude.

(** [Header], [base] and [freep], and the break of the process. *)
Record heap := mkheap {
  hp_hdr : gmap Z (Z * Z);  (* s.ptr and s.size *)
  hp_freep : Z;             (* 0 is the null pointer *)
  hp_brk : Z
}.
Definition set_hp_hdr (v : gmap Z (Z * Z)) (h : heap) : heap := mkheap v (hp_freep h) (hp_brk h).
Definition set_hp_freep (v : Z) (h : heap) : heap := mkheap (hp_hdr h) v (hp_brk h).
Definition set_hp_brk (v : Z) (h : heap) : heap := mkheap (hp_hdr h) (hp_freep h) v.

Definition sizeof_Header : Z := 8.

Section umalloc.
Context (base : Z) (granted : Z → Z → bool).
Abbreviation HM := (M heap).

(** [p->s], [p->s.ptr = v], [p->s.size = v]; [p + n] on [Header *]. *)
Definition hdr (p : Z) : HM (Z * Z) := h ← get; deref (hp_hdr h !! p).
Definition set_ptr (p v : Z) : HM unit :=
  modify (λ h, set_hp_hdr (<[p := (v, (default (0, 0) (hp_hdr h !! p)).2)]> (hp_hdr h)) h).
Definition set_size (p v : Z) : HM unit :=
  modify (λ h, set_hp_hdr (<[p := ((default (0, 0) (hp_hdr h !! p)).1, v)]> (hp_hdr h)) h).
Definition hplus (p n : Z) : Z := u32 (p + n * sizeof_Header).

(** The loop of [free]: the free block after which [bp] belongs. *)
Fixpoint free_scan (fuel : nat) (bp p : Z) : HM Z :=
  '(next, _) ← hdr p;
  if (p <? bp) && (bp <? next) then mret p else
  if (next <=? p) && ((p <? bp) || (bp <? next)) then mret p else
  match fuel with O => fault | S fuel' => free_scan fuel' bp next end.

(** The rest of [free]: link [bp] after [p] and join neighbours. *)
Definition free_link (bp p : Z) : HM unit :=
  '(_, bsize) ← hdr bp;
  '(pnext, _) ← hdr p;
  (if hplus bp bsize =? pnext then
     '(nnext, nsize) ← hdr pnext;
     set_size bp (u32 (bsize + nsize));;
     set_ptr bp nnext
   else set_ptr bp pnext);;
  '(_, psize) ← hdr p;
  (if hplus p psize =? bp then
     '(bnext, bsize) ← hdr bp;
     set_size p (u32 (psize + bsize));;
     set_ptr p bnext
   else set_ptr p bp);;
  modify (set_hp_freep p).

(** A scan meets every header of the ring at most once. *)
Definition ring_fuel : HM nat := h ← get; mret (2 * size (hp_hdr h) + 4)%nat.

Definition free (ap : Z) : HM unit :=
  let bp := hplus ap (-1) in
  fuel ← ring_fuel;
  freep ← gets hp_freep;
  p ← free_scan fuel bp freep;
  free_link bp p.

Definition sbrk (n : Z) : HM Z :=
  h ← get;
  if granted (hp_brk h) n then
    modify (set_hp_brk (u32 (hp_brk h + n)));;
    mret (hp_brk h)
  else mret (u32 (-1)).

Definition morecore (nu : Z) : HM Z :=
  let nu := if nu <? 4096 then 4096 else nu in
  p ← sbrk (s32 (nu * sizeof_Header));
  if p =? u32 (-1) then mret 0 else
  set_size p nu;;
  free (hplus p 1);;
  gets hp_freep.

(** The block at [p] is big enough: all of it, or its tail. *)
Definition malloc_take (nunits prevp p : Z) : HM Z :=
  '(next, sz) ← hdr p;
  q ← (if sz =? nunits then set_ptr prevp next;; mret p else
       set_size p (u32 (sz - nunits));;
       let q := hplus p (u32 (sz - nunits)) in
       set_size q nunits;;
       mret q);
  modify (set_hp_freep prevp);;
  mret (hplus q 1).

(** The loop of [malloc]. *)
Fixpoint malloc_scan (fuel : nat) (nunits prevp p : Z) : HM Z :=
  '(_, sz) ← hdr p;
  if nunits <=? sz then malloc_take nunits prevp p else
  freep ← gets hp_freep;
  r ← (if p =? freep then q ← morecore nunits; mret (if q =? 0 then None else Some q) else mret (Some p));
  match r with
  | None => mret 0
  | Some p =>
      match fuel with
      | O => fault
      | S fuel' => '(next, _) ← hdr p; malloc_scan fuel' nunits p next
      end
  end.

Definition malloc_units (nbytes : Z) : Z := u32 (nbytes + sizeof_Header - 1) / sizeof_Header + 1.

Definition malloc (nbytes : Z) : HM Z :=
  let nunits := malloc_units nbytes in
  f ← gets hp_freep;
  (if f =? 0 then
     modify (set_hp_freep base);;
     set_ptr base base;;
     set_size base 0
   else mret tt);;
  prevp ← gets hp_freep;
  fuel ← ring_fuel;
  '(p, _) ← hdr prevp;
  malloc_scan fuel nunits prevp p.
End umalloc.
