(* ===== verification/UmallocInv.v ===== *)
(** * The user memory allocator: the ring of free blocks

    The invariant: the free blocks, in address order and with gaps between them, are
    linked through their headers into a ring that starts at [base]; free and allocated
    blocks do not overlap and end below the break. *)
From S2P Require Import Prelude Umalloc.

Abbreviation blk := (Z * Z)%type.
Definition b_end (b : blk) : Z := b.1 + 8 * b.2.
(** One block ends before the other, with a gap, or in any order. *)
Definition apart (b c : blk) : Prop := b_end b < c.1.
Definition clear_of (b c : blk) : Prop := b_end b <= c.1 ∨ b_end c <= b.1.

Fixpoint sorted (l : list blk) : Prop :=
  match l with [] => True | b :: l' => Forall (apart b) l' ∧ sorted l' end.
Fixpoint scattered (l : list blk) : Prop :=
  match l with [] => True | b :: l' => Forall (clear_of b) l' ∧ scattered l' end.

(** The headers of [ns] link each to the next, the last to [stop]. *)
Fixpoint ring (m : gmap Z (Z * Z)) (ns : list blk) (stop : Z) : Prop :=
  match ns with
  | [] => True
  | b :: ns' => m !! b.1 = Some (default stop (fst <$> head ns'), b.2) ∧ ring m ns' stop
  end.

Section lists.
Implicit Types (b c : blk) (l xs ys : list blk) (m : gmap Z (Z * Z)).

Lemma clear_sym b c : clear_of b c → clear_of c b.
Proof. unfold clear_of. tauto. Qed.

Lemma sorted_app xs ys :
  sorted (xs ++ ys) ↔ sorted xs ∧ sorted ys ∧ ∀ x y, x ∈ xs → y ∈ ys → apart x y.
Proof.
  induction xs as [|x xs IH]; cbn [app sorted]; [set_solver|]. rewrite IH, Forall_app, !Forall_forall.
  set_solver.
Qed.

Lemma scattered_app xs ys :
  scattered (xs ++ ys) ↔ scattered xs ∧ scattered ys ∧ ∀ x y, x ∈ xs → y ∈ ys → clear_of x y.
Proof.
  induction xs as [|x xs IH]; cbn [app scattered]; [set_solver|]. rewrite IH, Forall_app, !Forall_forall.
  set_solver.
Qed.

#[export] Instance scattered_perm : Proper ((≡ₚ) ==> iff) scattered.
Proof.
  assert (∀ l l', l ≡ₚ l' → scattered l → scattered l') as H; [|by intros l l' Hl; split; apply H].
  induction 1 as [|x l l' Hl IH|x y l|l1 l2 l3 _ IH1 _ IH2]; cbn [scattered]; auto.
  - intros [H1 H2]. split; [by rewrite <-Hl|auto].
  - rewrite !Forall_cons. intros [[H1 H2] [H3 H4]]. split_and!; auto using clear_sym.
Qed.

Lemma ring_app m xs ys stop :
  ring m (xs ++ ys) stop ↔ ring m xs (default stop (fst <$> head ys)) ∧ ring m ys stop.
Proof.
  induction xs as [|x xs IH]; cbn [app ring]; [tauto|]. rewrite IH.
  assert (default stop (fst <$> head (xs ++ ys))
    = default (default stop (fst <$> head ys)) (fst <$> head xs)) as -> by (by destruct xs). tauto.
Qed.

Lemma ring_insert m xs stop p v : p ∉ xs.*1 → ring m xs stop → ring (<[p := v]> m) xs stop.
Proof.
  induction xs as [|x xs IH]; cbn [ring fmap list_fmap]; [done|]. intros Hp [H1 H2].
  apply not_elem_of_cons in Hp as [Hn Hp]. split; [by rewrite lookup_insert_ne|by apply IH].
Qed.

Lemma ring_lookup m xs b ys stop :
  ring m (xs ++ b :: ys) stop → m !! b.1 = Some (default stop (fst <$> head ys), b.2).
Proof. rewrite ring_app. cbn [ring]. tauto. Qed.

Lemma sorted_nodup l : sorted l → Forall (λ b, 0 <= b.2) l → NoDup l.*1.
Proof.
  induction l as [|b l IH]; cbn [sorted fmap list_fmap]; [constructor|]. intros [H1 H2] Hs.
  apply Forall_cons in Hs as [Hb Hs]. apply NoDup_cons. split; [|by apply IH].
  intros (c & Hc & Hin)%list_elem_of_fmap. rewrite Forall_forall in H1. pose proof (H1 c Hin) as Ha.
  unfold apart, b_end in Ha. lia.
Qed.

(** The headers of a ring are all in the map. *)
Lemma ring_size m l stop : ring m l stop → NoDup l.*1 → (length l <= size m)%nat.
Proof.
  intros Hr Hnd. assert (list_to_set (C := gset Z) l.*1 ⊆ dom m) as Hsub.
  { intros a (b & -> & Hin)%elem_of_list_to_set%list_elem_of_fmap. apply elem_of_dom.
    apply list_elem_of_split in Hin as (xs & ys & ->). apply ring_lookup in Hr. eauto. }
  apply subseteq_size in Hsub. rewrite size_list_to_set, length_fmap in Hsub by done.
  by rewrite size_dom in Hsub.
Qed.
End lists.

Section free.
Context (base : Z).
Implicit Types (b c p x : blk) (f xs ys : list blk) (h : heap).

Lemma hdr_run h a v : hp_hdr h !! a = Some v → hdr a h = Ret v h.
Proof. intros H. unfold hdr, get. rewrite (bind_ret _ _ _ h h) by done. by rewrite H. Qed.

(** From a block below [bp], the scan of [free] goes forward to the last one below it. *)
Lemma free_scan_forward h bp f1 p f2 fuel :
  ring (hp_hdr h) (f1 ++ p :: f2) base → sorted (f1 ++ p :: f2) → Forall (λ b, 0 <= b.2) (f1 ++ p :: f2) →
  base < bp → Forall (λ b, b.1 < bp) (f1 ++ [p]) → Forall (λ b, bp < b.1) f2 →
  Forall (λ b, base <= b.1) (f1 ++ p :: f2) → (length f1 <= fuel)%nat →
  ∀ a, head (f1 ++ p :: f2) = Some a → free_scan fuel bp a.1 h = Ret p.1 h.
Proof.
  revert fuel. induction f1 as [|x f1 IH]; intros fuel Hr Hs Hpos Hb Hlo Hhi Hbase Hfuel a Ha.
  - cbn in Ha. injection Ha as <-. cbn in Hr, Hlo, Hbase. destruct Hr as [Hp _].
    rewrite Forall_singleton in Hlo. apply Forall_cons in Hbase as [Hbase _].
    assert (∀ fuel, free_scan fuel bp p.1 h = Ret p.1 h) as H; [|apply H].
    intros [|fuel']; cbn [free_scan]; rewrite (bind_ret _ _ _ _ _ (hdr_run _ _ _ Hp));
      rewrite (proj2 (Z.ltb_lt _ _) Hlo); cbn [andb orb].
    all: destruct f2 as [|y f2]; cbn [head fmap option_fmap option_map default from_option id].
    all: try (apply Forall_cons in Hhi as [Hy _]; by rewrite (proj2 (Z.ltb_lt _ _) Hy)).
    all: rewrite (proj2 (Z.ltb_ge bp base)) by lia; rewrite (proj2 (Z.leb_le base p.1)) by lia; done.
  - cbn in Ha. injection Ha as <-. cbn [length] in Hfuel. destruct fuel as [|fuel]; [lia|].
    cbn [app ring sorted] in *. destruct Hr as [Hx Hr], Hs as [Hxs Hs].
    apply Forall_cons in Hlo as [Hlx Hlo], Hbase as [Hbx Hbase], Hpos as [Hpx Hpos].
    cbn [free_scan]. rewrite (bind_ret _ _ _ _ _ (hdr_run _ _ _ Hx)).
    destruct (head (f1 ++ p :: f2)) as [y|] eqn:Hy; [|by destruct f1].
    assert (y ∈ f1 ++ [p]) as Hyin by (destruct f1; cbn in *; simplify_eq; set_solver).
    assert (apart x y) as Hap by (rewrite Forall_forall in Hxs; apply Hxs; set_solver).
    assert (y.1 < bp) as Hyb by (rewrite Forall_forall in Hlo; by apply Hlo).
    unfold apart, b_end in Hap. cbn [fmap option_fmap option_map default from_option id].
    rewrite (proj2 (Z.ltb_ge bp y.1)) by lia. rewrite andb_false_r.
    rewrite (proj2 (Z.leb_gt y.1 x.1)) by lia. cbn [andb]. apply IH; try done. lia.
Qed.

(** From a block above [bp] it goes on to the end of the ring and around. *)
Lemma free_scan_wrap h bp ys x fuel :
  ring (hp_hdr h) (x :: ys) base → sorted (x :: ys) → Forall (λ b, 0 <= b.2) (x :: ys) →
  base < bp → Forall (λ b, bp < b.1) (x :: ys) →
  free_scan (length (x :: ys) + fuel) bp x.1 h = free_scan fuel bp base h.
Proof.
  revert x. induction ys as [|y ys IH]; intros x Hr Hs Hpos Hb Hhi.
  - cbn in Hr. destruct Hr as [Hx _]. rewrite Forall_singleton in Hhi.
    cbn [length Nat.add free_scan]. rewrite (bind_ret _ _ _ _ _ (hdr_run _ _ _ Hx)).
    rewrite (proj2 (Z.ltb_ge x.1 bp)) by lia. cbn [andb orb].
    rewrite (proj2 (Z.ltb_ge bp base)) by lia. by rewrite andb_false_r.
  - cbn [ring head fmap option_fmap option_map default from_option id] in Hr. destruct Hr as [Hx Hr].
    cbn [sorted] in Hs. destruct Hs as [Hxy Hs].
    apply Forall_cons in Hhi as [Hlx Hhi], Hpos as [Hpx Hpos], Hxy as [Hap _].
    change (length (x :: y :: ys) + fuel)%nat with (S (length (y :: ys) + fuel)).
    cbn [free_scan]. rewrite (bind_ret _ _ _ _ _ (hdr_run _ _ _ Hx)).
    unfold apart, b_end in Hap.
    rewrite (proj2 (Z.ltb_ge x.1 bp)) by lia. cbn [andb orb].
    rewrite (proj2 (Z.leb_gt y.1 x.1)) by lia. cbn [andb]. by apply IH.
Qed.

(** The ring with its start. *)
Definition nodes (fl : list blk) : list blk := (base, 0) :: fl.

Record ready (h : heap) (fl live : list blk) : Prop := {
  r_base : 0 < base < hp_brk h;
  r_brk : hp_brk h <= 2 ^ 31;
  r_ring : ring (hp_hdr h) (nodes fl) base;
  r_sorted : sorted (nodes fl);
  r_pos : Forall (λ b, 0 < b.2 ∧ b_end b <= hp_brk h) (fl ++ live);
  r_live : Forall (λ b, base < b.1 ∧ ∃ q, hp_hdr h !! b.1 = Some (q, b.2)) live;
  r_scattered : scattered (fl ++ live);
  r_freep : hp_freep h ∈ (nodes fl).*1;
}.

Lemma ready_nodes h fl live :
  ready h fl live → Forall (λ b, 0 <= b.2) (nodes fl) ∧ Forall (λ b, base <= b.1) (nodes fl).
Proof.
  intros Hr. pose proof (r_pos _ _ _ Hr) as Hp. apply Forall_app in Hp as [Hp _].
  pose proof (r_sorted _ _ _ Hr) as [Hs _]. unfold nodes. split; constructor; cbn; try lia.
  - apply (Forall_impl _ _ _ Hp). intros x [? _]. lia.
  - apply (Forall_impl _ _ _ Hs). unfold apart, b_end. cbn. intros x ?. lia.
Qed.

(** Where a block that is not free belongs. *)
Lemma split_at (l : list blk) bp :
  bp ∉ l.*1 → sorted l → Forall (λ b, 0 <= b.2) l → (∃ a, head l = Some a ∧ a.1 < bp) →
  ∃ f1 p f2, l = f1 ++ p :: f2 ∧ Forall (λ b, b.1 < bp) (f1 ++ [p]) ∧ Forall (λ b, bp < b.1) f2.
Proof.
  induction l as [|x l IH]; intros Hn Hs Hpos (a & Ha & Hab); [done|]. cbn in Ha. injection Ha as ->.
  cbn [fmap list_fmap sorted] in *. apply not_elem_of_cons in Hn as [Hna Hn]. destruct Hs as [Hx Hs].
  apply Forall_cons in Hpos as [Hp0 Hpos].
  destruct l as [|y l].
  { exists [], a, []. split_and!; [done|by constructor|constructor]. }
  destruct (decide (y.1 < bp)) as [Hy|Hy].
  - destruct IH as (f1 & p & f2 & E & H1 & H2); [done..|by exists y|].
    exists (a :: f1), p, f2. split_and!; [by rewrite E|by constructor|done].
  - exists [], a, (y :: l). split_and!; [done|by constructor|].
    assert (bp < y.1) as Hlt by (cbn in Hn; apply not_elem_of_cons in Hn as [? _]; lia).
    constructor; [done|]. destruct Hs as [Hyl _]. apply Forall_cons in Hpos as [Hpy _].
    eapply Forall_impl; [done|]. unfold apart, b_end. cbn. intros x ?. lia.
Qed.

Lemma free_scan_run h fl live bp f1 p f2 fuel :
  ready h fl live → base < bp → nodes fl = f1 ++ p :: f2 →
  Forall (λ b, b.1 < bp) (f1 ++ [p]) → Forall (λ b, bp < b.1) f2 → (2 * length (nodes fl) <= fuel)%nat →
  free_scan fuel bp (hp_freep h) h = Ret p.1 h.
Proof.
  intros Hr Hb Hn Hlo Hhi Hfuel. destruct (ready_nodes _ _ _ Hr) as [Hpos Hbase].
  pose proof (r_ring _ _ _ Hr) as Hring. pose proof (r_sorted _ _ _ Hr) as Hs.
  assert (∀ n, (length (nodes fl) <= n)%nat → free_scan n bp base h = Ret p.1 h) as Hfrom.
  { intros n Hle. rewrite Hn in Hring, Hs, Hpos, Hbase, Hle. rewrite length_app in Hle.
    apply (free_scan_forward h bp f1 p f2 n Hring Hs Hpos Hb Hlo Hhi Hbase ltac:(lia) (base, 0)).
    by rewrite <-Hn. }
  pose proof (r_freep _ _ _ Hr) as (x & Hx & Hin)%list_elem_of_fmap. rewrite Hx.
  rewrite Hn in Hin. apply list_elem_of_split in Hin as (xs & ys & Hxs).
  rewrite Hn, Hxs in Hring, Hs, Hpos, Hbase. rewrite Hn, Hxs in Hfuel.
  apply ring_app in Hring as [_ Hring]. apply sorted_app in Hs as (_ & Hs & _).
  apply Forall_app in Hpos as [_ Hpos]. apply Forall_app in Hbase as [_ Hbase].
  rewrite length_app in Hfuel.
  destruct (decide (x.1 < bp)) as [Hxb|Hxb].
  - assert (∃ g, x :: ys = g ++ p :: f2 ∧ Forall (λ b, b.1 < bp) (g ++ [p])) as (g & Hg & Hlog).
    { clear -Hxs Hlo Hhi Hxb. revert f1 Hlo Hxs. induction xs as [|z xs IH]; intros f1 Hlo Hxs; [by exists f1|].
      destruct f1 as [|z' f1]; cbn in Hxs; injection Hxs as -> Hxs.
      - subst f2. apply Forall_app in Hhi as [_ Hhi]. apply Forall_cons in Hhi as [? _]. lia.
      - apply (IH f1); [|done]. by apply Forall_cons in Hlo as [_ ?]. }
    assert (length (x :: ys) = length g + length (p :: f2))%nat as Hlen by (rewrite Hg, length_app; done).
    assert (length g <= fuel)%nat as Hle by lia. rewrite Hg in Hring, Hs, Hpos, Hbase.
    apply (free_scan_forward h bp g p f2 fuel Hring Hs Hpos Hb Hlog Hhi Hbase Hle x).
    by rewrite <-Hg.
  - assert (Forall (λ b, bp < b.1) (x :: ys)) as Hab.
    { clear -Hxs Hlo Hhi Hxb. revert f1 Hlo Hxs. induction xs as [|z xs IH]; intros f1 Hlo Hxs.
      - destruct f1 as [|z' f1]; cbn in Hxs; injection Hxs as -> Hxs; apply Forall_cons in Hlo as [? _]; lia.
      - destruct f1 as [|z' f1]; cbn in Hxs; injection Hxs as -> Hxs.
        + subst f2. by apply Forall_app in Hhi as [_ Hhi].
        + apply (IH f1); [|done]. by apply Forall_cons in Hlo as [_ ?]. }
    replace fuel with (length (x :: ys) + (fuel - length (x :: ys)))%nat by lia.
    rewrite free_scan_wrap by done. apply Hfrom. rewrite Hn, Hxs, length_app. lia.
Qed.

(** *** Linking a block in *)
(** [b] joined with the free block that begins where it ends; and with the one before. *)
Definition join_right (b : blk) (f2 : list blk) : blk * list blk :=
  match f2 with
  | y :: f2' => if b_end b =? y.1 then ((b.1, b.2 + y.2), f2') else (b, f2)
  | [] => (b, [])
  end.
Definition join_left (p b : blk) : list blk :=
  if b_end p =? b.1 then [(p.1, p.2 + b.2)] else [p; b].

(** The next header of the ring after [f2]. *)
Abbreviation next f2 := (default base (fst <$> head f2)).

Definition linked_map (m : gmap Z (Z * Z)) (p b : blk) (f2 : list blk) : gmap Z (Z * Z) :=
  let '(b', f2') := join_right b f2 in
  let m1 := <[b.1 := (next f2', b'.2)]> m in
  if b_end p =? b.1 then <[p.1 := (next f2', p.2 + b'.2)]> m1 else <[p.1 := (b.1, p.2)]> m1.

Lemma set_ptr_run h a v q n : hp_hdr h !! a = Some (q, n) →
  set_ptr a v h = Ret tt (set_hp_hdr (<[a := (v, n)]> (hp_hdr h)) h).
Proof. intros H. unfold set_ptr, modify. by rewrite H. Qed.
Lemma set_size_run h a v q n : hp_hdr h !! a = Some (q, n) →
  set_size a v h = Ret tt (set_hp_hdr (<[a := (q, v)]> (hp_hdr h)) h).
Proof. intros H. unfold set_size, modify. by rewrite H. Qed.

Lemma hplus_end b : 0 <= b.1 → 0 <= b.2 → b_end b <= 2 ^ 31 → hplus b.1 b.2 = b_end b.
Proof. intros. unfold hplus, sizeof_Header, b_end in *. rewrite u32_id; [lia|unfold is_u32; lia]. Qed.

(** What is needed of the place between [p] and [f2] where [b] goes. *)
Record slot (h : heap) (b p : blk) (f2 : list blk) : Prop := {
  sl_b : ∃ q, hp_hdr h !! b.1 = Some (q, b.2);
  sl_p : hp_hdr h !! p.1 = Some (next f2, p.2);
  sl_f2 : ring (hp_hdr h) f2 base;
  sl_pos : 0 < p.1 ∧ 0 <= p.2 ∧ 0 < b.2 ∧ base < b.1;
  sl_pb : b_end p <= b.1;
  sl_end : b_end b <= 2 ^ 31;
  sl_fit : Forall (λ y, 0 < y.2 ∧ b_end b <= y.1 ∧ b_end y <= 2 ^ 31) f2;
  sl_base : 0 < base;
  sl_pnot : p.1 ≠ b.1;
}.

Lemma free_link_run h b p f2 :
  slot h b p f2 →
  free_link b.1 p.1 h = Ret tt (mkheap (linked_map (hp_hdr h) p b f2) p.1 (hp_brk h)).
Proof.
  intros [[q Hb] Hp Hf2 (P1 & P2 & P3 & P4) Hpb Hend Hfit Hbase Hnot].
  assert (0 < b.1) by lia. assert (p.1 < b.1) by (unfold b_end in *; lia).
  unfold free_link. rewrite (bind_ret _ _ _ _ _ (hdr_run _ _ _ Hb)), (bind_ret _ _ _ _ _ (hdr_run _ _ _ Hp)).
  rewrite hplus_end by lia.
  destruct (join_right b f2) as [b' f2'] eqn:Hj.
  set (h1 := set_hp_hdr (<[b.1 := (next f2', b'.2)]> (hp_hdr h)) h).
  assert (0 < b'.2 ∧ b'.1 = b.1 ∧ b_end b' <= 2 ^ 31) as (B1 & B2 & B3).
  { destruct f2 as [|y f2]; cbn in Hj; [by injection Hj as <- <-|].
    apply Forall_cons in Hfit as [(F1 & F2 & F3) _]. destruct (Z.eqb_spec (b_end b) y.1) as [E|E];
      injection Hj as <- <-; cbn; [|done]. unfold b_end in *. cbn. split_and!; lia. }
  assert ((if b_end b =? next f2 then
     '(nnext, nsize) ← hdr (next f2);
     set_size b.1 (u32 (b.2 + nsize));;
     set_ptr b.1 nnext
   else set_ptr b.1 (next f2)) h = Ret tt h1) as Hright.
  { destruct f2 as [|y f2]; cbn [head fmap option_fmap option_map default from_option id join_right] in *.
    - rewrite (proj2 (Z.eqb_neq (b_end b) base)) by (unfold b_end; lia).
      rewrite (set_ptr_run _ _ _ _ _ Hb). by injection Hj as <- <-.
    - apply Forall_cons in Hfit as [(F1 & F2 & F3) _]. destruct (Z.eqb_spec (b_end b) y.1) as [E|E].
      + destruct Hf2 as [Hy _]. rewrite (bind_ret _ _ _ _ _ (hdr_run _ _ _ Hy)).
        rewrite (bind_ret _ _ _ _ _ (set_size_run _ _ _ _ _ Hb)).
        erewrite set_ptr_run by (cbn; apply lookup_insert_eq). injection Hj as <- <-. unfold h1. cbn.
        rewrite insert_insert_eq. rewrite u32_id; [done|]. unfold b_end, is_u32 in *. lia.
      + rewrite (set_ptr_run _ _ _ _ _ Hb). by injection Hj as <- <-. }
  rewrite (bind_ret _ _ _ _ _ Hright).
  assert (hp_hdr h1 !! p.1 = Some (next f2, p.2)) as Hp1 by (cbn; by rewrite lookup_insert_ne).
  assert (hp_hdr h1 !! b.1 = Some (next f2', b'.2)) as Hb1 by (cbn; by rewrite lookup_insert_eq).
  rewrite (bind_ret _ _ _ _ _ (hdr_run _ _ _ Hp1)).
  rewrite hplus_end by (unfold b_end in *; lia).
  unfold linked_map. rewrite Hj. destruct (Z.eqb_spec (b_end p) b.1) as [E|E].
  - rewrite bind_assoc, (bind_ret _ _ _ _ _ (hdr_run _ _ _ Hb1)).
    rewrite bind_assoc, (bind_ret _ _ _ _ _ (set_size_run _ _ _ _ _ Hp1)).
    erewrite bind_ret by (eapply set_ptr_run; cbn; apply lookup_insert_eq). cbn. rewrite insert_insert_eq.
    rewrite u32_id; [done|]. unfold b_end, is_u32 in *. lia.
  - by rewrite (bind_ret _ _ _ _ _ (set_ptr_run _ _ _ _ _ Hp1)).
Qed.

Lemma clear_join x a n1 n2 : 0 < x.2 → 0 < n1 → 0 < n2 →
  clear_of x (a, n1) → clear_of x (a + 8 * n1, n2) → clear_of x (a, n1 + n2).
Proof. unfold clear_of, b_end. cbn. lia. Qed.

(** Joining with the block after. *)
Lemma join_right_spec b f2 b' f2' brk :
  join_right b f2 = (b', f2') → 0 < b.2 → b_end b <= brk → sorted f2 →
  Forall (λ y, 0 < y.2 ∧ b_end y <= brk ∧ b_end b <= y.1) f2 →
  b'.1 = b.1 ∧ b.2 <= b'.2 ∧ b_end b' <= brk ∧ Forall (apart b') f2' ∧ (∃ g, f2 = g ++ f2')
  ∧ ∀ x, 0 < x.2 → clear_of x b → Forall (clear_of x) f2 → clear_of x b'.
Proof.
  intros Hj Hb He Hs Hf. destruct f2 as [|y f2]; cbn in Hj.
  { injection Hj as <- <-. split_and!; try done. by exists []. }
  apply Forall_cons in Hf as [(F1 & F2 & F3) Hf]. destruct Hs as [Hy Hs].
  destruct (Z.eqb_spec (b_end b) y.1) as [E|E]; injection Hj as <- <-.
  - split_and!; cbn; try lia.
    + unfold b_end in *. cbn. lia.
    + eapply Forall_impl; [apply Hy|]. unfold apart, b_end in *. cbn. intros z ?. lia.
    + by exists [y].
    + intros x Hx Hc [Hcy _]%Forall_cons. apply clear_join; [done..| |].
      * by destruct b.
      * unfold b_end in E. rewrite E. by destruct y.
  - split_and!; try done; [|by exists []]. constructor; [unfold apart; lia|].
    rewrite Forall_forall in *. intros z Hz. specialize (Hy z Hz). unfold apart, b_end in *. lia.
Qed.

Lemma sorted_scattered l : sorted l → scattered l.
Proof.
  induction l as [|b l IH]; cbn; [done|]. intros [H1 H2]. split; [|by apply IH].
  eapply Forall_impl; [exact H1|]. unfold apart, clear_of. intros c ?. lia.
Qed.

(** The new ring. *)
Definition linked (f1 : list blk) (p b : blk) (f2 : list blk) : list blk :=
  let '(b', f2') := join_right b f2 in f1 ++ join_left p b' ++ f2'.

Lemma linked_ring m f1 p b f2 :
  ring m (f1 ++ p :: f2) base → p.1 ∉ f1.*1 → p.1 ∉ f2.*1 → b.1 ∉ (f1 ++ p :: f2).*1 →
  ring (linked_map m p b f2) (linked f1 p b f2) base.
Proof.
  intros Hr Hp1 Hp2 Hb. rewrite fmap_app, fmap_cons in Hb. apply not_elem_of_app in Hb as [Hb1 Hb2].
  apply not_elem_of_cons in Hb2 as [Hb0 Hb2]. unfold linked, linked_map.
  assert (∃ g, f2 = g ++ (join_right b f2).2) as [g Hg].
  { destruct f2 as [|y f2]; cbn; [by exists []|]. case_match; [by exists [y]|by exists []]. }
  assert ((join_right b f2).1.1 = b.1) as Hb' by (destruct f2; cbn; [done|]; by case_match).
  destruct (join_right b f2) as [b' f2']. cbn [fst snd] in *. subst f2.
  apply ring_app in Hr as [Hr1 [_ Hr2]]. cbn [head fmap option_fmap option_map default from_option id] in Hr1.
  apply ring_app in Hr2 as [_ Hr2]. rewrite fmap_app, not_elem_of_app in Hp2, Hb2.
  unfold join_left. rewrite Hb'. destruct (Z.eqb_spec (b_end p) b.1) as [E|E]; rewrite !ring_app.
  - split_and!; cbn.
    + by do 2 (apply ring_insert; [done|]).
    + by rewrite lookup_insert_eq.
    + by do 2 (apply ring_insert; [tauto|]).
  - split_and!; cbn.
    + by do 2 (apply ring_insert; [done|]).
    + rewrite Hb', lookup_insert_eq, lookup_insert_ne by done. by rewrite lookup_insert_eq.
    + by do 2 (apply ring_insert; [tauto|]).
Qed.

Lemma nodes_split fl f1 p f2 :
  nodes fl = f1 ++ p :: f2 →
  (f1 = [] ∧ p = (base, 0) ∧ f2 = fl) ∨ (∃ g, f1 = (base, 0) :: g ∧ fl = g ++ p :: f2).
Proof. destruct f1 as [|x g]; cbn; intros [= <- ->]; [by left|right; eauto]. Qed.

(** The place of an allocated block among the free ones. *)
Record place (h : heap) (fl live : list blk) (b : blk) (f1 : list blk) (p : blk) (f2 : list blk) : Prop := {
  pl_ready : ready h fl (b :: live);
  pl_nodes : nodes fl = f1 ++ p :: f2;
  pl_lo : Forall (λ c, c.1 < b.1) (f1 ++ [p]);
  pl_hi : Forall (λ c, b.1 < c.1) f2;
}.

Lemma place_exists h fl live b : ready h fl (b :: live) → ∃ f1 p f2, place h fl live b f1 p f2.
Proof.
  intros Hr. destruct (ready_nodes _ _ _ Hr) as [Hpos Hbase].
  pose proof (r_live _ _ _ Hr) as Hlive. apply Forall_cons in Hlive as [[Hb _] _].
  destruct (split_at (nodes fl) b.1) as (f1 & p & f2 & E & Hlo & Hhi); [|apply Hr|done|by exists (base, 0)|].
  - intros (c & Hc & Hin)%list_elem_of_fmap. apply elem_of_cons in Hin as [->|Hin]; [cbn in Hc; lia|].
    pose proof (r_scattered _ _ _ Hr) as (_ & _ & Hcl)%scattered_app.
    specialize (Hcl c b Hin ltac:(set_solver)). pose proof (r_pos _ _ _ Hr) as Hp.
    rewrite Forall_forall in Hp. destruct (Hp c ltac:(set_solver)), (Hp b ltac:(set_solver)).
    unfold clear_of, b_end in Hcl. lia.
  - by exists f1, p, f2.
Qed.

Section placed.
Context {h : heap} {fl live : list blk} {b : blk} {f1 : list blk} {p : blk} {f2 : list blk}.
Context (Hpl : place h fl live b f1 p f2).

Lemma place_free c : c ∈ fl → 0 < c.2 ∧ b_end c <= hp_brk h ∧ clear_of c b.
Proof.
  intros Hc. pose proof (r_pos _ _ _ (pl_ready _ _ _ _ _ _ _ Hpl)) as Hp. rewrite Forall_forall in Hp.
  destruct (Hp c ltac:(set_solver)). split_and!; [done..|].
  pose proof (r_scattered _ _ _ (pl_ready _ _ _ _ _ _ _ Hpl)) as (_ & _ & Hcl)%scattered_app.
  apply Hcl; set_solver.
Qed.
Lemma place_block : 0 < b.2 ∧ b_end b <= hp_brk h ∧ base < b.1 ∧ ∃ q, hp_hdr h !! b.1 = Some (q, b.2).
Proof.
  destruct (pl_ready _ _ _ _ _ _ _ Hpl) as [_ _ _ _ Hp Hl _ _].
  rewrite Forall_forall in Hp. destruct (Hp b ltac:(set_solver)). apply Forall_cons in Hl as [[? ?] _]. done.
Qed.
Lemma place_f2_free : ∀ c, c ∈ f2 → c ∈ fl.
Proof. destruct (nodes_split _ _ _ _ (pl_nodes _ _ _ _ _ _ _ Hpl)) as [(_ & _ & ->)|(g & _ & ->)]; set_solver. Qed.
Lemma place_after : Forall (λ c, 0 < c.2 ∧ b_end c <= hp_brk h ∧ b_end b <= c.1) f2.
Proof.
  apply Forall_forall. intros c Hc. destruct (place_free c (place_f2_free c Hc)) as (H1 & H2 & H3).
  pose proof (pl_hi _ _ _ _ _ _ _ Hpl) as Hhi. rewrite Forall_forall in Hhi. specialize (Hhi c Hc).
  unfold clear_of, b_end in *. lia.
Qed.
Lemma place_before : b_end p <= b.1 ∧ p.1 < b.1 ∧ 0 < p.1 ∧ 0 <= p.2.
Proof.
  destruct (r_base _ _ _ (pl_ready _ _ _ _ _ _ _ Hpl)). destruct place_block as (B1 & B2 & B3 & _).
  destruct (ready_nodes _ _ _ (pl_ready _ _ _ _ _ _ _ Hpl)) as [_ Hb].
  pose proof (pl_lo _ _ _ _ _ _ _ Hpl) as [_ Hlo]%Forall_app. rewrite Forall_singleton in Hlo.
  rewrite (pl_nodes _ _ _ _ _ _ _ Hpl) in Hb. apply Forall_app in Hb as [_ Hb]. apply Forall_cons in Hb as [Hb _].
  destruct (nodes_split _ _ _ _ (pl_nodes _ _ _ _ _ _ _ Hpl)) as [(_ & Hp & _)|(g & _ & Hfl)].
  - rewrite Hp in *. unfold b_end. cbn in *. lia.
  - destruct (place_free p ltac:(rewrite Hfl; set_solver)) as (H1 & H2 & H3). unfold clear_of, b_end in *. lia.
Qed.

Lemma place_slot : slot h b p f2.
Proof.
  destruct place_block as (B1 & B2 & B3 & B4). destruct place_before as (P1 & P2 & P3 & P4).
  pose proof place_after as Haft.
  destruct Hpl as [[R1 R2 R3 R4 R5 R6 R7 R8] Hn _ _]. rewrite Hn in R3.
  constructor; try done; try lia.
  - by apply ring_lookup in R3.
  - by apply ring_app in R3 as [_ [_ ?]].
  - eapply Forall_impl; [exact Haft|]. cbn. intros c ?. lia.
Qed.

Lemma place_join b' f2' :
  join_right b f2 = (b', f2') →
  b'.1 = b.1 ∧ b.2 <= b'.2 ∧ b_end b' <= hp_brk h ∧ Forall (apart b') f2' ∧ (∃ g, f2 = g ++ f2')
  ∧ ∀ x, 0 < x.2 → clear_of x b → Forall (clear_of x) f2 → clear_of x b'.
Proof.
  intros Hj. destruct place_block as (B1 & B2 & _). apply (join_right_spec _ _ _ _ _ Hj B1 B2); [|apply place_after].
  pose proof (r_sorted _ _ _ (pl_ready _ _ _ _ _ _ _ Hpl)) as Hs. rewrite (pl_nodes _ _ _ _ _ _ _ Hpl) in Hs.
  by apply sorted_app in Hs as (_ & [_ ?] & _).
Qed.

Lemma linked_sorted : sorted (linked f1 p b f2).
Proof.
  pose proof (r_sorted _ _ _ (pl_ready _ _ _ _ _ _ _ Hpl)) as Hs. rewrite (pl_nodes _ _ _ _ _ _ _ Hpl) in Hs.
  apply sorted_app in Hs as (S1 & [S2 S3] & S4). rewrite Forall_forall in S2.
  destruct place_before as (P1 & P2 & P3 & P4). destruct place_block as (B1 & _).
  unfold linked. destruct (join_right b f2) as [b' f2'] eqn:Hj.
  destruct (place_join b' f2' Hj) as (J1 & J2 & J3 & J4 & (g & J5) & _). rewrite Forall_forall in J4.
  assert (∀ y, y ∈ f2' → y ∈ f2) as Hin by (rewrite J5; set_solver).
  assert (sorted f2') as S5 by (rewrite J5 in S3; by apply sorted_app in S3 as (_ & ? & _)).
  assert (∀ x, x ∈ f1 → apart x p) as S6 by (intros x Hx; apply S4; set_solver).
  unfold join_left. rewrite J1. destruct (Z.eqb_spec (b_end p) b.1) as [E|E]; rewrite !sorted_app.
  - split; [done|]. split; [split; [by repeat constructor|split; [done|]]|]; intros x y Hx Hy.
    + apply list_elem_of_singleton in Hx as ->. specialize (J4 y Hy). unfold apart, b_end in *. cbn. lia.
    + apply elem_of_cons in Hy as [->|Hy]; [specialize (S6 x Hx); unfold apart in *; cbn; lia|].
      apply S4; set_solver.
  - split; [done|]. split; [split; [|split; [done|]]|].
    + split; [|by repeat constructor]. constructor; [unfold apart; lia|constructor].
    + intros x y Hx Hy. apply elem_of_cons in Hx as [->|Hx]; [by apply S2, Hin|].
      apply list_elem_of_singleton in Hx as ->. by apply J4.
    + intros x y Hx Hy. apply elem_of_app in Hy as [Hy|Hy]; [|apply S4; set_solver].
      specialize (S6 x Hx). apply elem_of_cons in Hy as [->|Hy]; [done|].
      apply list_elem_of_singleton in Hy as ->. unfold apart in *. lia.
Qed.

(** The free blocks of the new ring: old ones, and the one [b] is part of. *)
Definition grown (y : blk) : Prop :=
  b.2 <= y.2 ∧ b_end y <= hp_brk h ∧ ∀ x, 0 < x.2 → clear_of x b → Forall (clear_of x) fl → clear_of x y.

Lemma linked_tail :
  ∃ fl', nodes fl' = linked f1 p b f2 ∧ (∀ y, y ∈ fl' → y ∈ fl ∨ grown y) ∧ (∃ y, y ∈ fl' ∧ grown y).
Proof.
  destruct place_block as (B1 & B2 & B3 & _). destruct place_before as (P1 & P2 & P3 & P4).
  unfold linked. destruct (join_right b f2) as [b' f2'] eqn:Hj.
  destruct (place_join b' f2' Hj) as (J1 & J2 & J3 & J4 & (g & J5) & J6).
  assert (∀ y, y ∈ f2' → y ∈ fl) as Hin by (intros y Hy; apply place_f2_free; rewrite J5; set_solver).
  assert (grown b') as Hg'.
  { split_and!; [done|done|]. intros x Hx Hc Hf. apply J6; [done..|]. rewrite Forall_forall in *.
    intros c Hc2. by apply Hf, place_f2_free. }
  destruct (nodes_split _ _ _ _ (pl_nodes _ _ _ _ _ _ _ Hpl)) as [(Hf1 & Hp & _)|(k & Hf1 & Hfl)].
  - exists (b' :: f2'). unfold join_left. rewrite (proj2 (Z.eqb_neq (b_end p) b'.1)).
    + rewrite Hf1, Hp. split; [done|]. split; [set_solver|]. exists b'. set_solver.
    + rewrite Hp. unfold b_end. cbn. lia.
  - exists (k ++ join_left p b' ++ f2'). rewrite Hf1. split; [done|].
    assert (∀ y, y ∈ k → y ∈ fl) as Hk by (rewrite Hfl; set_solver).
    assert (p ∈ fl) as Hpin by (rewrite Hfl; set_solver).
    unfold join_left. rewrite J1. destruct (Z.eqb_spec (b_end p) b.1) as [E|E].
    + assert (grown (p.1, p.2 + b'.2)) as Hg.
      { destruct (place_free p Hpin) as (Q1 & Q2 & _). destruct Hg' as (G1 & G2 & G3).
        split_and!; cbn; [lia|unfold b_end in *; cbn; lia|]. intros x Hx Hc Hf.
        apply clear_join; [done|done|lia| |].
        - rewrite Forall_forall in Hf. specialize (Hf p Hpin). by destruct p.
        - unfold b_end in E. rewrite E. specialize (G3 x Hx Hc Hf). by rewrite <-J1; destruct b'. }
      split; [|exists (p.1, p.2 + b'.2); set_solver]. set_solver.
    + split; [|exists b'; set_solver]. set_solver.
Qed.

Lemma linked_ready fl' :
  nodes fl' = linked f1 p b f2 → (∀ y, y ∈ fl' → y ∈ fl ∨ grown y) →
  ready (mkheap (linked_map (hp_hdr h) p b f2) p.1 (hp_brk h)) fl' live.
Proof.
  intros Hn Hold. destruct place_block as (B1 & B2 & B3 & _). destruct place_before as (P1 & P2 & P3 & P4).
  destruct (ready_nodes _ _ _ (pl_ready _ _ _ _ _ _ _ Hpl)) as [Hz _].
  pose proof (pl_ready _ _ _ _ _ _ _ Hpl) as [R1 R2 R3 R4 R5 R6 R7 R8].
  pose proof (sorted_nodup _ R4 Hz) as Hnd. rewrite (pl_nodes _ _ _ _ _ _ _ Hpl) in R3, Hnd.
  rewrite fmap_app, fmap_cons in Hnd. apply NoDup_app in Hnd as (_ & Hd1 & Hd2). apply NoDup_cons in Hd2 as [Hd2 _].
  rewrite Forall_forall in R5, R6. apply scattered_app in R7 as (_ & [R7 R7'] & R7'').
  rewrite Forall_forall in R7.
  assert (∀ x, x ∈ live → 0 < x.2 ∧ clear_of x b ∧ Forall (clear_of x) fl) as Hlive.
  { intros x Hx. destruct (R5 x ltac:(set_solver)). split; [done|]. split; [by apply clear_sym, R7|].
    apply Forall_forall. intros y Hy. apply clear_sym, R7''; set_solver. }
  constructor; cbn [hp_brk hp_hdr hp_freep]; try done.
  - rewrite Hn. apply linked_ring; try done.
    + intros Hp. by apply (Hd1 _ Hp); left.
    + rewrite <-(pl_nodes _ _ _ _ _ _ _ Hpl). intros (c & Hc & Hin)%list_elem_of_fmap.
      apply elem_of_cons in Hin as [->|Hin]; [cbn in Hc; lia|].
      destruct (place_free c Hin) as (C1 & C2 & C3). unfold clear_of, b_end in C3. lia.
  - rewrite Hn. apply linked_sorted.
  - apply Forall_forall. intros y [Hy|Hy]%elem_of_app; [|apply R5; set_solver].
    destruct (Hold y Hy) as [Ho|(G1 & G2 & _)]; [apply R5; set_solver|]. lia.
  - apply Forall_forall. intros x Hx. destruct (R6 x ltac:(set_solver)) as [Hbx [q Hq]]. split; [done|].
    destruct (Hlive x Hx) as (L1 & L2 & L3). exists q. unfold linked_map.
    destruct (join_right b f2) as [b' f2']. assert (x.1 ≠ b.1) by (unfold clear_of, b_end in L2; lia).
    assert (x.1 ≠ p.1) as Hxp.
    { destruct (nodes_split _ _ _ _ (pl_nodes _ _ _ _ _ _ _ Hpl)) as [(_ & Hp & _)|(k & _ & Hfl)].
      - rewrite Hp. cbn. lia.
      - assert (p ∈ fl) as Hpin by (rewrite Hfl; set_solver). rewrite Forall_forall in L3.
        destruct (place_free p Hpin). specialize (L3 p Hpin). unfold clear_of, b_end in L3. lia. }
    case_match; by rewrite !lookup_insert_ne.
  - apply scattered_app. split_and!; [|done|].
    + pose proof linked_sorted as Hs. rewrite <-Hn in Hs. by apply sorted_scattered, Hs.
    + intros y x Hy Hx. destruct (Hlive x Hx) as (L1 & L2 & L3). destruct (Hold y Hy) as [Ho|(_ & _ & G3)].
      * rewrite Forall_forall in L3. by apply clear_sym, L3.
      * by apply clear_sym, G3.
  - rewrite Hn. unfold linked. destruct (join_right b f2) as [b' f2']. unfold join_left.
    case_match; rewrite !fmap_app; cbn; set_solver.
Qed.
End placed.
End free.
