(* ===== verification/UmallocThms.v ===== *)
(** * malloc and free: blocks handed out do not overlap *)
From S2P Require Import Prelude Umalloc UmallocInv.

Section umalloc.
Context (base : Z) (granted : Z → Z → bool).
Abbreviation next f2 := (default base (fst <$> head f2)).
Implicit Types (h : heap) (fl live : list blk) (b u x : blk).

Lemma length_linked f1 p b f2 : (length (linked f1 p b f2) <= S (length (f1 ++ p :: f2)))%nat.
Proof.
  unfold linked. assert (length (join_right b f2).2 <= length f2)%nat as Hle.
  { destruct f2; cbn; [done|]. case_match; cbn; lia. }
  destruct (join_right b f2) as [b' f2']. cbn in Hle. unfold join_left.
  case_match; rewrite !length_app; cbn; lia.
Qed.

Lemma ready_size h fl live : ready base h fl live → (length (nodes base fl) <= size (hp_hdr h))%nat.
Proof.
  intros Hr. destruct (ready_nodes _ _ _ _ Hr) as [Hz _].
  eapply ring_size; [apply Hr|]. eapply sorted_nodup; [apply Hr|done].
Qed.

Lemma free_run h fl b live :
  ready base h fl (b :: live) →
  ∃ h' fl', free (b.1 + 8) h = Ret tt h' ∧ ready base h' fl' live ∧ (∃ y, y ∈ fl' ∧ b.2 <= y.2)
    ∧ hp_brk h' = hp_brk h ∧ (length fl' <= S (length fl))%nat.
Proof.
  intros Hr. destruct (place_exists base h fl live b Hr) as (f1 & p & f2 & Hpl).
  destruct (place_block base Hpl) as (B1 & B2 & B3 & _). pose proof (r_brk _ _ _ _ Hr).
  pose proof (r_base _ _ _ _ Hr).
  destruct (linked_tail base Hpl) as (fl' & Hn & Hold & y & Hy & Hg).
  unfold free, ring_fuel, hplus, sizeof_Header.
  replace (u32 (b.1 + 8 + -1 * 8)) with b.1 by (rewrite u32_id; [lia|unfold is_u32, b_end in *; lia]).
  unfold get. erewrite bind_ret by reflexivity. rewrite bind_gets.
  erewrite bind_ret.
  2:{ destruct Hpl as [_ Hnodes Hlo Hhi]. eapply (free_scan_run base h fl (b :: live)); [done|done|done|done|done|].
      pose proof (ready_size _ _ _ Hr). lia. }
  rewrite (free_link_run base _ _ _ _ (place_slot base Hpl)). eexists _, fl'.
  split; [done|]. split; [by apply (linked_ready base Hpl)|]. split; [exists y; split; [done|apply Hg]|].
  split; [done|]. pose proof (length_linked f1 p b f2) as Hl.
  rewrite <-Hn, <-(pl_nodes _ _ _ _ _ _ _ _ Hpl) in Hl. unfold nodes in Hl. cbn in Hl. lia.
Qed.

(** The kernel does not let a process grow into its own half of the address space. *)
Context (granted_below : ∀ brk n, granted brk n = true → brk + n <= 2 ^ 31).

(** Every block starts below the break. *)
Lemma ready_below h fl live a :
  ready base h fl live → a ∈ (nodes base fl).*1 ++ live.*1 → base <= a < hp_brk h.
Proof.
  intros Hr. destruct (ready_nodes _ _ _ _ Hr) as [_ Hb]. destruct Hr as [R1 R2 R3 R4 R5 R6 R7 R8].
  rewrite Forall_forall in R5, R6, Hb. intros [(c & -> & Hc)%list_elem_of_fmap|(c & -> & Hc)%list_elem_of_fmap]%elem_of_app.
  - split; [by apply Hb|]. apply elem_of_cons in Hc as [->|Hc]; [cbn; lia|].
    destruct (R5 c ltac:(set_solver)). unfold b_end in *. lia.
  - destruct (R6 c Hc), (R5 c ltac:(set_solver)). unfold b_end in *. lia.
Qed.

(** New memory at the break, as an allocated block. *)
Lemma ready_more h fl live nu q :
  ready base h fl live → 0 < nu → hp_brk h + 8 * nu <= 2 ^ 31 →
  ready base (mkheap (<[hp_brk h := (q, nu)]> (hp_hdr h)) (hp_freep h) (hp_brk h + 8 * nu)) fl ((hp_brk h, nu) :: live).
Proof.
  intros Hr Hnu Hle. assert (hp_brk h ∉ (nodes base fl).*1 ++ live.*1) as Hnew.
  { intros Hin. pose proof (ready_below _ _ _ _ Hr Hin). lia. }
  apply not_elem_of_app in Hnew as [Hn1 Hn2]. destruct Hr as [R1 R2 R3 R4 R5 R6 R7 R8].
  rewrite Forall_forall in R5, R6.
  assert (∀ c, c ∈ fl ++ live → clear_of c (hp_brk h, nu)) as Hcl.
  { intros c Hc. destruct (R5 c Hc). unfold clear_of. cbn. lia. }
  constructor; cbn [hp_hdr hp_freep hp_brk]; try done; try lia.
  - by apply ring_insert.
  - apply Forall_forall. intros c [Hc|[->|Hc]%elem_of_cons]%elem_of_app;
      [destruct (R5 c ltac:(set_solver)); lia|unfold b_end; cbn; lia|destruct (R5 c ltac:(set_solver)); lia].
  - constructor; cbn; [split; [lia|exists q; by rewrite lookup_insert_eq]|].
    apply Forall_forall. intros c Hc. destruct (R6 c Hc) as [Hb [q' Hq]]. split; [done|]. exists q'.
    rewrite lookup_insert_ne; [done|]. intros Heq. apply Hn2, list_elem_of_fmap. eauto.
  - rewrite <-Permutation_middle. cbn. split; [|done]. apply Forall_forall. intros c Hc. by apply clear_sym, Hcl.
Qed.

Lemma morecore_run h fl live nu :
  ready base h fl live → 0 < nu < 2 ^ 28 →
  ∃ r h', morecore granted nu h = Ret r h'
    ∧ ((r = 0 ∧ h' = h ∧ granted (hp_brk h) (8 * Z.max nu 4096) = false)
    ∨ ∃ fl', ready base h' fl' live ∧ r = hp_freep h' ∧ r ≠ 0 ∧ (∃ y, y ∈ fl' ∧ nu <= y.2)
        ∧ hp_brk h' = hp_brk h + 8 * Z.max nu 4096
        ∧ (length fl' <= S (length fl))%nat).
Proof.
  intros Hr Hnu. pose proof (r_brk _ _ _ _ Hr) as Hbrk. pose proof (r_base _ _ _ _ Hr) as Hbase.
  unfold morecore. set (n := if nu <? 4096 then 4096 else nu).
  assert (nu <= n < 2 ^ 28) as Hn by (unfold n; destruct (Z.ltb_spec nu 4096); lia).
  assert (8 * Z.max nu 4096 = n * 8) as -> by (unfold n; destruct (Z.ltb_spec nu 4096); lia).
  unfold sizeof_Header. rewrite s32_id by (unfold is_s32; lia).
  unfold sbrk, get. rewrite bind_assoc. erewrite bind_ret by reflexivity.
  destruct (granted (hp_brk h) (n * 8)) eqn:Hg.
  - apply granted_below in Hg. rewrite bind_assoc, bind_modify, bind_mret.
    rewrite (proj2 (Z.eqb_neq (hp_brk h) (u32 (-1)))) by (change (u32 (-1)) with (2 ^ 32 - 1); lia).
    rewrite u32_id by (unfold is_u32; lia). unfold set_size at 1. rewrite bind_modify.
    set (q := (default (0, 0) (hp_hdr (set_hp_brk (hp_brk h + n * 8) h) !! hp_brk h)).1).
    replace (hp_brk h + n * 8) with (hp_brk h + 8 * n) by lia.
    pose proof (ready_more h fl live n q Hr ltac:(lia) ltac:(lia)) as Hr1.
    assert (hplus (hp_brk h) 1 = hp_brk h + 8) as ->.
    { unfold hplus, sizeof_Header. rewrite u32_id; [lia|unfold is_u32; lia]. }
    destruct (free_run _ _ _ _ Hr1) as (h' & fl' & E & Hr' & (y & Hy & Hyn) & Hbrk' & Hlen). cbn [fst] in E. cbn in Hbrk'.
    rewrite (bind_ret _ _ _ _ _ E). eexists _, h'. split; [done|]. right. exists fl'. split_and!; try done.
    + pose proof (r_freep _ _ _ _ Hr') as Hf.
      pose proof (ready_below _ _ _ (hp_freep h') Hr' ltac:(set_solver)). lia.
    + exists y. cbn in Hyn. split; [done|lia].
  - rewrite bind_mret, Z.eqb_refl. exists 0, h. split; [done|]. by left.
Qed.

(** The ring before a free block starts with [base]. *)
Lemma nodes_before fl xs u x ys :
  nodes base fl = xs ++ u :: x :: ys →
  ∃ k, fl = k ++ x :: ys ∧ ∀ zs, xs ++ u :: zs = nodes base (k ++ zs).
Proof.
  intros Hn. unfold nodes in *. destruct xs as [|v xs]; cbn in Hn; injection Hn as <- ->.
  - by exists [].
  - exists (xs ++ [u]). split; [by rewrite <-app_assoc|]. intros zs. cbn. by rewrite <-app_assoc.
Qed.

(** A free block replaced, or not, by a part of it, and an allocated one. *)
Lemma ready_take h fl live k x ys fp rest b m :
  ready base h fl live → fl = k ++ x :: ys → fp ∈ (nodes base (k ++ rest ++ ys)).*1 →
  ring m (nodes base (k ++ rest ++ ys)) base →
  (∀ r, r ∈ rest → 0 < r.2 ∧ r.1 = x.1 ∧ b_end r = b.1) →
  (length rest <= 1)%nat → 0 < b.2 → x.1 <= b.1 → b_end b = b_end x →
  (∃ q, m !! b.1 = Some (q, b.2)) → (∀ c, c ∈ live → m !! c.1 = hp_hdr h !! c.1) →
  ready base (mkheap m fp (hp_brk h)) (k ++ rest ++ ys) (b :: live).
Proof.
  intros [R1 R2 R3 R4 R5 R6 R7 R8] -> Hfp Hring Hrest Hlen Hb Hxb Hend Hhdr Hlive.
  rewrite Forall_forall in R5, R6.
  assert (∀ r, r ∈ rest → rest = [r]) as Hone.
  { destruct rest as [|r [|]]; cbn in Hlen; [set_solver| |lia]. intros r' Hr'. apply list_elem_of_singleton in Hr'. by subst. }
  destruct (R5 x ltac:(set_solver)) as [X1 X2].
  pose proof R4 as S. unfold nodes in S. cbn [sorted] in S. destruct S as [S0 S].
  apply sorted_app in S as (S1 & [S2 S3] & S4). rewrite Forall_forall in S0, S2.
  assert (scattered (x :: k ++ ys ++ live)) as [Hx Hsc].
  { revert R7. apply scattered_perm. rewrite <-app_assoc. cbn. by rewrite Permutation_middle. }
  rewrite Forall_forall in Hx. rewrite app_assoc in Hsc. apply scattered_app in Hsc as (K1 & K2 & K3).
  (* anything clear of x is clear of the two parts *)
  assert (∀ c, clear_of x c → clear_of b c ∧ ∀ r, r ∈ rest → clear_of r c) as Hpart.
  { intros c Hc. split; [unfold clear_of, b_end in *; lia|]. intros r Hr. destruct (Hrest r Hr) as (Q1 & Q2 & Q3).
    unfold clear_of, b_end in *. lia. }
  assert (sorted (k ++ rest ++ ys)) as Hs.
  { rewrite !sorted_app. split; [done|]. split; [split; [|split; [done|]]|].
    - destruct rest as [|r [|]]; cbn in *; [done|by repeat constructor|lia].
    - intros r y Hr Hy. destruct (Hrest r Hr) as (Q1 & Q2 & Q3). specialize (S2 y Hy). unfold apart, b_end in *. lia.
    - intros a y Ha [Hr|Hy]%elem_of_app; [|apply S4; set_solver]. destruct (Hrest y Hr) as (Q1 & Q2 & Q3).
      specialize (S4 a x Ha ltac:(set_solver)). unfold apart in *. lia. }
  constructor; cbn [hp_hdr hp_freep hp_brk]; try done.
  - split; [|done]. apply Forall_forall. intros c Hc. apply elem_of_app in Hc as [Hc|[Hc|Hc]%elem_of_app];
      [apply S0; set_solver| |apply S0; set_solver]. destruct (Hrest c Hc) as (_ & Q2 & _).
    specialize (S0 x ltac:(set_solver)). unfold apart in *. lia.
  - apply Forall_forall. intros c Hc.
    assert (c ∈ rest ∨ c = b ∨ c ∈ (k ++ x :: ys) ++ live) as [Hr|[->|Ho]] by (clear -Hc; set_solver).
    + destruct (Hrest c Hr) as (Q1 & Q2 & Q3). split; [done|]. unfold b_end in *. lia.
    + split; [done|lia].
    + by apply R5.
  - constructor; cbn; [split; [|done]|].
    + specialize (S0 x ltac:(set_solver)). unfold apart, b_end in S0. cbn in S0. lia.
    + apply Forall_forall. intros c Hc. destruct (R6 c Hc) as [Hbc [q Hq]]. split; [done|]. exists q.
      by rewrite Hlive.
  - rewrite <-Permutation_middle. cbn [scattered]. split.
    + apply Forall_forall. intros c Hc. rewrite <-!app_assoc in Hc.
      assert (c ∈ rest ∨ c ∈ k ++ ys ++ live) as [Hr|Ho] by (clear -Hc; set_solver); [|exact (proj1 (Hpart c (Hx c Ho)))].
      destruct (Hrest c Hr) as (_ & _ & Q3). right. lia.
    + rewrite scattered_app. split_and!; [by apply sorted_scattered|done|].
      intros c y Hc Hy. assert (c ∈ rest ∨ c ∈ k ++ ys) as [Hr|Ho] by (clear -Hc; set_solver); [|by apply K3].
      apply (proj2 (Hpart y (Hx y ltac:(clear -Hy; set_solver))) c Hr).
Qed.

Lemma hplus_one a : 0 <= a < 2 ^ 31 → hplus a 1 = a + 8.
Proof. intros. unfold hplus, sizeof_Header. rewrite u32_id; [lia|unfold is_u32; lia]. Qed.

(** No other block starts inside a free block. *)
Lemma inside_free h fl live xs u x ys a :
  ready base h fl live → nodes base fl = xs ++ u :: x :: ys → x.1 <= a < b_end x →
  (a ∉ xs.*1) ∧ a ≠ u.1 ∧ (a ∉ ys.*1) ∧ ∀ c, c ∈ live → a ≠ c.1.
Proof.
  intros Hr Hn Ha. destruct (ready_nodes _ _ _ _ Hr) as [Hz _]. destruct Hr as [R1 R2 R3 R4 R5 R6 R7 R8].
  destruct (nodes_before _ _ _ _ _ Hn) as (k & Hk & _). rewrite Hn in R4, Hz.
  rewrite Forall_forall in R5, Hz. apply sorted_app in R4 as (S1 & S2 & S3).
  cbn [sorted] in S2. destruct S2 as (S4 & S5 & _). rewrite Forall_forall in S4, S5.
  assert (∀ c, c ∈ xs ++ [u] → c.1 < a) as Hlo.
  { intros c Hc. assert (apart c x) as Hap.
    { apply elem_of_app in Hc as [Hc| ->%list_elem_of_singleton]; [apply S3|apply S4]; set_solver. }
    specialize (Hz c ltac:(clear -Hc; set_solver)). unfold apart, b_end in *. lia. }
  split_and!.
  - intros (c & -> & Hc)%list_elem_of_fmap. specialize (Hlo c ltac:(clear -Hc; set_solver)). lia.
  - specialize (Hlo u ltac:(clear; set_solver)). lia.
  - intros (c & -> & Hc)%list_elem_of_fmap. specialize (S5 c Hc). unfold apart in *. lia.
  - intros c Hc ->. rewrite Hk in R5, R7. apply scattered_app in R7 as (_ & _ & R7).
    specialize (R7 x c ltac:(clear; set_solver) Hc). destruct (R5 c ltac:(clear -Hc; set_solver)).
    unfold clear_of, b_end in *. lia.
Qed.

(** The block after [u] is handed out, whole or its tail; the break is at most [lim]. *)
Definition taken (live : list blk) (n lim : Z) (r : outcome heap Z) : Prop :=
  ∃ b h' fl', r = Ret (b.1 + 8) h' ∧ b.2 = n ∧ ready base h' fl' (b :: live) ∧ hp_brk h' <= lim.

Lemma taken_le live n lim lim' r : taken live n lim r → lim <= lim' → taken live n lim' r.
Proof. clear granted_below granted. intros (b & h' & fl' & H1 & H2 & H3 & H4) Hle. exists b, h', fl'. split_and!; try done. lia. Qed.

(** What the proofs about a free block [x] after [u] use. *)
Lemma free_block h fl live xs u x ys :
  ready base h fl live → nodes base fl = xs ++ u :: x :: ys →
  NoDup (xs ++ u :: x :: ys).*1 ∧ 0 < x.1 ∧ 0 < x.2 ∧ b_end x <= 2 ^ 31
  ∧ ∀ c, c ∈ live → c.1 ∉ (nodes base fl).*1.
Proof.
  intros Hr Hn. destruct (ready_nodes _ _ _ _ Hr) as [Hz Hb]. destruct (nodes_before _ _ _ _ _ Hn) as (k & Hk & _).
  rewrite <-Hn. split; [apply sorted_nodup; [apply Hr|done]|].
  destruct Hr as [R1 R2 R3 R4 R5 R6 R7 R8]. rewrite Forall_forall in R5, R6, Hb.
  destruct (R5 x ltac:(subst; clear; set_solver)). specialize (Hb x ltac:(rewrite Hn; clear; set_solver)).
  split_and!; [lia..|]. intros c Hc (a & Ha & Hin)%list_elem_of_fmap.
  apply elem_of_cons in Hin as [->|Hin]; [destruct (R6 c Hc); cbn in *; lia|].
  apply scattered_app in R7 as (_ & _ & R7). specialize (R7 a c Hin Hc).
  destruct (R5 a ltac:(clear -Hin; set_solver)), (R5 c ltac:(clear -Hc; set_solver)).
  unfold clear_of, b_end in *. lia.
Qed.

Lemma malloc_take_whole h fl live xs u x ys :
  ready base h fl live → nodes base fl = xs ++ u :: x :: ys →
  taken live x.2 (hp_brk h) (malloc_take x.2 u.1 x.1 h).
Proof.
  intros Hr Hn. destruct (nodes_before _ _ _ _ _ Hn) as (k & Hk & Hks).
  destruct (free_block _ _ _ _ _ _ _ Hr Hn) as (Hnd & X1 & X2 & X3 & Hl).
  rewrite fmap_app in Hnd. cbn in Hnd. apply NoDup_app in Hnd as (_ & Hnd1 & Hnd2).
  apply NoDup_cons in Hnd2 as [Hnd2 _]. apply not_elem_of_cons in Hnd2 as [Hux Hnd2].
  pose proof (r_ring _ _ _ _ Hr) as Hring. rewrite Hn in Hring. apply ring_app in Hring as [Q1 (Q2 & Q3 & Q4)].
  unfold malloc_take. rewrite (bind_ret _ _ _ _ _ (hdr_run _ _ _ Q3)), Z.eqb_refl.
  rewrite bind_assoc, (bind_ret _ _ _ _ _ (set_ptr_run _ _ _ _ _ Q2)), bind_mret, bind_modify.
  rewrite hplus_one by (unfold b_end in X3; lia). eexists x, _, _. split; [done|]. split; [done|]. split; [|cbn; lia].
  eapply (ready_take h fl live k x ys u.1 [] x (<[u.1 := (next ys, u.2)]> (hp_hdr h))); try done.
  - cbn [app]. rewrite <-Hks, fmap_app. set_solver.
  - cbn [app]. rewrite <-Hks, ring_app. split; [apply ring_insert; [|done]|split].
    + intros Hin. apply (Hnd1 _ Hin). left.
    + by rewrite lookup_insert_eq.
    + by apply ring_insert.
  - intros r Hin. by apply elem_of_nil in Hin.
  - cbn. lia.
  - eexists. rewrite lookup_insert_ne by done. exact Q3.
  - intros c Hc. apply lookup_insert_ne. intros Heq. apply (Hl c Hc). rewrite <-Heq, Hn, fmap_app. set_solver.
Qed.

Lemma malloc_take_tail h fl live xs u x ys n :
  ready base h fl live → nodes base fl = xs ++ u :: x :: ys → 1 <= n < x.2 →
  taken live n (hp_brk h) (malloc_take n u.1 x.1 h).
Proof.
  intros Hr Hn Hx. destruct (nodes_before _ _ _ _ _ Hn) as (k & Hk & Hks).
  destruct (free_block _ _ _ _ _ _ _ Hr Hn) as (Hnd & X1 & X2 & X3 & Hl). unfold b_end in X3.
  rewrite fmap_app in Hnd. cbn in Hnd. apply NoDup_app in Hnd as (_ & Hnd1 & Hnd2).
  apply NoDup_cons in Hnd2 as [Hnd2 Hnd3]. apply NoDup_cons in Hnd3 as [Hnd3 _].
  apply not_elem_of_cons in Hnd2 as [Hux _].
  assert (x.1 ∉ xs.*1) as Hnd4 by (intros Hin; apply (Hnd1 _ Hin); right; left).
  pose proof (r_ring _ _ _ _ Hr) as Hring. rewrite Hn in Hring. apply ring_app in Hring as [Q1 (Q2 & Q3 & Q4)].
  set (b := (x.1 + 8 * (x.2 - n), n) : blk).
  destruct (inside_free h fl live xs u x ys b.1 Hr Hn) as (I1 & I2 & I3 & I4); [unfold b, b_end; cbn; lia|].
  assert (b.1 ≠ x.1) as Hbx by (unfold b; cbn; lia).
  unfold malloc_take. rewrite (bind_ret _ _ _ _ _ (hdr_run _ _ _ Q3)), (proj2 (Z.eqb_neq x.2 n)) by lia.
  rewrite bind_assoc, (bind_ret _ _ _ _ _ (set_size_run _ _ _ _ _ Q3)).
  rewrite u32_id by (unfold is_u32; lia).
  replace (hplus x.1 (x.2 - n)) with b.1
    by (unfold b, hplus, sizeof_Header; cbn; rewrite u32_id; [lia|unfold is_u32; lia]).
  rewrite bind_assoc. unfold set_size at 1. rewrite bind_modify, bind_mret, bind_modify.
  rewrite hplus_one by (unfold b; cbn; lia). eexists b, _, _. split; [done|]. split; [done|]. split; [|cbn; lia].
  eapply (ready_take h fl live k x ys u.1 [(x.1, x.2 - n)] b
    (<[b.1 := (_, n)]> (<[x.1 := (next ys, x.2 - n)]> (hp_hdr h)))); try done; try (unfold b, b_end; cbn; lia).
  - rewrite <-Hks, fmap_app. set_solver.
  - rewrite <-Hks, ring_app. cbn [app ring fst snd head fmap option_fmap option_map default from_option id]. split_and!.
    + apply ring_insert; [done|]. apply ring_insert; [done|]. exact Q1.
    + rewrite !lookup_insert_ne by congruence. exact Q2.
    + rewrite lookup_insert_ne by done. by rewrite lookup_insert_eq.
    + do 2 (apply ring_insert; [done|]). exact Q4.
  - intros r ->%list_elem_of_singleton. unfold b, b_end. cbn. lia.
  - eexists. by rewrite lookup_insert_eq.
  - intros c Hc. rewrite !lookup_insert_ne; [done| |by apply I4]. intros Heq. apply (Hl c Hc).
    rewrite <-Heq, Hn, fmap_app. set_solver.
Qed.

Lemma malloc_take_run h fl live xs u x ys n :
  ready base h fl live → nodes base fl = xs ++ u :: x :: ys → 1 <= n <= x.2 →
  taken live n (hp_brk h) (malloc_take n u.1 x.1 h).
Proof.
  intros Hr Hn Hx. destruct (decide (n = x.2)) as [->|Hne].
  - by eapply malloc_take_whole.
  - eapply malloc_take_tail; [done..|lia].
Qed.
(** *** The loop of [malloc] *)
(** What it does when the scan has come round to [freep]. *)
Definition more_core (fuel : nat) (n : Z) : M heap Z :=
  r ← (q ← morecore granted n; mret (if q =? 0 then None else Some q));
  match r with
  | None => mret 0
  | Some p => match fuel with O => fault | S fuel' => '(nx, _) ← hdr p; malloc_scan granted fuel' n p nx end
  end.

Lemma malloc_scan_end fuel h n prevp p v :
  hp_hdr h !! p = Some v → v.2 < n → p = hp_freep h →
  malloc_scan granted fuel n prevp p h = more_core fuel n h.
Proof.
  intros Hp Hv ->. destruct v as [nx sz]. cbn in Hv.
  destruct fuel; cbn [malloc_scan]; rewrite (bind_ret _ _ _ _ _ (hdr_run _ _ _ Hp));
    rewrite (proj2 (Z.leb_gt n sz)) by done; rewrite bind_gets, Z.eqb_refl; done.
Qed.

Lemma malloc_scan_next fuel h n prevp p v :
  hp_hdr h !! p = Some v → v.2 < n → p ≠ hp_freep h →
  malloc_scan granted (S fuel) n prevp p h = malloc_scan granted fuel n p v.1 h.
Proof.
  intros Hp Hv Hne. destruct v as [nx sz]. cbn in Hv.
  cbn [malloc_scan]; rewrite (bind_ret _ _ _ _ _ (hdr_run _ _ _ Hp)).
  rewrite (proj2 (Z.leb_gt n sz)) by done. rewrite bind_gets, (proj2 (Z.eqb_neq _ _) Hne), bind_mret.
  by rewrite (bind_ret _ _ _ _ _ (hdr_run _ _ _ Hp)).
Qed.

Lemma malloc_scan_fits fuel h n prevp p v :
  hp_hdr h !! p = Some v → n <= v.2 → malloc_scan granted fuel n prevp p h = malloc_take n prevp p h.
Proof.
  intros Hp Hv. destruct v as [nx sz]. cbn in Hv.
  destruct fuel; cbn [malloc_scan]; rewrite (bind_ret _ _ _ _ _ (hdr_run _ _ _ Hp));
    by rewrite (proj2 (Z.leb_le n sz)).
Qed.

(** The scan over the free blocks [ys] after [u], none of which is [freep]. *)
Lemma malloc_scan_over h fl live n ys zs :
  ready base h fl live → 1 <= n → ∀ xs u fuel,
  nodes base fl = xs ++ u :: ys ++ zs → hp_freep h ∉ ys.*1 →
  taken live n (hp_brk h) (malloc_scan granted (length ys + fuel) n u.1 (next (ys ++ zs)) h)
  ∨ Forall (λ x, x.2 < n) ys
    ∧ malloc_scan granted (length ys + fuel) n u.1 (next (ys ++ zs)) h
      = malloc_scan granted fuel n (default u (last ys)).1 (next zs) h.
Proof.
  intros Hr Hn. induction ys as [|x ys IH]; intros xs u fuel Hnodes Hf.
  { right. split; [constructor|done]. }
  cbn [fmap list_fmap] in Hf. apply not_elem_of_cons in Hf as [Hfx Hf].
  pose proof (r_ring _ _ _ _ Hr) as Hring. rewrite Hnodes in Hring.
  apply ring_app in Hring as [_ (_ & Hx & _)]. cbn [app head fmap option_fmap option_map default from_option id].
  destruct (decide (n <= x.2)) as [Hfit|Hfit].
  { left. erewrite malloc_scan_fits by done. by eapply malloc_take_run. }
  change (length (x :: ys) + fuel)%nat with (S (length ys + fuel)).
  erewrite malloc_scan_next; [|exact Hx|cbn; lia|congruence]. cbn [fst].
  destruct (IH (xs ++ [u]) x fuel) as [Ht|[Hlt Heq]]; [by rewrite <-app_assoc|done|by left|].
  right. split; [constructor; [lia|done]|]. rewrite Heq, last_cons. by destruct (last ys).
Qed.
(** The scan comes to [freep] itself, which is not [base]. *)
Lemma malloc_scan_last h fl live n l u ys fuel :
  ready base h fl live → 1 <= n → fl = l ++ u :: ys → u.1 = hp_freep h →
  taken live n (hp_brk h) (malloc_scan granted fuel n (default (base, 0) (last l)).1 u.1 h)
  ∨ u.2 < n ∧ malloc_scan granted fuel n (default (base, 0) (last l)).1 u.1 h = more_core fuel n h.
Proof.
  intros Hr Hn Hfl Hu. pose proof (r_ring _ _ _ _ Hr) as Hring.
  assert (∃ g, nodes base fl = g ++ default (base, 0) (last l) :: u :: ys) as [g Hg].
  { rewrite Hfl. destruct l as [|z l _] using rev_ind; [by exists []|]. rewrite last_snoc. exists (nodes base l).
    cbn. by rewrite <-app_assoc. }
  rewrite Hg in Hring. apply ring_app in Hring as [_ (_ & Hx & _)].
  destruct (decide (n <= u.2)) as [Hfit|Hfit].
  - left. erewrite malloc_scan_fits by done. by eapply malloc_take_run.
  - right. split; [lia|]. eapply malloc_scan_end; [exact Hx|cbn; lia|done].
Qed.

(** Once around the ring: a block is found, or no free block is big enough and the
    scan is back at [freep]. *)
Lemma malloc_turn h fl live n q k :
  ready base h fl live → 1 <= n → fst <$> hp_hdr h !! hp_freep h = Some q →
  taken live n (hp_brk h) (malloc_scan granted (length (nodes base fl) + k) n (hp_freep h) q h)
  ∨ Forall (λ x, x.2 < n) fl
    ∧ ∃ k', (k <= k')%nat
        ∧ malloc_scan granted (length (nodes base fl) + k) n (hp_freep h) q h = more_core k' n h.
Proof.
  intros Hr Hn Hq. pose proof (r_freep _ _ _ _ Hr) as (u & Hu & Hin)%list_elem_of_fmap.
  apply list_elem_of_split in Hin as (xs & ys & Hnodes).
  destruct (ready_nodes _ _ _ _ Hr) as [Hz _]. pose proof (sorted_nodup _ (r_sorted _ _ _ _ Hr) Hz) as Hnd.
  pose proof (r_ring _ _ _ _ Hr) as Hring. pose proof Hring as [Hbase _].
  rewrite Hnodes in Hring, Hnd. rewrite fmap_app in Hnd.
  apply NoDup_app in Hnd as (_ & Hnd1 & [Hnd2 _]%NoDup_cons).
  apply ring_lookup in Hring. rewrite Hu, Hring in Hq. cbn in Hq. injection Hq as <-. rewrite Hu.
  set (k1 := (length (nodes base fl) - length ys + k)%nat).
  assert (length (nodes base fl) = length xs + S (length ys))%nat as Hlen by (by rewrite Hnodes, length_app).
  replace (length (nodes base fl) + k)%nat with (length ys + k1)%nat by (unfold k1; lia).
  destruct (malloc_scan_over h fl live n ys [] Hr Hn xs u k1) as [Ht|[Hlt Heq]];
    [by rewrite app_nil_r|by rewrite Hu|left; by rewrite app_nil_r in Ht|]. rewrite app_nil_r in Heq. rewrite Heq.
  cbn [next head fmap option_fmap option_map default from_option id].
  destruct (nodes_split _ _ _ _ _ Hnodes) as [(-> & -> & ->)|(l & -> & Hfl)].
  { right. split; [done|]. exists k1. split; [unfold k1; lia|].
    eapply malloc_scan_end; [exact Hbase|cbn; lia|done]. }
  assert (base ≠ hp_freep h) as Hbf by (rewrite Hu; intros Hb; apply (Hnd1 base); [left|rewrite Hb; left]).
  assert (u.1 ∉ l.*1) as Hul by (intros Hl; apply (Hnd1 u.1); [by right|left]).
  set (k2 := (k1 - 1 - length l)%nat). cbn [length] in Hlen.
  replace k1 with (S (length l + k2)) by (unfold k2, k1; lia).
  erewrite malloc_scan_next; [|exact Hbase|cbn; lia|done]. cbn [fst snd].
  replace (next fl) with (next (l ++ u :: ys)) by (by rewrite Hfl).
  destruct (malloc_scan_over h fl live n l (u :: ys) Hr Hn [] (base, 0) k2) as [Ht|[Hlt2 Heq2]];
    [by rewrite Hfl|by rewrite Hu|by left|]. cbn [fst] in Heq2. rewrite Heq2. cbn [head fmap option_fmap option_map default from_option id].
  destruct (malloc_scan_last h fl live n l u ys k2 Hr Hn Hfl (eq_sym Hu)) as [Ht|[Hu2 Heq3]]; [by left|].
  right. split; [rewrite Hfl; apply Forall_app; split; [done|by constructor]|].
  exists k2. split; [unfold k2, k1; lia|done].
Qed.

(** [malloc] once the ring is there. *)
Lemma malloc_scan_run h fl live n q fuel :
  ready base h fl live → 1 <= n < 2 ^ 28 → fst <$> hp_hdr h !! hp_freep h = Some q →
  (2 * length (nodes base fl) + 2 <= fuel)%nat →
  malloc_scan granted fuel n (hp_freep h) q h = Ret 0 h ∧ granted (hp_brk h) (8 * Z.max n 4096) = false
  ∨ taken live n (hp_brk h + 8 * Z.max n 4096) (malloc_scan granted fuel n (hp_freep h) q h).
Proof.
  intros Hr Hn Hq Hfuel. set (k := (fuel - length (nodes base fl))%nat).
  replace fuel with (length (nodes base fl) + k)%nat by (unfold k; lia).
  destruct (malloc_turn h fl live n q k Hr ltac:(lia) Hq) as [Ht|(_ & k' & Hk & ->)];
    [right; eapply taken_le; [exact Ht|lia]|].
  unfold more_core. destruct (morecore_run h fl live n Hr ltac:(lia)) as (r & h' & E & Hcase).
  rewrite bind_assoc, (bind_ret _ _ _ _ _ E), bind_mret.
  destruct Hcase as [(-> & -> & Hg)|(fl' & Hr' & -> & Hnz & (y & Hy & Hny) & Hbrk & Hlen)]; [by left|right].
  rewrite (proj2 (Z.eqb_neq _ _) Hnz).
  assert (∃ v, hp_hdr h' !! hp_freep h' = Some v) as [[nx sz] Hv].
  { pose proof (r_freep _ _ _ _ Hr') as (u & -> & Hin)%list_elem_of_fmap.
    apply list_elem_of_split in Hin as (xs & ys & Hnodes). pose proof (r_ring _ _ _ _ Hr') as Hring.
    rewrite Hnodes in Hring. apply ring_lookup in Hring. eauto. }
  cbn in Hlen. unfold nodes in Hfuel. cbn in Hfuel. unfold k in Hk. cbn in Hk.
  destruct k' as [|k']; [unfold nodes in *; cbn in *; lia|]. rewrite (bind_ret _ _ _ _ _ (hdr_run _ _ _ Hv)).
  set (k2 := (k' - length (nodes base fl'))%nat).
  replace k' with (length (nodes base fl') + k2)%nat by (unfold k2, nodes in *; cbn in *; lia).
  destruct (malloc_turn h' fl' live n nx k2 Hr' ltac:(lia)) as [Ht|[Hno _]]; [by rewrite Hv|eapply taken_le; [exact Ht|lia]|].
  rewrite Forall_forall in Hno. specialize (Hno y Hy). lia.
Qed.

(** The heap of a program, before and after the first call of [malloc], with the
    blocks it has allocated. *)
Definition heap_ok (h : heap) (live : list blk) : Prop :=
  (hp_freep h = 0 ∧ hp_hdr h = ∅ ∧ live = [] ∧ 0 < base < hp_brk h ∧ hp_brk h <= 2 ^ 31)
  ∨ ∃ fl, ready base h fl live.

Lemma malloc_units_fit nbytes : 0 <= nbytes < 2 ^ 31 - 16 →
  1 <= malloc_units nbytes < 2 ^ 28 ∧ nbytes <= 8 * (malloc_units nbytes - 1).
Proof.
  intros Hn. unfold malloc_units, sizeof_Header. rewrite u32_id by (unfold is_u32; lia).
  Z.to_euclidean_division_equations. lia.
Qed.

(** A block of [n] headers, apart from all those allocated. *)
Lemma taken_block live n lim r :
  taken live n lim r → ∃ b h', r = Ret (b.1 + 8) h' ∧ b.2 = n ∧ base < b.1 ∧ b_end b <= hp_brk h'
    ∧ Forall (clear_of b) live ∧ heap_ok h' (b :: live) ∧ hp_brk h' <= lim.
Proof. clear granted_below granted.
  intros (b & h' & fl & -> & <- & Hr & Hlim). exists b, h'. pose proof Hr as [R1 R2 R3 R4 R5 R6 R7 R8].
  rewrite Forall_forall in R5. apply Forall_cons in R6 as [[R6 _] _]. apply scattered_app in R7 as (_ & [R7 _] & _).
  split_and!; try done; [apply R5; set_solver|]. right. by exists fl.
Qed.

(** The loop of [malloc] as it is entered. *)
Definition search (n : Z) : M heap Z :=
  prevp ← gets hp_freep;
  fuel ← ring_fuel;
  '(p, _) ← hdr prevp;
  malloc_scan granted fuel n prevp p.

Lemma search_run h fl live n :
  ready base h fl live → 1 <= n < 2 ^ 28 →
  (search n h = Ret 0 h ∧ granted (hp_brk h) (8 * Z.max n 4096) = false) ∨ taken live n (hp_brk h + 8 * Z.max n 4096) (search n h).
Proof.
  intros Hr Hn. pose proof (r_freep _ _ _ _ Hr) as (u & Hu & Hin)%list_elem_of_fmap.
  apply list_elem_of_split in Hin as (xs & ys & Hnodes). pose proof (r_ring _ _ _ _ Hr) as Hring.
  rewrite Hnodes in Hring. apply ring_lookup in Hring. rewrite <-Hu in Hring.
  unfold search, ring_fuel, get. rewrite bind_gets. erewrite bind_ret by reflexivity.
  rewrite (bind_ret _ _ _ _ _ (hdr_run _ _ _ Hring)).
  eapply malloc_scan_run; [done|done|by rewrite Hring|]. pose proof (ready_size _ _ _ Hr). lia.
Qed.

Lemma malloc_run h live nbytes :
  heap_ok h live → 0 <= nbytes < 2 ^ 31 - 16 →
  (∃ h', malloc base granted nbytes h = Ret 0 h' ∧ heap_ok h' live
    ∧ granted (hp_brk h) (8 * Z.max (malloc_units nbytes) 4096) = false)
  ∨ taken live (malloc_units nbytes) (hp_brk h + 8 * Z.max (malloc_units nbytes) 4096) (malloc base granted nbytes h).
Proof.
  intros Hok Hn. destruct (malloc_units_fit _ Hn) as [Hu _].
  assert (∃ h1 fl, malloc base granted nbytes h = search (malloc_units nbytes) h1 ∧ ready base h1 fl live
    ∧ hp_brk h1 = hp_brk h) as (h1 & fl & -> & Hr & Hb).
  { unfold malloc. rewrite bind_gets. destruct Hok as [(Hf & Hh & -> & Hbase & Hbrk)|[fl Hr]].
    - exists (mkheap {[base := (base, 0)]} base (hp_brk h)), []. split.
      + rewrite Hf, Z.eqb_refl, bind_assoc, bind_modify, bind_assoc. unfold set_ptr at 1. rewrite bind_modify.
        unfold set_size at 1. rewrite bind_modify. unfold search. f_equal.
        unfold set_hp_hdr, set_hp_freep. cbn. rewrite Hh, !lookup_insert_eq. cbn. by rewrite insert_insert_eq.
      + split; [|done]. constructor; cbn; try done; try (by repeat constructor). by rewrite lookup_singleton_eq.
    - exists h, fl. split; [|done]. pose proof (r_freep _ _ _ _ Hr) as Hf.
      pose proof (ready_below _ _ _ (hp_freep h) Hr ltac:(set_solver)). pose proof (r_base _ _ _ _ Hr).
      rewrite (proj2 (Z.eqb_neq (hp_freep h) 0)) by lia. by rewrite bind_mret. }
  destruct (search_run h1 fl live (malloc_units nbytes) Hr Hu) as [[E Hg]|Ht]; [left|right; by rewrite <-Hb].
  exists h1. rewrite <-Hb. split_and!; [done| |done]. right. by exists fl.
Qed.
Lemma free_ok h b live :
  heap_ok h (b :: live) → ∃ h', free (b.1 + 8) h = Ret tt h' ∧ heap_ok h' live ∧ hp_brk h' = hp_brk h.
Proof.
  intros [(_ & _ & [=] & _)|[fl Hr]].
  destruct (free_run _ _ _ _ Hr) as (h' & fl' & E & Hr' & _ & Hb & _). exists h'. split_and!; [done| |done].
  right. by exists fl'.
Qed.

#[local] Instance heap_ok_perm h : Proper ((≡ₚ) ==> impl) (heap_ok h).
Proof.
  intros l l' Hl [(H1 & H2 & -> & H3)|[fl [R1 R2 R3 R4 R5 R6 R7 R8]]].
  - apply Permutation_nil_l in Hl as <-. by left.
  - right. exists fl. by constructor; rewrite <-?Hl.
Qed.

(** *** A program that allocates and frees *)
(** [CFree i]: the program frees the [i]-th pointer it holds. *)
Inductive call := CMalloc (nbytes : Z) | CFree (i : nat).

(** The pointers it holds, with the sizes it asked for. *)
Fixpoint client (calls : list call) (ps : list (Z * Z)) : M heap (list (Z * Z)) :=
  match calls with
  | [] => mret ps
  | CMalloc nbytes :: calls =>
      p ← malloc base granted nbytes;
      client calls (if p =? 0 then ps else (p, nbytes) :: ps)
  | CFree i :: calls =>
      match ps !! i with
      | Some (p, _) => free p;; client calls (delete i ps)
      | None => client calls ps
      end
  end.

(** Two pieces of memory that do not overlap, and are not the same pointer. *)
Definition exclusive (x y : Z * Z) : Prop := x.1 ≠ y.1 ∧ (x.1 + x.2 <= y.1 ∨ y.1 + y.2 <= x.1).

Definition holds_block (x : Z * Z) (b : blk) : Prop := x.1 = b.1 + 8 ∧ 0 <= x.2 <= 8 * (b.2 - 1).

Lemma client_run calls h ps live :
  heap_ok h live → Forall2 holds_block ps live →
  Forall (λ c, match c with CMalloc n => 0 <= n < 2 ^ 31 - 16 | CFree _ => True end) calls →
  ∃ ps' live' h', client calls ps h = Ret ps' h' ∧ heap_ok h' live' ∧ Forall2 holds_block ps' live'.
Proof.
  revert h ps live. induction calls as [|[nbytes|i] calls IH]; intros h ps live Hok Hps Hc;
    cbn [client]; [by exists ps, live, h|apply Forall_cons in Hc as [Hn Hc]..].
  - destruct (malloc_units_fit _ Hn) as [_ Hfit]. destruct (malloc_run _ _ _ Hok Hn) as [(h' & E & Hok' & _)|Ht].
    + rewrite (bind_ret _ _ _ _ _ E). by apply (IH h' ps live).
    + destruct (taken_block _ _ _ _ Ht) as (b & h' & E & Hb & Hlo & Hhi & _ & Hok' & _).
      rewrite (bind_ret _ _ _ _ _ E).
      assert (0 < base) by (destruct Hok' as [(_ & _ & [=] & _)|[fl Hr]]; by destruct (r_base _ _ _ _ Hr)).
      rewrite (proj2 (Z.eqb_neq (b.1 + 8) 0)) by lia. apply (IH h' _ (b :: live)); [done| |done].
      constructor; [|done]. unfold holds_block. cbn. subst. split; [done|lia].
  - destruct (ps !! i) as [[p n]|] eqn:Hi; [|by apply (IH h ps live)].
    destruct (Forall2_lookup_l _ _ _ _ _ Hps Hi) as (b & Hb & Hpb & Hsz). cbn in Hpb, Hsz.
    destruct (free_ok h b (delete i live)) as (h' & E & Hok' & _).
    { by rewrite <-(delete_Permutation live i b Hb). }
    rewrite Hpb, (bind_ret _ _ _ _ _ E). apply (IH h' _ (delete i live)); [done|by apply Forall2_delete|done].
Qed.
Lemma scattered_lookup l i j b c :
  scattered l → i ≠ j → l !! i = Some b → l !! j = Some c → clear_of b c.
Proof. clear granted_below granted.
  revert i j. induction l as [|a l IH]; [done|]. intros [|i] [|j] [Hs1 Hs2] Hne Hi Hj; cbn in Hi, Hj; simplify_eq.
  - rewrite Forall_forall in Hs1. apply Hs1. by eapply list_elem_of_lookup_2.
  - rewrite Forall_forall in Hs1. apply clear_sym, Hs1. by eapply list_elem_of_lookup_2.
  - by apply (IH i j); [|lia|..].
Qed.

Lemma heap_ok_live h live b :
  heap_ok h live → b ∈ live → base < b.1 ∧ 0 < b.2 ∧ b_end b <= hp_brk h.
Proof. clear granted_below granted.
  intros [(_ & _ & -> & _)|[fl [R1 R2 R3 R4 R5 R6 R7 R8]]] Hb; [by apply elem_of_nil in Hb|].
  rewrite Forall_forall in R5, R6. destruct (R6 b Hb), (R5 b ltac:(set_solver)). done.
Qed.

Lemma heap_ok_scattered h live : heap_ok h live → scattered live.
Proof. clear granted_below granted. intros [(_ & _ & -> & _)|[fl Hr]]; [done|]. by apply r_scattered, scattered_app in Hr as (_ & ? & _). Qed.

(** C25: A program that starts with an empty heap and calls [malloc] and [free] in any
    order, freeing pointers it holds, never reads a header that is not there, each of
    its calls returns, and the pieces of memory it holds lie between [base] and the
    break and do not overlap. *)
Theorem malloc_exclusive calls h :
  hp_freep h = 0 → hp_hdr h = ∅ → 0 < base < hp_brk h → hp_brk h <= 2 ^ 31 →
  Forall (λ c, match c with CMalloc n => 0 <= n < 2 ^ 31 - 16 | CFree _ => True end) calls →
  ∃ ps h', client calls [] h = Ret ps h'
    ∧ (∀ x, x ∈ ps → base < x.1 ∧ x.1 + x.2 <= hp_brk h')
    ∧ ∀ i j x y, i ≠ j → ps !! i = Some x → ps !! j = Some y → exclusive x y.
Proof.
  intros Hf Hh Hb Hbrk Hc. destruct (client_run calls h [] []) as (ps & live & h' & E & Hok & Hps);
    [by left|constructor|done|]. exists ps, h'. split; [done|]. split.
  - intros x [i Hx]%list_elem_of_lookup. destruct (Forall2_lookup_l _ _ _ _ _ Hps Hx) as (b & Hi & Hp & Hsz).
    destruct (heap_ok_live _ _ b Hok) as (L1 & L2 & L3); [by eapply list_elem_of_lookup_2|]. unfold b_end in L3. lia.
  - intros i j x y Hij Hx Hy.
    destruct (Forall2_lookup_l _ _ _ _ _ Hps Hx) as (b & Hi & Hp & Hsz).
    destruct (Forall2_lookup_l _ _ _ _ _ Hps Hy) as (c & Hj & Hq & Hsz').
    pose proof (scattered_lookup _ _ _ _ _ (heap_ok_scattered _ _ Hok) Hij Hi Hj) as Hcl.
    unfold exclusive, clear_of, b_end in *. lia.
Qed.
End umalloc.

(** *** An example: a heap of the break 0x4000 that may grow to 16 MB *)
Definition grants (brk n : Z) : bool := (0 <=? n) && (brk + n <=? 2 ^ 24).
Definition heap_0 : heap := mkheap ∅ 0 0x4000.
Definition calls_1 : list call := [CMalloc 100; CMalloc 5000; CFree 1; CMalloc 40; CMalloc 0].

Lemma malloc_exclusive_witness :
  (∃ ps h', client 0x3000 grants calls_1 [] heap_0 = Ret ps h' ∧ length ps = 3%nat)
  ∧ ∃ ps h', client 0x3000 grants calls_1 [] heap_0 = Ret ps h'
    ∧ (∀ x, x ∈ ps → 0x3000 < x.1 ∧ x.1 + x.2 <= hp_brk h')
    ∧ ∀ i j x y, i ≠ j → ps !! i = Some x → ps !! j = Some y → exclusive x y.
Proof.
  split; [vm_compute; eauto|]. apply malloc_exclusive; [|done|done|done|done|].
  - unfold grants. intros brk n [_ H]%andb_true_iff. lia.
  - unfold calls_1. repeat (apply Forall_cons_2; [try lia; exact I|]). apply Forall_nil_2.
Defined.

(** A request of more than 2^32-8 bytes is rounded up past 2^32: [malloc] looks for a
    block of one header, with no room for data. *)
Lemma malloc_units_wraps nbytes : 2 ^ 32 - 8 < nbytes < 2 ^ 32 → malloc_units nbytes = 1.
Proof.
  intros Hn. unfold malloc_units, sizeof_Header. replace (nbytes + 8 - 1) with (nbytes - 2 ^ 32 + 7 + 1 * 2 ^ 32) by lia.
  unfold u32. rewrite Z.mod_add, Z.mod_small by lia. Z.to_euclidean_division_equations. lia.
Qed.
