(* ===== verification/Sh.v ===== *)
(** * The parser of the shell (sh.c)

    [parsecmd] turns a line into a structure of commands that the shell allocates with
    [malloc] and links by pointers, and then ends the words of the line with NULs, in
    place.  The line is in memory, the commands at the addresses [malloc] gave.
    [panic] of the shell is the outcome of that name.  What the parser needs of the
    allocator is the class [Allocator]. *)
From S2P Require Import Prelude Str Ulib Sysfile.

(** [al_ok a ps k]: the pointers [ps] are in use, [k] more requests will be granted. *)
Class Allocator (A : Type) := {
  al_malloc : Z → M A Z;
  al_ok : A → gset Z → nat → Prop;
  al_ok_le a ps k k' : al_ok a ps k → (k' <= k)%nat → al_ok a ps k';
  al_malloc_ok a ps k n : al_ok a ps (S k) → 0 <= n <= 4096 →
    ∃ p a', al_malloc n a = Ret p a' ∧ p ≠ 0 ∧ (p ∉ ps) ∧ al_ok a' ({[p]} ∪ ps) k;
}.

Module Sh.
Definition MAXARGS : nat := 10.

(** [struct cmd] by its type: [execcmd], [redircmd], [pipecmd], [listcmd], [backcmd]. *)
Inductive cmd :=
| EXEC (argv eargv : list Z)
| REDIR (cmd file efile mode fd : Z)
| PIPE (left right : Z)
| LIST (left right : Z)
| BACK (cmd : Z).

(** The memory of the line, the commands, the allocator. *)
Record shell {A : Type} := mkshell { sh_mem : mem; sh_cmds : gmap Z cmd; sh_heap : A }.
Arguments shell : clear implicits.
Arguments mkshell {A} _ _ _.
Definition set_sh_mem {A} (v : mem) (s : shell A) : shell A := mkshell v (sh_cmds s) (sh_heap s).
Definition set_sh_cmds {A} (v : gmap Z cmd) (s : shell A) : shell A := mkshell (sh_mem s) v (sh_heap s).

(** ** Tokens *)
Definition whitespace : list Z := [32; 9; 13; 10; 11].      (* " \t\r\n\v" *)
Definition symbols : list Z := [60; 124; 62; 38; 59; 40; 41]. (* "<|>&;()" *)

(** [strchr] in a constant string, at the address 1. *)
Definition literal (str : list Z) : mem := λ a, default 0 (str !! Z.to_nat (a - 1)).
Definition strchr (str : list Z) (c : Z) : bool :=
  match Ulib.strchr (S (length str)) (literal str) 1 c with Some p => negb (p =? 0) | None => false end.

(** [while(s < es && test( *s)) s++]: [n] is [es - s]. *)
Fixpoint skip (test : Z → bool) (m : mem) (n : nat) (s : Z) : Z :=
  match n with
  | O => s
  | S n' => if test (m s) then skip test m n' (s + 1) else s
  end.
Definition skip_space (m : mem) (s es : Z) : Z := skip (strchr whitespace) m (Z.to_nat (es - s)) s.

(** The result, [*q], [*eq] and [*ps]. *)
Definition gettoken (m : mem) (s es : Z) : Z * Z * Z * Z :=
  let s := skip_space m s es in
  let q := s in
  let c := m s in
  let '(ret, s) :=
    if c =? 0 then (c, s)
    else if (c =? 124) || (c =? 40) || (c =? 41) || (c =? 59) || (c =? 38) || (c =? 60) then (c, s + 1)
    else if c =? 62 then if m (s + 1) =? 62 then (43, s + 2) else (c, s + 1)
    else (97, skip (λ c, negb (strchr whitespace c) && negb (strchr symbols c)) m (Z.to_nat (es - s)) s) in
  (ret, q, s, skip_space m s es).

Definition peek (m : mem) (s es : Z) (toks : list Z) : bool * Z :=
  let s := skip_space m s es in (negb (m s =? 0) && strchr toks (m s), s).

Section sh.
Context {A : Type} `{!Allocator A}.
Abbreviation SM := (M (shell A)).

(** ** Constructors *)
(** [malloc], [memset] and the fields; a null pointer is written through. *)
Definition new_cmd (size : Z) (c : cmd) : SM Z :=
  st ← get;
  match al_malloc size (sh_heap st) with
  | Ret p a =>
      if p =? 0 then fault else
      modify (λ st, mkshell (sh_mem st) (<[p := c]> (sh_cmds st)) a);;
      mret p
  | _ => fault
  end.

Definition execcmd : SM Z := new_cmd 84 (EXEC (replicate MAXARGS 0) (replicate MAXARGS 0)).
Definition redircmd (subcmd file efile mode fd : Z) : SM Z := new_cmd 24 (REDIR subcmd file efile mode fd).
Definition pipecmd (left right : Z) : SM Z := new_cmd 12 (PIPE left right).
Definition listcmd (left right : Z) : SM Z := new_cmd 12 (LIST left right).
Definition backcmd (subcmd : Z) : SM Z := new_cmd 8 (BACK subcmd).

(** ** Parsing *)
(** The command and [*ps]. *)
Fixpoint parseredirs (fuel : nat) (cmd s es : Z) : SM (Z * Z) :=
  match fuel with
  | O => fault
  | S fuel' =>
      m ← gets sh_mem;
      let '(b, s) := peek m s es [60; 62] in
      if negb b then mret (cmd, s) else
      let '(tok, _, _, s) := gettoken m s es in
      let '(ret, q, eq, s) := gettoken m s es in
      if negb (ret =? 97) then panic "missing file for redirection" else
      cmd ← (if tok =? 60 then redircmd cmd q eq O_RDONLY 0
             else if tok =? 62 then redircmd cmd q eq (Z.lor O_WRONLY O_CREATE) 1
             else if tok =? 43 then redircmd cmd q eq (Z.lor O_WRONLY O_CREATE) 1
             else mret cmd);
      parseredirs fuel' cmd s es
  end.

(** [cmd->argv[i] = q; cmd->eargv[i] = eq]. *)
Definition set_arg (cmd : Z) (i : nat) (q eq : Z) : SM unit :=
  st ← get;
  match sh_cmds st !! cmd with
  | Some (EXEC argv eargv) =>
      if (i <? length argv)%nat
      then modify (set_sh_cmds (<[cmd := EXEC (<[i := q]> argv) (<[i := eq]> eargv)]> (sh_cmds st)))
      else fault
  | _ => fault
  end.

(** The loop of [parseexec]. *)
Fixpoint parseexec_loop (fuel : nat) (cmd ret : Z) (argc : nat) (s es : Z) : SM (Z * Z) :=
  match fuel with
  | O => fault
  | S fuel' =>
      m ← gets sh_mem;
      let '(b, s) := peek m s es [124; 41; 38; 59] in
      if b then set_arg cmd argc 0 0;; mret (ret, s) else
      let '(tok, q, eq, s) := gettoken m s es in
      if tok =? 0 then set_arg cmd argc 0 0;; mret (ret, s) else
      if negb (tok =? 97) then panic "syntax" else
      set_arg cmd argc q eq;;
      if (MAXARGS <=? S argc)%nat then panic "too many args" else
      '(ret, s) ← parseredirs fuel' ret s es;
      parseexec_loop fuel' cmd ret (S argc) s es
  end.

(** [while(peek(ps, es, "&"))] of [parseline]. *)
Fixpoint parseline_back (fuel : nat) (cmd s es : Z) : SM (Z * Z) :=
  match fuel with
  | O => fault
  | S fuel' =>
      m ← gets sh_mem;
      let '(b, s) := peek m s es [38] in
      if negb b then mret (cmd, s) else
      let '(_, _, _, s) := gettoken m s es in
      cmd ← backcmd cmd;
      parseline_back fuel' cmd s es
  end.

(** The parsers call each other: [rec] is the call, [fuel] that of the loops. *)
Inductive nonterminal := Line | Pipeline | Command | Block.

Definition parseline (rec : nonterminal → Z → Z → SM (Z * Z)) (fuel : nat) (s es : Z) : SM (Z * Z) :=
  '(cmd, s) ← rec Pipeline s es;
  '(cmd, s) ← parseline_back fuel cmd s es;
  m ← gets sh_mem;
  let '(b, s) := peek m s es [59] in
  if negb b then mret (cmd, s) else
  let '(_, _, _, s) := gettoken m s es in
  '(rcmd, s) ← rec Line s es;
  cmd ← listcmd cmd rcmd;
  mret (cmd, s).

Definition parsepipe (rec : nonterminal → Z → Z → SM (Z * Z)) (s es : Z) : SM (Z * Z) :=
  '(cmd, s) ← rec Command s es;
  m ← gets sh_mem;
  let '(b, s) := peek m s es [124] in
  if negb b then mret (cmd, s) else
  let '(_, _, _, s) := gettoken m s es in
  '(rcmd, s) ← rec Pipeline s es;
  cmd ← pipecmd cmd rcmd;
  mret (cmd, s).

Definition parseblock (rec : nonterminal → Z → Z → SM (Z * Z)) (fuel : nat) (s es : Z) : SM (Z * Z) :=
  m ← gets sh_mem;
  let '(b, s) := peek m s es [40] in
  if negb b then panic "parseblock" else
  let '(_, _, _, s) := gettoken m s es in
  '(cmd, s) ← rec Line s es;
  let '(b, s) := peek m s es [41] in
  if negb b then panic "syntax - missing )" else
  let '(_, _, _, s) := gettoken m s es in
  parseredirs fuel cmd s es.

Definition parseexec (rec : nonterminal → Z → Z → SM (Z * Z)) (fuel : nat) (s es : Z) : SM (Z * Z) :=
  m ← gets sh_mem;
  let '(b, s) := peek m s es [40] in
  if b then rec Block s es else
  cmd ← execcmd;
  '(ret, s) ← parseredirs fuel cmd s es;
  parseexec_loop fuel cmd ret 0 s es.

Fixpoint parser (fuel : nat) (nt : nonterminal) (s es : Z) : SM (Z * Z) :=
  match fuel with
  | O => fault
  | S fuel' =>
      match nt with
      | Line => parseline (parser fuel') fuel' s es
      | Pipeline => parsepipe (parser fuel') s es
      | Command => parseexec (parser fuel') fuel' s es
      | Block => parseblock (parser fuel') fuel' s es
      end
  end.

(** [*p = 0]. *)
Definition poke0 (p : Z) : SM unit := modify (λ st, set_sh_mem (store (sh_mem st) p 0) st).

(** [for(i=0; ecmd->argv[i]; i++) *ecmd->eargv[i] = 0]. *)
Fixpoint terminate_args (argv eargv : list Z) : SM unit :=
  match argv, eargv with
  | q :: argv', eq :: eargv' => if q =? 0 then mret tt else poke0 eq;; terminate_args argv' eargv'
  | _, _ => fault
  end.

Fixpoint nulterminate (fuel : nat) (p : Z) : SM Z :=
  match fuel with
  | O => fault
  | S fuel' =>
      if p =? 0 then mret 0 else
      st ← get;
      c ← deref (sh_cmds st !! p);
      (match c with
       | EXEC argv eargv => terminate_args argv eargv
       | REDIR sub _ efile _ _ => nulterminate fuel' sub;; poke0 efile
       | PIPE l r => nulterminate fuel' l;; nulterminate fuel' r;; mret tt
       | LIST l r => nulterminate fuel' l;; nulterminate fuel' r;; mret tt
       | BACK sub => nulterminate fuel' sub;; mret tt
       end);;
      mret p
  end.

(** [n] is more than the length of the line.  The line about leftovers that is printed
    before the panic is [leftovers] of [ShRun]. *)
Definition parsecmd (n : nat) (s : Z) : SM Z :=
  m ← gets sh_mem;
  len ← deref (Ulib.strlen n m s);
  let es := s + len in
  '(cmd, s) ← parser (4 * n + 4) Line s es;
  let '(_, s) := peek m s es [] in
  if negb (s =? es) then panic "syntax" else
  nulterminate (4 * n + 4) cmd;;
  mret cmd.
End sh.
End Sh.
