(* ===== verification/ShSpec.v ===== *)
(** * Command lines: tokens, trees and their grammar

    The reference for the parser of the shell: the tokens of a line, the tree of a
    command, how a tree is written, and a recursive-descent parser of tokens.  A tree
    that is written down is parsed back, and every list of tokens is either parsed or
    refused with a message. *)
From S2P Require Import Prelude Sh.

Abbreviation word := (list Z).

Inductive tok := W (w : word) | Lt | Gt | App | Bar | Amp | Semi | LPar | RPar.
#[export] Instance tok_eq_dec : EqDecision tok.
Proof. solve_decision. Defined.

Definition is_space (c : Z) : bool := bool_decide (c ∈ Sh.whitespace).
Definition is_symbol (c : Z) : bool := bool_decide (c ∈ Sh.symbols).
Definition plain (c : Z) : bool := negb (is_space c) && negb (is_symbol c).

Definition symbol_tok (c : Z) : tok :=
  if c =? 60 then Lt else if c =? 124 then Bar else if c =? 62 then Gt else if c =? 38 then Amp
  else if c =? 59 then Semi else if c =? 40 then LPar else RPar.

Definition flush (w : word) : list tok := match w with [] => [] | _ => [W w] end.

(** The tokens of a text, with the characters [w] of the word it is in. *)
Fixpoint lex (w : word) (l : list Z) : list tok :=
  match l with
  | [] => flush w
  | c :: l' =>
      if is_space c then flush w ++ lex [] l'
      else if is_symbol c then
        flush w ++
        match l' with
        | d :: l'' => if (c =? 62) && (d =? 62) then App :: lex [] l'' else symbol_tok c :: lex [] l'
        | [] => [symbol_tok c]
        end
      else lex (w ++ [c]) l'
  end.
Definition tokens (l : list Z) : list tok := lex [] l.

(** ** Trees *)
(** [TRedir t f inp]: input from [f] or output to it. *)
Inductive tree :=
| TExec (ws : list word)
| TRedir (t : tree) (f : word) (inp : bool)
| TPipe (l r : tree)
| TList (l r : tree)
| TBack (t : tree).

Fixpoint wrap (t : tree) (rs : list (word * bool)) : tree :=
  match rs with [] => t | (f, inp) :: rs' => wrap (TRedir t f inp) rs' end.

Fixpoint tsize (t : tree) : nat :=
  match t with
  | TExec _ => 1
  | TRedir t _ _ | TBack t => S (tsize t)
  | TPipe l r | TList l r => S (tsize l + tsize r)
  end.

(** How a tree is written, inside a simple command (0), a pipeline (1), before [&] (2)
    or as a line (3). *)
Definition paren (b : bool) (ts : list tok) : list tok := if b then LPar :: ts ++ [RPar] else ts.
Definition redir_toks (r : word * bool) : list tok := [if r.2 then Lt else Gt; W r.1].

Fixpoint written (lvl : nat) (t : tree) : list tok :=
  match t with
  | TExec ws => W <$> ws
  | TRedir t f inp => written 0 t ++ redir_toks (f, inp)
  | TPipe l r => paren (lvl <? 1)%nat (written 0 l ++ Bar :: written 1 r)
  | TBack t => paren (lvl <? 2)%nat (written 2 t ++ [Amp])
  | TList l r => paren (lvl <? 3)%nat (written 2 l ++ Semi :: written 3 r)
  end.

(** At most nine words in a command. *)
Fixpoint few_args (t : tree) : Prop :=
  match t with
  | TExec ws => (length ws < Sh.MAXARGS)%nat
  | TRedir t _ _ | TBack t => few_args t
  | TPipe l r | TList l r => few_args l ∧ few_args r
  end.

(** ** The parser of tokens *)
Inductive pres (X : Type) := Good (x : X) (ts : list tok) | Bad (msg : string) | Dry.
Arguments Good {X} x ts.
Arguments Bad {X} msg.
Arguments Dry {X}.
Definition pbind {X Y} (r : pres X) (f : X → list tok → pres Y) : pres Y :=
  match r with Good x ts => f x ts | Bad msg => Bad msg | Dry => Dry end.

Fixpoint p_redirs (n : nat) (ts : list tok) : pres (list (word * bool)) :=
  match n with
  | O => Dry
  | S n' =>
      let go inp ts' := match ts' with
        | W f :: ts'' => pbind (p_redirs n' ts'') (λ rs ts, Good ((f, inp) :: rs) ts)
        | _ => Bad "missing file for redirection"
        end in
      match ts with
      | Lt :: ts' => go true ts'
      | Gt :: ts' | App :: ts' => go false ts'
      | _ => Good [] ts
      end
  end.

Fixpoint p_args (n : nat) (ws : list word) (rs : list (word * bool)) (ts : list tok) : pres tree :=
  match n with
  | O => Dry
  | S n' =>
      match ts with
      | [] | Bar :: _ | RPar :: _ | Amp :: _ | Semi :: _ => Good (wrap (TExec ws) rs) ts
      | W w :: ts' =>
          if (Sh.MAXARGS <=? S (length ws))%nat then Bad "too many args" else
          pbind (p_redirs n' ts') (λ rs' ts, p_args n' (ws ++ [w]) (rs ++ rs') ts)
      | _ => Bad "syntax"
      end
  end.

Fixpoint p_back (n : nat) (t : tree) (ts : list tok) : pres tree :=
  match n with
  | O => Dry
  | S n' => match ts with Amp :: ts' => p_back n' (TBack t) ts' | _ => Good t ts end
  end.

Fixpoint p_line (n : nat) (ts : list tok) : pres tree :=
  match n with
  | O => Dry
  | S n' =>
      pbind (p_pipe n' ts) (λ t ts, pbind (p_back n' t ts) (λ t ts,
        match ts with
        | Semi :: ts' => pbind (p_line n' ts') (λ r ts, Good (TList t r) ts)
        | _ => Good t ts
        end))
  end
with p_pipe (n : nat) (ts : list tok) : pres tree :=
  match n with
  | O => Dry
  | S n' =>
      pbind (p_exec n' ts) (λ t ts,
        match ts with
        | Bar :: ts' => pbind (p_pipe n' ts') (λ r ts, Good (TPipe t r) ts)
        | _ => Good t ts
        end)
  end
with p_exec (n : nat) (ts : list tok) : pres tree :=
  match n with
  | O => Dry
  | S n' =>
      match ts with
      | LPar :: _ => p_block n' ts
      | _ => pbind (p_redirs n' ts) (λ rs ts, p_args n' [] rs ts)
      end
  end
with p_block (n : nat) (ts : list tok) : pres tree :=
  match n with
  | O => Dry
  | S n' =>
      match ts with
      | LPar :: ts' => pbind (p_line n' ts') (λ t ts,
          match ts with
          | RPar :: ts' => pbind (p_redirs n' ts') (λ rs ts, Good (wrap t rs) ts)
          | _ => Bad "syntax - missing )"
          end)
      | _ => Bad "parseblock"
      end
  end.

(** The whole of a line. *)
Definition parse (n : nat) (ts : list tok) : pres tree :=
  pbind (p_line n ts) (λ t ts, match ts with [] => Good t [] | _ => Bad "syntax" end).

(** *** Enough fuel *)
(** The result is no shortage of fuel, and a tree that uses [k] of the tokens has at
    most [2k+1] nodes. *)
Definition settled (ts : list tok) (r : pres tree) : Prop :=
  match r with
  | Good t ts' => (tsize t + 2 * length ts' <= 2 * length ts + 1 ∧ length ts' <= length ts)%nat
  | Bad _ => True
  | Dry => False
  end.

Lemma tsize_wrap t rs : tsize (wrap t rs) = (tsize t + length rs)%nat.
Proof. revert t. induction rs as [|[f inp] rs IH]; intros t; cbn; [lia|]. rewrite IH. cbn. lia. Qed.

Lemma p_redirs_settled n ts : (length ts < n)%nat →
  match p_redirs n ts with
  | Good rs ts' => (length rs + length ts' <= length ts)%nat ∧ (rs = [] ∨ (length ts' < length ts)%nat)
  | Bad _ => True
  | Dry => False
  end.
Proof.
  revert ts. induction n as [|n IH]; intros ts Hn; [lia|]. cbn [p_redirs].
  assert (∀ inp ts', (length ts' < n)%nat →
    match (match ts' with
      | W f :: ts'' => pbind (p_redirs n ts'') (λ rs ts, Good ((f, inp) :: rs) ts)
      | _ => Bad "missing file for redirection"
      end) with
    | Good rs ts0 => (length rs + length ts0 <= S (length ts'))%nat ∧ (rs = [] ∨ (length ts0 < S (length ts'))%nat)
    | Bad _ => True
    | Dry => False
    end) as Hgo.
  { intros inp [|[] ts'] Hts; try done. cbn in Hts. specialize (IH ts' ltac:(lia)).
    destruct (p_redirs n ts'); cbn; [|done..]. cbn in *. destruct IH. split; [lia|right; lia]. }
  destruct ts as [|[] ts]; cbn in *; try (split; [lia|by left]); apply Hgo; lia.
Qed.

Lemma p_args_settled n ws rs ts : (length ts < n)%nat →
  match p_args n ws rs ts with
  | Good t ts' => (tsize t + 2 * length ts' <= 2 * length ts + 1 + length rs ∧ length ts' <= length ts)%nat
  | Bad _ => True
  | Dry => False
  end.
Proof.
  revert ws rs ts. induction n as [|n IH]; intros ws rs ts Hn; [lia|]. cbn [p_args].
  destruct ts as [|[] ts]; try done; try (rewrite tsize_wrap; cbn in *; lia).
  destruct (Sh.MAXARGS <=? S (length ws))%nat; [done|]. cbn in Hn. pose proof (p_redirs_settled n ts ltac:(lia)) as Hr.
  destruct (p_redirs n ts) as [rs' ts'| |]; cbn; [|done..]. destruct Hr as [Hr _].
  specialize (IH (ws ++ [w]) (rs ++ rs') ts' ltac:(lia)).
  destruct (p_args n (ws ++ [w]) (rs ++ rs') ts'); try done. rewrite length_app in IH. cbn. lia.
Qed.

Lemma p_back_settled n t ts : (length ts < n)%nat →
  ∃ t' ts', p_back n t ts = Good t' ts' ∧ (tsize t' + length ts' = tsize t + length ts ∧ length ts' <= length ts)%nat.
Proof.
  revert t ts. induction n as [|n IH]; intros t ts Hn; [lia|]. cbn [p_back].
  destruct ts as [|[] ts]; try (eexists _, _; split; [reflexivity|lia]). cbn in Hn.
  destruct (IH (TBack t) ts ltac:(lia)) as (t' & ts' & -> & H). exists t', ts'. cbn in *. split; [done|lia].
Qed.

Lemma p_settled n ts :
  ((4 * length ts + 4 <= n)%nat → settled ts (p_line n ts))
  ∧ ((4 * length ts + 3 <= n)%nat → settled ts (p_pipe n ts))
  ∧ ((4 * length ts + 2 <= n)%nat → settled ts (p_exec n ts))
  ∧ ((4 * length ts + 1 <= n)%nat → settled ts (p_block n ts)).
Proof.
  revert ts. induction n as [|n IH]; intros ts; [split_and!; lia|]. split_and!; intros Hn.
  - cbn [p_line]. destruct (IH ts) as (_ & Hp & _). specialize (Hp ltac:(lia)).
    destruct (p_pipe n ts) as [t ts1| |]; cbn in *; [|done..].
    destruct (p_back_settled n t ts1 ltac:(lia)) as (t2 & ts2 & -> & Hb). cbn.
    destruct ts2 as [|[] ts2]; cbn in *; try lia. destruct (IH ts2) as (Hl & _).
    specialize (Hl ltac:(lia)). destruct (p_line n ts2) as [r ts3| |]; cbn in *; [lia|done..].
  - cbn [p_pipe]. destruct (IH ts) as (_ & _ & He & _). specialize (He ltac:(lia)).
    destruct (p_exec n ts) as [t ts1| |]; cbn in *; [|done..].
    destruct ts1 as [|[] ts1]; cbn in *; try lia. destruct (IH ts1) as (_ & Hp & _).
    specialize (Hp ltac:(lia)). destruct (p_pipe n ts1) as [r ts3| |]; cbn in *; [lia|done..].
  - cbn [p_exec].
    assert (settled ts (pbind (p_redirs n ts) (λ rs ts, p_args n [] rs ts))) as Hs.
    { pose proof (p_redirs_settled n ts ltac:(lia)) as Hr.
      destruct (p_redirs n ts) as [rs ts1| |]; cbn; [|done..]. destruct Hr as [Hr _].
      pose proof (p_args_settled n [] rs ts1 ltac:(lia)) as Ha. unfold settled.
      destruct (p_args n [] rs ts1); [lia|done..]. }
    destruct ts as [|[] ts]; try done. destruct (IH (LPar :: ts)) as (_ & _ & _ & Hb). apply Hb. lia.
  - cbn [p_block]. destruct ts as [|[] ts]; try done. cbn in Hn. destruct (IH ts) as (Hl & _).
    specialize (Hl ltac:(lia)). destruct (p_line n ts) as [t ts1| |]; cbn in *; [|done..].
    destruct ts1 as [|[] ts1]; try done. cbn in Hl.
    pose proof (p_redirs_settled n ts1 ltac:(lia)) as Hr.
    destruct (p_redirs n ts1) as [rs ts2| |]; cbn; [|done..]. rewrite tsize_wrap. cbn in *. lia.
Qed.

(** *** What is written is parsed back *)
(** The tokens that can follow: a simple command, a pipeline, a command before [&], a
    line. *)
Definition follows (lvl : nat) (ts : list tok) : Prop :=
  match ts with
  | [] | RPar :: _ => True
  | Semi :: _ => (lvl < 3)%nat
  | Amp :: _ => (lvl < 2)%nat
  | Bar :: _ => (lvl < 1)%nat
  | _ => False
  end.

Lemma follows_le lvl lvl' ts : (lvl <= lvl')%nat → follows lvl' ts → follows lvl ts.
Proof. destruct ts as [|[] ts]; cbn; try done; lia. Qed.

Abbreviation redirs_toks rs := (flat_map redir_toks rs).

Lemma p_redirs_written n rs rest :
  (length (redirs_toks rs ++ rest) < n)%nat → follows 0 rest → p_redirs n (redirs_toks rs ++ rest) = Good rs rest.
Proof.
  revert n. induction rs as [|[f inp] rs IH]; intros [|n] Hn Hf; try lia.
  - cbn. by destruct rest as [|[] rest].
  - cbn in Hn |- *. destruct inp; rewrite IH by (done || lia); done.
Qed.

Lemma p_args_written n ws ws' rs rest :
  (length ((W <$> ws') ++ redirs_toks rs ++ rest) < n)%nat → follows 0 rest → (length (ws ++ ws') < Sh.MAXARGS)%nat →
  ws' ≠ [] ∨ rs = [] →
  p_args n ws [] ((W <$> ws') ++ redirs_toks rs ++ rest) = Good (wrap (TExec (ws ++ ws')) rs) rest.
Proof.
  revert n ws. induction ws' as [|w ws' IH]; intros [|n] ws Hn Hf Hlen Hne; try lia.
  - destruct Hne as [?| ->]; [done|]. cbn [fmap list_fmap app flat_map]. rewrite app_nil_r.
    cbn [p_args]. by destruct rest as [|[] rest].
  - cbn [fmap list_fmap app p_args]. cbn in Hn. rewrite length_app in Hlen. cbn [length] in Hlen.
    rewrite (proj2 (Nat.leb_gt _ _)) by lia.
    destruct ws' as [|w' ws'].
    + cbn [fmap list_fmap app] in *. rewrite p_redirs_written by (done || lia). cbn.
      destruct n as [|n]; [cbn in Hn; lia|]. cbn [p_args]. by destruct rest as [|[] rest].
    + assert (p_redirs n ((W <$> w' :: ws') ++ redirs_toks rs ++ rest) = Good [] ((W <$> w' :: ws') ++ redirs_toks rs ++ rest))
        as -> by (destruct n; [cbn in Hn; lia|done]).
      cbn [pbind app]. rewrite IH; [by rewrite <-app_assoc|cbn in Hn |- *; lia|done| |by left].
      rewrite <-app_assoc, length_app. cbn [app length] in Hlen |- *. lia.
Qed.

(** What has to be shown of a tree at each level. *)
Definition back_exec t : Prop := ∀ n rs rest,
  follows 0 rest → (4 * length (written 0 t ++ redirs_toks rs ++ rest) + 2 <= n)%nat →
  p_exec n (written 0 t ++ redirs_toks rs ++ rest) = Good (wrap t rs) rest.
Definition back_pipe t : Prop := ∀ n rest,
  follows 1 rest → (4 * length (written 1 t ++ rest) + 3 <= n)%nat → p_pipe n (written 1 t ++ rest) = Good t rest.
Fixpoint backs (k : nat) (t : tree) : tree := match k with O => t | S k' => backs k' (TBack t) end.
Definition back_back t : Prop := ∀ n k rest,
  follows 2 rest → (4 * length (written 2 t ++ replicate k Amp ++ rest) + 3 <= n)%nat →
  pbind (p_pipe n (written 2 t ++ replicate k Amp ++ rest)) (p_back n) = Good (backs k t) rest.
Definition back_line t : Prop := ∀ n rest,
  follows 3 rest → (4 * length (written 3 t ++ rest) + 4 <= n)%nat → p_line n (written 3 t ++ rest) = Good t rest.

Lemma back_exec_pipe t : back_exec t → written 1 t = written 0 t → back_pipe t.
Proof.
  intros He Hw n rest Hf Hn. destruct n as [|n]; [lia|]. cbn [p_pipe]. rewrite Hw in Hn |- *.
  specialize (He n [] rest (follows_le 0 1 _ ltac:(lia) Hf)). cbn [flat_map app] in He. rewrite He by lia. cbn.
  destruct rest as [|[] rest]; try done. cbn in Hf. lia.
Qed.

Lemma p_back_amps n k t rest :
  (k < n)%nat → follows 2 rest → p_back n t (replicate k Amp ++ rest) = Good (backs k t) rest.
Proof.
  revert n t. induction k as [|k IH]; intros [|n] t Hn Hf; try lia; cbn.
  - destruct rest as [|[] rest]; try done. cbn in Hf. lia.
  - apply IH; [lia|done].
Qed.

Lemma back_pipe_back t : back_pipe t → written 2 t = written 1 t → back_back t.
Proof.
  intros Hp Hw n k rest Hf Hn. rewrite Hw in Hn |- *. rewrite Hp; [cbn| |done].
  - apply p_back_amps; [|done]. rewrite !length_app, length_replicate in Hn. lia.
  - destruct k; cbn; [|lia]. by eapply follows_le; [|done]; lia.
Qed.

Lemma back_back_line t : back_back t → written 3 t = written 2 t → back_line t.
Proof.
  intros Hb Hw n rest Hf Hn. destruct n as [|n]; [lia|]. cbn [p_line]. rewrite Hw in Hn |- *.
  specialize (Hb n 0%nat rest (follows_le 2 3 _ ltac:(lia) Hf)). cbn [replicate app] in Hb. specialize (Hb ltac:(lia)).
  destruct (p_pipe n (written 2 t ++ rest)) as [t1 ts1| |]; cbn in *; try done. rewrite Hb. cbn.
  destruct rest as [|[] rest]; try done. cbn in Hf. lia.
Qed.

Lemma back_line_exec t : back_line t → written 0 t = LPar :: written 3 t ++ [RPar] → back_exec t.
Proof.
  intros Hl Hw n rs rest Hf Hn. rewrite Hw in Hn |- *. cbn [app] in Hn |- *. rewrite <-app_assoc in Hn |- *.
  cbn [length app] in Hn |- *. destruct n as [|n]; [lia|]. cbn [p_exec]. destruct n as [|n]; [lia|]. cbn [p_block].
  rewrite Hl by (done || lia). cbn. rewrite !length_app in Hn. cbn in Hn. rewrite length_app in Hn.
  rewrite p_redirs_written; [done|rewrite length_app; lia|done].
Qed.

Lemma back_all t :
  back_exec t → (∀ lvl, written lvl t = written 0 t) → back_exec t ∧ back_pipe t ∧ back_back t ∧ back_line t.
Proof.
  intros He Hw. pose proof (back_exec_pipe _ He (Hw _)) as Hp.
  pose proof (back_pipe_back _ Hp (eq_trans (Hw _) (eq_sym (Hw _)))) as Hb.
  pose proof (back_back_line _ Hb (eq_trans (Hw _) (eq_sym (Hw _)))). done.
Qed.

Lemma written_back t :
  few_args t → back_exec t ∧ back_pipe t ∧ back_back t ∧ back_line t.
Proof.
  induction t as [ws|t IH f inp|l IHl r IHr|l IHl r IHr|t IH]; intros Hfew.
  1,2: apply back_all; [|done].
  - intros n rs rest Hf Hn. destruct n as [|n]; [lia|]. cbn [written] in Hn |- *. cbn [few_args] in Hfew.
    assert (p_exec (S n) ((W <$> ws) ++ redirs_toks rs ++ rest)
      = pbind (p_redirs n ((W <$> ws) ++ redirs_toks rs ++ rest)) (λ rs ts, p_args n [] rs ts)) as ->.
    { cbn [p_exec]. destruct ws; [|done]. destruct rs as [|[f []] rs]; [|done..]. cbn. by destruct rest as [|[] ?]. }
    destruct ws as [|w ws].
    + cbn [fmap list_fmap app] in Hn |- *. rewrite p_redirs_written by (done || lia). cbn.
      destruct n as [|n]; [lia|]. cbn [p_args]. by destruct rest as [|[] ?].
    + assert (p_redirs n ((W <$> w :: ws) ++ redirs_toks rs ++ rest) = Good [] ((W <$> w :: ws) ++ redirs_toks rs ++ rest))
        as -> by (destruct n; [cbn in Hn; lia|done]).
      cbn [pbind]. rewrite p_args_written; [done|lia|done|done|by left].
  - intros n rs rest Hf Hn. cbn [written] in Hn |- *. rewrite <-app_assoc in Hn |- *.
    change (redir_toks (f, inp) ++ redirs_toks rs ++ rest) with (redirs_toks ((f, inp) :: rs) ++ rest) in *.
    by apply IH.
  - destruct Hfew as [Hfl Hfr]. specialize (IHl Hfl) as (Hel & _). specialize (IHr Hfr) as (_ & Hpr & _).
    assert (back_pipe (TPipe l r)) as Hp.
    { intros n rest Hf Hn. cbn [written paren Nat.ltb Nat.leb] in Hn |- *. rewrite <-app_assoc in Hn |- *. cbn [app] in Hn |- *.
      destruct n as [|n]; [lia|]. cbn [p_pipe]. rewrite length_app in Hn. cbn [length] in Hn.
      specialize (Hel n [] (Bar :: written 1 r ++ rest)). cbn [flat_map app wrap] in Hel.
      rewrite Hel; [|cbn; lia|rewrite length_app; cbn; lia]. cbn [pbind]. rewrite Hpr by (done || lia). done. }
    pose proof (back_pipe_back _ Hp eq_refl) as Hb. pose proof (back_back_line _ Hb eq_refl) as Hl.
    split_and!; try done. by apply back_line_exec.
  - destruct Hfew as [Hfl Hfr]. specialize (IHl Hfl) as (_ & _ & Hbl & _). specialize (IHr Hfr) as (_ & _ & _ & Hlr).
    assert (back_line (TList l r)) as Hl.
    { intros n rest Hf Hn. cbn [written paren Nat.ltb Nat.leb] in Hn |- *. rewrite <-app_assoc in Hn |- *. cbn [app] in Hn |- *.
      destruct n as [|n]; [lia|]. cbn [p_line]. rewrite length_app in Hn. cbn [length] in Hn.
      specialize (Hbl n 0%nat (Semi :: written 3 r ++ rest)). cbn [replicate app backs] in Hbl.
      specialize (Hbl ltac:(cbn; lia) ltac:(rewrite length_app; cbn; lia)).
      destruct (p_pipe n (written 2 l ++ Semi :: written 3 r ++ rest)) as [t1 ts1| |]; cbn [pbind] in *; try done.
      rewrite Hbl. cbn [pbind]. rewrite Hlr by (done || lia). done. }
    pose proof (back_line_exec _ Hl eq_refl) as He. pose proof (back_exec_pipe _ He eq_refl) as Hp.
    split_and!; try done. by apply back_pipe_back.
  - cbn [few_args] in Hfew. specialize (IH Hfew) as (_ & _ & Hbt & _).
    assert (back_back (TBack t)) as Hb.
    { intros n k rest Hf Hn. cbn [written paren Nat.ltb Nat.leb] in Hn |- *. rewrite <-app_assoc in Hn |- *.
      specialize (Hbt n (S k) rest Hf). cbn [replicate app backs] in Hbt, Hn |- *. by apply Hbt. }
    pose proof (back_back_line _ Hb eq_refl) as Hl. pose proof (back_line_exec _ Hl eq_refl) as He.
    split_and!; try done. by apply back_exec_pipe.
Qed.

Lemma parse_written t n :
  few_args t → (4 * length (written 3 t) + 4 <= n)%nat → parse n (written 3 t) = Good t [].
Proof.
  intros Hf Hn. destruct (written_back t Hf) as (_ & _ & _ & Hl). specialize (Hl n []).
  rewrite app_nil_r in Hl. unfold parse. by rewrite Hl.
Qed.
