(* ===== verification/ShThms.v ===== *)
(** * The parser of the shell is the parser of tokens

    For every line [parsecmd] does what the reference parser does on its tokens: it
    builds the tree in memory, or panics with the same message. *)
From S2P Require Import Prelude Str Sysfile Ulib Sh ShSpec.

Section lexer.
Implicit Types (m : mem) (s es q eq : Z) (l : list Z) (w : word) (t : tok).

(** The text [l] in memory from [s] to [es], where there is a NUL. *)
Record at_text m s es l : Prop := {
  at_pos : 0 < s;
  at_end : s + Z.of_nat (length l) = es;
  at_char : ∀ i c, l !! i = Some c → m (s + Z.of_nat i) = c;
  at_nul : m es = 0;
  at_nonzero : Forall (λ c, c ≠ 0) l;
}.

(** A word in memory, followed by no character of a word. *)
Record span m q eq w : Prop := {
  sp_pos : 0 < q;
  sp_end : eq = q + Z.of_nat (length w);
  sp_char : ∀ i c, w !! i = Some c → m (q + Z.of_nat i) = c ∧ plain c = true ∧ c ≠ 0;
  sp_stop : m eq = 0 ∨ plain (m eq) = false;
}.

(** [strchr] in a constant string. *)
Lemma strchr_in str c : Forall (λ x, x ≠ 0) str → Sh.strchr str c = bool_decide (c ∈ str).
Proof.
  intros Hs. unfold Sh.strchr.
  assert (∀ rest pre, str = pre ++ rest →
    match Ulib.strchr (S (length rest)) (Sh.literal str) (Z.of_nat (length pre) + 1) c with
    | Some p => negb (p =? 0) | None => false end = bool_decide (c ∈ rest)) as H; [|apply (H str []); done].
  induction rest as [|x rest IH]; intros pre Hpre; cbn [Ulib.strchr].
  - assert (Sh.literal str (Z.of_nat (length pre) + 1) = 0) as ->.
    { unfold Sh.literal. rewrite lookup_ge_None_2; [done|]. rewrite Hpre, app_nil_r. lia. }
    cbn. symmetry. apply bool_decide_eq_false_2. set_solver.
  - assert (Sh.literal str (Z.of_nat (length pre) + 1) = x) as ->.
    { unfold Sh.literal. replace (Z.to_nat (Z.of_nat (length pre) + 1 - 1)) with (length pre) by lia.
      by rewrite Hpre, list_lookup_middle. }
    assert (x ≠ 0) as Hx by (rewrite Hpre in Hs; by apply Forall_app in Hs as [_ [? _]%Forall_cons]).
    rewrite (proj2 (Z.eqb_neq x 0)) by done. destruct (Z.eqb_spec x c) as [->|Hxc].
    + rewrite (proj2 (Z.eqb_neq _ 0)) by lia. symmetry. apply bool_decide_eq_true_2. left.
    + replace (Z.of_nat (length pre) + 1 + 1) with (Z.of_nat (length (pre ++ [x])) + 1) by (rewrite length_app; cbn; lia).
      cbn [length]. rewrite (IH (pre ++ [x])) by (by rewrite <-app_assoc). apply bool_decide_ext. set_solver.
Qed.

Lemma strchr_space c : Sh.strchr Sh.whitespace c = is_space c.
Proof. apply strchr_in. repeat constructor; done. Qed.
Lemma strchr_symbol c : Sh.strchr Sh.symbols c = is_symbol c.
Proof. apply strchr_in. repeat constructor; done. Qed.

Lemma at_text_drop m s es x l : at_text m s es (x ++ l) → at_text m (s + Z.of_nat (length x)) es l.
Proof.
  intros [H1 H2 H3 H4 H5]. rewrite length_app in H2. apply Forall_app in H5 as [_ H5]. constructor; try done; try lia.
  intros i c Hi. replace (s + Z.of_nat (length x) + Z.of_nat i) with (s + Z.of_nat (length x + i)) by lia.
  apply H3. rewrite lookup_app_r by lia. by replace (length x + i - length x)%nat with i by lia.
Qed.

Lemma at_text_head m s es c l : at_text m s es (c :: l) → m s = c ∧ c ≠ 0.
Proof.
  intros H. pose proof (at_char _ _ _ _ H 0%nat c eq_refl) as Hc. rewrite Z.add_0_r in Hc. split; [done|].
  by pose proof (at_nonzero _ _ _ _ H) as [? _]%Forall_cons.
Qed.

Lemma at_text_nil m s es : at_text m s es [] → s = es ∧ m s = 0.
Proof. intros H. pose proof (at_end _ _ _ _ H) as E. cbn in E. replace es with s in * by lia. split; [done|apply H]. Qed.

(** The loops that step over characters. *)
Lemma skip_spec test m s es l :
  at_text m s es l → ∃ x y, l = x ++ y ∧ Forall (λ c, test c = true) x
    ∧ (∀ c z, y = c :: z → test c = false) ∧ Sh.skip test m (Z.to_nat (es - s)) s = s + Z.of_nat (length x).
Proof.
  revert s. induction l as [|c l IH]; intros s H.
  { destruct (at_text_nil _ _ _ H) as [-> _]. exists [], []. rewrite Z.sub_diag.
    split_and!; [done|apply Forall_nil_2|done|]. change (es = es + 0). lia. }
  pose proof (at_end _ _ _ _ H) as He. cbn in He. destruct (at_text_head _ _ _ _ _ H) as [Hc _].
  replace (Z.to_nat (es - s)) with (S (Z.to_nat (es - (s + 1)))) by lia. cbn [Sh.skip]. rewrite Hc.
  destruct (test c) eqn:Ht.
  - destruct (IH (s + 1)) as (x & y & -> & Hx & Hy & ->); [by apply (at_text_drop m s es [c])|].
    exists (c :: x), y. split_and!; try done; [by constructor|cbn; lia].
  - exists [], (c :: l). split_and!; try done; [by intros ? ? [= <- <-]|cbn; lia].
Qed.

(** The tokens do not change when white space is skipped. *)
Lemma tokens_space x l : Forall (λ c, is_space c = true) x → tokens (x ++ l) = tokens l.
Proof. unfold tokens. induction 1 as [|c x Hc _ IH]; [done|]. cbn [app lex]. by rewrite Hc. Qed.

Lemma skip_space_spec m s es l :
  at_text m s es l → ∃ l', at_text m (Sh.skip_space m s es) es l' ∧ tokens l' = tokens l
    ∧ ∀ c z, l' = c :: z → is_space c = false.
Proof.
  intros H. unfold Sh.skip_space. destruct (skip_spec (Sh.strchr Sh.whitespace) _ _ _ _ H) as (x & y & -> & Hx & Hy & ->).
  assert (Forall (λ c, is_space c = true) x) as Hx'.
  { eapply Forall_impl; [exact Hx|]. intros c. cbn. by rewrite strchr_space. }
  exists y. split_and!; [by apply at_text_drop|by rewrite tokens_space|].
  intros c z E. rewrite <-strchr_space. by eapply Hy.
Qed.

(** A word at the front. *)
Lemma lex_word w x y :
  Forall (λ c, plain c = true) x → (∀ c z, y = c :: z → plain c = false) → lex w (x ++ y) = flush (w ++ x) ++ lex [] y.
Proof.
  intros Hx Hy. revert w. induction Hx as [|c x Hc _ IH]; intros w.
  - rewrite app_nil_r. cbn [app]. destruct y as [|c y]; cbn [lex]; [by rewrite app_nil_r|].
    specialize (Hy c y eq_refl). unfold plain in Hy. destruct (is_space c); [done|].
    destruct (is_symbol c); [|done]. done.
  - cbn [app lex]. unfold plain in Hc. apply andb_true_iff in Hc as [H1%negb_true_iff H2%negb_true_iff].
    rewrite H1, H2, IH. by rewrite <-app_assoc.
Qed.

Definition tok_ret (t : tok) : Z :=
  match t with
  | W _ => 97 | Lt => 60 | Gt => 62 | App => 43 | Bar => 124 | Amp => 38 | Semi => 59 | LPar => 40 | RPar => 41
  end.
(** The character [peek] looks at, when it is a symbol. *)
Definition tok_char (t : tok) : Z := match t with W _ => 0 | App => 62 | _ => tok_ret t end.

Lemma is_symbol_cases c : is_symbol c = true →
  c = 60 ∨ c = 124 ∨ c = 62 ∨ c = 38 ∨ c = 59 ∨ c = 40 ∨ c = 41.
Proof. unfold is_symbol, Sh.symbols. rewrite bool_decide_eq_true. set_solver. Qed.

(** The tokens of a text that does not begin with white space. *)
Lemma tokens_first c z :
  is_space c = false →
  (is_symbol c = true ∧ ∃ t ts, tokens (c :: z) = t :: ts ∧ tok_char t = c ∧ ∀ w, t ≠ W w)
  ∨ (plain c = true ∧ ∃ w ts, tokens (c :: z) = W w :: ts).
Proof.
  intros Hc. unfold tokens. destruct (is_symbol c) eqn:Hs.
  - left. split; [done|]. cbn [lex]. rewrite Hc, Hs. cbn [flush app].
    assert (tok_char (symbol_tok c) = c ∧ ∀ w, symbol_tok c ≠ W w) as [H1 H2].
    { destruct (is_symbol_cases c Hs) as [->|[->|[->|[->|[->|[->| ->]]]]]]; done. }
    destruct z as [|d z]; [by eexists _, _|]. destruct (Z.eqb_spec c 62) as [->|]; cbn [andb]; [|by eexists _, _].
    destruct (d =? 62); by eexists _, _.
  - right. assert (plain c = true) as Hp by (unfold plain; by rewrite Hc, Hs). split; [done|].
    assert (∃ x y, c :: z = (c :: x) ++ y ∧ Forall (λ c, plain c = true) (c :: x) ∧ ∀ d u, y = d :: u → plain d = false)
      as (x & y & -> & Hx & Hy).
    { clear -Hp. revert c Hp. induction z as [|d z IH]; intros c Hp; [exists [], []; repeat constructor; done|].
      destruct (plain d) eqn:Hd.
      - destruct (IH d Hd) as (x & y & E & Hx & Hy). exists (d :: x), y. rewrite E. split_and!; [done|by constructor|done].
      - exists [], (d :: z). split_and!; [done|by repeat constructor|by intros ? ? [= <- <-]]. }
    exists (c :: x), (lex [] y). by rewrite lex_word.
Qed.

Lemma peek_spec m s es l toks :
  at_text m s es l → Forall (λ c, is_symbol c = true) toks →
  ∃ l', Sh.peek m s es toks
      = (match tokens l with [] => false | t :: _ => bool_decide (tok_char t ∈ toks) end, Sh.skip_space m s es)
    ∧ at_text m (Sh.skip_space m s es) es l' ∧ tokens l' = tokens l.
Proof.
  intros H Ht. destruct (skip_space_spec _ _ _ _ H) as (l' & H' & Htok & Hsp). exists l'. split; [|done].
  unfold Sh.peek. f_equal. rewrite <-Htok.
  assert (Forall (λ x, x ≠ 0) toks) as Hnz.
  { eapply Forall_impl; [exact Ht|]. intros c Hc%is_symbol_cases. lia. }
  rewrite strchr_in by done. destruct l' as [|c z].
  { destruct (at_text_nil _ _ _ H') as [_ ->]. done. }
  destruct (at_text_head _ _ _ _ _ H') as [-> Hc]. rewrite (proj2 (Z.eqb_neq c 0)) by done. cbn [negb andb].
  destruct (tokens_first c z (Hsp c z eq_refl)) as [(_ & t & ts & -> & -> & _)|(Hp & w & ts & ->)]; [done|].
  cbn. apply bool_decide_ext. rewrite Forall_forall in Ht. split; intros Hin; apply Ht in Hin; [|done].
  unfold plain in Hp. rewrite Hin in Hp. by rewrite andb_false_r in Hp.
Qed.

(** A symbol, with the rest of the text. *)
Lemma symbol_spec m s es c z :
  at_text m s es (c :: z) → is_symbol c = true → is_space c = false →
  ∃ t k l', tokens (c :: z) = t :: tokens l' ∧ (∀ w, t ≠ W w) ∧ at_text m (s + k) es l'
    ∧ ((c = 62 ∧ (if m (s + 1) =? 62 then (43, s + 2) else (c, s + 1)) = (tok_ret t, s + k))
       ∨ (c ≠ 62 ∧ tok_ret t = c ∧ k = 1)).
Proof.
  intros H Hs Hsp. pose proof (at_text_drop m s es [c] z H) as Hz. change (Z.of_nat (length [c])) with 1 in Hz.
  unfold tokens. cbn [lex]. rewrite Hsp, Hs. cbn [flush app].
  destruct (decide (c = 62)) as [->|Hc].
  - destruct z as [|d z].
    + exists Gt, 1, []. split_and!; try done. left. split; [done|].
      destruct (at_text_nil _ _ _ Hz) as [_ ->]. done.
    + destruct (at_text_head _ _ _ _ _ Hz) as [Hd _]. rewrite Hd. cbn [andb]. rewrite Z.eqb_refl. cbn [andb].
      destruct (d =? 62).
      * exists App, 2, z. split_and!; try done; [|by left]. by apply (at_text_drop m s es [62; d] z).
      * exists Gt, 1, (d :: z). split_and!; try done. by left.
  - exists (symbol_tok c), 1, z. rewrite (proj2 (Z.eqb_neq c 62)) by done. cbn [andb].
    split_and!; [by destruct z| |done|].
    + intros w. by destruct (is_symbol_cases c Hs) as [->|[->|[->|[->|[->|[->| ->]]]]]].
    + right. split_and!; [done| |done]. by destruct (is_symbol_cases c Hs) as [->|[->|[->|[->|[->|[->| ->]]]]]].
Qed.

Lemma gettoken_spec m s es l :
  at_text m s es l →
  match tokens l with
  | [] => ∃ q eq s', Sh.gettoken m s es = (0, q, eq, s') ∧ at_text m s' es []
  | t :: ts => ∃ q eq s' l', Sh.gettoken m s es = (tok_ret t, q, eq, s') ∧ at_text m s' es l' ∧ tokens l' = ts
      ∧ match t with W w => span m q eq w | _ => True end
  end.
Proof.
  intros H. destruct (skip_space_spec _ _ _ _ H) as (l1 & H1 & <- & Hsp). clear H.
  unfold Sh.gettoken. set (s1 := Sh.skip_space m s es) in *. destruct l1 as [|c z].
  { destruct (at_text_nil _ _ _ H1) as [E Hc]. rewrite Hc, Z.eqb_refl. cbn [tokens lex flush].
    destruct (skip_space_spec _ _ _ _ H1) as (l2 & H2 & Ht & _). eexists _, _, _. split; [done|].
    unfold Sh.skip_space. rewrite E, Z.sub_diag. change (at_text m es es []). by rewrite E in H1. }
  destruct (at_text_head _ _ _ _ _ H1) as [Hc Hnz]. rewrite Hc, (proj2 (Z.eqb_neq c 0)) by done.
  specialize (Hsp c z eq_refl). destruct (is_symbol c) eqn:Hs.
  - destruct (symbol_spec _ _ _ _ _ H1 Hs Hsp) as (t & k & l' & -> & Hw & Ht & Hcase).
    destruct (skip_space_spec _ _ _ _ Ht) as (l2 & H2 & Ht2 & _).
    eexists s1, (s1 + k), _, l2. split; [|split; [exact H2|split; [done|destruct t as [w| | | | | | | |]; try done; by destruct (Hw w)]]].
    destruct Hcase as [[-> E]|(Hne & <- & ->)].
    + change ((62 =? 124) || (62 =? 40) || (62 =? 41) || (62 =? 59) || (62 =? 38) || (62 =? 60)) with false.
      rewrite Z.eqb_refl, E. done.
    + destruct (is_symbol_cases _ Hs) as [E|[E|[E|[E|[E|[E|E]]]]]]; rewrite E in Hne |- *; done.
  - assert (plain c = true) as Hp by (unfold plain; by rewrite Hsp, Hs).
    assert (∀ x, is_symbol x = true → c ≠ x) as Hno by (intros x Hx ->; congruence).
    rewrite !(proj2 (Z.eqb_neq c _)) by (by apply Hno). cbn [orb].
    set (test := λ c, negb (Sh.strchr Sh.whitespace c) && negb (Sh.strchr Sh.symbols c)).
    assert (∀ c, test c = plain c) as Htest by (intros d; unfold test, plain; by rewrite strchr_space, strchr_symbol).
    destruct (skip_spec test _ _ _ _ H1) as (x & y & E & Hx & Hy & ->). rewrite E in H1 |- *.
    assert (Forall (λ c, plain c = true) x) as Hx' by (eapply Forall_impl; [exact Hx|]; intros d; cbn; by rewrite Htest).
    assert (∀ d u, y = d :: u → plain d = false) as Hy' by (intros d u ->; rewrite <-Htest; by eapply Hy).
    unfold tokens. rewrite lex_word by done. cbn [app].
    destruct x as [|c' x]; [cbn in E; subst y; by rewrite (Hy' c z eq_refl) in Hp|]. cbn [flush app].
    pose proof (at_text_drop _ _ _ _ _ H1) as H2. destruct (skip_space_spec _ _ _ _ H2) as (l3 & H3 & Ht3 & _).
    eexists s1, _, _, l3. split; [done|]. split; [exact H3|]. split; [done|].
    constructor; [by destruct H1|done| |].
    + intros i d Hi. rewrite Forall_forall in Hx'. split_and!.
      * eapply (at_char _ _ _ _ H1). by apply lookup_app_l_Some.
      * eapply Hx', list_elem_of_lookup_2, Hi.
      * pose proof (at_nonzero _ _ _ _ H1) as Hnz'. rewrite Forall_forall in Hnz'. apply Hnz'.
        apply elem_of_app. left. by eapply list_elem_of_lookup_2.
    + destruct y as [|d y]; [left; by apply (at_text_nil _ _ _ H2)|right].
      destruct (at_text_head _ _ _ _ _ H2) as [-> _]. by eapply Hy'.
Qed.

End lexer.

Section sh.
Context {A : Type} `{!Allocator A}.
Implicit Types (st : Sh.shell A) (m : mem) (cm : gmap Z Sh.cmd) (p s es : Z) (l : list Z) (t : tree).

(** ** Trees in memory *)
Definition redir_mode (inp : bool) : Z * Z := if inp then (O_RDONLY, 0) else (Z.lor O_WRONLY O_CREATE, 1).

Section trees.
(** What it is for a word to be at a place in memory. *)
Context (at_word : Z → Z → word → Prop).

Definition args (ws : list word) (argv eargv : list Z) : Prop :=
  length argv = Sh.MAXARGS ∧ length eargv = Sh.MAXARGS
  ∧ ∀ i w, ws !! i = Some w → ∃ q eq, argv !! i = Some q ∧ eargv !! i = Some eq ∧ q ≠ 0 ∧ at_word q eq w.

Fixpoint holds cm p t : Prop :=
  p ≠ 0 ∧
  match t with
  | TExec ws => ∃ argv eargv, cm !! p = Some (Sh.EXEC argv eargv) ∧ args ws argv eargv ∧ argv !! length ws = Some 0
  | TRedir t f inp => ∃ sub q eq, cm !! p = Some (Sh.REDIR sub q eq (redir_mode inp).1 (redir_mode inp).2)
      ∧ at_word q eq f ∧ holds cm sub t
  | TPipe l r => ∃ pl pr, cm !! p = Some (Sh.PIPE pl pr) ∧ holds cm pl l ∧ holds cm pr r
  | TList l r => ∃ pl pr, cm !! p = Some (Sh.LIST pl pr) ∧ holds cm pl l ∧ holds cm pr r
  | TBack t => ∃ sub, cm !! p = Some (Sh.BACK sub) ∧ holds cm sub t
  end.

(** The redirections [rs] around the command at [base]. *)
Fixpoint chain cm (base p : Z) (rs : list (word * bool)) : Prop :=
  match rs with
  | [] => p = base
  | (f, inp) :: rs' => ∃ p1 q eq, p1 ≠ 0
      ∧ cm !! p1 = Some (Sh.REDIR base q eq (redir_mode inp).1 (redir_mode inp).2) ∧ at_word q eq f ∧ chain cm p1 p rs'
  end.

Lemma holds_mono cm cm' p t : cm ⊆ cm' → holds cm p t → holds cm' p t.
Proof.
  intros Hs. revert p. induction t as [ws|t IH f inp|l IHl r IHr|l IHl r IHr|t IH]; intros p [Hp H]; split; try done.
  - destruct H as (argv & eargv & H & ?). exists argv, eargv. split; [by eapply lookup_weaken|done].
  - destruct H as (sub & q & eq & H & Hw & Ht). exists sub, q, eq. split_and!; eauto using lookup_weaken.
  - destruct H as (pl & pr & H & Hl & Hr). exists pl, pr. split_and!; eauto using lookup_weaken.
  - destruct H as (pl & pr & H & Hl & Hr). exists pl, pr. split_and!; eauto using lookup_weaken.
  - destruct H as (sub & H & Ht). exists sub. split_and!; eauto using lookup_weaken.
Qed.

Lemma chain_mono cm cm' base p rs :
  (∀ a sub q eq mode fd, cm !! a = Some (Sh.REDIR sub q eq mode fd) → cm' !! a = Some (Sh.REDIR sub q eq mode fd)) →
  chain cm base p rs → chain cm' base p rs.
Proof.
  intros Hs. revert base. induction rs as [|[f inp] rs IH]; intros base; cbn; [done|].
  intros (p1 & q & eq & H0 & H1 & H2 & H3). exists p1, q, eq. split_and!; eauto.
Qed.

Lemma chain_app cm base p1 p rs rs' : chain cm base p1 rs → chain cm p1 p rs' → chain cm base p (rs ++ rs').
Proof.
  revert base. induction rs as [|[f inp] rs IH]; intros base; cbn; [by intros ->|].
  intros (p2 & q & eq & H0 & H1 & H2 & H3) H. exists p2, q, eq. split_and!; eauto.
Qed.

Lemma chain_holds cm base p rs t : holds cm base t → chain cm base p rs → holds cm p (wrap t rs).
Proof.
  revert base t. induction rs as [|[f inp] rs IH]; intros base t Ht; cbn; [by intros ->|].
  intros (p2 & q & eq & H0 & H1 & H2 & H3). apply (IH p2); [|done]. cbn. split; [done|]. by exists base, q, eq.
Qed.
End trees.

(** ** Growing the store *)
Definition shell_ok st (k : nat) : Prop := ∃ ps, dom (Sh.sh_cmds st) ⊆ ps ∧ al_ok (Sh.sh_heap st) ps k.
Definition ext st st' : Prop := Sh.sh_mem st' = Sh.sh_mem st ∧ Sh.sh_cmds st ⊆ Sh.sh_cmds st'.

#[export] Instance ext_preorder : PreOrder ext.
Proof.
  split; [by intros st|]. intros s1 s2 s3 [H1 H2] [H3 H4]. split; [congruence|by etrans].
Qed.

Lemma shell_ok_le st k k' : shell_ok st k → (k' <= k)%nat → shell_ok st k'.
Proof. intros (ps & H1 & H2) Hle. exists ps. eauto using al_ok_le. Qed.

Lemma new_cmd_run st k size c :
  shell_ok st (S k) → 0 <= size <= 4096 →
  ∃ p st', Sh.new_cmd size c st = Ret p st' ∧ p ≠ 0 ∧ Sh.sh_cmds st !! p = None
    ∧ Sh.sh_cmds st' = <[p := c]> (Sh.sh_cmds st) ∧ ext st st' ∧ shell_ok st' k.
Proof.
  intros (ps & Hd & Hok) Hsz. destruct (al_malloc_ok _ _ _ _ Hok Hsz) as (p & a & E & Hp & Hn & Hok').
  assert (Sh.sh_cmds st !! p = None) as Hnone by (apply not_elem_of_dom; set_solver).
  unfold Sh.new_cmd, get. erewrite bind_ret by reflexivity. rewrite E, (proj2 (Z.eqb_neq p 0)) by done.
  rewrite bind_modify. eexists p, _. split; [done|]. cbn. split_and!; try done.
  - split; [done|]. by apply insert_subseteq.
  - exists ({[p]} ∪ ps). cbn. split; [|done]. rewrite dom_insert. set_solver.
Qed.

Section on_line.
Context (es : Z).

(** ** Redirections *)
Lemma parseredirs_run n cmd s l st k :
  at_text (Sh.sh_mem st) s es l → shell_ok st (k + 2 * length (tokens l)) →
  match p_redirs n (tokens l) with
  | Good rs ts => ∃ p s' l' st', Sh.parseredirs n cmd s es st = Ret (p, s') st'
      ∧ at_text (Sh.sh_mem st) s' es l' ∧ tokens l' = ts ∧ ext st st'
      ∧ chain (span (Sh.sh_mem st)) (Sh.sh_cmds st') cmd p rs ∧ shell_ok st' (k + 2 * length ts)
  | Bad msg => Sh.parseredirs n cmd s es st = Panic msg
  | Dry => True
  end.
Proof.
  revert cmd s l st. induction n as [|n IH]; intros cmd s l st Hl Hok; [done|]. cbn [p_redirs].
  destruct (peek_spec _ _ _ _ [60; 62] Hl) as (l1 & Hpk & Hl1 & Ht1); [by repeat constructor|].
  assert (∀ (inp : bool) ts', (∃ t : tok, tokens l = t :: ts'
      ∧ ((t = Lt ∧ inp = true) ∨ (t = Gt ∧ inp = false) ∨ (t = App ∧ inp = false))) →
    match (match ts' with
      | W f :: ts'' => pbind (p_redirs n ts'') (λ rs ts, Good ((f, inp) :: rs) ts)
      | _ => Bad "missing file for redirection"
      end) with
    | Good rs ts => ∃ p s' l' st', Sh.parseredirs (S n) cmd s es st = Ret (p, s') st'
        ∧ at_text (Sh.sh_mem st) s' es l' ∧ tokens l' = ts ∧ ext st st'
        ∧ chain (span (Sh.sh_mem st)) (Sh.sh_cmds st') cmd p rs ∧ shell_ok st' (k + 2 * length ts)
    | Bad msg => Sh.parseredirs (S n) cmd s es st = Panic msg
    | Dry => True
    end) as Hgo.
  { intros inp ts' (t & Ht & Hcase). cbn [Sh.parseredirs]. rewrite bind_gets, Hpk, Ht.
    assert (bool_decide (tok_char t ∈ [60; 62]) = true) as -> by (by destruct Hcase as [[-> _]|[[-> _]|[-> _]]]).
    cbn [negb]. pose proof (gettoken_spec _ _ _ _ Hl1) as Hg. rewrite Ht1, Ht in Hg.
    destruct Hg as (q1 & eq1 & s1 & l2 & -> & Hl2 & Ht2 & _).
    pose proof (gettoken_spec _ _ _ _ Hl2) as Hg. rewrite Ht2 in Hg.
    destruct ts' as [|t2 ts']; [by destruct Hg as (q2 & eq2 & s2 & -> & _)|].
    destruct Hg as (q2 & eq2 & s2 & l3 & -> & Hl3 & Ht3 & Hspan).
    destruct t2 as [f| | | | | | | |]; try done. cbn [tok_ret]. change (negb (97 =? 97)) with false. cbn iota.
    rewrite Ht in Hok. cbn [length] in Hok.
    destruct (new_cmd_run st (k + 2 * length ts' + 3) 24
      (Sh.REDIR cmd q2 eq2 (redir_mode inp).1 (redir_mode inp).2)) as (p1 & st1 & E & Hp1 & Hnone & Hcm & Hext & Hok1);
      [|lia|]. { eapply shell_ok_le; [exact Hok|lia]. }
    assert ((if tok_ret t =? 60 then Sh.redircmd cmd q2 eq2 O_RDONLY 0
             else if tok_ret t =? 62 then Sh.redircmd cmd q2 eq2 (Z.lor O_WRONLY O_CREATE) 1
             else if tok_ret t =? 43 then Sh.redircmd cmd q2 eq2 (Z.lor O_WRONLY O_CREATE) 1
             else mret cmd) st = Ret p1 st1) as E'.
    { by destruct Hcase as [[-> ->]|[[-> ->]|[-> ->]]]. }
    rewrite (bind_ret _ _ _ _ _ E'). destruct Hext as [Hm Hsub].
    specialize (IH p1 s2 l3 st1). rewrite Hm, Ht3 in IH. specialize (IH Hl3).
    assert (shell_ok st1 (k + 2 * length ts')) as Hok2 by (eapply shell_ok_le; [exact Hok1|lia]).
    specialize (IH Hok2). destruct (p_redirs n ts') as [rs ts| |]; cbn [pbind]; [|done..].
    destruct IH as (p & s' & l' & st' & H1 & H2 & H3 & [H4 H4'] & H5 & H6).
    exists p, s', l', st'. split; [done|]. split; [done|]. split; [done|]. split; [split; [congruence|by etrans]|].
    split; [|done]. cbn. exists p1, q2, eq2. split_and!; try done. eapply lookup_weaken; [|done]. rewrite Hcm.
    apply lookup_insert_eq. }
  assert (match tokens l with (Lt | Gt | App) :: _ => False | _ => True end →
    ∃ p s' l' st', Sh.parseredirs (S n) cmd s es st = Ret (p, s') st'
        ∧ at_text (Sh.sh_mem st) s' es l' ∧ tokens l' = tokens l ∧ ext st st'
        ∧ chain (span (Sh.sh_mem st)) (Sh.sh_cmds st') cmd p [] ∧ shell_ok st' (k + 2 * length (tokens l))) as Hno.
  { intros Hno. cbn [Sh.parseredirs]. rewrite bind_gets, Hpk.
    assert ((match tokens l with [] => false | t :: _ => bool_decide (tok_char t ∈ [60; 62]) end) = false) as ->
      by (by destruct (tokens l) as [|[] ?]). eexists _, _, l1, st. split; [done|]. split_and!; done. }
  destruct (tokens l) as [|[] ts] eqn:Ht; try (by apply Hno); apply Hgo; eexists; split; try done; auto.
Qed.

(** ** Simple commands *)
(** A parser of the shell and the reference give the same: the tree in memory, or the
    message. *)
Definition agrees st (k : nat) (r : outcome (Sh.shell A) (Z * Z)) (pr : pres tree) : Prop :=
  match pr with
  | Good t ts => ∃ p s l st', r = Ret (p, s) st' ∧ at_text (Sh.sh_mem st) s es l ∧ tokens l = ts ∧ ext st st'
      ∧ holds (span (Sh.sh_mem st)) (Sh.sh_cmds st') p t ∧ shell_ok st' (k + 2 * length ts)
  | Bad msg => r = Panic msg
  | Dry => True
  end.

Lemma set_arg_run st cmd argv eargv i q eq :
  Sh.sh_cmds st !! cmd = Some (Sh.EXEC argv eargv) → (i < length argv)%nat →
  Sh.set_arg cmd i q eq st
  = Ret tt (Sh.set_sh_cmds (<[cmd := Sh.EXEC (<[i := q]> argv) (<[i := eq]> eargv)]> (Sh.sh_cmds st)) st).
Proof.
  intros H Hi. unfold Sh.set_arg, get. erewrite bind_ret by reflexivity. rewrite H.
  by rewrite (proj2 (Nat.ltb_lt _ _)).
Qed.

Lemma args_insert at_word ws argv eargv i q eq :
  args at_word ws argv eargv → (length ws <= i)%nat → args at_word ws (<[i := q]> argv) (<[i := eq]> eargv).
Proof.
  intros (H1 & H2 & H3) Hi. split_and!; [by rewrite length_insert..|]. intros j w Hj.
  assert (j < length ws)%nat by (by eapply lookup_lt_Some). rewrite !list_lookup_insert_ne by lia. by apply H3.
Qed.

Lemma args_snoc at_word ws argv eargv q eq w :
  args at_word ws argv eargv → (length ws < Sh.MAXARGS)%nat → q ≠ 0 → at_word q eq w →
  args at_word (ws ++ [w]) (<[length ws := q]> argv) (<[length ws := eq]> eargv).
Proof.
  intros Ha Hlen Hq Hw. pose proof (args_insert _ _ _ _ (length ws) q eq Ha ltac:(lia)) as (H1 & H2 & H3).
  split_and!; [done..|]. intros j w' Hj. apply lookup_app_Some in Hj as [Hj|[Hle Hj]]; [by apply H3|].
  destruct (j - length ws)%nat eqn:E; [|done]. cbn in Hj. injection Hj as <-. replace j with (length ws) by lia.
  destruct Ha as (L1 & L2 & _). exists q, eq. rewrite !list_lookup_insert_eq by lia. done.
Qed.

(** What holds in the loop of [parseexec]: the command under construction at [cmd]
    has the words [ws], [ret] is it with the redirections [rs] around it. *)
Record building st0 st (cmd ret : Z) ws rs (k : nat) : Prop := {
  bd_ext : ext st0 st;
  bd_new : Sh.sh_cmds st0 !! cmd = None;
  bd_nonnull : cmd ≠ 0;
  bd_args : ∃ argv eargv, Sh.sh_cmds st !! cmd = Some (Sh.EXEC argv eargv) ∧ args (span (Sh.sh_mem st0)) ws argv eargv;
  bd_few : (length ws < Sh.MAXARGS)%nat;
  bd_chain : chain (span (Sh.sh_mem st0)) (Sh.sh_cmds st) cmd ret rs;
  bd_ok : shell_ok st k;
}.

(** Writing to the arrays of the command under construction. *)
Lemma building_set st0 st cmd ret ws rs k q eq :
  building st0 st cmd ret ws rs k →
  ∃ argv eargv st', Sh.set_arg cmd (length ws) q eq st = Ret tt st'
    ∧ args (span (Sh.sh_mem st0)) ws argv eargv ∧ ext st0 st' ∧ shell_ok st' k
    ∧ Sh.sh_cmds st' !! cmd = Some (Sh.EXEC (<[length ws := q]> argv) (<[length ws := eq]> eargv))
    ∧ chain (span (Sh.sh_mem st0)) (Sh.sh_cmds st') cmd ret rs.
Proof.
  intros [[Hm Hsub] Hnew Hnz (argv & eargv & Hc & Ha) Hfew Hch (ps & Hps & Hok)]. exists argv, eargv.
  pose proof Ha as (L1 & L2 & _). eexists. split; [apply set_arg_run; [done|lia]|]. cbn. split_and!; try done.
  - split; [done|]. cbn. by apply insert_subseteq_r.
  - exists ps. cbn. split; [|done]. rewrite dom_insert_L. apply elem_of_dom_2 in Hc. set_solver.
  - by rewrite lookup_insert_eq.
  - eapply chain_mono; [|done]. intros a sub q' eq' mode fd Hr. rewrite lookup_insert_ne; [done|]. congruence.
Qed.

Lemma building_done st0 st cmd ret ws rs s l k :
  building st0 st cmd ret ws rs (k + 2 * length (tokens l)) → at_text (Sh.sh_mem st0) s es l →
  agrees st0 k ((Sh.set_arg cmd (length ws) 0 0;; mret (ret, s)) st) (Good (wrap (TExec ws) rs) (tokens l)).
Proof.
  intros Hb Hl. destruct (building_set _ _ _ _ _ _ _ 0 0 Hb) as (argv & eargv & st' & E & Ha & Hext & Hok & Hc & Hch).
  rewrite (bind_ret _ _ _ _ _ E). exists ret, s, l, st'. split_and!; try done.
  eapply chain_holds; [|done]. split; [by destruct Hb|]. eexists _, _. split; [exact Hc|].
  split; [by apply args_insert|]. apply list_lookup_insert_eq. destruct Ha as (-> & _). by destruct Hb.
Qed.

Lemma parseexec_loop_run n cmd ret ws rs s l st0 st k :
  at_text (Sh.sh_mem st0) s es l → building st0 st cmd ret ws rs (k + 2 * length (tokens l)) →
  agrees st0 k (Sh.parseexec_loop n cmd ret (length ws) s es st) (p_args n ws rs (tokens l)).
Proof.
  revert ret ws rs s l st. induction n as [|n IH]; intros ret ws rs s l st Hl Hb; [done|].
  pose proof (bd_ext _ _ _ _ _ _ _ Hb) as [Hm _].
  destruct (peek_spec _ _ _ _ [124; 41; 38; 59] Hl) as (l1 & Hpk & Hl1 & Ht1); [by repeat constructor|].
  pose proof (gettoken_spec _ _ _ _ Hl1) as Hg. rewrite Ht1 in Hg.
  cbn [Sh.parseexec_loop p_args]. rewrite bind_gets, Hm, Hpk.
  destruct (tokens l) as [|t ts] eqn:Ht.
  { destruct Hg as (q & eq & s2 & -> & Hl2). by apply (building_done _ _ _ _ _ _ _ []). }
  assert (∀ X, t ∈ [Bar; RPar; Amp; Semi] →
    agrees st0 k ((if bool_decide (tok_char t ∈ [124; 41; 38; 59])
       then Sh.set_arg cmd (length ws) 0 0;; mret (ret, Sh.skip_space (Sh.sh_mem st0) s es) else X) st)
      (Good (wrap (TExec ws) rs) (t :: ts))) as Hstop.
  { intros X Hin. rewrite bool_decide_eq_true_2 by set_solver. rewrite <-Ht1. apply building_done; [|done]. by rewrite Ht1. }
  destruct t as [w| | | | | | | |]; try (by apply Hstop; set_solver);
    cbn [tok_char tok_ret]; rewrite bool_decide_eq_false_2 by set_solver;
    destruct Hg as (q & eq & s2 & l2 & -> & Hl2 & Ht2 & Hspan); try done.
  cbn [tok_ret]. change (97 =? 0) with false. change (negb (97 =? 97)) with false. cbn iota.
  destruct (building_set _ _ _ _ _ _ _ q eq Hb) as (argv & eargv & st1 & E & Ha & Hext1 & Hok1 & Hc1 & Hch1).
  rewrite (bind_ret _ _ _ _ _ E). destruct (Nat.leb_spec Sh.MAXARGS (S (length ws))) as [|Hfew]; [done|].
  pose proof (proj1 Hext1) as Hm1. cbn [length] in Hok1.
  pose proof (parseredirs_run n ret s2 l2 st1 (k + 2)) as Hr. rewrite Hm1, Ht2 in Hr.
  specialize (Hr Hl2 ltac:(eapply shell_ok_le; [exact Hok1|lia])).
  destruct (p_redirs n ts) as [rs' ts'| |]; cbn [pbind]; [|by rewrite (bind_panic _ _ _ _ Hr)|done].
  destruct Hr as (p' & s3 & l3 & st3 & E3 & Hl3 & Ht3 & Hext3 & Hch3 & Hok3).
  rewrite (bind_ret _ _ _ _ _ E3). specialize (IH p' (ws ++ [w]) (rs ++ rs') s3 l3 st3 Hl3).
  replace (length (ws ++ [w])) with (S (length ws)) in IH by (rewrite length_app; cbn; lia). rewrite Ht3 in IH.
  apply IH. constructor; try (by destruct Hb).
  - by etrans.
  - eexists _, _. split; [eapply lookup_weaken; [exact Hc1|apply Hext3]|]. apply args_snoc; try done; [by destruct Hb|].
    destruct Hspan. lia.
  - rewrite length_app. cbn. lia.
  - eapply chain_app; [|done]. eapply chain_mono; [|done]. intros. eapply lookup_weaken; [done|apply Hext3].
  - eapply shell_ok_le; [exact Hok3|lia].
Qed.

(** ** Lines, pipelines and blocks *)
Lemma agrees_bind st k (f : M (Sh.shell A) (Z * Z)) g (pr : pres tree) pg k' :
  agrees st k (f st) pr →
  (∀ t ts p s l st', at_text (Sh.sh_mem st) s es l → tokens l = ts → ext st st' →
    holds (span (Sh.sh_mem st)) (Sh.sh_cmds st') p t → shell_ok st' (k + 2 * length ts) →
    agrees st k' (g (p, s) st') (pg t ts)) →
  agrees st k' ((f ≫= g) st) (pbind pr pg).
Proof.
  intros Hf Hg. destruct pr as [t ts|msg|]; cbn in Hf |- *; [|by apply bind_panic|done].
  destruct Hf as (p & s & l & st' & E & H1 & H2 & H3 & H4 & H5). rewrite (bind_ret _ _ _ _ _ E). by eapply Hg.
Qed.

(** The agreement seen from an earlier state. *)
Lemma agrees_ext st st1 k r pr : ext st st1 → agrees st1 k r pr → agrees st k r pr.
Proof.
  intros Hext. destruct pr as [t ts|msg|]; cbn; try done. intros (p & s & l & st' & E & H1 & H2 & H3 & H4 & H5).
  pose proof (proj1 Hext) as Hm. rewrite Hm in H1, H4. exists p, s, l, st'. split_and!; try done; apply (transitivity Hext H3).
Qed.

Lemma parseline_back_run n cmd s l st k t :
  at_text (Sh.sh_mem st) s es l → holds (span (Sh.sh_mem st)) (Sh.sh_cmds st) cmd t →
  shell_ok st (k + 2 * length (tokens l)) →
  agrees st k (Sh.parseline_back n cmd s es st) (p_back n t (tokens l)).
Proof.
  revert cmd s l st t. induction n as [|n IH]; intros cmd s l st t Hl Hh Hok; [done|]. cbn [Sh.parseline_back p_back].
  destruct (peek_spec _ _ _ _ [38] Hl) as (l1 & Hpk & Hl1 & Ht1); [by repeat constructor|].
  rewrite bind_gets, Hpk. pose proof (gettoken_spec _ _ _ _ Hl1) as Hg. rewrite Ht1 in Hg.
  destruct (tokens l) as [|[] ts] eqn:Ht;
    try (cbn; eexists _, _, l1, st; split; [done|]; split_and!; done).
  destruct Hg as (q & eq & s2 & l2 & -> & Hl2 & Ht2 & _). cbn [tok_char tok_ret negb].
  rewrite bool_decide_eq_true_2 by set_solver. cbn [negb]. cbn [length] in Hok.
  destruct (new_cmd_run st (k + 2 * length ts) 8 (Sh.BACK cmd)) as (p1 & st1 & E & Hp1 & Hnone & Hcm & Hext & Hok1);
    [eapply shell_ok_le; [exact Hok|lia]|lia|].
  rewrite (bind_ret _ _ _ _ _ E). apply (agrees_ext _ st1); [done|]. rewrite <-Ht2. pose proof (proj1 Hext) as Hm.
  apply IH; [by rewrite Hm| |by rewrite Ht2]. rewrite Hm. split; [done|]. exists cmd.
  split; [rewrite Hcm; apply lookup_insert_eq|by eapply holds_mono; [apply Hext|]].
Qed.

(** The second operand of [;] and [|], and the node above the two. *)
Lemma agrees_pair st st1 k (f : M (Sh.shell A) (Z * Z)) pr cmd t size (node : Z → Z → Sh.cmd) (tnode : tree → tree → tree) :
  ext st st1 → holds (span (Sh.sh_mem st)) (Sh.sh_cmds st1) cmd t → 0 <= size <= 4096 →
  (∀ cm p pl pr t1 t2, p ≠ 0 → cm !! p = Some (node pl pr) → holds (span (Sh.sh_mem st)) cm pl t1 →
    holds (span (Sh.sh_mem st)) cm pr t2 → holds (span (Sh.sh_mem st)) cm p (tnode t1 t2)) →
  agrees st1 (S k) (f st1) pr →
  agrees st k (('(rcmd, s) ← f; c ← Sh.new_cmd size (node cmd rcmd); mret (c, s)) st1)
    (pbind pr (λ r ts, Good (tnode t r) ts)).
Proof.
  intros Hext Hh Hsz Hnode Hf. apply (agrees_ext _ st1); [done|]. pose proof (proj1 Hext) as Hm.
  eapply agrees_bind; [exact Hf|]. intros r ts p s l st2 Hl Ht Hext2 Hr Hok.
  destruct (new_cmd_run st2 (k + 2 * length ts) size (node cmd p)) as (p3 & st3 & E & Hp3 & Hnone & Hcm & Hext3 & Hok3);
    [eapply shell_ok_le; [exact Hok|lia]|done|].
  rewrite (bind_ret _ _ _ _ _ E). exists p3, s, l, st3. rewrite Hm in Hr |- *.
  assert (ext st1 st3) as Hext13 by (by etrans).
  split_and!; try done; try apply Hext13; [by rewrite <-Hm|].
  eapply Hnode; [done|rewrite Hcm; apply lookup_insert_eq| |].
  - eapply holds_mono; [|exact Hh]. apply Hext13.
  - eapply holds_mono; [|exact Hr]. apply Hext3.
Qed.

(** A command, and another one after the separator [c]. *)
Lemma agrees_operand st st2 k c (f : Z → M (Sh.shell A) (Z * Z)) (pf : list tok → pres tree)
    size (node : Z → Z → Sh.cmd) (tnode : tree → tree → tree) s l cmd t :
  at_text (Sh.sh_mem st) s es l → ext st st2 → holds (span (Sh.sh_mem st)) (Sh.sh_cmds st2) cmd t →
  shell_ok st2 (k + 2 * length (tokens l)) → 0 <= size <= 4096 →
  is_symbol c = true →
  (∀ cm p pl pr t1 t2, p ≠ 0 → cm !! p = Some (node pl pr) → holds (span (Sh.sh_mem st)) cm pl t1 →
    holds (span (Sh.sh_mem st)) cm pr t2 → holds (span (Sh.sh_mem st)) cm p (tnode t1 t2)) →
  (∀ s l, at_text (Sh.sh_mem st2) s es l → shell_ok st2 (S k + 2 * length (tokens l) + 1) →
    agrees st2 (S k) (f s st2) (pf (tokens l))) →
  agrees st k ((m ← gets Sh.sh_mem;
      let '(b, s) := Sh.peek m s es [c] in
      if negb b then mret (cmd, s) else
      let '(_, _, _, s) := Sh.gettoken m s es in
      '(rcmd, s) ← f s;
      cmd ← Sh.new_cmd size (node cmd rcmd);
      mret (cmd, s)) st2)
    (match tokens l with
     | [] => Good t []
     | x :: ts => if bool_decide (tok_char x ∈ [c]) then pbind (pf ts) (λ r ts, Good (tnode t r) ts) else Good t (x :: ts)
     end).
Proof.
  intros Hl Hext Hh Hok Hsz Hc Hnode Hf. rewrite bind_gets, (proj1 Hext).
  destruct (peek_spec _ _ _ _ [c] Hl) as (l3 & Hpk & Hl3 & Ht3); [by constructor|].
  rewrite Hpk. pose proof (gettoken_spec _ _ _ _ Hl3) as Hg. rewrite Ht3 in Hg.
  destruct (tokens l) as [|x ts].
  { eexists _, _, l3, st2. split; [done|]. by split_and!. }
  case_bool_decide as Hx; cbn [negb].
  2:{ eexists _, _, l3, st2. split; [done|]. by split_and!. }
  destruct Hg as (q & eq & s4 & l4 & -> & Hl4 & Ht4 & _). cbn [length] in Hok.
  apply (agrees_pair _ _ _ (f s4)); try done. rewrite <-Ht4. apply Hf; [by rewrite (proj1 Hext)|]. rewrite Ht4.
  eapply shell_ok_le; [exact Hok|lia].
Qed.

(** A parser of the shell follows one of the reference. *)
Definition parses (f : Z → Z → M (Sh.shell A) (Z * Z)) (pf : list tok → pres tree) : Prop :=
  ∀ s l st k, at_text (Sh.sh_mem st) s es l → shell_ok st (k + 2 * length (tokens l) + 1) →
    agrees st k (f s es st) (pf (tokens l)).

Lemma parseline_agrees n :
  parses (Sh.parser n Sh.Line) (p_line n) →
  parses (Sh.parser n Sh.Pipeline) (p_pipe n) →
  parses (Sh.parser (S n) Sh.Line) (p_line (S n)).
Proof.
  intros IHl IHp s l st k Hl Hok. cbn [Sh.parser p_line]. unfold Sh.parseline.
  eapply agrees_bind; [by apply IHp|]. intros t ts p s1 l1 st1 Hl1 Ht1 Hext1 Hh1 Hok1.
  pose proof (proj1 Hext1) as Hm1. apply (agrees_ext _ st1); [done|]. rewrite <-Hm1 in Hl1, Hh1.
  eapply agrees_bind; [rewrite <-Ht1 in Hok1 |- *; by apply parseline_back_run|].
  intros t2 ts2 p2 s2 l2 st2 Hl2 <- Hext2 Hh2 Hok2.
  pose proof (agrees_operand st1 st2 k 59 (λ s, Sh.parser n Sh.Line s es) (p_line n) 12 Sh.LIST TList s2 l2 p2 t2) as Ho.
  replace (match tokens l2 with Semi :: ts' => pbind (p_line n ts') (λ r ts, Good (TList t2 r) ts) | _ => Good t2 (tokens l2) end)
    with (match tokens l2 with [] => Good t2 []
     | x :: ts => if bool_decide (tok_char x ∈ [59]) then pbind (p_line n ts) (λ r ts, Good (TList t2 r) ts)
                  else Good t2 (x :: ts) end) by (by destruct (tokens l2) as [|[] ?]).
  apply Ho; try done.
  - intros cm p0 pl pr t0 r0 Hp Hc H1 H2. split; [done|]. by exists pl, pr.
  - intros s3 l3 Hl3 Hok3. by apply IHl.
Qed.

Lemma parsepipe_agrees n :
  parses (Sh.parser n Sh.Pipeline) (p_pipe n) →
  parses (Sh.parser n Sh.Command) (p_exec n) →
  parses (Sh.parser (S n) Sh.Pipeline) (p_pipe (S n)).
Proof.
  intros IHp IHe s l st k Hl Hok. cbn [Sh.parser p_pipe]. unfold Sh.parsepipe.
  eapply agrees_bind; [by apply IHe|]. intros t2 ts2 p2 s2 l2 st2 Hl2 <- Hext2 Hh2 Hok2.
  pose proof (agrees_operand st st2 k 124 (λ s, Sh.parser n Sh.Pipeline s es) (p_pipe n) 12 Sh.PIPE TPipe s2 l2 p2 t2) as Ho.
  replace (match tokens l2 with Bar :: ts' => pbind (p_pipe n ts') (λ r ts, Good (TPipe t2 r) ts) | _ => Good t2 (tokens l2) end)
    with (match tokens l2 with [] => Good t2 []
     | x :: ts => if bool_decide (tok_char x ∈ [124]) then pbind (p_pipe n ts) (λ r ts, Good (TPipe t2 r) ts)
                  else Good t2 (x :: ts) end) by (by destruct (tokens l2) as [|[] ?]).
  apply Ho; try done.
  - intros cm p0 pl pr t0 r0 Hp Hc H1 H2. split; [done|]. by exists pl, pr.
  - intros s3 l3 Hl3 Hok3. by apply IHp.
Qed.

Lemma parseexec_agrees n :
  parses (Sh.parser n Sh.Block) (p_block n) →
  parses (Sh.parser (S n) Sh.Command) (p_exec (S n)).
Proof.
  intros IHb s l st k Hl Hok. cbn [Sh.parser]. unfold Sh.parseexec. rewrite bind_gets.
  destruct (peek_spec _ _ _ _ [40] Hl) as (l1 & Hpk & Hl1 & Ht1); [by constructor|]. rewrite Hpk.
  rewrite <-Ht1 in Hok |- *. clear Hpk Hl.
  destruct (decide (head (tokens l1) = Some LPar)) as [Hh|Hh].
  { destruct (tokens l1) as [|x ts] eqn:E; [done|]. cbn in Hh. injection Hh as ->.
    rewrite bool_decide_eq_true_2 by set_solver. cbn [p_exec]. rewrite <-E in Hok |- *. by apply IHb. }
  assert (p_exec (S n) (tokens l1) = pbind (p_redirs n (tokens l1)) (λ rs ts, p_args n [] rs ts)) as ->
    by (cbn [p_exec]; destruct (tokens l1) as [|[] ?]; done).
  assert ((match tokens l1 with [] => false | t :: _ => bool_decide (tok_char t ∈ [40]) end) = false) as ->
    by (destruct (tokens l1) as [|[] ?]; done).
  destruct (new_cmd_run st (k + 2 * length (tokens l1)) 84 (Sh.EXEC (replicate Sh.MAXARGS 0) (replicate Sh.MAXARGS 0)))
    as (cmd & st1 & E & Hnz & Hnone & Hcm & Hext & Hok1); [eapply shell_ok_le; [exact Hok|lia]|lia|].
  unfold Sh.execcmd. rewrite (bind_ret _ _ _ _ _ E). pose proof (proj1 Hext) as Hm.
  pose proof (parseredirs_run n cmd (Sh.skip_space (Sh.sh_mem st) s es) l1 st1 k) as Hr. rewrite Hm in Hr. specialize (Hr Hl1 Hok1).
  destruct (p_redirs n (tokens l1)) as [rs ts| |]; cbn [pbind]; [|by rewrite (bind_panic _ _ _ _ Hr)|done].
  destruct Hr as (p & s' & l' & st' & E2 & Hl' & <- & Hext2 & Hch & Hok2). rewrite (bind_ret _ _ _ _ _ E2).
  apply (parseexec_loop_run n cmd p [] rs); [done|]. constructor; try done.
  - by etrans.
  - eexists _, _. split; [eapply lookup_weaken; [|apply Hext2]; rewrite Hcm; apply lookup_insert_eq|].
    split_and!; [by rewrite length_replicate..|]. intros i w Hi. by rewrite lookup_nil in Hi.
  - cbn. unfold Sh.MAXARGS. lia.
Qed.

Lemma parseblock_agrees n :
  parses (Sh.parser n Sh.Line) (p_line n) →
  parses (Sh.parser (S n) Sh.Block) (p_block (S n)).
Proof.
  intros IHl s l st k Hl Hok. cbn [Sh.parser p_block]. unfold Sh.parseblock. rewrite bind_gets.
  destruct (peek_spec _ _ _ _ [40] Hl) as (l1 & Hpk & Hl1 & Ht1); [by constructor|]. rewrite Hpk.
  pose proof (gettoken_spec _ _ _ _ Hl1) as Hg. rewrite Ht1 in Hg.
  destruct (tokens l) as [|[] ts] eqn:Ht; try done. destruct Hg as (q & eq & s2 & l2 & -> & Hl2 & <- & _).
  cbn [tok_char tok_ret]. rewrite bool_decide_eq_true_2 by set_solver. cbn [negb]. cbn [length] in Hok.
  eapply (agrees_bind _ (k + 1)).
  { apply IHl; [done|]. eapply shell_ok_le; [exact Hok|lia]. }
  intros t ts3 p s3 l3 st3 Hl3 <- Hext3 Hh3 Hok3.
  destruct (peek_spec _ _ _ _ [41] Hl3) as (l4 & Hpk4 & Hl4 & Ht4); [by constructor|]. rewrite Hpk4.
  pose proof (gettoken_spec _ _ _ _ Hl4) as Hg. rewrite Ht4 in Hg.
  destruct (tokens l3) as [|[] ts3]; try done. destruct Hg as (q5 & eq5 & s5 & l5 & -> & Hl5 & <- & _).
  cbn [tok_char tok_ret]. rewrite bool_decide_eq_true_2 by set_solver. cbn [negb]. cbn [length] in Hok3.
  pose proof (parseredirs_run n p s5 l5 st3 k) as Hr. rewrite (proj1 Hext3) in Hr.
  specialize (Hr Hl5 ltac:(eapply shell_ok_le; [exact Hok3|lia])).
  destruct (p_redirs n (tokens l5)) as [rs ts| |]; cbn [pbind]; [|done..].
  destruct Hr as (p6 & s6 & l6 & st6 & E6 & Hl6 & Ht6 & Hext6 & Hch & Hok6).
  exists p6, s6, l6, st6. split_and!; try done; [by etrans; [apply Hext3|]..|].
  eapply chain_holds; [|done]. eapply holds_mono; [apply Hext6|done].
Qed.

Lemma parse_agrees n :
  parses (Sh.parser n Sh.Line) (p_line n) ∧ parses (Sh.parser n Sh.Pipeline) (p_pipe n)
  ∧ parses (Sh.parser n Sh.Command) (p_exec n) ∧ parses (Sh.parser n Sh.Block) (p_block n).
Proof.
  induction n as [|n (IHl & IHp & IHe & IHb)]; [done|].
  split_and!; [by apply parseline_agrees|by apply parsepipe_agrees|by apply parseexec_agrees|by apply parseblock_agrees].
Qed.
End on_line.

(** ** The NULs *)
(** A C string in memory. *)
Definition cstr m q w : Prop :=
  (∀ i c, w !! i = Some c → m (q + Z.of_nat i) = c ∧ c ≠ 0) ∧ m (q + Z.of_nat (length w)) = 0.

(** The characters of words are as they were; what is NUL stays so. *)
Definition cut m0 m : Prop := ∀ a, m0 a ≠ 0 → plain (m0 a) = true → m a = m0 a.
Definition keeps_nul m m' : Prop := ∀ a, m a = 0 → m' a = 0.
Definition ended m0 m (q eq : Z) w : Prop := span m0 q eq w ∧ m eq = 0.

#[local] Instance keeps_nul_preorder : PreOrder keeps_nul.
Proof. split; [by intros m a|]. intros m1 m2 m3 H1 H2 a Ha. auto. Qed.

Lemma ended_cstr m0 m q eq w : cut m0 m → ended m0 m q eq w → cstr m q w.
Proof.
  intros Hc [[H1 -> H3 H4] H5]. split; [|done]. intros i c Hi. destruct (H3 i c Hi) as (Hm & Hp & Hz).
  split; [|done]. rewrite Hc; congruence.
Qed.

Lemma holds_impl (P Q : Z → Z → word → Prop) cm p t :
  (∀ q eq w, P q eq w → Q q eq w) → holds P cm p t → holds Q cm p t.
Proof.
  intros HPQ. revert p. induction t as [ws|t IH f inp|l IHl r IHr|l IHl r IHr|t IH]; intros p [Hp H]; split; try done.
  - destruct H as (argv & eargv & H & (L1 & L2 & Ha) & H0). exists argv, eargv. split; [done|]. split; [|done].
    split_and!; try done. intros i w Hi. destruct (Ha i w Hi) as (q & eq & ? & ? & ? & ?). exists q, eq. split_and!; auto.
  - destruct H as (sub & q & eq & H & Hw & Ht). exists sub, q, eq. split_and!; auto.
  - destruct H as (pl & pr & H & Hl & Hr). exists pl, pr. split_and!; auto.
  - destruct H as (pl & pr & H & Hl & Hr). exists pl, pr. split_and!; auto.
  - destruct H as (sub & H & Ht). exists sub. split; auto.
Qed.

(** From [st] only the memory changed, at places that are not in words. *)
Record cuts m0 st st' : Prop := {
  ct_cmds : Sh.sh_cmds st' = Sh.sh_cmds st;
  ct_cut : cut m0 (Sh.sh_mem st) → cut m0 (Sh.sh_mem st');
  ct_keeps : keeps_nul (Sh.sh_mem st) (Sh.sh_mem st');
}.
#[local] Instance cuts_preorder m0 : PreOrder (cuts m0).
Proof.
  split; [by intros st|]. intros s1 s2 s3 [A1 A2 A3] [B1 B2 B3]. constructor; [congruence|auto|by etrans].
Qed.

Lemma poke0_run m0 st q eq w : span m0 q eq w →
  ∃ st', Sh.poke0 eq st = Ret tt st' ∧ cuts m0 st st' ∧ Sh.sh_mem st' eq = 0.
Proof.
  intros Hs. eexists. split; [done|]. cbn. unfold store. split; [|by rewrite Z.eqb_refl]. constructor; [done| |].
  - intros Hc a Hz Hp. cbn. destruct (Z.eqb_spec a eq) as [->|]; [|by apply Hc]. destruct (sp_stop _ _ _ _ Hs); congruence.
  - intros a Ha. cbn. by destruct (a =? eq).
Qed.

Lemma terminate_args_run m0 st ws argv eargv :
  length eargv = length argv → argv !! length ws = Some 0 →
  (∀ i w, ws !! i = Some w → ∃ q eq, argv !! i = Some q ∧ eargv !! i = Some eq ∧ q ≠ 0 ∧ span m0 q eq w) →
  ∃ st', Sh.terminate_args argv eargv st = Ret tt st' ∧ cuts m0 st st'
    ∧ ∀ i eq, (i < length ws)%nat → eargv !! i = Some eq → Sh.sh_mem st' eq = 0.
Proof.
  revert argv eargv st. induction ws as [|w ws IH]; intros argv eargv st Hlen Hz Ha;
    (destruct argv as [|q argv]; [done|]); (destruct eargv as [|eq eargv]; [done|]); cbn [Sh.terminate_args].
  - cbn in Hz. injection Hz as ->. rewrite Z.eqb_refl. exists st. split; [done|]. split; [done|]. cbn. lia.
  - destruct (Ha 0%nat w eq_refl) as (q' & eq' & [= <-] & [= <-] & Hq & Hs). rewrite (proj2 (Z.eqb_neq q 0)) by done.
    destruct (poke0_run m0 st q eq w Hs) as (st1 & E & Hc1 & H0). rewrite (bind_ret _ _ _ _ _ E).
    destruct (IH argv eargv st1) as (st' & E' & Hc2 & H2); [cbn in Hlen; lia|done|intros i w' Hi; by apply (Ha (S i))|].
    exists st'. split; [done|]. split; [by etrans|]. intros [|i] e Hi He; cbn in He, Hi; [|apply (H2 i); [lia|done]].
    injection He as <-. by apply (ct_keeps _ _ _ Hc2).
Qed.

Lemma ended_keeps m0 m m' cm p t : keeps_nul m m' → holds (ended m0 m) cm p t → holds (ended m0 m') cm p t.
Proof. intros Hk. apply holds_impl. intros q eq w [H1 H2]. split; auto. Qed.

Lemma nulterminate_run m0 n t p st :
  holds (span m0) (Sh.sh_cmds st) p t → (tsize t <= n)%nat →
  ∃ st', Sh.nulterminate n p st = Ret p st' ∧ cuts m0 st st' ∧ holds (ended m0 (Sh.sh_mem st')) (Sh.sh_cmds st) p t.
Proof.
  revert n p st. induction t as [ws|t IH f inp|l IHl r IHr|l IHl r IHr|t IH]; intros n p st [Hp H] Hn;
    (destruct n as [|n]; [cbn in Hn; lia|]); cbn [tsize] in Hn; cbn [Sh.nulterminate];
    rewrite (proj2 (Z.eqb_neq p 0)) by done; unfold get; (erewrite bind_ret by reflexivity).
  - destruct H as (argv & eargv & H & (L1 & L2 & Ha) & H0). rewrite H. cbn [deref]. rewrite bind_mret.
    destruct (terminate_args_run m0 st ws argv eargv) as (st' & E & Hc & Hend); [congruence|done|done|].
    rewrite (bind_ret _ _ _ _ _ E). exists st'. split; [done|]. split; [done|]. split; [done|]. exists argv, eargv.
    split; [done|]. split; [|done]. split_and!; try done. intros i w Hi. destruct (Ha i w Hi) as (q & eq & ? & ? & ? & ?). exists q, eq.
    split_and!; try done. split; [done|]. apply (Hend i); [by eapply lookup_lt_Some|done].
  - destruct H as (sub & q & eq & H & Hw & Ht). rewrite H. cbn [deref]. rewrite bind_mret, bind_assoc.
    destruct (IH n sub st Ht ltac:(lia)) as (st1 & E1 & Hc1 & Hh1). rewrite (bind_ret _ _ _ _ _ E1).
    destruct (poke0_run m0 st1 q eq f Hw) as (st2 & E2 & Hc2 & H02). rewrite (bind_ret _ _ _ _ _ E2).
    exists st2. split; [done|]. split; [by etrans|]. split; [done|]. exists sub, q, eq. split_and!; try done.
    by eapply ended_keeps; [apply Hc2|].
  - destruct H as (pl & pr & H & Hl & Hr). rewrite H. cbn [deref]. rewrite bind_mret, bind_assoc.
    destruct (IHl n pl st Hl ltac:(lia)) as (st1 & E1 & Hc1 & Hh1). rewrite (bind_ret _ _ _ _ _ E1), bind_assoc.
    destruct (IHr n pr st1) as (st2 & E2 & Hc2 & Hh2); [by rewrite (ct_cmds _ _ _ Hc1)|lia|].
    rewrite (bind_ret _ _ _ _ _ E2). exists st2. split; [done|]. split; [by etrans|]. split; [done|]. exists pl, pr.
    rewrite (ct_cmds _ _ _ Hc1) in Hh2. split_and!; try done. by eapply ended_keeps; [apply Hc2|].
  - destruct H as (pl & pr & H & Hl & Hr). rewrite H. cbn [deref]. rewrite bind_mret, bind_assoc.
    destruct (IHl n pl st Hl ltac:(lia)) as (st1 & E1 & Hc1 & Hh1). rewrite (bind_ret _ _ _ _ _ E1), bind_assoc.
    destruct (IHr n pr st1) as (st2 & E2 & Hc2 & Hh2); [by rewrite (ct_cmds _ _ _ Hc1)|lia|].
    rewrite (bind_ret _ _ _ _ _ E2). exists st2. split; [done|]. split; [by etrans|]. split; [done|]. exists pl, pr.
    rewrite (ct_cmds _ _ _ Hc1) in Hh2. split_and!; try done. by eapply ended_keeps; [apply Hc2|].
  - destruct H as (sub & H & Ht). rewrite H. cbn [deref]. rewrite bind_mret, bind_assoc.
    destruct (IH n sub st Ht ltac:(lia)) as (st1 & E1 & Hc1 & Hh1). rewrite (bind_ret _ _ _ _ _ E1).
    exists st1. split; [done|]. split; [done|]. split; [done|]. by exists sub.
Qed.

(** ** The whole *)
Lemma length_lex w l : (length (lex w l) <= length l + length (flush w))%nat.
Proof.
  assert (∀ l w, (length (lex w l) <= length l + length (flush w))%nat ∧ ∀ c, (length (lex w (c :: l)) <= S (length l) + length (flush w))%nat)
    as H; [|apply H].
  assert (∀ w : word, (length (flush w) <= 1)%nat) as Hf by (intros []; cbn; lia).
  clear l w. induction l as [|d l IH]; intros w.
  - split; [cbn; lia|]. intros c. cbn [lex]. destruct (is_space c), (is_symbol c); rewrite ?length_app; cbn;
      try (pose proof (Hf (w ++ [c]))); lia.
  - destruct (IH w) as [_ H1]. split; [cbn; apply H1|]. intros c. cbn [lex]. specialize (IH []) as IH0. cbn in IH0.
    destruct (is_space c); [rewrite length_app; destruct IH0 as [_ IH0]; specialize (IH0 d); cbn in *; lia|].
    destruct (is_symbol c).
    + rewrite length_app. destruct ((c =? 62) && (d =? 62)); cbn [length].
      * destruct IH0 as [IH0 _]. lia.
      * destruct IH0 as [_ IH0]. specialize (IH0 d). cbn in *. lia.
    + destruct (IH (w ++ [c])) as [_ H2]. specialize (H2 d). pose proof (Hf (w ++ [c])). cbn in H2 |- *. lia.
Qed.

Lemma strlen_text m s es l n : at_text m s es l → (length l < n)%nat → Ulib.strlen n m s = Some (Z.of_nat (length l)).
Proof.
  intros Hl Hn. unfold Ulib.strlen.
  assert (∀ n k, (k <= length l)%nat → (length l - k < n)%nat →
    Ulib.strlen_loop n m s (Z.of_nat k) = Some (Z.of_nat (length l))) as H; [|apply (H n 0%nat); lia].
  clear n Hn. induction n as [|n IH]; intros k Hk Hn; [lia|]. cbn [Ulib.strlen_loop].
  destruct (decide (k = length l)) as [->|Hne].
  - rewrite (at_end _ _ _ _ Hl), (at_nul _ _ _ _ Hl). done.
  - destruct (lookup_lt_is_Some_2 l k) as [c Hc]; [lia|]. rewrite (at_char _ _ _ _ Hl k c Hc).
    pose proof (at_nonzero _ _ _ _ Hl) as Hz. rewrite Forall_forall in Hz.
    rewrite (proj2 (Z.eqb_neq c 0)) by (by eapply Hz, list_elem_of_lookup_2).
    replace (Z.of_nat k + 1) with (Z.of_nat (S k)) by lia. apply IH; lia.
Qed.

(** What is left after the last command is white space, or not. *)
Lemma leftovers m s es l : at_text m s es l → Sh.skip_space m s es = es ↔ tokens l = [].
Proof.
  intros Hl. destruct (skip_space_spec _ _ _ _ Hl) as (l' & Hl' & <- & Hsp). pose proof (at_end _ _ _ _ Hl') as He.
  destruct l' as [|c z].
  - cbn in He. split; [done|lia].
  - split; [cbn in He; lia|]. intros Ht.
    destruct (tokens_first c z (Hsp c z eq_refl)) as [(_ & t & ts & E & _)|(_ & w & ts & E)]; by rewrite E in Ht.
Qed.

Lemma parsecmd_parse n s es l st :
  at_text (Sh.sh_mem st) s es l → (length l < n)%nat → shell_ok st (2 * length l + 1) →
  match parse (4 * n + 4) (tokens l) with
  | Good t _ => ∃ p st', Sh.parsecmd n s st = Ret p st' ∧ holds (λ q _ w, cstr (Sh.sh_mem st') q w) (Sh.sh_cmds st') p t
  | Bad msg => Sh.parsecmd n s st = Panic msg
  | Dry => False
  end.
Proof.
  intros Hl Hn Hok. unfold Sh.parsecmd. rewrite bind_gets, (strlen_text _ _ _ _ _ Hl Hn). cbn [deref].
  rewrite bind_mret. replace (s + Z.of_nat (length l)) with es by (pose proof (at_end _ _ _ _ Hl); lia).
  pose proof (length_lex [] l) as Hlen. cbn in Hlen. change (lex [] l) with (tokens l) in Hlen.
  destruct (parse_agrees es (4 * n + 4)) as (Hline & _).
  specialize (Hline s l st 0%nat Hl ltac:(eapply shell_ok_le; [exact Hok|lia])).
  destruct (p_settled (4 * n + 4) (tokens l)) as (Hset & _). specialize (Hset ltac:(lia)).
  unfold parse. destruct (p_line (4 * n + 4) (tokens l)) as [t ts|msg|]; cbn [pbind]; [|by apply bind_panic|done].
  destruct Hline as (p & s' & l' & st' & E & Hl' & <- & Hext & Hh & _). rewrite (bind_ret _ _ _ _ _ E).
  pose proof (leftovers _ _ _ _ Hl') as Hleft. unfold Sh.peek. destruct (tokens l') as [|x ts].
  - rewrite (proj2 (Z.eqb_eq _ es)) by (by apply Hleft). cbn [negb].
    destruct Hset as [Hset _]. cbn in Hset.
    destruct (nulterminate_run (Sh.sh_mem st) (4 * n + 4) t p st' Hh ltac:(lia)) as (st2 & E2 & Hc & Hend).
    rewrite (bind_ret _ _ _ _ _ E2). exists p, st2. split; [done|]. rewrite (ct_cmds _ _ _ Hc).
    eapply holds_impl; [|exact Hend]. intros q eq w. cbn. apply ended_cstr, (ct_cut _ _ _ Hc). rewrite (proj1 Hext).
    by intros a.
  - rewrite (proj2 (Z.eqb_neq _ es)); [done|]. intros H%Hleft. done.
Qed.
End sh.
