(* ===== verification/ShParse.v ===== *)
(** * Parsing with the memory allocator

    [malloc] of umalloc.c as the allocator of the shell, and what [parsecmd] does with
    a line. *)
From S2P Require Import Prelude Str Umalloc UmallocInv UmallocThms Sh ShSpec ShThms.

Section parse.
(** The kernel grants memory up to [limit], and none above its own addresses. *)
Context (base : Z) (granted : Z → Z → bool) (limit : Z).
Context (granted_below : ∀ brk n, granted brk n = true → brk + n <= 2 ^ 31).
Context (granted_limit : ∀ brk n, 0 <= n → brk + n <= limit → granted brk n = true).

(** The pointers in use are those of the allocated blocks; a small request moves the
    break by at most 4096 headers. *)
Definition um_ok (h : heap) (ps : gset Z) (k : nat) : Prop :=
  ∃ live, heap_ok base h live ∧ ps = list_to_set ((λ b : blk, b.1 + 8) <$> live)
    ∧ hp_brk h + 32768 * Z.of_nat k <= limit.

Lemma um_malloc h ps k n :
  um_ok h ps (S k) → 0 <= n <= 4096 →
  ∃ p h', malloc base granted n h = Ret p h' ∧ p ≠ 0 ∧ (p ∉ ps) ∧ um_ok h' ({[p]} ∪ ps) k.
Proof.
  intros (live & Hok & -> & Hlim) Hn.
  assert (8 * Z.max (malloc_units n) 4096 = 32768) as Hu.
  { unfold malloc_units, sizeof_Header. rewrite u32_id by (unfold is_u32; lia).
    Z.to_euclidean_division_equations. lia. }
  destruct (malloc_run base granted granted_below h live n Hok ltac:(lia)) as [(h' & _ & _ & Hg)|Ht].
  { rewrite Hu, granted_limit in Hg; [done|lia|lia]. }
  apply taken_block in Ht as (b & h' & E & _ & Hlo & _ & Hcl & Hok' & Hbrk).
  destruct (heap_ok_live _ _ _ b Hok') as (B1 & B2 & B3); [left|].
  assert (0 < base) by (destruct Hok' as [(_ & _ & [=] & _)|[fl Hr]]; by destruct (r_base _ _ _ _ Hr)).
  exists (b.1 + 8), h'. split_and!; [done|lia| |].
  - intros (c & Hc & Hin)%elem_of_list_to_set%list_elem_of_fmap. rewrite Forall_forall in Hcl.
    specialize (Hcl c Hin). destruct (heap_ok_live _ _ _ c Hok') as (C1 & C2 & C3); [by right|].
    unfold clear_of, b_end in *. lia.
  - exists (b :: live). split_and!; [done|done|lia].
Qed.

Lemma um_ok_le h ps k k' : um_ok h ps k → (k' <= k)%nat → um_ok h ps k'.
Proof. intros (live & H1 & H2 & H3) Hle. exists live. split_and!; [done|done|lia]. Qed.

#[export] Instance um_allocator : Allocator heap := {
  al_malloc := malloc base granted;
  al_ok := um_ok;
  al_ok_le := um_ok_le;
  al_malloc_ok := um_malloc;
}.

Lemma fresh_shell m h k :
  heap_ok base h [] → hp_brk h + 32768 * Z.of_nat k <= limit → shell_ok (Sh.mkshell m ∅ h) k.
Proof. intros Hh Hl. exists ∅. split; [done|]. by exists []. Qed.

(** C28: A line is parsed as the reference parses its tokens: [parsecmd] returns the tree,
    whose words are strings in memory, or panics with the message of the reference;
    there is no other outcome, and the fuel is enough. *)
Theorem parsecmd_refines n s es l m h :
  at_text m s es l → (length l < n)%nat → heap_ok base h [] →
  hp_brk h + 32768 * (2 * Z.of_nat (length l) + 1) <= limit →
  match parse (4 * n + 4) (tokens l) with
  | Good t _ => ∃ p st', Sh.parsecmd n s (Sh.mkshell m ∅ h) = Ret p st'
      ∧ holds (λ q _ w, cstr (Sh.sh_mem st') q w) (Sh.sh_cmds st') p t
  | Bad msg => Sh.parsecmd n s (Sh.mkshell m ∅ h) = Panic msg
  | Dry => False
  end.
Proof. intros Hl Hn Hh Hlim. apply (parsecmd_parse n s es); [done|done|]. apply fresh_shell; [done|lia]. Qed.

(** Whatever command is written on a line, with any white space, [parsecmd] reads it
    back: the structure in memory is the command, and its words are NUL-terminated
    strings in the line. *)
Theorem parsecmd_roundtrip t n s es l m h :
  few_args t → tokens l = written 3 t →
  at_text m s es l → (length l < n)%nat → heap_ok base h [] →
  hp_brk h + 32768 * (2 * Z.of_nat (length l) + 1) <= limit →
  ∃ p st', Sh.parsecmd n s (Sh.mkshell m ∅ h) = Ret p st'
    ∧ holds (λ q _ w, cstr (Sh.sh_mem st') q w) (Sh.sh_cmds st') p t.
Proof.
  intros Hf Ht Hl Hn Hh Hlim. pose proof (length_lex [] l) as Hlen. cbn in Hlen. change (lex [] l) with (tokens l) in Hlen.
  pose proof (parsecmd_parse n s es l (Sh.mkshell m ∅ h) Hl Hn ltac:(apply fresh_shell; [done|lia])) as H.
  rewrite Ht in H, Hlen. rewrite parse_written in H by (done || lia). exact H.
Qed.
End parse.

(** *** An example: [ls -l | (sort > f; wc) &] *)
Definition line_mem (s : Z) (l : list Z) : mem := λ a, default 0 (l !! Z.to_nat (a - s)).
Definition line_1 : list Z :=
  [108; 115; 32; 45; 108; 32; 124; 32; 40; 115; 111; 114; 116; 32; 62; 102; 59; 119; 99; 41; 32; 38; 10].
Definition tree_1 : tree :=
  TBack (TPipe (TExec [[108; 115]; [45; 108]])
    (TList (TRedir (TExec [[115; 111; 114; 116]]) [102] false) (TExec [[119; 99]]))).

Lemma at_line s l : 0 < s → Forall (λ c, c ≠ 0) l → at_text (line_mem s l) s (s + Z.of_nat (length l)) l.
Proof.
  intros Hs Hl. constructor; try done; unfold line_mem.
  - intros i c Hi. replace (Z.to_nat (s + Z.of_nat i - s)) with i by lia. by rewrite Hi.
  - rewrite lookup_ge_None_2; [done|lia].
Qed.

Lemma grants_below brk n : grants brk n = true → brk + n <= 2 ^ 31.
Proof. unfold grants. intros [_ H]%andb_true_iff. lia. Qed.
Lemma grants_limit brk n : 0 <= n → brk + n <= 2 ^ 24 → grants brk n = true.
Proof. intros H1 H2. unfold grants. apply andb_true_iff. lia. Qed.

Lemma parsecmd_refines_witness :
  match parse (4 * 100 + 4) (tokens line_1) with
  | Good t _ => t = tree_1 ∧ ∃ p st',
      Sh.parsecmd (Allocator0 := um_allocator 0x3000 grants (2 ^ 24) grants_below grants_limit) 100 0x1000
        (Sh.mkshell (line_mem 0x1000 line_1) ∅ heap_0) = Ret p st'
      ∧ holds (λ q _ w, cstr (Sh.sh_mem st') q w) (Sh.sh_cmds st') p t
  | _ => False
  end.
Proof.
  pose proof (parsecmd_refines 0x3000 grants (2 ^ 24) grants_below grants_limit 100 0x1000 _ line_1
    (line_mem 0x1000 line_1) heap_0 (at_line 0x1000 line_1 ltac:(lia) ltac:(repeat constructor; done))) as H.
  specialize (H ltac:(cbn; lia) ltac:(left; repeat split; done) ltac:(cbn; lia)). revert H.
  assert (parse (4 * 100 + 4) (tokens line_1) = Good tree_1 []) as -> by (vm_compute; reflexivity). done.
Defined.

Lemma parsecmd_roundtrip_witness :
  few_args tree_1 ∧ tokens line_1 = written 3 tree_1 ∧ ∃ p st',
    Sh.parsecmd (Allocator0 := um_allocator 0x3000 grants (2 ^ 24) grants_below grants_limit) 100 0x1000
      (Sh.mkshell (line_mem 0x1000 line_1) ∅ heap_0) = Ret p st'
    ∧ holds (λ q _ w, cstr (Sh.sh_mem st') q w) (Sh.sh_cmds st') p tree_1.
Proof.
  assert (few_args tree_1) as Hf by (cbn; unfold Sh.MAXARGS; repeat split; lia).
  assert (tokens line_1 = written 3 tree_1) as Ht by (vm_compute; reflexivity).
  split; [exact Hf|]. split; [exact Ht|].
  apply (parsecmd_roundtrip 0x3000 grants (2 ^ 24) grants_below grants_limit tree_1 100 0x1000 (0x1000 + Z.of_nat (length line_1)) line_1);
    [exact Hf|exact Ht|apply at_line; [lia|repeat constructor; done]|cbn; lia|left; repeat split; done|cbn; lia].
Defined.
