(* ===== verification/Grep.v ===== *)
(** * grep (grep.c)

    The matcher of Kernighan and Pike against the language of its patterns, and the
    loop that cuts the input into lines.  Patterns and texts are the characters before
    the NUL. *)
From S2P Require Import Prelude.

Module Grep.
Definition text := list Z.

(** [matchstar(c, re, text)]; [here] is [matchhere] of [re]. *)
Fixpoint matchstar (here : text → bool) (c : Z) (t : text) : bool :=
  if here t then true else
  match t with
  | [] => false
  | x :: t' => if (x =? c) || (c =? 46) then matchstar here c t' else false
  end.

Fixpoint matchhere (re t : text) : bool :=
  match re with
  | [] => true
  | c :: re1 =>
      let one :=
        if (c =? 36) && bool_decide (re1 = []) then bool_decide (t = []) else
        match t with
        | x :: t' => if (c =? 46) || (c =? x) then matchhere re1 t' else false
        | [] => false
        end in
      match re1 with
      | d :: re2 => if d =? 42 then matchstar (matchhere re2) c t else one
      | [] => one
      end
  end.

(** [match]: at the beginning after [^], or anywhere. *)
Fixpoint match_from (re t : text) : bool :=
  if matchhere re t then true else match t with [] => false | _ :: t' => match_from re t' end.
Definition match_ (re t : text) : bool :=
  match re with
  | c :: re' => if c =? 94 then matchhere re' t else match_from re t
  | [] => match_from re t
  end.

(** [strchr(p, '\n')] in the buffer: the line before it and what comes after. *)
Fixpoint next_line (buf : text) : option (text * text) :=
  match buf with
  | [] => None
  | c :: buf' =>
      if c =? 0 then None else
      if c =? 10 then Some ([], buf') else
      match next_line buf' with Some (l, rest) => Some (c :: l, rest) | None => None end
  end.

(** The inner loop: the lines that match are written; what is left from [p], and
    whether [p] has moved.  Every turn uses up a byte. *)
Fixpoint grep_lines (fuel : nat) (pattern buf : text) : list text * text * bool :=
  match fuel with
  | O => ([], buf, false)
  | S fuel' =>
      match next_line buf with
      | None => ([], buf, false)
      | Some (l, rest) =>
          let '(out, tl, _) := grep_lines fuel' pattern rest in
          (if match_ pattern l then (l ++ [10]) :: out else out, tl, true)
      end
  end.

(** [reads] is what the calls of [read] give, each at most the room in [buf], up to the
    first that gives nothing; [kept] the [m] bytes at the front of [buf].  The result is
    what is passed to [write]. *)
Fixpoint grep (pattern : text) (reads : list text) (kept : text) : list text :=
  match reads with
  | [] => []
  | [] :: _ => []
  | chunk :: reads' =>
      let buf := kept ++ chunk in
      let '(out, tl, moved) := grep_lines (length buf) pattern buf in
      out ++ grep pattern reads' (if moved then tl else [])
  end.
End Grep.

(** ** Patterns *)
(** A pattern is a list of characters and repeated characters, and may be tied to the
    end of the text; a character that is a dot stands for any. *)
Inductive item := One (c : Z) | Star (c : Z).

Fixpoint items (re : Grep.text) : list item * bool :=
  match re with
  | [] => ([], false)
  | c :: re1 =>
      let one := if (c =? 36) && bool_decide (re1 = []) then ([], true) else (One c :: (items re1).1, (items re1).2) in
      match re1 with
      | d :: re2 => if d =? 42 then (Star c :: (items re2).1, (items re2).2) else one
      | [] => one
      end
  end.

Definition fits (c x : Z) : Prop := c = 46 ∨ c = x.

(** The texts a list of items stands for. *)
Fixpoint language (its : list item) (s : Grep.text) : Prop :=
  match its with
  | [] => s = []
  | One c :: its' => ∃ x s', s = x :: s' ∧ fits c x ∧ language its' s'
  | Star c :: its' => ∃ s1 s2, s = s1 ++ s2 ∧ Forall (fits c) s1 ∧ language its' s2
  end.

(** A text of the language at the front of [t], and nothing after it when the pattern
    is tied to the end. *)
Definition front (re t : Grep.text) : Prop :=
  ∃ s rest, t = s ++ rest ∧ language (items re).1 s ∧ ((items re).2 = true → rest = []).

Lemma fits_test c x : (c =? 46) || (c =? x) = true ↔ fits c x.
Proof. unfold fits. rewrite orb_true_iff, !Z.eqb_eq. done. Qed.

Lemma matchstar_spec (here : Grep.text → bool) c t :
  Grep.matchstar here c t = true ↔ ∃ s1 t2, t = s1 ++ t2 ∧ Forall (fits c) s1 ∧ here t2 = true.
Proof.
  induction t as [|x t IH]; cbn [Grep.matchstar].
  - destruct (here []) eqn:Hh; split; try done.
    + intros _. exists [], []. repeat split; [constructor|done].
    + intros (s1 & t2 & E & _ & H). symmetry in E. apply app_nil in E as [-> ->]. congruence.
  - destruct (here (x :: t)) eqn:Hh.
    { split; [|done]. intros _. exists [], (x :: t). repeat split; [constructor|done]. }
    assert ((x =? c) || (c =? 46) = (c =? 46) || (c =? x)) as -> by (rewrite orb_comm; f_equal; apply Z.eqb_sym).
    destruct ((c =? 46) || (c =? x)) eqn:Hf.
    + apply fits_test in Hf. rewrite IH. split.
      * intros (s1 & t2 & -> & H1 & H2). exists (x :: s1), t2. repeat split; [by constructor|done].
      * intros ([|y s1] & t2 & E & H1 & H2); cbn in E; [subst; congruence|]. injection E as <- ->.
        apply Forall_cons in H1 as [_ H1]. by exists s1, t2.
    + split; [done|]. intros ([|y s1] & t2 & E & H1 & H2); cbn in E; [subst; congruence|]. injection E as <- ->.
      apply Forall_cons in H1 as [H1%fits_test _]. congruence.
Qed.

Lemma matchhere_spec re t : Grep.matchhere re t = true ↔ front re t.
Proof.
  unfold front. remember (length re) as n eqn:Hn. assert (length re <= n)%nat as Hle by lia. clear Hn. revert re Hle t.
  induction n as [|n IH]; intros [|c re1] Hle t; try (cbn in Hle; lia).
  1,2: cbn; split; [intros _; by exists [], t|done].
  cbn [length] in Hle.
  assert ((if (c =? 36) && bool_decide (re1 = []) then bool_decide (t = []) else
    match t with x :: t' => if (c =? 46) || (c =? x) then Grep.matchhere re1 t' else false | [] => false end) = true
    ↔ ∃ s rest, t = s ++ rest
      ∧ language (if (c =? 36) && bool_decide (re1 = []) then ([], true) else (One c :: (items re1).1, (items re1).2)).1 s
      ∧ ((if (c =? 36) && bool_decide (re1 = []) then ([], true) else (One c :: (items re1).1, (items re1).2)).2 = true → rest = []))
    as Hone.
  { destruct ((c =? 36) && bool_decide (re1 = [])); cbn [fst snd language].
    - rewrite bool_decide_eq_true. split; [intros ->; by exists [], []|].
      intros (s & rest & -> & -> & H). by rewrite H.
    - destruct t as [|x t].
      + split; [done|]. intros (s & rest & E & (x & s' & -> & _) & _). done.
      + destruct ((c =? 46) || (c =? x)) eqn:Hf.
        * apply fits_test in Hf. rewrite IH by lia. split.
          -- intros (s & rest & -> & H1 & H2). exists (x :: s), rest. repeat split; [|done]. by exists x, s.
          -- intros (s & rest & E & (y & s' & -> & Hy & H1) & H2). cbn in E. injection E as <- ->. by exists s', rest.
        * split; [done|]. intros (s & rest & E & (y & s' & -> & Hy & H1) & H2). cbn in E. injection E as <- ->.
          apply fits_test in Hy. congruence. }
  cbn [Grep.matchhere items]. destruct re1 as [|d re2]; [exact Hone|]. destruct (d =? 42); [|exact Hone].
  cbn [fst snd language]. rewrite matchstar_spec. cbn [length] in Hle. split.
  - intros (s1 & t2 & -> & H1 & (s & rest & -> & H2 & H3)%IH); [|lia]. exists (s1 ++ s), rest.
    repeat split; [by rewrite app_assoc| |done]. by exists s1, s.
  - intros (s & rest & -> & (s1 & s2 & -> & H1 & H2) & H3). exists s1, (s2 ++ rest).
    repeat split; [by rewrite app_assoc|done|]. apply IH; [lia|]. by exists s2, rest.
Qed.

(** The pattern matches somewhere in the text, or at its beginning after [^]. *)
Definition matches (re t : Grep.text) : Prop :=
  (∃ re', re = 94 :: re' ∧ front re' t) ∨ (head re ≠ Some 94 ∧ ∃ pre t', t = pre ++ t' ∧ front re t').

Lemma match_from_spec re t : Grep.match_from re t = true ↔ ∃ pre t', t = pre ++ t' ∧ front re t'.
Proof.
  induction t as [|x t IH]; cbn [Grep.match_from]; destruct (Grep.matchhere re _) eqn:Hh.
  - split; [|done]. intros _. exists [], []. split; [done|]. by apply matchhere_spec.
  - split; [done|]. intros (pre & t' & E & H). symmetry in E. apply app_nil in E as [-> ->].
    apply matchhere_spec in H. congruence.
  - split; [|done]. intros _. exists [], (x :: t). split; [done|]. by apply matchhere_spec.
  - rewrite IH. split.
    + intros (pre & t' & -> & H). by exists (x :: pre), t'.
    + intros ([|y pre] & t' & E & H); cbn in E; [subst; apply matchhere_spec in H; congruence|].
      injection E as <- ->. by exists pre, t'.
Qed.

(** C37: The matcher decides the language of its patterns: it answers 1 exactly when a text
    the pattern stands for occurs in the line, at its beginning after [^], at its end
    before [$]. *)
Theorem match_correct re t : Grep.match_ re t = true ↔ matches re t.
Proof.
  unfold Grep.match_, matches. destruct re as [|c re].
  - rewrite match_from_spec. split; [by right|]. intros [(re' & E & _)|[_ H]]; done.
  - destruct (Z.eqb_spec c 94) as [->|Hc].
    + rewrite matchhere_spec. split; [left; eauto|]. intros [(re' & [= <-] & H)|[H _]]; done.
    + rewrite match_from_spec. split; [right; split; [cbn; congruence|done]|].
      intros [(re' & E & _)|[_ H]]; [by injection E|done].
Qed.

(** ** Lines *)
Definition clean (l : Grep.text) : Prop := Forall (λ c, c ≠ 0 ∧ c ≠ 10) l.
Abbreviation joined ls := (concat ((λ l : Grep.text, l ++ [10]) <$> ls)).
Definition matching (pattern : Grep.text) (ls : list Grep.text) : list Grep.text :=
  (λ l, l ++ [10]) <$> filter (λ l, Grep.match_ pattern l = true) ls.

Lemma next_line_clean l rest : clean l → Grep.next_line (l ++ 10 :: rest) = Some (l, rest).
Proof.
  induction 1 as [|c l [Hz Hn] _ IH]; [done|]. cbn. rewrite (proj2 (Z.eqb_neq c 0)), (proj2 (Z.eqb_neq c 10)) by done.
  by rewrite IH.
Qed.
Lemma next_line_none l : clean l → Grep.next_line l = None.
Proof.
  induction 1 as [|c l [Hz Hn] _ IH]; [done|]. cbn. rewrite (proj2 (Z.eqb_neq c 0)), (proj2 (Z.eqb_neq c 10)) by done.
  by rewrite IH.
Qed.

Lemma grep_lines_clean fuel pattern ls tl :
  Forall clean ls → clean tl → (length ls <= fuel)%nat →
  Grep.grep_lines fuel pattern (joined ls ++ tl) = (matching pattern ls, tl, bool_decide (ls ≠ [])).
Proof.
  intros Hls Htl. revert fuel. induction Hls as [|l ls Hl _ IH]; intros fuel Hf.
  - cbn. destruct fuel; cbn; [done|]. by rewrite (next_line_none tl Htl).
  - destruct fuel as [|fuel]; [cbn in Hf; lia|]. cbn [fmap list_fmap concat Grep.grep_lines].
    rewrite <-!app_assoc. cbn [app]. rewrite next_line_clean, IH by (done || (cbn in Hf; lia)).
    unfold matching. rewrite filter_cons. destruct (Grep.match_ pattern l) eqn:E; by case_decide.
Qed.

(** Every read completes a line: what was kept and the chunk are the lines [ls] and the
    beginning [tl] of the next one. *)
Inductive line_reads : Grep.text → list Grep.text → list Grep.text → Prop :=
| lr_nil kept : line_reads kept [] []
| lr_read kept chunk reads ls tl lss : chunk ≠ [] → ls ≠ [] → Forall clean ls → clean tl →
    kept ++ chunk = joined ls ++ tl → line_reads tl reads lss → line_reads kept (chunk :: reads) (ls ++ lss).

(** [grep] writes the lines that match and no others, in order. *)
Lemma grep_filters pattern kept reads ls :
  line_reads kept reads ls → Grep.grep pattern reads kept = matching pattern ls.
Proof.
  induction 1 as [kept|kept chunk reads ls tl lss Hc Hne Hls Htl E Hlr IH]; [done|]. cbn [Grep.grep].
  destruct chunk as [|x chunk]; [done|]. rewrite E. rewrite grep_lines_clean; [|done|done|].
  - rewrite bool_decide_eq_true_2 by done. rewrite IH. unfold matching. by rewrite filter_app, fmap_app.
  - rewrite length_app. assert (length ls <= length (joined ls))%nat; [|lia].
    clear. induction ls as [|l ls IH]; cbn; [lia|]. rewrite !length_app. cbn. lia.
Qed.

(** A read that brings no newline is thrown away, also when the rest of its line comes
    with the next one. *)
Lemma grep_loses_parts : Grep.match_ [97] [97; 98] = true ∧ Grep.grep [97] [[97]; [98; 10]] [] = [].
Proof. by vm_compute. Qed.
