(* ===== verification/User.v ===== *)
(** * User programs (cat.c, wc.c, echo.c, kill.c, ln.c, mkdir.c, rm.c, ls.c, grep.c,
      init.c, zombie.c)

    A program is the tree of the system calls it makes: a call and what the program does
    with each answer.  A program that is run with its arguments gets them as strings, the
    characters before the NUL.  A loop without a bound of its own takes fuel; [Stuck] is a
    program that has run out of it or that C leaves undefined.

    [run] plays a program against a world that answers its calls.  What the filters rely on
    is the class [Stream]: a descriptor that is read to its end, in pieces of any size, and
    an output that takes what is written. *)
From S2P Require Import Prelude Params Fs Str Console Ulib Sysfile Grep Sh ShSpec ShThms.

(** ** Programs *)
(** The calls that answer with an int. *)
Inductive scall :=
| open (path : list Z) (mode : Z)
| close (fd : Z)
| dup (fd : Z)
| write (fd : Z) (bs : list Z)
| fork
| wait
| exec (path : list Z) (argv : list (list Z))
| chdir (path : list Z)
| kill (pid : Z)
| link (old new : list Z)
| unlink (path : list Z)
| mkdir (path : list Z)
| mknod (path : list Z) (major minor : Z)
| sleep (n : Z).

(** [Pipe], [Read] and [Fstat] also fill memory; [None] is the answer -1.  The bytes that
    [Read] gives are as many as it answers. *)
Inductive prog (A : Type) : Type :=
| Done (a : A)
| Exit
| Stuck
| Sys (c : scall) (k : Z → prog A)
| Pipe (k : option (Z * Z) → prog A)
| Read (fd n : Z) (k : option (list Z) → prog A)
| Fstat (fd : Z) (k : option stat → prog A).
Arguments Done {A} a.
Arguments Exit {A}.
Arguments Stuck {A}.
Arguments Sys {A} c k.
Arguments Pipe {A} k.
Arguments Read {A} fd n k.
Arguments Fstat {A} fd k.

#[export] Instance prog_ret : MRet prog := λ A a, Done a.
#[export] Instance prog_bind : MBind prog := λ A B f,
  fix go (m : prog A) : prog B :=
    match m with
    | Done a => f a
    | Exit => Exit
    | Stuck => Stuck
    | Sys c k => Sys c (λ r, go (k r))
    | Pipe k => Pipe (λ r, go (k r))
    | Read fd n k => Read fd n (λ r, go (k r))
    | Fstat fd k => Fstat fd (λ r, go (k r))
    end.

Definition sys (c : scall) : prog Z := Sys c Done.
Definition read (fd n : Z) : prog (option (list Z)) := Read fd n Done.
Definition pipe : prog (option (Z * Z)) := Pipe Done.
Definition fstat (fd : Z) : prog (option stat) := Fstat fd Done.
Definition exit {A} : prog A := Exit.

Fixpoint pfor {I} (idx : list I) (body : I → prog unit) : prog unit :=
  match idx with
  | [] => mret tt
  | i :: idx' => body i;; pfor idx' body
  end.

(** ** Library functions that make calls *)
(** An argument of [printf]: a number or a string, at an address of its own. *)
Definition arg_words (args : list (Z + list Z)) : list Z :=
  imap (λ i a, match a with inl z => z | inr _ => Z.of_nat i + 1 end) args.
Definition arg_string (args : list (Z + list Z)) (a : Z) : list Z :=
  match args !! Z.to_nat (a - 1) with Some (inr s) => s | _ => [] end.

(** [putc] of printf.c writes one byte at a time. *)
Definition emit (out : list (Z * Z)) : prog unit :=
  pfor out (λ '(fd, c), sys (write fd [c]);; mret tt).
Definition printf (fd : Z) (fmt : list Z) (args : list (Z + list Z)) : prog unit :=
  match Printf.printf (arg_string args) fd fmt (arg_words args) [] with
  | Ret _ out => emit out
  | _ => Stuck
  end.

(** [gets(buf, max)]: the characters stored before the NUL; [n] is [max - 1 - i]. *)
Fixpoint gets_loop (n : nat) : prog (list Z) :=
  match n with
  | O => mret []
  | S n' =>
      r ← read 0 1;
      match r with
      | Some (c :: _) =>
          if (c =? 10) || (c =? 13) then mret [c] else
          l ← gets_loop n'; mret (c :: l)
      | _ => mret []
      end
  end.
Definition gets (max : Z) : prog (list Z) := gets_loop (Z.to_nat (max - 1)).

(** [stat] of ulib.c. *)
Definition stat_path (n : list Z) : prog (option stat) :=
  fd ← sys (open n O_RDONLY);
  if fd <? 0 then mret None else
  r ← fstat fd;
  sys (close fd);;
  mret r.

(** ** The programs *)
Abbreviation N := codes (only parsing).

(** [for(i = 1; i < argc; i++)] over the files named by the arguments: [use] of each, opened. *)
Fixpoint each_file (msg : list Z) (use : Z → list Z → prog unit) (files : list (list Z)) : prog unit :=
  match files with
  | [] => mret tt
  | f :: files' =>
      fd ← sys (open f 0);
      if fd <? 0 then printf 1 msg [inr f];; exit else
      use fd f;;
      sys (close fd);;
      each_file msg use files'
  end.

(** *** cat.c *)
Fixpoint cat (n : nat) (fd : Z) : prog unit :=
  match n with
  | O => Stuck
  | S n' =>
      r ← read fd 512;
      match r with
      | Some (c :: bs) =>
          w ← sys (write 1 (c :: bs));
          if negb (w =? Z.of_nat (length (c :: bs))) then printf 1 (N "cat: write error" ++ [10]) [];; exit
          else cat n' fd
      | Some [] => mret tt
      | None => printf 1 (N "cat: read error" ++ [10]) [];; exit
      end
  end.
Definition cat_main (n : nat) (argv : list (list Z)) : prog unit :=
  if (length argv <=? 1)%nat then cat n 0;; exit else
  each_file (N "cat: cannot open %s" ++ [10]) (λ fd _, cat n fd) (tail argv);;
  exit.

(** *** wc.c *)
(** The counters [l], [w], [c] and [inword]. *)
Record wc_state := mkcounts { wc_l : Z; wc_w : Z; wc_c : Z; wc_inword : bool }.
Definition wc_space : list Z := [32; 13; 9; 10; 11].    (* " \r\t\n\v" *)

(** The body of the loop over [buf]. *)
Definition wc_step (k : wc_state) (b : Z) : wc_state :=
  let c' := s32 (wc_c k + 1) in
  let l' := if b =? 10 then s32 (wc_l k + 1) else wc_l k in
  if Sh.strchr wc_space b then mkcounts l' (wc_w k) c' false
  else if negb (wc_inword k) then mkcounts l' (s32 (wc_w k + 1)) c' true
  else mkcounts l' (wc_w k) c' (wc_inword k).

Fixpoint wc_loop (n : nat) (fd : Z) (k : wc_state) : prog wc_state :=
  match n with
  | O => Stuck
  | S n' =>
      r ← read fd 512;
      match r with
      | Some (b :: bs) => wc_loop n' fd (foldl wc_step k (b :: bs))
      | Some [] => mret k
      | None => printf 1 (N "wc: read error" ++ [10]) [];; exit
      end
  end.
Definition wc (n : nat) (fd : Z) (name : list Z) : prog unit :=
  k ← wc_loop n fd (mkcounts 0 0 0 false);
  printf 1 (N "%d %d %d %s" ++ [10]) [inl (wc_l k); inl (wc_w k); inl (wc_c k); inr name].
Definition wc_main (n : nat) (argv : list (list Z)) : prog unit :=
  if (length argv <=? 1)%nat then wc n 0 [];; exit else
  each_file (N "wc: cannot open %s" ++ [10]) (wc n) (tail argv);;
  exit.

(** *** echo.c *)
Fixpoint echo_words (args : list (list Z)) : prog unit :=
  match args with
  | [] => mret tt
  | a :: args' => printf 1 (N "%s%s") [inr a; inr (match args' with [] => [10] | _ => [32] end)];; echo_words args'
  end.
Definition echo_main (argv : list (list Z)) : prog unit := echo_words (tail argv);; exit.

(** *** kill.c *)
Definition kill_main (argv : list (list Z)) : prog unit :=
  if (length argv <? 2)%nat then printf 2 (N "usage: kill pid..." ++ [10]) [];; exit else
  pfor (tail argv) (λ a, sys (kill (Ulib.atoi (a ++ [0])));; mret tt);;
  exit.

(** *** ln.c *)
Definition ln_main (argv : list (list Z)) : prog unit :=
  match argv with
  | [_; old; new] =>
      r ← sys (link old new);
      (if r <? 0 then printf 2 (N "link %s %s: failed" ++ [10]) [inr old; inr new] else mret tt);;
      exit
  | _ => printf 2 (N "Usage: ln old new" ++ [10]) [];; exit
  end.

(** *** mkdir.c and rm.c *)
(** The loop of mkdir.c and rm.c: the first failure ends it. *)
Fixpoint until_failure (call : list Z → scall) (msg : list Z) (files : list (list Z)) : prog unit :=
  match files with
  | [] => mret tt
  | f :: files' =>
      r ← sys (call f);
      if r <? 0 then printf 2 msg [inr f] else until_failure call msg files'
  end.

Definition mkdir_main (argv : list (list Z)) : prog unit :=
  if (length argv <? 2)%nat then printf 2 (N "Usage: mkdir files..." ++ [10]) [];; exit else
  until_failure mkdir (N "mkdir: %s failed to create" ++ [10]) (tail argv);;
  exit.

Definition rm_main (argv : list (list Z)) : prog unit :=
  if (length argv <? 2)%nat then printf 2 (N "Usage: rm files..." ++ [10]) [];; exit else
  until_failure unlink (N "rm: %s failed to delete" ++ [10]) (tail argv);;
  exit.

(** *** ls.c *)
(** [for(p=path+strlen(path); p >= path && *p != '/'; p--)]: what follows the last slash. *)
Fixpoint basename (path : list Z) : list Z :=
  match path with
  | [] => []
  | c :: path' => if bool_decide (47 ∈ path') then basename path' else if c =? 47 then path' else path
  end.
Definition fmtname (path : list Z) : list Z :=
  let p := basename path in
  if DIRSIZ <=? Z.of_nat (length p) then p else p ++ replicate (Z.to_nat DIRSIZ - length p) 32.

Definition print_entry (path : list Z) (st : stat) : prog unit :=
  printf 1 (N "%s %d %d %d" ++ [10])
    [inr (fmtname path); inl (stat_type st); inl (stat_ino st); inl (stat_size st)].

(** [while(read(fd, &de, sizeof(de)) == sizeof(de))]. *)
Fixpoint ls_entries (n : nat) (fd : Z) (path : list Z) : prog unit :=
  match n with
  | O => Stuck
  | S n' =>
      r ← read fd sizeof_dirent;
      match r with
      | Some de =>
          if negb (Z.of_nat (length de) =? sizeof_dirent) then mret tt else
          if de_inum de =? 0 then ls_entries n' fd path else
          let buf := path ++ 47 :: cstring (drop 2 de) in
          st ← stat_path buf;
          match st with
          | None => printf 1 (N "ls: cannot stat %s" ++ [10]) [inr buf]
          | Some st => print_entry buf st
          end;;
          ls_entries n' fd path
      | None => mret tt
      end
  end.

Definition ls (n : nat) (path : list Z) : prog unit :=
  fd ← sys (open path 0);
  if fd <? 0 then printf 2 (N "ls: cannot open %s" ++ [10]) [inr path] else
  st ← fstat fd;
  match st with
  | None => printf 2 (N "ls: cannot stat %s" ++ [10]) [inr path];; sys (close fd);; mret tt
  | Some st =>
      (if stat_type st =? T_FILE then print_entry path st
       else if stat_type st =? T_DIR then
         if 512 <? Z.of_nat (length path) + 1 + DIRSIZ + 1
         then printf 1 (N "ls: path too long" ++ [10]) []
         else ls_entries n fd path
       else mret tt);;
      sys (close fd);; mret tt
  end.
Definition ls_main (n : nat) (argv : list (list Z)) : prog unit :=
  if (length argv <? 2)%nat then ls n (N ".");; exit else
  pfor (tail argv) (ls n);;
  exit.

(** *** grep.c *)
(** grep.c over the matcher of [Grep]: [kept] are the [m] bytes at the front of [buf]. *)
Fixpoint grep (n : nat) (pattern : list Z) (fd : Z) (kept : list Z) : prog unit :=
  match n with
  | O => Stuck
  | S n' =>
      r ← read fd (1024 - Z.of_nat (length kept) - 1);
      match r with
      | Some (c :: bs) =>
          let buf := kept ++ c :: bs in
          let '(out, tl, moved) := Grep.grep_lines (length buf) pattern buf in
          pfor out (λ line, sys (write 1 line);; mret tt);;
          grep n' pattern fd (if moved then tl else [])
      | _ => mret tt
      end
  end.
Definition grep_main (n : nat) (argv : list (list Z)) : prog unit :=
  match argv with
  | _ :: pattern :: files =>
      match files with
      | [] => grep n pattern 0 [];; exit
      | _ => each_file (N "grep: cannot open %s" ++ [10]) (λ fd _, grep n pattern fd []) files;; exit
      end
  | _ => printf 2 (N "usage: grep pattern [file ...]" ++ [10]) [];; exit
  end.

(** *** init.c *)
(** [while((wpid=wait()) >= 0 && wpid != pid)]. *)
Fixpoint init_reap (n : nat) (pid : Z) : prog unit :=
  match n with
  | O => Stuck
  | S n' =>
      wpid ← sys wait;
      if (0 <=? wpid) && negb (wpid =? pid) then printf 1 (N "zombie!" ++ [10]) [];; init_reap n' pid
      else mret tt
  end.
(** [for(;;)], [turns] times. *)
Fixpoint init_serve (turns n : nat) : prog unit :=
  match turns with
  | O => Stuck
  | S turns' =>
      printf 1 (N "init: starting sh" ++ [10]) [];;
      pid ← sys fork;
      if pid <? 0 then printf 1 (N "init: fork failed" ++ [10]) [];; exit
      else if pid =? 0 then
        sys (exec (N "sh") [N "sh"]);;
        printf 1 (N "init: exec sh failed" ++ [10]) [];; exit
      else init_reap n pid;; init_serve turns' n
  end.
Definition init_main (turns n : nat) : prog unit :=
  fd ← sys (open (N "console") O_RDWR);
  (if fd <? 0 then sys (mknod (N "console") 1 1);; sys (open (N "console") O_RDWR);; mret tt else mret tt);;
  sys (dup 0);;
  sys (dup 0);;
  init_serve turns n.

(** *** zombie.c *)
Definition zombie_main : prog unit :=
  r ← sys fork;
  (if 0 <? r then sys (sleep 5);; mret tt else mret tt);;
  exit.

(** ** Programs in a world *)
Class World (W : Type) := {
  w_sys : scall → W → Z * W;
  w_pipe : W → option (Z * Z) * W;
  w_read : Z → Z → W → option (list Z) * W;
  w_fstat : Z → W → option stat * W;
}.

Inductive fate (A : Type) := Returned (a : A) | Exited | Broken.
Arguments Returned {A} a.
Arguments Exited {A}.
Arguments Broken {A}.

Fixpoint run {W A} `{!World W} (m : prog A) (s : W) : fate A * W :=
  match m with
  | Done a => (Returned a, s)
  | Exit => (Exited, s)
  | Stuck => (Broken, s)
  | Sys c k => let '(r, s') := w_sys c s in run (k r) s'
  | Pipe k => let '(r, s') := w_pipe s in run (k r) s'
  | Read fd n k => let '(r, s') := w_read fd n s in run (k r) s'
  | Fstat fd k => let '(r, s') := w_fstat fd s in run (k r) s'
  end.

(** A descriptor [fd] with the bytes [pending] on it, and the output on descriptor 1:
    [read] gives some of the bytes, none only at the end, and [write] takes all. *)
Class Stream (W : Type) `{!World W} (fd : Z) := {
  pending : W → list Z;
  output : W → list Z;
  stream_read s n : 0 < n → ∃ bs s', w_read fd n s = (Some bs, s') ∧ pending s = bs ++ pending s'
    ∧ output s' = output s ∧ Z.of_nat (length bs) <= n ∧ (bs = [] → pending s = []);
  stream_write s bs : ∃ s', w_sys (write 1 bs) s = (Z.of_nat (length bs), s')
    ∧ output s' = output s ++ bs ∧ pending s' = pending s;
}.

Section run.
Context {W : Type} `{!World W}.

Lemma run_bind {A B} (m : prog A) (f : A → prog B) s :
  run (m ≫= f) s = match run m s with
                   | (Returned a, s') => run (f a) s'
                   | (Exited, s') => (Exited, s')
                   | (Broken, s') => (Broken, s')
                   end.
Proof.
  revert s. induction m as [a| | |c k IH|k IH|fd n k IH|fd k IH]; intros s; cbn; try done.
  all: match goal with |- context [let '(_, _) := ?x in _] => destruct x as [r s'] end; apply IH.
Qed.

Context (fd : Z) `{!Stream W fd}.

(** What is printed with [printf] on descriptor 1. *)
Lemma run_emit out s :
  Forall (λ p : Z * Z, p.1 = 1) out → ∃ s', run (emit out) s = (Returned tt, s')
    ∧ output s' = output s ++ out.*2 ∧ pending s' = pending s.
Proof.
  intros H. revert s. induction H as [|[d c] out Hd _ IH]; intros s; cbn in *; [exists s; by rewrite app_nil_r|]. subst d.
  destruct (stream_write s [c]) as (s1 & -> & Hw & Hp). destruct (IH s1) as (s2 & Hr & Hw2 & Hp2).
  exists s2. split; [exact Hr|]. by rewrite Hw2, Hw, Hp2, <-app_assoc.
Qed.

(** [cat] copies the rest of its input to the output. *)
Theorem cat_copies n s :
  (length (pending s) < n)%nat → ∃ s', run (cat n fd) s = (Returned tt, s')
    ∧ output s' = output s ++ pending s ∧ pending s' = [].
Proof.
  revert s. induction n as [|n IH]; intros s Hn; [lia|]. cbn [cat]. rewrite run_bind. cbn [run read].
  destruct (stream_read s 512) as (bs & s1 & -> & Hp & Hw & Hl & He); [lia|]. cbn [run].
  destruct bs as [|c bs].
  - exists s1. rewrite Hw, (He eq_refl), app_nil_r. rewrite He in Hp by done. done.
  - rewrite run_bind. cbn [run sys]. destruct (stream_write s1 (c :: bs)) as (s2 & -> & Hw2 & Hp2). cbn [run].
    rewrite Z.eqb_refl. cbn [negb]. destruct (IH s2) as (s3 & Hr & Hw3 & Hp3).
    { rewrite Hp2. rewrite Hp, length_app in Hn. cbn in Hn. lia. }
    exists s3. split; [exact Hr|]. by rewrite Hw3, Hw2, Hp2, Hw, Hp, <-app_assoc.
Qed.

(** *** wc *)
(** The words of a text: what is left when it is cut at white space. *)
Fixpoint words_from (w t : list Z) : list (list Z) :=
  let cut := match w with [] => [] | _ => [w] end in
  match t with
  | [] => cut
  | c :: t' => if bool_decide (c ∈ wc_space) then cut ++ words_from [] t' else words_from (w ++ [c]) t'
  end.
Definition words : list Z → list (list Z) := words_from [].
Definition lines (t : list Z) : nat := length (filter (.= 10) t).

Lemma s32_add_l a b : s32 (s32 a + b) = s32 (a + b).
Proof. unfold s32. divlia. Qed.
Lemma s32_add_r a b : s32 (a + s32 b) = s32 (a + b).
Proof. unfold s32. divlia. Qed.
Lemma s32_s32 a : s32 (s32 a) = s32 a.
Proof. unfold s32. divlia. Qed.

Lemma space_test c : Sh.strchr wc_space c = bool_decide (c ∈ wc_space).
Proof. apply strchr_in. by repeat constructor. Qed.

(** The loop counts what the definitions above say; it is inside a word when [v], the
    part of it that has been read, is not empty. *)
Lemma step_counts t a b d (v : list Z) :
  ∃ i, foldl wc_step (mkcounts (s32 a) (s32 b) (s32 d) (bool_decide (v ≠ []))) t
    = mkcounts (s32 (a + Z.of_nat (lines t))) (s32 (b + Z.of_nat (length (words_from v t)) - Z.of_nat (length (words_from v []))))
        (s32 (d + Z.of_nat (length t))) i.
Proof.
  revert a b d v. induction t as [|x t IH]; intros a b d v.
  - eexists. cbn [foldl length]. change (lines []) with 0%nat. f_equal; f_equal; lia.
  - cbn [foldl]. unfold wc_step at 2. cbn [wc_c wc_l wc_w wc_inword]. rewrite space_test, !s32_add_l.
    assert ((if x =? 10 then s32 (a + 1) else s32 a) = s32 (a + (Z.of_nat (lines (x :: t)) - Z.of_nat (lines t)))) as ->.
    { unfold lines. rewrite filter_cons. destruct (Z.eqb_spec x 10); case_decide; try done; cbn [length]; f_equal; lia. }
    assert (∀ z, s32 (z + Z.of_nat (length (x :: t))) = s32 (z + 1 + Z.of_nat (length t))) as Hc.
    { intros z. f_equal. cbn [length]. lia. }
    rewrite Hc. cbn [words_from]. case_bool_decide as Hs.
    + destruct (IH (a + (Z.of_nat (lines (x :: t)) - Z.of_nat (lines t))) b (d + 1) []) as [i E]. exists i.
      change false with (bool_decide (@nil Z ≠ [])). rewrite E. f_equal; f_equal; [lia|].
      rewrite length_app. cbn [words_from length]. lia.
    + assert (∀ v, length (words_from (v ++ [x]) []) = 1%nat) as H1 by (intros [|??]; done).
      assert (bool_decide (v ++ [x] ≠ []) = true) as Hv by (apply bool_decide_eq_true_2; by destruct v).
      destruct (decide (v = [])) as [->|Hne].
      * destruct (IH (a + (Z.of_nat (lines (x :: t)) - Z.of_nat (lines t))) (b + 1) (d + 1) ([] ++ [x])) as [i E]. exists i.
        rewrite Hv in E. cbn [bool_decide]. rewrite (bool_decide_eq_false_2 ([] ≠ [])) by (intros H; by apply H).
        cbn [negb]. rewrite E. f_equal; f_equal; [lia|]. rewrite (H1 []). cbn [words_from length app]. lia.
      * destruct (IH (a + (Z.of_nat (lines (x :: t)) - Z.of_nat (lines t))) b (d + 1) (v ++ [x])) as [i E]. exists i.
        rewrite Hv in E. rewrite (bool_decide_eq_true_2 (v ≠ [])) by done. cbn [negb]. rewrite E.
        f_equal; f_equal; [lia|]. rewrite (H1 v). destruct v; [done|]. cbn [words_from length]. lia.
Qed.

Lemma run_wc_loop n s k :
  (length (pending s) < n)%nat → ∃ s', run (wc_loop n fd k) s = (Returned (foldl wc_step k (pending s)), s')
    ∧ output s' = output s ∧ pending s' = [].
Proof.
  revert s k. induction n as [|n IH]; intros s k Hn; [lia|]. cbn [wc_loop]. rewrite run_bind. cbn [run read].
  destruct (stream_read s 512) as (bs & s1 & -> & Hp & Hw & Hl & He); [lia|]. cbn [run].
  destruct bs as [|c bs].
  - exists s1. rewrite (He eq_refl) in *. by split_and!.
  - destruct (IH s1 (foldl wc_step k (c :: bs))) as (s2 & Hr & Hw2 & Hp2).
    { rewrite Hp, length_app in Hn. cbn in Hn. lia. }
    exists s2. rewrite Hr, Hp, foldl_app, Hw2. by split_and!.
Qed.

Lemma lines_le t : (lines t <= length t)%nat.
Proof. apply length_filter. Qed.
Lemma words_le v t : (length (words_from v t) <= length v + length t)%nat.
Proof.
  revert v. induction t as [|c t IH]; intros v; cbn [words_from]; [destruct v; cbn; lia|].
  case_bool_decide; [|specialize (IH (v ++ [c])); rewrite length_app in IH; cbn in *; lia].
  rewrite length_app. specialize (IH []). destruct v; cbn in *; lia.
Qed.

(** The text of a number that is not negative. *)
Definition number (text : list Z) (z : Z) : Prop :=
  Forall (λ c, 48 <= c <= 57) text ∧ text ≠ [] ∧ Ulib.atoi (text ++ [0]) = z.

Lemma printint_number out z :
  0 <= z < 2 ^ 31 → ∃ text, Printf.printint 1 z 10 true out = Ret tt (out ++ (pair 1 <$> text)) ∧ number text z.
Proof.
  intros Hz. destruct (printint_text 1 z out) as (text & E & Hl & Hd & Ha); [unfold is_s32; lia|].
  rewrite (proj2 (Z.ltb_ge z 0)) in E by lia. exists text. split; [exact E|]. split_and!; [done|by destruct text; cbn in *; [lia|]|].
  rewrite Ha, Z.abs_eq, s32_id; unfold is_s32; lia.
Qed.

(** [printf] one character or conversion at a time, from the text printed before. *)
Section formats.
Context (sa : Z → list Z) (fd0 : Z).

Lemma printf_char c fmt ap out :
  0 < c < 2 ^ 8 → c ≠ 37 →
  Printf.printf_loop sa fd0 (c :: fmt) false ap out = Printf.printf_loop sa fd0 fmt false ap (out ++ (pair fd0 <$> [c])).
Proof.
  intros H1 H2. cbn [Printf.printf_loop]. rewrite (proj2 (Z.eqb_neq c 0)), (proj2 (Z.eqb_neq c 37)) by lia. cbn [negb].
  unfold Printf.putc. rewrite bind_modify, Z.mod_small by lia. done.
Qed.
Lemma printf_d a fmt ap out text :
  Printf.printint fd0 (s32 a) 10 true out = Ret tt (out ++ (pair fd0 <$> text)) →
  Printf.printf_loop sa fd0 (37 :: 100 :: fmt) false (a :: ap) out
  = Printf.printf_loop sa fd0 fmt false ap (out ++ (pair fd0 <$> text)).
Proof. intros E. cbn [Printf.printf_loop Z.eqb Pos.eqb negb deref head tail]. by rewrite bind_mret, (bind_ret _ _ _ _ _ E). Qed.
Lemma printf_s a fmt ap out :
  a ≠ 0 → Forall (λ c, 0 <= c < 2 ^ 8) (sa a) →
  Printf.printf_loop sa fd0 (37 :: 115 :: fmt) false (a :: ap) out
  = Printf.printf_loop sa fd0 fmt false ap (out ++ (pair fd0 <$> sa a)).
Proof.
  intros Ha Hs. cbn [Printf.printf_loop Z.eqb Pos.eqb negb deref head tail orb].
  rewrite bind_mret, (proj2 (Z.eqb_neq a 0)) by done. by rewrite (bind_ret _ _ _ _ _ (put_chars _ _ _ Hs)).
Qed.
End formats.

Lemma print_counts l w c name :
  0 <= l < 2 ^ 31 → 0 <= w < 2 ^ 31 → 0 <= c < 2 ^ 31 → Forall (λ c, 0 <= c < 2 ^ 8) name →
  ∃ tl tw tc, printf 1 (codes "%d %d %d %s" ++ [10]) [inl l; inl w; inl c; inr name]
      = emit (pair 1 <$> tl ++ [32] ++ tw ++ [32] ++ tc ++ [32] ++ name ++ [10])
    ∧ number tl l ∧ number tw w ∧ number tc c.
Proof.
  intros Hl Hw Hc Hn.
  destruct (printint_number [] l Hl) as (tl & El & Nl).
  destruct (printint_number (pair 1 <$> tl ++ [32]) w Hw) as (tw & Ew & Nw).
  destruct (printint_number (pair 1 <$> tl ++ [32] ++ tw ++ [32]) c Hc) as (tc & Ec & Nc).
  exists tl, tw, tc. split; [|done]. unfold printf. set (args := [inl l; inl w; inl c; inr name]).
  change (arg_words args) with [l; w; c; 4].
  change (codes "%d %d %d %s" ++ [10]) with [37; 100; 32; 37; 100; 32; 37; 100; 32; 37; 115; 10].
  assert (∀ z, 0 <= z < 2 ^ 31 → s32 z = z) as Hs by (intros; apply s32_id; unfold is_s32; lia).
  unfold Printf.printf.
  rewrite (printf_d _ _ l _ _ _ tl), printf_char, app_nil_l, <-fmap_app by (done || by rewrite Hs).
  rewrite (printf_d _ _ w _ _ _ tw), printf_char, <-!fmap_app, <-!app_assoc by (done || by rewrite Hs).
  rewrite (printf_d _ _ c _ _ _ tc), printf_char, <-!fmap_app, <-!app_assoc by (done || by rewrite Hs).
  rewrite printf_s, printf_char, <-!fmap_app, <-!app_assoc by done. done.
Qed.

(** C40: [wc] prints the number of lines, words and characters of its input, and the name.  The
    words are what is left of the text when it is cut at white space, and a word that
    two reads give in parts is one word; the numbers, read back, are the counts. *)
Theorem wc_counts n s name :
  (length (pending s) < n)%nat → Z.of_nat (length (pending s)) < 2 ^ 31 → Forall (λ c, 0 <= c < 2 ^ 8) name →
  ∃ s' tl tw tc, run (wc n fd name) s = (Returned tt, s')
    ∧ output s' = output s ++ tl ++ [32] ++ tw ++ [32] ++ tc ++ [32] ++ name ++ [10]
    ∧ number tl (Z.of_nat (lines (pending s))) ∧ number tw (Z.of_nat (length (words (pending s))))
    ∧ number tc (Z.of_nat (length (pending s))) ∧ pending s' = [].
Proof.
  intros Hn Hb Hname. set (t := pending s) in *.
  destruct (run_wc_loop n s (mkcounts 0 0 0 false) Hn) as (s1 & E & Ho & Hp).
  destruct (step_counts t 0 0 0 []) as [i Ec]. rewrite bool_decide_eq_false_2 in Ec by (intros H; by apply H).
  change (s32 0) with 0 in Ec.
  pose proof (lines_le t). pose proof (words_le [] t) as Hw. cbn [length] in Hw.
  destruct (print_counts (Z.of_nat (lines t)) (Z.of_nat (length (words t))) (Z.of_nat (length t)) name)
    as (tl & tw & tc & Ep & N1 & N2 & N3); [lia|unfold words; lia|lia|done|].
  destruct (run_emit (pair 1 <$> tl ++ [32] ++ tw ++ [32] ++ tc ++ [32] ++ name ++ [10]) s1) as (s2 & Er & Ho2 & Hp2).
  { apply Forall_fmap, Forall_true. done. }
  exists s2, tl, tw, tc. rewrite Hp2, Ho2, Ho, <-list_fmap_compose. split_and!; try done; [|by rewrite list_fmap_id].
  unfold wc. rewrite run_bind, E. fold t. rewrite Ec. cbn [wc_l wc_w wc_c].
  cbn [length words_from]. rewrite Z.sub_0_r, !Z.add_0_l, !s32_id by (unfold is_s32, words in *; lia).
  fold (words t). by rewrite Ep.
Qed.

(** [grep] on a stream is the loop of [Grep] on what the reads give. *)
Lemma grep_lines_tail fuel pattern buf out tl moved :
  Grep.grep_lines fuel pattern buf = (out, tl, moved) →
  (length tl + (if moved then 1 else 0) <= length buf)%nat.
Proof.
  assert (∀ buf l rest, Grep.next_line buf = Some (l, rest) → (length rest < length buf)%nat) as Hnl.
  { intros b. induction b as [|c b IH]; intros l rest; cbn; [done|]. destruct (c =? 0); [done|].
    destruct (c =? 10); [intros [= <- <-]; lia|]. destruct (Grep.next_line b) as [[l' r']|]; [|done].
    intros [= <- <-]. specialize (IH _ _ eq_refl). lia. }
  revert buf out tl moved. induction fuel as [|fuel IH]; intros buf out tl moved; cbn [Grep.grep_lines]; [intros [= <- <- <-]; lia|].
  destruct (Grep.next_line buf) as [[l rest]|] eqn:E; [|intros [= <- <- <-]; lia]. apply Hnl in E.
  destruct (Grep.grep_lines fuel pattern rest) as [[out' tl'] moved'] eqn:Er. intros [= <- <- <-].
  apply IH in Er. destruct moved'; lia.
Qed.

Lemma run_lines (out : list Grep.text) s :
  ∃ s', run (pfor out (λ line, sys (write 1 line);; mret tt)) s = (Returned tt, s')
    ∧ output s' = output s ++ concat out ∧ pending s' = pending s.
Proof.
  revert s. induction out as [|l out IH]; intros s; [exists s; cbn; by rewrite app_nil_r|].
  cbn [pfor]. rewrite run_bind. cbn [run sys mbind prog_bind]. destruct (stream_write s l) as (s1 & -> & Ho & Hp).
  destruct (IH s1) as (s2 & Hr & Ho2 & Hp2). exists s2. split; [exact Hr|]. rewrite Ho2, Ho, Hp2. cbn [concat].
  by rewrite app_assoc.
Qed.

Theorem grep_runs n pattern kept s :
  (length (pending s) < n)%nat → (length kept < 1023)%nat →
  ∃ reads s', run (grep n pattern fd kept) s = (Returned tt, s') ∧ concat reads = pending s
    ∧ output s' = output s ++ concat (Grep.grep pattern reads kept) ∧ pending s' = [].
Proof.
  revert kept s. induction n as [|n IH]; intros kept s Hn Hk; [lia|]. cbn [grep]. rewrite run_bind. cbn [run read].
  destruct (stream_read s (1024 - Z.of_nat (length kept) - 1)) as (bs & s1 & -> & Hp & Hw & Hl & He); [lia|]. cbn [run].
  destruct bs as [|c bs].
  { exists [], s1. rewrite (He eq_refl) in *. cbn [concat Grep.grep]. rewrite app_nil_r. by split_and!. }
  destruct (Grep.grep_lines (length (kept ++ c :: bs)) pattern (kept ++ c :: bs)) as [[out tl] moved] eqn:Eg.
  pose proof (grep_lines_tail _ _ _ _ _ _ Eg) as Ht. rewrite length_app in Ht. cbn [length] in Ht, Hl.
  rewrite run_bind. destruct (run_lines out s1) as (s2 & -> & Ho & Hp2).
  destruct (IH (if moved then tl else []) s2) as (reads & s3 & Er & Ec & Ho3 & Hp3).
  { rewrite Hp2. rewrite Hp, length_app in Hn. cbn in Hn. lia. }
  { destruct moved; cbn; lia. }
  exists ((c :: bs) :: reads), s3. rewrite Er. cbn [concat Grep.grep]. rewrite Eg, Ec, Ho3, Ho, Hw, Hp, Hp2.
  split_and!; try done. by rewrite concat_app, app_assoc.
Qed.
End run.

(** *** A world: a terminal that gives at most three bytes at a time *)
Record terminal := mkterminal { t_in : list Z; t_out : list Z }.
#[export] Instance terminal_world : World terminal := {|
  w_sys c s := match c with
               | write 1 bs => (Z.of_nat (length bs), mkterminal (t_in s) (t_out s ++ bs))
               | _ => (-1, s)
               end;
  w_pipe s := (None, s);
  w_read _ n s := let k := Nat.min (Z.to_nat n) 3 in
    (Some (take k (t_in s)), mkterminal (drop k (t_in s)) (t_out s));
  w_fstat _ s := (None, s);
|}.
Lemma terminal_read (s : terminal) n :
  0 < n → ∃ bs s', w_read 0 n s = (Some bs, s') ∧ t_in s = bs ++ t_in s' ∧ t_out s' = t_out s
    ∧ Z.of_nat (length bs) <= n ∧ (bs = [] → t_in s = []).
Proof.
  intros Hn. eexists _, _. split; [reflexivity|]. cbn [t_in t_out]. split_and!; [by rewrite take_drop|done| |].
  - rewrite length_take. lia.
  - destruct (Nat.min (Z.to_nat n) 3) eqn:E; [lia|]. by destruct (t_in s).
Qed.
Lemma terminal_write (s : terminal) bs :
  ∃ s', w_sys (write 1 bs) s = (Z.of_nat (length bs), s') ∧ t_out s' = t_out s ++ bs ∧ t_in s' = t_in s.
Proof. eexists. by split_and!. Qed.
#[export] Instance terminal_stream : Stream terminal 0 := {|
  pending := t_in; output := t_out; stream_read := terminal_read; stream_write := terminal_write
|}.

Definition sentence : list Z := codes "a bc" ++ [10] ++ codes "def g" ++ [10].

Lemma cat_copies_witness :
  ∃ s', run (cat 20 0) (mkterminal sentence []) = (Returned tt, s') ∧ t_out s' = [] ++ sentence ∧ t_in s' = [].
Proof. apply (cat_copies 0 (Stream0 := terminal_stream) 20 (mkterminal sentence [])). vm_compute. lia. Defined.

Lemma wc_counts_witness :
  ∃ s' tl tw tc, run (wc 20 0 (codes "f")) (mkterminal sentence []) = (Returned tt, s')
    ∧ t_out s' = [] ++ tl ++ [32] ++ tw ++ [32] ++ tc ++ [32] ++ codes "f" ++ [10]
    ∧ number tl 2 ∧ number tw 4 ∧ number tc 11 ∧ t_in s' = [].
Proof.
  apply (wc_counts 0 (Stream0 := terminal_stream) 20 (mkterminal sentence []) (codes "f")); [vm_compute; lia|by vm_compute|].
  repeat constructor; lia.
Defined.
