(* ===== verification/ShRun.v ===== *)
(** * Running commands (sh.c)

    [runcmd] works on the commands the parser has left in memory.  What it does is a tree of
    processes: [behave] plays a program on a table of descriptors, where [close], [dup] and
    the descriptors that [open] and [pipe] give are computed (the lowest free one, as in
    [fdalloc]), and keeps the calls whose answer is up to the rest of the system: which
    [open] or [pipe] succeeds, the name of a pipe, what [fork] and [wait] return.  The
    specification [meaning] is on the trees of [ShSpec]: how a command is wired up, without
    pointers, descriptors in passing or calls of [close]. *)
From S2P Require Import Prelude Params Str Ulib Sysfile Umalloc UmallocThms Sh ShSpec ShThms ShParse User.

(** ** The program *)
Module Run.
Abbreviation N := codes (only parsing).

(** The characters at an address, up to the NUL; at most [fuel]. *)
Fixpoint string_at (fuel : nat) (m : mem) (q : Z) : list Z :=
  match fuel with
  | O => []
  | S fuel' => if m q =? 0 then [] else m q :: string_at fuel' m (q + 1)
  end.

Definition panic {A} (s : list Z) : prog A := printf 2 (N "%s" ++ [10]) [inr s];; exit.
Definition fork1 : prog Z := pid ← sys fork; if pid =? -1 then panic (N "fork") else mret pid.

Section runcmd.
(** The memory and the commands; no string has more than [len] characters. *)
Context (len : nat) (m : mem) (cmds : gmap Z Sh.cmd).

(** The strings of [argv], up to the null pointer. *)
Fixpoint strings_of (argv : list Z) : list (list Z) :=
  match argv with
  | [] => []
  | q :: argv' => if q =? 0 then [] else string_at len m q :: strings_of argv'
  end.

(** [if(fork1() == 0) child]. *)
Definition in_child (child : prog unit) : prog unit :=
  pid ← fork1; if pid =? 0 then child else mret tt.

Fixpoint runcmd (fuel : nat) (p : Z) : prog unit :=
  match fuel with
  | O => Stuck
  | S fuel' =>
      if p =? 0 then exit else
      match cmds !! p with
      | None => Stuck
      | Some (Sh.EXEC argv _) =>
          match argv with
          | [] => Stuck
          | q :: _ =>
              if q =? 0 then exit else
              sys (exec (string_at len m q) (strings_of argv));;
              printf 2 (N "exec %s failed" ++ [10]) [inr (string_at len m q)];;
              exit
          end
      | Some (Sh.REDIR sub file _ mode fd) =>
          sys (close fd);;
          r ← sys (open (string_at len m file) mode);
          if r <? 0 then printf 2 (N "open %s failed" ++ [10]) [inr (string_at len m file)];; exit else
          runcmd fuel' sub;;
          exit
      | Some (Sh.LIST lcmd rcmd) =>
          in_child (runcmd fuel' lcmd);;
          sys wait;;
          runcmd fuel' rcmd;;
          exit
      | Some (Sh.PIPE lcmd rcmd) =>
          r ← pipe;
          match r with
          | None => panic (N "pipe")
          | Some (p0, p1) =>
              in_child (sys (close 1);; sys (dup p1);; sys (close p0);; sys (close p1);; runcmd fuel' lcmd);;
              in_child (sys (close 0);; sys (dup p0);; sys (close p0);; sys (close p1);; runcmd fuel' rcmd);;
              sys (close p0);;
              sys (close p1);;
              sys wait;;
              sys wait;;
              exit
          end
      | Some (Sh.BACK sub) =>
          in_child (runcmd fuel' sub);;
          exit
      end
  end.
End runcmd.

(** [getcmd(buf, nbuf)]: [buf], or [None] for -1. *)
Definition getcmd (nbuf : nat) : prog (option (list Z)) :=
  printf 2 (N "$ ") [];;
  l ← gets (Z.of_nat nbuf);
  let buf := l ++ replicate (nbuf - length l) 0 in
  mret (if default 0 (head buf) =? 0 then None else Some buf).

(** The loop that opens the console. *)
Fixpoint open_console (n : nat) : prog unit :=
  match n with
  | O => Stuck
  | S n' =>
      fd ← sys (open (N "console") O_RDWR);
      if fd <? 0 then mret tt else
      if 3 <=? fd then sys (close fd);; mret tt else open_console n'
  end.

Section main.
(** The heap of the shell before it parses, the address of [buf], and the memory outside
    it. *)
Context {A : Type} `{!Allocator A} (h : A) (line : Z) (m : mem).
Definition nbuf : nat := 100.

Definition with_line (buf : list Z) : mem :=
  λ a, if (line <=? a) && (a <? line + Z.of_nat (length buf)) then default 0 (buf !! Z.to_nat (a - line)) else m a.

(** What [parsecmd] prints before it panics: "leftovers: %s\n". *)
Definition leftovers (n : nat) (s : Z) (st : Sh.shell A) : prog unit :=
  let mem := Sh.sh_mem st in
  let es := s + default 0 (Ulib.strlen n mem s) in
  match Sh.parser (4 * n + 4) Sh.Line s es st with
  | Ret (_, s') _ =>
      let '(_, s') := Sh.peek mem s' es [] in
      if s' =? es then mret tt else printf 2 (N "leftovers: %s" ++ [10]) [inr (string_at n mem s')]
  | _ => mret tt
  end.

(** [runcmd(parsecmd(buf))], in the child. *)
Definition run_line (buf : list Z) : prog unit :=
  let st := Sh.mkshell (with_line buf) ∅ h in
  match Sh.parsecmd nbuf line st with
  | Ret p st' => runcmd nbuf (Sh.sh_mem st') (Sh.sh_cmds st') (4 * nbuf + 4) p
  | Panic msg => leftovers nbuf line st;; panic (N msg)
  | _ => Stuck
  end.

(** The body of the loop. *)
Definition turn (buf : list Z) : prog unit :=
  if (default 0 (buf !! 0%nat) =? 99) && (default 0 (buf !! 1%nat) =? 100) && (default 0 (buf !! 2%nat) =? 32) then
    let dir := cstring (drop 3 (<[(length (cstring buf) - 1)%nat := 0]> buf)) in
    r ← sys (chdir dir);
    if r <? 0 then printf 2 (N "cannot cd %s" ++ [10]) [inr dir] else mret tt
  else
    in_child (run_line buf);;
    sys wait;;
    mret tt.

Fixpoint main_loop (turns : nat) : prog unit :=
  match turns with
  | O => Stuck
  | S turns' =>
      r ← getcmd nbuf;
      match r with
      | None => exit
      | Some buf => turn buf;; main_loop turns'
      end
  end.
Definition main (turns : nat) : prog unit := open_console 4;; main_loop turns.
End main.
End Run.

(** ** Processes *)
(** What a descriptor stands for. *)
Inductive file := Named (f : word) (mode : Z) | RdEnd (id : Z) | WrEnd (id : Z) | Other (i : Z).
Abbreviation table := (list (option file)).

(** The lowest free descriptor. *)
Fixpoint lowest (tb : table) : option nat :=
  match tb with [] => None | None :: _ => Some O | Some _ :: tb' => S <$> lowest tb' end.
Definition desc (tb : table) (fd : Z) : option file :=
  if fd <? 0 then None else default None (tb !! Z.to_nat fd).

(** The open choices of a process: [BOpen] and [BPipe] with what follows success and failure,
    [BExec] with what follows failure, [BFork] with the child and the parent by the answer. *)
Inductive beh :=
| BExit
| BStuck
| BExec (path : word) (argv : list word) (tb : table) (fails : Z → beh)
| BFork (child : beh) (parent : Z → beh)
| BWait (k : Z → beh)
| BOpen (f : word) (mode : Z) (ok fails : beh)
| BPipe (ok : Z → beh) (fails : beh)
| BWrite (f : option file) (bs : list Z) (k : Z → beh)
| BRead (f : option file) (n : Z) (k : option (list Z) → beh)
| BFstat (f : option file) (k : option Fs.stat → beh)
| BCall (c : scall) (k : Z → beh).

(** A program on a table; [ret] is what follows its return. *)
Section behave.
Context {A : Type} (ret : A → table → beh).

Fixpoint behave (m : prog A) (tb : table) : beh :=
  match m with
  | Done a => ret a tb
  | Exit => BExit
  | Stuck => BStuck
  | Sys c k =>
      match c with
      | open f mode =>
          let fails := behave (k (-1)) tb in
          match lowest tb with
          | Some i => BOpen f mode (behave (k (Z.of_nat i)) (<[i := Some (Named f mode)]> tb)) fails
          | None => BOpen f mode fails fails
          end
      | close fd =>
          match desc tb fd with
          | Some _ => behave (k 0) (<[Z.to_nat fd := None]> tb)
          | None => behave (k (-1)) tb
          end
      | dup fd =>
          match desc tb fd, lowest tb with
          | Some f, Some i => behave (k (Z.of_nat i)) (<[i := Some f]> tb)
          | _, _ => behave (k (-1)) tb
          end
      | write fd bs => BWrite (desc tb fd) bs (λ r, behave (k r) tb)
      | fork => BFork (behave (k 0) tb) (λ pid, behave (k pid) tb)
      | wait => BWait (λ r, behave (k r) tb)
      | exec path argv => BExec path argv tb (λ r, behave (k r) tb)
      | c => BCall c (λ r, behave (k r) tb)
      end
  | Pipe k =>
      let fails := behave (k None) tb in
      match lowest tb with
      | Some i =>
          match lowest (<[i := Some (Other 0)]> tb) with
          | Some j => BPipe (λ id, behave (k (Some (Z.of_nat i, Z.of_nat j)))
                               (<[j := Some (WrEnd id)]> (<[i := Some (RdEnd id)]> tb))) fails
          | None => BPipe (λ _, fails) fails
          end
      | None => BPipe (λ _, fails) fails
      end
  | Read fd n k => BRead (desc tb fd) n (λ r, behave (k r) tb)
  | Fstat fd k => BFstat (desc tb fd) (λ r, behave (k r) tb)
  end.
End behave.

(** ** The meaning of a command *)
(** A text on descriptor 2, one byte at a time. *)
Definition say (tb : table) (text : list Z) (b : beh) : beh :=
  foldr (λ c b, BWrite (desc tb 2) [c mod 2 ^ 8] (λ _, b)) b text.
Definition forks (tb : table) (child parent : beh) : beh :=
  BFork child (λ pid, if pid =? -1 then say tb (codes "fork" ++ [10]) BExit else parent).

Fixpoint meaning (t : tree) (tb : table) : beh :=
  match t with
  | TExec [] => BExit
  | TExec (w :: ws) => BExec w (w :: ws) tb (λ _, say tb (codes "exec " ++ w ++ codes " failed" ++ [10]) BExit)
  | TRedir t f inp =>
      let '(mode, fd) := redir_mode inp in
      BOpen f mode (meaning t (<[Z.to_nat fd := Some (Named f mode)]> tb))
        (say tb (codes "open " ++ f ++ codes " failed" ++ [10]) BExit)
  | TList l r => forks tb (meaning l tb) (BWait (λ _, meaning r tb))
  | TPipe l r =>
      BPipe (λ id,
        forks tb (meaning l (<[1%nat := Some (WrEnd id)]> tb))
          (forks tb (meaning r (<[0%nat := Some (RdEnd id)]> tb))
            (BWait (λ _, BWait (λ _, BExit)))))
        (say tb (codes "pipe" ++ [10]) BExit)
  | TBack t => forks tb (meaning t tb) BExit
  end.

(** ** Processes that behave alike *)
(** The answers a caller can get: [fork] does not give the parent 0. *)
Fixpoint beq (b b' : beh) : Prop :=
  match b, b' with
  | BExit, BExit | BStuck, BStuck => True
  | BExec p a tb k, BExec p' a' tb' k' => p = p' ∧ a = a' ∧ tb = tb' ∧ ∀ r, beq (k r) (k' r)
  | BFork c k, BFork c' k' => beq c c' ∧ ∀ pid, pid ≠ 0 → beq (k pid) (k' pid)
  | BWait k, BWait k' => ∀ r, beq (k r) (k' r)
  | BOpen f m o e, BOpen f' m' o' e' => f = f' ∧ m = m' ∧ beq o o' ∧ beq e e'
  | BPipe o e, BPipe o' e' => (∀ id, beq (o id) (o' id)) ∧ beq e e'
  | BWrite f bs k, BWrite f' bs' k' => f = f' ∧ bs = bs' ∧ ∀ r, beq (k r) (k' r)
  | BRead f n k, BRead f' n' k' => f = f' ∧ n = n' ∧ ∀ r, beq (k r) (k' r)
  | BFstat f k, BFstat f' k' => f = f' ∧ ∀ r, beq (k r) (k' r)
  | BCall c k, BCall c' k' => c = c' ∧ ∀ r, beq (k r) (k' r)
  | _, _ => False
  end.
#[export] Instance beh_equiv : Equiv beh := beq.

#[export] Instance beh_equivalence : Equivalence (≡@{beh}).
Proof.
  split; unfold equiv, beh_equiv.
  - intros b. induction b; cbn; auto.
  - intros b. induction b; intros [] Ha; cbn in *; try done; destruct_and?; subst; split_and?; auto; naive_solver.
  - intros b. induction b; intros [] [] Ha Hb; cbn in *; try done; destruct_and?; subst; split_and?; eauto; naive_solver.
Qed.

(** Congruence, one lemma for each choice. *)
Lemma beq_exec p a tb k k' : (∀ r, k r ≡ k' r) → BExec p a tb k ≡ BExec p a tb k'.
Proof. intros H. exact (conj eq_refl (conj eq_refl (conj eq_refl H))). Qed.
Lemma beq_fork c c' k k' : c ≡ c' → (∀ pid, pid ≠ 0 → k pid ≡ k' pid) → BFork c k ≡ BFork c' k'.
Proof. by split. Qed.
Lemma beq_wait k k' : (∀ r, k r ≡ k' r) → BWait k ≡ BWait k'.
Proof. done. Qed.
Lemma beq_open f m o o' e e' : o ≡ o' → e ≡ e' → BOpen f m o e ≡ BOpen f m o' e'.
Proof. intros H1 H2. exact (conj eq_refl (conj eq_refl (conj H1 H2))). Qed.
Lemma beq_pipe o o' e e' : (∀ id, o id ≡ o' id) → e ≡ e' → BPipe o e ≡ BPipe o' e'.
Proof. by split. Qed.
Lemma beq_call c k k' : (∀ r, k r ≡ k' r) → BCall c k ≡ BCall c k'.
Proof. by split. Qed.
#[global] Typeclasses Opaque beh_equiv.

Lemma beq_bind {A B} (m : prog A) (f : A → prog B) ret tb :
  behave ret (m ≫= f) tb ≡ behave (λ a tb', behave ret (f a) tb') m tb.
Proof.
  revert tb. induction m as [a| | |c k IH|k IH|fd n k IH|fd k IH]; intros tb; try done.
  - destruct c; cbn; repeat case_match; cbn; split_and?; intros; try done; apply IH.
  - cbn. repeat case_match; cbn; split_and?; intros; apply IH.
  - cbn. split_and!; intros; try done; apply IH.
  - cbn. split_and!; intros; try done; apply IH.
Qed.

(** *** Messages *)
Lemma put_mod fd l out : mfor l (Printf.putc fd) out = Ret tt (out ++ ((λ c, (fd, c mod 2 ^ 8)) <$> l)).
Proof.
  revert out. induction l as [|c l IH]; intros out; cbn [mfor]; [by rewrite app_nil_r|].
  rewrite (bind_ret _ _ _ tt (out ++ [(fd, c mod 2 ^ 8)])) by done. rewrite IH. by rewrite <-app_assoc.
Qed.

Lemma behave_emit {B} ret (f : prog B) tb text :
  behave ret (emit ((λ c, (2, c mod 2 ^ 8)) <$> text);; f) tb ≡ say tb text (behave ret f tb).
Proof.
  induction text as [|c text IH]; [done|]. cbn. split_and!; [done|done|]. intros _. exact IH.
Qed.
Lemma behave_text ret tb text :
  behave ret (emit ((λ c, (2, c mod 2 ^ 8)) <$> text)) tb ≡ say tb text (ret tt tb).
Proof.
  induction text as [|c text IH]; [done|]. cbn. split_and!; [done|done|]. intros _. exact IH.
Qed.

(** Characters that [printf] copies. *)
Definition copied (text : list Z) : bool := forallb (λ c, (0 <? c) && (c <? 2 ^ 8) && negb (c =? 37)) text.

Lemma printf_plain sa fd text fmt ap out :
  copied text = true →
  Printf.printf_loop sa fd (text ++ fmt) false ap out
  = Printf.printf_loop sa fd fmt false ap (out ++ ((λ c, (fd, c mod 2 ^ 8)) <$> text)).
Proof.
  revert out. induction text as [|c text IH]; intros out H; [by rewrite app_nil_r|].
  cbn [copied forallb] in H. apply andb_true_iff in H as [Hc H]. rewrite !andb_true_iff, negb_true_iff in Hc. 
  change ((c :: text) ++ fmt) with (c :: (text ++ fmt)). rewrite printf_char by lia. rewrite IH by done.
  rewrite fmap_cons, <-app_assoc. cbn. by rewrite Z.mod_small by lia.
Qed.

Lemma printf_message pre post w :
  copied pre = true → copied post = true →
  printf 2 (pre ++ 37 :: 115 :: post) [inr w] = emit ((λ c, (2, c mod 2 ^ 8)) <$> pre ++ w ++ post).
Proof.
  intros H1 H2. unfold printf, Printf.printf. change (arg_words [inr w]) with [1].
  rewrite printf_plain by done. cbn [Printf.printf_loop Z.eqb Pos.eqb negb orb deref head tail app]. rewrite bind_mret.
  cbn [Z.eqb]. rewrite (bind_ret _ _ _ _ _ (put_mod _ _ _)). rewrite <-(app_nil_r post), printf_plain by done.
  cbn [Printf.printf_loop mret M_ret]. change (arg_string [inr w] 1) with w. rewrite !fmap_app, app_nil_r.
  by rewrite <-!app_assoc.
Qed.

(** A message and the end of the process. *)
Lemma behave_message {B} (ret : B → table → beh) (b : prog B) pre post w tb :
  copied pre = true → copied post = true →
  behave ret (printf 2 (pre ++ 37 :: 115 :: post) [inr w];; b) tb ≡ say tb (pre ++ w ++ post) (behave ret b tb).
Proof. intros. rewrite printf_message by done. apply behave_emit. Qed.

Lemma behave_panic {B} (ret : B → table → beh) msg tb :
  behave ret (Run.panic msg) tb ≡ say tb (msg ++ [10]) BExit.
Proof. exact (behave_message ret exit [] [10] msg tb eq_refl eq_refl). Qed.

(** [say] sees only descriptor 2. *)
Lemma say_desc tb tb' text b : tb !! 2%nat = tb' !! 2%nat → say tb text b = say tb' text b.
Proof. intros H. unfold say, desc. cbn [Z.ltb Z.compare]. change (Z.to_nat 2) with 2%nat. by rewrite H. Qed.

(** ** Strings in memory *)
Lemma string_at_cstr len m q w : cstr m q w → (length w < len)%nat → Run.string_at len m q = w.
Proof.
  revert q len. induction w as [|c w IH]; intros q len [H1 H2] Hl; (destruct len as [|len]; [cbn in Hl; lia|]); cbn.
  - cbn in H2. rewrite Z.add_0_r in H2. by rewrite H2.
  - destruct (H1 0%nat c eq_refl) as [Hm Hz]. rewrite Z.add_0_r in Hm. rewrite Hm, (proj2 (Z.eqb_neq c 0)) by done.
    f_equal. apply IH; [|cbn in Hl; lia]. split.
    + intros i d Hi. specialize (H1 (S i) d Hi). by replace (q + 1 + Z.of_nat i) with (q + Z.of_nat (S i)) by lia.
    + cbn in H2. by replace (q + 1 + Z.of_nat (length w)) with (q + Z.of_nat (S (length w))) by lia.
Qed.

Lemma strings_of_args len m ws argv :
  (∀ i w, ws !! i = Some w → ∃ q, argv !! i = Some q ∧ q ≠ 0 ∧ Run.string_at len m q = w) →
  argv !! length ws = Some 0 → Run.strings_of len m argv = ws.
Proof.
  revert argv. induction ws as [|w ws IH]; intros [|q argv] H1 H2; try done; cbn.
  - injection H2 as ->. done.
  - destruct (H1 0%nat w eq_refl) as (q' & [= <-] & Hq & ->). rewrite (proj2 (Z.eqb_neq q 0)) by done. f_equal.
    apply IH; [|done]. intros i w' Hi. exact (H1 (S i) w' Hi).
Qed.

(** ** Tables *)
(** The standard descriptors are open, and two others are free. *)
Inductive ready : table → Prop :=
| ready_table f0 f1 f2 a b c : Forall is_Some a → Forall is_Some b →
    ready (Some f0 :: Some f1 :: Some f2 :: a ++ None :: b ++ None :: c).

Lemma lowest_filled (a tl : table) : Forall is_Some a → lowest (a ++ None :: tl) = Some (length a).
Proof. induction 1 as [|x a [f ->] _ IH]; [done|]. cbn. by rewrite IH. Qed.
Lemma insert_middle {X} (a : list X) x y tl : <[length a := x]> (a ++ y :: tl) = a ++ x :: tl.
Proof. induction a as [|z a IH]; [done|]. exact (f_equal (cons z) IH). Qed.
Lemma lookup_mid {X} (a : list X) y tl : (a ++ y :: tl) !! length a = Some y.
Proof. induction a as [|z a IH]; [done|]. exact IH. Qed.

Lemma forks_congr tb tb' c c' b b' :
  tb !! 2%nat = tb' !! 2%nat → c ≡ c' → b ≡ b' → forks tb c b ≡ forks tb' c' b'.
Proof.
  intros H Hc Hb. apply beq_fork; [done|]. intros pid _. destruct (pid =? -1); [|done]. by rewrite (say_desc _ _ _ _ H).
Qed.

#[export] Instance forks_proper tb : Proper ((≡) ==> (≡) ==> (≡)) (forks tb).
Proof. intros c c' Hc b b' Hb. by apply forks_congr. Qed.

(** The rest of a table does not see what is put on 0 and 1. *)
Lemma ready_stdin tb f : ready tb → ready (<[0%nat := Some f]> tb).
Proof. intros []. cbn. by constructor. Qed.
Lemma ready_stdout tb f : ready tb → ready (<[1%nat := Some f]> tb).
Proof. intros []. cbn. by constructor. Qed.

(** [close] of a standard descriptor, and the call that takes its place. *)
Lemma lowest_closed tb (fd : nat) : ready tb → (fd < 2)%nat →
  lowest (<[fd := None]> tb) = Some fd ∧ desc tb (Z.of_nat fd) ≠ None.
Proof. intros [] Hfd. destruct fd as [|[|fd]]; [by cbn..|lia]. Qed.

Lemma behave_child {B} (ret : B → table → beh) child rest tb b :
  (∀ ret', behave ret' child tb ≡ b) →
  behave ret (Run.in_child child;; rest) tb ≡ forks tb b (behave ret rest tb).
Proof.
  intros Hc. rewrite beq_bind. set (ret' := λ (_ : unit) tb', behave ret rest tb').
  assert (∀ pid, pid ≠ 0 →
    behave ret' ((if pid =? -1 then Run.panic (codes "fork") else mret pid) ≫= λ pid, if pid =? 0 then child else mret tt) tb
    ≡ (if pid =? -1 then say tb (codes "fork" ++ [10]) BExit else behave ret rest tb)) as Hp.
  { intros pid Hp. destruct (pid =? -1); [rewrite beq_bind; apply behave_panic|].
    change (mret pid ≫= ?f) with (f pid). cbn beta. by rewrite (proj2 (Z.eqb_neq pid 0)). }
  split; [exact (Hc ret')|exact Hp].
Qed.

(** *** The second of two places *)
Lemma insert_middle2 {X} (a b : list X) x y z tl :
  <[(length a + S (length b))%nat := y]> (a ++ x :: b ++ z :: tl) = a ++ x :: b ++ y :: tl.
Proof.
  replace (length a + S (length b))%nat with (length (a ++ x :: b)) by (rewrite length_app; done).
  pose proof (insert_middle (a ++ x :: b) y z tl) as H. by rewrite <-!app_assoc in H.
Qed.
Lemma lookup_mid2 {X} (a b : list X) x z tl : (a ++ x :: b ++ z :: tl) !! (length a + S (length b))%nat = Some z.
Proof.
  replace (length a + S (length b))%nat with (length (a ++ x :: b)) by (rewrite length_app; done).
  pose proof (lookup_mid (a ++ x :: b) z tl) as H. by rewrite <-!app_assoc in H.
Qed.
Lemma lowest_filled2 (a b : table) f tl :
  Forall is_Some a → Forall is_Some b → lowest (a ++ Some f :: b ++ None :: tl) = Some (length a + S (length b))%nat.
Proof.
  intros Ha Hb. pose proof (lowest_filled (a ++ Some f :: b) tl) as H. rewrite <-!app_assoc, length_app in H. apply H.
  apply Forall_app. split; [done|]. by constructor.
Qed.

(** *** Calls on a table *)
Lemma behave_close {B} (ret : B → table → beh) m tb (fd : nat) f :
  tb !! fd = Some (Some f) → behave ret (sys (close (Z.of_nat fd));; m) tb = behave ret m (<[fd := None]> tb).
Proof.
  intros H. cbn. unfold desc. rewrite (proj2 (Z.ltb_ge (Z.of_nat fd) 0)), Nat2Z.id, H by lia. done.
Qed.
Lemma behave_dup {B} (ret : B → table → beh) m tb (fd : nat) f i :
  tb !! fd = Some (Some f) → lowest tb = Some i →
  behave ret (sys (dup (Z.of_nat fd));; m) tb = behave ret m (<[i := Some f]> tb).
Proof.
  intros H Hi. cbn. unfold desc. rewrite (proj2 (Z.ltb_ge (Z.of_nat fd) 0)), Nat2Z.id, H by lia. cbn. by rewrite Hi.
Qed.

Lemma behave_open {B} (ret : B → table → beh) k tb f mode i :
  lowest tb = Some i →
  behave ret (sys (open f mode) ≫= k) tb
  = BOpen f mode (behave ret (k (Z.of_nat i)) (<[i := Some (Named f mode)]> tb)) (behave ret (k (-1)) tb).
Proof. intros Hi. cbn. by rewrite Hi. Qed.
Lemma behave_exec {B} (ret : B → table → beh) m tb path argv :
  behave ret (sys (exec path argv);; m) tb = BExec path argv tb (λ _, behave ret m tb).
Proof. done. Qed.
Lemma behave_wait {B} (ret : B → table → beh) m tb :
  behave ret (sys wait;; m) tb = BWait (λ _, behave ret m tb).
Proof. done. Qed.

Lemma behave_chdir {B} (ret : B → table → beh) k tb dir :
  behave ret (sys (chdir dir) ≫= k) tb = BCall (chdir dir) (λ r, behave ret (k r) tb).
Proof. done. Qed.

(** The tables of a pipe: both ends open, then one of them in the place of a standard
    descriptor. *)
Section plumbing.
Context (f0 f1 f2 : file) (a b c : table) (Ha : Forall is_Some a) (Hb : Forall is_Some b) (id : Z).
Definition start : table := Some f0 :: Some f1 :: Some f2 :: a ++ None :: b ++ None :: c.
Definition piped (x y : option file) (u v : option file) : table := x :: y :: Some f2 :: a ++ u :: b ++ v :: c.
Abbreviation R := (Some (RdEnd id)).
Abbreviation W' := (Some (WrEnd id)).
Abbreviation pr := (S (S (S (length a)))).
Abbreviation pw := (S (S (S (length a + S (length b))))).

Lemma close_ends {B} (ret : B → table → beh) m x y :
  behave ret (sys (close (Z.of_nat pr));; sys (close (Z.of_nat pw));; m) (piped x y R W')
  = behave ret m (piped x y None None).
Proof.
  rewrite (behave_close _ _ _ pr (RdEnd id)) by exact (lookup_mid a R _).
  change (<[pr := None]> (piped x y R W')) with (x :: y :: Some f2 :: <[length a := None]> (a ++ R :: b ++ W' :: c)).
  rewrite insert_middle. rewrite (behave_close _ _ _ pw (WrEnd id)) by exact (lookup_mid2 a b None W' c).
  change (<[pw := None]> (x :: y :: Some f2 :: a ++ None :: b ++ W' :: c))
    with (x :: y :: Some f2 :: <[(length a + S (length b))%nat := None]> (a ++ None :: b ++ W' :: c)).
  by rewrite insert_middle2.
Qed.

Lemma plumb_out {B} (ret : B → table → beh) m :
  behave ret (sys (close 1);; sys (dup (Z.of_nat pw));; sys (close (Z.of_nat pr));; sys (close (Z.of_nat pw));; m)
    (piped (Some f0) (Some f1) R W') = behave ret m (<[1%nat := W']> start).
Proof.
  rewrite (behave_close _ _ _ 1 f1) by done.
  rewrite (behave_dup _ _ _ pw (WrEnd id) 1) by (done || exact (lookup_mid2 a b R W' c)).
  exact (close_ends ret m (Some f0) W').
Qed.
Lemma plumb_in {B} (ret : B → table → beh) m :
  behave ret (sys (close 0);; sys (dup (Z.of_nat pr));; sys (close (Z.of_nat pr));; sys (close (Z.of_nat pw));; m)
    (piped (Some f0) (Some f1) R W') = behave ret m (<[0%nat := R]> start).
Proof.
  rewrite (behave_close _ _ _ 0 f0) by done.
  rewrite (behave_dup _ _ _ pr (RdEnd id) 0) by (done || exact (lookup_mid a R _)).
  exact (close_ends ret m R (Some f1)).
Qed.

(** [pipe] opens the two lowest free descriptors. *)
Lemma behave_pipe {B} (ret : B → table → beh) (k : option (Z * Z) → prog B) g e :
  (∀ id, behave ret (k (Some (Z.of_nat pr, Z.of_nat pw))) (piped (Some f0) (Some f1) (Some (RdEnd id)) (Some (WrEnd id))) ≡ g id) →
  behave ret (k None) start ≡ e → behave ret (pipe ≫= k) start ≡ BPipe g e.
Proof.
  intros Hg He. change (pipe ≫= k) with (Pipe k). cbn [behave].
  assert (∀ x, <[pr := x]> start = Some f0 :: Some f1 :: Some f2 :: <[length a := x]> (a ++ None :: b ++ None :: c)) as Hi by done.
  assert (lowest start = Some pr) as ->. { cbn. by rewrite lowest_filled. }
  assert (lowest (<[pr := Some (Other 0)]> start) = Some pw) as ->.
  { rewrite Hi, insert_middle. cbn. by rewrite lowest_filled2. }
  split; [|exact He]. intros id'. rewrite Hi, insert_middle.
  change (<[pw := ?w]> (Some f0 :: Some f1 :: Some f2 :: ?l))
    with (Some f0 :: Some f1 :: Some f2 :: <[(length a + S (length b))%nat := w]> l).
  rewrite insert_middle2. exact (Hg id').
Qed.
End plumbing.

Lemma fmt_open : codes "open %s failed" ++ [10] = codes "open " ++ 37 :: 115 :: codes " failed" ++ [10].
Proof. by vm_compute. Qed.
Lemma fmt_cd : codes "cannot cd %s" ++ [10] = codes "cannot cd " ++ 37 :: 115 :: [10].
Proof. by vm_compute. Qed.
Lemma fmt_exec : codes "exec %s failed" ++ [10] = codes "exec " ++ 37 :: 115 :: codes " failed" ++ [10].
Proof. by vm_compute. Qed.

Lemma behave_redir {B} (ret : B → table → beh) (sub : prog unit) (last : prog B) tb f mode (fd : nat) b :
  ready tb → (fd < 2)%nat → (∀ ret', behave ret' sub (<[fd := Some (Named f mode)]> tb) ≡ b) →
  behave ret (sys (close (Z.of_nat fd));;
    r ← sys (open f mode);
    if r <? 0 then printf 2 (codes "open %s failed" ++ [10]) [inr f];; exit else sub;; last) tb
  ≡ BOpen f mode b (say tb (codes "open " ++ f ++ codes " failed" ++ [10]) BExit).
Proof.
  intros Hr Hfd Hb.
  assert (∃ f', tb !! fd = Some (Some f')) as [f' Hf'].
  { destruct Hr. destruct fd as [|[|fd]]; [by eexists..|lia]. }
  rewrite (behave_close _ _ _ fd f') by done. destruct (lowest_closed tb fd Hr Hfd) as [Hl _].
  rewrite (behave_open _ _ _ _ _ _ Hl). apply beq_open.
  - rewrite (proj2 (Z.ltb_ge (Z.of_nat fd) 0)) by lia. rewrite beq_bind.
    rewrite list_insert_insert_eq. apply Hb.
  - cbn [Z.ltb Z.compare]. rewrite fmt_open, behave_message by (by vm_compute).
    rewrite (say_desc _ tb); [done|]. apply list_lookup_insert_ne. lia.
Qed.

Section runcmd.
Context (len : nat) (m : mem) (cmds : gmap Z Sh.cmd).
Abbreviation shown := (holds (λ q _ w, cstr m q w ∧ (length w < len)%nat) cmds).

(** What [runcmd] does with each kind of command, from what it does with the parts. *)
Lemma behaves_exec ws fuel p tb ret :
  shown p (TExec ws) → behave ret (Run.runcmd len m cmds (S fuel) p) tb ≡ meaning (TExec ws) tb.
Proof.
  intros [Hp (argv & eargv & Hc & (_ & _ & Ha) & Hend)]. cbn [Run.runcmd]. rewrite (proj2 (Z.eqb_neq p 0)), Hc by done.
  assert (Run.strings_of len m argv = ws) as Hs.
  { apply strings_of_args; [|done]. intros i w Hi. destruct (Ha i w Hi) as (q & eq & H1 & _ & H2 & H3 & H4).
    exists q. split_and!; [done|done|]. by apply string_at_cstr. }
  destruct argv as [|q argv]; [by destruct ws|]. cbn [Run.strings_of] in *.
  destruct (q =? 0); [by subst ws|]. destruct ws as [|w ws]; [done|]. injection Hs as Hw Hs. rewrite Hw, Hs.
  rewrite behave_exec. apply beq_exec. intros _. rewrite fmt_exec. by rewrite behave_message by (by vm_compute).
Qed.

Definition runs_as (fuel : nat) (p : Z) (t : tree) : Prop :=
  ∀ tb ret, ready tb → behave ret (Run.runcmd len m cmds fuel p) tb ≡ meaning t tb.

Lemma behaves_redir sub q eq f inp t fuel p tb ret :
  p ≠ 0 → cmds !! p = Some (Sh.REDIR sub q eq (redir_mode inp).1 (redir_mode inp).2) →
  Run.string_at len m q = f → runs_as fuel sub t → ready tb →
  behave ret (Run.runcmd len m cmds (S fuel) p) tb ≡ meaning (TRedir t f inp) tb.
Proof.
  intros Hp Hc Hf IH Hr. cbn [Run.runcmd meaning]. rewrite (proj2 (Z.eqb_neq p 0)), Hc, Hf by done.
  destruct inp; cbn [redir_mode fst snd].
  - apply (behave_redir ret _ exit tb f O_RDONLY 0); [done|lia|]. intros ret'. by apply IH, ready_stdin.
  - apply (behave_redir ret _ exit tb f (Z.lor O_WRONLY O_CREATE) 1); [done|lia|]. intros ret'. by apply IH, ready_stdout.
Qed.

Lemma behaves_list pl pr l r fuel p tb ret :
  p ≠ 0 → cmds !! p = Some (Sh.LIST pl pr) → runs_as fuel pl l → runs_as fuel pr r → ready tb →
  behave ret (Run.runcmd len m cmds (S fuel) p) tb ≡ meaning (TList l r) tb.
Proof.
  intros Hp Hc IHl IHr Hr. cbn [Run.runcmd meaning]. rewrite (proj2 (Z.eqb_neq p 0)), Hc by done.
  rewrite (behave_child _ _ _ _ (meaning l tb)) by auto. apply beq_fork; [done|]. intros pid _.
  destruct (pid =? -1); [done|]. rewrite behave_wait. apply beq_wait. intros _. rewrite beq_bind. by apply IHr.
Qed.

Lemma behaves_back sub t fuel p tb ret :
  p ≠ 0 → cmds !! p = Some (Sh.BACK sub) → runs_as fuel sub t → ready tb →
  behave ret (Run.runcmd len m cmds (S fuel) p) tb ≡ meaning (TBack t) tb.
Proof.
  intros Hp Hc IH Hr. cbn [Run.runcmd meaning]. rewrite (proj2 (Z.eqb_neq p 0)), Hc by done.
  by rewrite (behave_child _ _ _ _ (meaning t tb)) by auto.
Qed.

Lemma behaves_pipe pl pr l r fuel p tb ret :
  p ≠ 0 → cmds !! p = Some (Sh.PIPE pl pr) → runs_as fuel pl l → runs_as fuel pr r → ready tb →
  behave ret (Run.runcmd len m cmds (S fuel) p) tb ≡ meaning (TPipe l r) tb.
Proof.
  intros Hp Hc IHl IHr Hr. cbn [Run.runcmd meaning]. rewrite (proj2 (Z.eqb_neq p 0)), Hc by done.
  pose proof Hr as [f0 f1 f2 a b c Ha Hb]. apply (behave_pipe f0 f1 f2 a b c Ha Hb); [|apply behave_panic]. intros id.
  set (start := Some f0 :: Some f1 :: Some f2 :: a ++ None :: b ++ None :: c) in *.
  set (tb1 := piped f2 a b c (Some f0) (Some f1) (Some (RdEnd id)) (Some (WrEnd id))).
  rewrite (behave_child _ _ _ tb1 (meaning l (<[1%nat := Some (WrEnd id)]> start))).
  2:{ intros ret'. unfold tb1. rewrite plumb_out. by apply IHl, (ready_stdout start). }
  rewrite (behave_child _ _ _ tb1 (meaning r (<[0%nat := Some (RdEnd id)]> start))).
  2:{ intros ret'. unfold tb1. rewrite plumb_in. by apply IHr, (ready_stdin start). }
  apply forks_congr; [done|done|]. apply forks_congr; [done|done|].
  unfold tb1. rewrite close_ends, behave_wait. apply beq_wait. intros _. rewrite behave_wait. done.
Qed.

Lemma runcmd_behaves t fuel p : shown p t → (tsize t <= fuel)%nat → runs_as fuel p t.
Proof.
  revert fuel p. induction t as [ws|t IH f inp|l IHl r IHr|l IHl r IHr|t IH]; intros fuel p Hh Hf tb ret Hr;
    (destruct fuel as [|fuel]; [cbn in Hf; lia|]); cbn [tsize] in Hf.
  - by apply behaves_exec.
  - destruct Hh as [Hp (sub & q & eq & Hc & [Hw Hl] & Hs)].
    apply (behaves_redir sub q eq); [done|done|by apply string_at_cstr|apply IH; [done|lia]|done].
  - destruct Hh as [Hp (pl & pr & Hc & H1 & H2)].
    apply (behaves_pipe pl pr); [done|done|apply IHl; [done|lia]|apply IHr; [done|lia]|done].
  - destruct Hh as [Hp (pl & pr & Hc & H1 & H2)].
    apply (behaves_list pl pr); [done|done|apply IHl; [done|lia]|apply IHr; [done|lia]|done].
  - destruct Hh as [Hp (sub & Hc & Hs)]. apply (behaves_back sub); [done|done|apply IH; [done|lia]|done].
Qed.
End runcmd.

(** ** A line of input *)
(** The words of a tree are among the tokens it is written with, and a line of [n]
    characters has no longer ones. *)
Fixpoint tree_words (t : tree) : list word :=
  match t with
  | TExec ws => ws
  | TRedir t f _ => f :: tree_words t
  | TPipe l r | TList l r => tree_words l ++ tree_words r
  | TBack t => tree_words t
  end.

Lemma in_paren x b ts : x ∈ ts → x ∈ paren b ts.
Proof. destruct b; cbn; [set_solver|done]. Qed.
Lemma tree_words_written t w lvl : w ∈ tree_words t → W w ∈ written lvl t.
Proof.
  revert lvl. induction t as [ws|t IH f inp|l IHl r IHr|l IHl r IHr|t IH]; intros lvl Hw; cbn in *.
  - by apply list_elem_of_fmap_2.
  - apply elem_of_app. apply elem_of_cons in Hw as [->|Hw]; [right; set_solver|left; auto].
  - apply in_paren. apply elem_of_app in Hw as [Hw|Hw]; apply elem_of_app; [left|right; right]; auto.
  - apply in_paren. apply elem_of_app in Hw as [Hw|Hw]; apply elem_of_app; [left|right; right]; auto.
  - apply in_paren, elem_of_app. left. auto.
Qed.

Lemma symbol_tok_symbol c w : symbol_tok c ≠ W w.
Proof. unfold symbol_tok. by repeat case_match. Qed.
Lemma lex_word_length l w v : W w ∈ lex v l → (length w <= length v + length l)%nat.
Proof.
  remember (length l) as n eqn:Hn. revert l v Hn. induction (lt_wf n) as [n _ IH]. intros l v ->.
  assert (W w ∈ flush v → (length w <= length v)%nat) as Hfl.
  { destruct v as [|x v]; cbn [flush]; intros H; [by apply not_elem_of_nil in H|].
    apply list_elem_of_singleton in H. by injection H as ->. }
  destruct l as [|c l]; cbn [lex length]; [intros H%Hfl; lia|].
  destruct (is_space c).
  { intros [H%Hfl|H]%elem_of_app; [lia|]. apply (IH (length l)) in H; [cbn in H; lia|cbn; lia|done]. }
  destruct (is_symbol c).
  - intros [H%Hfl|H]%elem_of_app; [lia|]. destruct l as [|d l].
    + apply list_elem_of_singleton in H. by destruct (symbol_tok_symbol c w).
    + destruct ((c =? 62) && (d =? 62)); apply elem_of_cons in H as [H|H]; try done.
      * apply (IH (length l)) in H; [cbn in *; lia|cbn; lia|done].
      * by destruct (symbol_tok_symbol c w).
      * apply (IH (length (d :: l))) in H; [cbn in *; lia|cbn; lia|done].
  - intros H. apply (IH (length l)) in H; [rewrite length_app in H; cbn in *; lia|cbn; lia|done].
Qed.

Lemma tsize_written t lvl : (tsize t <= 2 * length (written lvl t) + 1)%nat.
Proof.
  assert (∀ b ts, (length ts <= length (paren b ts))%nat) as Hp by (intros [] ts; cbn; rewrite ?length_app; cbn; lia).
  revert lvl. induction t as [ws|t IH f inp|l IHl r IHr|l IHl r IHr|t IH]; intros lvl; cbn [tsize written]; [lia|..].
  - rewrite length_app. specialize (IH 0%nat). cbn. lia.
  - etrans; [|apply Nat.add_le_mono_r, Nat.mul_le_mono_l, Hp]. rewrite length_app. cbn.
    specialize (IHl 0%nat). specialize (IHr 1%nat). lia.
  - etrans; [|apply Nat.add_le_mono_r, Nat.mul_le_mono_l, Hp]. rewrite length_app. cbn.
    specialize (IHl 2%nat). specialize (IHr 3%nat). lia.
  - etrans; [|apply Nat.add_le_mono_r, Nat.mul_le_mono_l, Hp]. rewrite length_app. cbn. specialize (IH 2%nat). lia.
Qed.

Lemma holds_short (P : Z → Z → word → Prop) len cm p t :
  (∀ w, w ∈ tree_words t → (length w < len)%nat) → holds P cm p t →
  holds (λ q eq w, P q eq w ∧ (length w < len)%nat) cm p t.
Proof.
  revert p. induction t as [ws|t IH f inp|l IHl r IHr|l IHl r IHr|t IH]; intros p Hs [Hp Hh]; (split; [done|]); cbn in Hs.
  - destruct Hh as (argv & eargv & Hc & (H1 & H2 & Ha) & He). exists argv, eargv. split_and!; [done| |done].
    split_and!; [done|done|]. intros i w Hi. destruct (Ha i w Hi) as (q & eq & G1 & G2 & G3 & G4).
    exists q, eq. split_and!; try done. apply Hs. by apply list_elem_of_lookup_2 in Hi.
  - destruct Hh as (sub & q & eq & Hc & Hw & Hh). exists sub, q, eq.
    split_and!; [done|done|apply Hs; left|apply IH; [|done]; intros; apply Hs; by right].
  - destruct Hh as (pl & pr & Hc & H1 & H2). exists pl, pr.
    split_and!; [done|apply IHl|apply IHr]; try done; intros; apply Hs; set_solver.
  - destruct Hh as (pl & pr & Hc & H1 & H2). exists pl, pr.
    split_and!; [done|apply IHl|apply IHr]; try done; intros; apply Hs; set_solver.
  - destruct Hh as (sub & Hc & Hh). exists sub. split; [done|]. by apply IH.
Qed.

(** *** Descriptors of the programs *)
(** [P] of the table of every program that is started. *)
Fixpoint all_execs (P : table → Prop) (b : beh) : Prop :=
  match b with
  | BExit | BStuck => True
  | BExec _ _ tb k => P tb ∧ ∀ r, all_execs P (k r)
  | BFork c k => all_execs P c ∧ ∀ pid, pid ≠ 0 → all_execs P (k pid)
  | BWait k | BWrite _ _ k | BCall _ k => ∀ r, all_execs P (k r)
  | BOpen _ _ o e => all_execs P o ∧ all_execs P e
  | BPipe o e => (∀ id, all_execs P (o id)) ∧ all_execs P e
  | BRead _ _ k => ∀ r, all_execs P (k r)
  | BFstat _ k => ∀ r, all_execs P (k r)
  end.

Lemma all_execs_equiv P b b' : b ≡ b' → all_execs P b → all_execs P b'.
Proof.
  unfold equiv, beh_equiv. revert b'. induction b; intros [] Hb; cbn in *; try done; destruct_and?; subst; naive_solver.
Qed.
#[export] Instance all_execs_proper P : Proper ((≡) ==> iff) (all_execs P).
Proof. intros b b' H. split; apply all_execs_equiv; [done|by symmetry]. Qed.

Lemma all_execs_impl (P Q : table → Prop) b : (∀ tb, P tb → Q tb) → all_execs P b → all_execs Q b.
Proof. intros H. induction b; cbn; naive_solver. Qed.

Lemma all_execs_say P tb text b : all_execs P b → all_execs P (say tb text b).
Proof. intros H. induction text as [|c text IH]; cbn; auto. Qed.
Lemma all_execs_forks P tb c b : all_execs P c → all_execs P b → all_execs P (forks tb c b).
Proof. intros Hc Hb. split; [done|]. intros pid _. destruct (pid =? -1); [by apply all_execs_say|done]. Qed.

(** Only the standard input and output differ from those of the shell. *)
Definition wired (tb tb' : table) : Prop := drop 2 tb' = drop 2 tb ∧ ready tb'.

Lemma meaning_wired t tb : ready tb → all_execs (wired tb) (meaning t tb).
Proof.
  assert (∀ tb tb' t, wired tb tb' → all_execs (wired tb') (meaning t tb') → all_execs (wired tb) (meaning t tb')) as Hw.
  { intros tb1 tb2 t1 [H1 _]. apply all_execs_impl. intros tb3 [H2 H3]. split; [by rewrite H2|done]. }
  assert (∀ tb f, ready tb → wired tb (<[0%nat := Some f]> tb)) as H0.
  { intros tb1 f Hr. split; [by destruct Hr|by apply ready_stdin]. }
  assert (∀ tb f, ready tb → wired tb (<[1%nat := Some f]> tb)) as H1.
  { intros tb1 f Hr. split; [by destruct Hr|by apply ready_stdout]. }
  revert tb. induction t as [ws|t IH f inp|l IHl r IHr|l IHl r IHr|t IH]; intros tb Hr; cbn [meaning].
  - destruct ws; [done|]. split; [done|]. intros _. by apply all_execs_say.
  - destruct inp; cbn [redir_mode]; (split; [|by apply all_execs_say]); apply Hw; auto; apply IH;
      [apply ready_stdin|apply ready_stdout]; done.
  - split; [|by apply all_execs_say]. intros id. apply all_execs_forks; [|apply all_execs_forks; [|done]]; apply Hw; auto;
      [apply IHl, ready_stdout|apply IHr, ready_stdin]; done.
  - apply all_execs_forks; [auto|]. intros _. auto.
  - apply all_execs_forks; [auto|done].
Qed.

(** ** The theorems *)
Section theorems.
Context (len : nat) (m : mem) (cmds : gmap Z Sh.cmd) (p : Z) (t : tree) (fuel : nat) (tb : table).
Context (Hshown : holds (λ q _ w, cstr m q w ∧ (length w < len)%nat) cmds p t).
Context (Hfuel : (tsize t <= fuel)%nat) (Hready : ready tb).

(** C26: [runcmd] does what the command says: from a tree of commands in memory and a table
    with the standard descriptors open and two free, the processes it makes, the
    files and pipes on their standard input and output, the programs they start with
    their arguments, the order of waiting, and the messages on every failure of
    [exec], [open], [pipe] and [fork] are those of the meaning of the tree; it ends
    every process it makes. *)
Theorem runcmd_wires ret : behave ret (Run.runcmd len m cmds fuel p) tb ≡ meaning t tb.
Proof. by apply runcmd_behaves. Qed.

(** C29: No descriptor leaks: every program started for a command, however deep in pipes and
    lists and whichever calls fail, has the descriptors of the shell from 2 on, no end of
    a pipe among them that the shell did not have, and its standard input and
    output are open. *)
Theorem runcmd_no_leak ret : all_execs (wired tb) (behave ret (Run.runcmd len m cmds fuel p) tb).
Proof. rewrite (runcmd_behaves len m cmds t fuel p Hshown Hfuel tb ret Hready). by apply meaning_wired. Qed.
End theorems.

Section line.
Context {A : Type} `{!Allocator A} (h : A) (line : Z) (m : mem).
Definition in_buf (l : list Z) : list Z := l ++ replicate (Run.nbuf - length l) 0.

Lemma line_text l :
  0 < line → Forall (λ c, c ≠ 0) l → (length l < Run.nbuf)%nat →
  at_text (Run.with_line line m (in_buf l)) line (line + Z.of_nat (length l)) l.
Proof.
  intros Hs Hl Hn. assert (length (in_buf l) = Run.nbuf) as Hlen.
  { unfold in_buf. rewrite length_app, length_replicate. lia. }
  constructor; try done; unfold Run.with_line; rewrite Hlen.
  - intros i c Hi. pose proof (lookup_lt_Some _ _ _ Hi).
    rewrite (proj2 (Z.leb_le _ _)), (proj2 (Z.ltb_lt _ _)) by lia. cbn [andb].
    replace (Z.to_nat (line + Z.of_nat i - line)) with i by lia. unfold in_buf. by rewrite lookup_app_l, Hi.
  - rewrite (proj2 (Z.leb_le _ _)), (proj2 (Z.ltb_lt _ _)) by lia. cbn [andb].
    replace (Z.to_nat (line + Z.of_nat (length l) - line)) with (length l) by lia. unfold in_buf.
    rewrite lookup_app_r, Nat.sub_diag by lia. rewrite lookup_replicate_2 by lia. done.
Qed.

Lemma run_line_behaves l t tb ret :
  few_args t → tokens l = written 3 t → 0 < line → Forall (λ c, c ≠ 0) l → (length l < Run.nbuf)%nat →
  al_ok h ∅ (2 * length l + 1) → ready tb → behave ret (Run.run_line h line m (in_buf l)) tb ≡ meaning t tb.
Proof.
  intros Hf Ht Hs Hl Hn Hok Hr. set (st := Sh.mkshell (Run.with_line line m (in_buf l)) ∅ h).
  pose proof (length_lex [] l) as Hlen. change (lex [] l) with (tokens l) in Hlen. cbn in Hlen.
  pose proof (parsecmd_parse Run.nbuf line _ l st (line_text l Hs Hl Hn) Hn ltac:(by exists ∅)) as H.
  rewrite Ht in H, Hlen. rewrite parse_written in H by (done || lia). destruct H as (p & st' & E & Hh).
  unfold Run.run_line. fold st. rewrite E. apply runcmd_behaves; [|pose proof (tsize_written t 3); lia|done].
  apply holds_short; [|done]. intros w Hw. apply (tree_words_written t w 3) in Hw. rewrite <-Ht in Hw.
  apply (lex_word_length l w []) in Hw. cbn in Hw. lia.
Qed.

(** C27: A line that writes a command runs it: a turn of the shell's loop on the characters of
    the line forks a child that parses them and does what the command means, and waits
    for it; when [fork] fails the shell says so and exits. *)
Theorem turn_runs l t tb ret :
  few_args t → tokens l = written 3 t → 0 < line → Forall (λ c, c ≠ 0) l → (length l < Run.nbuf)%nat →
  al_ok h ∅ (2 * length l + 1) → ready tb → take 3 l ≠ codes "cd " →
  behave ret (Run.turn h line m (in_buf l)) tb ≡ forks tb (meaning t tb) (BWait (λ _, ret tt tb)).
Proof.
  intros Hf Ht Hs Hl Hn Hok Hr Hcd. unfold Run.turn.
  assert ((default 0 (in_buf l !! 0%nat) =? 99) && (default 0 (in_buf l !! 1%nat) =? 100)
    && (default 0 (in_buf l !! 2%nat) =? 32) = false) as ->.
  { apply not_true_iff_false. rewrite !andb_true_iff, !Z.eqb_eq. intros [[H1 H2] H3]. apply Hcd. unfold in_buf in *.
    destruct l as [|x [|y [|z l]]]; cbn in H1, H2, H3; try done; by subst. }
  rewrite (behave_child _ _ _ _ (meaning t tb)) by (intros; by apply run_line_behaves).
  apply forks_congr; [done|done|]. rewrite behave_wait. done.
Qed.

(** [cd dir] is done by the shell itself. *)
Lemma cstring_app l tl : Forall (λ c, c ≠ 0) l → cstring (l ++ 0 :: tl) = l.
Proof. induction 1 as [|c l Hc _ IH]; [done|]. cbn. by rewrite (proj2 (Z.eqb_neq c 0)), IH. Qed.

Theorem turn_chdir dir tb ret :
  Forall (λ c, c ≠ 0) dir → (length dir + 4 < Run.nbuf)%nat →
  behave ret (Run.turn h line m (in_buf (codes "cd " ++ dir ++ [10]))) tb
  ≡ BCall (chdir dir) (λ r, if r <? 0 then say tb (codes "cannot cd " ++ dir ++ [10]) (ret tt tb) else ret tt tb).
Proof.
  intros Hd Hn. unfold Run.turn. change (codes "cd ") with [99; 100; 32]. set (l := [99; 100; 32] ++ dir ++ [10]).
  assert (length l = 4 + length dir)%nat as Hl by (unfold l; rewrite !length_app; cbn; lia).
  assert (∃ k, in_buf l = l ++ 0 :: replicate k 0) as [k ->].
  { unfold in_buf. destruct (Run.nbuf - length l)%nat as [|k] eqn:Ek; [lia|]. by exists k. }
  assert (cstring (l ++ 0 :: replicate k 0) = l) as ->.
  { apply cstring_app. repeat constructor; try done. apply Forall_app. split; [done|by repeat constructor]. }
  rewrite Hl. replace (4 + length dir - 1)%nat with (S (S (S (length dir)))) by lia.
  assert (drop 3 (<[S (S (S (length dir))) := 0]> (l ++ 0 :: replicate k 0)) = dir ++ 0 :: 0 :: replicate k 0) as ->.
  { unfold l. rewrite <-!app_assoc. exact (insert_middle dir 0 10 (0 :: replicate k 0)). }
  rewrite cstring_app by done. match goal with |- context [if ?b then _ else _] => change b with true end. cbv iota.
  rewrite behave_chdir. apply beq_call. intros r. destruct (r <? 0); [|done].
  rewrite fmt_cd, printf_message by (by vm_compute). apply behave_text.
Qed.
End line.

(** [fdalloc] of the kernel takes the lowest free descriptor. *)
Lemma lowest_fdalloc (tb : table) : lowest tb = fst <$> list_find (λ o, o = None) tb.
Proof. induction tb as [|[f|] tb IH]; [done| |done]. cbn. rewrite IH. by destruct (list_find _ tb) as [[]|]. Qed.

(** *** The console *)
(** What a process comes to when every [open] succeeds. *)
Inductive granted_opens : beh → beh → Prop :=
| go_done b : granted_opens b b
| go_open f m o e b : granted_opens o b → granted_opens (BOpen f m o e) b.

Definition console : option file := Some (Named (codes "console") O_RDWR).

(** The loop of [main] leaves the three standard descriptors open, the console on those that
    were free, and the others as they were. *)
Theorem console_opened ret x0 x1 x2 a c :
  Forall is_Some a →
  granted_opens (behave ret (Run.open_console 4) (x0 :: x1 :: x2 :: a ++ None :: c))
    (ret tt (((λ x : option file, match x with None => console | _ => x end) <$> [x0; x1; x2]) ++ a ++ None :: c)).
Proof.
  intros Ha. cbn [fmap list_fmap app].
  assert (∀ n y0 y1 y2, granted_opens
    (behave ret (Run.open_console (S n)) (Some y0 :: Some y1 :: Some y2 :: a ++ None :: c))
    (ret tt (Some y0 :: Some y1 :: Some y2 :: a ++ None :: c))) as Hfull.
  { intros n y0 y1 y2. cbn [Run.open_console]. rewrite (behave_open _ _ _ _ _ (S (S (S (length a))))).
    2:{ cbn. by rewrite lowest_filled. }
    apply go_open. rewrite (proj2 (Z.ltb_ge _ 0)), (proj2 (Z.leb_le 3 _)) by lia.
    change (<[S (S (S (length a))) := ?v]> (?u0 :: ?u1 :: ?u2 :: ?l)) with (u0 :: u1 :: u2 :: <[length a := v]> l).
    rewrite insert_middle, (behave_close _ _ _ _ (Named (codes "console") O_RDWR)) by exact (lookup_mid a _ c).
    change (<[S (S (S (length a))) := ?v]> (?u0 :: ?u1 :: ?u2 :: ?l)) with (u0 :: u1 :: u2 :: <[length a := v]> l).
    rewrite insert_middle. apply go_done. }
  assert (∀ n tb i, lowest tb = Some i → (i < 3)%nat →
    ∀ b, granted_opens (behave ret (Run.open_console n) (<[i := console]> tb)) b →
    granted_opens (behave ret (Run.open_console (S n)) tb) b) as Hone.
  { intros n tb i Hi Hlt b Hb. cbn [Run.open_console]. rewrite (behave_open _ _ _ _ _ _ Hi).
    apply go_open. by rewrite (proj2 (Z.ltb_ge _ 0)), (proj2 (Z.leb_gt 3 _)) by lia. }
  destruct x0, x1, x2; repeat (eapply Hone; [reflexivity|lia|cbn [insert list_insert]]); apply Hfull.
Qed.

(** *** Examples *)
(** [a | b] in memory, and the line [line_1]. *)
Definition mem_ab : mem := λ a, if a =? 10 then 97 else if a =? 20 then 98 else 0.
Definition cmds_ab : gmap Z Sh.cmd :=
  {[100 := Sh.PIPE 101 102;
    101 := Sh.EXEC (10 :: replicate 9 0) (11 :: replicate 9 0);
    102 := Sh.EXEC (20 :: replicate 9 0) (21 :: replicate 9 0)]}.
Definition tree_ab : tree := TPipe (TExec [[97]]) (TExec [[98]]).
Definition table_0 : table := [Some (Other 0); Some (Other 0); Some (Other 0)] ++ replicate 13 None.

Lemma ready_0 : ready table_0.
Proof. exact (ready_table (Other 0) (Other 0) (Other 0) [] [] (replicate 11 None) ltac:(done) ltac:(done)). Qed.
Lemma holds_ab : holds (λ q _ w, cstr mem_ab q w ∧ (length w < 100)%nat) cmds_ab 100 tree_ab.
Proof.
  assert (∀ q c, q ≠ 0 → mem_ab q = c → c ≠ 0 → mem_ab (q + 1) = 0 → cstr mem_ab q [c] ∧ (length [c] < 100)%nat) as Hs.
  { intros q c H1 H2 H3 H4. split; [|cbn; lia]. split; [|done]. intros [|i] d Hi; [|done]. injection Hi as <-.
    by rewrite Z.add_0_r. }
  split; [done|]. exists 101, 102. split; [done|]. split; (split; [done|]).
  - exists (10 :: replicate 9 0), (11 :: replicate 9 0). split_and!; [done| |done]. split_and!; [done|done|].
    intros [|i] w Hi; [|done]. injection Hi as <-. exists 10, 11. split; [done|]. split; [done|]. split; [done|]. by apply Hs.
  - exists (20 :: replicate 9 0), (21 :: replicate 9 0). split_and!; [done| |done]. split_and!; [done|done|].
    intros [|i] w Hi; [|done]. injection Hi as <-. exists 20, 21. split; [done|]. split; [done|]. split; [done|]. by apply Hs.
Qed.

Lemma runcmd_wires_witness :
  behave (λ _ _, BExit) (Run.runcmd 100 mem_ab cmds_ab 3 100) table_0 ≡ meaning tree_ab table_0.
Proof. apply (runcmd_wires 100 mem_ab cmds_ab 100 tree_ab 3 table_0 holds_ab); [cbn; lia|exact ready_0]. Defined.
Lemma runcmd_no_leak_witness :
  all_execs (wired table_0) (behave (λ _ _, BExit) (Run.runcmd 100 mem_ab cmds_ab 3 100) table_0).
Proof. apply (runcmd_no_leak 100 mem_ab cmds_ab 100 tree_ab 3 table_0 holds_ab); [cbn; lia|exact ready_0]. Defined.

Lemma turn_runs_witness :
  behave (λ _ _, BExit)
    (Run.turn (Allocator0 := um_allocator 0x3000 grants (2 ^ 24) grants_below grants_limit) heap_0 0x1000 (λ _, 0) (in_buf line_1)) table_0
  ≡ forks table_0 (meaning tree_1 table_0) (BWait (λ _, BExit)).
Proof.
  apply (turn_runs (Allocator0 := um_allocator 0x3000 grants (2 ^ 24) grants_below grants_limit) heap_0 0x1000 (λ _, 0)
    line_1 tree_1 table_0 (λ _ _, BExit)).
  - cbn. unfold Sh.MAXARGS. repeat split; lia.
  - by vm_compute.
  - lia.
  - by repeat constructor.
  - unfold Run.nbuf. cbn. lia.
  - exists []. split_and!; [left; repeat split; done|done|cbn; lia].
  - exact ready_0.
  - by vm_compute.
Defined.
