(* ===== verification/Hw.v ===== *)
(** * The hardware the drivers talk to

    The instructions of x86.h that access devices are operations of the class [Ports]
    on the state [D] of the devices.  What the drivers of this kernel rely on of an ATA
    disk controller in programmed I/O is the class [IdeDisk]; [controller] is an
    instance of it. *)
From S2P Require Import Prelude Params Block.

Class Ports (D : Type) := {
  inb : Z → D → Z * D;
  outb : Z → Z → D → D;
  insl : Z → nat → D → list Z * D;  (* the bytes of so many words *)
  outsl : Z → list Z → D → D;
}.

(** Device registers in memory, of 32 bits. *)
Class Mmio (D : Type) := {
  ldm : Z → D → Z * D;
  stm : Z → Z → D → D;
}.

(** What the controller is about to do: nothing, hand out the sector of a read command,
    take the data of a write command. *)
Inductive phase := PIdle | PRead (drive lba : Z) | PWrite (drive lba : Z).

(** The drive and the sector number in the registers 0x1f3 to 0x1f6. *)
Definition tf_lba (r : Z → Z) : Z :=
  r 0x1f3 + 2 ^ 8 * r 0x1f4 + 2 ^ 16 * r 0x1f5 + 2 ^ 24 * (r 0x1f6 mod 2 ^ 4).
Definition tf_drive (r : Z → Z) : Z := (r 0x1f6 / 2 ^ 4) mod 2.

(** The disks of a controller: [i_sect d drive n] is the content of a sector,
    [i_polls d] the number of times the status still reads busy.  A command is accepted
    when the status reads ready and its registers are set; the controller reports no
    error, and takes the data of a write right after the command. *)
Class IdeDisk (D : Type) `{!Ports D} := {
  i_regs : D → Z → Z;
  i_sect : D → Z → Z → block;
  i_phase : D → phase;
  i_polls : D → nat;
  i_max : nat;
  i_same (d d' : D) : Prop := i_regs d' = i_regs d ∧ i_sect d' = i_sect d ∧ i_phase d' = i_phase d;
  i_polls_max d : (i_polls d <= i_max)%nat;
  i_status d :
    let '(r, d') := inb 0x1f7 d in
    i_same d d' ∧ i_polls d' = pred (i_polls d) ∧
    if decide (i_polls d = 0%nat) then Z.land r 0xc0 = 0x40 ∧ Z.land r 0x21 = 0
    else Z.land r 0xc0 ≠ 0x40;
  i_select d p v :
    i_polls d = 0%nat → 0x1f2 <= p <= 0x1f6 →
    (∀ q, i_regs (outb p v d) q = if q =? p then v else i_regs d q)
    ∧ i_sect (outb p v d) = i_sect d ∧ i_phase (outb p v d) = i_phase d ∧ i_polls (outb p v d) = 0%nat;
  i_control d :
    i_polls d = 0%nat → i_same d (outb 0x3f6 0 d) ∧ i_polls (outb 0x3f6 0 d) = 0%nat;
  i_read d :
    i_polls d = 0%nat → i_phase d = PIdle → i_regs d 0x1f2 = 1 →
    i_phase (outb 0x1f7 0x20 d) = PRead (tf_drive (i_regs d)) (tf_lba (i_regs d))
    ∧ i_sect (outb 0x1f7 0x20 d) = i_sect d;
  i_write d :
    i_polls d = 0%nat → i_phase d = PIdle → i_regs d 0x1f2 = 1 →
    i_phase (outb 0x1f7 0x30 d) = PWrite (tf_drive (i_regs d)) (tf_lba (i_regs d))
    ∧ i_sect (outb 0x1f7 0x30 d) = i_sect d;
  i_insl d drive n :
    i_polls d = 0%nat → i_phase d = PRead drive n →
    let '(data, d') := insl 0x1f0 128 d in
    data = i_sect d drive n ∧ i_phase d' = PIdle ∧ i_sect d' = i_sect d;
  i_outsl d drive n data :
    i_phase d = PWrite drive n → length data = 512%nat →
    i_phase (outsl 0x1f0 data d) = PIdle
    ∧ ∀ e m, i_sect (outsl 0x1f0 data d) e m = if bool_decide (e = drive ∧ m = n) then data else i_sect d e m;
}.

(** ** Use *)
Section use.
Context {D : Type} `{!Ports D, !IdeDisk D}.

(** Registers written one after the other. *)
Lemma select_all (l : list (Z * Z)) d :
  i_polls d = 0%nat → Forall (λ pv, 0x1f2 <= pv.1 <= 0x1f6) l →
  let d' := foldl (λ d pv, outb pv.1 pv.2 d) d l in
  i_polls d' = 0%nat ∧ i_sect d' = i_sect d ∧ i_phase d' = i_phase d
  ∧ ∀ p, i_regs d' p = foldl (λ r pv, if p =? pv.1 then pv.2 else r) (i_regs d p) l.
Proof.
  revert d. induction l as [|[p v] l IH]; intros d Hp Hl; [done|]. apply Forall_cons in Hl as [H1 Hl]. cbn [foldl fst snd] in *.
  destruct (i_select d p v Hp H1) as (R & S & P & W). destruct (IH (outb p v d) W Hl) as (W' & S' & P' & R').
  split_and!; [done|congruence|congruence|]. intros p'. by rewrite R', R.
Qed.

End use.

(** ** An instance: a controller that is busy for two polls after a command. *)
Inductive busy := Ready | Busy1 | Busy2.
Record controller := mkctl {
  c_regs : Z → Z;
  c_sect : Z → Z → block;
  c_phase : phase;
  c_busy : busy
}.

Definition polls (b : busy) : nat := match b with Ready => 0 | Busy1 => 1 | Busy2 => 2 end.
Definition ctl_inb (p : Z) (c : controller) : Z * controller :=
  if p =? 0x1f7 then
    let next := match c_busy c with Busy2 => Busy1 | _ => Ready end in
    (match c_busy c with Ready => 0x40 | _ => 0x80 end, mkctl (c_regs c) (c_sect c) (c_phase c) next)
  else (0, c).
Definition ctl_outb (p v : Z) (c : controller) : controller :=
  if (0x1f2 <=? p) && (p <=? 0x1f6) then
    mkctl (λ q, if q =? p then v else c_regs c q) (c_sect c) (c_phase c) (c_busy c)
  else if p =? 0x1f7 then
    let go := if v =? 0x20 then PRead else PWrite in
    mkctl (c_regs c) (c_sect c) (go (tf_drive (c_regs c)) (tf_lba (c_regs c))) Busy2
  else c.
Definition ctl_insl (p : Z) (n : nat) (c : controller) : list Z * controller :=
  match c_phase c with
  | PRead drive lba => (c_sect c drive lba, mkctl (c_regs c) (c_sect c) PIdle Ready)
  | _ => ([], c)
  end.
Definition ctl_outsl (p : Z) (data : list Z) (c : controller) : controller :=
  match c_phase c with
  | PWrite drive lba =>
      mkctl (c_regs c) (λ e m, if bool_decide (e = drive ∧ m = lba) then data else c_sect c e m) PIdle Busy2
  | _ => c
  end.

#[export] Instance ctl_ports : Ports controller :=
  {| inb := ctl_inb; outb := ctl_outb; insl := ctl_insl; outsl := ctl_outsl |}.

(** No memory-mapped registers. *)
#[export] Instance ctl_mmio : Mmio controller := {| ldm _ c := (0, c); stm _ _ c := c |}.

#[export, program] Instance ctl_disk : IdeDisk controller :=
  {| i_regs := c_regs; i_sect := c_sect; i_phase := c_phase; i_polls c := polls (c_busy c); i_max := 2 |}.
Next Obligation. by intros [? ? ? []]; cbn; lia. Qed.
Next Obligation. by intros [? ? ? []]. Qed.
Next Obligation.
  intros c p v Hb Hp. cbn. unfold ctl_outb.
  rewrite (proj2 (Z.leb_le _ p)), (proj2 (Z.leb_le p _)) by lia. by cbn.
Qed.
Next Obligation. by intros c Hb. Qed.
Next Obligation. by intros c _ _ _. Qed.
Next Obligation. by intros c _ _ _. Qed.
Next Obligation. intros c drive n _ Hp. cbn in *. unfold ctl_insl. by rewrite Hp. Qed.
Next Obligation. intros c drive n data Hp _. cbn in *. unfold ctl_outsl. by rewrite Hp. Qed.
