(* ===== verification/Devices.v ===== *)
(** * Interrupt controllers, clock and serial port (picirq.c, ioapic.c, lapic.c, uart.c)

    The drivers run over the ports and the memory-mapped registers of the devices.  A
    loop that polls a register runs on fuel. *)
From S2P Require Import Prelude Params Hw.

Module Devices.
Section devices.
Context {D : Type} `{!Ports D, !Mmio D}.

(** The devices and the variables of the drivers: [uart] (uart.c), [lapic] (lapic.c),
    [ioapicid] (mp.c), and the warm reset vector at 40:67 in memory. *)
Record devs := mkdevs {
  dv_hw : D;
  dv_uart : bool;
  dv_lapic : Z;
  dv_ioapicid : Z;
  dv_wrv : Z * Z
}.
Definition set_dv_hw (v : D) (s : devs) : devs := mkdevs v (dv_uart s) (dv_lapic s) (dv_ioapicid s) (dv_wrv s).
Definition set_dv_uart (v : bool) (s : devs) : devs := mkdevs (dv_hw s) v (dv_lapic s) (dv_ioapicid s) (dv_wrv s).
Definition set_dv_lapic (v : Z) (s : devs) : devs := mkdevs (dv_hw s) (dv_uart s) v (dv_ioapicid s) (dv_wrv s).
Definition set_dv_ioapicid (v : Z) (s : devs) : devs := mkdevs (dv_hw s) (dv_uart s) (dv_lapic s) v (dv_wrv s).
Definition set_dv_wrv (v : Z * Z) (s : devs) : devs := mkdevs (dv_hw s) (dv_uart s) (dv_lapic s) (dv_ioapicid s) v.
Abbreviation DM := (M devs).

Definition inb_ (p : Z) : DM Z := λ s, let '(v, d) := inb p (dv_hw s) in Ret v (set_dv_hw d s).
(** The argument of [outb] is a [uchar]. *)
Definition outb_ (p v : Z) : DM unit := modify (λ s, set_dv_hw (outb p (v mod 2 ^ 8) (dv_hw s)) s).
Definition load (a : Z) : DM Z := λ s, let '(v, d) := ldm a (dv_hw s) in Ret v (set_dv_hw d s).
Definition store (a v : Z) : DM unit := modify (λ s, set_dv_hw (stm a (u32 v) (dv_hw s)) s).

(** ** picirq.c *)
Definition IO_PIC1 : Z := 0x20.
Definition IO_PIC2 : Z := 0xA0.
Definition picinit : DM unit :=
  outb_ (IO_PIC1 + 1) 0xFF;;
  outb_ (IO_PIC2 + 1) 0xFF.

(** ** ioapic.c *)
Definition IOAPIC : Z := 0xFEC00000.
Definition REG_ID : Z := 0x00.
Definition REG_VER : Z := 0x01.
Definition REG_TABLE : Z := 0x10.
Definition INT_DISABLED : Z := 0x00010000.

(** [ioapic->reg] and [ioapic->data] *)
Definition ioapicread (reg : Z) : DM Z :=
  store IOAPIC reg;;
  load (IOAPIC + 16).
Definition ioapicwrite (reg data : Z) : DM unit :=
  store IOAPIC reg;;
  store (IOAPIC + 16) data.

(** The message of an unexpected id is output only. *)
Definition ioapicinit : DM unit :=
  ver ← ioapicread REG_VER;
  let maxintr := Z.land (Z.shiftr ver 16) 0xFF in
  _ ← ioapicread REG_ID;
  mfor (seq 0 (Z.to_nat (maxintr + 1))) (λ n,
    let i := Z.of_nat n in
    ioapicwrite (REG_TABLE + 2 * i) (Z.lor INT_DISABLED (T_IRQ0 + i));;
    ioapicwrite (REG_TABLE + 2 * i + 1) 0).

Definition ioapicenable (irq cpunum : Z) : DM unit :=
  ioapicwrite (REG_TABLE + 2 * irq) (T_IRQ0 + irq);;
  ioapicwrite (REG_TABLE + 2 * irq + 1) (Z.shiftl cpunum 24).

(** ** lapic.c *)
Definition ID : Z := 0x0020 / 4.
Definition VER : Z := 0x0030 / 4.
Definition TPR : Z := 0x0080 / 4.
Definition EOI : Z := 0x00B0 / 4.
Definition SVR : Z := 0x00F0 / 4.
Definition ENABLE : Z := 0x00000100.
Definition ESR : Z := 0x0280 / 4.
Definition ICRLO : Z := 0x0300 / 4.
Definition INIT : Z := 0x00000500.
Definition STARTUP : Z := 0x00000600.
Definition DELIVS : Z := 0x00001000.
Definition ASSERT : Z := 0x00004000.
Definition LEVEL : Z := 0x00008000.
Definition BCAST : Z := 0x00080000.
Definition ICRHI : Z := 0x0310 / 4.
Definition TIMER : Z := 0x0320 / 4.
Definition X1 : Z := 0x0000000B.
Definition PERIODIC : Z := 0x00020000.
Definition PCINT : Z := 0x0340 / 4.
Definition LINT0 : Z := 0x0350 / 4.
Definition LINT1 : Z := 0x0360 / 4.
Definition ERROR : Z := 0x0370 / 4.
Definition MASKED : Z := 0x00010000.
Definition TICR : Z := 0x0380 / 4.
Definition TDCR : Z := 0x03E0 / 4.

(** [lapic[index]] *)
Definition lapicr (index : Z) : DM Z := l ← gets dv_lapic; load (l + 4 * index).
Definition lapicw (index value : Z) : DM unit :=
  l ← gets dv_lapic;
  store (l + 4 * index) value;;
  _ ← lapicr ID; mret tt.

(** [while(lapic[ICRLO] & DELIVS);] *)
Fixpoint delivered (fuel : nat) : DM unit :=
  match fuel with
  | O => fault
  | S fuel' =>
      v ← lapicr ICRLO;
      if negb (Z.land v DELIVS =? 0) then delivered fuel' else mret tt
  end.

Definition lapicinit (fuel : nat) : DM unit :=
  l ← gets dv_lapic;
  if l =? 0 then mret tt else
  lapicw SVR (Z.lor ENABLE (T_IRQ0 + IRQ_SPURIOUS));;
  lapicw TDCR X1;;
  lapicw TIMER (Z.lor PERIODIC (T_IRQ0 + IRQ_TIMER));;
  lapicw TICR 10000000;;
  lapicw LINT0 MASKED;;
  lapicw LINT1 MASKED;;
  ver ← lapicr VER;
  (if 4 <=? Z.land (Z.shiftr ver 16) 0xFF then lapicw PCINT MASKED else mret tt);;
  lapicw ERROR (T_IRQ0 + IRQ_ERROR);;
  lapicw ESR 0;;
  lapicw ESR 0;;
  lapicw EOI 0;;
  lapicw ICRHI 0;;
  lapicw ICRLO (Z.lor (Z.lor BCAST INIT) LEVEL);;
  delivered fuel;;
  lapicw TPR 0.

Definition lapicid : DM Z :=
  l ← gets dv_lapic;
  if l =? 0 then mret 0 else
  v ← lapicr ID;
  mret (Z.shiftr v 24).

Definition lapiceoi : DM unit :=
  l ← gets dv_lapic;
  if l =? 0 then mret tt else lapicw EOI 0.

Definition microdelay (us : Z) : DM unit := mret tt.

Definition CMOS_PORT : Z := 0x70.
Definition CMOS_RETURN : Z := 0x71.

Definition lapicstartap (apicid addr : Z) : DM unit :=
  outb_ CMOS_PORT 0xF;;
  outb_ (CMOS_PORT + 1) 0x0A;;
  modify (set_dv_wrv (0, Z.shiftr addr 4 mod 2 ^ 16));;
  lapicw ICRHI (Z.shiftl apicid 24);;
  lapicw ICRLO (Z.lor (Z.lor INIT LEVEL) ASSERT);;
  microdelay 200;;
  lapicw ICRLO (Z.lor INIT LEVEL);;
  microdelay 100;;
  mfor (seq 0 2) (λ _,
    lapicw ICRHI (Z.shiftl apicid 24);;
    lapicw ICRLO (Z.lor STARTUP (Z.shiftr addr 12));;
    microdelay 200).

(** *** The clock *)
Record rtcdate := mkdate { second : Z; minute : Z; hour : Z; day : Z; month : Z; year : Z }.
#[global] Instance rtcdate_eq_dec : EqDecision rtcdate.
Proof. solve_decision. Defined.

Definition CMOS_STATA : Z := 0x0a.
Definition CMOS_STATB : Z := 0x0b.
Definition CMOS_UIP : Z := Z.shiftl 1 7.
Definition SECS : Z := 0x00.
Definition MINS : Z := 0x02.
Definition HOURS : Z := 0x04.
Definition DAY : Z := 0x07.
Definition MONTH : Z := 0x08.
Definition YEAR : Z := 0x09.

Definition cmos_read (reg : Z) : DM Z :=
  outb_ CMOS_PORT reg;;
  microdelay 200;;
  inb_ CMOS_RETURN.

Definition fill_rtcdate : DM rtcdate :=
  se ← cmos_read SECS;
  mi ← cmos_read MINS;
  ho ← cmos_read HOURS;
  da ← cmos_read DAY;
  mo ← cmos_read MONTH;
  ye ← cmos_read YEAR;
  mret (mkdate se mi ho da mo ye).

(** The loop that reads the clock twice. *)
Fixpoint read_clock (fuel : nat) : DM rtcdate :=
  match fuel with
  | O => fault
  | S fuel' =>
      t1 ← fill_rtcdate;
      a ← cmos_read CMOS_STATA;
      if negb (Z.land a CMOS_UIP =? 0) then read_clock fuel' else
      t2 ← fill_rtcdate;
      if decide (t1 = t2) then mret t1 else read_clock fuel'
  end.

Definition CONV (x : Z) : Z := u32 (Z.shiftr x 4 * 10 + Z.land x 0xf).
Definition conv_date (t : rtcdate) : rtcdate :=
  mkdate (CONV (second t)) (CONV (minute t)) (CONV (hour t)) (CONV (day t)) (CONV (month t)) (CONV (year t)).

Definition cmostime (fuel : nat) : DM rtcdate :=
  sb ← cmos_read CMOS_STATB;
  let bcd := Z.land sb (Z.shiftl 1 2) =? 0 in
  t1 ← read_clock fuel;
  let t := if bcd then conv_date t1 else t1 in
  mret (mkdate (second t) (minute t) (hour t) (day t) (month t) (u32 (year t + 2000))).

(** ** uart.c *)
Definition COM1 : Z := 0x3f8.

(** [for(i = 0; i < 128 && !(inb(COM1+5) & 0x20); i++) microdelay(10)] *)
Fixpoint uart_wait (n : nat) : DM unit :=
  match n with
  | O => mret tt
  | S n' =>
      v ← inb_ (COM1 + 5);
      if negb (Z.land v 0x20 =? 0) then mret tt else
      microdelay 10;;
      uart_wait n'
  end.

Definition uartputc (c : Z) : DM unit :=
  u ← gets dv_uart;
  if negb u then mret tt else
  uart_wait 128;;
  outb_ (COM1 + 0) c.

Definition uartgetc : DM Z :=
  u ← gets dv_uart;
  if negb u then mret (-1) else
  v ← inb_ (COM1 + 5);
  if Z.land v 0x01 =? 0 then mret (-1) else
  inb_ (COM1 + 0).

(** The characters of "xv6...\n". *)
Definition banner : list Z := [120; 118; 54; 46; 46; 46; 10].

Definition uartinit : DM unit :=
  outb_ (COM1 + 2) 0;;
  outb_ (COM1 + 3) 0x80;;
  outb_ (COM1 + 0) (115200 / 9600);;
  outb_ (COM1 + 1) 0;;
  outb_ (COM1 + 3) 0x03;;
  outb_ (COM1 + 4) 0;;
  outb_ (COM1 + 1) 0x01;;
  v ← inb_ (COM1 + 5);
  if v =? 0xFF then mret tt else
  modify (set_dv_uart true);;
  _ ← inb_ (COM1 + 2);
  _ ← inb_ (COM1 + 0);
  ioapicenable IRQ_COM1 0;;
  mfor banner uartputc.
End devices.
Arguments devs D : clear implicits.
End Devices.

(** ** What the interrupt controller and the clock are left with

    [IoApic] and [Cmos] say how the registers behind an index register behave; [board] is an
    instance of both. *)
Class IoApic (D : Type) `{!Mmio D} := {
  ia_index : D → Z;
  ia_reg : D → Z → Z;
  ia_select d r : ia_index (stm Devices.IOAPIC r d) = r ∧ ia_reg (stm Devices.IOAPIC r d) = ia_reg d;
  ia_store d v :
    ia_index (stm (Devices.IOAPIC + 16) v d) = ia_index d
    ∧ ∀ r, ia_reg (stm (Devices.IOAPIC + 16) v d) r
        = if (r =? ia_index d) && (Devices.REG_TABLE <=? r) then v else ia_reg d r;
  ia_load d : ldm (Devices.IOAPIC + 16) d = (ia_reg d (ia_index d), d);
}.

(** The clock stands still. *)
Class Cmos (D : Type) `{!Ports D} := {
  cm_index : D → Z;
  cm_reg : D → Z → Z;
  cm_select d r : cm_index (outb Devices.CMOS_PORT r d) = r ∧ cm_reg (outb Devices.CMOS_PORT r d) = cm_reg d;
  cm_read d : inb Devices.CMOS_RETURN d = (cm_reg d (cm_index d), d);
}.

Section ioapic.
Context {D : Type} `{!Ports D, !Mmio D, !IoApic D}.
Implicit Types s : Devices.devs D.
Abbreviation reg s := (ia_reg (Devices.dv_hw s)).

Lemma ioapicwrite_run s r v :
  is_u32 r → Devices.REG_TABLE <= r →
  ∃ s', Devices.ioapicwrite r v s = Ret tt s' ∧ ∀ q, reg s' q = if q =? r then u32 v else reg s q.
Proof.
  intros Hr Ht. unfold Devices.ioapicwrite, Devices.store. rewrite bind_modify. rewrite (u32_id r) by done.
  eexists. split; [done|]. intros q. cbn [Devices.dv_hw Devices.set_dv_hw].
  destruct (ia_select (Devices.dv_hw s) r) as [I1 R1]. set (d1 := stm _ r _) in *.
  destruct (ia_store d1 (u32 v)) as [_ R2]. rewrite R2, I1, R1.
  destruct (Z.eqb_spec q r) as [->|]; [by rewrite (proj2 (Z.leb_le _ _))|done].
Qed.

Lemma ioapicread_run s r : is_u32 r → ∃ s', Devices.ioapicread r s = Ret (reg s r) s' ∧ reg s' = reg s.
Proof.
  intros Hr. unfold Devices.ioapicread, Devices.store, Devices.load. rewrite bind_modify, (u32_id r) by done.
  cbn [Devices.dv_hw Devices.set_dv_hw]. destruct (ia_select (Devices.dv_hw s) r) as [I1 R1].
  rewrite ia_load, I1, R1. eexists. split; [done|]. exact R1.
Qed.

(** The two registers of the interrupt [i]. *)
Definition entry_lo s (i : Z) : Z := reg s (Devices.REG_TABLE + 2 * i).
Definition entry_hi s (i : Z) : Z := reg s (Devices.REG_TABLE + 2 * i + 1).
Definition masked s (i : Z) : Prop := entry_lo s i = Z.lor Devices.INT_DISABLED (T_IRQ0 + i) ∧ entry_hi s i = 0.
Definition routed s (i cpu : Z) : Prop := entry_lo s i = T_IRQ0 + i ∧ entry_hi s i = Z.shiftl cpu 24.
Definition same_entry s s' (i : Z) : Prop := entry_lo s' i = entry_lo s i ∧ entry_hi s' i = entry_hi s i.

Lemma entry_run s i lo hi :
  0 <= i < 256 →
  ∃ s', (Devices.ioapicwrite (Devices.REG_TABLE + 2 * i) lo;; Devices.ioapicwrite (Devices.REG_TABLE + 2 * i + 1) hi) s = Ret tt s'
    ∧ entry_lo s' i = u32 lo ∧ entry_hi s' i = u32 hi ∧ (∀ j, j ≠ i → same_entry s s' j)
    ∧ ∀ r, r < Devices.REG_TABLE → reg s' r = reg s r.
Proof.
  intros Hi. change Devices.REG_TABLE with 16.
  destruct (ioapicwrite_run s (16 + 2 * i) lo) as (s1 & E1 & R1); [unfold is_u32; lia|change Devices.REG_TABLE with 16; lia|].
  destruct (ioapicwrite_run s1 (16 + 2 * i + 1) hi) as (s2 & E2 & R2); [unfold is_u32; lia|change Devices.REG_TABLE with 16; lia|].
  exists s2. rewrite (bind_ret _ _ _ _ _ E1). split; [done|].
  unfold same_entry, entry_lo, entry_hi. change Devices.REG_TABLE with 16. split_and!.
  - rewrite R2, R1. rewrite (proj2 (Z.eqb_neq _ _)), Z.eqb_refl by lia. done.
  - rewrite R2, Z.eqb_refl. done.
  - intros j Hj. rewrite !R2, !R1, !(proj2 (Z.eqb_neq _ _)) by lia. done.
  - intros r Hr. rewrite R2, R1, !(proj2 (Z.eqb_neq _ _)) by lia. done.
Qed.

(** ** After [ioapicinit] nothing interrupts *)
Definition maxintr s : Z := Z.land (Z.shiftr (reg s Devices.REG_VER) 16) 0xFF.

Lemma maxintr_bound s : 0 <= maxintr s < 256.
Proof. unfold maxintr. change 0xFF with (Z.ones 8). rewrite Z.land_ones by lia. apply Z.mod_pos_bound. lia. Qed.

Lemma ioapicinit_run s : ∃ s', Devices.ioapicinit s = Ret tt s' ∧ ∀ i, 0 <= i <= maxintr s → masked s' i.
Proof.
  unfold Devices.ioapicinit. pose proof (maxintr_bound s) as Hb.
  destruct (ioapicread_run s Devices.REG_VER) as (s1 & E1 & R1); [done|]. rewrite (bind_ret _ _ _ _ _ E1).
  destruct (ioapicread_run s1 Devices.REG_ID) as (s2 & E2 & R2); [done|]. rewrite (bind_ret _ _ _ _ _ E2). fold (maxintr s).
  match goal with |- ∃ s', mfor ?l ?b ?s0 = _ ∧ _ => assert (returns (mfor l b) s0 (λ _ s', ∀ i, 0 <= i <= maxintr s → masked s' i)) as H end.
  - apply (returns_mfor _ _ (λ done s', ∀ n, n ∈ done → masked s' (Z.of_nat n))).
    + by intros n ?%not_elem_of_nil.
    + intros don n rest s3 Hl H3.
      assert (n ∈ seq 0 (Z.to_nat (maxintr s + 1))) as Hn by (rewrite Hl; apply elem_of_app; right; by left).
      apply elem_of_seq in Hn.
      destruct (entry_run s3 (Z.of_nat n) (Z.lor Devices.INT_DISABLED (T_IRQ0 + Z.of_nat n)) 0) as (s4 & E4 & L4 & H4 & O4 & _); [lia|].
      unfold returns. rewrite E4. intros k Hk.
      destruct (decide (k = n)) as [->|Hne].
      * split; [|done]. rewrite L4. apply u32_id, lor_below; unfold Devices.INT_DISABLED, T_IRQ0; lia.
      * apply elem_of_app in Hk as [Hk|Hk%list_elem_of_singleton]; [|done]. destruct (O4 (Z.of_nat k)) as [O1 O2]; [lia|].
        unfold masked. rewrite O1, O2. by apply H3.
    + intros s3 H3 i Hi. rewrite <-(Z2Nat.id i) by lia. apply H3, elem_of_seq. lia.
  - apply returns_eq in H as ([] & s' & E & H). eauto.
Qed.
End ioapic.

Section enable.
Context {D : Type} `{!Ports D, !Mmio D, !IoApic D}.
Implicit Types s : Devices.devs D.

Lemma ioapicenable_run s irq cpu :
  0 <= irq < 200 → 0 <= cpu < 2 ^ 8 →
  ∃ s', Devices.ioapicenable irq cpu s = Ret tt s' ∧ routed s' irq cpu ∧ ∀ j, j ≠ irq → same_entry s s' j.
Proof.
  intros Hi Hc. destruct (entry_run s irq (T_IRQ0 + irq) (Z.shiftl cpu 24)) as (s' & E & L & H & O & _); [lia|].
  exists s'. split; [done|]. split; [|done]. split.
  - rewrite L. apply u32_id. unfold is_u32, T_IRQ0. lia.
  - rewrite H. apply u32_id. rewrite Z.shiftl_mul_pow2 by lia. unfold is_u32. lia.
Qed.

(** [ioapicenable] for several interrupts. *)
Definition enables (l : list (Z * Z)) : M (Devices.devs D) unit := mfor l (λ '(irq, cpu), Devices.ioapicenable irq cpu).

Lemma enables_run l s :
  Forall (λ ic, 0 <= ic.1 < 200 ∧ 0 <= ic.2 < 2 ^ 8) l → NoDup l.*1 →
  ∃ s', enables l s = Ret tt s' ∧ (∀ irq cpu, (irq, cpu) ∈ l → routed s' irq cpu)
    ∧ ∀ j, j ∉ l.*1 → same_entry s s' j.
Proof.
  revert s. induction l as [|[irq cpu] l IH]; intros s Hl Hnd.
  { exists s. split; [done|]. split; [by intros ? ? ?%not_elem_of_nil|done]. }
  apply Forall_cons in Hl as [[H1 H2] Hl]. apply NoDup_cons in Hnd as [Hni Hnd]. cbn [fst snd] in *.
  destruct (ioapicenable_run s irq cpu H1 H2) as (s1 & E1 & R1 & O1). destruct (IH s1 Hl Hnd) as (s2 & E2 & R2 & O2).
  exists s2. split; [unfold enables; cbn [mfor]; by rewrite (bind_ret _ _ _ _ _ E1)|]. split.
  - intros i c [[= -> ->]|Hic]%elem_of_cons; [|by apply R2]. destruct (O2 irq Hni) as [A1 A2].
    unfold routed in *. by rewrite A1, A2.
  - intros j Hj. apply not_elem_of_cons in Hj as [Hj1 Hj2]. destruct (O1 j Hj1) as [B1 B2], (O2 j Hj2) as [C1 C2].
    split; congruence.
Qed.

(** after [ioapicinit] and any calls of [ioapicenable] for different interrupts, exactly
    these are delivered, each to its processor with its vector; every other interrupt of
    the controller is masked. *)
Theorem ioapic_routes s l :
  Forall (λ ic, 0 <= ic.1 < 200 ∧ 0 <= ic.2 < 2 ^ 8) l → NoDup l.*1 →
  ∃ s', (Devices.ioapicinit;; enables l) s = Ret tt s'
    ∧ (∀ irq cpu, (irq, cpu) ∈ l → routed s' irq cpu)
    ∧ ∀ i, 0 <= i <= maxintr s → i ∉ l.*1 → masked s' i.
Proof.
  intros Hl Hnd. destruct (ioapicinit_run s) as (s1 & E1 & M1). rewrite (bind_ret _ _ _ _ _ E1).
  destruct (enables_run l s1 Hl Hnd) as (s2 & E2 & R2 & O2). exists s2. split; [done|]. split; [done|].
  intros i Hi Hni. destruct (O2 i Hni) as [A1 A2], (M1 i Hi) as [B1 B2]. split; congruence.
Qed.
End enable.

Section cmos.
Context {D : Type} `{!Ports D, !Mmio D, !Cmos D}.
Implicit Types s : Devices.devs D.
Abbreviation clock s := (cm_reg (Devices.dv_hw s)).

Lemma cmos_read_run s r : 0 <= r < 2 ^ 8 → ∃ s', Devices.cmos_read r s = Ret (clock s r) s' ∧ clock s' = clock s.
Proof.
  intros Hr. unfold Devices.cmos_read, Devices.outb_, Devices.inb_, Devices.microdelay. rewrite bind_modify, bind_mret.
  cbn [Devices.dv_hw Devices.set_dv_hw]. rewrite Z.mod_small by done.
  destruct (cm_select (Devices.dv_hw s) r) as [I1 R1]. rewrite cm_read, I1, R1. eexists. split; [done|]. exact R1.
Qed.

Definition raw_date (c : Z → Z) : Devices.rtcdate :=
  Devices.mkdate (c Devices.SECS) (c Devices.MINS) (c Devices.HOURS) (c Devices.DAY) (c Devices.MONTH) (c Devices.YEAR).

Lemma fill_rtcdate_run s : ∃ s', Devices.fill_rtcdate s = Ret (raw_date (clock s)) s' ∧ clock s' = clock s.
Proof.
  unfold Devices.fill_rtcdate.
  destruct (cmos_read_run s Devices.SECS ltac:(done)) as (s1 & E1 & C1). rewrite (bind_ret _ _ _ _ _ E1).
  destruct (cmos_read_run s1 Devices.MINS ltac:(done)) as (s2 & E2 & C2). rewrite (bind_ret _ _ _ _ _ E2).
  destruct (cmos_read_run s2 Devices.HOURS ltac:(done)) as (s3 & E3 & C3). rewrite (bind_ret _ _ _ _ _ E3).
  destruct (cmos_read_run s3 Devices.DAY ltac:(done)) as (s4 & E4 & C4). rewrite (bind_ret _ _ _ _ _ E4).
  destruct (cmos_read_run s4 Devices.MONTH ltac:(done)) as (s5 & E5 & C5). rewrite (bind_ret _ _ _ _ _ E5).
  destruct (cmos_read_run s5 Devices.YEAR ltac:(done)) as (s6 & E6 & C6). rewrite (bind_ret _ _ _ _ _ E6).
  exists s6. unfold raw_date. rewrite C5, C4, C3, C2, C1. split; [done|]. congruence.
Qed.

(** The number of two decimal digits that a byte codes. *)
Definition to_bcd (x : Z) : Z := x / 10 * 16 + x mod 10.

Lemma CONV_bcd x : 0 <= x < 100 → Devices.CONV (to_bcd x) = x.
Proof.
  intros Hx. assert (forallb (λ y, Devices.CONV (to_bcd y) =? y) (seqZ 0 100) = true) as H by (vm_compute; reflexivity).
  rewrite forallb_forall in H. apply Z.eqb_eq, H, list_elem_of_In, elem_of_seqZ. lia.
Qed.

(** A clock in decimal code gives the date it shows. *)
Lemma cmostime_run s fuel se mi ho da mo ye :
  Forall (λ x, 0 <= x < 100) [se; mi; ho; da; mo; ye] →
  raw_date (clock s) = Devices.mkdate (to_bcd se) (to_bcd mi) (to_bcd ho) (to_bcd da) (to_bcd mo) (to_bcd ye) →
  Z.land (clock s Devices.CMOS_STATB) (Z.shiftl 1 2) = 0 → Z.land (clock s Devices.CMOS_STATA) Devices.CMOS_UIP = 0 →
  ∃ s', Devices.cmostime (S fuel) s = Ret (Devices.mkdate se mi ho da mo (2000 + ye)) s'.
Proof.
  intros Hr Hc Hb Ha. unfold Devices.cmostime. cbn [Devices.read_clock].
  destruct (cmos_read_run s Devices.CMOS_STATB ltac:(done)) as (s1 & E1 & C1). rewrite (bind_ret _ _ _ _ _ E1), Hb.
  change (0 =? 0) with true. cbv iota.
  destruct (fill_rtcdate_run s1) as (s2 & E2 & C2). rewrite bind_assoc, (bind_ret _ _ _ _ _ E2).
  destruct (cmos_read_run s2 Devices.CMOS_STATA ltac:(done)) as (s3 & E3 & C3).
  rewrite bind_assoc, (bind_ret _ _ _ _ _ E3), C2, C1, Ha. change (negb (0 =? 0)) with false. cbv iota.
  destruct (fill_rtcdate_run s3) as (s4 & E4 & C4). rewrite bind_assoc, (bind_ret _ _ _ _ _ E4), C3, C2, C1.
  rewrite decide_True by done. rewrite bind_mret, Hc. exists s4. unfold Devices.conv_date. cbn [Devices.second Devices.minute Devices.hour Devices.day Devices.month Devices.year].
  rewrite !Forall_cons in Hr. destruct Hr as (?&?&?&?&?&?&_). rewrite !CONV_bcd by done.
  rewrite (u32_id (ye + 2000)) by (unfold is_u32; lia). unfold mret, M_ret. do 2 f_equal. lia.
Qed.
End cmos.

(** ** An instance *)
Record board := mkboard { bd_index : Z; bd_reg : Z → Z; bd_clock : Z → Z; bd_cindex : Z }.
#[export] Instance board_ports : Ports board := {|
  inb p d := if p =? Devices.CMOS_RETURN then (bd_clock d (bd_cindex d), d) else (0, d);
  outb p v d := if p =? Devices.CMOS_PORT then mkboard (bd_index d) (bd_reg d) (bd_clock d) v else d;
  insl _ _ d := ([], d);
  outsl _ _ d := d |}.
#[export] Instance board_mmio : Mmio board := {|
  ldm a d := if a =? Devices.IOAPIC + 16 then (bd_reg d (bd_index d), d) else (0, d);
  stm a v d :=
    if a =? Devices.IOAPIC then mkboard v (bd_reg d) (bd_clock d) (bd_cindex d)
    else if a =? Devices.IOAPIC + 16 then
      mkboard (bd_index d) (λ r, if (r =? bd_index d) && (Devices.REG_TABLE <=? r) then v else bd_reg d r) (bd_clock d) (bd_cindex d)
    else d |}.
#[export, program] Instance board_ioapic : IoApic board := {| ia_index := bd_index; ia_reg := bd_reg |}.
Solve Obligations with done.
#[export, program] Instance board_cmos : Cmos board := {| cm_index := bd_cindex; cm_reg := bd_clock |}.
Solve Obligations with done.

(** The keyboard and the disk of a machine with 24 interrupts. *)
Lemma ioapic_routes_witness :
  ∃ s', (Devices.ioapicinit;; enables [(IRQ_KBD, 0); (IRQ_IDE, 1)])
      (Devices.mkdevs (mkboard 0 (λ r, if r =? 1 then 0x170011 else 0) (λ _, 0) 0) false 0 0 (0, 0)) = Ret tt s'
    ∧ routed s' IRQ_IDE 1 ∧ masked s' IRQ_TIMER.
Proof.
  destruct (ioapic_routes (Devices.mkdevs (mkboard 0 (λ r, if r =? 1 then 0x170011 else 0) (λ _, 0) 0) false 0 0 (0, 0))
    [(IRQ_KBD, 0); (IRQ_IDE, 1)]) as (s' & E & R & Mk).
  - repeat constructor; vm_compute; discriminate.
  - apply (bool_decide_unpack _). vm_compute. exact I.
  - exists s'. split; [exact E|]. split; [apply R; right; by left|].
    apply Mk; [split; vm_compute; discriminate|]. apply (bool_decide_unpack _). vm_compute. exact I.
Defined.
