(* ===== verification/Ide.v ===== *)
(** * The disk driver (ide.c)

    The driver over the ports of [Hw] and the buffers of bio.c.  [idequeue] and [qnext]
    are the links of the queue; a process that waits for its request sleeps on the buffer
    and takes up at [iderw_wait]. *)
From S2P Require Import Prelude Params Block Bio Hw Devices.

Module Ide.
Section ide.
Context {D : Type} `{!Ports D, !Mmio D}.

Definition SECTOR_SIZE : Z := 512.
Definition IDE_BSY : Z := 0x80.
Definition IDE_DRDY : Z := 0x40.
Definition IDE_DF : Z := 0x20.
Definition IDE_ERR : Z := 0x01.
Definition IDE_CMD_READ : Z := 0x20.
Definition IDE_CMD_WRITE : Z := 0x30.
Definition IDE_CMD_RDMUL : Z := 0xc4.
Definition IDE_CMD_WRMUL : Z := 0xc5.

Record ide := mkide {
  id_lock : bool;  (* idelock *)
  id_queue : option nat;  (* idequeue *)
  id_qnext : list (option nat);  (* qnext of every buffer *)
  id_disk1 : bool;  (* havedisk1 *)
  id_bufs : list buf;
  id_pid : Z;  (* myproc()->pid *)
  id_wakeups : list chan;
  id_devs : Devices.devs D
}.
Definition set_id_lock (v : bool) (s : ide) : ide :=
  mkide v (id_queue s) (id_qnext s) (id_disk1 s) (id_bufs s) (id_pid s) (id_wakeups s) (id_devs s).
Definition set_id_queue (v : option nat) (s : ide) : ide :=
  mkide (id_lock s) v (id_qnext s) (id_disk1 s) (id_bufs s) (id_pid s) (id_wakeups s) (id_devs s).
Definition set_id_qnext (v : list (option nat)) (s : ide) : ide :=
  mkide (id_lock s) (id_queue s) v (id_disk1 s) (id_bufs s) (id_pid s) (id_wakeups s) (id_devs s).
Definition set_id_disk1 (v : bool) (s : ide) : ide :=
  mkide (id_lock s) (id_queue s) (id_qnext s) v (id_bufs s) (id_pid s) (id_wakeups s) (id_devs s).
Definition set_id_bufs (v : list buf) (s : ide) : ide :=
  mkide (id_lock s) (id_queue s) (id_qnext s) (id_disk1 s) v (id_pid s) (id_wakeups s) (id_devs s).
Definition set_id_pid (v : Z) (s : ide) : ide :=
  mkide (id_lock s) (id_queue s) (id_qnext s) (id_disk1 s) (id_bufs s) v (id_wakeups s) (id_devs s).
Definition set_id_wakeups (v : list chan) (s : ide) : ide :=
  mkide (id_lock s) (id_queue s) (id_qnext s) (id_disk1 s) (id_bufs s) (id_pid s) v (id_devs s).
Definition set_id_devs (v : Devices.devs D) (s : ide) : ide :=
  mkide (id_lock s) (id_queue s) (id_qnext s) (id_disk1 s) (id_bufs s) (id_pid s) (id_wakeups s) v.
Abbreviation IM := (M ide).

Definition on_devs {A} (m : M (Devices.devs D) A) : IM A := λ s,
  match m (id_devs s) with
  | Ret a d => Ret a (set_id_devs d s)
  | Panic msg => Panic msg
  | Fault => Fault
  | Asleep c d => Asleep c (set_id_devs d s)
  end.
Definition hw (s : ide) : D := Devices.dv_hw (id_devs s).
Definition set_hw (d : D) (s : ide) : ide := set_id_devs (Devices.set_dv_hw d (id_devs s)) s.
Definition in_ (p : Z) : IM Z := on_devs (Devices.inb_ p).
Definition out_ (p v : Z) : IM unit := on_devs (Devices.outb_ p v).

Definition acquire_ide : IM unit := λ s,
  if id_lock s then Panic "acquire" else Ret tt (set_id_lock true s).
Definition release_ide : IM unit := λ s,
  if id_lock s then Ret tt (set_id_lock false s) else Panic "release".
Definition getbuf (i : nat) : IM buf := b ← gets (λ s, id_bufs s !! i); deref b.
Definition updbuf (i : nat) (f : buf → buf) : IM unit :=
  modify (λ s, set_id_bufs (alter f i (id_bufs s)) s).
Definition wakeup_ide (c : chan) : IM unit := modify (λ s, set_id_wakeups (id_wakeups s ++ [c]) s).

(** The loop of [idewait] runs on fuel: the result is -1 or 0. *)
Fixpoint idewait (fuel : nat) (checkerr : bool) : IM Z :=
  match fuel with
  | O => fault
  | S fuel' =>
      r ← in_ 0x1f7;
      if negb (Z.land r (Z.lor IDE_BSY IDE_DRDY) =? IDE_DRDY) then idewait fuel' checkerr else
      if checkerr && negb (Z.land r (Z.lor IDE_DF IDE_ERR) =? 0) then mret (-1) else mret 0
  end.

(** [for(i=0; i<1000; i++) if(inb(0x1f7) != 0){ havedisk1 = 1; break; }] *)
Fixpoint probe (n : nat) : IM unit :=
  match n with
  | O => mret tt
  | S n' =>
      r ← in_ 0x1f7;
      if negb (r =? 0) then modify (set_id_disk1 true) else probe n'
  end.

Definition ideinit (fuel : nat) (ncpu : Z) : IM unit :=
  modify (set_id_lock false);;
  on_devs (Devices.ioapicenable IRQ_IDE (ncpu - 1));;
  _ ← idewait fuel false;
  out_ 0x1f6 (Z.lor 0xe0 (Z.shiftl 1 4));;
  probe 1000;;
  out_ 0x1f6 (Z.lor 0xe0 (Z.shiftl 0 4)).

Definition idestart (fuel : nat) (b : option nat) : IM unit :=
  match b with
  | None => panic "idestart"
  | Some i =>
      b ← getbuf i;
      if FSSIZE <=? b_blockno b then panic "incorrect blockno" else
      let sector_per_block := BSIZE / SECTOR_SIZE in
      let sector := s32 (b_blockno b * sector_per_block) in
      let read_cmd := if sector_per_block =? 1 then IDE_CMD_READ else IDE_CMD_RDMUL in
      let write_cmd := if sector_per_block =? 1 then IDE_CMD_WRITE else IDE_CMD_WRMUL in
      if 7 <? sector_per_block then panic "idestart" else
      _ ← idewait fuel false;
      out_ 0x3f6 0;;
      out_ 0x1f2 sector_per_block;;
      out_ 0x1f3 (Z.land sector 0xff);;
      out_ 0x1f4 (Z.land (Z.shiftr sector 8) 0xff);;
      out_ 0x1f5 (Z.land (Z.shiftr sector 16) 0xff);;
      out_ 0x1f6 (Z.lor (Z.lor 0xe0 (Z.shiftl (Z.land (b_dev b) 1) 4)) (Z.land (Z.shiftr sector 24) 0x0f));;
      if b_dirty b then
        out_ 0x1f7 write_cmd;;
        modify (λ s, set_hw (outsl 0x1f0 (take (Z.to_nat BSIZE) (b_data b)) (hw s)) s)
      else
        out_ 0x1f7 read_cmd
  end.

(** [insl(0x1f0, b->data, BSIZE/4)] *)
Definition read_data (i : nat) : IM unit :=
  '(data, d) ← gets (λ s, insl 0x1f0 (Z.to_nat (BSIZE / 4)) (hw s));
  modify (set_hw d);;
  updbuf i (set_b_data data).

(** The active request is done: its data, its flags, its process. *)
Definition finish (fuel : nat) (i : nat) : IM unit :=
  b ← getbuf i;
  (if b_dirty b then mret tt else
   r ← idewait fuel true;
   if 0 <=? r then read_data i else mret tt);;
  updbuf i (set_b_valid true);;
  updbuf i (set_b_dirty false);;
  wakeup_ide (ChBuf i).

Definition ideintr (fuel : nat) : IM unit :=
  acquire_ide;;
  q ← gets id_queue;
  match q with
  | None => release_ide
  | Some i =>
      next ← gets (λ s, id_qnext s !! i);
      next ← deref next;
      modify (set_id_queue next);;
      finish fuel i;;
      q ← gets id_queue;
      (match q with Some _ => idestart fuel q | None => mret tt end);;
      release_ide
  end.

(** The loop that looks for the end of the queue and links [b] there; [pp] is the link of a
    buffer, or [idequeue]. *)
Fixpoint append (fuel : nat) (pp : option nat) (b : nat) : IM unit :=
  match fuel with
  | O => fault
  | S fuel' =>
      link ← (match pp with
              | None => gets id_queue
              | Some i => l ← gets (λ s, id_qnext s !! i); deref l
              end);
      match link with
      | Some _ => append fuel' link b
      | None =>
          match pp with
          | None => modify (set_id_queue (Some b))
          | Some i => modify (λ s, set_id_qnext (<[i := Some b]> (id_qnext s)) s)
          end
      end
  end.

(** [while((b->flags & (B_VALID|B_DIRTY)) != B_VALID) sleep(b, &idelock)] *)
Definition iderw_wait (i : nat) : IM unit :=
  b ← getbuf i;
  if b_valid b && negb (b_dirty b) then release_ide else
  release_ide;;  (* in sleep *)
  go_to_sleep (ChBuf i).
(** After [sleep], which has the lock again. *)
Definition iderw_resume (i : nat) : IM unit :=
  acquire_ide;;
  iderw_wait i.

Definition iderw (fuel : nat) (i : nat) : IM unit :=
  b ← getbuf i;
  pid ← gets id_pid;
  if negb (sl_locked (b_lock b) && (sl_pid (b_lock b) =? pid)) then panic "iderw: buf not locked" else
  if b_valid b && negb (b_dirty b) then panic "iderw: nothing to do" else
  disk1 ← gets id_disk1;
  if negb (b_dev b =? 0) && negb disk1 then panic "iderw: ide disk 1 not present" else
  acquire_ide;;
  modify (λ s, set_id_qnext (<[i := None]> (id_qnext s)) s);;
  n ← gets (λ s, length (id_qnext s));
  append (S n) None i;;
  q ← gets id_queue;
  (if bool_decide (q = Some i) then idestart fuel (Some i) else mret tt);;
  iderw_wait i.
End ide.
Arguments ide D : clear implicits.
End Ide.
