(* ===== verification/IdeThms.v ===== *)
(** * The disk driver serves the requests in order, as the memory disk would

    memide.c is the driver's specification: a run of requests, interrupts and changes of
    buffers that are not queued leaves the buffers and the disk as [Bio.iderw], done for
    each request when its interrupt comes, in the order of the requests. *)
From S2P Require Import Prelude Params Block Bio BioInv Hw Devices Ide.

Section ide.
Context {D : Type} `{!Ports D, !Mmio D, !IdeDisk D} (fuel : nat) (Hfuel : (i_max < fuel)%nat).
Implicit Types (s : Ide.ide D) (d : D) (i : nat) (q : list nat) (t : storage).

Lemma hw_set d s : Ide.hw (Ide.set_hw d s) = d.
Proof. done. Qed.
Lemma set_hw_twice d d' s : Ide.set_hw d (Ide.set_hw d' s) = Ide.set_hw d s.
Proof. done. Qed.
Lemma set_hw_id s : Ide.set_hw (Ide.hw s) s = s.
Proof. by destruct s as [? ? ? ? ? ? ? [? ? ? ? ?]]. Qed.

Lemma in_run p s : Ide.in_ p s = Ret (inb p (Ide.hw s)).1 (Ide.set_hw (inb p (Ide.hw s)).2 s).
Proof. unfold Ide.in_, Ide.on_devs, Devices.inb_, Ide.hw. by destruct (inb _ _). Qed.
Lemma out_run p v s : Ide.out_ p v s = Ret tt (Ide.set_hw (outb p (v mod 2 ^ 8) (Ide.hw s)) s).
Proof. done. Qed.

(** ** Waiting ends, and finds the disk ready *)
Lemma idewait_run s check :
  ∃ d, Ide.idewait fuel check s = Ret 0 (Ide.set_hw d s) ∧ i_same (Ide.hw s) d ∧ i_polls d = 0%nat.
Proof using Hfuel.
  pose proof (i_polls_max (Ide.hw s)) as Hmax. remember (i_polls (Ide.hw s)) as n eqn:Hn.
  assert (n < fuel)%nat as Hlt by lia. clear Hfuel Hmax. revert s n Hn Hlt.
  induction fuel as [|f IH]; intros s n Hn Hlt; [lia|]. cbn [Ide.idewait].
  rewrite (bind_ret _ _ _ _ _ (in_run _ s)). pose proof (i_status (Ide.hw s)) as Hst.
  destruct (inb 0x1f7 (Ide.hw s)) as [r d]. destruct Hst as (Hs & Hp & Hr). rewrite <-Hn in *. cbn [fst snd].
  change (Z.lor Ide.IDE_BSY Ide.IDE_DRDY) with 0xc0. change (Z.lor Ide.IDE_DF Ide.IDE_ERR) with 0x21.
  case_decide as Hz.
  - destruct Hr as [-> ->]. exists d. change (0x40 =? Ide.IDE_DRDY) with true. rewrite andb_false_r. split_and!; try done. subst n. lia.
  - rewrite (proj2 (Z.eqb_neq _ Ide.IDE_DRDY)) by done. cbn [negb].
    destruct (IH (Ide.set_hw d s) (pred n)) as (d' & E & Hs' & Hp'); [by rewrite hw_set, Hp|lia|].
    exists d'. rewrite E. split_and!; [done| |done]. rewrite hw_set in Hs'. destruct Hs as (?&?&?), Hs' as (?&?&?).
    unfold i_same. split_and!; congruence.
Qed.

(** ** Starting a request *)
Lemma lba_bytes x : 0 <= x < 2 ^ 28 →
  Z.land x 0xff mod 2 ^ 8 + 2 ^ 8 * (Z.land (Z.shiftr x 8) 0xff mod 2 ^ 8)
  + 2 ^ 16 * (Z.land (Z.shiftr x 16) 0xff mod 2 ^ 8) + 2 ^ 24 * Z.land (Z.shiftr x 24) 0x0f = x.
Proof.
  intros Hx. change 0xff with (Z.ones 8). change 0x0f with (Z.ones 4). rewrite !Z.land_ones, !Z.shiftr_div_pow2 by lia.
  Z.to_euclidean_division_equations; lia.
Qed.

Lemma head_register x : 0 <= x < 2 ^ 4 →
  let v := Z.lor (Z.lor 0xe0 (Z.shiftl (Z.land 1 1) 4)) x mod 2 ^ 8 in
  v mod 2 ^ 4 = x ∧ (v / 2 ^ 4) mod 2 = 1.
Proof.
  intros Hx. assert (Forall (λ y, Z.lor 0xf0 y mod 2 ^ 8 mod 2 ^ 4 = y ∧ (Z.lor 0xf0 y mod 2 ^ 8 / 2 ^ 4) mod 2 = 1) (seqZ 0 16)) as H.
  { vm_compute. repeat constructor. }
  rewrite Forall_forall in H. apply H, elem_of_seqZ. lia.
Qed.

(** The registers [idestart] writes for the sector [n] of the second disk. *)
Definition task_file (n : Z) : list (Z * Z) :=
  [(0x1f2, 1 mod 2 ^ 8); (0x1f3, Z.land n 0xff mod 2 ^ 8); (0x1f4, Z.land (Z.shiftr n 8) 0xff mod 2 ^ 8);
   (0x1f5, Z.land (Z.shiftr n 16) 0xff mod 2 ^ 8);
   (0x1f6, Z.lor (Z.lor 0xe0 (Z.shiftl (Z.land 1 1) 4)) (Z.land (Z.shiftr n 24) 0x0f) mod 2 ^ 8)].

Lemma task_file_selects n d :
  0 <= n < 2 ^ 28 → i_polls d = 0%nat →
  let d' := foldl (λ d pv, outb pv.1 pv.2 d) d (task_file n) in
  i_polls d' = 0%nat ∧ i_sect d' = i_sect d ∧ i_phase d' = i_phase d ∧ i_regs d' 0x1f2 = 1
  ∧ tf_drive (i_regs d') = 1 ∧ tf_lba (i_regs d') = n.
Proof.
  intros Hn Hp d'. destruct (select_all (task_file n) d Hp) as (W & S & P & R).
  { repeat constructor; cbn; lia. }
  assert (0 <= Z.land (Z.shiftr n 24) 0x0f < 2 ^ 4) as Hh.
  { change 0x0f with (Z.ones 4). rewrite Z.land_ones by lia. apply Z.mod_pos_bound. lia. }
  destruct (head_register _ Hh) as [H1 H2]. pose proof (lba_bytes n Hn) as Hlba.
  split_and!; [done|done|done|by rewrite R|..]; unfold tf_drive, tf_lba; rewrite !R; unfold task_file;
    cbn [foldl fst snd Z.eqb Pos.eqb]; [exact H2|rewrite H1; exact Hlba].
Qed.

Lemma idestart_run s i b :
  Ide.id_bufs s !! i = Some b → b_dev b = 1 → 0 <= b_blockno b < FSSIZE → length (b_data b) = 512%nat →
  i_phase (Ide.hw s) = PIdle →
  ∃ d, Ide.idestart fuel (Some i) s = Ret tt (Ide.set_hw d s)
    ∧ i_phase d = (if b_dirty b then PIdle else PRead 1 (b_blockno b))
    ∧ ∀ e m, i_sect d e m = if b_dirty b && bool_decide (e = 1 ∧ m = b_blockno b) then b_data b
                            else i_sect (Ide.hw s) e m.
Proof using Hfuel.
  intros Hb Hdev Hn Hlen Hph. change FSSIZE with 40000 in Hn. unfold Ide.idestart.
  assert (Ide.getbuf i s = Ret b s) as Eb by (unfold Ide.getbuf; by rewrite bind_gets, Hb).
  rewrite (bind_ret _ _ _ _ _ Eb). change FSSIZE with 40000. rewrite (proj2 (Z.leb_gt _ _)) by lia.
  change (BSIZE / Ide.SECTOR_SIZE) with 1. rewrite Z.mul_1_r. change (7 <? 1) with false. change (1 =? 1) with true. cbv iota zeta.
  assert (s32 (b_blockno b) = b_blockno b) as -> by (apply s32_id; unfold is_s32; lia). set (n := b_blockno b) in *.
  destruct (idewait_run s false) as (d0 & E0 & (R0 & S0 & P0) & W0). rewrite (bind_ret _ _ _ _ _ E0).
  rewrite Hdev. rewrite !(bind_ret _ _ _ _ _ (out_run _ _ _)), !hw_set, !set_hw_twice.
  destruct (i_control d0 W0) as ((R1 & S1 & P1) & W1). set (d1 := outb 0x3f6 0 d0) in *.
  destruct (task_file_selects n d1 ltac:(lia) W1) as (W2 & S2 & P2 & C2 & Dr2 & L2).
  set (d2 := foldl _ d1 (task_file n)) in *. change (0 mod 2 ^ 8) with 0. fold d1.
  destruct (b_dirty b).
  - rewrite (bind_ret _ _ _ _ _ (out_run _ _ _)), hw_set, set_hw_twice.
    rewrite take_ge by (rewrite Hlen; done). exists (outsl 0x1f0 (b_data b) (outb 0x1f7 0x30 d2)).
    split; [done|]. cbn [andb].
    destruct (i_write d2 W2) as [P3 S3]; [congruence|done|].
    destruct (i_outsl (outb 0x1f7 0x30 d2) 1 n (b_data b)) as [P4 S4]; [by rewrite P3, Dr2, L2|done|].
    split; [exact P4|]. intros e m. rewrite S4, S3, S2, S1, S0. done.
  - rewrite out_run, hw_set, set_hw_twice. exists (outb 0x1f7 0x20 d2). split; [done|].
    destruct (i_read d2 W2) as [P3 S3]; [congruence|done|]. cbn [andb].
    split; [by rewrite P3, Dr2, L2|]. intros e m. by rewrite S3, S2, S1, S0.
Qed.

(** ** The queue *)
Fixpoint chain (h : option nat) (nx : list (option nat)) q : Prop :=
  match q with
  | [] => h = None
  | i :: q' => h = Some i ∧ ∃ n, nx !! i = Some n ∧ chain n nx q'
  end.

Lemma chain_other h nx q i x : i ∉ q → chain h nx q → chain h (<[i := x]> nx) q.
Proof.
  revert h. induction q as [|j q IH]; intros h Hi; [done|]. apply not_elem_of_cons in Hi as [Hne Hi].
  intros (-> & n & Hn & Hc). split; [done|]. exists n. rewrite list_lookup_insert_ne by done. eauto.
Qed.

Lemma chain_snoc h nx q i :
  NoDup q → i ∉ q → nx !! i = Some None → chain h nx q →
  match last q with
  | None => chain (Some i) nx (q ++ [i])
  | Some j => chain h (<[j := Some i]> nx) (q ++ [i])
  end.
Proof.
  revert h. induction q as [|j q IH]; intros h Hnd Hi Hx; [intros _; cbn; by eauto|].
  apply NoDup_cons in Hnd as [Hj Hnd]. apply not_elem_of_cons in Hi as [Hne Hi]. intros (-> & n & Hn & Hc).
  specialize (IH n Hnd Hi Hx Hc). destruct q as [|k q].
  - cbn in *. split; [done|]. exists (Some i). rewrite list_lookup_insert_eq by (by eapply lookup_lt_Some).
    split; [done|]. split; [done|]. exists None. by rewrite list_lookup_insert_ne.
  - rewrite last_cons_cons. destruct (last (k :: q)) as [z|] eqn:Ez; [|by apply last_None in Ez].
    split; [done|]. exists n. split; [|done]. rewrite list_lookup_insert_ne; [done|]. intros ->.
    apply Hj. by apply last_Some_elem_of.
Qed.

(** What a link holds, and its assignment. *)
Definition link_at s (pp : option nat) (h : option nat) : Prop :=
  match pp with None => Ide.id_queue s = h | Some i => Ide.id_qnext s !! i = Some h end.
Definition set_link (pp : option nat) i s : Ide.ide D :=
  match pp with
  | None => Ide.set_id_queue (Some i) s
  | Some j => Ide.set_id_qnext (<[j := Some i]> (Ide.id_qnext s)) s
  end.

Lemma append_run f s pp h q i :
  link_at s pp h → chain h (Ide.id_qnext s) q → (length q < f)%nat →
  Ide.append f pp i s = Ret tt (set_link (match last q with Some j => Some j | None => pp end) i s).
Proof.
  revert pp h q. induction f as [|f IH]; intros pp h q Hl Hc Hf; [lia|]. cbn [Ide.append].
  assert ((match pp with
           | None => gets Ide.id_queue
           | Some i => l ← gets (λ s, Ide.id_qnext s !! i); deref l
           end) s = Ret h s) as E.
  { destruct pp as [j|]; cbn in Hl; [by rewrite bind_gets, Hl|]. unfold gets. by rewrite Hl. }
  rewrite (bind_ret _ _ _ _ _ E). destruct q as [|j q].
  - cbn in Hc. subst h. cbn. by destruct pp.
  - destruct Hc as (-> & n & Hn & Hc). cbn [length] in Hf.
    rewrite (IH (Some j) n q); [|done|done|lia]. destruct q as [|k q]; [done|].
    rewrite last_cons_cons. destruct (last (k :: q)) eqn:Ez; [done|by apply last_None in Ez].
Qed.

(** ** The specification: memide.c behind a queue *)
Inductive event := Request (i : nat) (pid : Z) | Interrupt | Client (i : nat) (b : buf).

(** The buffer of a request for a block of the disk. *)
Record request (b : buf) : Prop := {
  rq_locked : sl_locked (b_lock b) = true;
  rq_work : b_valid b && negb (b_dirty b) = false;
  rq_dev : b_dev b = 1;
  rq_block : 0 <= b_blockno b < FSSIZE;
  rq_data : length (b_data b) = 512%nat;
}.
#[local] Instance request_dec b : Decision (request b).
Proof.
  destruct (decide (sl_locked (b_lock b) = true ∧ b_valid b && negb (b_dirty b) = false ∧ b_dev b = 1
    ∧ 0 <= b_blockno b < FSSIZE ∧ length (b_data b) = 512%nat)) as [H|H].
  - left. by destruct H as (?&?&?&?&?).
  - right. intros [????]. tauto.
Defined.

(** The interrupt does the work of the first request, for the process that has the buffer. *)
Definition spec_step (e : event) (st : list nat * storage) : option (list nat * storage) :=
  let '(q, t) := st in
  match e with
  | Request i pid =>
      b ← bufs t !! i;
      if decide (request b ∧ sl_pid (b_lock b) = pid ∧ i ∉ q) then Some (q ++ [i], t) else None
  | Interrupt =>
      match q with
      | [] => Some (q, t)
      | i :: q' =>
          b ← bufs t !! i;
          match iderw i (set_cur_pid (sl_pid (b_lock b)) t) with Ret _ t' => Some (q', t') | _ => None end
      end
  | Client i b => if decide (i ∉ q) then Some (q, set_bufs (<[i := b]> (bufs t)) t) else None
  end.

(** The driver.  A request puts its process to sleep on the buffer. *)
Definition ide_step (e : event) s : option (Ide.ide D) :=
  match e with
  | Request i pid =>
      match Ide.iderw fuel i (Ide.set_id_pid pid s) with
      | Asleep c s' => if decide (c = ChBuf i) then Some s' else None
      | _ => None
      end
  | Interrupt => match Ide.ideintr fuel s with Ret _ s' => Some s' | _ => None end
  | Client i b => Some (Ide.set_id_bufs (<[i := b]> (Ide.id_bufs s)) s)
  end.

Definition run {S} (step : event → S → option S) (es : list event) (s : S) : option S :=
  foldl (λ o e, s ← o; step e s) (Some s) es.

(** The disk holds the blocks of the memory disk, and the data of the request it works on. *)
Definition disk_sim (d : D) q t : Prop :=
  match q with
  | [] => i_phase d = PIdle ∧ ∀ n, 0 <= n < FSSIZE → i_sect d 1 n = disk_block (memdisk t) n
  | i :: _ => ∀ b, bufs t !! i = Some b →
      i_phase d = (if b_dirty b then PIdle else PRead 1 (b_blockno b))
      ∧ ∀ n, 0 <= n < FSSIZE →
          i_sect d 1 n = if b_dirty b && bool_decide (n = b_blockno b) then b_data b else disk_block (memdisk t) n
  end.

Record sim s q t : Prop := {
  sm_bufs : Ide.id_bufs s = bufs t;
  sm_lock : Ide.id_lock s = false;
  sm_disk1 : Ide.id_disk1 s = true;
  sm_len : length (Ide.id_qnext s) = length (bufs t);
  sm_size : disksize t = FSSIZE;
  sm_nodup : NoDup q;
  sm_chain : chain (Ide.id_queue s) (Ide.id_qnext s) q;
  sm_queue : ∀ i, i ∈ q → ∃ b, bufs t !! i = Some b ∧ request b;
  sm_hw : disk_sim (Ide.hw s) q t;
}.

(** Starting a request on a disk that is idle. *)
Lemma start_sim s i q t b :
  Ide.id_bufs s = bufs t → bufs t !! i = Some b → request b → disk_sim (Ide.hw s) [] t →
  ∃ d, Ide.idestart fuel (Some i) s = Ret tt (Ide.set_hw d s) ∧ disk_sim d (i :: q) t.
Proof using Hfuel.
  intros Hbs Hb [_ _ R3 R4 R5] [Hph Hsect].
  destruct (idestart_run s i b) as (d & E & P & S); [by rewrite Hbs|done|done|done|done|].
  exists d. split; [done|]. intros b' Hb'. assert (b' = b) as -> by congruence.
  split; [done|]. intros n Hn. rewrite S, Hsect by done. destruct (b_dirty b); [|done]. cbn [andb].
  by rewrite (bool_decide_ext (1 = 1 ∧ n = b_blockno b) (n = b_blockno b)) by tauto.
Qed.

Lemma getbuf_run s i b : Ide.id_bufs s !! i = Some b → Ide.getbuf i s = Ret b s.
Proof. intros Hb. unfold Ide.getbuf. by rewrite bind_gets, Hb. Qed.

(** The process of a request that is not done sleeps, the others return. *)
Lemma wait_run s i b :
  Ide.id_bufs s !! i = Some b → Ide.id_lock s = true →
  Ide.iderw_wait i s = if b_valid b && negb (b_dirty b) then Ret tt (Ide.set_id_lock false s)
                       else Asleep (ChBuf i) (Ide.set_id_lock false s).
Proof.
  intros Hb Hl. unfold Ide.iderw_wait. rewrite (bind_ret _ _ _ _ _ (getbuf_run _ _ _ Hb)).
  assert (Ide.release_ide s = Ret tt (Ide.set_id_lock false s)) as Er by (unfold Ide.release_ide; by rewrite Hl).
  case_match; [done|]. by rewrite (bind_ret _ _ _ _ _ Er).
Qed.

(** The queue after [append], and whether the new request is the first. *)
Lemma enqueue_run s q i :
  NoDup q → i ∉ q → (i < length (Ide.id_qnext s))%nat → (length q <= length (Ide.id_qnext s))%nat →
  chain (Ide.id_queue s) (Ide.id_qnext s) q →
  let s1 := Ide.set_id_qnext (<[i := None]> (Ide.id_qnext s)) s in
  ∃ s2, Ide.append (S (length (Ide.id_qnext s1))) None i s1 = Ret tt s2
    ∧ chain (Ide.id_queue s2) (Ide.id_qnext s2) (q ++ [i]) ∧ length (Ide.id_qnext s2) = length (Ide.id_qnext s)
    ∧ bool_decide (Ide.id_queue s2 = Some i) = bool_decide (q = [])
    ∧ ∃ h nx, s2 = Ide.set_id_queue h (Ide.set_id_qnext nx s).
Proof.
  intros Hnd Hi Hlt Hlen Hc s1. assert (chain (Ide.id_queue s1) (Ide.id_qnext s1) q) as Hc1 by (by apply chain_other).
  assert (Ide.id_qnext s1 !! i = Some None) as Hx by (by apply list_lookup_insert_eq).
  assert (length (Ide.id_qnext s1) = length (Ide.id_qnext s)) as Hl1 by (cbn; by rewrite length_insert).
  eexists. split; [eapply append_run; [done|done|lia]|].
  pose proof (chain_snoc _ _ _ _ Hnd Hi Hx Hc1) as Hs. destruct (last q) as [j|] eqn:El; cbn in *.
  - split_and!; [done|by rewrite !length_insert| |
      exists (Ide.id_queue s), (<[j := Some i]> (<[i := None]> (Ide.id_qnext s))); by destruct s].
    destruct q as [|k q]; [done|]. destruct Hc as [-> _]. apply not_elem_of_cons in Hi as [Hne _].
    rewrite !bool_decide_eq_false_2; [done|done|]. intros [=]. congruence.
  - split_and!; [done|by rewrite length_insert| |
      exists (Some i), (<[i := None]> (Ide.id_qnext s)); by destruct s].
    apply last_None in El as ->. by rewrite !bool_decide_eq_true_2.
Qed.

Lemma request_sim s q t i pid q' t' :
  sim s q t → spec_step (Request i pid) (q, t) = Some (q', t') →
  ∃ s', ide_step (Request i pid) s = Some s' ∧ sim s' q' t' ∧ Ide.id_wakeups s' = Ide.id_wakeups s.
Proof using Hfuel.
  intros [S1 S2 S3 S4 S5 S6 S7 S8 S9] Hspec. cbn in Hspec.
  destruct (bufs t !! i) as [b|] eqn:Hb; [|done]. cbn in Hspec. case_decide as Hc; [|done]. injection Hspec as <- <-.
  destruct Hc as (Hr & <- & Hi). pose proof Hr as [R1 R2 R3 R4 R5]. pose proof (lookup_lt_Some _ _ _ Hb) as Hlt.
  cbn [ide_step]. unfold Ide.iderw. set (s0 := Ide.set_id_pid _ s).
  assert (Ide.id_bufs s0 !! i = Some b) as Hb0 by (cbn; by rewrite S1).
  rewrite (bind_ret _ _ _ _ _ (getbuf_run _ _ _ Hb0)), bind_gets. cbn [Ide.id_pid s0 Ide.set_id_pid].
  rewrite R1, R2, R3, Z.eqb_refl. cbn [andb negb]. rewrite bind_gets. change (Ide.id_disk1 s0) with (Ide.id_disk1 s). rewrite S3. cbn [andb negb Z.eqb].
  set (s0' := Ide.set_id_lock true s0).
  assert (Ide.acquire_ide s0 = Ret tt s0') as Ea by (unfold Ide.acquire_ide; cbn; by rewrite S2).
  rewrite (bind_ret _ _ _ _ _ Ea), bind_modify, bind_gets.
  assert (length q <= length (bufs t))%nat as Hql.
  { rewrite <-(length_seq (length (bufs t)) 0). apply submseteq_length, NoDup_submseteq; [done|].
    intros j Hj. destruct (S8 j Hj) as (bj & Hbj & _). apply elem_of_seq. apply lookup_lt_Some in Hbj. lia. }
  destruct (enqueue_run s0' q i S6 Hi) as (s2 & E2 & C2 & L2 & F2 & h & nx & Es2);
    [cbn; lia|cbn; lia|done|]. cbn zeta in E2. rewrite (bind_ret _ _ _ _ _ E2), bind_gets, F2.
  assert (Ide.id_bufs s2 = bufs t ∧ Ide.id_lock s2 = true ∧ Ide.id_disk1 s2 = true ∧ Ide.hw s2 = Ide.hw s
    ∧ Ide.id_wakeups s2 = Ide.id_wakeups s) as (B2 & K2 & D2 & W2 & U2) by (subst s2; by rewrite <-S1).
  assert (∃ d, (if bool_decide (q = []) then Ide.idestart fuel (Some i) else mret tt) s2 = Ret tt (Ide.set_hw d s2)
    ∧ disk_sim d (q ++ [i]) t) as (d & E3 & Hd).
  { destruct q as [|j q].
    - rewrite bool_decide_eq_true_2 by done. rewrite <-W2 in S9. by apply (start_sim s2 i [] t b).
    - rewrite bool_decide_eq_false_2 by done. exists (Ide.hw s2). rewrite set_hw_id, W2. split; [done|exact S9]. }
  rewrite (bind_ret _ _ _ _ _ E3), (wait_run _ i b), R2; [|cbn; by rewrite B2|done].
  rewrite decide_True by done. eexists. split; [done|]. split; [|done]. constructor; try done.
  - cbn. rewrite L2. cbn. done.
  - apply NoDup_app. split_and!; [done| |by apply NoDup_singleton]. intros x Hx Hxi.
    apply list_elem_of_singleton in Hxi as ->. done.
  - intros j [Hj|Hj]%elem_of_app; [by apply S8|]. apply list_elem_of_singleton in Hj as ->. eauto.
Qed.

(** The buffer of a request that is done. *)
Definition served b t : buf :=
  set_b_valid true (if b_dirty b then set_b_dirty false b else set_b_data (disk_block (memdisk t) (b_blockno b)) b).

Lemma memide_run t i b :
  bufs t !! i = Some b → request b → disksize t = FSSIZE →
  ∃ t', iderw i (set_cur_pid (sl_pid (b_lock b)) t) = Ret tt t'
    ∧ bufs t' = <[i := served b t]> (bufs t) ∧ disksize t' = FSSIZE
    ∧ memdisk t' = if b_dirty b then <[b_blockno b := b_data b]> (memdisk t) else memdisk t.
Proof.
  intros Hb [R1 R2 R3 R4 R5] Hsz. pose proof (lookup_lt_Some _ _ _ Hb) as Hlt. unfold iderw.
  set (t0 := set_cur_pid _ t). assert (getb i t0 = Ret b t0) as Eb by (unfold getb; cbn; by rewrite Hb).
  assert (holdingsleep_buf i t0 = Ret true t0) as Eh.
  { unfold holdingsleep_buf. rewrite (bind_ret _ _ _ _ _ Eb), bind_gets. cbn. by rewrite R1, Z.eqb_refl. }
  rewrite (bind_ret _ _ _ _ _ Eh). cbn [negb]. rewrite (bind_ret _ _ _ _ _ Eb), R2, R3. cbn [Z.eqb Pos.eqb negb]. rewrite bind_gets.
  change (disksize t0) with (disksize t). rewrite Hsz, (proj2 (Z.leb_gt _ _)) by lia. unfold served.
  assert (∀ f u, bufs u !! i = Some f → ∀ g, updb i g u = Ret tt (set_bufs (<[i := g f]> (bufs u)) u)) as Hu.
  { intros f u Hf g. unfold updb. by rewrite Hf. }
  destruct (b_dirty b) eqn:Ed.
  - rewrite bind_assoc, (bind_ret _ _ _ _ _ (Hu b t0 Hb _)), bind_assoc, !bind_modify.
    erewrite (Hu (set_b_dirty false b)) by (cbn; by apply list_lookup_insert_eq).
    eexists. split; [done|]. split_and!; [cbn; by rewrite list_insert_insert_eq|done|done].
  - rewrite bind_assoc, bind_gets, (bind_ret _ _ _ _ _ (Hu b t0 Hb _)).
    erewrite Hu by (cbn; by apply list_lookup_insert_eq).
    eexists. split; [done|]. split_and!; [cbn; by rewrite list_insert_insert_eq|done|done].
Qed.

Lemma updbuf_run s i b f :
  Ide.id_bufs s !! i = Some b → Ide.updbuf i f s = Ret tt (Ide.set_id_bufs (<[i := f b]> (Ide.id_bufs s)) s).
Proof.
  intros Hb. unfold Ide.updbuf, modify. do 2 f_equal. apply list_eq. intros j. destruct (decide (j = i)) as [->|Hne].
  - rewrite list_lookup_alter_eq, Hb. rewrite list_lookup_insert_eq; [done|]. by eapply lookup_lt_Some.
  - by rewrite list_lookup_alter_ne, list_lookup_insert_ne.
Qed.

Lemma flags_run s i b :
  Ide.id_bufs s !! i = Some b →
  (Ide.updbuf i (set_b_valid true);; Ide.updbuf i (set_b_dirty false);; Ide.wakeup_ide (ChBuf i)) s
  = Ret tt (Ide.set_id_wakeups (Ide.id_wakeups s ++ [ChBuf i])
      (Ide.set_id_bufs (<[i := set_b_valid true (set_b_dirty false b)]> (Ide.id_bufs s)) s)).
Proof.
  intros Hb. rewrite (bind_ret _ _ _ _ _ (updbuf_run _ _ _ _ Hb)).
  set (s1 := Ide.set_id_bufs _ s).
  assert (Ide.id_bufs s1 !! i = Some (set_b_valid true b)) as Hb1 by (by eapply list_lookup_insert_eq, lookup_lt_Some).
  rewrite (bind_ret _ _ _ _ _ (updbuf_run _ _ _ _ Hb1)). unfold s1.
  unfold Ide.wakeup_ide, modify, Ide.set_id_bufs, Ide.set_id_wakeups. cbn. by rewrite list_insert_insert_eq.
Qed.

(** The request at the head is finished. *)
Lemma finish_run s i b t :
  Ide.id_bufs s !! i = Some b →
  i_phase (Ide.hw s) = (if b_dirty b then PIdle else PRead 1 (b_blockno b)) →
  (b_dirty b = false → i_sect (Ide.hw s) 1 (b_blockno b) = disk_block (memdisk t) (b_blockno b)) →
  ∃ d, Ide.finish fuel i s
      = Ret tt (Ide.set_id_wakeups (Ide.id_wakeups s ++ [ChBuf i])
                  (Ide.set_id_bufs (<[i := served b t]> (Ide.id_bufs s)) (Ide.set_hw d s)))
    ∧ i_phase d = PIdle ∧ i_sect d = i_sect (Ide.hw s).
Proof using Hfuel.
  intros Hb Hph Hs. pose proof (lookup_lt_Some _ _ _ Hb) as Hlt. unfold Ide.finish, served.
  rewrite (bind_ret _ _ _ _ _ (getbuf_run _ _ _ Hb)). destruct (b_dirty b) eqn:Ed.
  - rewrite bind_mret, (flags_run s i b Hb). exists (Ide.hw s). by rewrite set_hw_id.
  - destruct (idewait_run s true) as (d0 & E0 & (R0 & S0 & P0) & W0). rewrite bind_assoc, (bind_ret _ _ _ _ _ E0).
    change (0 <=? 0) with true. cbv iota. unfold Ide.read_data. rewrite bind_assoc, bind_gets, hw_set.
    pose proof (i_insl d0 1 (b_blockno b) W0 ltac:(congruence)) as Hi. change (Z.to_nat (BSIZE / 4)) with 128%nat.
    destruct (insl 0x1f0 128 d0) as [data d]. destruct Hi as (-> & Pi & Si). rewrite bind_assoc, bind_modify, set_hw_twice.
    rewrite S0, Hs by done. set (c := set_b_data _ b).
    rewrite (bind_ret _ _ _ _ _ (updbuf_run (Ide.set_hw d s) i b _ Hb)). fold c.
    rewrite (flags_run _ i c) by (cbn; by apply list_lookup_insert_eq).
    exists d. split_and!; [|done|congruence]. unfold Ide.set_id_bufs. cbn. rewrite list_insert_insert_eq.
    replace (set_b_dirty false c) with c; [done|]. unfold c. destruct b. cbn in *. by subst.
Qed.

Definition done_buf t i : Prop := ∃ b, bufs t !! i = Some b ∧ b_valid b && negb (b_dirty b) = true.

Lemma interrupt_sim s q t :
  sim s q t → ∃ s' t', ide_step Interrupt s = Some s' ∧ spec_step Interrupt (q, t) = Some (tail q, t') ∧ sim s' (tail q) t'
    ∧ Ide.id_wakeups s' = Ide.id_wakeups s ++ (ChBuf <$> take 1 q)
    ∧ (∀ i, i ∉ take 1 q → bufs t' !! i = bufs t !! i) ∧ ∀ i, i ∈ take 1 q → done_buf t' i.
Proof using Hfuel.
  intros [S1 S2 S3 S4 S5 S6 S7 S8 S9]. cbn [ide_step]. unfold Ide.ideintr. set (s0 := Ide.set_id_lock true s).
  assert (Ide.acquire_ide s = Ret tt s0) as Ea by (unfold Ide.acquire_ide; by rewrite S2).
  rewrite (bind_ret _ _ _ _ _ Ea), bind_gets. change (Ide.id_queue s0) with (Ide.id_queue s).
  destruct q as [|i q].
  { cbn in S7. rewrite S7. exists (Ide.set_id_lock false s0), t. cbn [spec_step tail take fmap list_fmap]. rewrite app_nil_r.
    split_and!; try done. by intros j ?%not_elem_of_nil. }
  destruct S7 as (Hq & n & Hn & Hc). rewrite Hq, bind_gets. change (Ide.id_qnext s0) with (Ide.id_qnext s). rewrite Hn.
  cbn [deref]. rewrite bind_mret, bind_modify. set (s1 := Ide.set_id_queue n s0).
  destruct (S8 i) as (b & Hb & Hr); [by left|]. destruct (S9 b Hb) as [Hph Hsect].
  destruct (finish_run s1 i b t) as (d & E & Pd & Sd); [cbn; by rewrite S1|done|..].
  { intros Hd. change (Ide.hw s1) with (Ide.hw s). rewrite Hsect by apply Hr. by rewrite Hd. }
  rewrite (bind_ret _ _ _ _ _ E), bind_gets. set (s2 := Ide.set_id_wakeups _ _).
  destruct (memide_run t i b Hb Hr S5) as (t' & Et & Tb & Ts & Tm).
  apply NoDup_cons in S6 as [Hiq S6].
  assert (∀ j, j ≠ i → bufs t' !! j = bufs t !! j) as Hoth by (intros j Hj; rewrite Tb; by rewrite list_lookup_insert_ne).
  assert (disk_sim (Ide.hw s2) [] t') as Hidle.
  { split; [exact Pd|]. intros m Hm. change (Ide.hw s2) with d. rewrite Sd. change (Ide.hw s1) with (Ide.hw s).
    rewrite Hsect, Tm by done. destruct (b_dirty b); [|done]. cbn [andb]. unfold disk_block.
    case_bool_decide as Hm'; [subst m; by rewrite lookup_insert_eq|by rewrite lookup_insert_ne]. }
  assert (∀ j, j ∈ q → ∃ b, bufs t' !! j = Some b ∧ request b) as Hrest.
  { intros j Hj. rewrite Hoth by (intros ->; done). apply S8. by right. }
  assert (∃ d, (match n with Some _ => Ide.idestart fuel n | None => mret tt end) s2 = Ret tt (Ide.set_hw d s2)
    ∧ disk_sim d q t') as (d' & E' & Hd').
  { destruct q as [|j q]; [cbn in Hc; subst n; exists (Ide.hw s2); by rewrite set_hw_id|]. destruct Hc as [-> _].
    destruct (Hrest j) as (bj & Hbj & Hrj); [by left|].
    apply (start_sim s2 j q t' bj); [cbn; by rewrite Tb, S1|done|done|done]. }
  change (Ide.id_queue s2) with n. rewrite (bind_ret _ _ _ _ _ E').
  exists (Ide.set_id_lock false (Ide.set_hw d' s2)), t'. split; [done|]. cbn [spec_step]. rewrite Hb. cbn. rewrite Et.
  split_and!; [done| |done|intros j Hj; apply Hoth; set_solver|].
  2: { intros j Hj%list_elem_of_singleton. subst j. exists (served b t). rewrite Tb. split.
       - by eapply list_lookup_insert_eq, lookup_lt_Some.
       - unfold served. by destruct (b_dirty b) eqn:Ed; cbn; rewrite ?Ed. }
  constructor; try done.
  - cbn. by rewrite Tb, S1.
  - cbn. rewrite Tb, length_insert. done.
Qed.

Lemma client_sim s q t i b q' t' :
  sim s q t → spec_step (Client i b) (q, t) = Some (q', t') →
  ∃ s', ide_step (Client i b) s = Some s' ∧ sim s' q' t'.
Proof.
  intros [S1 S2 S3 S4 S5 S6 S7 S8 S9] Hspec. cbn in Hspec. case_decide as Hi; [|done]. injection Hspec as <- <-.
  eexists. split; [done|]. constructor; try done; cbn.
  - by rewrite S1.
  - by rewrite length_insert.
  - intros j Hj. rewrite list_lookup_insert_ne by (intros ->; done). by apply S8.
  - change (Ide.hw _) with (Ide.hw s). destruct q as [|j q]; [done|]. intros c Hc. cbn in Hc.
    rewrite list_lookup_insert_ne in Hc by set_solver. by apply S9.
Qed.

Lemma step_sim e s q t q' t' :
  sim s q t → spec_step e (q, t) = Some (q', t') → ∃ s', ide_step e s = Some s' ∧ sim s' q' t'.
Proof using Hfuel.
  destruct e as [i pid| |i b]; intros Hs Hsp.
  - destruct (request_sim _ _ _ _ _ _ _ Hs Hsp) as (s' & ? & ? & _). eauto.
  - destruct (interrupt_sim _ _ _ Hs) as (s' & t2 & ? & E & ? & _). rewrite E in Hsp. simplify_eq. eauto.
  - by eapply client_sim.
Qed.

Lemma run_cons {S} (step : event → S → option S) e es (x : S) : run step (e :: es) x = step e x ≫= run step es.
Proof.
  unfold run. cbn. destruct (step e x); [done|]. cbn. by induction es.
Qed.

Lemma run_sim es s q t q' t' :
  sim s q t → run spec_step es (q, t) = Some (q', t') → ∃ s', run ide_step es s = Some s' ∧ sim s' q' t'.
Proof using Hfuel.
  revert s q t. induction es as [|e es IH]; intros s q t Hs Hr; [cbn in Hr; simplify_eq; eauto|].
  rewrite run_cons in Hr. rewrite run_cons. destruct (spec_step e (q, t)) as [[q1 t1]|] eqn:E; [|done].
  destruct (step_sim _ _ _ _ _ _ Hs E) as (s1 & -> & H1). cbn in *. eauto.
Qed.

(** The interrupts of the requests that are queued. *)
Lemma drain_sim s q t :
  sim s q t →
  ∃ s' t', run ide_step (replicate (length q) Interrupt) s = Some s'
    ∧ run spec_step (replicate (length q) Interrupt) (q, t) = Some ([], t') ∧ sim s' [] t'
    ∧ Ide.id_wakeups s' = Ide.id_wakeups s ++ (ChBuf <$> q)
    ∧ (∀ i, i ∉ q → bufs t' !! i = bufs t !! i) ∧ ∀ i, i ∈ q → done_buf t' i.
Proof using Hfuel.
  revert s t. induction q as [|i q IH]; intros s t Hs; cbn [length replicate].
  { exists s, t. cbn. rewrite app_nil_r. split_and!; try done. by intros j ?%not_elem_of_nil. }
  destruct (interrupt_sim _ _ _ Hs) as (s1 & t1 & E1 & E1' & H1 & W1 & O1 & D1). rewrite !run_cons, E1, E1'. cbn in *.
  destruct (IH s1 t1 H1) as (s2 & t2 & E2 & E2' & H2 & W2 & O2 & D2). exists s2, t2. split_and!; try done.
  - rewrite W2, W1. by rewrite <-app_assoc.
  - intros j Hj. apply not_elem_of_cons in Hj as [Hj1 Hj2]. rewrite O2, O1 by set_solver. done.
  - intros j Hj. destruct (decide (j ∈ q)) as [Hq|Hq]; [by apply D2|]. unfold done_buf. rewrite O2 by done.
    apply D1. set_solver.
Qed.

(** A process that runs again with its request done returns from [iderw]. *)
Lemma resume_run s i b :
  Ide.id_bufs s !! i = Some b → Ide.id_lock s = false →
  Ide.iderw_resume i s = if b_valid b && negb (b_dirty b) then Ret tt s else Asleep (ChBuf i) s.
Proof.
  intros Hb Hl. unfold Ide.iderw_resume.
  assert (Ide.acquire_ide s = Ret tt (Ide.set_id_lock true s)) as Ea by (unfold Ide.acquire_ide; by rewrite Hl).
  rewrite (bind_ret _ _ _ _ _ Ea), (wait_run _ i b) by done. destruct s. cbn in *. by subst.
Qed.

(** C13: memide.c specifies ide.c.  In any run of requests, interrupts and changes of
    buffers that are not queued, the driver does what the specification does; the
    interrupts that are due complete every request that is waiting, wake its process, which
    returns, and leave on the disk what the memory disk has. *)
Theorem ide_refines_memide es s q t q' t' :
  sim s q t → run spec_step es (q, t) = Some (q', t') →
  ∃ s', run ide_step es s = Some s' ∧ sim s' q' t'
  ∧ ∃ s2 t2, run ide_step (replicate (length q') Interrupt) s' = Some s2
    ∧ run spec_step (replicate (length q') Interrupt) (q', t') = Some ([], t2)
    ∧ Ide.id_bufs s2 = bufs t2
    ∧ (∀ n, 0 <= n < FSSIZE → i_sect (Ide.hw s2) 1 n = disk_block (memdisk t2) n)
    ∧ Ide.id_wakeups s2 = Ide.id_wakeups s' ++ (ChBuf <$> q')
    ∧ ∀ i, i ∈ q' → Ide.iderw_resume i s' = Asleep (ChBuf i) s' ∧ Ide.iderw_resume i s2 = Ret tt s2.
Proof using Hfuel.
  intros Hs Hr. destruct (run_sim _ _ _ _ _ _ Hs Hr) as (s' & E & Hs'). exists s'. split_and!; [done|done|].
  destruct (drain_sim _ _ _ Hs') as (s2 & t2 & E2 & E2' & H2 & W2 & _ & D2). exists s2, t2.
  pose proof H2 as [B2 L2 _ _ _ _ _ _ [_ Hd]]. pose proof Hs' as [B1 L1 _ _ _ _ _ Q1 _].
  split_and!; try done. intros i Hi. split.
  - destruct (Q1 i Hi) as (b & Hb & Hrq). rewrite (resume_run _ i b); [by rewrite (rq_work _ Hrq)|by rewrite B1|done].
  - destruct (D2 i Hi) as (b & Hb & Hv). rewrite (resume_run _ i b); [by rewrite Hv|by rewrite B2|done].
Qed.

(** A read that fails is reported to nobody: the buffer becomes valid with the data it had. *)
Lemma ideintr_ignores_error f s i b d :
  Ide.id_lock s = false → Ide.id_queue s = Some i → Ide.id_qnext s !! i = Some None →
  Ide.id_bufs s !! i = Some b → b_dirty b = false →
  inb 0x1f7 (Ide.hw s) = (0x41, d) →
  ∃ s', Ide.ideintr (S f) s = Ret tt s' ∧ Ide.id_bufs s' !! i = Some (set_b_valid true b).
Proof.
  intros Hl Hq Hn Hb Hd Hin. unfold Ide.ideintr.
  assert (Ide.acquire_ide s = Ret tt (Ide.set_id_lock true s)) as Ea by (unfold Ide.acquire_ide; by rewrite Hl).
  rewrite (bind_ret _ _ _ _ _ Ea), bind_gets. change (Ide.id_queue (Ide.set_id_lock true s)) with (Ide.id_queue s).
  rewrite Hq, bind_gets. change (Ide.id_qnext (Ide.set_id_lock true s)) with (Ide.id_qnext s). rewrite Hn.
  cbn [deref]. rewrite bind_mret, bind_modify. set (s1 := Ide.set_id_queue None _).
  assert (Ide.idewait (S f) true s1 = Ret (-1) (Ide.set_hw d s1)) as Ew.
  { cbn [Ide.idewait]. rewrite (bind_ret _ _ _ _ _ (in_run _ s1)). change (Ide.hw s1) with (Ide.hw s). by rewrite Hin. }
  assert (Ide.finish (S f) i s1 = Ret tt (Ide.set_id_wakeups (Ide.id_wakeups s1 ++ [ChBuf i])
      (Ide.set_id_bufs (<[i := set_b_valid true (set_b_dirty false b)]> (Ide.id_bufs s1)) (Ide.set_hw d s1)))) as Ef.
  { unfold Ide.finish. rewrite (bind_ret _ _ _ _ _ (getbuf_run s1 i b Hb)), Hd, bind_assoc, (bind_ret _ _ _ _ _ Ew).
    change (0 <=? -1) with false. cbv iota. rewrite bind_mret. by apply (flags_run (Ide.set_hw d s1)). }
  rewrite (bind_ret _ _ _ _ _ Ef). eexists. split; [done|]. cbn.
  rewrite list_lookup_insert_eq by (by eapply lookup_lt_Some). destruct b. cbn in *. by subst.
Qed.
End ide.

(** Two requests, a write and a read of the block written, before the first interrupt. *)
Definition demo_buf (valid dirty : bool) (pid x : Z) : buf :=
  mkbuf valid dirty 1 700 (mksleeplock true pid) 1 (replicate 512 x).
Definition demo_storage : storage :=
  mkstorage [demo_buf true true 5 9; demo_buf false false 6 0] [0%nat; 1%nat] false ∅ FSSIZE [] [] 0
    (mklogst false 0 0 0 false 1 0 []).
Definition demo_ide : Ide.ide controller :=
  Ide.mkide false None [None; None] true (bufs demo_storage) 0 []
    (Devices.mkdevs (mkctl (λ _, 0) (λ _ _, zero_block) PIdle Ready) true 0 0 (0, 0)).

Lemma ide_refines_memide_witness :
  ∃ s', run (ide_step 3) [Request 0 5; Request 1 6; Interrupt] demo_ide = Some s'
  ∧ ∃ s2 t2, run (ide_step 3) [Interrupt] s' = Some s2 ∧ Ide.id_bufs s2 = bufs t2
    ∧ Ide.iderw_resume 1 s2 = Ret tt s2.
Proof.
  destruct (run spec_step [Request 0 5; Request 1 6; Interrupt] ([], demo_storage)) as [[q' t']|] eqn:E;
    [|vm_compute in E; discriminate].
  assert (q' = [1%nat]) as ->.
  { assert (fst <$> run spec_step [Request 0 5; Request 1 6; Interrupt] ([], demo_storage) = Some [1%nat]) as H
      by (vm_compute; reflexivity). rewrite E in H. cbn in H. congruence. }
  assert (i_max (D := controller) < 3)%nat as Hf by (cbn; lia).
  assert (sim demo_ide [] demo_storage) as Hs.
  { constructor; try done; [constructor|by intros ? ?%not_elem_of_nil]. }
  destruct (ide_refines_memide 3 Hf _ demo_ide [] demo_storage _ _ Hs E) as (s' & E1 & _ & s2 & t2 & E2 & _ & B2 & _ & _ & R2).
  exists s'. split; [exact E1|]. exists s2, t2. split; [exact E2|]. split; [exact B2|]. apply R2. by left.
Defined.
