(* ===== verification/Mp.v ===== *)
(** * Finding the processors (mp.c)

    The BIOS describes the processors in a table in memory.  Memory is the bytes at
    kernel virtual addresses, as in [Kalloc]. *)
From S2P Require Import Prelude Params Str Kalloc Hw Devices.

Module Mp.
Definition NCPU : Z := 8.

(** mp.h: the types of the entries, the sizes of the structures. *)
Definition MPPROC : Z := 0x00.
Definition MPBUS : Z := 0x01.
Definition MPIOAPIC : Z := 0x02.
Definition MPIOINTR : Z := 0x03.
Definition MPLINTR : Z := 0x04.
Definition sizeof_mp : Z := 16.
Definition sizeof_mpconf : Z := 44.
Definition sizeof_mpproc : Z := 20.
Definition sizeof_mpioapic : Z := 8.

(** "_MP_" and "PCMP" *)
Definition sig_mp : list Z := [95; 77; 80; 95].
Definition sig_conf : list Z := [80; 67; 77; 80].

Definition half (m : mem) (a : Z) : Z := m a + 2 ^ 8 * m (a + 1).
(** The fields of [struct mp] and [struct mpconf]. *)
Definition mp_physaddr (m : mem) (p : Z) : Z := load_word m (p + 4).
Definition mp_imcrp (m : mem) (p : Z) : Z := m (p + 12).
Definition conf_length (m : mem) (c : Z) : Z := half m (c + 4).
Definition conf_version (m : mem) (c : Z) : Z := m (c + 6).
Definition conf_lapicaddr (m : mem) (c : Z) : Z := load_word m (c + 36).

Definition sum (m : mem) (addr len : Z) : Z :=
  foldl (λ s i, s + m (addr + Z.of_nat i)) 0 (seq 0 (Z.to_nat len)) mod 2 ^ 8.

(** [memcmp(p, sig, 4) == 0] *)
Definition signed_by (m : mem) (p : Z) (sig : list Z) : bool :=
  memcmp (λ i, m (p + Z.of_nat i)) (λ i, default 0 (sig !! i)) 4 =? 0.

(** The loop over [p] of [mpsearch1]; 0 is the null pointer. *)
Fixpoint mpsearch1_loop (fuel : nat) (m : mem) (p e : Z) : Z :=
  match fuel with
  | O => 0
  | S fuel' =>
      if p <? e then
        if signed_by m p sig_mp && (sum m p sizeof_mp =? 0) then p
        else mpsearch1_loop fuel' m (p + sizeof_mp) e
      else 0
  end.
Definition mpsearch1 (m : mem) (a len : Z) : Z :=
  let addr := P2V a in
  mpsearch1_loop (Z.to_nat (len / sizeof_mp + 2)) m addr (addr + len).

Definition mpsearch (m : mem) : Z :=
  let bda := P2V 0x400 in
  let p := Z.shiftl (Z.lor (Z.shiftl (m (bda + 0x0F)) 8) (m (bda + 0x0E))) 4 in
  let mp :=
    if negb (p =? 0) then mpsearch1 m p 1024
    else mpsearch1 m (u32 (Z.lor (Z.shiftl (m (bda + 0x14)) 8) (m (bda + 0x13)) * 1024 - 1024)) 1024 in
  if negb (mp =? 0) then mp else mpsearch1 m 0xF0000 0x10000.

(** The structure found and the configuration table. *)
Definition mpconfig (m : mem) : option (Z * Z) :=
  let mp := mpsearch m in
  if (mp =? 0) || (mp_physaddr m mp =? 0) then None else
  let conf := P2V (mp_physaddr m mp) in
  if negb (signed_by m conf sig_conf) then None else
  if negb (conf_version m conf =? 1) && negb (conf_version m conf =? 4) then None else
  if negb (sum m conf (conf_length m conf) =? 0) then None else
  Some (mp, conf).

Section mp.
Context {D : Type} `{!Ports D, !Mmio D}.

Record mpst := mkmpst {
  ms_mem : mem;
  ms_apicid : list Z;  (* cpus[].apicid *)
  ms_ncpu : Z;
  ms_devs : Devices.devs D  (* ioapicid, lapic *)
}.
Definition set_ms_apicid (v : list Z) (s : mpst) : mpst := mkmpst (ms_mem s) v (ms_ncpu s) (ms_devs s).
Definition set_ms_ncpu (v : Z) (s : mpst) : mpst := mkmpst (ms_mem s) (ms_apicid s) v (ms_devs s).
Definition set_ms_devs (v : Devices.devs D) (s : mpst) : mpst := mkmpst (ms_mem s) (ms_apicid s) (ms_ncpu s) v.
Abbreviation MM := (M mpst).

(** [if(ncpu < NCPU) { cpus[ncpu].apicid = proc->apicid; ncpu++; }] *)
Definition add_cpu (p : Z) : MM unit :=
  s ← get;
  if ms_ncpu s <? NCPU then
    if (Z.to_nat (ms_ncpu s) <? length (ms_apicid s))%nat then
      modify (set_ms_apicid (<[Z.to_nat (ms_ncpu s) := ms_mem s (p + 1)]> (ms_apicid s)));;
      modify (set_ms_ncpu (ms_ncpu s + 1))
    else fault
  else mret tt.

(** The loop over the entries; the result is [ismp].  After an entry of unknown type
    [break] leaves the switch, and the loop goes on at the same entry. *)
Fixpoint mpinit_loop (fuel : nat) (ismp : bool) (p e : Z) : MM bool :=
  if negb (p <? e) then mret ismp else
  match fuel with
  | O => fault
  | S fuel' =>
      t ← gets (λ s, ms_mem s p);
      if t =? MPPROC then
        add_cpu p;;
        mpinit_loop fuel' ismp (p + sizeof_mpproc) e
      else if t =? MPIOAPIC then
        modify (λ s, set_ms_devs (Devices.set_dv_ioapicid (ms_mem s (p + 1)) (ms_devs s)) s);;
        mpinit_loop fuel' ismp (p + sizeof_mpioapic) e
      else if (t =? MPBUS) || (t =? MPIOINTR) || (t =? MPLINTR) then
        mpinit_loop fuel' ismp (p + 8) e
      else mpinit_loop fuel' false p e
  end.

Definition on_devs (m : M (Devices.devs D) unit) : MM unit := λ s,
  match m (ms_devs s) with
  | Ret _ d => Ret tt (set_ms_devs d s)
  | Panic msg => Panic msg
  | Fault => Fault
  | Asleep c d => Asleep c (set_ms_devs d s)
  end.

Definition mpinit (fuel : nat) : MM unit :=
  c ← gets (λ s, mpconfig (ms_mem s));
  match c with
  | None => panic "Expect to run on an SMP"
  | Some (mp, conf) =>
      m ← gets ms_mem;
      modify (λ s, set_ms_devs (Devices.set_dv_lapic (conf_lapicaddr m conf) (ms_devs s)) s);;
      ismp ← mpinit_loop fuel true (conf + sizeof_mpconf) (conf + conf_length m conf);
      if negb ismp then panic "Didn't find a suitable machine" else
      if negb (mp_imcrp m mp =? 0) then
        on_devs (
          Devices.outb_ 0x22 0x70;;
          v ← Devices.inb_ 0x23;
          Devices.outb_ 0x23 (Z.lor v 1))
      else mret tt
  end.
End mp.
Arguments mpst D : clear implicits.
End Mp.

(** ** The processors that are found

    A table of entries in memory is read back entry by entry; an entry of a type the code
    does not know is never left. *)
(** The entries of a table, with the bytes the kernel does not use. *)
Inductive entry :=
| Proc (apicid : Z) (rest : list Z)
| Ioapic (id : Z) (rest : list Z)
| Other (type : Z) (rest : list Z).

Definition encode (e : entry) : list Z :=
  match e with
  | Proc a rest => Mp.MPPROC :: a :: rest
  | Ioapic i rest => Mp.MPIOAPIC :: i :: rest
  | Other t rest => t :: rest
  end.
Definition entry_ok (e : entry) : Prop :=
  match e with
  | Proc _ rest => length rest = 18%nat
  | Ioapic _ rest => length rest = 6%nat
  | Other t rest => (t = Mp.MPBUS ∨ t = Mp.MPIOINTR ∨ t = Mp.MPLINTR) ∧ length rest = 7%nat
  end.
Definition table (es : list entry) : list Z := concat (encode <$> es).

Definition procs (es : list entry) : list Z := omap (λ e, match e with Proc a _ => Some a | _ => None end) es.
Definition ioapics (es : list entry) : list Z := omap (λ e, match e with Ioapic i _ => Some i | _ => None end) es.

Definition stored (m : mem) (p : Z) (bytes : list Z) : Prop :=
  ∀ i b, bytes !! i = Some b → m (p + Z.of_nat i) = b.

Lemma stored_app m p l k : stored m p (l ++ k) → stored m p l ∧ stored m (p + Z.of_nat (length l)) k.
Proof.
  intros H. split.
  - intros i b Hb. apply H. by apply lookup_app_l_Some.
  - intros i b Hb. replace (p + Z.of_nat (length l) + Z.of_nat i) with (p + Z.of_nat (length l + i)) by lia.
    apply H. rewrite lookup_app_r by lia. by replace (length l + i - length l)%nat with i by lia.
Qed.

(** ** The search for the floating pointer structure *)
Definition floating_pointer (m : mem) (p : Z) : bool :=
  Mp.signed_by m p Mp.sig_mp && (Mp.sum m p Mp.sizeof_mp =? 0).

(** The places of the area at [a]. *)
Definition places (a len : Z) : list Z := (λ k, P2V a + 16 * Z.of_nat k) <$> seq 0 (Z.to_nat ((len + 15) / 16)).

Lemma mpsearch1_loop_spec n fuel m p :
  (n < fuel)%nat → ∀ e, p + 16 * Z.of_nat n - 16 < e <= p + 16 * Z.of_nat n →
  Mp.mpsearch1_loop fuel m p e
  = default 0 (snd <$> list_find (λ q, floating_pointer m q = true) ((λ k, p + 16 * Z.of_nat k) <$> seq 0 n)).
Proof.
  revert n p. induction fuel as [|fuel IH]; intros n p Hn e He; [lia|]. cbn [Mp.mpsearch1_loop].
  destruct n as [|n].
  - rewrite (proj2 (Z.ltb_ge p e)) by lia. done.
  - rewrite (proj2 (Z.ltb_lt p e)) by lia. cbn [seq fmap list_fmap list_find]. rewrite Z.add_0_r.
    change (Mp.signed_by m p Mp.sig_mp && (Mp.sum m p Mp.sizeof_mp =? 0)) with (floating_pointer m p).
    destruct (floating_pointer m p) eqn:Ef.
    + by rewrite decide_True.
    + rewrite decide_False by done. rewrite (IH n) by (change Mp.sizeof_mp with 16; lia).
      change Mp.sizeof_mp with 16. rewrite <-seq_shift, <-list_fmap_compose.
      replace (((λ k, p + 16 * Z.of_nat k) ∘ S) <$> seq 0 n) with ((λ k, p + 16 + 16 * Z.of_nat k) <$> seq 0 n).
      * by destruct (list_find _ _) as [[? ?]|].
      * apply list_fmap_ext. intros _ k _. unfold compose. lia.
Qed.

Lemma mpsearch1_spec m a len : 0 <= len →
  Mp.mpsearch1 m a len = default 0 (snd <$> list_find (λ q, floating_pointer m q = true) (places a len)).
Proof.
  intros Hl. unfold Mp.mpsearch1, places. change Mp.sizeof_mp with 16. apply mpsearch1_loop_spec.
  - Z.to_euclidean_division_equations; lia.
  - Z.to_euclidean_division_equations; lia.
Qed.

Lemma last_step (a d : Z) (l : list Z) : List.last (a :: l) d = List.last l a.
Proof.
  revert a d. induction l as [|b l IH]; intros a d; [done|]. change (List.last (b :: l) d = List.last (b :: l) a).
  by rewrite (IH b d), (IH b a).
Qed.

Section mp.
Context {D : Type} `{!Ports D, !Mmio D}.
Implicit Types (s : Mp.mpst D) (es : list entry).

(** The processors found so far are [l]. *)
Record found s (l : list Z) : Prop := {
  fd_len : length (Mp.ms_apicid s) = Z.to_nat Mp.NCPU;
  fd_ncpu : Mp.ms_ncpu s = Z.min Mp.NCPU (Z.of_nat (length l));
  fd_ids : take (Z.to_nat (Mp.ms_ncpu s)) (Mp.ms_apicid s) = take (Z.to_nat Mp.NCPU) l;
}.

Lemma add_cpu_run s l p :
  found s l → ∃ s', Mp.add_cpu p s = Ret tt s' ∧ found s' (l ++ [Mp.ms_mem s (p + 1)])
    ∧ Mp.ms_mem s' = Mp.ms_mem s ∧ Mp.ms_devs s' = Mp.ms_devs s.
Proof.
  intros [F1 F2 F3]. unfold Mp.add_cpu. rewrite (bind_ret get _ s s s eq_refl). change Mp.NCPU with 8 in *. change (Z.to_nat 8) with 8%nat in *.
  destruct (Z.ltb_spec (Mp.ms_ncpu s) 8) as [Hlt|Hge].
  - rewrite (proj2 (Nat.ltb_lt _ _)) by lia. eexists. split; [done|]. split_and!; [|done|done].
    assert (Mp.ms_ncpu s = Z.of_nat (length l)) as Hn by lia.
    constructor; cbn; change Mp.NCPU with 8; change (Z.to_nat 8) with 8%nat.
    + by rewrite length_insert.
    + rewrite length_app. cbn. lia.
    + rewrite Hn, Nat2Z.id in *. replace (Z.to_nat (Z.of_nat (length l) + 1)) with (S (length l)) by lia.
      rewrite (take_ge l) in F3 by lia. rewrite (take_ge (l ++ _)) by (rewrite length_app; cbn; lia).
      erewrite take_S_r by (apply list_lookup_insert_eq; lia). rewrite take_insert_ge by lia. by rewrite F3.
  - exists s. split; [done|]. split_and!; [|done|done]. assert (Mp.ms_ncpu s = 8) as Hn by lia.
    constructor; change Mp.NCPU with 8; change (Z.to_nat 8) with 8%nat; [done|rewrite length_app; cbn; lia|].
    rewrite F3. rewrite take_app_le by lia. done.
Qed.

Lemma mpinit_loop_run es fuel s l p :
  Forall entry_ok es → stored (Mp.ms_mem s) p (table es) → found s l → (length es <= fuel)%nat →
  ∃ s', Mp.mpinit_loop fuel true p (p + Z.of_nat (length (table es))) s = Ret true s' ∧ found s' (l ++ procs es)
    ∧ Mp.ms_mem s' = Mp.ms_mem s ∧ Devices.dv_lapic (Mp.ms_devs s') = Devices.dv_lapic (Mp.ms_devs s)
    ∧ Devices.dv_ioapicid (Mp.ms_devs s') = List.last (ioapics es) (Devices.dv_ioapicid (Mp.ms_devs s)).
Proof.
  revert fuel s l p. induction es as [|e es IH]; intros fuel s l p Hok Hst Hf Hfuel.
  - exists s. cbn [table fmap list_fmap concat length]. rewrite Z.add_0_r, app_nil_r. split_and!; try done.
    destruct fuel; cbn [Mp.mpinit_loop]; by rewrite Z.ltb_irrefl.
  - destruct fuel as [|fuel]; [cbn in Hfuel; lia|]. cbn [length] in Hfuel. apply Forall_cons in Hok as [He Hok].
    unfold table in Hst |- *. cbn [fmap list_fmap concat] in Hst |- *. fold (table es) in Hst |- *.
    apply stored_app in Hst as [H1 H2]. rewrite length_app, Nat2Z.inj_add, Z.add_assoc.
    assert (0 < length (encode e))%nat as Hpos by (destruct e; cbn; lia).
    cbn [Mp.mpinit_loop]. rewrite (proj2 (Z.ltb_lt p _)) by lia. cbn [negb]. rewrite bind_gets.
    assert (∀ b, encode e !! 0%nat = Some b → Mp.ms_mem s p = b) as Ht by (intros b Hb; rewrite <-(Z.add_0_r p); by apply (H1 0%nat)).
    destruct e as [a rest|a rest|t rest]; cbn [encode entry_ok length] in *; rewrite (Ht _ eq_refl).
    + pose proof (H1 1%nat a eq_refl) as Ha. change (Z.of_nat 1) with 1 in Ha.
      change (Mp.MPPROC =? Mp.MPPROC) with true. cbv iota. destruct (add_cpu_run s l p Hf) as (s1 & E1 & F1 & M1 & D1).
      rewrite (bind_ret _ _ _ _ _ E1). rewrite Ha in F1.
      assert (p + Z.of_nat (S (S (length rest))) = p + Mp.sizeof_mpproc) as Hp by (rewrite He; done). rewrite Hp in H2 |- *.
      destruct (IH fuel s1 _ (p + Mp.sizeof_mpproc) Hok ltac:(by rewrite M1) F1 ltac:(lia)) as (s2 & E2 & F2 & M2 & L2 & I2).
      exists s2. rewrite <-app_assoc in F2. rewrite <-D1. split_and!; try done. congruence.
    + pose proof (H1 1%nat a eq_refl) as Ha. change (Z.of_nat 1) with 1 in Ha.
      change (Mp.MPIOAPIC =? Mp.MPPROC) with false. change (Mp.MPIOAPIC =? Mp.MPIOAPIC) with true. cbv iota. rewrite bind_modify, Ha.
      assert (p + Z.of_nat (S (S (length rest))) = p + Mp.sizeof_mpioapic) as Hp by (rewrite He; done). rewrite Hp in H2 |- *.
      set (s1 := Mp.set_ms_devs _ s). assert (found s1 l) as F1 by (by destruct Hf).
      destruct (IH fuel s1 _ (p + Mp.sizeof_mpioapic) Hok H2 F1 ltac:(lia)) as (s2 & E2 & F2 & M2 & L2 & I2).
      exists s2. split_and!; try done. rewrite I2. symmetry. apply last_step.
    + destruct He as [Ht' He].
      assert (p + Z.of_nat (S (length rest)) = p + 8) as Hp by (rewrite He; done). rewrite Hp in H2 |- *.
      destruct (IH fuel s _ (p + 8) Hok H2 Hf ltac:(lia)) as (s2 & E2 & F2 & M2 & L2 & I2).
      exists s2. split_and!; try done. by destruct Ht' as [->|[->| ->]].
Qed.

(** C38: the table of a machine is read completely: every processor, up to NCPU of them, has
    its APIC id in [cpus], and the addresses of the interrupt controllers are noted. *)
Theorem mpinit_finds fuel s mp conf es :
  Mp.mpconfig (Mp.ms_mem s) = Some (mp, conf) → Forall entry_ok es →
  stored (Mp.ms_mem s) (conf + Mp.sizeof_mpconf) (table es) →
  Mp.conf_length (Mp.ms_mem s) conf = Mp.sizeof_mpconf + Z.of_nat (length (table es)) →
  length (Mp.ms_apicid s) = Z.to_nat Mp.NCPU → Mp.ms_ncpu s = 0 → (length es <= fuel)%nat →
  ∃ s', Mp.mpinit fuel s = Ret tt s'
    ∧ Mp.ms_ncpu s' = Z.min Mp.NCPU (Z.of_nat (length (procs es)))
    ∧ take (Z.to_nat (Mp.ms_ncpu s')) (Mp.ms_apicid s') = take (Z.to_nat Mp.NCPU) (procs es)
    ∧ Devices.dv_lapic (Mp.ms_devs s') = Mp.conf_lapicaddr (Mp.ms_mem s) conf
    ∧ Devices.dv_ioapicid (Mp.ms_devs s') = List.last (ioapics es) (Devices.dv_ioapicid (Mp.ms_devs s)).
Proof.
  intros Hc Hok Hst Hlen Hid Hn Hfuel. unfold Mp.mpinit. rewrite bind_gets, Hc, bind_gets, bind_modify.
  set (s1 := Mp.set_ms_devs _ s).
  assert (found s1 []) as F1 by (constructor; cbn; [done|done|by rewrite Hn]).
  destruct (mpinit_loop_run es fuel s1 [] _ Hok Hst F1 Hfuel) as (s2 & E2 & [G1 G2 G3] & M2 & L2 & I2).
  replace (conf + Mp.sizeof_mpconf + Z.of_nat (length (table es)))
    with (conf + Mp.conf_length (Mp.ms_mem s) conf) in E2 by (rewrite Hlen; lia).
  rewrite (bind_ret _ _ _ _ _ E2). cbn [negb]. cbv iota. case_match; [|by exists s2].
  unfold Mp.on_devs, Devices.outb_, Devices.inb_, mbind, M_bind, modify. cbn.
  destruct (inb _ _) as [v d]. eexists. split; [done|]. done.
Qed.

(** An entry of unknown type is never left: no amount of turns is enough. *)
Lemma mpinit_hangs fuel s mp conf t :
  Mp.mpconfig (Mp.ms_mem s) = Some (mp, conf) → Mp.ms_mem s (conf + Mp.sizeof_mpconf) = t → 4 < t →
  Mp.sizeof_mpconf < Mp.conf_length (Mp.ms_mem s) conf → Mp.mpinit fuel s = Fault.
Proof.
  intros Hc Ht Hgt Hlen. unfold Mp.mpinit. rewrite bind_gets, Hc, bind_gets, bind_modify. apply bind_fault.
  generalize true. set (s1 := Mp.set_ms_devs _ s).
  induction fuel as [|fuel IH]; intros ismp; cbn [Mp.mpinit_loop]; rewrite (proj2 (Z.ltb_lt _ _)) by lia; [done|].
  cbn [negb]. rewrite bind_gets. change (Mp.ms_mem s1) with (Mp.ms_mem s). rewrite Ht.
  unfold Mp.MPPROC, Mp.MPIOAPIC, Mp.MPBUS, Mp.MPIOINTR, Mp.MPLINTR.
  rewrite !(proj2 (Z.eqb_neq t _)) by lia. cbn [orb]. apply IH.
Qed.
End mp.

(** A machine with two processors, its tables in the BIOS area. *)
Definition demo_entries : list entry :=
  [Proc 0 (replicate 18 0); Proc 1 (replicate 18 0); Ioapic 2 (replicate 6 0); Other 1 (replicate 7 0)].
Definition demo_pointer : list Z := [95; 77; 80; 95; 0; 1; 15; 0; 1; 4; 144; 0; 0; 0; 0; 0].
Definition demo_conf : list Z :=
  [80; 67; 77; 80; 100; 0; 4; 132] ++ replicate 28 0 ++ [0; 0; 224; 254; 0; 0; 0; 0] ++ table demo_entries.
Definition demo_mem : mem := λ a,
  let i := a - P2V 0xF0000 in
  if (0 <=? i) && (i <? 16) then default 0 (demo_pointer !! Z.to_nat i)
  else if (256 <=? i) && (i <? 512) then default 0 (demo_conf !! Z.to_nat (i - 256)) else 0.
Definition demo_machine : Mp.mpst controller :=
  Mp.mkmpst demo_mem (replicate 8 0) 0
    (Devices.mkdevs (mkctl (λ _, 0) (λ _ _, []) PIdle Ready) false 0 0 (0, 0)).

Lemma mpinit_finds_witness :
  ∃ s', Mp.mpinit 4 demo_machine = Ret tt s' ∧ Mp.ms_ncpu s' = 2
    ∧ Devices.dv_lapic (Mp.ms_devs s') = 0xFEE00000 ∧ Devices.dv_ioapicid (Mp.ms_devs s') = 2.
Proof.
  destruct (mpinit_finds 4 demo_machine (P2V 0xF0000) (P2V 0xF0100) demo_entries) as (s' & E & Hn & _ & Hl & Hi).
  - vm_compute. reflexivity.
  - repeat constructor.
  - intros i b Hb.
    assert (forallb (λ j, bool_decide (table demo_entries !! j
        = Some (demo_mem (P2V 0xF0100 + Mp.sizeof_mpconf + Z.of_nat j)))) (seq 0 56) = true) as H
      by (vm_compute; reflexivity).
    rewrite forallb_forall in H. apply lookup_lt_Some in Hb as Hlt. change (length (table demo_entries)) with 56%nat in Hlt.
    specialize (H i ltac:(apply in_seq; lia)). apply bool_decide_eq_true in H. cbn [Mp.ms_mem demo_machine] in *. congruence.
  - vm_compute. reflexivity.
  - reflexivity.
  - reflexivity.
  - cbn. lia.
  - exists s'. split; [exact E|]. split; [exact Hn|]. split; [etrans; [exact Hl|vm_compute; reflexivity]|exact Hi].
Defined.
