(* ===== verification/Boot.v ===== *)
(** * The boot loader (bootmain.c)

    Memory is the bytes at physical addresses.  [bootmain] returns the entry point it
    jumps to, or nothing when the disk has no kernel. *)
From S2P Require Import Prelude Params Block Bio BioInv Str Kalloc KallocInv Vm VmInv VmUser VmGrow Hw.

Module Boot.
Section boot.
Context {D : Type} `{!Ports D}.

Definition SECTSIZE : Z := 512.
Definition ELF_MAGIC : Z := 0x464C457F.

Record boot := mkboot { bt_mem : mem; bt_hw : D }.
Definition set_bt_mem (v : mem) (s : boot) : boot := mkboot v (bt_hw s).
Definition set_bt_hw (v : D) (s : boot) : boot := mkboot (bt_mem s) v.
Abbreviation BM := (M boot).

Definition in_ (p : Z) : BM Z := λ s, let '(v, d) := inb p (bt_hw s) in Ret v (set_bt_hw d s).
Definition out_ (p v : Z) : BM unit := modify (λ s, set_bt_hw (outb p (v mod 2 ^ 8) (bt_hw s)) s).

(** The fields of [struct elfhdr] and [struct proghdr] at an address. *)
Definition elf_magic (m : mem) (a : Z) : Z := load_word m a.
Definition elf_entry (m : mem) (a : Z) : Z := load_word m (a + 24).
Definition elf_phoff (m : mem) (a : Z) : Z := load_word m (a + 28).
Definition elf_phnum (m : mem) (a : Z) : Z := m (a + 44) + 2 ^ 8 * m (a + 45).
Definition ph_off (m : mem) (a : Z) : Z := load_word m (a + 4).
Definition ph_paddr (m : mem) (a : Z) : Z := load_word m (a + 12).
Definition ph_filesz (m : mem) (a : Z) : Z := load_word m (a + 16).
Definition ph_memsz (m : mem) (a : Z) : Z := load_word m (a + 20).
Definition sizeof_proghdr : Z := 32.

Fixpoint waitdisk (fuel : nat) : BM unit :=
  match fuel with
  | O => fault
  | S fuel' =>
      r ← in_ 0x1F7;
      if negb (Z.land r 0xC0 =? 0x40) then waitdisk fuel' else mret tt
  end.

(** [insl(0x1F0, dst, SECTSIZE/4)] *)
Definition insl_ (dst : Z) : BM unit :=
  '(data, d) ← gets (λ s, insl 0x1f0 (Z.to_nat (SECTSIZE / 4)) (bt_hw s));
  modify (λ s, set_bt_mem (store_bytes (bt_mem s) dst data) (set_bt_hw d s)).

Definition readsect (fuel : nat) (dst offset : Z) : BM unit :=
  waitdisk fuel;;
  out_ 0x1F2 1;;
  out_ 0x1F3 offset;;
  out_ 0x1F4 (Z.shiftr offset 8);;
  out_ 0x1F5 (Z.shiftr offset 16);;
  out_ 0x1F6 (Z.lor (Z.shiftr offset 24) 0xE0);;
  out_ 0x1F7 0x20;;
  waitdisk fuel;;
  insl_ dst.

(** [for(; pa < epa; pa += SECTSIZE, offset++) readsect(pa, offset)] *)
Fixpoint readseg_loop (n fuel : nat) (pa epa offset : Z) : BM unit :=
  if negb (pa <? epa) then mret tt else
  match n with
  | O => fault
  | S n' =>
      readsect fuel pa offset;;
      readseg_loop n' fuel (u32 (pa + SECTSIZE)) epa (u32 (offset + 1))
  end.

Definition readseg (fuel : nat) (pa count offset : Z) : BM unit :=
  let epa := u32 (pa + count) in
  let pa := u32 (pa - offset mod SECTSIZE) in
  let offset := offset / SECTSIZE + 1 in
  readseg_loop (Z.to_nat ((epa - pa) / SECTSIZE + 1)) fuel pa epa offset.

(** The body of the loop over the program headers. *)
Definition load_segment (fuel : nat) (ph : Z) : BM unit :=
  m ← gets bt_mem;
  let pa := ph_paddr m ph in
  readseg fuel pa (ph_filesz m ph) (ph_off m ph);;
  m ← gets bt_mem;
  if ph_filesz m ph <? ph_memsz m ph then
    modify (λ s, set_bt_mem (stosb (bt_mem s) (u32 (pa + ph_filesz m ph)) 0
      (Z.to_nat (ph_memsz m ph - ph_filesz m ph))) s)
  else mret tt.
(** The loop from [ph] on; there are [n] headers left. *)
Fixpoint load_segments (n fuel : nat) (ph : Z) : BM unit :=
  match n with
  | O => mret tt
  | S n' =>
      load_segment fuel ph;;
      load_segments n' fuel (ph + sizeof_proghdr)
  end.

Definition bootmain (fuel : nat) : BM (option Z) :=
  let elf := 0x10000 in
  readseg fuel elf 4096 0;;
  m ← gets bt_mem;
  if negb (elf_magic m elf =? ELF_MAGIC) then mret None else
  load_segments (Z.to_nat (elf_phnum m elf)) fuel (elf + elf_phoff m elf);;
  m ← gets bt_mem;
  mret (Some (elf_entry m elf)).
End boot.
Arguments boot D : clear implicits.
End Boot.

(** ** The kernel that is loaded *)
Section boot.
Context {D : Type} `{!Ports D, !IdeDisk D} (fuel : nat) (Hfuel : (i_max < fuel)%nat).
Implicit Types (s : Boot.boot D) (d : D) (m : mem).

Lemma out_boot p v s : Boot.out_ p v s = Ret tt (Boot.set_bt_hw (outb p (v mod 2 ^ 8) (Boot.bt_hw s)) s).
Proof. done. Qed.

Lemma waitdisk_run s :
  ∃ d, Boot.waitdisk fuel s = Ret tt (Boot.set_bt_hw d s) ∧ i_same (Boot.bt_hw s) d ∧ i_polls d = 0%nat.
Proof using Hfuel.
  pose proof (i_polls_max (Boot.bt_hw s)) as Hmax. remember (i_polls (Boot.bt_hw s)) as n eqn:Hn.
  assert (n < fuel)%nat as Hlt by lia. clear Hfuel Hmax. revert s n Hn Hlt.
  induction fuel as [|f IH]; intros s n Hn Hlt; [lia|]. cbn [Boot.waitdisk]. pose proof (i_status (Boot.bt_hw s)) as Hst.
  assert (Boot.in_ 0x1f7 s = Ret (inb 0x1f7 (Boot.bt_hw s)).1 (Boot.set_bt_hw (inb 0x1f7 (Boot.bt_hw s)).2 s)) as Ei
    by (unfold Boot.in_; by destruct (inb _ _)).
  rewrite (bind_ret _ _ _ _ _ Ei). destruct (inb 0x1f7 (Boot.bt_hw s)) as [r d]. destruct Hst as (Hs & Hp & Hr).
  rewrite <-Hn in *. cbn [fst snd]. case_decide as Hz.
  - destruct Hr as [-> _]. exists d. split_and!; try done. subst n. lia.
  - rewrite (proj2 (Z.eqb_neq _ _)) by done. cbn [negb].
    destruct (IH (Boot.set_bt_hw d s) (pred n)) as (d' & E & Hs' & Hp'); [cbn; by rewrite Hp|lia|].
    exists d'. rewrite E. split_and!; [done| |done]. cbn in Hs'. destruct Hs as (?&?&?), Hs' as (?&?&?).
    unfold i_same. split_and!; congruence.
Qed.

(** The registers of [readsect], and the sector they select. *)
Definition sector_regs (n : Z) : list (Z * Z) :=
  [(0x1f2, 1 mod 2 ^ 8); (0x1f3, n mod 2 ^ 8); (0x1f4, Z.shiftr n 8 mod 2 ^ 8); (0x1f5, Z.shiftr n 16 mod 2 ^ 8);
   (0x1f6, Z.lor (Z.shiftr n 24) 0xe0 mod 2 ^ 8)].

Lemma head_of_drive0 x : 0 <= x < 2 ^ 4 → let v := Z.lor x 0xe0 mod 2 ^ 8 in v mod 2 ^ 4 = x ∧ (v / 2 ^ 4) mod 2 = 0.
Proof.
  intros Hx. assert (Forall (λ y, Z.lor y 0xe0 mod 2 ^ 8 mod 2 ^ 4 = y ∧ (Z.lor y 0xe0 mod 2 ^ 8 / 2 ^ 4) mod 2 = 0) (seqZ 0 16)) as H.
  { vm_compute. repeat constructor. }
  rewrite Forall_forall in H. apply H, elem_of_seqZ. lia.
Qed.

Lemma sector_selects n d :
  0 <= n < 2 ^ 28 → i_polls d = 0%nat →
  let d' := foldl (λ d pv, outb pv.1 pv.2 d) d (sector_regs n) in
  i_polls d' = 0%nat ∧ i_sect d' = i_sect d ∧ i_phase d' = i_phase d ∧ i_regs d' 0x1f2 = 1
  ∧ tf_drive (i_regs d') = 0 ∧ tf_lba (i_regs d') = n.
Proof.
  intros Hn Hp d'. destruct (select_all (sector_regs n) d Hp) as (W & S & P & R).
  { repeat constructor; cbn; lia. }
  assert (0 <= Z.shiftr n 24 < 2 ^ 4) as Hh.
  { rewrite Z.shiftr_div_pow2 by lia. Z.to_euclidean_division_equations; lia. }
  destruct (head_of_drive0 _ Hh) as [H1 H2].
  split_and!; [done|done|done|by rewrite R|..]; unfold tf_drive, tf_lba; rewrite !R; unfold sector_regs;
    cbn [foldl fst snd Z.eqb Pos.eqb]; [exact H2|]. rewrite H1, !Z.shiftr_div_pow2 by lia.
  Z.to_euclidean_division_equations; lia.
Qed.

Lemma readsect_run s dst n :
  i_phase (Boot.bt_hw s) = PIdle → 0 <= n < 2 ^ 28 →
  ∃ d, Boot.readsect fuel dst n s = Ret tt (Boot.mkboot (store_bytes (Boot.bt_mem s) dst (i_sect (Boot.bt_hw s) 0 n)) d)
    ∧ i_phase d = PIdle ∧ i_sect d = i_sect (Boot.bt_hw s).
Proof using Hfuel.
  intros Hph Hn. unfold Boot.readsect. destruct (waitdisk_run s) as (d0 & E0 & (R0 & S0 & P0) & W0).
  rewrite (bind_ret _ _ _ _ _ E0), !(bind_ret _ _ _ _ _ (out_boot _ _ _)).
  destruct (sector_selects n d0 Hn W0) as (W1 & S1 & P1 & C1 & Dr1 & L1). set (d1 := foldl _ d0 (sector_regs n)) in *.
  destruct (i_read d1 W1 ltac:(congruence) C1) as [P2 S2]. set (d2 := outb 0x1f7 0x20 d1) in *.
  change (Boot.set_bt_hw _ _) with (Boot.mkboot (Boot.bt_mem s) d2).
  destruct (waitdisk_run (Boot.mkboot (Boot.bt_mem s) d2)) as (d3 & E3 & (R3 & S3 & P3) & W3).
  rewrite (bind_ret _ _ _ _ _ E3). unfold Boot.insl_. rewrite bind_gets. change (Z.to_nat (Boot.SECTSIZE / 4)) with 128%nat.
  cbn [Boot.bt_hw Boot.set_bt_hw] in *. assert (i_phase d3 = PRead 0 n) as Hp3 by (rewrite P3; cbn [Boot.bt_hw]; by rewrite P2, Dr1, L1).
  pose proof (i_insl d3 0 n W3 Hp3) as Hi.
  destruct (insl 0x1f0 128 d3) as [data d4]. destruct Hi as (-> & P4 & S4).
  assert (i_sect d3 = i_sect (Boot.bt_hw s)) as Hs3 by (rewrite S3; cbn [Boot.bt_hw]; by rewrite S2, S1, S0).
  exists d4. rewrite <-Hs3. done.
Qed.

(** The content of the first disk from its second sector on. *)
Definition image d : mem := λ j, byte_at (i_sect d 0 (j / 512 + 1)) (Z.to_nat (j mod 512)).

Definition sectors (a b : Z) : Z := (b - a + 511) / 512.

Lemma readseg_loop_run n s pa epa off :
  i_phase (Boot.bt_hw s) = PIdle → (∀ k, length (i_sect (Boot.bt_hw s) 0 k) = 512%nat) →
  0 <= pa → epa + 512 < 2 ^ 32 → 0 <= off → off + sectors pa epa < 2 ^ 28 → sectors pa epa <= Z.of_nat n →
  ∃ s', Boot.readseg_loop n fuel pa epa off s = Ret tt s' ∧ i_phase (Boot.bt_hw s') = PIdle
    ∧ i_sect (Boot.bt_hw s') = i_sect (Boot.bt_hw s)
    ∧ ∀ x, Boot.bt_mem s' x = if decide (pa <= x < pa + 512 * sectors pa epa)
        then byte_at (i_sect (Boot.bt_hw s) 0 (off + (x - pa) / 512)) (Z.to_nat ((x - pa) mod 512)) else Boot.bt_mem s x.
Proof using Hfuel.
  unfold sectors. revert s pa off. induction n as [|n IH]; intros s pa off Hph Hlen Hpa Hepa Hoff Hmax Hn.
  all: cbn [Boot.readseg_loop]; destruct (Z.ltb_spec pa epa) as [Hlt|Hge]; cbn [negb].
  1: exfalso; Z.to_euclidean_division_equations; lia.
  1,3: exists s; split_and!; try done; intros x; rewrite decide_False; [done|]; Z.to_euclidean_division_equations; lia.
  assert (sectors pa epa = 1 + sectors (pa + 512) epa) as Hsec by (unfold sectors; Z.to_euclidean_division_equations; lia).
  unfold sectors in Hsec. assert (0 <= (epa - (pa + 512) + 511) / 512) as Hnn by (apply Z.div_pos; lia).
  destruct (readsect_run s pa off Hph ltac:(lia)) as (d & E & P & S). rewrite (bind_ret _ _ _ _ _ E).
  change Boot.SECTSIZE with 512. rewrite !u32_id by (unfold is_u32; lia). set (s1 := Boot.mkboot _ d).
  destruct (IH s1 (pa + 512) (off + 1)) as (s2 & E2 & P2 & S2 & M2); [done|cbn; by rewrite S|lia|lia|lia|lia|lia|].
  exists s2. split_and!; [done|done|cbn in S2; congruence|]. intros x. rewrite M2. cbn. rewrite S, store_bytes_spec, Hlen, Hsec.
  change (Z.of_nat 512) with 512. destruct (decide (pa <= x < pa + 512)) as [Hx|Hx].
  - rewrite decide_False by lia. rewrite decide_True by lia. unfold byte_at.
    rewrite (Z.div_small (x - pa)), (Z.mod_small (x - pa)), Z.add_0_r by lia. done.
  - case_decide as Hc.
    + rewrite decide_True by lia. f_equal; [|f_equal]; [f_equal|]; Z.to_euclidean_division_equations; lia.
    + by rewrite decide_False by lia.
Qed.

(** The disk between two reads. *)
Definition disk_ok d : Prop := i_phase d = PIdle ∧ ∀ k, blk_ok (i_sect d 0 k).

Lemma readseg_run s pa count off :
  disk_ok (Boot.bt_hw s) → 0 <= count → 0 <= off < 2 ^ 32 → 0 <= pa - off mod 512 → pa + count + 512 < 2 ^ 32 →
  let st := pa - off mod 512 in
  ∃ s', Boot.readseg fuel pa count off s = Ret tt s' ∧ disk_ok (Boot.bt_hw s')
    ∧ image (Boot.bt_hw s') = image (Boot.bt_hw s)
    ∧ (∀ x, st <= x < pa + count → Boot.bt_mem s' x = image (Boot.bt_hw s) (off + (x - pa)))
    ∧ ∀ x, x < st → Boot.bt_mem s' x = Boot.bt_mem s x.
Proof using Hfuel.
  intros [Hph Hok] Hc Ho Hst Hmax st. unfold Boot.readseg. change Boot.SECTSIZE with 512. fold st.
  pose proof (Z.mod_pos_bound off 512 ltac:(lia)) as Hmod. pose proof (Z.div_mod off 512 ltac:(lia)) as Hdm.
  assert (0 <= off / 512 <= 2 ^ 23) as Hq by (split; [apply Z.div_pos; lia|apply Z.div_le_upper_bound; lia]).
  rewrite !u32_id by (unfold is_u32, st in *; lia).
  destruct (readseg_loop_run (Z.to_nat ((pa + count - st) / 512 + 1)) s st (pa + count) (off / 512 + 1)) as (s' & E & P & S & M);
    [done|intros k; apply Hok|done|lia|lia| | |].
  1,2: unfold sectors; Z.to_euclidean_division_equations; lia.
  exists s'. split; [done|]. split; [split; [done|by rewrite S]|].
  split; [unfold image; by rewrite S|]. split; [|intros x Hx; rewrite M; by rewrite decide_False by lia].
  intros x Hx. rewrite M, decide_True; [|unfold sectors; Z.to_euclidean_division_equations; lia]. unfold image.
  replace (off + (x - pa)) with (x - st + off / 512 * 512) by (unfold st; lia).
  rewrite Z.div_add, Z_mod_plus_full by lia. f_equal. f_equal. lia.
Qed.

(** ** The segments *)
Record segment := mkseg { sg_pa : Z; sg_off : Z; sg_filesz : Z; sg_memsz : Z }.
Definition segment_at m (a : Z) : segment :=
  mkseg (Boot.ph_paddr m a) (Boot.ph_off m a) (Boot.ph_filesz m a) (Boot.ph_memsz m a).
Definition sg_start (g : segment) : Z := sg_pa g - sg_off g mod 512.
Definition sg_end (g : segment) : Z := sg_pa g + sg_memsz g.
(** In memory above the first page that is read, the file part not larger than the rest. *)
Definition segment_ok (g : segment) : Prop :=
  0x11000 <= sg_start g ∧ sg_filesz g <= sg_memsz g ∧ sg_end g + 512 < 2 ^ 32.
(** The segments are in increasing order. *)
Fixpoint increasing (l : list segment) : Prop :=
  match l with [] => True | g :: l' => Forall (λ h, sg_end g <= sg_start h) l' ∧ increasing l' end.

Definition loaded d m (g : segment) : Prop :=
  ∀ k, 0 <= k < sg_memsz g → m (sg_pa g + k) = if k <? sg_filesz g then image d (sg_off g + k) else 0.

Lemma image_bytes d j : disk_ok d → is_byte (image d j).
Proof. intros [_ Hok]. apply byte_at_range, Hok. Qed.

Lemma image_word d j : disk_ok d → is_u32 (load_word (image d) j).
Proof.
  intros Hd. unfold load_word, is_u32.
  pose proof (image_bytes d j Hd). pose proof (image_bytes d (j + 1) Hd). pose proof (image_bytes d (j + 2) Hd).
  pose proof (image_bytes d (j + 3) Hd). unfold is_byte in *. lia.
Qed.

(** The first page holds the beginning of the image. *)
Definition first_page d m : Prop := ∀ x, 0 <= x < 4096 → m (0x10000 + x) = image d x.

Lemma segment_in_page d m a :
  first_page d m → 0 <= a → a + 32 <= 4096 → segment_at m (0x10000 + a) = segment_at (image d) a.
Proof.
  intros Hm Ha Hb. unfold segment_at, Boot.ph_paddr, Boot.ph_off, Boot.ph_filesz, Boot.ph_memsz.
  f_equal; unfold load_word; rewrite <-!Z.add_assoc, !Hm by lia; done.
Qed.

(** One segment. *)
Lemma load_segment_run s a :
  disk_ok (Boot.bt_hw s) → first_page (Boot.bt_hw s) (Boot.bt_mem s) → 0 <= a → a + 32 <= 4096 →
  let g := segment_at (image (Boot.bt_hw s)) a in
  segment_ok g →
  ∃ s', Boot.load_segment fuel (0x10000 + a) s = Ret tt s'
    ∧ disk_ok (Boot.bt_hw s') ∧ image (Boot.bt_hw s') = image (Boot.bt_hw s)
    ∧ loaded (Boot.bt_hw s) (Boot.bt_mem s') g ∧ ∀ x, x < sg_start g → Boot.bt_mem s' x = Boot.bt_mem s x.
Proof using Hfuel.
  intros Hd Hm Ha Hb g (G1 & G2 & G3). unfold Boot.load_segment. rewrite bind_gets. cbn zeta.
  pose proof (segment_in_page _ _ _ Hm Ha Hb) as Hg. fold g in Hg.
  set (pa := Boot.ph_paddr (Boot.bt_mem s) (0x10000 + a)). set (fsz := Boot.ph_filesz (Boot.bt_mem s) (0x10000 + a)).
  set (off := Boot.ph_off (Boot.bt_mem s) (0x10000 + a)).
  assert (pa = sg_pa g ∧ off = sg_off g ∧ fsz = sg_filesz g) as (Epa & Eoff & Efsz) by (by rewrite <-Hg).
  assert (is_u32 (sg_off g) ∧ is_u32 (sg_filesz g)) as [U1 U2] by (split; by apply image_word).
  unfold is_u32, sg_end, sg_start in *. pose proof (Z.mod_pos_bound (sg_off g) 512 ltac:(lia)) as Hmod.
  rewrite Epa, Eoff, Efsz.
  destruct (readseg_run s (sg_pa g) (sg_filesz g) (sg_off g)) as (s1 & E1 & D1 & I1 & M1 & M1'); [done|lia|lia|lia|lia|].
  rewrite (bind_ret _ _ _ _ _ E1), bind_gets.
  assert (first_page (Boot.bt_hw s) (Boot.bt_mem s1)) as Hm1 by (intros x Hx; rewrite M1' by lia; by apply Hm).
  pose proof (segment_in_page _ _ _ Hm1 Ha Hb) as Hg1. fold g in Hg1.
  change (Boot.ph_filesz (Boot.bt_mem s1) (0x10000 + a)) with (sg_filesz (segment_at (Boot.bt_mem s1) (0x10000 + a))).
  change (Boot.ph_memsz (Boot.bt_mem s1) (0x10000 + a)) with (sg_memsz (segment_at (Boot.bt_mem s1) (0x10000 + a))).
  rewrite Hg1. destruct (Z.ltb_spec (sg_filesz g) (sg_memsz g)) as [Hlt|Hge].
  - eexists. split; [done|]. cbn [Boot.bt_mem Boot.set_bt_mem Boot.bt_hw]. rewrite u32_id by (unfold is_u32; lia). split_and!; [done|done|..].
    + intros k Hk. rewrite stosb_spec. destruct (Z.ltb_spec k (sg_filesz g)).
      * rewrite decide_False, M1 by lia. f_equal. lia.
      * by rewrite decide_True by lia.
    + intros x Hx. rewrite stosb_spec, decide_False by lia. by apply M1'.
  - exists s1. split_and!; try done. intros k Hk. rewrite (proj2 (Z.ltb_lt _ _)), M1 by lia. f_equal. lia.
Qed.

(** The program headers from [a] on. *)
Fixpoint segments m (a : Z) (n : nat) : list segment :=
  match n with O => [] | S n' => segment_at m a :: segments m (a + 32) n' end.

Lemma load_segments_run n s a :
  disk_ok (Boot.bt_hw s) → first_page (Boot.bt_hw s) (Boot.bt_mem s) → 0 <= a → a + 32 * Z.of_nat n <= 4096 →
  let segs := segments (image (Boot.bt_hw s)) a n in
  Forall segment_ok segs → increasing segs →
  ∃ s', Boot.load_segments n fuel (0x10000 + a) s = Ret tt s'
    ∧ Forall (loaded (Boot.bt_hw s) (Boot.bt_mem s')) segs
    ∧ ∀ x, Forall (λ g, x < sg_start g) segs → Boot.bt_mem s' x = Boot.bt_mem s x.
Proof using Hfuel.
  revert s a. induction n as [|n IH]; intros s a Hd Hm Ha Hn segs Hok Hinc; [by exists s|].
  cbn [segments] in segs. apply Forall_cons in Hok as [G1 Hok]. destruct Hinc as [Hlt Hinc].
  destruct (load_segment_run s a Hd Hm Ha ltac:(lia) G1) as (s1 & E1 & D1 & I1 & L1 & M1).
  set (g := segment_at (image (Boot.bt_hw s)) a) in *.
  assert (first_page (Boot.bt_hw s1) (Boot.bt_mem s1)) as Hm1.
  { intros x Hx. rewrite I1, M1; [by apply Hm|]. destruct G1. lia. }
  destruct (IH s1 (a + 32) D1 Hm1) as (s2 & E2 & L2 & M2); [lia|lia|by rewrite I1|by rewrite I1|].
  rewrite I1 in L2, M2. exists s2. split; [|split].
  - cbn [Boot.load_segments]. change Boot.sizeof_proghdr with 32. by rewrite (bind_ret _ _ _ _ _ E1), <-Z.add_assoc.
  - constructor.
    + intros k Hk. rewrite M2; [by apply L1|]. eapply Forall_impl; [exact Hlt|]. intros h Hh. unfold sg_end in Hh. cbn beta in *. lia.
    + eapply Forall_impl; [exact L2|]. intros h Hh k Hk. rewrite Hh by done. by rewrite I1.
  - intros x Hx. apply Forall_cons in Hx as [Hx1 Hx2]. rewrite M2, M1; done.
Qed.

(** C14: the boot loader.  When the first page of the disk says that it holds a kernel whose
    segments are in increasing order above the page, [bootmain] returns the entry point of
    the header with every segment in memory: the bytes of the file, and zeros after them.
    Without the signature it returns to its caller. *)
Theorem bootmain_loads s :
  let disk := image (Boot.bt_hw s) in
  let segs := segments disk (Boot.elf_phoff disk 0) (Z.to_nat (Boot.elf_phnum disk 0)) in
  disk_ok (Boot.bt_hw s) →
  Boot.elf_phoff disk 0 + 32 * Boot.elf_phnum disk 0 <= 4096 → Forall segment_ok segs → increasing segs →
  if Boot.elf_magic disk 0 =? Boot.ELF_MAGIC then
    ∃ s', Boot.bootmain fuel s = Ret (Some (Boot.elf_entry disk 0)) s'
      ∧ Forall (loaded (Boot.bt_hw s) (Boot.bt_mem s')) segs
  else ∃ s', Boot.bootmain fuel s = Ret None s'.
Proof using Hfuel.
  intros disk segs Hd Hph Hok Hinc. unfold Boot.bootmain.
  destruct (readseg_run s 0x10000 4096 0 Hd) as (s1 & E1 & D1 & I1 & M1 & _); [lia|lia|done|lia|].
  rewrite (bind_ret _ _ _ _ _ E1), bind_gets.
  assert (first_page (Boot.bt_hw s) (Boot.bt_mem s1)) as Hm.
  { intros x Hx. rewrite M1 by (change (0 mod 512) with 0; lia). f_equal. lia. }
  assert (∀ x, 0 <= x → x + 4 <= 4096 → load_word (Boot.bt_mem s1) (0x10000 + x) = load_word disk x) as Hw.
  { intros x Hx Hx'. unfold load_word. rewrite <-!Z.add_assoc, !Hm by lia. done. }
  assert (Boot.elf_phnum (Boot.bt_mem s1) 0x10000 = Boot.elf_phnum disk 0) as En
    by (unfold Boot.elf_phnum; by rewrite !Hm by lia).
  assert (Boot.elf_phoff (Boot.bt_mem s1) 0x10000 = Boot.elf_phoff disk 0) as Eo by (by apply (Hw 28)).
  assert (Boot.elf_magic (Boot.bt_mem s1) 0x10000 = Boot.elf_magic disk 0) as Em by (by apply (Hw 0)).
  rewrite Em, En, Eo. destruct (Boot.elf_magic disk 0 =? Boot.ELF_MAGIC); cbn [negb]; [|by exists s1].
  assert (0 <= Boot.elf_phoff disk 0) as Ho by (by apply image_word).
  assert (0 <= Boot.elf_phnum disk 0) as Hn.
  { unfold Boot.elf_phnum. pose proof (image_bytes _ (0 + 44) Hd). pose proof (image_bytes _ (0 + 45) Hd).
    unfold is_byte, disk in *. lia. }
  destruct (load_segments_run (Z.to_nat (Boot.elf_phnum disk 0)) s1 (Boot.elf_phoff disk 0)) as (s2 & E2 & L2 & M2);
    rewrite ?I1; [done|by intros x Hx; rewrite I1; apply Hm|done|lia|done|done|].
  rewrite I1 in L2, M2. fold disk segs in L2, M2. rewrite (bind_ret _ _ _ _ _ E2), bind_gets. exists s2. split.
  - unfold Boot.elf_entry. rewrite (load_word_ext _ (Boot.bt_mem s1)); [by rewrite (Hw 24) by lia|].
    intros x Hx. apply M2. eapply Forall_impl; [exact Hok|]. intros g [Hg _]. lia.
  - eapply Forall_impl; [exact L2|]. intros g Hg k Hk. rewrite Hg by done. by rewrite I1.
Qed.
End boot.

(** A kernel of one segment: 600 bytes of the file and 400 zeros at 0x100000. *)
Definition demo_header : list Z :=
  [127; 69; 76; 70] ++ replicate 20 0 ++ [0; 0; 16; 0] ++ [52; 0; 0; 0] ++ replicate 12 0 ++ [1; 0] ++ replicate 6 0
  ++ [1; 0; 0; 0] ++ [0; 16; 0; 0] ++ replicate 4 0 ++ [0; 0; 16; 0] ++ [88; 2; 0; 0] ++ [232; 3; 0; 0] ++ replicate 436 0.
Definition demo_disk : controller :=
  mkctl (λ _, 0) (λ _ n, if n =? 1 then demo_header else replicate 512 7) PIdle Ready.

Lemma bytes_check l : forallb (λ b, (0 <=? b) && (b <? 2 ^ 8)) l = true → bytes_ok l.
Proof.
  intros H. rewrite forallb_forall in H. apply List.Forall_forall. intros b Hb.
  specialize (H b Hb). apply andb_true_iff in H as [H1 H2]. unfold is_byte. lia.
Qed.

Lemma bootmain_loads_witness :
  ∃ s', Boot.bootmain 3 (Boot.mkboot (λ _, 0) demo_disk) = Ret (Some 0x100000) s'
    ∧ Boot.bt_mem s' 0x100000 = 7 ∧ Boot.bt_mem s' (0x100000 + 600) = 0.
Proof.
  assert (i_max (D := controller) < 3)%nat as Hf by (cbn; lia).
  assert (segments (image demo_disk) (Boot.elf_phoff (image demo_disk) 0) (Z.to_nat (Boot.elf_phnum (image demo_disk) 0))
    = [mkseg 0x100000 4096 600 1000]) as Hseg by (vm_compute; reflexivity).
  destruct (bootmain_loads 3 Hf (Boot.mkboot (λ _, 0) demo_disk)) as (s' & E & L).
  - split; [reflexivity|]. intros k.
    change (blk_ok (if k =? 1 then demo_header else replicate 512 7)).
    destruct (k =? 1); (split; [reflexivity|apply bytes_check; vm_compute; reflexivity]).
  - vm_compute. discriminate.
  - cbn [Boot.bt_hw]. rewrite Hseg. apply Forall_singleton. unfold segment_ok. split_and!; vm_compute; (discriminate || reflexivity).
  - cbn [Boot.bt_hw]. rewrite Hseg. by split; [apply Forall_nil_2|].
  - exists s'. split; [exact E|]. cbn [Boot.bt_hw] in L. rewrite Hseg in L. apply Forall_cons in L as [L _].
    split; [exact (L 0 ltac:(cbn; lia))|exact (L 600 ltac:(cbn; lia))].
Defined.
