(* ===== verification/Cpu.v ===== *)
(** * The tables of the processor (mmu.h, seginit of vm.c, tvinit of trap.c, mycpu of proc.c,
      entrypgdir of main.c)

    Segment and gate descriptors are structures of bit fields that the processor reads as
    words of 64 bits, at places of its own.  [pack] lays the fields out, from the lowest
    bit on; [seg_base], [gate_offset] and the like are what the processor makes of a word.
    The theorems say what it finds after [seginit], [switchuvm] and [tvinit]. *)
From S2P Require Import Prelude Params Kalloc Vm Hw Devices Mp.

Module Cpu.
(** ** mmu.h *)
Definition FL_IF : Z := 0x200.
Definition SEG_KCODE : nat := 1.
Definition SEG_KDATA : nat := 2.
Definition SEG_UCODE : nat := 3.
Definition SEG_UDATA : nat := 4.
Definition SEG_TSS : nat := 5.
Definition NSEGS : nat := 6.
Definition DPL_USER : Z := 3.
Definition STA_X : Z := 8.
Definition STA_W : Z := 2.
Definition STA_R : Z := 2.
Definition STS_T32A : Z := 9.
Definition STS_IG32 : Z := 14.
Definition STS_TG32 : Z := 15.

(** A bit field of [w] bits. *)
Definition fit (w v : Z) : Z := v mod 2 ^ w.

Record segdesc := mkseg {
  lim_15_0 : Z; base_15_0 : Z; base_23_16 : Z; sd_type : Z; sd_s : Z; sd_dpl : Z; sd_p : Z;
  lim_19_16 : Z; sd_avl : Z; sd_rsv1 : Z; sd_db : Z; sd_g : Z; base_31_24 : Z
}.
Definition SEG (type base lim dpl : Z) : segdesc :=
  mkseg (fit 16 (Z.land (Z.shiftr lim 12) 0xffff)) (fit 16 (Z.land (u32 base) 0xffff))
    (fit 8 (Z.land (Z.shiftr (u32 base) 16) 0xff)) (fit 4 type) 1 (fit 2 dpl) 1
    (fit 4 (Z.shiftr (u32 lim) 28)) 0 0 1 1 (fit 8 (Z.shiftr (u32 base) 24)).
Definition SEG16 (type base lim dpl : Z) : segdesc :=
  mkseg (fit 16 (Z.land lim 0xffff)) (fit 16 (Z.land (u32 base) 0xffff))
    (fit 8 (Z.land (Z.shiftr (u32 base) 16) 0xff)) (fit 4 type) 1 (fit 2 dpl) 1
    (fit 4 (Z.shiftr (u32 lim) 16)) 0 0 1 0 (fit 8 (Z.shiftr (u32 base) 24)).
Definition set_sd_s (v : Z) (d : segdesc) : segdesc :=
  mkseg (lim_15_0 d) (base_15_0 d) (base_23_16 d) (sd_type d) (fit 1 v) (sd_dpl d) (sd_p d)
    (lim_19_16 d) (sd_avl d) (sd_rsv1 d) (sd_db d) (sd_g d) (base_31_24 d).

Record gatedesc := mkgate {
  off_15_0 : Z; gd_cs : Z; gd_args : Z; gd_rsv1 : Z; gd_type : Z; gd_s : Z; gd_dpl : Z; gd_p : Z; off_31_16 : Z
}.
Definition SETGATE (istrap : bool) (sel off d : Z) : gatedesc :=
  mkgate (fit 16 (Z.land (u32 off) 0xffff)) (fit 16 sel) 0 0 (fit 4 (if istrap then STS_TG32 else STS_IG32)) 0
    (fit 2 d) 1 (fit 16 (Z.shiftr (u32 off) 16)).

(** The layout of the structures. *)
Definition pack (l : list (Z * Z)) : Z := foldr (λ '(w, v) acc, v + 2 ^ w * acc) 0 l.
Definition seg_fields (d : segdesc) : list (Z * Z) :=
  [(16, lim_15_0 d); (16, base_15_0 d); (8, base_23_16 d); (4, sd_type d); (1, sd_s d); (2, sd_dpl d); (1, sd_p d);
    (4, lim_19_16 d); (1, sd_avl d); (1, sd_rsv1 d); (1, sd_db d); (1, sd_g d); (8, base_31_24 d)].
Definition seg_word (d : segdesc) : Z := pack (seg_fields d).
Definition gate_fields (g : gatedesc) : list (Z * Z) :=
  [(16, off_15_0 g); (16, gd_cs g); (5, gd_args g); (3, gd_rsv1 g); (4, gd_type g); (1, gd_s g); (2, gd_dpl g);
    (1, gd_p g); (16, off_31_16 g)].
Definition gate_word (g : gatedesc) : Z := pack (gate_fields g).

(** ** seginit, and the task state of switchuvm *)
(** The fields of [struct taskstate] the kernel sets; its size. *)
Record taskstate := mkts { ts_ss0 : Z; ts_esp0 : Z; ts_iomb : Z }.
Definition sizeof_taskstate : Z := 104.

(** Of [struct cpu]; the addresses of [gdt] and [ts]; the operand of [lgdt], the limit and
    the base in three halves, and of [ltr]. *)
Record cpu := mkcpu {
  gdt : list segdesc; ts : taskstate; gdt_addr : Z; ts_addr : Z; gdtr : list Z; tr : Z
}.
Definition set_gdt (v : list segdesc) (c : cpu) : cpu := mkcpu v (ts c) (gdt_addr c) (ts_addr c) (gdtr c) (tr c).
Definition set_ts (v : taskstate) (c : cpu) : cpu := mkcpu (gdt c) v (gdt_addr c) (ts_addr c) (gdtr c) (tr c).
Definition set_gdtr (v : list Z) (c : cpu) : cpu := mkcpu (gdt c) (ts c) (gdt_addr c) (ts_addr c) v (tr c).
Definition set_tr (v : Z) (c : cpu) : cpu := mkcpu (gdt c) (ts c) (gdt_addr c) (ts_addr c) (gdtr c) v.

(** [lgdt] and [lidt]. *)
Definition pseudo_desc (p size : Z) : list Z := [fit 16 (size - 1); fit 16 (u32 p); fit 16 (Z.shiftr (u32 p) 16)].

Definition seginit (c : cpu) : cpu :=
  let c := set_gdt (<[SEG_KCODE := SEG (Z.lor STA_X STA_R) 0 0xffffffff 0]> (gdt c)) c in
  let c := set_gdt (<[SEG_KDATA := SEG STA_W 0 0xffffffff 0]> (gdt c)) c in
  let c := set_gdt (<[SEG_UCODE := SEG (Z.lor STA_X STA_R) 0 0xffffffff DPL_USER]> (gdt c)) c in
  let c := set_gdt (<[SEG_UDATA := SEG STA_W 0 0xffffffff DPL_USER]> (gdt c)) c in
  set_gdtr (pseudo_desc (gdt_addr c) (8 * Z.of_nat NSEGS)) c.

(** What [switchuvm] does to the processor. *)
Definition load_tss (kstack : Z) (c : cpu) : cpu :=
  let d := set_sd_s 0 (SEG16 STS_T32A (ts_addr c) (sizeof_taskstate - 1) 0) in
  let c := set_gdt (<[SEG_TSS := d]> (gdt c)) c in
  let c := set_ts (mkts (8 * Z.of_nat SEG_KDATA) (u32 (kstack + KSTACKSIZE)) 0xffff) c in
  set_tr (8 * Z.of_nat SEG_TSS) c.

(** ** tvinit *)
Definition tvinit (vectors : list Z) (idt : list gatedesc) : list gatedesc :=
  let idt := foldl (λ idt i, <[i := SETGATE false (8 * Z.of_nat SEG_KCODE) (vectors !!! i) 0]> idt) idt (seq 0 256) in
  <[Z.to_nat T_SYSCALL := SETGATE true (8 * Z.of_nat SEG_KCODE) (vectors !!! Z.to_nat T_SYSCALL) DPL_USER]> idt.
Definition idtinit (idt_addr : Z) : list Z := pseudo_desc idt_addr (8 * 256).

(** ** The page directory of entry.S *)
Definition PTE_PS : Z := 0x80.
Definition entrypgdir : list Z :=
  let pd := replicate 1024 0 in
  let pd := <[0%nat := Z.lor (Z.lor (Z.lor 0 PTE_P) PTE_W) PTE_PS]> pd in
  <[Z.to_nat (Z.shiftr KERNBASE 22) := Z.lor (Z.lor (Z.lor 0 PTE_P) PTE_W) PTE_PS]> pd.

(** ** mycpu *)
Section mycpu.
Context {D : Type} `{!Ports D, !Mmio D}.

(** The loop over [cpus]. *)
Fixpoint find_cpu (apicids : list Z) (apicid : Z) (i n : nat) : option nat :=
  match n, apicids with
  | S n', a :: apicids' => if a =? apicid then Some i else find_cpu apicids' apicid (S i) n'
  | _, _ => None
  end.
(** [eflags] is the register; the result the index in [cpus], which is [cpuid()]. *)
Definition mycpu (eflags : Z) (s : Mp.mpst D) : outcome (Mp.mpst D) nat :=
  if negb (Z.land eflags FL_IF =? 0) then Panic "mycpu called with interrupts enabled" else
  match Devices.lapicid (Mp.ms_devs s) with
  | Ret apicid d =>
      match find_cpu (Mp.ms_apicid s) apicid 0 (Z.to_nat (Mp.ms_ncpu s)) with
      | Some i => Ret i (Mp.set_ms_devs d s)
      | None => Panic "unknown apicid"
      end
  | _ => Fault
  end.
End mycpu.
End Cpu.

(** ** What the processor reads *)
(** The [w] bits of a word from bit [lo] on. *)
Definition bits (lo w d : Z) : Z := (d / 2 ^ lo) mod 2 ^ w.

Definition seg_base (d : Z) : Z := bits 16 16 d + 2 ^ 16 * bits 32 8 d + 2 ^ 24 * bits 56 8 d.
Definition seg_limit (d : Z) : Z :=
  let l := bits 0 16 d + 2 ^ 16 * bits 48 4 d in if bits 55 1 d =? 1 then 2 ^ 12 * l + 4095 else l.
(** The type, the bit of application segments, the privilege level, the present bit. *)
Definition access (d : Z) : Z * Z * Z * Z := (bits 40 4 d, bits 44 1 d, bits 45 2 d, bits 47 1 d).
Definition gate_offset (d : Z) : Z := bits 0 16 d + 2 ^ 16 * bits 48 16 d.
Definition gate_selector (d : Z) : Z := bits 16 16 d.
Definition table_base (pd : list Z) : Z := pd !!! 1%nat + 2 ^ 16 * pd !!! 2%nat.

(** A linear address through a directory of pages of 4 MB. *)
Definition big_page (pd : list Z) (va : Z) : option Z :=
  let pde := pd !!! Z.to_nat (va / 2 ^ 22) in
  if (Z.land pde PTE_P =? 0) || (Z.land pde Cpu.PTE_PS =? 0) then None
  else Some (2 ^ 22 * (pde / 2 ^ 22) + va mod 2 ^ 22).

(** *** Fields of a packed word *)
Definition fields_ok : list (Z * Z) → Prop := Forall (λ p, 0 <= p.1 ∧ 0 <= p.2 < 2 ^ p.1).
Definition width (l : list (Z * Z)) : Z := foldr (λ p n, p.1 + n) 0 l.

Lemma width_nonneg l : fields_ok l → 0 <= width l.
Proof. induction 1 as [|[w v] l [H1 _] _ IH]; [done|]. change (width ((w, v) :: l)) with (w + width l). cbn in H1. lia. Qed.

Lemma bits_pack l1 w v l2 :
  fields_ok l1 → 0 <= w → 0 <= v < 2 ^ w → bits (width l1) w (Cpu.pack (l1 ++ (w, v) :: l2)) = v.
Proof.
  intros H1 Hw Hv. unfold bits. induction H1 as [|[w1 v1] l1 [Hw1 Hv1] Hl IH].
  - cbn [app width foldr Cpu.pack]. rewrite Z.pow_0_r, Z.div_1_r, (Z.mul_comm (2 ^ w)), Z_mod_plus_full. by apply Z.mod_small.
  - cbn in Hw1, Hv1. pose proof (width_nonneg _ Hl). change (width ((w1, v1) :: l1)) with (w1 + width l1).
    change (Cpu.pack (((w1, v1) :: l1) ++ (w, v) :: l2)) with (v1 + 2 ^ w1 * Cpu.pack (l1 ++ (w, v) :: l2)). rewrite Z.pow_add_r by lia.
    rewrite <-Z.div_div by lia. rewrite (Z.mul_comm (2 ^ w1)), Z_div_plus_full, (Z.div_small v1) by lia. exact IH.
Qed.

(** The field of a list at an index. *)
Lemma bits_at l i w v lo :
  fields_ok l → l !! i = Some (w, v) → lo = width (take i l) → bits lo w (Cpu.pack l) = v.
Proof.
  intros Hl Hi ->. rewrite <-(take_drop_middle l i (w, v) Hi) at 2. unfold fields_ok in Hl.
  pose proof (Forall_lookup_1 _ _ _ _ Hl Hi) as [H1 H2]. apply bits_pack; [by apply Forall_take|done|done].
Qed.

(** A word of 32 bits is the sum of its parts. *)
Lemma fit_range w v : 0 <= w → 0 <= Cpu.fit w v < 2 ^ w.
Proof. intros Hw. apply Z.mod_pos_bound. lia. Qed.

(** A word of 32 bits in two halves. *)
Lemma halves_32 v : is_u32 v → Cpu.fit 16 (Z.land (u32 v) 0xffff) + 2 ^ 16 * Cpu.fit 16 (Z.shiftr (u32 v) 16) = v.
Proof.
  intros Hv. unfold is_u32, u32, Cpu.fit in *. change 0xffff with (Z.ones 16).
  rewrite Z.land_ones, Z.shiftr_div_pow2 by lia. rewrite (Z.mod_small v) by lia. divlia.
Qed.
Lemma thirds_32 v : is_u32 v →
  Cpu.fit 16 (Z.land (u32 v) 0xffff) + 2 ^ 16 * Cpu.fit 8 (Z.land (Z.shiftr (u32 v) 16) 0xff)
  + 2 ^ 24 * Cpu.fit 8 (Z.shiftr (u32 v) 24) = v.
Proof.
  intros Hv. unfold is_u32, u32, Cpu.fit in *. change 0xffff with (Z.ones 16). change 0xff with (Z.ones 8).
  rewrite !Z.land_ones, !Z.shiftr_div_pow2 by lia. rewrite (Z.mod_small v) by lia. divlia.
Qed.

Lemma gate_reads trap sel off dpl (g := Cpu.gate_word (Cpu.SETGATE trap sel off dpl)) :
  is_u32 off → 0 <= sel < 2 ^ 16 → 0 <= dpl < 4 →
  gate_offset g = off ∧ gate_selector g = sel
  ∧ access g = (if trap then Cpu.STS_TG32 else Cpu.STS_IG32, 0, dpl, 1).
Proof.
  intros Ho Hs Hd. set (gd := Cpu.SETGATE trap sel off dpl). subst g. fold gd.
  assert (fields_ok (Cpu.gate_fields gd)) as Hok.
  { repeat constructor; cbn [fst snd Cpu.gate_fields]; try lia; try apply fit_range; try (cbn; lia); destruct trap; cbn; lia. }
  unfold Cpu.gate_word, gate_offset, gate_selector, access.
  rewrite (bits_at _ 0 16 (Cpu.off_15_0 gd)), (bits_at _ 8 16 (Cpu.off_31_16 gd) 48), (bits_at _ 1 16 (Cpu.gd_cs gd) 16),
    (bits_at _ 4 4 (Cpu.gd_type gd) 40), (bits_at _ 5 1 (Cpu.gd_s gd) 44), (bits_at _ 6 2 (Cpu.gd_dpl gd) 45),
    (bits_at _ 7 1 (Cpu.gd_p gd) 47) by (done || reflexivity).
  split_and!; [by apply halves_32| |].
  - apply Z.mod_small. done.
  - cbn [Cpu.gd_type Cpu.gd_s Cpu.gd_dpl Cpu.gd_p Cpu.SETGATE gd]. unfold Cpu.fit. rewrite (Z.mod_small dpl) by (cbn; lia).
    by destruct trap.
Qed.

(** The descriptor of the task state. *)
Lemma tss_reads base lim (d := Cpu.seg_word (Cpu.set_sd_s 0 (Cpu.SEG16 Cpu.STS_T32A base lim 0))) :
  is_u32 base → 0 <= lim < 2 ^ 16 → seg_base d = base ∧ seg_limit d = lim ∧ access d = (Cpu.STS_T32A, 0, 0, 1).
Proof.
  intros Hb Hl. set (sd := Cpu.set_sd_s 0 (Cpu.SEG16 Cpu.STS_T32A base lim 0)). subst d. fold sd.
  assert (fields_ok (Cpu.seg_fields sd)) as Hok.
  { repeat constructor; cbn [fst snd Cpu.seg_fields]; try lia; try apply fit_range; cbn; lia. }
  unfold Cpu.seg_word, seg_base, seg_limit, access.
  rewrite (bits_at _ 1 16 (Cpu.base_15_0 sd)), (bits_at _ 2 8 (Cpu.base_23_16 sd) 32), (bits_at _ 12 8 (Cpu.base_31_24 sd) 56),
    (bits_at _ 0 16 (Cpu.lim_15_0 sd) 0), (bits_at _ 7 4 (Cpu.lim_19_16 sd) 48), (bits_at _ 11 1 (Cpu.sd_g sd) 55),
    (bits_at _ 3 4 (Cpu.sd_type sd) 40), (bits_at _ 4 1 (Cpu.sd_s sd) 44), (bits_at _ 5 2 (Cpu.sd_dpl sd) 45),
    (bits_at _ 6 1 (Cpu.sd_p sd) 47) by (done || reflexivity).
  split_and!; [by apply thirds_32| |done]. cbn [Cpu.lim_15_0 Cpu.lim_19_16 Cpu.sd_g sd Cpu.set_sd_s Cpu.SEG16 Z.eqb].
  unfold Cpu.fit. change 0xffff with (Z.ones 16). rewrite Z.land_ones, Z.shiftr_div_pow2 by lia.
  rewrite u32_id by (unfold is_u32; lia). divlia.
Qed.

(** ** The theorems *)
(** C39: The processor finds its interrupt gates: after [tvinit] the gate of every vector is
    present, leads to the entry of that vector in the kernel's code segment, and can be
    reached with an int instruction from user mode only when it is the one of system
    calls, which is also the only one that leaves interrupts enabled. *)
Theorem tvinit_gates vectors idt i :
  length vectors = 256%nat → Forall is_u32 vectors → length idt = 256%nat → (i < 256)%nat →
  ∃ g, Cpu.tvinit vectors idt !! i = Some g
    ∧ gate_offset (Cpu.gate_word g) = vectors !!! i
    ∧ gate_selector (Cpu.gate_word g) = 8 * Z.of_nat Cpu.SEG_KCODE
    ∧ access (Cpu.gate_word g) = (if Z.of_nat i =? T_SYSCALL then (Cpu.STS_TG32, 0, Cpu.DPL_USER, 1) else (Cpu.STS_IG32, 0, 0, 1)).
Proof.
  intros Hv Hu Hl Hi.
  assert (∀ n, (n <= 256)%nat → ∀ k, length (foldl (λ idt i, <[i := Cpu.SETGATE false (8 * Z.of_nat Cpu.SEG_KCODE) (vectors !!! i) 0]> idt) idt (seq 0 n)) = 256%nat
     ∧ ((k < n)%nat → foldl (λ idt i, <[i := Cpu.SETGATE false (8 * Z.of_nat Cpu.SEG_KCODE) (vectors !!! i) 0]> idt) idt (seq 0 n) !! k
       = Some (Cpu.SETGATE false (8 * Z.of_nat Cpu.SEG_KCODE) (vectors !!! k) 0))) as Hloop.
  { induction n as [|n IH]; intros Hn k; [split; [done|lia]|]. rewrite seq_S, foldl_app. cbn [foldl Nat.add].
    destruct (IH ltac:(lia) k) as [H1 H2]. split; [by rewrite length_insert|]. intros Hk.
    destruct (decide (k = n)) as [->|]; [rewrite list_lookup_insert_eq by lia; done|].
    rewrite list_lookup_insert_ne by done. apply H2. lia. }
  destruct (Hloop 256%nat ltac:(lia) i) as [H1 H2]. specialize (H2 Hi).
  assert (is_u32 (vectors !!! i)) as Hui.
  { rewrite Forall_lookup in Hu. apply (Hu i). apply list_lookup_lookup_total_lt. lia. }
  unfold Cpu.tvinit. destruct (Z.eqb_spec (Z.of_nat i) T_SYSCALL) as [E|E].
  - replace i with (Z.to_nat T_SYSCALL) in * by lia. rewrite list_lookup_insert_eq by lia. eexists. split; [done|].
    apply gate_reads; [done|unfold Cpu.SEG_KCODE; lia|unfold Cpu.DPL_USER; lia].
  - rewrite list_lookup_insert_ne by (intros <-; by apply E). rewrite H2. eexists. split; [done|]. apply gate_reads; [done|unfold Cpu.SEG_KCODE; lia|lia].
Qed.

Lemma tvinit_gates_witness :
  ∃ g, Cpu.tvinit (replicate 256 0x80105000) (replicate 256 (Cpu.SETGATE false 0 0 0)) !! 64%nat = Some g
    ∧ gate_offset (Cpu.gate_word g) = 0x80105000 ∧ gate_selector (Cpu.gate_word g) = 8
    ∧ access (Cpu.gate_word g) = (15, 0, 3, 1).
Proof.
  apply (tvinit_gates (replicate 256 0x80105000) (replicate 256 (Cpu.SETGATE false 0 0 0)) 64);
    [by rewrite length_replicate|apply Forall_replicate; unfold is_u32; lia|by rewrite length_replicate|lia].
Defined.

(** The segments: code and data of the kernel and of the user are the whole 4 GB, and differ in
    their privilege; [lgdt] gets the address of the table. *)
Definition flat (d : option Cpu.segdesc) (type dpl : Z) : Prop :=
  ∃ sd, d = Some sd ∧ seg_base (Cpu.seg_word sd) = 0 ∧ seg_limit (Cpu.seg_word sd) = 2 ^ 32 - 1
    ∧ access (Cpu.seg_word sd) = (type, 1, dpl, 1).

Theorem seginit_flat c :
  length (Cpu.gdt c) = Cpu.NSEGS → is_u32 (Cpu.gdt_addr c) →
  let c' := Cpu.seginit c in
  flat (Cpu.gdt c' !! Cpu.SEG_KCODE) 10 0 ∧ flat (Cpu.gdt c' !! Cpu.SEG_KDATA) 2 0
  ∧ flat (Cpu.gdt c' !! Cpu.SEG_UCODE) 10 3 ∧ flat (Cpu.gdt c' !! Cpu.SEG_UDATA) 2 3
  ∧ table_base (Cpu.gdtr c') = Cpu.gdt_addr c ∧ Cpu.gdtr c' !!! 0%nat = 47.
Proof.
  intros Hl Ha. destruct c as [[|d0 [|d1 [|d2 [|d3 [|d4 [|d5 [|]]]]]]] ts ga ta gr tr]; try done.
  cbn [Cpu.gdt_addr] in Ha. split_and!; try (eexists; split; [reflexivity|by vm_compute]); [|done].
  unfold table_base. cbn -[Z.mul Z.add Z.pow]. pose proof (halves_32 ga Ha) as H. unfold Cpu.fit in *.
  change 0xffff with (Z.ones 16) in H. rewrite Z.land_ones in H by lia. by rewrite Zmod_mod in H.
Qed.

(** A trap from user mode finds the kernel stack of the process, and user mode has no port. *)
Theorem load_tss_reads kstack c :
  length (Cpu.gdt c) = Cpu.NSEGS → is_u32 (Cpu.ts_addr c) → 0 <= kstack → kstack + KSTACKSIZE < 2 ^ 32 →
  let c' := Cpu.load_tss kstack c in
  Cpu.ts_esp0 (Cpu.ts c') = kstack + KSTACKSIZE ∧ Cpu.ts_ss0 (Cpu.ts c') = 8 * Z.of_nat Cpu.SEG_KDATA
  ∧ ∃ sd, Cpu.gdt c' !! Z.to_nat (Cpu.tr c' / 8) = Some sd
    ∧ seg_base (Cpu.seg_word sd) = Cpu.ts_addr c ∧ seg_limit (Cpu.seg_word sd) = 103
    ∧ access (Cpu.seg_word sd) = (Cpu.STS_T32A, 0, 0, 1)
    ∧ seg_limit (Cpu.seg_word sd) < Cpu.ts_iomb (Cpu.ts c').
Proof.
  intros Hl Ha Hk1 Hk2 c'. split; [apply u32_id; unfold is_u32, KSTACKSIZE in *; lia|]. split; [done|].
  change (Z.to_nat (Cpu.tr c' / 8)) with Cpu.SEG_TSS.
  eexists. split.
  { apply (list_lookup_insert_eq (Cpu.gdt c) Cpu.SEG_TSS). rewrite Hl. by apply Nat.ltb_lt. }
  destruct (tss_reads (Cpu.ts_addr c) (Cpu.sizeof_taskstate - 1) Ha) as (H1 & H2 & H3); [unfold Cpu.sizeof_taskstate; lia|].
  split_and!; [exact H1|exact H2|exact H3|]. rewrite H2. by vm_compute.
Qed.

(** The directory of entry.S maps the first 4 MB at 0 and at KERNBASE, and nothing else. *)
Theorem entrypgdir_maps va :
  is_u32 va →
  big_page Cpu.entrypgdir va =
    if va <? 2 ^ 22 then Some va
    else if (KERNBASE <=? va) && (va <? KERNBASE + 2 ^ 22) then Some (va - KERNBASE) else None.
Proof.
  intros Hv. unfold is_u32 in Hv. unfold big_page.
  assert (∀ k, (k < 1024)%nat → Cpu.entrypgdir !!! k = if bool_decide (k = 0 ∨ k = 512)%nat then 131 else 0) as Hpd.
  { intros k Hk. unfold Cpu.entrypgdir. change (Z.to_nat (Z.shiftr KERNBASE 22)) with 512%nat.
    destruct (decide (k = 512%nat)) as [->|H1]; [by rewrite list_lookup_total_insert_eq by (rewrite length_insert, length_replicate; lia)|].
    rewrite list_lookup_total_insert_ne by done.
    destruct (decide (k = 0%nat)) as [->|H2]; [by rewrite list_lookup_total_insert_eq by (rewrite length_replicate; lia)|].
    rewrite list_lookup_total_insert_ne, lookup_total_replicate_2 by done. rewrite bool_decide_eq_false_2; [done|]. lia. }
  rewrite Hpd by divlia. unfold KERNBASE.
  destruct (Z.ltb_spec va (2 ^ 22)); [|destruct (Z.leb_spec 2147483648 va), (Z.ltb_spec va (2147483648 + 2 ^ 22))]; cbn [andb].
  1,2: rewrite bool_decide_eq_true_2 by divlia; change (Z.land 131 PTE_P =? 0) with false;
    change (Z.land 131 Cpu.PTE_PS =? 0) with false; cbn [orb]; f_equal; change (131 / 2 ^ 22) with 0; divlia.
  all: rewrite bool_decide_eq_false_2 by divlia; done.
Qed.

(** [mycpu] is the processor that runs. *)
Lemma find_cpu_first apicids apicid i j n :
  apicids !! j = Some apicid → (j < n)%nat → (∀ k, (k < j)%nat → apicids !! k ≠ Some apicid) →
  Cpu.find_cpu apicids apicid i n = Some (i + j)%nat.
Proof.
  revert i j n. induction apicids as [|a apicids IH]; intros i j n Hj Hn Hk; [done|]. destruct n as [|n]; [lia|].
  cbn [Cpu.find_cpu]. destruct j as [|j].
  - injection Hj as ->. rewrite Z.eqb_refl. f_equal. lia.
  - rewrite (proj2 (Z.eqb_neq a apicid)) by (intros ->; by apply (Hk 0%nat); [lia|]).
    rewrite (IH (S i) j n); [f_equal; lia|done|lia|]. intros k Hlt. apply (Hk (S k)). lia.
Qed.

Section running.
Context {D : Type} `{!Ports D, !Mmio D}.
Theorem mycpu_running (s : Mp.mpst D) eflags apicid d j :
  Z.land eflags Cpu.FL_IF = 0 → Devices.lapicid (Mp.ms_devs s) = Ret apicid d → NoDup (Mp.ms_apicid s) →
  Mp.ms_apicid s !! j = Some apicid → Z.of_nat j < Mp.ms_ncpu s →
  Cpu.mycpu eflags s = Ret j (Mp.set_ms_devs d s).
Proof.
  intros He Hd Hn Hj Hlt. unfold Cpu.mycpu. rewrite He, Hd. cbn [Z.eqb negb].
  rewrite (find_cpu_first _ _ 0 j); [done|done|lia|]. intros k Hk Hx.
  pose proof (NoDup_lookup _ _ _ _ Hn Hx Hj). lia.
Qed.
End running.
